(* ===== verification/_CoqProject ===== *)
-Q . S2P
Prelude.v
GoFloat.v
Ela.v
Producers.v
ConsensusView.v
Messages.v
Votes.v
Dispatcher.v
BlockPool.v
Routes.v
Rlp.v
Common.v
Header.v
EvilSigners.v
HeaderChain.v
BlockChain.v
BlockImport.v
AccessList.v
StateDB.v
StateSpec.v
StateRefine.v
TrieKeys.v
Trie.v
TrieShape.v
TrieHash.v
Withdraw.v
SmallCross.v
Recharge.v
Evm.v
EvmMachine.v
Abi.v
Blake2b.v
PledgeBill.v
EvmGas.v
Precompiled.v
EvmInstr.v
EvmTable.v
Interpreter.v
EvmSound.v
EvmExec.v
EvmCalls.v
EvmOps.v
InterpreterSound.v
Transition.v
Process.v
TxList.v
TxPool.v
NextTurn.v
PbftVerify.v
Pbft.v
PbftSteps.v
