(* ===== verification/Prelude.v ===== *)
(** * Verification of the Elastos Smart Chain consensus, execution and cross-chain core

    The Elastos Smart Chain (ESC) is a go-ethereum node whose blocks are decided
    by a delegated PBFT consensus of the producers elected on the Elastos main
    chain, and which moves assets between the two chains under the signatures of
    the same producers ("arbiters").  This library models the consensus, the
    cross-chain code, the execution of blocks down to the instructions of the
    virtual machine, the state below it, and the chain of blocks and the pool of
    transactions above it, and proves what makes them correct.

    ** The program and how its parts interact

    - [dpos/producers.go], [dpos/consensusview.go]: who the producers are, whose
      turn it is, how many votes decide, and when the view (the attempt at a
      block) changes.
    - [dpos/proposal.go], [dpos/proposalvote.go], [dpos/confirm.go]: signed
      proposals, votes and confirms; [dpos/message.go], [dpos/msg/]: messages.
    - [dpos/dispatcher.go]: collects the votes on the processing proposal in the
      current view and calls the engine back when it is confirmed or rejected;
      the view calls the engine back when it changes.
    - [dpos/blockpool.go]: blocks and confirms that are not yet in the chain;
      [dpos/routes.go]: the announcement of the producers' network addresses.
    - [consensus/pbft/pbft.go], [consensus/pbft/network.go]: the engine; it
      verifies headers and seals, prepares and seals blocks for the miner, and
      handles the messages of the producers' network.
    - [spv/]: the main chain seen by the node: the producers of a height, the
      change of producers ("turn"), and the deposits, which are recorded, queued
      and sent as recharge transactions.
    - [withdrawfailedtx/]: refunds of withdrawals that failed on the main chain;
      [smallcrosstx/]: small deposits credited on the arbiters' signatures;
      [pledgeBill/]: the bills of votes that contracts may claim.
    - [core/headerchain.go], [core/blockchain.go]: headers and blocks are stored,
      imported, and put on the canonical chain; the chain tells the pool and the
      engine about its head.  [core/evilSigner.go], [core/evil_journal.go]: the
      import of a block looks for two blocks one producer signed at one height.
    - [core/tx_pool.go], [core/tx_list.go]: the transactions that wait.
    - [core/state_processor.go], [core/state_transition.go]: a block is executed
      transaction by transaction; deposits and refunds are credited on the way.
    - [core/vm/]: calls and creation ([evm.go]), the interpreter with its tables,
      instructions and gas, and the native contracts; [accounts/abi/] encodes what
      some of these return, [crypto/blake2b/] is one of them.
    - [core/state/]: accounts, journal and access list over [trie/].
    - [core/types/], [rlp/], [common/]: headers, hashes and their encoding.

    ** The files

    - [Prelude]: machine integers ([u8], [u32], [u64], [i64] wrap around),
      errors, bytes, the order of map iteration ([RangeOrder]: Go leaves it
      unspecified, so every theorem holds for any order), time, hexadecimal
      strings, record update, shared lemmas and automation.  [GoFloat]: IEEE double
      arithmetic.  [Ela]: the main chain's library as the class [ElaLib].
    - [Producers], [ConsensusView], [Messages], [Votes], [Dispatcher],
      [BlockPool], [Routes]: package [dpos], one file per source file (the messages and
      the payloads grouped).  [Dispatcher.Callbacks] is the interface between the
      dispatcher and its engine, [CallbackLaws] what the dispatcher's proofs need of
      it: a [well_behaved] listener, one that makes only guarded calls, keeps them.
    - [Rlp], [Common], [Header]: the encoding, addresses and hashes, headers.
    - [EvilSigners]: evidence of double signing.  [HeaderChain]: the stored headers
      and blocks.  [BlockChain]: writing a block, with the choice of the head and
      the reorganisation.  [BlockImport]: checking and importing a list of blocks.
    - [AccessList], [StateDB]: [core/state]; [StateSpec] is its abstract
      specification, [StateRefine] the refinement of copies by the journal.
    - [TrieKeys], [Trie], [TrieShape], [TrieHash]: keys, insertion and deletion, the
      shape of a trie, its hash.
    - [Withdraw], [SmallCross], [Recharge], [PledgeBill]: the cross-chain packages.
    - [Evm]: calls and creation with the cross-chain cases, over an interpreter that
      keeps [EvmLaws]; [Zone] is a part of the storage that only some steps may write,
      here the marks of executed deposits and refunds.  [EvmMachine], [EvmGas],
      [EvmInstr], [EvmTable], [Interpreter]: memory, stack and jump analysis, prices,
      instructions, tables and the loop.  [EvmSound], [EvmExec], [EvmCalls],
      [EvmOps], [InterpreterSound]: what an instruction and a run may change; the
      modelled interpreter keeps [EvmLaws].
    - [Abi], [Blake2b], [Precompiled]: the encoding of arguments, the compression
      function, the native contracts.
    - [Transition], [Process]: a message and a block.
    - [TxList], [TxPool]: the pool's lists, and the pool.
    - [NextTurn]: producers of the next turn and main-chain blocks.
    - [PbftVerify]: verification of headers, seals and confirms.  [Pbft]: the
      engine's handlers, as actions on the dispatcher and on [Env], the other fields
      of [type Pbft]; it discharges [CallbackLaws].  [PbftSteps]: the handlers as the
      events of one transition system.

    A record models a struct, with one field per field of the source; a function
    or method of the source is the definition of the same name.  Methods that
    change their receiver return the new one.  A Go [error] is an option of its
    message, a panic or a wait that never ends is [None] or sets [stuck].  Code
    outside the repository is a class of parameters with the laws that the code
    relies on ([ElaLib], [Codec], [Keccak], [SpvLib], [Database], [EvmEnv],
    [PoolEnv], [ChainEnv], [RoutesEnv] and the like); each has a concrete instance for the witnesses.

    ** What the theorems show

    - Schedule and quorums ([Producers], [ConsensusView]): over consecutive
      heights, and over consecutive views of one height, every producer has the
      same number of turns; two majorities share more than a third of the
      producers; the view changes exactly by the number of elapsed intervals.
    - Votes ([Dispatcher]): in every state reached by calls that take up a proposal
      and change the producers only when no proposal is processed: the invariant of
      the vote maps, a finished proposal has a certificate, two dispatchers over one
      producer set finish the same proposal unless more than a third of the
      producers are faulty, the votes of a quorum finish it, and the order of map
      iteration does not matter.
    - Engine ([Pbft], [PbftSteps], [PbftVerify]): the invariant under any sequence of
      events; nested view changes end; only verified confirms reach the miner.
    - Block pool ([BlockPool]): methods return, free the mutex and keep the invariant.
      Addresses ([Routes]): the book, the timers and the requests agree in every
      state of a handler that was started.
    - Block chain ([HeaderChain], [BlockChain], [BlockImport]): the canonical hashes
      are one chain from the genesis to the head in every reachable state, the head
      never becomes lighter, a block six below the head stays canonical under the
      PBFT engine while it counts a signer, writing a block returns, importing PBFT
      blocks on a block with its state returns, and every import keeps the chain.
      Evidence ([EvilSigners]) is of two blocks that one producer signed at one height.
    - Transaction pool ([TxList], [TxPool]): the indexed maps refine a list in the
      order of the nonces; table and lists agree in every reachable pool; a
      reorganisation leaves the pool within its limits; the transactions of an
      abandoned branch come back up to a difference of 64 blocks; reorganisations
      return.
    - State ([StateRefine], [Trie], [TrieHash]): reverting to a snapshot restores what
      copying would have kept; the trie is a map and its hash depends on the map alone
      and commits to it.
    - Execution ([Process], [Transition], [Evm], [InterpreterSound]): no two
      transactions of a block execute the same deposit or refund, and a block stays
      within its gas, whatever its contracts do, run by the modelled interpreter;
      calls are atomic; every run of the interpreter ends and keeps its frame, but
      for panics that are named (the rules that take back refunds, a native contract,
      a refund that the client answers with a contract creation); native contracts
      compute what they name ([Precompiled], [Blake2b]); decoding does not panic for
      types of fixed bytes up to 32 and inverts encoding ([Abi]).
    - Encoding ([Rlp], [Header], [Messages]): the buffered encoder computes the
      recursive RLP format; round trips.
    - Cross chain ([Withdraw], [SmallCross], [Recharge], [PledgeBill], [NextTurn]): a
      refund and a small deposit each need a quorum of different arbiters; what is
      announced to the consensus follows the main chain.
    - Some theorems state what the code does where that is not what it means to
      do: one arbiter's signature counts many times, a refund repeats, a static call
      refunds, a removal leaves the transaction pool inconsistent, one producer
      stops the chain, a proposal that is taken up while another is processed is
      finished with the votes on the old one, decoding [bytes33] panics, a reorganisation to a shorter branch leaves old canonical
      hashes, a request for an address is lost; each says so where it stands.

    ** Bounds and fuel

    Counts of producers are below 2^51 where the double arithmetic must be exact
    and encodings shorter than 2^64 bytes in RLP.  Recursion that is not structural
    takes fuel, and a theorem shows that the fuel is enough: the nesting of view
    changes (one more than the waiting proposals, [view_changes_end]), the rounds of
    the interpreter ([2 ^ (log2 gas + 1)] of them, since a round costs gas) and the depth
    of calls (1026, two more than the limit; [loop_terminates]), the walk of a
    reset down the chain (a step per block, [walk_spec]), the rounds of the pool's
    truncation (a round per transaction of an offender, [rounds_enough]), the walks of a
    reorganisation of the chain (one more step than the block's number,
    [writeBlockWithState_returns]) and the deletion of the hashes above the new head
    (one more than there are), and the mutual recursion of an import (one step for
    PBFT blocks on a block with its state, [InsertChain_keeps_chain]; for a pruned branch
    the theorem says what an import that returns leaves).  The price of
    a modular exponentiation is compared below 2^61, where it fits a gas limit.

    ** What is not modelled

    Goroutine scheduling inside a handler (a handler is atomic; goroutines it
    starts are events or outputs), blocking writes to unbuffered channels, mutexes
    other than the block pool's, logging, metrics and configuration.  In the virtual
    machine: tracing, the sharing of jump analyses, and the aliasing of a native
    contract's input with the caller's memory except where a contract writes to it;
    elliptic-curve groups and hash functions are parameters.  The parsing of ABI
    descriptions, the assembly versions of BLAKE2b, the storage under the trie, the
    journal file of the pool.  In the chain: fast sync, rewinding and repair at start,
    the freezer, the caches and the garbage collection of states.  Not at all: the
    peer-to-peer network, RPC, the node's services and tools, the miner's loop, the bridge
    relayer, and the engines inherited from go-ethereum (clique, ethash), which the
    chain does not run with after its first blocks. *)

From Stdlib Require Export ZArith Lia.
From stdpp Require Export base numbers strings pretty sorting gmap sets fin_maps list.

#[export] Set Default Goal Selector "!".

Open Scope Z_scope.

(** ** Record update

    [r <| f := v |>] is the record [r] with field [f] replaced by [v].  A
    record opts in with an [Eta] instance that lists its fields; the update is
    then built by a tactic, and [cbn] reduces any projection of it. *)
Class Eta (R : Type) := eta : R -> R.

Class Updater {R T : Type} (p : R -> T) := update_with : (T -> T) -> R -> R.

Ltac build_updater :=
  match goal with
  | |- @Updater ?R ?T ?p =>
      let f := fresh "f" in
      let r := fresh "r" in
      intros f r;
      let e := eval hnf in (eta r) in
      match eval pattern (p r) in e with
      | ?g _ => let b := eval cbv beta in (g (f (p r))) in exact b
      end
  end.

#[export] Hint Extern 1 (Updater _) => build_updater : typeclass_instances.

Definition set_field {R T : Type} (p : R -> T) `{!Updater p} (v : T) (r : R) : R :=
  update_with (p := p) (fun _ => v) r.

Arguments update_with {R T} p {_} _ _ /.
Arguments set_field {R T} p {_} _ _ /.

Declare Scope record_scope.
Notation "r <| p := v |>" := (set_field p v r)
  (at level 1, left associativity, p at level 200, format "r  <| p  :=  v |>") : record_scope.
Open Scope record_scope.

(** Linear arithmetic with division and remainder by constants. *)
Ltac div_lia := Z.to_euclidean_division_equations; lia.

(** ** Machine integers

    A Go integer of a fixed width is a [Z]; each conversion or overflowing
    operation of the source goes through one of these. *)
Definition u8 (x : Z) : Z := x mod 2 ^ 8.
Definition u32 (x : Z) : Z := x mod 2 ^ 32.
Definition u64 (x : Z) : Z := x mod 2 ^ 64.
Definition i64 (x : Z) : Z := (x + 2 ^ 63) mod 2 ^ 64 - 2 ^ 63.

Definition is_u32 (x : Z) : Prop := 0 <= x < 2 ^ 32.
Definition is_u64 (x : Z) : Prop := 0 <= x < 2 ^ 64.
Definition is_i64 (x : Z) : Prop := - 2 ^ 63 <= x < 2 ^ 63.

Lemma u8_id x : 0 <= x < 2 ^ 8 -> u8 x = x.
Proof. apply Z.mod_small. Qed.

Lemma u32_id x : is_u32 x -> u32 x = x.
Proof. apply Z.mod_small. Qed.

Lemma u64_id x : is_u64 x -> u64 x = x.
Proof. apply Z.mod_small. Qed.

Lemma i64_id x : is_i64 x -> i64 x = x.
Proof. unfold is_i64, i64. intros. rewrite Z.mod_small; lia. Qed.

Lemma u32_range x : is_u32 (u32 x).
Proof. apply Z.mod_pos_bound. lia. Qed.

Lemma u64_range x : is_u64 (u64 x).
Proof. apply Z.mod_pos_bound. lia. Qed.

Lemma i64_range x : is_i64 (i64 x).
Proof. unfold is_i64, i64. pose proof (Z.mod_pos_bound (x + 2 ^ 63) (2 ^ 64)). lia. Qed.

(** A length, as Go's [len] gives it. *)
Definition zlen {A} (l : list A) : Z := Z.of_nat (length l).

Lemma zlen_nonneg {A} (l : list A) : 0 <= zlen l.
Proof. unfold zlen. lia. Qed.

Lemma zlen_app {A} (l k : list A) : zlen (l ++ k) = zlen l + zlen k.
Proof. unfold zlen. rewrite length_app. lia. Qed.

Lemma zlen_cons {A} (x : A) l : zlen (x :: l) = zlen l + 1.
Proof. unfold zlen. simpl. lia. Qed.

Lemma zlen_0_nil {A} (l : list A) : zlen l <= 0 -> l = [].
Proof. unfold zlen. destruct l; simpl; [done | lia]. Qed.

(** ** Errors

    An [error] value of the source is its message; [None] is Go's [nil]. *)
Abbreviation error := (option string).
Abbreviation nil_err := (@None string) (only parsing).
Abbreviation New e := (@Some string e) (only parsing).

(** [err != nil]. *)
Definition failed (e : error) : bool := match e with Some _ => true | None => false end.

(** ** Bytes

    A [[]byte] is a list of integers; [nil] and the empty slice are the same
    list, as they are for [len], [bytes.Equal], [copy] and [append]. *)
Abbreviation bytes := (list Z).

Definition wf_bytes (b : bytes) : Prop := Forall (fun x => 0 <= x < 256) b.

(** [bytes.Equal]. *)
Definition bytes_Equal (a b : bytes) : bool := bool_decide (a = b).

Lemma bytes_Equal_spec a b : bytes_Equal a b = true <-> a = b.
Proof. apply bool_decide_eq_true. Qed.

Lemma bytes_Equal_false a b : bytes_Equal a b = false <-> a <> b.
Proof. apply bool_decide_eq_false. Qed.

(** [bytes.Compare a b <= 0], the lexicographic order. *)
Fixpoint bytes_leb (a b : bytes) : bool :=
  match a, b with
  | [], _ => true
  | _ :: _, [] => false
  | x :: a', y :: b' => (x <? y) || ((x =? y) && bytes_leb a' b')
  end.

Definition bytes_le (a b : bytes) : Prop := bytes_leb a b = true.

#[export] Instance bytes_le_dec a b : Decision (bytes_le a b).
Proof. unfold bytes_le. apply _. Defined.

Lemma bytes_leb_cons x a y b :
  bytes_leb (x :: a) (y :: b) = true <-> x < y \/ (x = y /\ bytes_leb a b = true).
Proof.
  simpl. rewrite orb_true_iff, andb_true_iff, Z.ltb_lt, Z.eqb_eq. done.
Qed.

#[export] Instance bytes_le_total : Total bytes_le.
Proof.
  intros a. unfold bytes_le. induction a as [|x a IH]; intros [|y b]; auto.
  rewrite !bytes_leb_cons. destruct (IH b), (Z.lt_trichotomy x y); intuition auto.
Qed.

#[export] Instance bytes_le_trans : Transitive bytes_le.
Proof.
  intros a. unfold bytes_le. induction a as [|x a IH]; intros [|y b] [|z c]; try done.
  rewrite !bytes_leb_cons. intros [?|[-> H1]] [?|[-> H2]]; [left; lia..|].
  right. split; [done | eauto].
Qed.

#[export] Instance bytes_le_antisym : AntiSymm eq bytes_le.
Proof.
  intros a. unfold bytes_le. induction a as [|x a IH]; intros [|y b]; try done.
  rewrite !bytes_leb_cons. intros [?|[-> H1]] [?|[? H2]]; try lia. f_equal. auto.
Qed.

(** [sort.Slice] under [bytes.Compare ... < 0].  The order is total and
    antisymmetric, so the sorted permutation is unique and the result does not
    depend on the algorithm ([sort_bytes_unique]). *)
Definition sort_bytes (l : list bytes) : list bytes := merge_sort bytes_le l.

Lemma sort_bytes_perm l : sort_bytes l ≡ₚ l.
Proof. apply merge_sort_Permutation. Qed.

Lemma sort_bytes_sorted l : StronglySorted bytes_le (sort_bytes l).
Proof. apply StronglySorted_merge_sort; apply _. Qed.

Lemma sort_bytes_unique l k :
  k ≡ₚ l -> StronglySorted bytes_le k -> k = sort_bytes l.
Proof.
  intros Hp Hs. apply (StronglySorted_unique bytes_le); [done | apply sort_bytes_sorted |].
  by rewrite sort_bytes_perm.
Qed.

Lemma sort_bytes_id l : StronglySorted bytes_le l -> sort_bytes l = l.
Proof. intros. symmetry. by apply sort_bytes_unique. Qed.

Lemma sort_bytes_length l : length (sort_bytes l) = length l.
Proof. by rewrite sort_bytes_perm. Qed.

Lemma sort_bytes_elem x l : x ∈ sort_bytes l <-> x ∈ l.
Proof. by rewrite sort_bytes_perm. Qed.

(** ** Map iteration

    Go iterates over a map in an unspecified order.  [range_map m] is the
    sequence one [range] loop visits; what the language promises is only that
    it is a permutation of the entries. *)
Class RangeOrder := {
  range_order : forall {K V : Type}, list (K * V) -> list (K * V);
  range_order_perm : forall {K V} (l : list (K * V)), range_order l ≡ₚ l
}.

Definition range_map `{!RangeOrder} `{Countable K} {V} (m : gmap K V) : list (K * V) :=
  range_order (map_to_list m).

Section range.
Context `{!RangeOrder} `{Countable K} {V : Type}.
Implicit Types (m : gmap K V) (k : K) (v : V).

Lemma elem_of_range_map m k v : (k, v) ∈ range_map m <-> m !! k = Some v.
Proof. unfold range_map. rewrite range_order_perm. apply elem_of_map_to_list. Qed.

Lemma length_range_map m : length (range_map m) = size m.
Proof. unfold range_map. by rewrite range_order_perm, length_map_to_list. Qed.

Lemma NoDup_range_map_fst m : NoDup (range_map m).*1.
Proof. unfold range_map. rewrite range_order_perm. apply NoDup_fst_map_to_list. Qed.

Lemma range_map_empty : range_map (∅ : gmap K V) = [].
Proof.
  unfold range_map. rewrite map_to_list_empty. apply Permutation_nil_r.
  apply range_order_perm.
Qed.
End range.

(** The order that visits the entries as [map_to_list] lists them: the instance
    that witnesses and examples evaluate with. *)
Definition list_range_order : RangeOrder :=
  {| range_order := fun K V l => l; range_order_perm := fun K V l => reflexivity l |}.

(** ** Time

    A [time.Time] is a number of nanoseconds since the Unix epoch and a
    [time.Duration] a signed 64-bit number of nanoseconds. *)
Definition Second : Z := 1000000000.
Definition Unix (t : Z) : Z := t / Second.
Definition time_Unix (sec : Z) : Z := sec * Second.
Definition After (t u : Z) : bool := u <? t.

(** [Time.Sub] saturates instead of overflowing. *)
Definition Sub (t u : Z) : Z := Z.max (- 2 ^ 63) (Z.min (2 ^ 63 - 1) (t - u)).

Lemma Sub_exact t u : is_i64 (t - u) -> Sub t u = t - u.
Proof. unfold Sub, is_i64. lia. Qed.

Lemma Unix_time_Unix s : Unix (time_Unix s) = s.
Proof. unfold Unix, time_Unix, Second. by rewrite Z.div_mul. Qed.

Lemma time_Unix_Unix_le t : time_Unix (Unix t) <= t < time_Unix (Unix t) + Second.
Proof. unfold Unix, time_Unix, Second. div_lia. Qed.

(** ** Hexadecimal

    [hex.EncodeToString] and [hex.DecodeString]. *)
Definition hex_digit (d : Z) : Ascii.ascii :=
  Ascii.ascii_of_N (Z.to_N (if d <? 10 then 48 + d else 87 + d)).

Fixpoint hex_encode (b : bytes) : string :=
  match b with
  | [] => EmptyString
  | x :: b' => String (hex_digit (x / 16)) (String (hex_digit (x mod 16)) (hex_encode b'))
  end.

Definition hex_value (c : Ascii.ascii) : option Z :=
  let n := Z.of_N (Ascii.N_of_ascii c) in
  if (48 <=? n) && (n <=? 57) then Some (n - 48)
  else if (97 <=? n) && (n <=? 102) then Some (n - 87)
  else if (65 <=? n) && (n <=? 70) then Some (n - 55)
  else None.

(** The decoded bytes and whether the whole string was valid: [hex.DecodeString]
    returns the bytes before the error together with the error. *)
Fixpoint hex_decode (s : string) : bytes * bool :=
  match s with
  | EmptyString => ([], true)
  | String c (String d s') =>
      match hex_value c, hex_value d with
      | Some x, Some y => let '(b, ok) := hex_decode s' in (16 * x + y :: b, ok)
      | _, _ => ([], false)
      end
  | String _ EmptyString => ([], false)
  end.

Definition hex_DecodeString (s : string) : bytes * error :=
  let '(b, ok) := hex_decode s in
  (b, if ok then nil_err else New "encoding/hex: invalid").

Lemma hex_value_digit d : 0 <= d < 16 -> hex_value (hex_digit d) = Some d.
Proof.
  intros Hd.
  assert (HF : Forall (fun d => hex_value (hex_digit d) = Some d) (seqZ 0 16))
    by (apply (bool_decide_unpack _); by vm_compute).
  rewrite Forall_forall in HF. apply HF, elem_of_seqZ. lia.
Qed.

Lemma hex_decode_encode b : wf_bytes b -> hex_decode (hex_encode b) = (b, true).
Proof.
  induction 1 as [|x b Hx _ IH]; [done|]. cbn [hex_encode hex_decode].
  cbn in Hx. rewrite (hex_value_digit (x / 16)), (hex_value_digit (x mod 16)) by div_lia.
  rewrite IH. do 2 f_equal. div_lia.
Qed.

Lemma hex_encode_inj a b :
  wf_bytes a -> wf_bytes b -> hex_encode a = hex_encode b -> a = b.
Proof.
  intros Ha Hb E. apply hex_decode_encode in Ha, Hb. rewrite E in Ha. congruence.
Qed.

(** ** Lists and options *)
Lemma NoDup_subset_length {A} `{EqDecision A} (l k : list A) :
  NoDup l -> l ⊆ k -> (length l <= length k)%nat.
Proof. intros Hl Hs. apply submseteq_length, NoDup_submseteq; set_solver. Qed.

(** Pigeonhole: two duplicate-free sublists of a list of length [n] share at
    least [length l + length k - n] members. *)
Lemma NoDup_intersection_length {A} `{EqDecision A} (l k u : list A) :
  NoDup l -> NoDup k -> l ⊆ u -> k ⊆ u ->
  (length l + length k <= length u + length (list_intersection l k))%nat.
Proof.
  intros Hl Hk Hlu Hku.
  assert (Hd : NoDup (list_difference l k ++ k)).
  { apply NoDup_app. split; [by apply NoDup_list_difference|]. split; [|done].
    intros x. rewrite list_elem_of_difference. tauto. }
  assert (Hu : list_difference l k ++ k ⊆ u).
  { intros x. rewrite elem_of_app, list_elem_of_difference. set_solver. }
  pose proof (NoDup_subset_length _ _ Hd Hu) as Hlen. rewrite length_app in Hlen.
  assert (length l = length (list_difference l k) + length (list_intersection l k))%nat.
  { clear. induction l as [|x l IH]; [done|]. simpl. case_decide; simpl; lia. }
  lia.
Qed.

(** A schedule that visits index [(a + k) mod n] at step [k] is a rotation of
    the list, hence a permutation of it. *)
Lemma schedule_rotate {A} (l : list A) (f : Z -> A) (a : Z) :
  0 <= a ->
  (forall k, 0 <= k < zlen l -> l !! Z.to_nat ((a + k) mod zlen l) = Some (f k)) ->
  f <$> seqZ 0 (zlen l) = rotate (Z.to_nat a) l.
Proof.
  intros Ha Hf. apply list_eq. intros i. rewrite list_lookup_fmap.
  destruct (Nat.lt_ge_cases i (length l)) as [Hi|Hi].
  - rewrite lookup_seqZ_lt by (unfold zlen; lia). rewrite lookup_rotate_r by done. cbn.
    rewrite <- Hf by (unfold zlen; lia). unfold rotate_nat_add, zlen. do 3 f_equal. lia.
  - rewrite lookup_seqZ_ge by (unfold zlen; lia). cbn. symmetry. apply lookup_ge_None.
    rewrite length_rotate. lia.
Qed.

Lemma rotate_perm {A} (a : nat) (l : list A) : rotate a l ≡ₚ l.
Proof. unfold rotate. rewrite Permutation_app_comm. by rewrite take_drop. Qed.

(** ** Automation *)
Create HintDb ela discriminated.
#[export] Hint Resolve u32_range u64_range i64_range zlen_nonneg : ela.
#[export] Hint Resolve sort_bytes_perm sort_bytes_sorted : ela.

(** [simp_ifs] splits every conditional of the goal and of the hypotheses that
    a handler's definition leaves behind, keeping the tests as equations. *)
Ltac simp_ifs :=
  repeat (case_match; simplify_eq/=; try done).

(** [bools] turns boolean tests into propositions. *)
Ltac bools :=
  repeat match goal with
  | H : (_ && _) = true |- _ => apply andb_true_iff in H as [? ?]
  | H : (_ && _) = false |- _ => apply andb_false_iff in H
  | H : (_ || _) = false |- _ => apply orb_false_iff in H as [? ?]
  | H : (_ || _) = true |- _ => apply orb_true_iff in H
  | H : negb _ = true |- _ => apply negb_true_iff in H
  | H : negb _ = false |- _ => apply negb_false_iff in H
  | H : bytes_Equal _ _ = true |- _ => apply bytes_Equal_spec in H
  | H : bytes_Equal _ _ = false |- _ => apply bytes_Equal_false in H
  | H : bool_decide _ = true |- _ => apply bool_decide_eq_true in H
  | H : bool_decide _ = false |- _ => apply bool_decide_eq_false in H
  | H : (_ =? _) = true |- _ => apply Z.eqb_eq in H
  | H : (_ =? _) = false |- _ => apply Z.eqb_neq in H
  | H : (_ <? _) = true |- _ => apply Z.ltb_lt in H
  | H : (_ <? _) = false |- _ => apply Z.ltb_ge in H
  | H : (_ <=? _) = true |- _ => apply Z.leb_le in H
  | H : (_ <=? _) = false |- _ => apply Z.leb_gt in H
  end.
