(* ===== verification/GoFloat.v ===== *)
(** * Go's [float64] arithmetic, as far as the consensus code uses it

    The consensus thresholds are computed in floating point
    ([int(float64(n) * 2 / 3)]), and so is one view-change time.  This file
    models IEEE 754 binary64 with round-to-nearest-even exactly: a value is a
    dyadic [mant * 2 ^ expo] and every operation rounds the exact rational
    result to 53 significant bits.  The exponent range is not bounded: the
    source only computes with magnitudes between 1/10^9 and 2^64, far from the
    subnormal and overflow ranges. *)
From S2P Require Import Prelude.

Record F64 := { mant : Z; expo : Z }.

(** The exact value as the fraction [f64_num / f64_den]. *)
Definition f64_num (x : F64) : Z := mant x * 2 ^ Z.max 0 (expo x).
Definition f64_den (x : F64) : Z := 2 ^ Z.max 0 (- expo x).

(** Round half to even of [n / d]. *)
Definition round_half_even (n d : Z) : Z :=
  let q := n / d in
  let r := n mod d in
  if 2 * r <? d then q
  else if d <? 2 * r then q + 1
  else if Z.even q then q else q + 1.

(** [p / q * 2 ^ (- e)] as a fraction. *)
Definition scaled (p q e : Z) : Z * Z :=
  (p * 2 ^ Z.max 0 (- e), q * 2 ^ Z.max 0 e).

(** The exponent at which [p / q] has 53 significant bits. *)
Definition f64_expo (p q : Z) : Z :=
  let e := Z.log2 p - Z.log2 q - 52 in
  let '(n, d) := scaled p q e in
  if n / d <? 2 ^ 52 then e - 1 else e.

(** Rounding of a positive rational. *)
Definition f64_round_pos (p q : Z) : F64 :=
  let e := f64_expo p q in
  let '(n, d) := scaled p q e in
  {| mant := round_half_even n d; expo := e |}.

(** Rounding of [p / q] for [0 < q]. *)
Definition f64_round (p q : Z) : F64 :=
  if p =? 0 then {| mant := 0; expo := 0 |}
  else if 0 <? p then f64_round_pos p q
  else let x := f64_round_pos (- p) q in {| mant := - mant x; expo := expo x |}.

Definition f64_of_Z (z : Z) : F64 := f64_round z 1.

Definition f64_mul (x y : F64) : F64 :=
  f64_round (f64_num x * f64_num y) (f64_den x * f64_den y).

Definition f64_add (x y : F64) : F64 :=
  f64_round (f64_num x * f64_den y + f64_num y * f64_den x) (f64_den x * f64_den y).

Definition f64_sub (x y : F64) : F64 :=
  f64_round (f64_num x * f64_den y - f64_num y * f64_den x) (f64_den x * f64_den y).

(** Division by a positive value, the only division of the source. *)
Definition f64_div (x y : F64) : F64 :=
  f64_round (f64_num x * f64_den y) (f64_den x * f64_num y).

(** Conversion to an integer truncates toward zero. *)
Definition f64_trunc (x : F64) : Z := Z.quot (f64_num x) (f64_den x).

(** [Duration.Seconds]: whole seconds plus nanoseconds, each converted. *)
Definition Seconds (d : Z) : F64 :=
  f64_add (f64_of_Z (Z.quot d Second)) (f64_div (f64_of_Z (Z.rem d Second)) (f64_of_Z Second)).

(** ** Rounding lemmas *)
Lemma f64_den_pos x : 0 < f64_den x.
Proof. unfold f64_den. apply Z.pow_pos_nonneg; lia. Qed.

Lemma round_half_even_exact q d : 0 < d -> round_half_even (q * d) d = q.
Proof.
  intros. unfold round_half_even. rewrite Z.div_mul, Z.mod_mul by lia.
  destruct (Z.ltb_spec (2 * 0) d); lia.
Qed.

Lemma round_half_even_lower n d : 0 < d -> n / d <= round_half_even n d.
Proof. intros. unfold round_half_even. repeat case_match; lia. Qed.

Lemma round_half_even_upper n d : 0 < d -> 2 * d * round_half_even n d <= 2 * n + d.
Proof.
  intros. unfold round_half_even. pose proof (Z.div_mod n d). pose proof (Z.mod_pos_bound n d).
  repeat case_match; bools; nia.
Qed.

Section expo.
Context (p q : Z) (Hp : 0 < p) (Hq : 0 < q).

Lemma log2_bounds x : 0 < x -> 2 ^ Z.log2 x <= x < 2 * 2 ^ Z.log2 x.
Proof.
  intros. pose proof (Z.log2_spec x) as Hs. rewrite Z.pow_succ_r in Hs by apply Z.log2_nonneg.
  lia.
Qed.

(** A quotient below 2^52 is rounded at a negative exponent. *)
Lemma f64_expo_neg : p < 2 ^ 52 * q -> f64_expo p q <= -1.
Proof.
  intros Hlt. unfold f64_expo, scaled.
  pose proof (log2_bounds p Hp). pose proof (log2_bounds q Hq).
  pose proof (Z.log2_nonneg p). pose proof (Z.log2_nonneg q).
  set (e := Z.log2 p - Z.log2 q - 52).
  assert (He : e <= 0).
  { destruct (Z.le_gt_cases e 0); [done|exfalso].
    assert (Z.log2 p = Z.log2 q + (52 + e)) as E by (unfold e; lia).
    rewrite E, Z.pow_add_r in * by lia. rewrite (Z.pow_add_r 2 52 e) in * by lia.
    assert (2 ^ 1 <= 2 ^ e) by (apply Z.pow_le_mono_r; lia). nia. }
  destruct (Z.eq_dec e 0) as [E|]; [|case_match; lia].
  rewrite E. simpl (2 ^ _). rewrite !Z.mul_1_r.
  assert (p / q < 2 ^ 52) by (apply Z.div_lt_upper_bound; lia).
  destruct (Z.ltb_spec (p / q) (2 ^ 52)); lia.
Qed.
End expo.

(** Truncating the rounded quotient [p / q] gives the integer quotient, as long
    as it is below 2^52 and its fractional part is at most 2/3. *)
Lemma f64_trunc_round p q :
  0 <= p -> 0 < q -> p < 2 ^ 52 * q -> 3 * (p mod q) <= 2 * q ->
  f64_trunc (f64_round p q) = p / q.
Proof.
  intros Hp Hq Hlt Hfrac. unfold f64_round.
  destruct (Z.eqb_spec p 0) as [->|]; [by rewrite Z.div_0_l by lia|].
  destruct (Z.ltb_spec 0 p); [|lia].
  pose proof (f64_expo_neg p q ltac:(lia) Hq Hlt) as He.
  unfold f64_round_pos, scaled. set (e := f64_expo p q) in *.
  unfold f64_trunc, f64_num, f64_den. cbn [mant expo].
  rewrite (Z.max_l 0 e) by lia. rewrite (Z.max_r 0 (- e)) by lia.
  rewrite Z.pow_0_r, !Z.mul_1_r.
  set (k := 2 ^ (- e)).
  assert (Hk : 2 <= k) by (apply (Z.pow_le_mono_r 2 1); lia).
  pose proof (round_half_even_lower (p * k) q Hq) as Hl.
  pose proof (round_half_even_upper (p * k) q Hq) as Hu.
  set (m := round_half_even (p * k) q) in *.
  pose proof (Z.div_mod p q) as Hdm. pose proof (Z.mod_pos_bound p q Hq) as Hmb.
  assert (p / q * k <= p * k / q) by (apply Z.div_le_lower_bound; nia).
  assert (0 <= p / q) by (apply Z.div_pos; lia).
  rewrite Z.quot_div_nonneg by nia.
  symmetry. apply (Z.div_unique _ _ _ (m - p / q * k)); [|ring].
  left. split; [lia|].
  enough (m < (p / q + 1) * k) by lia. nia.
Qed.

(** Integers of at most 53 bits convert exactly. *)
Lemma f64_of_Z_exact z : 0 <= z < 2 ^ 53 -> f64_num (f64_of_Z z) = z * f64_den (f64_of_Z z).
Proof.
  intros Hz. unfold f64_of_Z, f64_round.
  destruct (Z.eqb_spec z 0) as [->|]; [done|]. destruct (Z.ltb_spec 0 z); [|lia].
  assert (He : f64_expo z 1 <= 0).
  { unfold f64_expo, scaled. assert (Z.log2 z < 53) by (apply Z.log2_lt_pow2; lia).
    replace (Z.log2 1) with 0 by done. case_match; lia. }
  unfold f64_round_pos, scaled. set (e := f64_expo z 1) in *.
  unfold f64_num, f64_den. cbn [mant expo].
  rewrite (Z.max_l 0 e) by lia. rewrite (Z.max_r 0 (- e)) by lia.
  rewrite Z.pow_0_r, !Z.mul_1_r.
  rewrite <- (Z.mul_1_r (z * 2 ^ (- e))) at 1. by rewrite round_half_even_exact.
Qed.

Lemma f64_of_Z_nonneg z : 0 <= z < 2 ^ 53 -> 0 <= f64_num (f64_of_Z z).
Proof. intros Hz. rewrite f64_of_Z_exact by done. pose proof (f64_den_pos (f64_of_Z z)). nia. Qed.

(** A rounded value that is itself an integer below 2^53 is exact. *)
Lemma f64_round_integer p q z :
  0 < q -> 0 <= z < 2 ^ 52 -> p = z * q -> f64_num (f64_round p q) = z * f64_den (f64_round p q).
Proof.
  intros Hq Hz ->. unfold f64_round.
  destruct (Z.eqb_spec (z * q) 0) as [|]; [replace z with 0 by nia; done|].
  destruct (Z.ltb_spec 0 (z * q)); [|nia].
  assert (He : f64_expo (z * q) q <= -1) by (apply f64_expo_neg; nia).
  unfold f64_round_pos, scaled. set (e := f64_expo (z * q) q) in *.
  unfold f64_num, f64_den. cbn [mant expo].
  rewrite (Z.max_l 0 e) by lia. rewrite (Z.max_r 0 (- e)) by lia.
  rewrite Z.pow_0_r, !Z.mul_1_r.
  replace (z * q * 2 ^ (- e)) with (z * 2 ^ (- e) * q) by lia.
  by rewrite round_half_even_exact.
Qed.

(** [int(float64(n) * 2 / 3)] is [2 * n / 3] for every [n] below 2^51. *)
Lemma two_thirds_exact n :
  0 <= n < 2 ^ 51 ->
  f64_trunc (f64_div (f64_mul (f64_of_Z n) (f64_of_Z 2)) (f64_of_Z 3)) = 2 * n / 3.
Proof.
  intros Hn. set (a := f64_of_Z n). set (b := f64_of_Z 2). set (c := f64_of_Z 3).
  pose proof (f64_den_pos a) as Ha. pose proof (f64_den_pos b) as Hb. pose proof (f64_den_pos c) as Hc.
  assert (Ea : f64_num a = n * f64_den a) by (apply f64_of_Z_exact; lia).
  assert (Eb : f64_num b = 2 * f64_den b) by (apply f64_of_Z_exact; lia).
  assert (Ec : f64_num c = 3 * f64_den c) by (apply f64_of_Z_exact; lia).
  set (m := f64_mul a b).
  assert (Em : f64_num m = 2 * n * f64_den m).
  { apply f64_round_integer; [nia|lia|]. rewrite Ea, Eb. ring. }
  pose proof (f64_den_pos m) as Hm.
  unfold f64_div. rewrite Em, Ec.
  set (k := f64_den m * f64_den c).
  replace (2 * n * f64_den m * f64_den c) with (2 * n * k) by (unfold k; ring).
  replace (f64_den m * (3 * f64_den c)) with (3 * k) by (unfold k; ring).
  assert (Hk : 0 < k) by (unfold k; nia).
  rewrite f64_trunc_round; [by rewrite Z.div_mul_cancel_r by lia|nia|lia|nia|].
  rewrite Z.mul_mod_distr_r by lia. pose proof (Z.mod_pos_bound (2 * n) 3). nia.
Qed.

(** The difference of two integers below 2^52 is exact. *)
Lemma f64_trunc_sub a b : 0 <= a < 2 ^ 52 -> 0 <= b < 2 ^ 52 -> f64_trunc (f64_sub (f64_of_Z a) (f64_of_Z b)) = a - b.
Proof.
  intros Ha Hb. set (x := f64_of_Z a). set (y := f64_of_Z b). pose proof (f64_den_pos x) as Hx. pose proof (f64_den_pos y) as Hy. unfold f64_sub.
  assert (Ex : f64_num x = a * f64_den x) by (apply f64_of_Z_exact; lia).
  assert (Ey : f64_num y = b * f64_den y) by (apply f64_of_Z_exact; lia). rewrite Ex, Ey. set (k := f64_den x * f64_den y).
  assert (Hk : 0 < k) by (unfold k; nia). replace (a * f64_den x * f64_den y - b * f64_den y * f64_den x) with ((a - b) * k) by (unfold k; ring).
  destruct (Z.le_gt_cases 0 (a - b)) as [Hd|Hd].
  - rewrite f64_trunc_round; [by apply Z.div_mul; lia|nia|done|nia|]. rewrite Z.mod_mul by lia. lia.
  - pose proof (f64_trunc_round ((b - a) * k) k ltac:(nia) Hk ltac:(nia) ltac:(rewrite Z.mod_mul by lia; lia)) as E. rewrite Z.div_mul in E by lia.
    unfold f64_round in E |- *. destruct (Z.eqb_spec ((b - a) * k) 0); [nia|]. destruct (Z.ltb_spec 0 ((b - a) * k)); [|nia].
    destruct (Z.eqb_spec ((a - b) * k) 0); [nia|]. destruct (Z.ltb_spec 0 ((a - b) * k)); [nia|].
    replace (- ((a - b) * k)) with ((b - a) * k) by ring. unfold f64_trunc, f64_num, f64_den in E |- *. cbn [mant expo] in E |- *.
    rewrite Z.mul_opp_l, Z.quot_opp_l by (apply Z.pow_nonzero; lia). lia.
Qed.
