(* ===== verification/Ela.v ===== *)
(** * The interface of the Elastos.ELA main-chain library

    The consensus code imports the proposal, vote and confirm payloads, their
    hashing and the elliptic-curve signatures from the main chain's library,
    which is not part of this repository.  Its types are the records below,
    with the fields the side chain reads; its functions are the members of
    [ElaLib], on which every component of the development is parameterised.
    A 256-bit hash is an integer, since the code only compares hashes. *)
From S2P Require Import Prelude.

(** [payload.DPOSProposal]. *)
Record DPOSProposal := {
  Sponsor : bytes;
  BlockHash : Z;
  ViewOffset : Z;
  proposal_Sign : bytes
}.

(** [payload.DPOSProposalVote]. *)
Record DPOSProposalVote := {
  ProposalHash : Z;
  Signer : bytes;
  Accept : bool;
  vote_Sign : bytes
}.

(** [payload.Confirm]. *)
Record Confirm := {
  Proposal : DPOSProposal;
  Votes : list DPOSProposalVote
}.

#[export] Instance DPOSProposal_eta : Eta DPOSProposal :=
  fun p => {| Sponsor := Sponsor p; BlockHash := BlockHash p; ViewOffset := ViewOffset p;
              proposal_Sign := proposal_Sign p |}.
#[export] Instance DPOSProposalVote_eta : Eta DPOSProposalVote :=
  fun v => {| ProposalHash := ProposalHash v; Signer := Signer v; Accept := Accept v;
              vote_Sign := vote_Sign v |}.

#[export] Instance DPOSProposal_eq_dec : EqDecision DPOSProposal.
Proof. solve_decision. Defined.
#[export] Instance DPOSProposalVote_eq_dec : EqDecision DPOSProposalVote.
Proof. solve_decision. Defined.
#[export] Instance Confirm_eq_dec : EqDecision Confirm.
Proof. solve_decision. Defined.

(** [msg.ResetView] of the main chain's DPoS messages. *)
Record ResetViewMsg := { reset_Sponsor : bytes; reset_Sign : bytes }.

(** [ecom.EmptyHash]. *)
Definition EmptyHash : Z := 0.

(** The functions of the library: point decoding and signature verification of
    [Elastos.ELA/crypto], the hashes and the signed data of the payloads. *)
Class ElaLib := {
  PublicKey : Type;
  DecodePoint : bytes -> PublicKey + string;
  Verify : PublicKey -> bytes -> bytes -> error;
  proposal_Hash : DPOSProposal -> Z;
  proposal_Data : DPOSProposal -> bytes;
  vote_Hash : DPOSProposalVote -> Z;
  vote_Data : DPOSProposalVote -> bytes;
  resetView_SerializeUnsigned : ResetViewMsg -> bytes + string;
  Int64ToTime : Z -> Z
}.

(** A vote is hashed over its unsigned part: two votes of one signer on one
    proposal with the same answer have the same hash, whatever their
    signature bytes. *)
Definition vote_hash_unsigned `{!ElaLib} : Prop :=
  forall v w, ProposalHash v = ProposalHash w -> Signer v = Signer w -> Accept v = Accept w ->
    vote_Hash v = vote_Hash w.

(** [account.Account] of the library: the local signing key. *)
Record Account := {
  PublicKeyBytes : bytes;
  SignProposal : DPOSProposal -> bytes + string;
  SignVote : DPOSProposalVote -> bytes + string;
  account_Sign : bytes -> bytes
}.

(** The local key signs what the verification of the library accepts. *)
Definition account_ok `{!ElaLib} (ac : Account) : Prop :=
  (forall p s, Sponsor p = PublicKeyBytes ac -> SignProposal ac p = inl s ->
     exists pk, DecodePoint (PublicKeyBytes ac) = inl pk /\
       Verify pk (proposal_Data (p <| proposal_Sign := s |>)) s = nil_err) /\
  (forall v s, Signer v = PublicKeyBytes ac -> SignVote ac v = inl s ->
     exists pk, DecodePoint (PublicKeyBytes ac) = inl pk /\
       Verify pk (vote_Data (v <| vote_Sign := s |>)) s = nil_err).

(** ** A concrete library for evaluation

    Keys are their own encodings, a signature is the key followed by the data,
    and a hash is an injective encoding of the unsigned fields.  Witnesses
    instantiate the parameters with it. *)
Module Toy.
Definition data_of_proposal (p : DPOSProposal) : bytes :=
  BlockHash p :: ViewOffset p :: Sponsor p.
Definition data_of_vote (v : DPOSProposalVote) : bytes :=
  ProposalHash v :: (if Accept v then 1 else 0) :: Signer v.

#[export] Instance lib : ElaLib := {|
  PublicKey := bytes;
  DecodePoint := fun b => if bool_decide (b = []) then inr "invalid key" else inl b;
  Verify := fun pk d s => if bool_decide (s = pk ++ d) then nil_err else New "invalid signature";
  proposal_Hash := fun p => Zpos (encode (data_of_proposal p));
  proposal_Data := data_of_proposal;
  vote_Hash := fun v => Zpos (encode (data_of_vote v));
  vote_Data := data_of_vote;
  resetView_SerializeUnsigned := fun m => inl (reset_Sponsor m);
  Int64ToTime := fun t => t
|}.

Definition account (key : bytes) : Account := {|
  PublicKeyBytes := key;
  SignProposal := fun p => inl (key ++ data_of_proposal p);
  SignVote := fun v => inl (key ++ data_of_vote v);
  account_Sign := fun d => key ++ d
|}.

Lemma account_correct key : key <> [] -> account_ok (account key).
Proof.
  intros Hk. split; intros x s Hx [= <-]; exists key; cbn;
    (rewrite bool_decide_eq_false_2 by done); (split; [done|]);
    rewrite bool_decide_eq_true_2; done.
Qed.

Lemma vote_hash_unsigned_ok : vote_hash_unsigned.
Proof. intros v w E1 E2 E3. cbn. unfold data_of_vote. by rewrite E1, E2, E3. Qed.
End Toy.
