(* ===== verification/Producers.v ===== *)
(** * [dpos/producers.go]: the producer set and its thresholds *)
From S2P Require Import Prelude GoFloat.

(** [type Producers struct].  The mutex is left out: every method holds it for
    its whole body.  The package variable [defaultCRCSignerNumber], which
    [NewProducers] sets, is a field here: a process has one producer set. *)
Record Producers := {
  totalProducers : Z;
  producers : list bytes;
  dutyIndex : Z;
  workingHeight : Z;
  spvHeight : Z;
  nextTotalProducers : Z;
  nextProducers : list bytes;
  defaultCRCSignerNumber : Z
}.

#[export] Instance Producers_eta : Eta Producers := fun p => {|
  totalProducers := totalProducers p;
  producers := producers p;
  dutyIndex := dutyIndex p;
  workingHeight := workingHeight p;
  spvHeight := spvHeight p;
  nextTotalProducers := nextTotalProducers p;
  nextProducers := nextProducers p;
  defaultCRCSignerNumber := defaultCRCSignerNumber p
|}.

(** The 33 zero bytes of [zero]; a [peer.PID] is a 33-byte array. *)
Definition zero : bytes := replicate 33 0.

Definition PID_length : nat := 33.

(** [copy(pid[:], b)] into a zeroed 33-byte array. *)
Definition to_PID (b : bytes) : bytes :=
  take PID_length (b ++ replicate (PID_length - length b) 0).

Definition UpdateProducers (ps : list bytes) (totalCount spv : Z) (p : Producers) : Producers :=
  p <| producers := ps |> <| totalProducers := totalCount |> <| spvHeight := spv |>.

Definition NewProducers (ps : list bytes) (startHeight : Z) : Producers :=
  let producer := {|
    totalProducers := 0; producers := []; dutyIndex := 0; workingHeight := startHeight;
    spvHeight := 0; nextTotalProducers := 0; nextProducers := [];
    defaultCRCSignerNumber := zlen ps |} in
  UpdateProducers ps (zlen ps) 0 producer.

Definition SetWorkingHeight (changeHeight : Z) (p : Producers) : Producers :=
  p <| workingHeight := changeHeight |>.

(** The all-zero placeholder of the next set becomes a nil entry. *)
Definition ChangeCurrentProducers (changeHeight spv : Z) (p : Producers) : Producers :=
  let copied := (fun signer => if bytes_Equal signer zero then [] else signer) <$> nextProducers p in
  let p := p <| producers := copied |> in
  let p := SetWorkingHeight changeHeight p in
  p <| totalProducers := nextTotalProducers p |> <| spvHeight := spv |>.

Definition UpdateNextProducers (ps : list bytes) (totalCount : Z) (p : Producers) : Producers :=
  p <| nextProducers := sort_bytes ps |> <| nextTotalProducers := totalCount |>.

Definition GetNeedConnectArbiters (p : Producers) : list bytes :=
  (to_PID <$> producers p) ++ (to_PID <$> nextProducers p).

Definition getCurrentNeedConnectArbiters (p : Producers) : list bytes :=
  to_PID <$> producers p.

Definition GetNextNeedConnectArbiters (p : Producers) : list bytes :=
  to_PID <$> nextProducers p.

Definition UpdateDutyIndex (height : Z) (p : Producers) : Z * Producers :=
  if zlen (producers p) <=? 0 then (0, p)
  else
    let index := u64 (height + 1 - workingHeight p) mod zlen (producers p) in
    (u32 index, p <| dutyIndex := u32 index |>).

Definition GetProducers (p : Producers) : list bytes := producers p.

Definition IsProducers (signer : bytes) (p : Producers) : bool :=
  existsb (fun producer => bytes_Equal producer signer) (producers p).

Fixpoint index_of (signer : bytes) (i : Z) (l : list bytes) : Z :=
  match l with
  | [] => -1
  | producer :: l' => if bytes_Equal producer signer then i else index_of signer (i + 1) l'
  end.

Definition ProducerIndex (signer : bytes) (p : Producers) : Z :=
  index_of signer 0 (producers p).

(** [int(float64(totalSigner) * 2 / 3)]. *)
Definition GetMajorityCountByTotalSigners (totalSigner : Z) : Z :=
  f64_trunc (f64_div (f64_mul (f64_of_Z totalSigner) (f64_of_Z 2)) (f64_of_Z 3)).

Definition GetMajorityCount (p : Producers) : Z :=
  f64_trunc (f64_div (f64_mul (f64_of_Z (totalProducers p)) (f64_of_Z 2)) (f64_of_Z 3)).

Definition GetCRMajorityCount (p : Producers) : Z :=
  GetMajorityCountByTotalSigners (defaultCRCSignerNumber p).

Definition GetProducersCount (p : Producers) : Z := zlen (producers p).

(** [nil] (the empty list) when there is no producer; the index is always in
    range, so the lookup never panics ([GetNextOnDutyProducer_lookup]). *)
Definition GetNextOnDutyProducer (offset : Z) (p : Producers) : bytes :=
  if zlen (producers p) =? 0 then []
  else
    let index := u32 (dutyIndex p + offset) mod u32 (zlen (producers p)) in
    default [] (producers p !! Z.to_nat index).

Definition IsMajorityAgree (count : Z) (p : Producers) : bool :=
  GetMajorityCount p <? count.

Definition IsMajorityRejected (count : Z) (p : Producers) : bool :=
  zlen (producers p) - GetMajorityCount p <=? count.

Definition HasProducerMajorityCount (num : Z) (p : Producers) : bool :=
  GetMajorityCount p <? num.

Definition HasArbitersMinorityCount (num : Z) (p : Producers) : bool :=
  zlen (producers p) - GetMajorityCount p <=? num.

(** ** Lemmas *)
Lemma IsProducers_spec signer p : IsProducers signer p = true <-> signer ∈ producers p.
Proof.
  unfold IsProducers. rewrite existsb_exists, list_elem_of_In. split.
  - intros (x & Hin & E). bools. by subst.
  - intros. exists signer. split; [done|]. by apply bytes_Equal_spec.
Qed.

Lemma GetMajorityCount_exact p :
  0 <= totalProducers p < 2 ^ 51 -> GetMajorityCount p = 2 * totalProducers p / 3.
Proof. apply two_thirds_exact. Qed.

Lemma GetMajorityCountByTotalSigners_exact n :
  0 <= n < 2 ^ 51 -> GetMajorityCountByTotalSigners n = 2 * n / 3.
Proof. apply two_thirds_exact. Qed.

Lemma index_of_spec signer l i :
  0 <= i ->
  match index_of signer i l with
  | -1 => signer ∉ l
  | k => exists n, k = i + Z.of_nat n /\ l !! n = Some signer /\
           forall m, (m < n)%nat -> l !! m <> Some signer
  end.
Proof.
  revert i. induction l as [|x l IH]; intros i Hi; cbn; [set_solver|].
  destruct (bytes_Equal x signer) eqn:E; bools.
  - subst. assert (exists n, i = i + Z.of_nat n /\ (signer :: l) !! n = Some signer /\
      forall m, (m < n)%nat -> (signer :: l) !! m <> Some signer) by (exists 0%nat; split_and!; [lia|done|lia]).
    destruct i as [|?|[]]; try done; lia.
  - specialize (IH (i + 1) ltac:(lia)).
    destruct (index_of signer (i + 1) l) as [|k|[k|k|]] eqn:Ek;
      try (destruct IH as (n & ? & ? & Hm); exists (S n); split_and!; [lia|done|];
           intros [|m] ?; cbn; [congruence|apply Hm; lia]).
    set_solver.
Qed.

Section duty.
Context (p : Producers) (Hn : 0 < zlen (producers p) < 2 ^ 32).
Let n := zlen (producers p).

Lemma UpdateDutyIndex_value h :
  is_u64 (h + 1 - workingHeight p) ->
  dutyIndex (snd (UpdateDutyIndex h p)) = (h + 1 - workingHeight p) mod n.
Proof.
  intros Hw. unfold UpdateDutyIndex. destruct (Z.leb_spec (zlen (producers p)) 0); [lia|].
  cbn. rewrite u64_id by done. apply u32_id. unfold is_u32, n.
  pose proof (Z.mod_pos_bound (h + 1 - workingHeight p) (zlen (producers p))). lia.
Qed.

Lemma UpdateDutyIndex_range h : 0 <= dutyIndex (snd (UpdateDutyIndex h p)) < n.
Proof.
  unfold UpdateDutyIndex. destruct (Z.leb_spec (zlen (producers p)) 0); [lia|]. cbn.
  pose proof (Z.mod_pos_bound (u64 (h + 1 - workingHeight p)) (zlen (producers p))).
  rewrite u32_id; unfold is_u32, n; lia.
Qed.

Lemma GetNextOnDutyProducer_lookup offset :
  producers p !! Z.to_nat (u32 (dutyIndex p + offset) mod n) =
  Some (GetNextOnDutyProducer offset p).
Proof.
  unfold GetNextOnDutyProducer. destruct (Z.eqb_spec (zlen (producers p)) 0); [lia|].
  rewrite (u32_id (zlen (producers p))) by (unfold is_u32; lia). fold n.
  pose proof (Z.mod_pos_bound (u32 (dutyIndex p + offset)) n).
  destruct (lookup_lt_is_Some_2 (producers p) (Z.to_nat (u32 (dutyIndex p + offset) mod n)))
    as [x Hx]; [unfold n, zlen in *; lia|]. by rewrite Hx.
Qed.
End duty.

(** ** Properties *)

(** C7: the duty schedule is fair.  Over any window of [len(producers)]
    consecutive block heights at or after the working height, the producers on
    duty (at view offset 0) are exactly the producers, each as often as it is
    listed. *)
Theorem duty_schedule_fair (p : Producers) (h : Z) :
  0 < zlen (producers p) < 2 ^ 32 ->
  0 <= h + 1 - workingHeight p -> h + zlen (producers p) - workingHeight p < 2 ^ 64 ->
  ((fun k => GetNextOnDutyProducer 0 (snd (UpdateDutyIndex (h + k) p)))
     <$> seqZ 0 (zlen (producers p))) ≡ₚ producers p.
Proof.
  intros Hn Hlo Hhi.
  rewrite (schedule_rotate _ _ (h + 1 - workingHeight p)); [apply rotate_perm|done|].
  intros k Hk.
  assert (Hi : dutyIndex (snd (UpdateDutyIndex (h + k) p))
               = (h + 1 - workingHeight p + k) mod zlen (producers p)).
  { rewrite UpdateDutyIndex_value by (unfold is_u64; lia). f_equal. lia. }
  assert (Hp : producers (snd (UpdateDutyIndex (h + k) p)) = producers p).
  { unfold UpdateDutyIndex. by case_match. }
  rewrite <- (GetNextOnDutyProducer_lookup (snd (UpdateDutyIndex (h + k) p)) ltac:(by rewrite Hp)).
  rewrite Hi, Hp, Z.add_0_r. do 2 f_equal.
  set (m := _ mod zlen _). pose proof (Z.mod_pos_bound (h + 1 - workingHeight p + k) (zlen (producers p))).
  rewrite u32_id by (unfold is_u32; lia). by rewrite Z.mod_small by lia.
Qed.

(** C8: a view change passes the duty on fairly.  Over [len(producers)]
    consecutive view offsets every producer is on duty, each as often as it is
    listed, as long as the 32-bit sum of duty index and offset does not wrap. *)
Theorem view_offset_schedule_fair (p : Producers) (off : Z) :
  0 < zlen (producers p) < 2 ^ 32 -> 0 <= dutyIndex p -> 0 <= off ->
  dutyIndex p + off + zlen (producers p) < 2 ^ 32 ->
  ((fun k => GetNextOnDutyProducer (off + k) p) <$> seqZ 0 (zlen (producers p))) ≡ₚ producers p.
Proof.
  intros Hn Hd Ho Hw.
  rewrite (schedule_rotate _ _ (dutyIndex p + off)); [apply rotate_perm|lia|].
  intros k Hk. rewrite <- GetNextOnDutyProducer_lookup by done.
  rewrite u32_id by (unfold is_u32; lia). do 3 f_equal. lia.
Qed.

(** C9: quorum intersection.  Two sets of producers that each satisfy
    [IsMajorityAgree] share more than a third of the whole producer set, for
    any total below 2^51 that counts at least the listed producers. *)
Theorem majority_quorums_intersect (p : Producers) (A B : list bytes) :
  zlen (producers p) <= totalProducers p < 2 ^ 51 ->
  NoDup A -> NoDup B -> A ⊆ producers p -> B ⊆ producers p ->
  IsMajorityAgree (zlen A) p = true -> IsMajorityAgree (zlen B) p = true ->
  totalProducers p < 3 * zlen (list_intersection A B).
Proof.
  intros Ht HA HB HsA HsB HqA HqB. unfold IsMajorityAgree in *. bools.
  rewrite GetMajorityCount_exact in * by (pose proof (zlen_nonneg (producers p)); lia).
  pose proof (NoDup_intersection_length A B (producers p) HA HB HsA HsB).
  unfold zlen in *. div_lia.
Qed.

(** a proposal is decided one way only, and always decided once everybody
    has voted.  With [a] accepting and [r] rejecting producers among the listed
    ones, acceptance and rejection cannot both reach their threshold, and if
    all producers have voted exactly one does. *)
Theorem majority_decision_dichotomy (p : Producers) (a r : Z) :
  (a + r <= zlen (producers p) ->
   IsMajorityAgree a p = true -> IsMajorityRejected r p = true -> False) /\
  (a + r = zlen (producers p) -> IsMajorityAgree a p = negb (IsMajorityRejected r p)).
Proof.
  unfold IsMajorityAgree, IsMajorityRejected. split.
  - intros ? ? ?. bools. lia.
  - intros E. apply eq_true_iff_eq. rewrite negb_true_iff, Z.ltb_lt, Z.leb_gt. lia.
Qed.

(** *** Witnesses *)
Definition example_set : Producers :=
  (NewProducers [[1]; [2]; [3]; [4]] 100) <| nextProducers := [[7]; [8]] |>.

Lemma duty_schedule_fair_witness :
  ((fun k => GetNextOnDutyProducer 0 (snd (UpdateDutyIndex (105 + k) example_set)))
     <$> seqZ 0 (zlen (producers example_set))) ≡ₚ [[1]; [2]; [3]; [4]].
Proof. apply (duty_schedule_fair example_set 105); vm_compute; try done; split; done. Defined.

Lemma view_offset_schedule_fair_witness :
  ((fun k => GetNextOnDutyProducer (3 + k) example_set)
     <$> seqZ 0 (zlen (producers example_set))) ≡ₚ [[1]; [2]; [3]; [4]].
Proof. apply (view_offset_schedule_fair example_set 3); vm_compute; try done; split; done. Defined.

Lemma majority_quorums_intersect_witness :
  4 < 3 * zlen (list_intersection [[1]; [2]; [3]] [[2]; [3]; [4]]).
Proof.
  apply (majority_quorums_intersect example_set [[1]; [2]; [3]] [[2]; [3]; [4]]).
  all: try (vm_compute; split; done); try (vm_compute; done).
  all: try (apply (bool_decide_unpack _); vm_compute; done).
  all: vm_compute; intros x; rewrite !elem_of_cons; tauto.
Defined.

Lemma majority_decision_dichotomy_witness :
  IsMajorityAgree 3 example_set = negb (IsMajorityRejected 1 example_set).
Proof. apply (majority_decision_dichotomy example_set 3 1). vm_compute. done. Defined.
