(* ===== verification/ConsensusView.v ===== *)
(** * [dpos/consensusview.go]: views, duty and view changes

    A view is the turn of one producer.  It starts at a header time and lasts
    [signTolerance]; when it expires, the offset from the duty index grows by
    the number of whole tolerances elapsed.  The view listener (the PBFT engine)
    is called at the very end of [ChangeView], so [ChangeView] returns the
    pending notification [Some (isOnDuty, force)] and its caller runs it. *)
From S2P Require Import Prelude GoFloat Producers.

Definition ConsensusReady : Z := 0.
Definition ConsensusRunning : Z := 1.

(** [type ConsensusView struct]; [listener] says whether one is installed.
    [signTolerance] is not zero: the engine passes 10 seconds. *)
Record ConsensusView := {
  consensusStatus : Z;
  viewOffset : Z;
  publicKey : bytes;
  signTolerance : Z;
  viewStartTime : Z;
  viewChangeTime : Z;
  isDposOnDuty : bool;
  view_producers : Producers;
  listener : bool
}.

#[export] Instance ConsensusView_eta : Eta ConsensusView := fun v => {|
  consensusStatus := consensusStatus v;
  viewOffset := viewOffset v;
  publicKey := publicKey v;
  signTolerance := signTolerance v;
  viewStartTime := viewStartTime v;
  viewChangeTime := viewChangeTime v;
  isDposOnDuty := isDposOnDuty v;
  view_producers := view_producers v;
  listener := listener v
|}.

(** The zero [time.Time], January 1 of year 1. *)
Definition time_zero : Z := time_Unix (- 62135596800).

Definition NewConsensusView (tolerance : Z) (account : bytes) (ps : Producers)
    (viewListener : bool) : ConsensusView := {|
  consensusStatus := ConsensusReady;
  viewOffset := 0;
  publicKey := account;
  signTolerance := tolerance;
  viewStartTime := time_Unix 0;
  viewChangeTime := time_zero;
  isDposOnDuty := false;
  view_producers := ps;
  listener := viewListener
|}.

(** ** Status and accessors *)
Definition resetViewOffset (v : ConsensusView) : ConsensusView := v <| viewOffset := 0 |>.

Definition SetRunning (v : ConsensusView) : ConsensusView :=
  v <| consensusStatus := ConsensusRunning |>.

Definition SetReady (v : ConsensusView) : ConsensusView :=
  v <| consensusStatus := ConsensusReady |>.

Definition IsRunning (v : ConsensusView) : bool := consensusStatus v =? ConsensusRunning.

Definition IsReady (v : ConsensusView) : bool := consensusStatus v =? ConsensusReady.

Definition GetProducers (v : ConsensusView) : list bytes :=
  Producers.GetProducers (view_producers v).

Definition GetTotalArbiterCount (v : ConsensusView) : Z := totalProducers (view_producers v).

Definition GetSpvHeight (v : ConsensusView) : Z := spvHeight (view_producers v).

Definition GetTotalProducersCount (v : ConsensusView) : Z := totalProducers (view_producers v).

(** ** Producer updates *)
Definition UpdateProducers (ps : list bytes) (totalCount spv : Z) (v : ConsensusView) : ConsensusView :=
  v <| view_producers := Producers.UpdateProducers (sort_bytes ps) totalCount spv (view_producers v) |>.

Definition ChangeCurrentProducers (changeHeight spv : Z) (v : ConsensusView) : ConsensusView :=
  v <| view_producers := Producers.ChangeCurrentProducers changeHeight spv (view_producers v) |>.

Definition ProducerIndex (signer : bytes) (v : ConsensusView) : Z :=
  if zlen signer <=? 0 then -1 else Producers.ProducerIndex signer (view_producers v).

Definition SetWorkingHeight (height : Z) (v : ConsensusView) : ConsensusView :=
  v <| view_producers := Producers.SetWorkingHeight height (view_producers v) |>.

Definition getCurrentNeedConnectArbiters (v : ConsensusView) : list bytes :=
  Producers.getCurrentNeedConnectArbiters (view_producers v).

Definition GetNextNeedConnectArbiters (v : ConsensusView) : list bytes :=
  Producers.GetNextNeedConnectArbiters (view_producers v).

Definition UpdateNextProducers (ps : list bytes) (totalCount : Z) (v : ConsensusView) : ConsensusView :=
  v <| view_producers := Producers.UpdateNextProducers ps totalCount (view_producers v) |>.

(** [sort.Slice] works in place: comparing sorts the stored next producers. *)
Definition IsSameProducers (curProducers : list bytes) (v : ConsensusView) : bool * ConsensusView :=
  let next := nextProducers (view_producers v) in
  if negb (zlen curProducers =? zlen next) then (false, v)
  else
    let next := sort_bytes next in
    let v := v <| view_producers := (view_producers v) <| nextProducers := next |> |> in
    (bool_decide (sort_bytes curProducers = next), v).

(** Likewise comparing with the current producers sorts them in place. *)
Definition IsCurrentProducers (curProducers : list bytes) (v : ConsensusView) : bool * ConsensusView :=
  let ps := producers (view_producers v) in
  if zlen ps <=? 0 then (false, v)
  else if negb (zlen curProducers =? zlen ps) then (false, v)
  else
    let ps := sort_bytes ps in
    let v := v <| view_producers := (view_producers v) <| producers := ps |> |> in
    (bool_decide (sort_bytes curProducers = ps), v).

(** ** Time *)
Definition calculateOffsetTime (startTime now : Z) (v : ConsensusView) : Z * Z :=
  let duration := Sub now startTime in
  let offset := Z.quot duration (signTolerance v) in
  let offsetTime := Z.rem duration (signTolerance v) in
  (u32 offset, offsetTime).

Definition SetChangViewTime (parentTime : Z) (v : ConsensusView) : ConsensusView :=
  let headerTime := time_Unix (i64 parentTime) in
  v <| viewChangeTime := headerTime + signTolerance v |> <| viewStartTime := headerTime |>.

Definition ResetView (parentTime : Z) (v : ConsensusView) : ConsensusView :=
  SetChangViewTime parentTime v.

Definition UpdateDutyIndex (height : Z) (v : ConsensusView) : ConsensusView :=
  let v := v <| view_producers := snd (Producers.UpdateDutyIndex height (view_producers v)) |> in
  let currentProducer := GetNextOnDutyProducer (viewOffset v) (view_producers v) in
  v <| isDposOnDuty := bytes_Equal currentProducer (publicKey v) |>.

Definition ChangeView (now : Z) (force : bool) (parentTime : Z) (v : ConsensusView)
    : ConsensusView * option (bool * bool) :=
  let '(offset, offsetTime) := calculateOffsetTime (viewStartTime v) now v in
  let v :=
    if 0 <? offset
    then let v := v <| viewStartTime := now - offsetTime |> in
         ResetView (u64 (Unix (viewStartTime v))) v
    else v in
  let v := v <| viewOffset := u32 (viewOffset v + offset) |> in
  let '(offset, v) :=
    if force then (1, ResetView parentTime (resetViewOffset v)) else (offset, v) in
  if 0 <? offset then
    let currentProducer := GetNextOnDutyProducer (viewOffset v) (view_producers v) in
    let v := v <| isDposOnDuty := bytes_Equal currentProducer (publicKey v) |> in
    (v, if listener v then Some (isDposOnDuty v, force) else None)
  else (v, None).

(** [parentTime] is computed in floating point; [ChangeView] ignores it unless
    forced. *)
Definition TryChangeView (now : Z) (v : ConsensusView) : ConsensusView * option (bool * bool) :=
  if IsRunning v && After now (viewChangeTime v) then
    let parentTime := f64_sub (f64_of_Z (Unix (viewChangeTime v))) (Seconds (signTolerance v)) in
    ChangeView now false (u64 (f64_trunc parentTime)) v
  else (v, None).

Definition GetViewInterval (v : ConsensusView) : Z := signTolerance v.
Definition GetViewStartTime (v : ConsensusView) : Z := viewStartTime v.
Definition GetChangeViewTime (v : ConsensusView) : Z := viewChangeTime v.
Definition GetDutyIndex (v : ConsensusView) : Z := dutyIndex (view_producers v).
Definition GetViewOffset (v : ConsensusView) : Z := viewOffset v.

(** ** Queries passed on to the producer set *)
Definition IsProducers (account : bytes) (v : ConsensusView) : bool :=
  Producers.IsProducers account (view_producers v).

Definition IsOnduty (v : ConsensusView) : bool := isDposOnDuty v.

Definition ProducerIsOnDuty (account : bytes) (v : ConsensusView) : bool :=
  bytes_Equal (GetNextOnDutyProducer (viewOffset v) (view_producers v)) account.

Definition IsMajorityAgree (count : Z) (v : ConsensusView) : bool :=
  Producers.IsMajorityAgree count (view_producers v).

Definition IsMajorityRejected (count : Z) (v : ConsensusView) : bool :=
  Producers.IsMajorityRejected count (view_producers v).

Definition HasArbitersMinorityCount (count : Z) (v : ConsensusView) : bool :=
  Producers.HasArbitersMinorityCount count (view_producers v).

Definition HasProducerMajorityCount (count : Z) (v : ConsensusView) : bool :=
  Producers.HasProducerMajorityCount count (view_producers v).

Definition GetMajorityCount (v : ConsensusView) : Z :=
  Producers.GetMajorityCount (view_producers v).

Definition GetCRMajorityCount (v : ConsensusView) : Z :=
  Producers.GetCRMajorityCount (view_producers v).

(** ** Lemmas *)

(** The clock of a started view: it began on a whole second and expires one
    tolerance later.  Every assignment to the two times keeps this. *)
Definition timed (v : ConsensusView) : Prop :=
  (exists s, viewStartTime v = time_Unix s) /\
  viewChangeTime v = viewStartTime v + signTolerance v.

Lemma SetChangViewTime_timed t v : timed (SetChangViewTime t v).
Proof. split; [by eexists|done]. Qed.

Lemma SetChangViewTime_start t v :
  is_i64 t -> viewStartTime (SetChangViewTime t v) = time_Unix t.
Proof. intros. cbn. by rewrite i64_id. Qed.

Section elapsed.
Context (v : ConsensusView) (now s k : Z).
Context (Hstart : viewStartTime v = time_Unix s).
Context (Htol : signTolerance v = k * Second) (Hk : 0 < k).
Context (Hnow : viewStartTime v <= now) (Hrange : now < 2 ^ 63) (Hs : 0 <= s).
Context (Hoff : now / Second < 2 ^ 32).

Let n := (now - viewStartTime v) / signTolerance v.

Lemma elapsed_views_bounds :
  time_Unix s + n * (k * Second) <= now < time_Unix s + n * (k * Second) + k * Second.
Proof.
  unfold n. rewrite Hstart, Htol.
  assert (0 < k * Second) by (unfold Second; lia).
  pose proof (Z.mul_div_le (now - time_Unix s) (k * Second)).
  pose proof (Z.mul_succ_div_gt (now - time_Unix s) (k * Second)). lia.
Qed.

Lemma elapsed_views_nonneg : 0 <= n.
Proof. unfold n. apply Z.div_pos; [lia|]. rewrite Htol. unfold Second. lia. Qed.

Lemma elapsed_views_u32 : is_u32 n.
Proof.
  pose proof elapsed_views_nonneg. pose proof elapsed_views_bounds. unfold is_u32. split; [done|].
  assert (n * Second <= now); [|unfold Second in *; div_lia].
  unfold time_Unix, Second in *. nia.
Qed.

Lemma calculateOffsetTime_value :
  calculateOffsetTime (viewStartTime v) now v =
  (n, now - viewStartTime v - n * signTolerance v).
Proof.
  unfold calculateOffsetTime. rewrite Sub_exact
    by (unfold is_i64; rewrite Hstart in *; unfold time_Unix, Second in *; lia).
  assert (0 < signTolerance v) by (rewrite Htol; unfold Second; lia).
  rewrite Z.quot_div_nonneg, Z.rem_mod_nonneg by lia. fold n.
  rewrite u32_id by apply elapsed_views_u32. f_equal.
  pose proof (Z.div_mod (now - viewStartTime v) (signTolerance v)). unfold n. lia.
Qed.

(** The new start is exactly [n] tolerances after the old one. *)
Lemma ChangeView_new_start :
  u64 (Unix (now - (now - viewStartTime v - n * signTolerance v))) = s + n * k.
Proof.
  replace (now - _) with (time_Unix (s + n * k))
    by (rewrite Hstart, Htol; unfold time_Unix; ring).
  rewrite Unix_time_Unix. apply u64_id.
  pose proof elapsed_views_bounds. pose proof elapsed_views_nonneg.
  unfold is_u64, time_Unix, Second in *. split; [nia|]. div_lia.
Qed.
End elapsed.

(** What a view change does once at least one tolerance has elapsed. *)
Lemma ChangeView_elapsed v now parentTime s k :
  viewStartTime v = time_Unix s -> signTolerance v = k * Second -> 0 < k -> 0 <= s ->
  viewStartTime v + signTolerance v <= now -> now < 2 ^ 63 -> now / Second < 2 ^ 32 ->
  let n := (now - viewStartTime v) / signTolerance v in
  let v' := fst (ChangeView now false parentTime v) in
  1 <= n /\ viewOffset v' = u32 (viewOffset v + n) /\
  viewStartTime v' = viewStartTime v + n * signTolerance v /\
  viewChangeTime v' = viewStartTime v' + signTolerance v /\
  isDposOnDuty v' = ProducerIsOnDuty (publicKey v) v' /\
  signTolerance v' = signTolerance v /\ consensusStatus v' = consensusStatus v /\
  publicKey v' = publicKey v /\ view_producers v' = view_producers v /\
  snd (ChangeView now false parentTime v) =
    (if listener v then Some (isDposOnDuty v', false) else None).
Proof.
  intros Hstart Htol Hk Hs Hel Hr Hu n.
  assert (0 < signTolerance v) as Htp by (rewrite Htol; unfold Second; lia).
  assert (Hn : 1 <= n) by (unfold n; apply Z.div_le_lower_bound; lia).
  unfold ChangeView. rewrite (calculateOffsetTime_value v now s k) by (done || lia). fold n.
  destruct (Z.ltb_spec 0 n) as [_|]; [|lia]. cbn -[u32 u64 Unix GetNextOnDutyProducer i64].
  pose proof (ChangeView_new_start v now s k Hstart Htol Hk ltac:(lia) Hr Hs) as Hns.
  fold n in Hns. rewrite Hns.
  destruct (Z.ltb_spec 0 n) as [_|]; [|lia]. cbn -[u32 u64 Unix GetNextOnDutyProducer i64].
  assert (i64 (s + n * k) = s + n * k) as ->.
  { pose proof (elapsed_views_bounds v now s k Hstart Htol Hk) as Hb. fold n in Hb.
    apply i64_id. unfold is_i64, time_Unix, Second in *. nia. }
  split_and!; try done.
  rewrite Hstart, Htol. unfold time_Unix. ring.
Qed.

(** ** Properties *)

(** the behaviour of a view change.  On a running, started view whose
    tolerance is a whole number of seconds, [TryChangeView] does nothing until
    the tolerance has passed; after that it advances the view offset by the
    number of whole tolerances elapsed, moves the start of the view by exactly
    that many tolerances (so that the current time lies inside the new view),
    recomputes whether this node is on duty, notifies the listener with it, and
    a second call at the same time does nothing. *)
Theorem TryChangeView_spec (v : ConsensusView) (now s k : Z) :
  IsRunning v = true -> timed v -> viewStartTime v = time_Unix s ->
  signTolerance v = k * Second -> 0 < k -> 0 <= s ->
  viewStartTime v <= now -> now < 2 ^ 63 -> now / Second < 2 ^ 32 ->
  let n := (now - viewStartTime v) / signTolerance v in
  let '(v', notification) := TryChangeView now v in
  (now <= viewStartTime v + signTolerance v -> v' = v /\ notification = None) /\
  (viewStartTime v + signTolerance v < now ->
     viewOffset v' = u32 (viewOffset v + n) /\
     viewStartTime v' = viewStartTime v + n * signTolerance v /\
     viewStartTime v' <= now < viewStartTime v' + signTolerance v /\
     isDposOnDuty v' = ProducerIsOnDuty (publicKey v) v' /\
     notification = (if listener v then Some (isDposOnDuty v', false) else None)) /\
  timed v' /\ TryChangeView now v' = (v', None).
Proof.
  intros Hrun [Hs1 Hct] Hstart Htol Hk Hs Hle Hr Hu n.
  assert (0 < signTolerance v) as Htp by (rewrite Htol; unfold Second; lia).
  destruct (TryChangeView now v) as [v' notification] eqn:E.
  unfold TryChangeView in E. rewrite Hrun, Hct in E. cbn -[ChangeView] in E.
  unfold After in E. destruct (Z.ltb_spec (viewStartTime v + signTolerance v) now) as [Hex|Hex].
  - destruct (ChangeView_elapsed v now (u64 (f64_trunc (f64_sub (f64_of_Z (Unix
      (viewStartTime v + signTolerance v))) (Seconds (signTolerance v))))) s k
      Hstart Htol Hk Hs ltac:(lia) Hr Hu) as (Hn & Ho & Hst & Hch & Hd & Ht & Hcs & Hpk & Hvp & Hno).
    rewrite E in *. cbn [fst snd] in *. fold n in Ho, Hst.
    assert (Hin : viewStartTime v' <= now < viewStartTime v' + signTolerance v).
    { rewrite Hst. unfold n. pose proof (Z.mul_div_le (now - viewStartTime v) (signTolerance v)).
      pose proof (Z.mul_succ_div_gt (now - viewStartTime v) (signTolerance v)). lia. }
    split; [intros; lia|]. split; [done|]. split; [split; [|congruence]|].
    + exists (s + n * k). rewrite Hst, Hstart, Htol. unfold time_Unix. ring.
    + unfold TryChangeView, IsRunning, After. rewrite Hcs, Hch.
      fold (IsRunning v). rewrite Hrun. destruct (Z.ltb_spec (viewStartTime v' + signTolerance v) now); [lia|done].
  - injection E as <- <-. split; [done|]. split; [intros; lia|]. split; [by split; [exists s|]|].
    unfold TryChangeView, After. rewrite Hrun, Hct.
    destruct (Z.ltb_spec (viewStartTime v + signTolerance v) now); [lia|done].
Qed.

Definition example_view : ConsensusView :=
  SetRunning (SetChangViewTime 1000
    (UpdateDutyIndex 102 (NewConsensusView (10 * Second) [3] example_set true))).

Lemma TryChangeView_spec_witness :
  viewOffset (fst (TryChangeView (1025 * Second) example_view)) = 2 /\
  viewStartTime (fst (TryChangeView (1025 * Second) example_view)) = 1020 * Second.
Proof.
  assert (H := TryChangeView_spec example_view (1025 * Second) 1000 10 eq_refl
    (SetChangViewTime_timed _ _) eq_refl eq_refl eq_refl ltac:(done) ltac:(done) eq_refl eq_refl).
  cbv zeta in H. destruct (TryChangeView (1025 * Second) example_view) as [v' no].
  destruct H as (_ & H & _). destruct H as (Ho & Hst & _); [vm_compute; done|].
  cbn [fst]. rewrite Ho, Hst. split; vm_compute; reflexivity.
Defined.

(** comparing producer sets compares them as multisets.  [IsSameProducers]
    holds exactly when the given producers are a permutation of the next
    producers, [IsCurrentProducers] exactly when they are a permutation of the
    current, non-empty ones; the comparison may only reorder what is stored. *)
Theorem producers_comparison_spec (v : ConsensusView) (cur : list bytes) :
  (fst (IsSameProducers cur v) = true <-> cur ≡ₚ nextProducers (view_producers v)) /\
  (fst (IsCurrentProducers cur v) = true <->
     producers (view_producers v) <> [] /\ cur ≡ₚ producers (view_producers v)) /\
  nextProducers (view_producers (snd (IsSameProducers cur v))) ≡ₚ nextProducers (view_producers v) /\
  producers (view_producers (snd (IsCurrentProducers cur v))) ≡ₚ producers (view_producers v).
Proof.
  assert (Hsort : forall a b, sort_bytes a = sort_bytes b <-> a ≡ₚ b).
  { intros a b. split; intros E.
    - by rewrite <- (sort_bytes_perm a), E, sort_bytes_perm.
    - apply sort_bytes_unique; [by rewrite sort_bytes_perm|apply sort_bytes_sorted]. }
  assert (Hlen : forall a b : list bytes, a ≡ₚ b -> zlen a = zlen b)
    by (intros a b E; unfold zlen; by rewrite E).
  unfold IsSameProducers, IsCurrentProducers. split_and!.
  - destruct (Z.eqb_spec (zlen cur) (zlen (nextProducers (view_producers v)))); cbn.
    + by rewrite bool_decide_eq_true, Hsort.
    + split; [done|]. intros E%Hlen. lia.
  - destruct (Z.leb_spec (zlen (producers (view_producers v))) 0) as [H0%zlen_0_nil|H0]; cbn.
    { split; [done|]. by intros [? _]. }
    assert (producers (view_producers v) <> []) by (intros E; rewrite E in H0; done).
    destruct (Z.eqb_spec (zlen cur) (zlen (producers (view_producers v)))); cbn.
    + rewrite bool_decide_eq_true, Hsort. tauto.
    + split; [done|]. intros [_ E%Hlen]. lia.
  - case_match; [done|]. cbn. apply sort_bytes_perm.
  - repeat (case_match; [done|]). cbn. apply sort_bytes_perm.
Qed.
