(* ===== verification/Messages.v ===== *)
(** * [dpos/msg] and [dpos/message.go]: the wire messages of the DPoS network

    Serialization goes through the primitive readers and writers of the main
    chain's library and the payloads' own serialization, which are parameters
    ([Codec]) with the round-trip behaviour they document as laws
    ([CodecLaws]).  A writer appends to an in-memory buffer, which cannot fail;
    a reader consumes a prefix of its input or returns an error.  A
    [Deserialize] method updates its receiver field by field, so it also says
    what is left in the receiver when it fails half-way. *)
From S2P Require Import Prelude Ela.

Definition reader (A : Type) : Type := bytes -> (A * bytes) + string.

Class Codec := {
  WriteUint8 : Z -> bytes;
  ReadUint8 : reader Z;
  WriteUint32 : Z -> bytes;
  ReadUint32 : reader Z;
  WriteUint64 : Z -> bytes;
  ReadUint64 : reader Z;
  WriteVarUint : Z -> bytes;
  ReadVarUint : Z -> reader Z;
  WriteVarBytes : bytes -> bytes;
  ReadVarBytes : Z -> reader bytes;
  WriteVarString : string -> bytes;
  ReadVarString : reader string;
  vote_Serialize : DPOSProposalVote -> bytes;
  vote_Deserialize : reader DPOSProposalVote;
  proposal_Serialize : DPOSProposal -> bytes;
  proposal_Deserialize : reader DPOSProposal;
  confirm_Serialize : Confirm -> bytes;
  confirm_Deserialize : reader Confirm;
  (** The values within the library's limits on keys and signatures. *)
  vote_fits : DPOSProposalVote -> Prop;
  proposal_fits : DPOSProposal -> Prop;
  confirm_fits : Confirm -> Prop;
  (** The size limits [pact.MaxBlockContextSize] and [common.MaxVarStringLength]. *)
  MaxBlockContextSize : Z;
  MaxVarStringLength : Z
}.

(** Reading back what was written leaves exactly the rest of the input. *)
Definition inverse {A} (w : A -> bytes) (r : reader A) (P : A -> Prop) : Prop :=
  forall x rest, P x -> r (w x ++ rest) = inl (x, rest).

Class CodecLaws `{!Codec} := {
  uint8_inverse : inverse WriteUint8 ReadUint8 (fun x => 0 <= x < 2 ^ 8);
  uint32_inverse : inverse WriteUint32 ReadUint32 is_u32;
  uint64_inverse : inverse WriteUint64 ReadUint64 is_u64;
  varuint_inverse : inverse WriteVarUint (ReadVarUint 0) is_u64;
  varbytes_inverse : forall max,
    inverse WriteVarBytes (ReadVarBytes max) (fun b => zlen b <= max);
  varstring_inverse :
    inverse WriteVarString ReadVarString (fun s => Z.of_nat (String.length s) <= MaxVarStringLength);
  vote_inverse : inverse vote_Serialize vote_Deserialize vote_fits;
  proposal_inverse : inverse proposal_Serialize proposal_Deserialize proposal_fits;
  confirm_inverse : inverse confirm_Serialize confirm_Deserialize confirm_fits
}.

(** [Deserialize] of a value: the updated receiver, the error, the rest of the
    input. *)
Definition receive (A : Type) : Type := A -> bytes -> A * error * bytes.

(** [read x, b <- r of b0 into s in k]: read with [r] from [b0]; on an error
    return the receiver [s] with that error. *)
Declare Scope reader_scope.
Notation "'read' x , b <- r 'of' b0 'into' s 'in' k" :=
  (match r b0 with
   | inr err => (s, Some err, b0)
   | inl (x, b) => k
   end) (at level 10, x name, b name, r at level 99, b0 at level 99, s at level 99,
         k at level 200, only parsing) : reader_scope.
Open Scope reader_scope.

(** The loop [for i := 0; i < n; i++ { append(list, Deserialize(r)) }]: the
    elements read before an error stay appended. *)
Fixpoint read_n {A} (r : reader A) (n : nat) (b : bytes) : list A * error * bytes :=
  match n with
  | O => ([], nil_err, b)
  | S n =>
      match r b with
      | inr err => ([], New err, b)
      | inl (x, b) => let '(xs, err, b) := read_n r n b in (x :: xs, err, b)
      end
  end.

Section messages.
Context `{!Codec}.

(** ** [ConsensusStatus] *)
Record ConsensusStatus := {
  status_ConsensusStatus : Z;
  status_ViewOffset : Z;
  status_ViewStartTime : Z;
  status_AcceptVotes : list DPOSProposalVote;
  status_RejectedVotes : list DPOSProposalVote;
  status_PendingProposals : list DPOSProposal;
  status_PendingVotes : list DPOSProposalVote;
  status_WorkingHeight : Z
}.

#[export] Instance ConsensusStatus_eta : Eta ConsensusStatus := fun s => {|
  status_ConsensusStatus := status_ConsensusStatus s;
  status_ViewOffset := status_ViewOffset s;
  status_ViewStartTime := status_ViewStartTime s;
  status_AcceptVotes := status_AcceptVotes s;
  status_RejectedVotes := status_RejectedVotes s;
  status_PendingProposals := status_PendingProposals s;
  status_PendingVotes := status_PendingVotes s;
  status_WorkingHeight := status_WorkingHeight s
|}.

Definition ConsensusStatus_Serialize (s : ConsensusStatus) : bytes :=
  WriteUint32 (status_ConsensusStatus s) ++
  WriteUint32 (status_ViewOffset s) ++
  WriteUint64 (u64 (status_ViewStartTime s)) ++
  WriteVarUint (zlen (status_AcceptVotes s)) ++
  concat (vote_Serialize <$> status_AcceptVotes s) ++
  WriteVarUint (zlen (status_RejectedVotes s)) ++
  concat (vote_Serialize <$> status_RejectedVotes s) ++
  WriteVarUint (zlen (status_PendingProposals s)) ++
  concat (proposal_Serialize <$> status_PendingProposals s) ++
  WriteVarUint (zlen (status_PendingVotes s)) ++
  concat (vote_Serialize <$> status_PendingVotes s) ++
  WriteUint64 (status_WorkingHeight s).

(** The error of reading the first length is dropped: [return nil]. *)
Definition ConsensusStatus_Deserialize : receive ConsensusStatus := fun s b =>
  read x, b <- ReadUint32 of b into s in
  let s := s <| status_ConsensusStatus := x |> in
  read x, b <- ReadUint32 of b into s in
  let s := s <| status_ViewOffset := x |> in
  read startTimeUnix, b <- ReadUint64 of b into s in
  let s := s <| status_ViewStartTime := i64 startTimeUnix |> in
  match ReadVarUint 0 b with
  | inr _ => (s, nil_err, b)
  | inl (arrayLength, b) =>
  let '(votes, err, b) := read_n vote_Deserialize (Z.to_nat arrayLength) b in
  let s := s <| status_AcceptVotes := votes |> in
  if failed err then (s, err, b) else
  read arrayLength, b <- ReadVarUint 0 of b into s in
  let '(votes, err, b) := read_n vote_Deserialize (Z.to_nat arrayLength) b in
  let s := s <| status_RejectedVotes := votes |> in
  if failed err then (s, err, b) else
  read arrayLength, b <- ReadVarUint 0 of b into s in
  let '(props, err, b) := read_n proposal_Deserialize (Z.to_nat arrayLength) b in
  let s := s <| status_PendingProposals := props |> in
  if failed err then (s, err, b) else
  read arrayLength, b <- ReadVarUint 0 of b into s in
  let '(votes, err, b) := read_n vote_Deserialize (Z.to_nat arrayLength) b in
  let s := s <| status_PendingVotes := votes |> in
  if failed err then (s, err, b) else
  read x, b <- ReadUint64 of b into s in
  (s <| status_WorkingHeight := x |>, nil_err, b)
  end.

(** ** The other messages *)
Record ElaMsg := { ElaMsg_Type : Z; ElaMsg_Msg : bytes }.

Definition ElaMsg_Serialize (em : ElaMsg) : bytes :=
  WriteUint8 (ElaMsg_Type em) ++ WriteVarBytes (ElaMsg_Msg em).

Definition ElaMsg_Deserialize : receive ElaMsg := fun em b =>
  read t, b <- ReadUint8 of b into em in
  let em := {| ElaMsg_Type := t; ElaMsg_Msg := ElaMsg_Msg em |} in
  read newMsg, b <- ReadVarBytes MaxVarStringLength of b into em in
  ({| ElaMsg_Type := t; ElaMsg_Msg := newMsg |}, nil_err, b).

Record BlockMsg := { data : bytes }.

Definition BlockMsg_Serialize (m : BlockMsg) : bytes := WriteVarBytes (data m).

(** [msg.data = data; return err]: a failed read leaves no data. *)
Definition BlockMsg_Deserialize : receive BlockMsg := fun m b =>
  match ReadVarBytes MaxBlockContextSize b with
  | inl (d, b) => ({| data := d |}, nil_err, b)
  | inr err => ({| data := [] |}, New err, b)
  end.

Record ConfirmMsg := { msg_Confirm : Confirm; msg_Height : Z }.

Definition ConfirmMsg_Serialize (m : ConfirmMsg) : bytes :=
  confirm_Serialize (msg_Confirm m) ++ WriteUint64 (msg_Height m).

Definition ConfirmMsg_Deserialize : receive ConfirmMsg := fun m b =>
  read c, b <- confirm_Deserialize of b into m in
  let m := {| msg_Confirm := c; msg_Height := msg_Height m |} in
  read h, b <- ReadUint64 of b into m in
  ({| msg_Confirm := c; msg_Height := h |}, nil_err, b).

Record FailedWithdrawTx := { failed_signature : string; failed_hash : string }.

Definition FailedWithdrawTx_Serialize (m : FailedWithdrawTx) : bytes :=
  WriteVarString (failed_signature m) ++ WriteVarString (failed_hash m).

Definition FailedWithdrawTx_Deserialize : receive FailedWithdrawTx := fun m b =>
  read sg, b <- ReadVarString of b into m in
  let m := {| failed_signature := sg; failed_hash := failed_hash m |} in
  read h, b <- ReadVarString of b into m in
  ({| failed_signature := sg; failed_hash := h |}, nil_err, b).

Record SmallCroTx := { small_signature : string; small_rawTx : string }.

Definition SmallCroTx_Serialize (m : SmallCroTx) : bytes :=
  WriteVarString (small_signature m) ++ WriteVarString (small_rawTx m).

Definition SmallCroTx_Deserialize : receive SmallCroTx := fun m b =>
  read sg, b <- ReadVarString of b into m in
  let m := {| small_signature := sg; small_rawTx := small_rawTx m |} in
  read raw, b <- ReadVarString of b into m in
  ({| small_signature := sg; small_rawTx := raw |}, nil_err, b).

Record RequestConsensus := { request_Height : Z }.

Definition RequestConsensus_Serialize (m : RequestConsensus) : bytes :=
  WriteUint64 (request_Height m).

Definition RequestConsensus_Deserialize : receive RequestConsensus := fun m b =>
  read h, b <- ReadUint64 of b into m in
  ({| request_Height := h |}, nil_err, b).

Record ResponseConsensus := { Consensus : ConsensusStatus }.

Definition ResponseConsensus_Serialize (m : ResponseConsensus) : bytes :=
  ConsensusStatus_Serialize (Consensus m).

Definition ResponseConsensus_Deserialize : receive ResponseConsensus := fun m b =>
  let '(c, err, b) := ConsensusStatus_Deserialize (Consensus m) b in
  ({| Consensus := c |}, err, b).

(** ** Round trips *)
Context `{!CodecLaws}.

Definition roundtrips {A} (ser : A -> bytes) (de : receive A) (P : A -> Prop) : Prop :=
  forall x x0 rest, P x -> de x0 (ser x ++ rest) = (x, nil_err, rest).

Lemma read_n_roundtrip {A} (w : A -> bytes) (r : reader A) (P : A -> Prop) l rest :
  inverse w r P -> Forall P l ->
  read_n r (length l) (concat (w <$> l) ++ rest) = (l, nil_err, rest).
Proof.
  intros Hi. induction 1 as [|x l Hx _ IH]; [done|]. cbn.
  rewrite <- app_assoc, Hi by done. by rewrite IH.
Qed.

Lemma read_n_zlen {A} (w : A -> bytes) (r : reader A) (P : A -> Prop) l rest :
  inverse w r P -> Forall P l ->
  read_n r (Z.to_nat (zlen l)) (concat (w <$> l) ++ rest) = (l, nil_err, rest).
Proof. intros Hi Hl. unfold zlen. rewrite Nat2Z.id. by apply (read_n_roundtrip _ _ _ _ _ Hi). Qed.

(** A status the code can build: 32-bit and 64-bit fields, a start time in the
    range of [UnixNano], lists that fit in memory, votes and proposals within the
    library's limits. *)
Definition wf_status (s : ConsensusStatus) : Prop :=
  is_u32 (status_ConsensusStatus s) /\ is_u32 (status_ViewOffset s) /\
  is_i64 (status_ViewStartTime s) /\ is_u64 (status_WorkingHeight s) /\
  zlen (status_AcceptVotes s) < 2 ^ 64 /\ zlen (status_RejectedVotes s) < 2 ^ 64 /\
  zlen (status_PendingProposals s) < 2 ^ 64 /\ zlen (status_PendingVotes s) < 2 ^ 64 /\
  Forall vote_fits (status_AcceptVotes s) /\ Forall vote_fits (status_RejectedVotes s) /\
  Forall proposal_fits (status_PendingProposals s) /\ Forall vote_fits (status_PendingVotes s).

Lemma i64_u64 x : is_i64 x -> i64 (u64 x) = x.
Proof. unfold is_i64, i64, u64. intros. div_lia. Qed.

Lemma zlen_u64 {A} (l : list A) : zlen l < 2 ^ 64 -> is_u64 (zlen l).
Proof. split; [apply zlen_nonneg|done]. Qed.

Lemma ConsensusStatus_roundtrip :
  roundtrips ConsensusStatus_Serialize ConsensusStatus_Deserialize wf_status.
Proof.
  intros s s0 rest (H1 & H2 & H3 & H4 & H5 & H6 & H7 & H8 & F1 & F2 & F3 & F4).
  unfold ConsensusStatus_Serialize, ConsensusStatus_Deserialize. rewrite <- !app_assoc.
  rewrite uint32_inverse by done. rewrite uint32_inverse by done.
  rewrite uint64_inverse by apply u64_range.
  rewrite varuint_inverse by by apply zlen_u64.
  rewrite (read_n_zlen _ _ _ _ _ vote_inverse) by done.
  rewrite varuint_inverse by by apply zlen_u64.
  rewrite (read_n_zlen _ _ _ _ _ vote_inverse) by done.
  rewrite varuint_inverse by by apply zlen_u64.
  rewrite (read_n_zlen _ _ _ _ _ proposal_inverse) by done.
  rewrite varuint_inverse by by apply zlen_u64.
  rewrite (read_n_zlen _ _ _ _ _ vote_inverse) by done.
  rewrite uint64_inverse by done. cbn -[i64 u64]. rewrite i64_u64 by done.
  by destruct s.
Qed.

(** ** Properties *)

(** C33: the messages of the DPoS network survive the wire: deserializing what was
    serialized gives the message back, without an error and consuming exactly its
    bytes, whatever the receiver held before.  This is for messages within the
    limits of their fields: statuses of 32-bit and 64-bit fields whose votes and
    proposals the main chain's library can read back (it limits keys and
    signatures), block data of at most [MaxBlockContextSize] bytes, and strings and
    other data of at most [MaxVarStringLength] bytes. *)
Theorem messages_roundtrip :
  roundtrips ConsensusStatus_Serialize ConsensusStatus_Deserialize wf_status /\
  roundtrips ResponseConsensus_Serialize ResponseConsensus_Deserialize
    (fun m => wf_status (Consensus m)) /\
  roundtrips RequestConsensus_Serialize RequestConsensus_Deserialize
    (fun m => is_u64 (request_Height m)) /\
  roundtrips ConfirmMsg_Serialize ConfirmMsg_Deserialize (fun m => confirm_fits (msg_Confirm m) /\ is_u64 (msg_Height m)) /\
  roundtrips BlockMsg_Serialize BlockMsg_Deserialize (fun m => zlen (data m) <= MaxBlockContextSize) /\
  roundtrips ElaMsg_Serialize ElaMsg_Deserialize
    (fun m => 0 <= ElaMsg_Type m < 2 ^ 8 /\ zlen (ElaMsg_Msg m) <= MaxVarStringLength) /\
  roundtrips SmallCroTx_Serialize SmallCroTx_Deserialize
    (fun m => Z.of_nat (String.length (small_signature m)) <= MaxVarStringLength /\
              Z.of_nat (String.length (small_rawTx m)) <= MaxVarStringLength) /\
  roundtrips FailedWithdrawTx_Serialize FailedWithdrawTx_Deserialize
    (fun m => Z.of_nat (String.length (failed_signature m)) <= MaxVarStringLength /\
              Z.of_nat (String.length (failed_hash m)) <= MaxVarStringLength).
Proof.
  split_and!; [exact ConsensusStatus_roundtrip|..]; intros x x0 rest HP.
  - unfold ResponseConsensus_Serialize, ResponseConsensus_Deserialize.
    rewrite ConsensusStatus_roundtrip by done. by destruct x.
  - unfold RequestConsensus_Deserialize, RequestConsensus_Serialize.
    rewrite uint64_inverse by done. by destruct x.
  - unfold ConfirmMsg_Deserialize, ConfirmMsg_Serialize. rewrite <- app_assoc.
    rewrite confirm_inverse, uint64_inverse by tauto. by destruct x.
  - unfold BlockMsg_Deserialize, BlockMsg_Serialize.
    rewrite varbytes_inverse by done. by destruct x.
  - unfold ElaMsg_Deserialize, ElaMsg_Serialize. rewrite <- app_assoc.
    rewrite uint8_inverse, varbytes_inverse by tauto. by destruct x.
  - unfold SmallCroTx_Deserialize, SmallCroTx_Serialize. rewrite <- app_assoc.
    rewrite !varstring_inverse by tauto. by destruct x.
  - unfold FailedWithdrawTx_Deserialize, FailedWithdrawTx_Serialize. rewrite <- app_assoc.
    rewrite !varstring_inverse by tauto. by destruct x.
Qed.

(** a truncated consensus status is accepted.  Input that ends after the
    start time is deserialized without an error, although no list and no
    working height was read: the error of reading the first length is dropped. *)
Theorem ConsensusStatus_truncated_accepted (s0 : ConsensusStatus) (status offset start : Z) e :
  is_u32 status -> is_u32 offset -> is_u64 start -> ReadVarUint 0 [] = inr e ->
  let '(s, err, rest) := ConsensusStatus_Deserialize s0
      (WriteUint32 status ++ WriteUint32 offset ++ WriteUint64 start) in
  err = nil_err /\ rest = [] /\
  status_AcceptVotes s = status_AcceptVotes s0 /\ status_WorkingHeight s = status_WorkingHeight s0.
Proof.
  intros H1 H2 H3 He. unfold ConsensusStatus_Deserialize.
  rewrite !uint32_inverse by done. rewrite <- (app_nil_r (WriteUint64 start)).
  rewrite uint64_inverse by done. by rewrite He.
Qed.
End messages.

(** ** A concrete codec for evaluation: one list cell per integer, a length
    before variable data. *)
Module ToyCodec.
Definition one (x : Z) : bytes := [x].
Definition read_one : reader Z := fun b =>
  match b with [] => inr "EOF" | x :: b => inl (x, b) end.
Definition var (x : bytes) : bytes := zlen x :: x.
Definition read_var : reader bytes := fun b =>
  match b with
  | [] => inr "EOF"
  | n :: b => if zlen b <? n then inr "unexpected EOF" else inl (take (Z.to_nat n) b, drop (Z.to_nat n) b)
  end.
Fixpoint string_cells (s : string) : bytes :=
  match s with EmptyString => [] | String c s => Z.of_N (Ascii.N_of_ascii c) :: string_cells s end.
Fixpoint cells_string (b : bytes) : string :=
  match b with [] => EmptyString | x :: b => String (Ascii.ascii_of_N (Z.to_N x)) (cells_string b) end.
Definition write_vote (v : DPOSProposalVote) : bytes :=
  one (ProposalHash v) ++ one (if Accept v then 1 else 0) ++ var (Signer v) ++ var (vote_Sign v).
Definition read_vote : reader DPOSProposalVote := fun b =>
  match read_one b with inr e => inr e | inl (h, b) =>
  match read_one b with inr e => inr e | inl (a, b) =>
  match read_var b with inr e => inr e | inl (sg, b) =>
  match read_var b with inr e => inr e | inl (si, b) =>
  inl ({| ProposalHash := h; Signer := sg; Accept := (a =? 1); vote_Sign := si |}, b)
  end end end end.
Definition write_proposal (p : DPOSProposal) : bytes :=
  one (BlockHash p) ++ one (ViewOffset p) ++ var (Sponsor p) ++ var (proposal_Sign p).
Definition read_proposal : reader DPOSProposal := fun b =>
  match read_one b with inr e => inr e | inl (h, b) =>
  match read_one b with inr e => inr e | inl (o, b) =>
  match read_var b with inr e => inr e | inl (sp, b) =>
  match read_var b with inr e => inr e | inl (si, b) =>
  inl ({| Sponsor := sp; BlockHash := h; ViewOffset := o; proposal_Sign := si |}, b)
  end end end end.
Definition write_confirm (c : Confirm) : bytes :=
  write_proposal (Proposal c) ++ one (zlen (Votes c)) ++ concat (write_vote <$> Votes c).
Definition read_confirm : reader Confirm := fun b =>
  match read_proposal b with inr e => inr e | inl (p, b) =>
  match read_one b with inr e => inr e | inl (n, b) =>
  match read_n read_vote (Z.to_nat n) b with
  | (vs, None, b) => inl ({| Proposal := p; Votes := vs |}, b)
  | (_, Some e, _) => inr e
  end end end.

(** Keys of 33 and signatures of 64 bytes at most. *)
Definition small_vote (v : DPOSProposalVote) : Prop := zlen (Signer v) <= 33 /\ zlen (vote_Sign v) <= 64.
Definition small_proposal (p : DPOSProposal) : Prop := zlen (Sponsor p) <= 33 /\ zlen (proposal_Sign p) <= 64.

#[export] Instance codec : Codec := {|
  WriteUint8 := one; ReadUint8 := read_one; WriteUint32 := one; ReadUint32 := read_one;
  WriteUint64 := one; ReadUint64 := read_one; WriteVarUint := one; ReadVarUint := fun _ => read_one;
  WriteVarBytes := var; ReadVarBytes := fun _ => read_var;
  WriteVarString := fun s => var (string_cells s);
  ReadVarString := fun b =>
    match read_var b with inr e => inr e | inl (x, b) => inl (cells_string x, b) end;
  vote_Serialize := write_vote; vote_Deserialize := read_vote;
  proposal_Serialize := write_proposal; proposal_Deserialize := read_proposal;
  confirm_Serialize := write_confirm; confirm_Deserialize := read_confirm;
  vote_fits := small_vote; proposal_fits := small_proposal;
  confirm_fits := fun c => small_proposal (Proposal c) /\ Forall small_vote (Votes c);
  MaxBlockContextSize := 8000000; MaxVarStringLength := 16777216
|}.

Lemma read_var_inverse x rest : read_var (var x ++ rest) = inl (x, rest).
Proof.
  unfold read_var, var. cbn. destruct (Z.ltb_spec (zlen (x ++ rest)) (zlen x)) as [H|_].
  - rewrite zlen_app in H. pose proof (zlen_nonneg rest). lia.
  - unfold zlen. rewrite Nat2Z.id. by rewrite take_app_length, drop_app_length.
Qed.

Lemma cells_string_cells s : cells_string (string_cells s) = s.
Proof. induction s as [|c s IH]; [done|]. cbn. by rewrite N2Z.id, Ascii.ascii_N_embedding, IH. Qed.

Lemma read_vote_inverse : inverse write_vote read_vote (fun _ => True).
Proof.
  intros v rest _. unfold write_vote, read_vote. rewrite <- !app_assoc. cbn -[var read_var].
  rewrite !read_var_inverse. by destruct v as [? ? [] ?].
Qed.

Lemma read_proposal_inverse : inverse write_proposal read_proposal (fun _ => True).
Proof.
  intros p rest _. unfold write_proposal, read_proposal. rewrite <- !app_assoc. cbn -[var read_var].
  rewrite !read_var_inverse. by destruct p.
Qed.

Lemma read_confirm_inverse : inverse write_confirm read_confirm (fun _ => True).
Proof.
  intros c rest _. unfold write_confirm, read_confirm. rewrite <- !app_assoc.
  rewrite read_proposal_inverse by done. cbn.
  rewrite (read_n_zlen _ _ _ _ _ read_vote_inverse) by by apply Forall_true. by destruct c.
Qed.

#[export] Instance codec_laws : CodecLaws.
Proof.
  split; try (intros x rest _; done).
  - intros max x rest _. apply read_var_inverse.
  - intros s rest _. cbn -[var read_var]. rewrite read_var_inverse. by rewrite cells_string_cells.
  - intros v rest _. by apply read_vote_inverse.
  - intros p rest _. by apply read_proposal_inverse.
  - intros c rest _. by apply read_confirm_inverse.
Qed.
End ToyCodec.

#[local] Existing Instance ToyCodec.codec.
#[local] Existing Instance ToyCodec.codec_laws.

Definition example_status : ConsensusStatus := {|
  status_ConsensusStatus := 1; status_ViewOffset := 3; status_ViewStartTime := 1020 * Second;
  status_AcceptVotes := [{| ProposalHash := 4; Signer := [2; 1]; Accept := true; vote_Sign := [9; 9] |}]; status_RejectedVotes := [];
  status_PendingProposals := []; status_PendingVotes := []; status_WorkingHeight := 7 |}.

Lemma messages_roundtrip_witness :
  ConsensusStatus_Deserialize example_status
    (ConsensusStatus_Serialize (example_status <| status_ViewOffset := 9 |>) ++ [5]) =
  (example_status <| status_ViewOffset := 9 |>, nil_err, [5]).
Proof. apply messages_roundtrip. vm_compute. repeat split; try done; repeat constructor; done. Defined.

Lemma ConsensusStatus_truncated_accepted_witness :
  snd (fst (ConsensusStatus_Deserialize example_status
    (WriteUint32 1 ++ WriteUint32 2 ++ WriteUint64 3))) = nil_err.
Proof.
  exact (proj1 (ConsensusStatus_truncated_accepted example_status 1 2 3 "EOF"
    ltac:(by vm_compute) ltac:(by vm_compute) ltac:(by vm_compute) eq_refl)).
Defined.
