(* ===== verification/Votes.v ===== *)
(** * [dpos/proposal.go], [dpos/proposalvote.go], [dpos/confirm.go]

    Creating and checking proposals, votes and confirms. *)
From S2P Require Import Prelude Ela.

Section votes.
Context `{!ElaLib}.

Definition StartProposal (ac : Account) (blockHash viewOffset : Z) : DPOSProposal + string :=
  let proposal := {| Sponsor := PublicKeyBytes ac; BlockHash := blockHash;
                     ViewOffset := viewOffset; proposal_Sign := [] |} in
  match SignProposal ac proposal with
  | inr err => inr err
  | inl sign => inl (proposal <| proposal_Sign := sign |>)
  end.

Definition CheckProposal (proposal : DPOSProposal) : error :=
  match DecodePoint (Sponsor proposal) with
  | inr err => New err
  | inl pk => Verify pk (proposal_Data proposal) (proposal_Sign proposal)
  end.

Definition StartVote (proposalHash : Z) (isAccept : bool) (ac : Account) : DPOSProposalVote + string :=
  let vote := {| ProposalHash := proposalHash; Signer := PublicKeyBytes ac;
                 Accept := isAccept; vote_Sign := [] |} in
  match SignVote ac vote with
  | inr err => inr err
  | inl sign => inl (vote <| vote_Sign := sign |>)
  end.

Definition CheckVote (vote : DPOSProposalVote) : error :=
  match DecodePoint (Signer vote) with
  | inr err => New err
  | inl pk => Verify pk (vote_Data vote) (vote_Sign vote)
  end.

(** The loop of [CheckConfirm] over the votes. *)
Fixpoint check_votes (proposalHash : Z) (votes : list DPOSProposalVote) : error :=
  match votes with
  | [] => nil_err
  | vote :: votes =>
      if negb (Accept vote) then New "[CheckConfirm] confirm contains reject vote"
      else if negb (proposalHash =? ProposalHash vote)
      then New "[CheckConfirm] confirm contains invalid vote"
      else match CheckVote vote with
           | Some err => New ("[CheckConfirm] confirm contain invalid vote: " +:+ err)
           | None => check_votes proposalHash votes
           end
  end.

Definition CheckConfirm (confirm : Confirm) (minSignCount : Z) : error :=
  match CheckProposal (Proposal confirm) with
  | Some err => New err
  | None =>
      if zlen (Votes confirm) <? minSignCount then New "[CheckConfirm] error, need more votes"
      else check_votes (proposal_Hash (Proposal confirm)) (Votes confirm)
  end.

(** ** Lemmas *)

(** A vote that counts for a proposal: it accepts it and is validly signed. *)
Definition valid_accept (proposalHash : Z) (v : DPOSProposalVote) : Prop :=
  Accept v = true /\ ProposalHash v = proposalHash /\ CheckVote v = nil_err.

Lemma check_votes_spec h vs : check_votes h vs = nil_err <-> Forall (valid_accept h) vs.
Proof.
  induction vs as [|v vs IH]; cbn; [by split|]. rewrite Forall_cons. unfold valid_accept at 1.
  destruct (Accept v); cbn; [|split; [done|]; naive_solver].
  destruct (Z.eqb_spec h (ProposalHash v)); cbn; [|split; [done|]; naive_solver].
  destruct (CheckVote v); naive_solver.
Qed.

(** ** Properties *)

(** what an accepted confirm certifies.  [CheckConfirm] succeeds exactly
    when the proposal is validly signed, there are at least [minSignCount]
    votes, and every vote accepts this very proposal and is validly signed. *)
Theorem CheckConfirm_spec (c : Confirm) (minSignCount : Z) :
  CheckConfirm c minSignCount = nil_err <->
  CheckProposal (Proposal c) = nil_err /\ minSignCount <= zlen (Votes c) /\
  Forall (valid_accept (proposal_Hash (Proposal c))) (Votes c).
Proof.
  unfold CheckConfirm. destruct (CheckProposal (Proposal c)); [naive_solver|].
  destruct (Z.ltb_spec (zlen (Votes c)) minSignCount).
  - split; [done|]. intros (_ & ? & _). lia.
  - rewrite check_votes_spec. tauto.
Qed.

(** a confirm is not checked against the producer set.  One single valid
    vote, by whatever key, repeated [minSignCount] times passes [CheckConfirm]:
    it requires neither that the voters are producers nor that they differ. *)
Theorem CheckConfirm_one_voter_suffices (p : DPOSProposal) (v : DPOSProposalVote) (minSignCount : Z) :
  CheckProposal p = nil_err -> valid_accept (proposal_Hash p) v ->
  CheckConfirm {| Proposal := p; Votes := replicate (Z.to_nat minSignCount) v |} minSignCount = nil_err.
Proof.
  intros Hp Hv. unfold CheckConfirm. cbn. rewrite Hp.
  destruct (Z.ltb_spec (zlen (replicate (Z.to_nat minSignCount) v)) minSignCount) as [Hl|_].
  - unfold zlen in Hl. rewrite length_replicate in Hl. lia.
  - apply check_votes_spec, Forall_replicate, Hv.
Qed.

(** what a node signs, every node accepts: a proposal or vote that
    [StartProposal] or [StartVote] returns passes the corresponding check and
    carries the requested content. *)
Theorem started_payloads_check (ac : Account) :
  account_ok ac ->
  (forall h o p, StartProposal ac h o = inl p ->
     CheckProposal p = nil_err /\ Sponsor p = PublicKeyBytes ac /\ BlockHash p = h /\ ViewOffset p = o) /\
  (forall h a v, StartVote h a ac = inl v ->
     CheckVote v = nil_err /\ Signer v = PublicKeyBytes ac /\ ProposalHash v = h /\ Accept v = a).
Proof.
  intros [HP HV]. split.
  - intros h o p. unfold StartProposal, CheckProposal. case_match eqn:E; [|done]. intros [= <-]. cbn.
    eapply HP in E as (pk & Hpk & Hv); [|done]. rewrite Hpk. done.
  - intros h o v. unfold StartVote, CheckVote. case_match eqn:E; [|done]. intros [= <-]. cbn.
    eapply HV in E as (pk & Hpk & Hv); [|done]. rewrite Hpk. done.
Qed.
End votes.

(** ** Witnesses *)
#[local] Existing Instance Toy.lib.

(** A proposal and votes as the accounts with the given keys sign them. *)
Definition example_proposal (key : bytes) (h o : Z) : DPOSProposal :=
  match StartProposal (Toy.account key) h o with inl p => p | inr _ => {| Sponsor := []; BlockHash := 0; ViewOffset := 0; proposal_Sign := [] |} end.

Definition example_vote (p : DPOSProposal) (a : bool) (key : bytes) : DPOSProposalVote :=
  match StartVote (proposal_Hash p) a (Toy.account key) with inl v => v | inr _ => {| ProposalHash := 0; Signer := []; Accept := a; vote_Sign := [] |} end.

Lemma CheckConfirm_one_voter_suffices_witness :
  CheckConfirm {| Proposal := example_proposal [1] 77 0;
                  Votes := replicate 8 (example_vote (example_proposal [1] 77 0) true [9]) |} 8 = nil_err.
Proof.
  apply (CheckConfirm_one_voter_suffices (example_proposal [1] 77 0)
    (example_vote (example_proposal [1] 77 0) true [9]) 8).
  - by vm_compute.
  - split_and!; by vm_compute.
Defined.

Lemma started_payloads_check_witness :
  CheckProposal (example_proposal [1] 77 2) = nil_err.
Proof.
  refine (proj1 (proj1 (started_payloads_check (Toy.account [1]) _) 77 2 _ eq_refl)).
  by apply Toy.account_correct.
Defined.
