(* ===== verification/Dispatcher.v ===== *)
(** * [dpos/dispatcher.go]: collecting votes on the processing proposal

    The dispatcher owns the consensus view, the processing proposal and the
    vote maps, and calls back into its environment: [onConfirm] when a proposal
    has a majority, [unConfirm] when it is rejected, and the view listener when
    the view changed.  The environment's state is an arbitrary type [Env]; the
    callbacks are a record of functions, so that this component is verified
    against the interface and the PBFT engine instantiates it.

    The readings of the clock ([timeSource.AdjustedTime()]) are arguments, in
    the order the code takes them.  The mutexes are left out: each handler is
    one step. *)
From S2P Require Import Prelude Ela Producers ConsensusView Messages Votes.

Record Dispatcher := {
  acceptVotes : gmap Z DPOSProposalVote;
  rejectedVotes : gmap Z DPOSProposalVote;
  pendingVotes : gmap Z DPOSProposalVote;
  precociousProposals : gmap Z DPOSProposal;
  processingProposal : option DPOSProposal;
  consensusView : ConsensusView;
  proposalProcessFinished : bool;
  finishedHeight : Z;
  finishedBlockSealHash : Z;
  finishedProposal : Z;
  resetViewRequests : gset string
}.

#[export] Instance Dispatcher_eta : Eta Dispatcher := fun d => {|
  acceptVotes := acceptVotes d;
  rejectedVotes := rejectedVotes d;
  pendingVotes := pendingVotes d;
  precociousProposals := precociousProposals d;
  processingProposal := processingProposal d;
  consensusView := consensusView d;
  proposalProcessFinished := proposalProcessFinished d;
  finishedHeight := finishedHeight d;
  finishedBlockSealHash := finishedBlockSealHash d;
  finishedProposal := finishedProposal d;
  resetViewRequests := resetViewRequests d
|}.

Definition NewDispatcher (ps : list bytes) (tolerance : Z) (publicKey : bytes)
    (viewListener : bool) (dposStartHeight : Z) : Dispatcher := {|
  acceptVotes := ∅; rejectedVotes := ∅; pendingVotes := ∅; precociousProposals := ∅;
  processingProposal := None;
  consensusView := NewConsensusView tolerance publicKey (NewProducers ps dposStartHeight) viewListener;
  proposalProcessFinished := false;
  finishedHeight := 0; finishedBlockSealHash := EmptyHash; finishedProposal := EmptyHash;
  resetViewRequests := ∅
|}.

(** The callbacks into the environment. *)
Record Callbacks (Env : Type) := {
  onConfirm : Dispatcher -> Confirm -> Env -> Env * error;
  unConfirm : Dispatcher -> Confirm -> Env -> Env * error;
  OnViewChanged : bool -> bool -> Dispatcher * Env -> Dispatcher * Env
}.
Arguments onConfirm {Env} _ _ _ _.
Arguments unConfirm {Env} _ _ _ _.
Arguments OnViewChanged {Env} _ _ _ _.

(** ** Accessors *)
Definition GetProposalProcessFinished (d : Dispatcher) : bool := proposalProcessFinished d.
Definition SetProposalProcessFinished (d : Dispatcher) : Dispatcher :=
  d <| proposalProcessFinished := true |>.
Definition GetProcessingProposal (d : Dispatcher) : option DPOSProposal := processingProposal d.
Definition IsProducer (account : bytes) (d : Dispatcher) : bool :=
  IsProducers account (consensusView d).
Definition ProducerIsOnDuty (d : Dispatcher) : bool := IsOnduty (consensusView d).
Definition with_view (f : ConsensusView -> ConsensusView) (d : Dispatcher) : Dispatcher :=
  d <| consensusView := f (consensusView d) |>.
Definition ResetView (parentTime : Z) (d : Dispatcher) : Dispatcher :=
  with_view (ConsensusView.ResetView parentTime) d.

Definition GetResetViewReqCount (d : Dispatcher) : Z := Z.of_nat (size (resetViewRequests d)).
Definition ResetViewRequestIsContain (sponsor : bytes) (d : Dispatcher) : bool :=
  bool_decide (hex_encode sponsor ∈ resetViewRequests d).
Definition RecordViewRequest (sponsor : bytes) (d : Dispatcher) : Dispatcher :=
  d <| resetViewRequests := {[ hex_encode sponsor ]} ∪ resetViewRequests d |>.

Definition setProcessingProsalNil (d : Dispatcher) : Dispatcher := d <| processingProposal := None |>.
Definition ResetAcceptVotes (d : Dispatcher) : Dispatcher := d <| acceptVotes := ∅ |>.

(** [CleanProposals]: a view change keeps the precocious proposals of the
    current and later views. *)
Definition CleanProposals (changeView : bool) (d : Dispatcher) : Dispatcher :=
  let d := setProcessingProsalNil d in
  let d := d <| acceptVotes := ∅ |> <| rejectedVotes := ∅ |> <| pendingVotes := ∅ |>
             <| proposalProcessFinished := false |> in
  if negb changeView then d <| precociousProposals := ∅ |>
  else
    let currentOffset := GetViewOffset (consensusView d) in
    d <| precociousProposals :=
      filter (fun kv => currentOffset <= ViewOffset (snd kv)) (precociousProposals d) |>.

Section dispatcher.
Context `{!ElaLib} `{!RangeOrder} {Env : Type} (cb : Callbacks Env).

Definition AddPendingVote (v : DPOSProposalVote) (d : Dispatcher) : Dispatcher :=
  d <| pendingVotes := <[ vote_Hash v := v ]> (pendingVotes d) |>.

Definition alreadyExistVote (v : DPOSProposalVote) (d : Dispatcher) : bool :=
  match acceptVotes d !! vote_Hash v with
  | Some _ => true
  | None => match rejectedVotes d !! vote_Hash v with Some _ => true | None => false end
  end.

Definition createConfirm (d : Dispatcher) : option Confirm :=
  match GetProcessingProposal d with
  | None => None
  | Some p => Some {| Proposal := p; Votes := (range_map (acceptVotes d)).*2 |}
  end.

(** [*d.processingProposal] of a nil pointer would panic; [processVote] calls
    this only with a processing proposal. *)
Definition createUnConfirm (d : Dispatcher) : option Confirm :=
  match processingProposal d with
  | None => None
  | Some p => Some {| Proposal := p; Votes := (range_map (rejectedVotes d)).*2 |}
  end.

(** [(succeed, finished, err)] and the new state. *)
Definition processVote (vote : DPOSProposalVote) (s : Dispatcher * Env)
    : (bool * bool * error) * (Dispatcher * Env) :=
  let '(d, e) := s in
  match GetProcessingProposal d with
  | None => ((false, false, New "not proposal to process vote"), (d, e))
  | Some proposal =>
  if negb (ProposalHash vote =? proposal_Hash proposal)
  then ((false, false, New "vote proposal is not processing proposal"), (d, e))
  else if alreadyExistVote vote d then ((false, false, New "alreadyExistVote"), (d, e))
  else if negb (IsProducers (Signer vote) (consensusView d))
  then ((false, false, New "vote signer is not producer"), (d, e))
  else
  match CheckVote vote with
  | Some err => ((false, false, New err), (d, e))
  | None =>
  if Accept vote then
    let d := d <| acceptVotes := <[ vote_Hash vote := vote ]> (acceptVotes d) |> in
    if IsMajorityAgree (Z.of_nat (size (acceptVotes d))) (consensusView d) then
      match createConfirm d with
      | Some confirm => let '(e, err) := onConfirm cb d confirm e in ((true, true, err), (d, e))
      | None => ((true, true, nil_err), (d, e))
      end
    else ((true, false, nil_err), (d, e))
  else
    let d := d <| rejectedVotes := <[ vote_Hash vote := vote ]> (rejectedVotes d) |> in
    if IsMajorityRejected (Z.of_nat (size (rejectedVotes d))) (consensusView d) then
      match createUnConfirm d with
      | Some confirm => let '(e, _) := unConfirm cb d confirm e in ((true, false, nil_err), (d, e))
      | None => ((true, false, nil_err), (d, e))
      end
    else ((true, false, nil_err), (d, e))
  end
  end.

Definition ProcessVote := processVote.

(** The loop over the pending votes of [setProcessingProposal]. *)
Fixpoint process_pending (p : DPOSProposal) (votes : list DPOSProposalVote) (s : Dispatcher * Env)
    : bool * (Dispatcher * Env) :=
  match votes with
  | [] => (false, s)
  | v :: votes =>
      if ProposalHash v =? proposal_Hash p then
        let '((_, finished, _), s) := processVote v s in
        if finished then (true, s) else process_pending p votes s
      else process_pending p votes s
  end.

Definition setProcessingProposal (p : DPOSProposal) (s : Dispatcher * Env) : bool * (Dispatcher * Env) :=
  let '(d, e) := s in
  let d := d <| processingProposal := Some p |> in
  let '(finished, (d, e)) := process_pending p (range_map (pendingVotes d)).*2 (d, e) in
  if finished then (true, (d, e)) else (false, (d <| pendingVotes := ∅ |>, e)).

(** [(err, isSendReject, handled)] and the new state. *)
Definition ProcessProposal (id : bytes) (proposal : DPOSProposal) (s : Dispatcher * Env)
    : (error * bool * bool) * (Dispatcher * Env) :=
  let '(d, e) := s in
  let self := bytes_Equal id (Sponsor proposal) in
  if negb (GetViewOffset (consensusView d) =? ViewOffset proposal) then
    let d :=
      if GetViewOffset (consensusView d) <? ViewOffset proposal
      then d <| precociousProposals := <[ proposal_Hash proposal := proposal ]> (precociousProposals d) |>
      else d in
    ((New "have different view offset", false, false), (d, e))
  else if negb (ConsensusView.ProducerIsOnDuty (Sponsor proposal) (consensusView d))
  then ((New "current signer is not onDuty", false, negb self), (d, e))
  else if match GetProcessingProposal d with
          | Some q => proposal_Hash q =? proposal_Hash proposal
          | None => false
          end
  then ((New "already processing this proposal", false, true), (d, e))
  else if negb (IsProducers (Sponsor proposal) (consensusView d))
  then ((New "proposal signer is not producer", true, true), (d, e))
  else match CheckProposal proposal with
       | Some err => ((New err, true, true), (d, e))
       | None => let '(_, s) := setProcessingProposal proposal (d, e) in ((nil_err, false, true), s)
       end.

(** Run the view listener, if the view asked for it. *)
Definition notify_view (n : option (bool * bool)) (s : Dispatcher * Env) : Dispatcher * Env :=
  match n with
  | Some (isOnDuty, force) => OnViewChanged cb isOnDuty force s
  | None => s
  end.

Definition change_view (f : ConsensusView -> ConsensusView * option (bool * bool))
    (s : Dispatcher * Env) : Dispatcher * Env :=
  let '(d, e) := s in
  let '(v, n) := f (consensusView d) in
  notify_view n (d <| consensusView := v |>, e).

Definition FinishedProposal (height sealHash headerTime : Z) (now : Z) (s : Dispatcher * Env)
    : Dispatcher * Env :=
  let '(d, e) := s in
  if height <=? finishedHeight d then (d, e)
  else
    let d := d <| finishedHeight := height |> <| finishedBlockSealHash := sealHash |> in
    let d := match processingProposal d with
             | Some p => d <| finishedProposal := proposal_Hash p |>
             | None => d
             end in
    let d := with_view SetReady d in
    let d := CleanProposals false d in
    let d := with_view (UpdateDutyIndex height) d in
    let '(d, e) := change_view (ChangeView now true headerTime) (d, e) in
    (d <| resetViewRequests := ∅ |>, e).

Definition ResetConsensus (height : Z) (now1 now2 : Z) (s : Dispatcher * Env) : Dispatcher * Env :=
  let '(d, e) := s in
  let '(d, e) :=
    if IsRunning (consensusView d) then
      let d := with_view SetReady d in
      let d := CleanProposals false d in
      let d := with_view resetViewOffset d in
      let d := with_view (UpdateDutyIndex height) d in
      change_view (ChangeView now1 true (u64 (Unix now2))) (d, e)
    else (d, e) in
  (d <| resetViewRequests := ∅ |>, e).

Definition OnResponseResetViewReceived (m : ResetViewMsg) (d : Dispatcher) : error * Dispatcher :=
  match resetView_SerializeUnsigned m with
  | inr err => (New err, d)
  | inl data =>
      match DecodePoint (reset_Sponsor m) with
      | inr err => (New err, d)
      | inl pk =>
          match Verify pk data (reset_Sign m) with
          | Some err => (New err, d)
          | None => (nil_err, RecordViewRequest (reset_Sponsor m) d)
          end
      end
  end.

Definition OnChangeView (now : Z) (s : Dispatcher * Env) : Dispatcher * Env :=
  change_view (TryChangeView now) s.

(** The loop returns the first precocious proposal of the running view. *)
Definition UpdatePrecociousProposals (d : Dispatcher) : option DPOSProposal * Dispatcher :=
  match find (fun kv => IsRunning (consensusView d)
                        && (ViewOffset (snd kv) =? GetViewOffset (consensusView d)))
             (range_map (precociousProposals d)) with
  | Some (k, v) => (Some v, d <| precociousProposals := delete k (precociousProposals d) |>)
  | None => (None, d)
  end.

Definition AcceptProposal (proposal : DPOSProposal) (ac : Account) : option DPOSProposalVote :=
  match StartVote (proposal_Hash proposal) true ac with
  | inl vote => Some vote
  | inr _ => None
  end.

Definition RejectProposal (proposal : DPOSProposal) (ac : Account) (s : Dispatcher * Env)
    : option DPOSProposalVote * (Dispatcher * Env) :=
  let '(finished, s) := setProcessingProposal proposal s in
  if finished then (None, s)
  else match StartVote (proposal_Hash proposal) false ac with
       | inl vote => (Some vote, s)
       | inr _ => (None, s)
       end.

(** ** Recovery of an abnormal state *)
Definition HelpToRecoverAbnormal (height currentHeight : Z) (d : Dispatcher) : option ConsensusStatus :=
  if currentHeight <? height then None
  else if zlen (GetProducers (consensusView d)) <=? 0 then None
  else Some {|
    status_ConsensusStatus := consensusStatus (consensusView d);
    status_ViewOffset := viewOffset (consensusView d);
    status_ViewStartTime := GetViewStartTime (consensusView d);
    status_AcceptVotes := [];
    status_RejectedVotes := [];
    status_PendingProposals := [];
    status_PendingVotes := [];
    status_WorkingHeight := workingHeight (view_producers (consensusView d)) |}.

Definition RecoverFromConsensusStatus (status : ConsensusStatus) (d : Dispatcher) : Dispatcher :=
  let d := with_view (fun v => v <| consensusStatus := status_ConsensusStatus status |>) d in
  let d := d <| acceptVotes := ∅ |> <| rejectedVotes := ∅ |> in
  let d := setProcessingProsalNil d in
  let d := d <| pendingVotes := ∅ |> in
  let d := with_view (fun v => v <| viewOffset := status_ViewOffset status |>) d in
  let d := with_view (ConsensusView.ResetView (u64 (Unix (status_ViewStartTime status)))) d in
  let d := with_view (fun v => v <| isDposOnDuty := ConsensusView.ProducerIsOnDuty (publicKey v) v |>) d in
  let d := with_view (SetWorkingHeight (status_WorkingHeight status)) d in
  if 0 <? finishedHeight d then with_view (UpdateDutyIndex (finishedHeight d)) d else d.

Definition RecoverAbnormal (status : option ConsensusStatus) (medianTime : Z) (now1 now2 : Z)
    (d : Dispatcher) : Dispatcher :=
  match status with
  | None => d
  | Some status =>
      let status := status <| status_ViewStartTime := Int64ToTime medianTime |> in
      let status :=
        if negb (medianTime =? 0) then
          let '(offset, offsetTime) :=
            calculateOffsetTime (status_ViewStartTime status) now1 (consensusView d) in
          let status := status <| status_ViewOffset := u32 (status_ViewOffset status + offset) |> in
          status <| status_ViewStartTime := now2 - offsetTime |>
        else status in
      RecoverFromConsensusStatus status d
  end.

(** ** The invariant of the vote maps *)

(** A vote the dispatcher may count for the processing proposal. *)
Definition genuine (d : Dispatcher) (a : bool) (k : Z) (v : DPOSProposalVote) : Prop :=
  k = vote_Hash v /\ Accept v = a /\ CheckVote v = nil_err /\
  IsProducers (Signer v) (consensusView d) = true /\
  exists p, processingProposal d = Some p /\ ProposalHash v = proposal_Hash p.

(** An entry of the vote maps: its key was made for a genuine vote.  The maps
    hold pointers to the caller's votes: the stored value is that vote only as
    long as the caller has not overwritten it ([fresh]). *)
Definition counted (fresh : bool) (d : Dispatcher) (a : bool) (k : Z) (v : DPOSProposalVote) : Prop :=
  exists w, genuine d a k w /\ (fresh = true -> v = w).

Record dispatcher_inv (fresh : bool) (d : Dispatcher) : Prop := {
  inv_accept : forall k v, acceptVotes d !! k = Some v -> counted fresh d true k v;
  inv_reject : forall k v, rejectedVotes d !! k = Some v -> counted fresh d false k v;
  inv_pending : forall k v, pendingVotes d !! k = Some v -> k = vote_Hash v;
  inv_precocious : forall k p, precociousProposals d !! k = Some p -> k = proposal_Hash p
}.

(** The result of [processVote]: the vote is refused and nothing changes, or it
    is counted on its side and a reached majority is reported. *)
Inductive vote_outcome (vote : DPOSProposalVote) (d : Dispatcher) (e : Env)
    : (bool * bool * error) * (Dispatcher * Env) -> Prop :=
| vote_refused err :
    vote_outcome vote d e ((false, false, New err), (d, e))
| vote_counted p succeeded finished err e' :
    processingProposal d = Some p -> ProposalHash vote = proposal_Hash p ->
    alreadyExistVote vote d = false -> IsProducers (Signer vote) (consensusView d) = true ->
    CheckVote vote = nil_err ->
    let d' := if Accept vote
              then d <| acceptVotes := <[ vote_Hash vote := vote ]> (acceptVotes d) |>
              else d <| rejectedVotes := <[ vote_Hash vote := vote ]> (rejectedVotes d) |> in
    finished = (Accept vote
      && IsMajorityAgree (Z.of_nat (size (acceptVotes d'))) (consensusView d)) ->
    (finished = true ->
       (e', err) = onConfirm cb d' {| Proposal := p; Votes := (range_map (acceptVotes d')).*2 |} e) ->
    succeeded = true ->
    vote_outcome vote d e ((succeeded, finished, err), (d', e')).

Lemma createConfirm_Some d p :
  processingProposal d = Some p ->
  createConfirm d = Some {| Proposal := p; Votes := (range_map (acceptVotes d)).*2 |}.
Proof. unfold createConfirm, GetProcessingProposal. by intros ->. Qed.

Lemma createUnConfirm_Some d p :
  processingProposal d = Some p ->
  createUnConfirm d = Some {| Proposal := p; Votes := (range_map (rejectedVotes d)).*2 |}.
Proof. unfold createUnConfirm. by intros ->. Qed.

Lemma processVote_outcome vote d e : vote_outcome vote d e (processVote vote (d, e)).
Proof.
  unfold processVote, GetProcessingProposal.
  destruct (processingProposal d) as [p|] eqn:Hp; [|constructor].
  destruct (Z.eqb_spec (ProposalHash vote) (proposal_Hash p)) as [Hh|]; cbn [negb]; [|constructor].
  destruct (alreadyExistVote vote d) eqn:Hx; [constructor|].
  destruct (IsProducers (Signer vote) (consensusView d)) eqn:Hs; cbn [negb]; [|constructor].
  destruct (CheckVote vote) eqn:Hc; [constructor|].
  pose proof (vote_counted vote d e p) as VC. specialize (VC true).
  destruct (Accept vote) eqn:Ha; cbn zeta iota in VC.
  - set (d' := d <| acceptVotes := _ |>) in *.
    destruct (IsMajorityAgree _ _) eqn:Hm; [|by eapply VC].
    rewrite (createConfirm_Some d' p Hp).
    destruct (onConfirm _ _ _ _) as [e' err] eqn:Hcb. by eapply VC.
  - set (d' := d <| rejectedVotes := _ |>) in *.
    destruct (IsMajorityRejected _ _) eqn:Hm; [|by eapply VC].
    rewrite (createUnConfirm_Some d' p Hp).
    destruct (unConfirm _ _ _ _) as [e' err] eqn:Hcb. by eapply VC.
Qed.

Section invariants.
Context {fresh : bool}.

Lemma counted_insert d d' a k v vote (m : gmap Z DPOSProposalVote) :
  (m !! k = Some v -> counted fresh d a k v) ->
  processingProposal d' = processingProposal d -> consensusView d' = consensusView d ->
  counted fresh d a (vote_Hash vote) vote ->
  <[ vote_Hash vote := vote ]> m !! k = Some v -> counted fresh d' a k v.
Proof.
  unfold counted, genuine. intros Hm -> -> Hv. rewrite lookup_insert. case_decide; [|done].
  intros [= <-]. by subst.
Qed.

(** Only the list of producers matters to a counted vote. *)
Definition members (d : Dispatcher) : list bytes := producers (view_producers (consensusView d)).

Lemma counted_frame d d' a k v :
  processingProposal d' = processingProposal d -> members d' = members d ->
  counted fresh d a k v -> counted fresh d' a k v.
Proof.
  unfold counted, genuine, members, IsProducers, Producers.IsProducers. by intros -> ->.
Qed.

Lemma genuine_counted d a vote p :
  processingProposal d = Some p -> ProposalHash vote = proposal_Hash p -> Accept vote = a ->
  CheckVote vote = nil_err -> IsProducers (Signer vote) (consensusView d) = true ->
  counted fresh d a (vote_Hash vote) vote.
Proof. intros. exists vote. split; [|done]. split_and!; eauto. Qed.

Lemma processVote_inv vote s :
  dispatcher_inv fresh (fst s) -> dispatcher_inv fresh (fst (snd (processVote vote s))).
Proof.
  destruct s as [d e]. cbn [fst]. intros [HA HR HP HQ].
  destruct (processVote_outcome vote d e) as [|p succ fin err e' Hp Hh _ Hs Hc d' _ _ _]; cbn.
  - by split.
  - unfold d'. destruct (Accept vote) eqn:Ha; (split; cbn; [..|done|done]); intros k v Hl.
    + eapply counted_insert; [apply HA|done..| |done]. by eapply genuine_counted.
    + eapply counted_frame; [..|by eapply HR]; done.
    + eapply counted_frame; [..|by eapply HA]; done.
    + eapply counted_insert; [apply HR|done..| |done]. by eapply genuine_counted.
Qed.

(** [processVote] only touches the vote maps. *)
Definition same_frame (d d' : Dispatcher) : Prop :=
  consensusView d' = consensusView d /\ processingProposal d' = processingProposal d /\
  pendingVotes d' = pendingVotes d /\ precociousProposals d' = precociousProposals d /\
  finishedHeight d' = finishedHeight d /\ acceptVotes d ⊆ acceptVotes d' /\
  rejectedVotes d ⊆ rejectedVotes d'.

Lemma same_frame_refl d : same_frame d d.
Proof. by repeat split. Qed.

Lemma same_frame_trans d1 d2 d3 : same_frame d1 d2 -> same_frame d2 d3 -> same_frame d1 d3.
Proof.
  intros (E1 & E2 & E3 & E4 & E5 & E6 & E7) (F1 & F2 & F3 & F4 & F5 & F6 & F7).
  unfold same_frame. rewrite F1, F2, F3, F4, F5. split_and!; try done; by etrans.
Qed.

Lemma processVote_frame vote s : same_frame (fst s) (fst (snd (processVote vote s))).
Proof.
  destruct s as [d e]. cbn [fst].
  destruct (processVote_outcome vote d e) as [|p succ fin err e' _ _ Hx _ _ d' _ _ _]; cbn.
  { apply same_frame_refl. }
  unfold alreadyExistVote in Hx.
  destruct (acceptVotes d !! vote_Hash vote) eqn:EA; [done|].
  destruct (rejectedVotes d !! vote_Hash vote) eqn:ER; [done|].
  unfold d'. destruct (Accept vote); repeat split; cbn; try done; by apply insert_subseteq.
Qed.

Lemma process_pending_inv p votes s :
  dispatcher_inv fresh (fst s) -> dispatcher_inv fresh (fst (snd (process_pending p votes s))).
Proof.
  revert s. induction votes as [|v votes IH]; intros s Hs; cbn; [done|].
  case_match; [|by apply IH].
  pose proof (processVote_inv v s Hs) as Hv.
  destruct (processVote v s) as [[[? fin] ?] s']. cbn in *. destruct fin; [done|by apply IH].
Qed.

Lemma process_pending_frame p votes s : same_frame (fst s) (fst (snd (process_pending p votes s))).
Proof.
  revert s. induction votes as [|v votes IH]; intros s; cbn; [apply same_frame_refl|].
  case_match; [|by apply IH].
  pose proof (processVote_frame v s) as Hv.
  destruct (processVote v s) as [[[? fin] ?] s']. cbn in *.
  destruct fin; [done|]. eapply same_frame_trans; [done|apply IH].
Qed.

(** Without a processing proposal no vote is counted. *)
Lemma inv_no_votes d :
  dispatcher_inv fresh d -> processingProposal d = None -> acceptVotes d = ∅ /\ rejectedVotes d = ∅.
Proof.
  intros Hi Hn. split; apply map_eq; intros k; rewrite lookup_empty.
  - destruct (acceptVotes d !! k) as [v|] eqn:E; [|done].
    apply (inv_accept _ _ Hi) in E as (w & (_ & _ & _ & _ & p & Hp & _) & _). congruence.
  - destruct (rejectedVotes d !! k) as [v|] eqn:E; [|done].
    apply (inv_reject _ _ Hi) in E as (w & (_ & _ & _ & _ & p & Hp & _) & _). congruence.
Qed.

Lemma setProcessingProposal_inv p s :
  dispatcher_inv fresh (fst s) ->
  processingProposal (fst s) = None \/ processingProposal (fst s) = Some p ->
  dispatcher_inv fresh (fst (snd (setProcessingProposal p s))).
Proof.
  destruct s as [d e]. cbn [fst]. intros Hi0 Hn. unfold setProcessingProposal.
  assert (Hi : dispatcher_inv fresh (d <| processingProposal := Some p |>)).
  { destruct Hn as [Hn|Hn].
    - destruct (inv_no_votes d Hi0 Hn) as [HA HR]. destruct Hi0 as [_ _ HP HQ].
      split; cbn; try done; rewrite ?HA, ?HR; intros k v; by rewrite lookup_empty.
    - destruct Hi0 as [HA HR HP HQ]. split; cbn; try done;
        intros k v Hl; (eapply counted_frame; [..|by eauto]; done). }
  pose proof (process_pending_inv p (range_map (pendingVotes d)).*2 (_, e) Hi) as Hpp.
  set (d1 := d <| processingProposal := Some p |>) in *.
  change (pendingVotes d1) with (pendingVotes d).
  destruct (process_pending _ _ _) as [fin [d' e']]. cbn in Hpp. destruct fin; cbn; [done|].
  destruct Hpp as [HA' HR' HP' HQ']. split; cbn; try done.
Qed.

(** ** Reachable states *)

(** What the proofs need of the view listener.  It is derived below for every
    listener that only calls into the dispatcher ([well_behaved]). *)
Class CallbackLaws := {
  view_changed_inv : forall (fresh : bool) a f s,
    dispatcher_inv fresh (fst s) -> dispatcher_inv fresh (fst (OnViewChanged cb a f s));
  view_changed_finished : forall (fresh : bool) a f s,
    dispatcher_inv fresh (fst s) -> finishedHeight (fst s) <= finishedHeight (fst (OnViewChanged cb a f s))
}.

(** One call into the dispatcher.  A new proposal is taken up only when none is
    being processed, and the producer set is replaced only between proposals.  The
    handler of received proposals checks the former; [StartProposal], with which
    the node makes its own proposal, does not, and [takeover_counts_old_votes]
    shows what follows.  A proposal that has been taken up may be rejected. *)
Inductive dstep : Dispatcher * Env -> Dispatcher * Env -> Prop :=
| step_proposal id p s :
    processingProposal (fst s) = None -> dstep s (snd (ProcessProposal id p s))
| step_reject p ac s :
    processingProposal (fst s) = None \/ processingProposal (fst s) = Some p ->
    dstep s (snd (RejectProposal p ac s))
| step_take p s :
    processingProposal (fst s) = None \/ processingProposal (fst s) = Some p ->
    dstep s (snd (setProcessingProposal p s))
| step_vote v s : dstep s (snd (ProcessVote v s))
| step_pending v d e : dstep (d, e) (AddPendingVote v d, e)
| step_finished h sh ht now s : dstep s (FinishedProposal h sh ht now s)
| step_reset h now1 now2 s : dstep s (ResetConsensus h now1 now2 s)
| step_reset_request m d e : dstep (d, e) (snd (OnResponseResetViewReceived m d), e)
| step_change_view now s : dstep s (OnChangeView now s)
| step_precocious d e : dstep (d, e) (snd (UpdatePrecociousProposals d), e)
| step_clean b d e : dstep (d, e) (CleanProposals b d, e)
| step_reset_accept d e : dstep (d, e) (ResetAcceptVotes d, e)
| step_processed d e : dstep (d, e) (SetProposalProcessFinished d, e)
| step_recover st mt now1 now2 d e : dstep (d, e) (RecoverAbnormal st mt now1 now2 d, e)
| step_view f d e :
    members (with_view f d) = members d \/ processingProposal d = None ->
    dstep (d, e) (with_view f d, e)
| step_env d e e' : dstep (d, e) (d, e').

Lemma blank_inv d :
  acceptVotes d = ∅ -> rejectedVotes d = ∅ ->
  (forall k v, pendingVotes d !! k = Some v -> k = vote_Hash v) ->
  (forall k p, precociousProposals d !! k = Some p -> k = proposal_Hash p) ->
  dispatcher_inv fresh d.
Proof. intros HA HR. split; rewrite ?HA, ?HR; try done; intros k v; by rewrite lookup_empty. Qed.

Lemma inv_frame d d' :
  dispatcher_inv fresh d -> acceptVotes d' = acceptVotes d -> rejectedVotes d' = rejectedVotes d ->
  pendingVotes d' = pendingVotes d -> precociousProposals d' = precociousProposals d ->
  processingProposal d' = processingProposal d -> members d' = members d \/ processingProposal d = None ->
  dispatcher_inv fresh d'.
Proof.
  intros Hi HA HR HP HQ Hpr [Hm|Hn].
  - destruct Hi as [IA IR IP IQ]. split; rewrite ?HA, ?HR, ?HP, ?HQ; try done;
      intros k v Hl; eapply counted_frame; eauto.
  - destruct (inv_no_votes d Hi Hn) as [EA ER]. destruct Hi as [_ _ IP IQ].
    apply blank_inv; rewrite ?HA, ?HR, ?HP, ?HQ; done.
Qed.

Lemma CleanProposals_inv b d : dispatcher_inv fresh d -> dispatcher_inv fresh (CleanProposals b d).
Proof.
  intros [_ _ _ HQ]. unfold CleanProposals. destruct b; apply blank_inv; cbn; try done;
    intros k v; rewrite ?lookup_empty; try done.
  rewrite map_lookup_filter_Some. intros [? _]. eauto.
Qed.

Lemma UpdateDutyIndex_members h v :
  producers (view_producers (UpdateDutyIndex h v)) = producers (view_producers v).
Proof. unfold UpdateDutyIndex, Producers.UpdateDutyIndex. cbn. by case_match. Qed.

Lemma ChangeView_producers now f pt v : view_producers (fst (ChangeView now f pt v)) = view_producers v.
Proof. unfold ChangeView. repeat case_match; simplify_eq/=; repeat case_match; by simplify_eq/=. Qed.

Lemma TryChangeView_producers now v : view_producers (fst (TryChangeView now v)) = view_producers v.
Proof. unfold TryChangeView. case_match; [apply ChangeView_producers|done]. Qed.

Context `{!CallbackLaws}.

Lemma set_view_inv d v :
  view_producers v = view_producers (consensusView d) -> dispatcher_inv fresh d ->
  dispatcher_inv fresh (d <| consensusView := v |>).
Proof. intros Hv Hi. eapply inv_frame; [done..|]. left. unfold members. cbn. by rewrite Hv. Qed.

Lemma change_view_inv f s :
  (forall v, view_producers (fst (f v)) = view_producers v) ->
  dispatcher_inv fresh (fst s) -> dispatcher_inv fresh (fst (change_view f s)).
Proof.
  intros Hf Hi. destruct s as [d e]. unfold change_view. specialize (Hf (consensusView d)).
  destruct (f (consensusView d)) as [v n]. cbn in Hf, Hi.
  pose proof (set_view_inv d v Hf Hi) as Hd.
  destruct n as [[a b]|]; cbn; [|done]. by apply view_changed_inv.
Qed.

Lemma change_view_finished f s :
  (forall v, view_producers (fst (f v)) = view_producers v) -> dispatcher_inv fresh (fst s) ->
  finishedHeight (fst s) <= finishedHeight (fst (change_view f s)).
Proof.
  intros Hf Hi. destruct s as [d e]. unfold change_view. specialize (Hf (consensusView d)).
  destruct (f (consensusView d)) as [v [[a b]|]]; cbn; [|lia].
  etrans; [|eapply view_changed_finished; by apply set_view_inv]. done.
Qed.

Lemma with_view_inv f d :
  members (with_view f d) = members d \/ processingProposal d = None ->
  dispatcher_inv fresh d -> dispatcher_inv fresh (with_view f d).
Proof. intros Hm Hi. by eapply inv_frame. Qed.

(** The states in which the two forced view changes start. *)
Lemma finish_start_inv d d0 h :
  dispatcher_inv fresh d -> acceptVotes d0 = acceptVotes d -> rejectedVotes d0 = rejectedVotes d ->
  pendingVotes d0 = pendingVotes d -> precociousProposals d0 = precociousProposals d ->
  processingProposal d0 = processingProposal d -> members d0 = members d ->
  dispatcher_inv fresh (with_view (UpdateDutyIndex h) (CleanProposals false (with_view SetReady d0))).
Proof.
  intros Hi HA HR HP HQ Hp Hm. apply with_view_inv; [by right|]. apply CleanProposals_inv.
  apply with_view_inv; [by left|]. by eapply inv_frame; [exact Hi|..|left].
Qed.

Lemma reset_start_inv d h :
  dispatcher_inv fresh d ->
  dispatcher_inv fresh (with_view (UpdateDutyIndex h) (with_view resetViewOffset (CleanProposals false (with_view SetReady d)))).
Proof.
  intros Hi. do 2 (apply with_view_inv; [by right|]). apply CleanProposals_inv.
  by apply with_view_inv; [left|].
Qed.

Lemma FinishedProposal_inv h sh ht now s :
  dispatcher_inv fresh (fst s) -> dispatcher_inv fresh (fst (FinishedProposal h sh ht now s)).
Proof.
  destruct s as [d e]. cbn [fst]. intros Hi. unfold FinishedProposal. case_match; [done|].
  set (d1 := with_view (UpdateDutyIndex h) _).
  assert (Hd : dispatcher_inv fresh d1) by (apply (finish_start_inv d); try done; cbn; by destruct (processingProposal d) eqn:?).
  pose proof (change_view_inv (ChangeView now true ht) (d1, e)
    (ChangeView_producers _ _ _) Hd) as Hc.
  destruct (change_view _ _) as [d' e']. cbn [fst] in *. by eapply inv_frame; [exact Hc|..|left].
Qed.

Lemma ResetConsensus_inv h now1 now2 s :
  dispatcher_inv fresh (fst s) -> dispatcher_inv fresh (fst (ResetConsensus h now1 now2 s)).
Proof.
  destruct s as [d e]. cbn [fst]. intros Hi. unfold ResetConsensus.
  destruct (IsRunning (consensusView d)).
  - pose proof (change_view_inv (ChangeView now1 true (u64 (Unix now2))) (_, e)
      (ChangeView_producers _ _ _) (reset_start_inv d h Hi)) as Hc.
    destruct (change_view _ _) as [d' e']. cbn [fst] in *. by eapply inv_frame; [exact Hc|..|left].
  - cbn. by eapply inv_frame; [..|left].
Qed.

Lemma ProcessProposal_inv id p s :
  dispatcher_inv fresh (fst s) -> processingProposal (fst s) = None ->
  dispatcher_inv fresh (fst (snd (ProcessProposal id p s))).
Proof.
  destruct s as [d e]. cbn [fst]. intros Hi Hn. unfold ProcessProposal.
  case_match.
  { case_match; cbn; [|done]. destruct Hi as [HA HR HP HQ]. split; cbn; try done.
    intros k q. rewrite lookup_insert. case_decide; [intros [= <-]; by subst|apply HQ]. }
  destruct (negb (ConsensusView.ProducerIsOnDuty _ _)); [done|].
  destruct (match GetProcessingProposal d with Some _ => _ | None => _ end); [done|].
  destruct (negb (IsProducers _ _)); [done|].
  destruct (CheckProposal p); [done|].
  pose proof (setProcessingProposal_inv p (d, e) Hi (or_introl Hn)) as Hp.
  by destruct (setProcessingProposal p (d, e)) as [? s'].
Qed.

Lemma RecoverFromConsensusStatus_inv st d :
  dispatcher_inv fresh d -> dispatcher_inv fresh (RecoverFromConsensusStatus st d).
Proof.
  intros [_ _ _ HQ]. unfold RecoverFromConsensusStatus.
  destruct (0 <? _); apply blank_inv; done.
Qed.

Lemma RecoverAbnormal_inv st mt now1 now2 d :
  dispatcher_inv fresh d -> dispatcher_inv fresh (RecoverAbnormal st mt now1 now2 d).
Proof.
  intros Hi. unfold RecoverAbnormal. destruct st as [st|]; [|done].
  by apply RecoverFromConsensusStatus_inv.
Qed.

Lemma RejectProposal_inv p ac s :
  dispatcher_inv fresh (fst s) ->
  processingProposal (fst s) = None \/ processingProposal (fst s) = Some p ->
  dispatcher_inv fresh (fst (snd (RejectProposal p ac s))).
Proof.
  intros Hi Hn. unfold RejectProposal. pose proof (setProcessingProposal_inv p s Hi Hn) as Hp.
  destruct (setProcessingProposal p s) as [[] s']; [done|]. by case_match.
Qed.

Lemma OnResponseResetViewReceived_frame m d :
  exists r, snd (OnResponseResetViewReceived m d) = d <| resetViewRequests := r |>.
Proof.
  unfold OnResponseResetViewReceived, RecordViewRequest. destruct d. repeat case_match; by eexists.
Qed.

Lemma UpdatePrecociousProposals_inv d :
  dispatcher_inv fresh d -> dispatcher_inv fresh (snd (UpdatePrecociousProposals d)).
Proof.
  intros Hi. unfold UpdatePrecociousProposals. case_match; [|done]. case_match. destruct Hi as [HA HR HP HQ].
  split; cbn; try done. intros k q. rewrite lookup_delete_Some. intros [_ ?]. eauto.
Qed.

Lemma dstep_inv s s' : dstep s s' -> dispatcher_inv fresh (fst s) -> dispatcher_inv fresh (fst s').
Proof.
  intros Hs Hi. destruct Hs; cbn [fst] in *; eauto using ProcessProposal_inv, RejectProposal_inv,
    setProcessingProposal_inv, processVote_inv, FinishedProposal_inv, ResetConsensus_inv, UpdatePrecociousProposals_inv,
    CleanProposals_inv, RecoverAbnormal_inv, with_view_inv, change_view_inv, TryChangeView_producers.
  - destruct Hi as [HA HR HP HQ]. split; try done. cbn. intros k w. rewrite lookup_insert.
    case_decide; [intros [= <-]; by subst|apply HP].
  - destruct (OnResponseResetViewReceived_frame m d) as [r ->]. by eapply inv_frame; [exact Hi|..|left].
  - destruct Hi as [HA HR HP HQ]. split; done.
  - by eapply inv_frame; [exact Hi|..|left].
Qed.

Lemma reachable_inv ps tol pk l start e0 s :
  rtc dstep (NewDispatcher ps tol pk l start, e0) s -> dispatcher_inv fresh (fst s).
Proof.
  intros Hr. assert (Hi : dispatcher_inv fresh (NewDispatcher ps tol pk l start)) by (by apply blank_inv).
  change (NewDispatcher ps tol pk l start) with (fst (NewDispatcher ps tol pk l start, e0)) in Hi.
  induction Hr as [|s1 s2 s3 Hs1 _ IH]; [done|]. eauto using dstep_inv.
Qed.

(** ** The finished height *)
Lemma setProcessingProposal_finished p s :
  finishedHeight (fst (snd (setProcessingProposal p s))) = finishedHeight (fst s).
Proof.
  destruct s as [d e]. unfold setProcessingProposal.
  pose proof (process_pending_frame p (range_map (pendingVotes d)).*2 (d <| processingProposal := Some p |>, e))
    as (_ & _ & _ & _ & Hf & _ & _).
  set (d1 := d <| processingProposal := Some p |>) in *.
  change (pendingVotes d1) with (pendingVotes d).
  destruct (process_pending _ _ _) as [fin [d' e']]. cbn in Hf. by destruct fin.
Qed.

Lemma dstep_finished s s' :
  dstep s s' -> dispatcher_inv fresh (fst s) -> finishedHeight (fst s) <= finishedHeight (fst s').
Proof.
  intros Hs Hi. destruct Hs; cbn [fst] in *; try done.
  - destruct s as [d e]. unfold ProcessProposal. case_match; [by case_match|].
    destruct (negb (ConsensusView.ProducerIsOnDuty _ _)); [done|].
    destruct (match GetProcessingProposal d with Some _ => _ | None => _ end); [done|].
    destruct (negb (IsProducers _ _)); [done|]. destruct (CheckProposal p); [done|].
    pose proof (setProcessingProposal_finished p (d, e)) as Hp.
    destruct (setProcessingProposal p (d, e)) as [? s']. cbn in *. lia.
  - unfold RejectProposal. pose proof (setProcessingProposal_finished p s) as Hp.
    destruct (setProcessingProposal p s) as [[] s']; cbn in *; [lia|]. case_match; cbn; lia.
  - rewrite setProcessingProposal_finished. lia.
  - pose proof (processVote_frame v s) as (_ & _ & _ & _ & Hf & _). unfold ProcessVote. lia.
  - destruct s as [d e]. cbn [fst]. unfold FinishedProposal.
    destruct (Z.leb_spec h (finishedHeight d)); [done|].
    set (d1 := with_view (UpdateDutyIndex h) _).
    assert (Hd : finishedHeight d1 = h) by (by unfold d1; destruct (processingProposal _)).
    assert (Hd1 : dispatcher_inv fresh d1) by (apply (finish_start_inv d); try done; cbn; by destruct (processingProposal d) eqn:?).
    pose proof (change_view_finished (ChangeView now true ht) (d1, e) (ChangeView_producers _ _ _) Hd1) as Hc.
    destruct (change_view _ _) as [d' e']. cbn [fst] in *. cbn. lia.
  - destruct s as [d e]. cbn [fst]. unfold ResetConsensus. destruct (IsRunning (consensusView d)); [|done].
    pose proof (change_view_finished (ChangeView now1 true (u64 (Unix now2))) (_, e)
      (ChangeView_producers _ _ _) (reset_start_inv d h Hi)) as Hc.
    destruct (change_view _ _) as [d' e']. cbn [fst] in *. exact Hc.
  - destruct (OnResponseResetViewReceived_frame m d) as [r ->]. done.
  - by apply change_view_finished; [apply TryChangeView_producers|].
  - unfold UpdatePrecociousProposals. case_match; [|done]. by case_match.
  - unfold CleanProposals. by destruct b.
  - unfold RecoverAbnormal. case_match; [|done]. unfold RecoverFromConsensusStatus. by destruct (0 <? _).
Qed.

(** ** Certificates *)

(** A confirm that certifies the processing proposal of [d]. *)
Record certificate (d : Dispatcher) (c : Confirm) : Prop := {
  cert_proposal : processingProposal d = Some (Proposal c);
  cert_votes : Forall (valid_accept (proposal_Hash (Proposal c))) (Votes c);
  cert_signers : (Signer <$> Votes c) ⊆ members d;
  cert_distinct : NoDup (Signer <$> Votes c);
  cert_majority : IsMajorityAgree (zlen (Votes c)) (consensusView d) = true
}.

Lemma elem_of_range_values (m : gmap Z DPOSProposalVote) v :
  v ∈ (range_map m).*2 <-> exists k, m !! k = Some v.
Proof.
  rewrite list_elem_of_fmap. split.
  - intros ([k w] & -> & Hin). exists k. by apply elem_of_range_map.
  - intros [k Hk]. exists (k, v). split; [done|]. by apply elem_of_range_map.
Qed.

(** Genuine votes, listed in any order, have distinct signers: a second vote
    of a signer would have the key of the first. *)
Lemma genuine_signers_distinct d (m : gmap Z DPOSProposalVote) :
  vote_hash_unsigned -> (forall k v, m !! k = Some v -> genuine d true k v) ->
  NoDup (Signer <$> (range_map m).*2).
Proof.
  intros Hu Hm.
  assert (Hkey : forall k v, (k, v) ∈ range_map m -> genuine d true k v).
  { intros k v Hin. apply Hm. by apply elem_of_range_map. }
  pose proof (NoDup_range_map_fst m) as Hnd. revert Hkey Hnd.
  generalize (range_map m) as l. induction l as [|[k v] l IH]; intros Hkey Hnd; cbn; [constructor|].
  apply NoDup_cons in Hnd as [Hk Hnd]. constructor; [|apply IH; [|done]; intros; apply Hkey; by right].
  intros (w & Hs & ([k' w'] & -> & Hin)%list_elem_of_fmap)%list_elem_of_fmap. cbn in Hs.
  destruct (Hkey k v ltac:(left)) as (-> & Ha & _ & _ & p & Hp & Hh).
  destruct (Hkey k' _ ltac:(by right)) as (-> & Ha' & _ & _ & p' & Hp' & Hh').
  rewrite Hp in Hp'. injection Hp' as <-. apply Hk. apply list_elem_of_fmap. eexists (_, _); split; [|exact Hin].
  cbn. apply Hu; congruence.
Qed.

Lemma map_choose (m : gmap Z DPOSProposalVote) (P : Z -> DPOSProposalVote -> Prop) :
  (forall k, is_Some (m !! k) -> exists w, P k w) ->
  exists m' : gmap Z DPOSProposalVote, dom m' = dom m /\ forall k w, m' !! k = Some w -> P k w.
Proof.
  induction m as [|k v m Hk IH] using map_ind; intros HP.
  - exists ∅. split; [done|]. intros k w. by rewrite lookup_empty.
  - destruct (HP k) as [w Hw]; [by rewrite lookup_insert_eq|]. destruct IH as (m' & Hd & Hm').
    { intros k' [v' Hv']. apply HP. rewrite lookup_insert_ne by congruence. by eexists. }
    exists (<[ k := w ]> m'). split; [by rewrite !dom_insert_L, Hd|].
    intros k' w'. rewrite lookup_insert. case_decide; [intros [= <-]; by subst|apply Hm'].
Qed.

(** The genuine votes behind the accept votes. *)
Lemma genuine_votes d :
  dispatcher_inv fresh d ->
  exists m : gmap Z DPOSProposalVote, size m = size (acceptVotes d) /\
    (forall k v, m !! k = Some v -> genuine d true k v) /\ (fresh = true -> m = acceptVotes d).
Proof.
  intros Hi. destruct fresh eqn:Hf.
  - exists (acceptVotes d). split_and!; [done| |done]. intros k v Hk.
    destruct (inv_accept _ _ Hi k v Hk) as (w & Hw & E). by rewrite E.
  - destruct (map_choose (acceptVotes d) (genuine d true)) as (m & Hd & Hm).
    { intros k [v Hv]. destruct (inv_accept _ _ Hi k v Hv) as (w & Hw & _). by exists w. }
    exists m. split_and!; [|done|done]. by rewrite <- !size_dom, Hd.
Qed.

(** A reached majority is backed by a certificate; the confirm the dispatcher
    builds has as many votes, and is that certificate if no vote was
    overwritten. *)
Lemma createConfirm_certificate d c :
  vote_hash_unsigned -> dispatcher_inv fresh d -> createConfirm d = Some c ->
  IsMajorityAgree (Z.of_nat (size (acceptVotes d))) (consensusView d) = true ->
  exists c', certificate d c' /\ Proposal c' = Proposal c /\ zlen (Votes c') = zlen (Votes c) /\
    (fresh = true -> c' = c).
Proof.
  intros Hu Hi Hc Hm. unfold createConfirm, GetProcessingProposal in Hc.
  destruct (processingProposal d) as [p|] eqn:Hp; [|done]. injection Hc as <-.
  destruct (genuine_votes d Hi) as (m & Hs & Hg & Hf).
  assert (Hin : forall v, v ∈ (range_map m).*2 -> exists k, genuine d true k v)
    by (intros v [k Hk]%elem_of_range_values; exists k; by apply Hg).
  assert (Hl : zlen (range_map m).*2 = Z.of_nat (size (acceptVotes d)))
    by (unfold zlen; by rewrite length_fmap, length_range_map, Hs).
  exists {| Proposal := p; Votes := (range_map m).*2 |}. cbn [Proposal Votes]. split_and!; [|done| |].
  - split; cbn [Proposal Votes]; try done.
    + apply Forall_forall. intros v (k & _ & Ha & Hcv & _ & q & Hq & Hh)%Hin.
      rewrite Hp in Hq. injection Hq as <-. done.
    + intros x (v & -> & (k & _ & _ & _ & Hpr & _)%Hin)%list_elem_of_fmap.
      by apply IsProducers_spec in Hpr.
    + by apply (genuine_signers_distinct d).
    + by rewrite Hl.
  - rewrite Hl. unfold zlen. by rewrite length_fmap, length_range_map.
  - intros E. by rewrite (Hf E).
Qed.

Lemma processVote_certificate v d e ok err d' e' :
  vote_hash_unsigned -> dispatcher_inv fresh d ->
  processVote v (d, e) = ((ok, true, err), (d', e')) ->
  consensusView d' = consensusView d /\ processingProposal d' = processingProposal d /\
  exists c c', createConfirm d' = Some c /\ (e', err) = onConfirm cb d' c e /\
    certificate d' c' /\ Proposal c' = Proposal c /\ zlen (Votes c') = zlen (Votes c) /\ (fresh = true -> c' = c).
Proof.
  intros Hu Hi E.
  pose proof (processVote_inv v (d, e) Hi) as Hi'. pose proof (processVote_frame v (d, e)) as Hf.
  pose proof (processVote_outcome v d e) as Ho. rewrite E in *. cbn [fst snd] in *.
  destruct Hf as (Hv & Hp & _). split_and!; [done..|].
  inversion Ho as [|p ? ? ? ? Hpr Hh Hx Hs Hck dd Hfin Hcb Hok]; subst.
  apply eq_sym, andb_true_iff in Hfin as [Ha Hm].
  exists {| Proposal := p; Votes := (range_map (acceptVotes dd)).*2 |}.
  assert (Hcr : createConfirm dd = Some {| Proposal := p; Votes := (range_map (acceptVotes dd)).*2 |})
    by (apply createConfirm_Some; unfold dd; by destruct (Accept v)).
  destruct (createConfirm_certificate dd _ Hu Hi' Hcr) as (c' & Hc'); [by rewrite Hv|].
  exists c'. split_and!; [done|by apply Hcb|apply Hc'..].
Qed.

(** Two certificates over one producer set name the same proposal, unless more
    than a third of the producers are faulty. *)
Lemma certificates_agree d1 d2 c1 c2 (honest : bytes -> Prop) `{!forall k, Decision (honest k)} :
  view_producers (consensusView d1) = view_producers (consensusView d2) ->
  zlen (members d1) <= totalProducers (view_producers (consensusView d1)) < 2 ^ 51 ->
  3 * zlen (filter (fun k => ~ honest k) (members d1)) <= totalProducers (view_producers (consensusView d1)) ->
  certificate d1 c1 -> certificate d2 c2 ->
  (forall v w, v ∈ Votes c1 -> w ∈ Votes c2 -> Signer v = Signer w -> honest (Signer v) ->
     ProposalHash v = ProposalHash w) ->
  proposal_Hash (Proposal c1) = proposal_Hash (Proposal c2).
Proof.
  intros Hvp Ht Hf C1 C2 Hon.
  set (A := Signer <$> Votes c1). set (B := Signer <$> Votes c2).
  assert (HA : A ⊆ members d1) by apply C1.
  assert (HB : B ⊆ members d1) by (unfold members; rewrite Hvp; apply C2).
  assert (Hmaj : totalProducers (view_producers (consensusView d1)) < 3 * zlen (list_intersection A B)).
  { pose proof (cert_majority _ _ C1) as M1. pose proof (cert_majority _ _ C2) as M2.
    pose proof (NoDup_intersection_length A B (members d1) (cert_distinct _ _ C1) (cert_distinct _ _ C2) HA HB).
    unfold IsMajorityAgree, Producers.IsMajorityAgree in M1, M2. rewrite <- Hvp in M2. bools.
    rewrite GetMajorityCount_exact in * by (pose proof (zlen_nonneg (members d1)); lia).
    unfold A, B in *. rewrite !length_fmap in *. unfold zlen in *. div_lia. }
  destruct (decide (Exists honest (list_intersection A B))) as [He|Hne].
  - apply Exists_exists in He as (k & [HkA HkB]%list_elem_of_intersection & Hk).
    apply list_elem_of_fmap in HkA as (v & -> & Hv). apply list_elem_of_fmap in HkB as (w & Hvw & Hw).
    pose proof (Hon v w Hv Hw Hvw Hk) as Hh.
    pose proof (cert_votes _ _ C1) as V1. pose proof (cert_votes _ _ C2) as V2.
    rewrite Forall_forall in V1, V2. destruct (V1 v Hv) as (_ & <- & _), (V2 w Hw) as (_ & <- & _). done.
  - exfalso. apply Forall_Exists_neg in Hne. rewrite Forall_forall in Hne.
    assert (length (list_intersection A B) <= length (filter (fun k => ~ honest k) (members d1)))%nat.
    { apply NoDup_subset_length; [by apply NoDup_list_intersection, C1|].
      intros k Hk. apply list_elem_of_filter. split; [by apply Hne|].
      apply HA. by apply list_elem_of_intersection in Hk as [? _]. }
    unfold zlen in *. lia.
Qed.

(** ** Pending votes *)

(** A vote that adds to the acceptance of [p]. *)
Definition eligible (v : ConsensusView) (p : DPOSProposal) (w : DPOSProposalVote) : bool :=
  Accept w && (ProposalHash w =? proposal_Hash p) && IsProducers (Signer w) v && negb (failed (CheckVote w)).

Lemma processVote_fresh p w d e :
  processingProposal d = Some p -> ProposalHash w = proposal_Hash p -> alreadyExistVote w d = false ->
  let d' := fst (snd (processVote w (d, e))) in
  (eligible (consensusView d) p w = true /\
   acceptVotes d' = <[ vote_Hash w := w ]> (acceptVotes d) /\ rejectedVotes d' = rejectedVotes d /\
   snd (fst (fst (processVote w (d, e)))) =
     IsMajorityAgree (Z.of_nat (size (acceptVotes d'))) (consensusView d)) \/
  (eligible (consensusView d) p w = false /\ acceptVotes d' = acceptVotes d /\
   (rejectedVotes d' = rejectedVotes d \/ rejectedVotes d' = <[ vote_Hash w := w ]> (rejectedVotes d)) /\
   snd (fst (fst (processVote w (d, e)))) = false).
Proof.
  intros Hp Hh Hx. unfold eligible. rewrite Hh, Z.eqb_refl, andb_true_r.
  unfold processVote, GetProcessingProposal. rewrite Hp, Hh, Z.eqb_refl, Hx. cbn [negb].
  destruct (IsProducers (Signer w) (consensusView d)) eqn:Hs; cbn [negb];
    [|right; by rewrite andb_false_r; auto].
  destruct (CheckVote w); cbn [failed negb]; [right; by rewrite andb_false_r; auto|].
  destruct (Accept w); cbn [andb].
  - left. set (d1 := d <| acceptVotes := _ |>). destruct (IsMajorityAgree _ _) eqn:Hm; [|done].
    rewrite (createConfirm_Some d1 p Hp). by destruct (onConfirm _ _ _ _).
  - right. set (d1 := d <| rejectedVotes := _ |>). destruct (IsMajorityRejected _ _); [|by auto].
    rewrite (createUnConfirm_Some d1 p Hp). destruct (unConfirm _ _ _ _). by auto.
Qed.

(** Going through fresh votes with different hashes finishes exactly when
    the eligible ones complete a majority. *)
Lemma process_pending_finished p votes d e :
  processingProposal d = Some p -> NoDup (vote_Hash <$> votes) ->
  (forall w, w ∈ votes -> alreadyExistVote w d = false) ->
  IsMajorityAgree (Z.of_nat (size (acceptVotes d))) (consensusView d) = false ->
  fst (process_pending p votes (d, e)) =
  IsMajorityAgree (Z.of_nat (size (acceptVotes d)) +
    zlen (filter (fun w => eligible (consensusView d) p w = true) votes)) (consensusView d).
Proof.
  revert d e. induction votes as [|w votes IH]; intros d e Hp Hnd Hfresh Hm.
  { cbn. by rewrite Z.add_0_r. }
  apply NoDup_cons in Hnd as [Hw Hnd]. cbn [process_pending].
  pose proof (Hfresh w ltac:(left)) as Hxw.
  destruct (Z.eqb_spec (ProposalHash w) (proposal_Hash p)) as [Hh|Hh]; last first.
  { rewrite IH by (done || (intros; apply Hfresh; by right)).
    rewrite filter_cons_False; [done|]. unfold eligible.
    destruct (Z.eqb_spec (ProposalHash w) (proposal_Hash p)); [done|]. by rewrite andb_false_r. }
  pose proof (processVote_fresh p w d e Hp Hh Hxw) as Hv.
  pose proof (processVote_frame w (d, e)) as (Hcv & Hpp & _). 
  destruct (processVote w (d, e)) as [[[ok fin] err] [d' e']]. cbn in Hv, Hcv, Hpp.
  assert (HA : acceptVotes d !! vote_Hash w = None)
    by (unfold alreadyExistVote in Hxw; by destruct (acceptVotes d !! vote_Hash w)).
  assert (Hother : forall u, u ∈ votes -> vote_Hash u <> vote_Hash w).
  { intros u Hu E. apply Hw. rewrite <- E. by apply list_elem_of_fmap_2. }
  destruct Hv as [(He & Ea & Er & ->)|(He & Ea & Er & ->)].
  - rewrite filter_cons_True by done. rewrite zlen_cons, Ea, map_size_insert_None by done.
    replace (Z.of_nat (S _)) with (Z.of_nat (size (acceptVotes d)) + 1) by lia.
    destruct (IsMajorityAgree (_ + 1) _) eqn:Hm1.
    + cbn [fst]. symmetry. unfold IsMajorityAgree, Producers.IsMajorityAgree in *. bools.
      apply Z.ltb_lt. pose proof (zlen_nonneg (filter (fun w => eligible (consensusView d) p w = true) votes)). lia.
    + rewrite IH; [|congruence|done|..].
      * rewrite Hcv, Ea, map_size_insert_None by done. f_equal. lia.
      * intros u Hu. pose proof (Hfresh u ltac:(by right)) as Hxu. unfold alreadyExistVote in *.
        rewrite Ea, Er, lookup_insert_ne; [done|]. intros E. by apply (Hother u).
      * rewrite Hcv, Ea, map_size_insert_None by done. rewrite <- Hm1. f_equal. lia.
  - rewrite filter_cons_False by congruence. rewrite IH; [by rewrite Hcv, Ea|congruence|done| |congruence].
    intros u Hu. pose proof (Hfresh u ltac:(by right)) as Hxu. unfold alreadyExistVote in *.
    rewrite Ea. destruct Er as [Er|Er]; rewrite Er; [done|].
    rewrite lookup_insert_ne; [done|]. intros E. by apply (Hother u).
Qed.

(** ** Votes that arrive one by one *)

(** Collision resistance: a hash is that of one proposal, signer and answer. *)
Definition vote_hash_binds : Prop :=
  forall v w, vote_Hash v = vote_Hash w -> ProposalHash v = ProposalHash w /\ Signer v = Signer w /\ Accept v = Accept w.

(** The votes that the network delivers, until one finishes the proposal. *)
Fixpoint receive (votes : list DPOSProposalVote) (s : Dispatcher * Env) : bool * (Dispatcher * Env) :=
  match votes with
  | [] => (false, s)
  | v :: votes => let '((_, finished, _), s) := ProcessVote v s in if finished then (true, s) else receive votes s
  end.

(** Unless the proposal is finished, a vote leaves what was counted, and an eligible
    one is counted; the votes counted are no majority. *)
Lemma processVote_counts p w d e :
  vote_hash_binds -> dispatcher_inv fresh d -> processingProposal d = Some p ->
  let '((_, finished, _), (d', _)) := processVote w (d, e) in
  finished = false ->
  (forall k, is_Some (acceptVotes d !! k) -> is_Some (acceptVotes d' !! k)) /\
  (eligible (consensusView d) p w = true -> is_Some (acceptVotes d' !! vote_Hash w)) /\
  (IsMajorityAgree (Z.of_nat (size (acceptVotes d))) (consensusView d) = false -> IsMajorityAgree (Z.of_nat (size (acceptVotes d'))) (consensusView d) = false).
Proof.
  intros Hb Hi Hp. destruct (bool_decide (ProposalHash w = proposal_Hash p) && negb (alreadyExistVote w d)) eqn:E.
  - apply andb_true_iff in E as [Eh Ex]. apply bool_decide_eq_true in Eh. apply negb_true_iff in Ex.
    pose proof (processVote_fresh p w d e Hp Eh Ex) as Hv. destruct (processVote w (d, e)) as [[[ok fin] err] [d' e']]. cbn in Hv. intros ->.
    destruct Hv as [(He & Ea & _ & Hm)|(He & Ea & _ & _)]; rewrite Ea.
    + split; [intros k Hk; destruct (decide (k = vote_Hash w)) as [->|]; [by rewrite lookup_insert_eq|by rewrite lookup_insert_ne]|].
      split; [by rewrite lookup_insert_eq|]. by rewrite <- Ea.
    + by rewrite He.
  - assert (eligible (consensusView d) p w = true -> is_Some (acceptVotes d !! vote_Hash w)) as Hel.
    { unfold eligible. rewrite !andb_true_iff. intros [[[Ha Hh] _] _]. apply Z.eqb_eq in Hh. rewrite bool_decide_eq_true_2 in E by done. cbn in E. apply negb_false_iff in E.
      unfold alreadyExistVote in E. destruct (acceptVotes d !! vote_Hash w); [done|]. destruct (rejectedVotes d !! vote_Hash w) as [v|] eqn:Hr; [|done].
      destruct (inv_reject _ _ Hi _ _ Hr) as (u & (Hk & Hu & _) & _). destruct (Hb w u Hk) as (_ & _ & Hau). congruence. }
    unfold processVote, GetProcessingProposal. rewrite Hp.
    apply andb_false_iff in E as [E|E]; [apply bool_decide_eq_false in E; destruct (Z.eqb_spec (ProposalHash w) (proposal_Hash p)); [done|]; by cbn [negb]|].
    apply negb_false_iff in E. destruct (negb (_ =? _)); [done|]. by rewrite E.
Qed.

Lemma receive_counts p votes d e :
  vote_hash_binds -> dispatcher_inv fresh d -> processingProposal d = Some p ->
  IsMajorityAgree (Z.of_nat (size (acceptVotes d))) (consensusView d) = false ->
  let '(finished, (d', _)) := receive votes (d, e) in
  finished = false ->
  (forall k, is_Some (acceptVotes d !! k) -> is_Some (acceptVotes d' !! k)) /\
  (forall w, w ∈ votes -> eligible (consensusView d) p w = true -> is_Some (acceptVotes d' !! vote_Hash w)) /\
  IsMajorityAgree (Z.of_nat (size (acceptVotes d'))) (consensusView d) = false.
Proof.
  intros Hb. revert d e. induction votes as [|v votes IH]; intros d e Hi Hp Hm; cbn [receive].
  { intros _. split; [done|]. split; [|done]. by intros w Hw%elem_of_nil. }
  unfold ProcessVote. pose proof (processVote_counts p v d e Hb Hi Hp) as Hv. pose proof (processVote_inv v (d, e) Hi) as Hi'.
  pose proof (processVote_frame v (d, e)) as (Hcv & Hpp & _). destruct (processVote v (d, e)) as [[[ok fin] err] [d1 e1]]. cbn in Hi', Hcv, Hpp.
  destruct fin; [done|]. specialize (Hv eq_refl) as (Hk1 & He1 & Hm1). specialize (IH d1 e1 Hi' ltac:(congruence)). rewrite Hcv in IH. specialize (IH (Hm1 Hm)).
  destruct (receive votes (d1, e1)) as [fin [d' e']]. intros Hf. destruct (IH Hf) as (Hk & He & Hm'). split; [auto|]. split; [|done].
  intros w [->|Hw]%elem_of_cons Hel; [by apply Hk, He1|by apply He].
Qed.

Lemma range_values_filter_length (m : gmap Z DPOSProposalVote) (f : DPOSProposalVote -> bool) :
  zlen (filter (fun w => f w = true) (range_map m).*2) =
  Z.of_nat (size (filter (fun kv => f (snd kv) = true) m)).
Proof.
  unfold zlen. f_equal. rewrite <- length_map_to_list, map_filter_alt.
  pose proof (NoDup_fst_map_to_list m) as Hnd. unfold range_map. rewrite (range_order_perm (map_to_list m)).
  rewrite map_to_list_to_map.
  - clear Hnd. induction (map_to_list m) as [|[k v] l IH]; [done|]. rewrite fmap_cons, !filter_cons. cbn.
    destruct (decide (f v = true)); cbn; by rewrite IH.
  - induction (map_to_list m) as [|[k v] l IH]; [done|]. rewrite filter_cons. cbn in *.
    apply NoDup_cons in Hnd as [Hk Hnd]. case_decide; cbn; [|by apply IH].
    constructor; [|by apply IH]. intros ([k' v'] & -> & [_ ?]%list_elem_of_filter)%list_elem_of_fmap.
    apply Hk. by apply list_elem_of_fmap_2.
Qed.

End invariants.

(** ** Properties *)

(** C10: enough votes decide.  While a proposal is being processed and is not yet
    decided, let votes arrive in any order, among them invalid ones, votes of
    strangers, repeated ones and votes against the proposal.  If they contain valid
    votes for it of more producers than the majority count, then one of them
    finishes the proposal: nothing that others send can keep the quorum from being
    counted. *)
Theorem quorum_of_votes_finishes fresh p d e votes signers :
  vote_hash_binds -> dispatcher_inv fresh d -> processingProposal d = Some p ->
  IsMajorityAgree (Z.of_nat (size (acceptVotes d))) (consensusView d) = false ->
  NoDup signers -> IsMajorityAgree (zlen signers) (consensusView d) = true ->
  (forall k, k ∈ signers -> exists v, v ∈ votes /\ Signer v = k /\ eligible (consensusView d) p v = true) ->
  fst (receive votes (d, e)) = true.
Proof.
  intros Hb Hi Hp Hm Hnd Hq Hs. pose proof (receive_counts p votes d e Hb Hi Hp Hm) as Hr. destruct (receive votes (d, e)) as [[] [d' e']]; [done|]. exfalso.
  destruct (Hr eq_refl) as (_ & Hc & Hm'). enough (zlen signers <= Z.of_nat (size (acceptVotes d'))) as Hle.
  { unfold IsMajorityAgree, Producers.IsMajorityAgree in *. bools. lia. }
  assert (exists vs, Signer <$> vs = signers /\ Forall (fun v => is_Some (acceptVotes d' !! vote_Hash v)) vs) as (vs & <- & Hvs).
  { clear -Hs Hc. induction signers as [|k l IH]; [by exists []|]. destruct IH as (vs & Hl & Hv); [intros x Hx; apply Hs; by right|].
    destruct (Hs k ltac:(by left)) as (v & Hin & Hk & He). exists (v :: vs). cbn. rewrite Hk, Hl. split; [done|]. constructor; [by apply Hc|done]. }
  assert (NoDup (vote_Hash <$> vs)) as Hh.
  { apply NoDup_fmap_2_strong; [|by eapply NoDup_fmap_1]. intros v w Hv Hw E. apply Hb in E as (_ & E & _).
    apply list_elem_of_lookup in Hv as [i Hv], Hw as [j Hw]. assert (i = j) as <-; [|congruence].
    eapply NoDup_lookup; [exact Hnd|..]; rewrite list_lookup_fmap; [rewrite Hv|rewrite Hw]; cbn; by rewrite ?E. }
  unfold zlen. rewrite length_fmap, <- (length_fmap vote_Hash vs). rewrite <- (size_list_to_set (C := gset Z) _ Hh), <- size_dom. apply inj_le.
  apply subseteq_size. intros k Hk%elem_of_list_to_set. apply list_elem_of_fmap in Hk as (v & -> & Hv). rewrite Forall_forall in Hvs. by apply elem_of_dom, Hvs.
Qed.

(** C6: pending votes count whatever the order of the map.  Taking up a
    proposal when none is being processed finishes it exactly when the pending
    votes contain more eligible accept votes (of producers, validly signed, on
    this proposal) than the majority count: the unspecified iteration order of
    the vote map does not matter. *)
Theorem pending_votes_order_independent fresh p d e :
  dispatcher_inv fresh d -> processingProposal d = None ->
  0 <= totalProducers (view_producers (consensusView d)) < 2 ^ 51 ->
  fst (setProcessingProposal p (d, e)) =
  IsMajorityAgree (Z.of_nat (size (filter (fun kv => eligible (consensusView d) p (snd kv) = true)
    (pendingVotes d)))) (consensusView d).
Proof.
  intros Hi Hn Ht. destruct (inv_no_votes d Hi Hn) as [HA HR].
  set (d1 := d <| processingProposal := Some p |>).
  assert (Hx : fst (setProcessingProposal p (d, e)) = fst (process_pending p (range_map (pendingVotes d)).*2 (d1, e))).
  { unfold setProcessingProposal, d1. cbn. by destruct (process_pending _ _ _) as [[] [? ?]]. }
  rewrite Hx, process_pending_finished; [|done|..].
  - unfold d1. cbn -[IsMajorityAgree size filter]. rewrite HA, map_size_empty, Z.add_0_l.
    by rewrite range_values_filter_length.
  - assert (Hkey : forall k v, (k, v) ∈ range_map (pendingVotes d) -> k = vote_Hash v)
      by (intros k v Hin; apply (inv_pending _ _ Hi); by apply elem_of_range_map).
    assert (Hf : vote_Hash <$> (range_map (pendingVotes d)).*2 = (range_map (pendingVotes d)).*1); [|rewrite Hf; apply NoDup_range_map_fst].
    rewrite <- list_fmap_compose. apply list_fmap_ext. intros i [k v] Hl. cbn. symmetry. apply Hkey.
    by apply list_elem_of_lookup_2 in Hl.
  - intros w _. unfold alreadyExistVote, d1. cbn. by rewrite HA, HR, !lookup_empty.
  - unfold d1. cbn -[IsMajorityAgree size]. rewrite HA, map_size_empty.
    unfold IsMajorityAgree, Producers.IsMajorityAgree. rewrite GetMajorityCount_exact by done.
    apply Z.ltb_ge. div_lia.
Qed.
End dispatcher.

(** ** Lawful listeners

    A listener that makes no call, or only calls of [dstep], which are served by a
    listener of the same kind.  The engine's is one ([Pbft.callbacks_well_behaved]). *)
Inductive well_behaved `{!ElaLib} `{!RangeOrder} {Env : Type} : Callbacks Env -> Prop :=
| listener_silent cb : (forall a f s, fst (OnViewChanged cb a f s) = fst s) -> well_behaved cb
| listener_calls cb sub :
    well_behaved sub -> (forall a f s, rtc (dstep sub) s (OnViewChanged cb a f s)) -> well_behaved cb.

Section lawful.
Context `{!ElaLib} `{!RangeOrder} {Env : Type}.

Lemma dsteps_keep (cb : Callbacks Env) `{!CallbackLaws cb} fresh s s' :
  rtc (dstep cb) s s' -> dispatcher_inv fresh (fst s) ->
  dispatcher_inv fresh (fst s') /\ finishedHeight (fst s) <= finishedHeight (fst s').
Proof.
  induction 1 as [|s1 s2 s3 Hs1 _ IH]; intros Hi; [done|].
  destruct IH as [Hi' Hf]; [by eapply dstep_inv|]. split; [done|]. etrans; [by eapply dstep_finished|done].
Qed.

Lemma well_behaved_laws (cb : Callbacks Env) : well_behaved cb -> CallbackLaws cb.
Proof.
  induction 1 as [cb Hs|cb sub _ IH Hc].
  - split; intros fresh a f s Hi; by rewrite Hs.
  - split; intros fresh a f s Hi; by apply (dsteps_keep sub fresh _ _ (Hc a f s)).
Qed.

(** C4: the invariant of the vote collection.  Take any sequence of calls into a new
    dispatcher, with votes the caller leaves alone afterwards, in which a proposal is
    taken up or rejected only when no other is being processed, and the producers
    change only when none is; the view listener makes no other calls either.  Then
    the accepted and rejected
    votes are votes of current producers on the processing proposal, validly
    signed, on their side and keyed by their hash; the pending votes and the
    precocious proposals are keyed by their hash; and from then on the finished
    height never decreases. *)
Theorem dispatcher_reachable_inv (cb : Callbacks Env) ps tol pk l start e0 s s' :
  well_behaved cb -> rtc (dstep cb) (NewDispatcher ps tol pk l start, e0) s -> rtc (dstep cb) s s' ->
  dispatcher_inv true (fst s) /\ finishedHeight (fst s) <= finishedHeight (fst s').
Proof.
  intros Hw%well_behaved_laws Hs Hs'. assert (dispatcher_inv true (fst s)) by (by eapply reachable_inv).
  split; [done|]. by eapply dsteps_keep.
Qed.

(** C3: a finished proposal is certified.  Take a state reached by calls into a new
    dispatcher in which a proposal is taken up or rejected only when no other is being
    processed, and the producers change only when none is; the view listener makes no
    other calls either.  Whenever [ProcessVote] reports a
    vote as finishing there, the environment's [onConfirm] is
    called with a confirm of the processing proposal whose votes are validly
    signed accept votes on it, by pairwise different current producers, more
    of them than the majority count; if the proposal is validly signed, the
    confirm passes [CheckConfirm] even when one vote more than the majority
    count is required. *)
Theorem finished_vote_certified (cb : Callbacks Env) ps tol pk l start e0 v d e ok err d' e' :
  vote_hash_unsigned -> well_behaved cb -> rtc (dstep cb) (NewDispatcher ps tol pk l start, e0) (d, e) ->
  ProcessVote cb v (d, e) = ((ok, true, err), (d', e')) ->
  exists c, (e', err) = onConfirm cb d' c e /\ certificate d' c /\
    processingProposal d = Some (Proposal c) /\
    (CheckProposal (Proposal c) = nil_err ->
     CheckConfirm c (GetMajorityCount (consensusView d) + 1) = nil_err).
Proof.
  intros Hu Hw%well_behaved_laws Hr E.
  assert (Hi : dispatcher_inv true d).
  { by apply (reachable_inv cb _ _ _ _ _ _ _ Hr). }
  destruct (processVote_certificate cb v d e ok err d' e' Hu Hi E) as (Hv & Hp & c & c' & Hc & Hcb & Hcert & _ & _ & Ec).
  rewrite (Ec eq_refl) in Hcert. exists c. split_and!; [done..| |].
  - rewrite <- Hp. apply Hcert.
  - intros Hcp. unfold CheckConfirm. rewrite Hcp. pose proof (cert_majority _ _ Hcert) as Hm.
    rewrite Hv in Hm. unfold IsMajorityAgree, Producers.IsMajorityAgree, GetMajorityCount in *. bools.
    destruct (Z.ltb_spec (zlen (Votes c)) (Producers.GetMajorityCount (view_producers (consensusView d)) + 1)); [lia|].
    apply check_votes_spec, Hcert.
Qed.

End lawful.

(** C2: agreement.  Take two dispatchers, each in a state reached from its start, in its
    own environment, by calls in which a proposal is taken up or rejected only when no
    other is being processed, and the producers change only when none is; the view
    listeners make no other calls either.  If they run over the same producer set and
    both finish a proposal, they have finished the same proposal, provided that at most a third of the
    producers are faulty and that a producer that is not faulty has not put
    accept votes for two different proposals into the two confirms. *)
Theorem dispatchers_agree `{!ElaLib} {Env1 Env2 : Type} (o1 o2 : RangeOrder)
    (cb1 : Callbacks Env1) (cb2 : Callbacks Env2)
    (honest : bytes -> Prop) `{!forall k, Decision (honest k)}
    ps1 tol1 pk1 l1 start1 e01 v1 d1 e1 ok1 err1 d1' e1' c1
    ps2 tol2 pk2 l2 start2 e02 v2 d2 e2 ok2 err2 d2' e2' c2 :
  vote_hash_unsigned -> @well_behaved _ o1 _ cb1 -> @well_behaved _ o2 _ cb2 ->
  rtc (@dstep _ o1 _ cb1) (NewDispatcher ps1 tol1 pk1 l1 start1, e01) (d1, e1) ->
  rtc (@dstep _ o2 _ cb2) (NewDispatcher ps2 tol2 pk2 l2 start2, e02) (d2, e2) ->
  @ProcessVote _ o1 _ cb1 v1 (d1, e1) = ((ok1, true, err1), (d1', e1')) ->
  @ProcessVote _ o2 _ cb2 v2 (d2, e2) = ((ok2, true, err2), (d2', e2')) ->
  @createConfirm o1 d1' = Some c1 -> @createConfirm o2 d2' = Some c2 ->
  view_producers (consensusView d1) = view_producers (consensusView d2) ->
  zlen (members d1) <= totalProducers (view_producers (consensusView d1)) < 2 ^ 51 ->
  3 * zlen (filter (fun k => ~ honest k) (members d1)) <= totalProducers (view_producers (consensusView d1)) ->
  (forall v w, v ∈ Votes c1 -> w ∈ Votes c2 -> Signer v = Signer w -> honest (Signer v) ->
     ProposalHash v = ProposalHash w) ->
  exists p1 p2, processingProposal d1 = Some p1 /\ processingProposal d2 = Some p2 /\
    proposal_Hash p1 = proposal_Hash p2.
Proof.
  intros Hu L1%well_behaved_laws L2%well_behaved_laws R1 R2 E1 E2 C1 C2 Hvp Ht Hf Hon.
  assert (I1 : dispatcher_inv true d1).
  { by apply (reachable_inv _ _ _ _ _ _ _ _ R1). }
  assert (I2 : dispatcher_inv true d2).
  { by apply (reachable_inv _ _ _ _ _ _ _ _ R2). }
  destruct (processVote_certificate cb1 _ _ _ _ _ _ _ Hu I1 E1) as (V1 & P1 & c1' & x1 & C1' & _ & Z1 & _ & _ & X1).
  destruct (processVote_certificate cb2 _ _ _ _ _ _ _ Hu I2 E2) as (V2 & P2 & c2' & x2 & C2' & _ & Z2 & _ & _ & X2).
  rewrite (X1 eq_refl) in Z1. rewrite (X2 eq_refl) in Z2. clear x1 x2 X1 X2.
  rewrite C1 in C1'. injection C1' as <-. rewrite C2 in C2'. injection C2' as <-.
  exists (Proposal c1), (Proposal c2). split_and!.
  - rewrite <- P1. apply Z1.
  - rewrite <- P2. apply Z2.
  - apply (certificates_agree d1' d2' c1 c2 honest); unfold members in *; rewrite ?V1, ?V2; done.
Qed.

(** ** Witnesses *)

(** A minimal environment: it records the confirms and leaves the dispatcher
    alone when the view changes. *)
Module ToyEnv.
#[local] Existing Instances Toy.lib list_range_order.

Definition callbacks : Callbacks (list Confirm) := {|
  onConfirm := fun _ c e => (c :: e, nil_err);
  unConfirm := fun _ _ e => (e, nil_err);
  OnViewChanged := fun _ _ s => s
|}.

Lemma callback_laws : well_behaved callbacks.
Proof. by apply listener_silent. Qed.

Definition proposal : DPOSProposal := example_proposal [1] 77 0.
Definition initial : Dispatcher := NewDispatcher [[1]; [2]; [3]; [4]] (10 * Second) [2] true 1.
Definition started : Dispatcher * list Confirm := snd (ProcessProposal callbacks [2] proposal (initial, [])).
Definition voted (k : bytes) (s : Dispatcher * list Confirm) : Dispatcher * list Confirm :=
  snd (ProcessVote callbacks (example_vote proposal true k) s).
Definition two_votes (a b : bytes) : Dispatcher * list Confirm := voted b (voted a started).

Lemma reach_started : rtc (dstep callbacks) (initial, []) started.
Proof. eapply rtc_once. by apply step_proposal. Qed.

Lemma reach_two_votes a b : rtc (dstep callbacks) (initial, []) (two_votes a b).
Proof.
  eapply rtc_r; [eapply rtc_r; [apply reach_started|]|]; apply step_vote.
Qed.
End ToyEnv.

#[local] Existing Instances Toy.lib list_range_order.

Lemma dispatcher_reachable_inv_witness :
  dispatcher_inv true (fst ToyEnv.started) /\
  finishedHeight (fst ToyEnv.started) <= finishedHeight (fst (FinishedProposal ToyEnv.callbacks 9 5 1000 0 ToyEnv.started)).
Proof.
  apply (dispatcher_reachable_inv ToyEnv.callbacks
    [[1]; [2]; [3]; [4]] (10 * Second) [2] true 1 [] _ _ ToyEnv.callback_laws ToyEnv.reach_started).
  apply rtc_once, step_finished.
Defined.

Lemma finished_vote_certified_witness :
  exists c, processingProposal (fst (ToyEnv.two_votes [1] [2])) = Some (Proposal c) /\
    CheckConfirm c 3 = nil_err.
Proof.
  destruct (finished_vote_certified ToyEnv.callbacks
    [[1]; [2]; [3]; [4]] (10 * Second) [2] true 1 [] (example_vote ToyEnv.proposal true [3])
    (fst (ToyEnv.two_votes [1] [2])) (snd (ToyEnv.two_votes [1] [2])) true nil_err
    (fst (ToyEnv.voted [3] (ToyEnv.two_votes [1] [2])))
    (snd (ToyEnv.voted [3] (ToyEnv.two_votes [1] [2])))) as (c & _ & _ & Hp & Hc).
  - apply Toy.vote_hash_unsigned_ok.
  - exact ToyEnv.callback_laws.
  - exact (ToyEnv.reach_two_votes [1] [2]).
  - vm_compute. reflexivity.
  - exists c. split; [exact Hp|]. apply Hc. revert Hp. vm_compute. by intros [= <-].
Defined.

(** A refused vote, a vote against and a repeated one among the three that count. *)
Lemma quorum_of_votes_finishes_witness :
  fst (receive ToyEnv.callbacks
    [example_vote ToyEnv.proposal true [9]; example_vote ToyEnv.proposal true [1]; example_vote ToyEnv.proposal false [4]; example_vote ToyEnv.proposal true [1];
     example_vote ToyEnv.proposal true [2]; example_vote ToyEnv.proposal true [3]] ToyEnv.started) = true.
Proof.
  apply (quorum_of_votes_finishes ToyEnv.callbacks true ToyEnv.proposal (fst ToyEnv.started) (snd ToyEnv.started) _ [[1]; [2]; [3]]).
  - intros v w [= E]. apply (inj encode) in E. injection E as E1 E2 E3. split; [exact E1|]. split; [exact E3|]. revert E2. by destruct (Accept v), (Accept w).
  - apply (dstep_inv ToyEnv.callbacks (H1 := well_behaved_laws _ ToyEnv.callback_laws) (ToyEnv.initial, []) ToyEnv.started); [by apply step_proposal|by apply blank_inv].
  - vm_compute. reflexivity.
  - vm_compute. reflexivity.
  - by apply (bool_decide_unpack _).
  - vm_compute. reflexivity.
  - intros k Hk. exists (example_vote ToyEnv.proposal true k). apply list_elem_of_In in Hk. cbn in Hk.
    destruct Hk as [<-|[<-|[<-|[]]]]; (split; [apply list_elem_of_In; cbn; tauto|]); (split; [reflexivity|vm_compute; reflexivity]).
Defined.

Lemma pending_votes_order_independent_witness :
  fst (setProcessingProposal ToyEnv.callbacks ToyEnv.proposal
    (AddPendingVote (example_vote ToyEnv.proposal true [3]) ToyEnv.initial, [])) = false.
Proof.
  rewrite (pending_votes_order_independent ToyEnv.callbacks true).
  - vm_compute. reflexivity.
  - apply (dstep_inv ToyEnv.callbacks (H1 := well_behaved_laws _ ToyEnv.callback_laws) (ToyEnv.initial, []) (_, []));
      [apply step_pending|by apply blank_inv].
  - vm_compute. reflexivity.
  - vm_compute. split; done.
Defined.

Lemma dispatchers_agree_witness :
  exists p1 p2, processingProposal (fst (ToyEnv.two_votes [1] [2])) = Some p1 /\
    processingProposal (fst (ToyEnv.two_votes [2] [4])) = Some p2 /\ proposal_Hash p1 = proposal_Hash p2.
Proof.
  set (s1 := ToyEnv.voted [3] (ToyEnv.two_votes [1] [2])).
  set (s2 := ToyEnv.voted [3] (ToyEnv.two_votes [2] [4])).
  apply (dispatchers_agree list_range_order list_range_order ToyEnv.callbacks ToyEnv.callbacks
    (fun k => k <> [4])
    [[1]; [2]; [3]; [4]] (10 * Second) [2] true 1 [] (example_vote ToyEnv.proposal true [3])
    (fst (ToyEnv.two_votes [1] [2])) (snd (ToyEnv.two_votes [1] [2])) true nil_err (fst s1) (snd s1)
    (default {| Proposal := ToyEnv.proposal; Votes := [] |} (createConfirm (fst s1)))
    [[1]; [2]; [3]; [4]] (10 * Second) [2] true 1 [] (example_vote ToyEnv.proposal true [3])
    (fst (ToyEnv.two_votes [2] [4])) (snd (ToyEnv.two_votes [2] [4])) true nil_err (fst s2) (snd s2)
    (default {| Proposal := ToyEnv.proposal; Votes := [] |} (createConfirm (fst s2)))).
  - apply Toy.vote_hash_unsigned_ok.
  - exact ToyEnv.callback_laws.
  - exact ToyEnv.callback_laws.
  - exact (ToyEnv.reach_two_votes [1] [2]).
  - exact (ToyEnv.reach_two_votes [2] [4]).
  - vm_compute. reflexivity.
  - vm_compute. reflexivity.
  - vm_compute. reflexivity.
  - vm_compute. reflexivity.
  - vm_compute. reflexivity.
  - vm_compute. split; done.
  - vm_compute. done.
  - intros v w Hv Hw _ _. trans (proposal_Hash ToyEnv.proposal); [|symmetry].
    + revert v Hv. apply Forall_forall, (bool_decide_unpack _). by vm_compute.
    + revert w Hw. apply Forall_forall, (bool_decide_unpack _). by vm_compute.
Defined.

