(* ===== verification/BlockPool.v ===== *)
(** * [dpos/blockpool.go]: blocks waiting for their confirm

    The pool is shared by the miner, the network and the importer, and every
    method takes its mutex.  The mutex is part of the state: [Lock] on a locked
    pool never returns, which is the outcome [None] of the monad [Pool], so
    that "the method returns" is a statement one can prove or refute. *)
From S2P Require Import Prelude Ela.

Definition cachedCount : Z := 6.

(** The functions the pool is built with, and the methods of a [DBlock]. *)
Record PoolFns (DBlock : Type) := {
  GetHeight : DBlock -> Z;
  Nonce : DBlock -> Z;
  VerifyConfirm : Confirm -> Z -> error;
  VerifyBlock : DBlock -> error;
  SealHash : DBlock -> Z * error
}.
Arguments GetHeight {DBlock} _ _.
Arguments Nonce {DBlock} _ _.
Arguments VerifyConfirm {DBlock} _ _ _.
Arguments VerifyBlock {DBlock} _ _.
Arguments SealHash {DBlock} _ _.

Record BlockPool (DBlock : Type) := {
  locked : bool;
  blocks : gmap Z DBlock;
  confirms : gmap Z Confirm;
  heightConfirms : gmap Z Confirm;
  badBlocks : gmap Z DBlock;
  futureBlocks : gmap Z DBlock
}.
Arguments locked {DBlock} _.
Arguments blocks {DBlock} _.
Arguments confirms {DBlock} _.
Arguments heightConfirms {DBlock} _.
Arguments badBlocks {DBlock} _.
Arguments futureBlocks {DBlock} _.

#[export] Instance BlockPool_eta DBlock : Eta (BlockPool DBlock) := fun b => {|
  locked := locked b;
  blocks := blocks b;
  confirms := confirms b;
  heightConfirms := heightConfirms b;
  badBlocks := badBlocks b;
  futureBlocks := futureBlocks b
|}.

Definition NewBlockPool (DBlock : Type) : BlockPool DBlock := {|
  locked := false; blocks := ∅; confirms := ∅; heightConfirms := ∅; badBlocks := ∅; futureBlocks := ∅
|}.

Section pool.
Context `{!RangeOrder} {DBlock : Type} (fns : PoolFns DBlock).

(** ** The monad *)
Definition Pool (A : Type) : Type := BlockPool DBlock -> option (A * BlockPool DBlock).

#[local] Instance Pool_ret : MRet Pool := fun A x s => Some (x, s).
#[local] Instance Pool_bind : MBind Pool := fun A B f m s =>
  match m s with Some (x, s') => f x s' | None => None end.

Definition get : Pool (BlockPool DBlock) := fun s => Some (s, s).
Definition modify (f : BlockPool DBlock -> BlockPool DBlock) : Pool () := fun s => Some ((), f s).

Definition Lock : Pool () := fun s => if locked s then None else Some ((), s <| locked := true |>).
Definition Unlock : Pool () := modify (fun s => s <| locked := false |>).

(** ** Queries *)
Definition GetBlock (hash : Z) : Pool (option DBlock) :=
  Lock;; s ← get; Unlock;; mret (blocks s !! hash).

Definition HasBlock (hash : Z) : Pool bool :=
  b ← GetBlock hash; mret (bool_decide (is_Some b)).

Definition GetConfirm (hash : Z) : Pool (option Confirm) :=
  Lock;; s ← get; Unlock;; mret (confirms s !! hash).

Definition GetConfirmByHeight (height : Z) : Pool (option Confirm) :=
  Lock;; s ← get; Unlock;; mret (heightConfirms s !! height).

Definition IsBadBlockProposal (proposal : DPOSProposal) : Pool bool :=
  Lock;; s ← get; Unlock;; mret (bool_decide (is_Some (badBlocks s !! BlockHash proposal))).

(** A seal-hash error ends the search. *)
Fixpoint search_future (hash : Z) (l : list DBlock) : bool :=
  match l with
  | [] => false
  | b :: l =>
      let '(sealHash, err) := SealHash fns b in
      if failed err then false else if sealHash =? hash then true else search_future hash l
  end.

Definition IsFutureBlock (hash : Z) : Pool bool :=
  Lock;; s ← get; Unlock;; mret (search_future hash (range_map (futureBlocks s)).*2).

Definition HashConfirmed (number : Z) : Pool bool :=
  Lock;; s ← get; Unlock;;
  match find (fun kv => GetHeight fns (snd kv) =? number) (range_map (blocks s)) with
  | Some (_, temp) =>
      let '(hash, _) := SealHash fns temp in
      c ← GetConfirm hash; mret (bool_decide (is_Some c))
  | None => mret false
  end.

(** ** Updates *)
Definition AddBadBlock (block : DBlock) : Pool error :=
  Lock;;
  let '(hash, err) := SealHash fns block in
  if failed err then Unlock;; mret err
  else
    s ← get;
    match badBlocks s !! hash with
    | Some _ => Unlock;; mret (New "duplicate badBlock in pool")
    | None => modify (fun s => s <| badBlocks := <[ hash := block ]> (badBlocks s) |>);; Unlock;; mret nil_err
    end.

Definition appendFutureBlock (block : DBlock) : Pool error :=
  let '(hash, err) := SealHash fns block in
  if failed err then mret err
  else
    s ← get;
    match futureBlocks s !! hash with
    | Some _ => mret (New "duplicate futureBlocks in pool")
    | None => modify (fun s => s <| futureBlocks := <[ hash := block ]> (futureBlocks s) |>);; mret nil_err
    end.

Definition AppendFutureBlock (block : DBlock) : Pool error :=
  Lock;; err ← appendFutureBlock block; Unlock;; mret err.

Definition appendBlock (block : DBlock) : Pool error :=
  let '(hash, err) := SealHash fns block in
  if failed err then mret err
  else
    has ← HasBlock hash;
    if (has : bool) then mret (New "duplicate block in pool")
    else match VerifyBlock fns block with
         | Some err => mret (New err)
         | None =>
             Lock;;
             modify (fun s => s <| blocks := <[ hash := block ]> (blocks s) |>
                                <| futureBlocks := delete hash (futureBlocks s) |>);;
             Unlock;; mret nil_err
         end.

Definition AppendDposBlock (block : DBlock) : Pool error := appendBlock block.

Definition HandleParentBlock (parent : DBlock) : Pool bool :=
  Lock;; s ← get; Unlock;;
  match find (fun kv => u64 (GetHeight fns (snd kv) - 1) =? GetHeight fns parent)
             (range_map (futureBlocks s)) with
  | Some (_, handledBlock) => AppendDposBlock handledBlock;; mret true
  | None => mret false
  end.

Definition confirmBlock (hash : Z) : Pool error :=
  Lock;; s ← get;
  match blocks s !! hash with
  | None => Unlock;; mret (New "there is no block in pool when confirming block")
  | Some block =>
      match confirms s !! hash with
      | None => Unlock;; mret (New "there is no block confirmation in pool when confirming block")
      | Some confirm =>
          modify (fun s => s <| heightConfirms := <[ GetHeight fns block := confirm ]> (heightConfirms s) |>);;
          Unlock;; mret nil_err
      end
  end.

Definition ConfirmBlock (hash : Z) : Pool error :=
  Lock;; err ← confirmBlock hash; Unlock;; mret err.

Definition appendConfirm (confirm : Confirm) : Pool error :=
  let hash := BlockHash (Proposal confirm) in
  dblock ← GetBlock hash;
  match dblock with
  | None => mret (New "appennd confirm error, not have DBlock")
  | Some dblock =>
      match VerifyConfirm fns confirm (Nonce fns dblock) with
      | Some err => mret (New err)
      | None =>
          Lock;; modify (fun s => s <| confirms := <[ hash := confirm ]> (confirms s) |>);; Unlock;;
          confirmBlock hash
      end
  end.

Definition AppendConfirm (confirm : Confirm) : Pool error :=
  Lock;; s ← get; Unlock;;
  match confirms s !! BlockHash (Proposal confirm) with
  | Some _ => mret (New "conformation is all ready in block pool")
  | None => appendConfirm confirm
  end.

(** The seal-hash error is dropped. *)
Definition AddToBlockMap (block : DBlock) : Pool () :=
  Lock;; modify (fun s => s <| blocks := <[ fst (SealHash fns block) := block ]> (blocks s) |>);; Unlock.

Definition AddToConfirmMap (confirm : Confirm) : Pool () :=
  Lock;; modify (fun s => s <| confirms := <[ BlockHash (Proposal confirm) := confirm ]> (confirms s) |>);; Unlock.

Definition RemoveConfirm (hash : Z) : Pool () :=
  Lock;; modify (fun s => s <| confirms := delete hash (confirms s) |>);; Unlock.

(** [height > cachedCount && h < height-cachedCount]. *)
Definition is_final (height h : Z) : bool := (cachedCount <? height) && (h <? height - cachedCount).

(** The loops delete from the map they range over; an entry deleted before it
    is reached is not visited. *)
Definition clean_block (height : Z) (s : BlockPool DBlock) (kv : Z * DBlock) : BlockPool DBlock :=
  match blocks s !! fst kv with
  | None => s
  | Some block =>
      let '(hash, _) := SealHash fns block in
      if is_final height (GetHeight fns block)
      then s <| blocks := delete hash (blocks s) |> <| confirms := delete hash (confirms s) |>
      else s
  end.

Definition clean_blocks (height : Z) (s : BlockPool DBlock) : BlockPool DBlock :=
  foldl (clean_block height) s (range_map (blocks s)).

Definition clean_badBlock (height : Z) (s : BlockPool DBlock) (kv : Z * DBlock) : BlockPool DBlock :=
  match badBlocks s !! fst kv with
  | None => s
  | Some block =>
      let '(hash, _) := SealHash fns block in
      if is_final height (GetHeight fns block) then s <| badBlocks := delete hash (badBlocks s) |> else s
  end.

Definition clean_badBlocks (height : Z) (s : BlockPool DBlock) : BlockPool DBlock :=
  foldl (clean_badBlock height) s (range_map (badBlocks s)).

Definition clean_heightConfirms (height : Z) (s : BlockPool DBlock) : BlockPool DBlock :=
  foldl (fun s kv =>
    if is_final height (fst kv) then s <| heightConfirms := delete (fst kv) (heightConfirms s) |> else s)
    s (range_map (heightConfirms s)).

Definition CleanFinalConfirmedBlock (height : Z) : Pool () :=
  Lock;; modify (clean_blocks height);; modify (clean_badBlocks height);;
  modify (clean_heightConfirms height);; Unlock.

(** ** The invariant *)
Record pool_inv (s : BlockPool DBlock) : Prop := {
  inv_blocks : forall h b, blocks s !! h = Some b -> fst (SealHash fns b) = h;
  inv_bad : forall h b, badBlocks s !! h = Some b -> SealHash fns b = (h, nil_err);
  inv_future : forall h b, futureBlocks s !! h = Some b -> SealHash fns b = (h, nil_err);
  inv_confirms : forall h c, confirms s !! h = Some c -> BlockHash (Proposal c) = h;
  inv_heights : forall n c, heightConfirms s !! n = Some c ->
    exists b, GetHeight fns b = n /\ fst (SealHash fns b) = BlockHash (Proposal c) /\
      VerifyConfirm fns c (Nonce fns b) = nil_err
}.

(** The public methods. *)
Inductive method :=
| m_HandleParentBlock (parent : DBlock) | m_IsFutureBlock (hash : Z) | m_AddBadBlock (block : DBlock)
| m_IsBadBlockProposal (p : DPOSProposal) | m_AppendFutureBlock (block : DBlock)
| m_AppendConfirm (c : Confirm) | m_AppendDposBlock (block : DBlock) | m_ConfirmBlock (hash : Z)
| m_AddToBlockMap (block : DBlock) | m_HasBlock (hash : Z) | m_HashConfirmed (number : Z)
| m_GetBlock (hash : Z) | m_AddToConfirmMap (c : Confirm) | m_CleanFinalConfirmedBlock (height : Z)
| m_GetConfirmByHeight (height : Z) | m_GetConfirm (hash : Z) | m_RemoveConfirm (hash : Z).

(** Call a method and drop its result. *)
Definition invoke (m : method) : Pool () :=
  match m with
  | m_HandleParentBlock b => HandleParentBlock b;; mret ()
  | m_IsFutureBlock h => IsFutureBlock h;; mret ()
  | m_AddBadBlock b => AddBadBlock b;; mret ()
  | m_IsBadBlockProposal p => IsBadBlockProposal p;; mret ()
  | m_AppendFutureBlock b => AppendFutureBlock b;; mret ()
  | m_AppendConfirm c => AppendConfirm c;; mret ()
  | m_AppendDposBlock b => AppendDposBlock b;; mret ()
  | m_ConfirmBlock h => ConfirmBlock h;; mret ()
  | m_AddToBlockMap b => AddToBlockMap b
  | m_HasBlock h => HasBlock h;; mret ()
  | m_HashConfirmed n => HashConfirmed n;; mret ()
  | m_GetBlock h => GetBlock h;; mret ()
  | m_AddToConfirmMap c => AddToConfirmMap c
  | m_CleanFinalConfirmedBlock h => CleanFinalConfirmedBlock h
  | m_GetConfirmByHeight h => GetConfirmByHeight h;; mret ()
  | m_GetConfirm h => GetConfirm h;; mret ()
  | m_RemoveConfirm h => RemoveConfirm h
  end.

(** Run a straight-line method on a free pool. *)
Ltac run_pool s Hl :=
  destruct s as [lk bs cs hs bad fut]; cbn in Hl; subst lk;
  unfold mbind, Pool_bind, mret, Pool_ret, Lock, Unlock, get, modify; cbn.

Section runs.
Context (s : BlockPool DBlock) (Hl : locked s = false).

Lemma GetBlock_run h : GetBlock h s = Some (blocks s !! h, s).
Proof. by run_pool s Hl. Qed.

Lemma HasBlock_run h : HasBlock h s = Some (bool_decide (is_Some (blocks s !! h)), s).
Proof. unfold HasBlock, mbind, Pool_bind. by rewrite GetBlock_run. Qed.

Lemma GetConfirm_run h : GetConfirm h s = Some (confirms s !! h, s).
Proof. by run_pool s Hl. Qed.

Lemma GetConfirmByHeight_run n : GetConfirmByHeight n s = Some (heightConfirms s !! n, s).
Proof. by run_pool s Hl. Qed.

Lemma IsBadBlockProposal_run p :
  IsBadBlockProposal p s = Some (bool_decide (is_Some (badBlocks s !! BlockHash p)), s).
Proof. by run_pool s Hl. Qed.

Lemma IsFutureBlock_run h :
  IsFutureBlock h s = Some (search_future h (range_map (futureBlocks s)).*2, s).
Proof. by run_pool s Hl. Qed.

Lemma AddBadBlock_run b :
  AddBadBlock b s = Some (
    let '(hash, err) := SealHash fns b in
    if failed err then (err, s)
    else match badBlocks s !! hash with
         | Some _ => (New "duplicate badBlock in pool", s)
         | None => (nil_err, s <| badBlocks := <[ hash := b ]> (badBlocks s) |>)
         end).
Proof.
  unfold AddBadBlock. run_pool s Hl.
  destruct (SealHash fns b) as [hash err]. destruct (failed err); [done|]. cbn. by case_match.
Qed.

Lemma AppendFutureBlock_run b :
  AppendFutureBlock b s = Some (
    let '(hash, err) := SealHash fns b in
    if failed err then (err, s)
    else match futureBlocks s !! hash with
         | Some _ => (New "duplicate futureBlocks in pool", s)
         | None => (nil_err, s <| futureBlocks := <[ hash := b ]> (futureBlocks s) |>)
         end).
Proof.
  unfold AppendFutureBlock, appendFutureBlock. run_pool s Hl.
  destruct (SealHash fns b) as [hash err]. destruct (failed err); [done|]. cbn. by destruct (fut !! hash).
Qed.

Lemma AppendDposBlock_run b :
  AppendDposBlock b s = Some (
    let '(hash, err) := SealHash fns b in
    if failed err then (err, s)
    else match blocks s !! hash with
         | Some _ => (New "duplicate block in pool", s)
         | None =>
             match VerifyBlock fns b with
             | Some err => (New err, s)
             | None => (nil_err, s <| blocks := <[ hash := b ]> (blocks s) |>
                                   <| futureBlocks := delete hash (futureBlocks s) |>)
             end
         end).
Proof.
  unfold AppendDposBlock, appendBlock. destruct (SealHash fns b) as [hash err].
  destruct (failed err); [done|]. unfold mbind at 1, Pool_bind. rewrite HasBlock_run.
  destruct (blocks s !! hash); [done|]. cbn [bool_decide].
  rewrite bool_decide_eq_false_2 by (by intros [? ?]).
  destruct (VerifyBlock fns b); [done|]. by run_pool s Hl.
Qed.

Lemma HandleParentBlock_run b :
  HandleParentBlock b s =
    match find (fun kv => u64 (GetHeight fns (snd kv) - 1) =? GetHeight fns b)
               (range_map (futureBlocks s)) with
    | Some (_, f) => match AppendDposBlock f s with Some (_, s') => Some (true, s') | None => None end
    | None => Some (false, s)
    end.
Proof. unfold HandleParentBlock. run_pool s Hl. by destruct (find _ _) as [[k f]|]. Qed.

Lemma HashConfirmed_run n :
  HashConfirmed n s = Some (
    match find (fun kv => GetHeight fns (snd kv) =? n) (range_map (blocks s)) with
    | Some (_, b) => bool_decide (is_Some (confirms s !! fst (SealHash fns b)))
    | None => false
    end, s).
Proof. unfold HashConfirmed. run_pool s Hl. destruct (find _ _) as [[k f]|]; [|done]. by destruct (SealHash fns f). Qed.

Lemma AppendConfirm_run c :
  AppendConfirm c s = Some (
    let h := BlockHash (Proposal c) in
    match confirms s !! h with
    | Some _ => (New "conformation is all ready in block pool", s)
    | None =>
        match blocks s !! h with
        | None => (New "appennd confirm error, not have DBlock", s)
        | Some b =>
            match VerifyConfirm fns c (Nonce fns b) with
            | Some err => (New err, s)
            | None => (nil_err, s <| confirms := <[ h := c ]> (confirms s) |>
                                  <| heightConfirms := <[ GetHeight fns b := c ]> (heightConfirms s) |>)
            end
        end
    end).
Proof.
  unfold AppendConfirm. run_pool s Hl. destruct (cs !! _); [done|]. unfold appendConfirm, GetBlock, confirmBlock.
  unfold mbind, Pool_bind, mret, Pool_ret, Lock, Unlock, get, modify. cbn.
  destruct (bs !! _) eqn:Hb; cbn; [|done]. destruct (VerifyConfirm _ _ _); [done|]. cbn.
  by rewrite Hb, lookup_insert_eq.
Qed.

Lemma CleanFinalConfirmedBlock_run height :
  CleanFinalConfirmedBlock height s =
  Some ((), (clean_heightConfirms height (clean_badBlocks height (clean_blocks height (s <| locked := true |>))))
              <| locked := false |>).
Proof.
  unfold CleanFinalConfirmedBlock, mbind, Pool_bind, Lock. rewrite Hl. done.
Qed.
End runs.

(** ** Cleaning *)
Lemma elem_of_range_keys {V} (m : gmap Z V) k : k ∈ (range_map m).*1 <-> is_Some (m !! k).
Proof.
  rewrite list_elem_of_fmap. split.
  - intros ([k' v] & -> & Hin). exists v. by apply elem_of_range_map.
  - intros [v Hv]. exists (k, v). split; [done|]. by apply elem_of_range_map.
Qed.

(** Deleting from [m] the keys of the entries of [l] that satisfy [f]. *)
Definition delete_keys {W V} (f : Z * W -> bool) (l : list (Z * W)) (m : gmap Z V) : gmap Z V :=
  foldl (fun m kv => if f kv then delete (fst kv) m else m) m l.

Lemma lookup_delete_keys {W V} (f : Z * W -> bool) l (m : gmap Z V) k :
  delete_keys f l m !! k = if existsb (fun kv => f kv && (fst kv =? k)) l then None else m !! k.
Proof.
  unfold delete_keys. revert m. induction l as [|kv l IH]; intros m; [done|]. cbn [foldl existsb].
  rewrite IH. destruct (f kv) eqn:Hf, (existsb _ l); rewrite ?orb_true_r; try done; cbn.
  rewrite lookup_delete, orb_false_r. case_decide as Hk; destruct (Z.eqb_spec (fst kv) k); done.
Qed.

(** The entries of [m] under the keys of [bs] that satisfy [f] are dropped. *)
Definition drop_keys {W V} (f : Z * W -> bool) (bs : gmap Z W) (m : gmap Z V) : gmap Z V :=
  filter (fun kv => match bs !! fst kv with Some b => f (fst kv, b) | None => false end = false) m.

Lemma delete_keys_range {W V} (f : Z * W -> bool) (bs : gmap Z W) (m : gmap Z V) :
  delete_keys f (range_map bs) m = drop_keys f bs m.
Proof.
  apply map_eq. intros k. unfold drop_keys. rewrite lookup_delete_keys, map_lookup_filter.
  assert (existsb (fun kv => f kv && (fst kv =? k)) (range_map bs) =
          match bs !! k with Some b => f (k, b) | None => false end) as ->.
  { apply eq_true_iff_eq. rewrite existsb_exists. split.
    - intros ([k' b] & Hin & Hb). cbn in Hb. bools. subst k'.
      apply list_elem_of_In, elem_of_range_map in Hin. by rewrite Hin.
    - destruct (bs !! k) as [b|] eqn:Hb; [|done]. intros Hf. exists (k, b).
      split; [by apply list_elem_of_In, elem_of_range_map|]. cbn. by rewrite Hf, Z.eqb_refl. }
  destruct (m !! k) as [v|]; cbn; [|by case_match].
  case_match; cbn; [by rewrite option_guard_False|by rewrite option_guard_True].
Qed.

Definition final_block (height : Z) (kv : Z * DBlock) : bool := is_final height (GetHeight fns (snd kv)).
Definition final_height (height : Z) (kv : Z * Confirm) : bool := is_final height (fst kv).

(** A loop over entries with distinct keys meets every entry undeleted. *)
Lemma clean_block_foldl height l t :
  NoDup l.*1 -> (forall k b, (k, b) ∈ l -> blocks t !! k = Some b) ->
  (forall k b, (k, b) ∈ l -> fst (SealHash fns b) = k) ->
  foldl (clean_block height) t l =
  t <| blocks := delete_keys (final_block height) l (blocks t) |>
    <| confirms := delete_keys (final_block height) l (confirms t) |>.
Proof.
  revert t. induction l as [|[k b] l IH]; intros t Hnd Hin Hk; [by destruct t|].
  apply NoDup_cons in Hnd as [Hkl Hnd]. cbn [foldl]. unfold clean_block at 2. cbn [fst].
  rewrite (Hin k b) by left. pose proof (Hk k b ltac:(left)) as Hh.
  destruct (SealHash fns b) as [h e]. cbn in Hh. subst h.
  unfold delete_keys. cbn [foldl fst]. unfold final_block at 2 4. cbn [snd].
  destruct (is_final height (GetHeight fns b)); rewrite IH; try done; intros k' b' Hin'.
  - cbn. rewrite lookup_delete_ne; [apply Hin; by right|]. intros ->. apply Hkl.
    by apply (list_elem_of_fmap_2 fst _ (k', b')).
  - apply Hk. by right.
  - apply Hin. by right.
  - apply Hk. by right.
Qed.

Lemma clean_badBlock_foldl height l t :
  NoDup l.*1 -> (forall k b, (k, b) ∈ l -> badBlocks t !! k = Some b) ->
  (forall k b, (k, b) ∈ l -> fst (SealHash fns b) = k) ->
  foldl (clean_badBlock height) t l =
  t <| badBlocks := delete_keys (final_block height) l (badBlocks t) |>.
Proof.
  revert t. induction l as [|[k b] l IH]; intros t Hnd Hin Hk; [by destruct t|].
  apply NoDup_cons in Hnd as [Hkl Hnd]. cbn [foldl]. unfold clean_badBlock at 2. cbn [fst].
  rewrite (Hin k b) by left. pose proof (Hk k b ltac:(left)) as Hh.
  destruct (SealHash fns b) as [h e]. cbn in Hh. subst h.
  unfold delete_keys. cbn [foldl fst]. unfold final_block at 2. cbn [snd].
  destruct (is_final height (GetHeight fns b)); rewrite IH; try done; intros k' b' Hin'.
  - cbn. rewrite lookup_delete_ne; [apply Hin; by right|]. intros ->. apply Hkl.
    by apply (list_elem_of_fmap_2 fst _ (k', b')).
  - apply Hk. by right.
  - apply Hin. by right.
  - apply Hk. by right.
Qed.

Lemma clean_heightConfirms_foldl height l (t : BlockPool DBlock) :
  foldl (fun s kv =>
    if is_final height (fst kv) then s <| heightConfirms := delete (fst kv) (heightConfirms s) |> else s) t l =
  t <| heightConfirms := delete_keys (final_height height) l (heightConfirms t) |>.
Proof.
  revert t. induction l as [|kv l IH]; intros t; [by destruct t|]. cbn [foldl]. rewrite IH.
  unfold delete_keys. cbn [foldl]. unfold final_height at 3. by destruct (is_final height (fst kv)).
Qed.

Lemma CleanFinalConfirmedBlock_exact height s :
  locked s = false -> pool_inv s ->
  CleanFinalConfirmedBlock height s = Some ((),
    s <| blocks := drop_keys (final_block height) (blocks s) (blocks s) |>
      <| confirms := drop_keys (final_block height) (blocks s) (confirms s) |>
      <| badBlocks := drop_keys (final_block height) (badBlocks s) (badBlocks s) |>
      <| heightConfirms := drop_keys (final_height height) (heightConfirms s) (heightConfirms s) |>).
Proof.
  intros Hl Hi. rewrite CleanFinalConfirmedBlock_run by done. do 2 f_equal.
  unfold clean_blocks. rewrite clean_block_foldl.
  - unfold clean_badBlocks. rewrite clean_badBlock_foldl.
    + unfold clean_heightConfirms. rewrite clean_heightConfirms_foldl, !delete_keys_range.
      destruct s. cbn in *. by subst.
    + apply NoDup_range_map_fst.
    + intros k b. apply elem_of_range_map.
    + intros k b Hb%elem_of_range_map. by rewrite (inv_bad _ Hi k b Hb).
  - apply NoDup_range_map_fst.
  - intros k b. apply elem_of_range_map.
  - intros k b Hb%elem_of_range_map. by apply (inv_blocks _ Hi k b).
Qed.

(** ** Preservation *)
Lemma drop_keys_Some {W V} (f : Z * W -> bool) bs (m : gmap Z V) k v :
  drop_keys f bs m !! k = Some v -> m !! k = Some v.
Proof. unfold drop_keys. by rewrite map_lookup_filter_Some; intros [? _]. Qed.

Lemma AppendDposBlock_inv b s :
  locked s = false -> pool_inv s ->
  exists e s', AppendDposBlock b s = Some (e, s') /\ locked s' = false /\ pool_inv s'.
Proof.
  intros Hl Hi. rewrite AppendDposBlock_run by done. destruct (SealHash fns b) as [h err] eqn:Hb.
  destruct err; cbn [failed]; [by eauto|].
  destruct (blocks s !! h); [by eauto|]. destruct (VerifyBlock fns b); [by eauto|].
  eexists _, _. split; [done|]. split; [done|]. destruct Hi. split; cbn; try done.
  - intros k b'. rewrite lookup_insert. case_decide; [|by eauto]. intros [= <-]. subst. by rewrite Hb.
  - intros k b'. rewrite lookup_delete_Some. intros [_ ?]. eauto.
Qed.

Lemma AppendConfirm_inv c s :
  locked s = false -> pool_inv s ->
  exists e s', AppendConfirm c s = Some (e, s') /\ locked s' = false /\ pool_inv s'.
Proof.
  intros Hl Hi. rewrite AppendConfirm_run by done. cbn zeta.
  destruct (confirms s !! _); [by eauto|]. destruct (blocks s !! _) as [b|] eqn:Hb; [|by eauto].
  destruct (VerifyConfirm _ _ _) eqn:Hv; [by eauto|].
  eexists _, _. split; [done|]. split; [done|].
  pose proof (inv_blocks _ Hi _ _ Hb). destruct Hi. split; cbn; try done.
  - intros k c'. rewrite lookup_insert. case_decide; [|by eauto]. intros [= <-]. by subst.
  - intros n c'. rewrite lookup_insert. case_decide; [|by eauto]. intros [= <-]. exists b. by subst.
Qed.

Lemma AddBadBlock_inv b s :
  locked s = false -> pool_inv s ->
  exists e s', AddBadBlock b s = Some (e, s') /\ locked s' = false /\ pool_inv s'.
Proof.
  intros Hl Hi. rewrite AddBadBlock_run by done. destruct (SealHash fns b) as [h err] eqn:Hb.
  destruct err; cbn [failed]; [by eauto|]. destruct (badBlocks s !! h); [by eauto|].
  eexists _, _. split; [done|]. split; [done|]. destruct Hi. split; cbn; try done.
  intros k b'. rewrite lookup_insert. case_decide; [|by eauto]. intros [= <-]. by subst.
Qed.

Lemma AppendFutureBlock_inv b s :
  locked s = false -> pool_inv s ->
  exists e s', AppendFutureBlock b s = Some (e, s') /\ locked s' = false /\ pool_inv s'.
Proof.
  intros Hl Hi. rewrite AppendFutureBlock_run by done. destruct (SealHash fns b) as [h err] eqn:Hb.
  destruct err; cbn [failed]; [by eauto|]. destruct (futureBlocks s !! h); [by eauto|].
  eexists _, _. split; [done|]. split; [done|]. destruct Hi. split; cbn; try done.
  intros k b'. rewrite lookup_insert. case_decide; [|by eauto]. intros [= <-]. by subst.
Qed.

Lemma CleanFinalConfirmedBlock_inv height s :
  locked s = false -> pool_inv s ->
  exists s', CleanFinalConfirmedBlock height s = Some ((), s') /\ locked s' = false /\ pool_inv s'.
Proof.
  intros Hl Hi. rewrite CleanFinalConfirmedBlock_exact by done. eexists. split; [done|]. split; [done|].
  destruct Hi. split; cbn -[drop_keys]; intros ? ? Hk; try apply drop_keys_Some in Hk; eauto.
Qed.

(** ** Properties *)

(** every method of a free pool except [ConfirmBlock] returns, frees the
    mutex again and keeps the invariant: blocks, bad blocks and future blocks
    are filed under their seal hash, confirms under the hash of their block,
    and a confirm filed under a height was verified for a block of that height. *)
Theorem pool_methods_return (m : method) (s : BlockPool DBlock) :
  locked s = false -> pool_inv s -> (forall hash, m <> m_ConfirmBlock hash) ->
  exists s', invoke m s = Some ((), s') /\ locked s' = false /\ pool_inv s'.
Proof.
  intros Hl Hi Hm. destruct m; cbn [invoke]; try (unfold mbind at 1, Pool_bind).
  - rewrite HandleParentBlock_run by done. destruct (find _ _) as [[k f]|]; [|by eauto].
    destruct (AppendDposBlock_inv f s Hl Hi) as (e & s' & -> & ? & ?). by eauto.
  - rewrite IsFutureBlock_run by done. by eauto.
  - destruct (AddBadBlock_inv block s Hl Hi) as (e & s' & -> & ? & ?). by eauto.
  - rewrite IsBadBlockProposal_run by done. by eauto.
  - destruct (AppendFutureBlock_inv block s Hl Hi) as (e & s' & -> & ? & ?). by eauto.
  - destruct (AppendConfirm_inv c s Hl Hi) as (e & s' & -> & ? & ?). by eauto.
  - destruct (AppendDposBlock_inv block s Hl Hi) as (e & s' & -> & ? & ?). by eauto.
  - by destruct (Hm hash).
  - unfold AddToBlockMap. run_pool s Hl. eexists. split; [done|]. split; [done|]. destruct Hi.
    split; cbn in *; try done. intros k b'. rewrite lookup_insert. case_decide; [|by eauto]. intros [= <-]. by subst.
  - rewrite HasBlock_run by done. by eauto.
  - rewrite HashConfirmed_run by done. by eauto.
  - rewrite GetBlock_run by done. by eauto.
  - unfold AddToConfirmMap. run_pool s Hl. eexists. split; [done|]. split; [done|]. destruct Hi.
    split; cbn in *; try done. intros k b'. rewrite lookup_insert. case_decide; [|by eauto]. intros [= <-]. by subst.
  - by apply CleanFinalConfirmedBlock_inv.
  - rewrite GetConfirmByHeight_run by done. by eauto.
  - rewrite GetConfirm_run by done. by eauto.
  - unfold RemoveConfirm. run_pool s Hl. eexists. split; [done|]. split; [done|]. destruct Hi.
    split; cbn in *; try done. intros k b'. rewrite lookup_delete_Some. intros [_ ?]. eauto.
Qed.

(** [ConfirmBlock] never returns, in any state: it takes the mutex and
    calls [confirmBlock], which takes it again. *)
Theorem ConfirmBlock_deadlocks (hash : Z) (s : BlockPool DBlock) : ConfirmBlock hash s = None.
Proof.
  unfold ConfirmBlock, confirmBlock, mbind, Pool_bind, Lock. destruct (locked s); [done|]. done.
Qed.

(** what [AppendConfirm] does, on every branch.  It succeeds exactly when
    the pool has the confirmed block, no confirm for it yet, and the confirm
    verifies at the block's main-chain height; then the confirm is found by its
    block hash and by the block's height, and nothing else changes.  Otherwise
    it returns an error and the pool is unchanged. *)
Theorem AppendConfirm_spec (c : Confirm) (s : BlockPool DBlock) :
  locked s = false ->
  exists err s', AppendConfirm c s = Some (err, s') /\
  (err = nil_err <->
     confirms s !! BlockHash (Proposal c) = None /\
     exists b, blocks s !! BlockHash (Proposal c) = Some b /\ VerifyConfirm fns c (Nonce fns b) = nil_err) /\
  (err <> nil_err -> s' = s) /\
  (err = nil_err -> forall b, blocks s !! BlockHash (Proposal c) = Some b ->
     GetConfirm (BlockHash (Proposal c)) s' = Some (Some c, s') /\
     GetConfirmByHeight (GetHeight fns b) s' = Some (Some c, s') /\
     s' = s <| confirms := <[ BlockHash (Proposal c) := c ]> (confirms s) |>
            <| heightConfirms := <[ GetHeight fns b := c ]> (heightConfirms s) |>).
Proof.
  intros Hl. rewrite AppendConfirm_run by done. cbn zeta.
  destruct (confirms s !! _) eqn:Hc; [eexists _, _; split; [done|]; naive_solver|].
  destruct (blocks s !! _) as [b|] eqn:Hb; [|eexists _, _; split; [done|]; naive_solver].
  destruct (VerifyConfirm _ _ _) eqn:Hv; [eexists _, _; split; [done|]; naive_solver|].
  eexists _, _. split; [done|]. split_and!; [naive_solver|done|].
  intros _ b' [= <-]. rewrite GetConfirm_run, GetConfirmByHeight_run by done. cbn.
  by rewrite !lookup_insert_eq.
Qed.

(** cleaning keeps exactly the window.  After the block of a height is
    final, the blocks, bad blocks and height confirms that remain are those at
    most [cachedCount] below it (all of them while the chain is shorter than
    that), the confirms that remain are those of no removed block, and future
    blocks stay; the result does not depend on the iteration order. *)
Theorem CleanFinalConfirmedBlock_spec (height : Z) (s : BlockPool DBlock) :
  locked s = false -> pool_inv s -> 0 <= height ->
  exists s', CleanFinalConfirmedBlock height s = Some ((), s') /\
  (forall h b, blocks s' !! h = Some b <->
     blocks s !! h = Some b /\ (cachedCount < height -> height - cachedCount <= GetHeight fns b)) /\
  (forall h b, badBlocks s' !! h = Some b <->
     badBlocks s !! h = Some b /\ (cachedCount < height -> height - cachedCount <= GetHeight fns b)) /\
  (forall n c, heightConfirms s' !! n = Some c <->
     heightConfirms s !! n = Some c /\ (cachedCount < height -> height - cachedCount <= n)) /\
  (forall h c, confirms s' !! h = Some c <->
     confirms s !! h = Some c /\ (blocks s !! h = None \/ is_Some (blocks s' !! h))) /\
  futureBlocks s' = futureBlocks s.
Proof.
  intros Hl Hi Hh. rewrite CleanFinalConfirmedBlock_exact by done. eexists. split; [done|].
  assert (Hfin : forall x, is_final height x = false <-> (cachedCount < height -> height - cachedCount <= x)).
  { intros x. unfold is_final. rewrite andb_false_iff, Z.ltb_ge, Z.ltb_ge. lia. }
  cbn -[drop_keys]. unfold drop_keys. split_and!; [| | | |done]; intros k v;
    rewrite map_lookup_filter_Some; cbn -[is_final].
  - unfold final_block. cbn [snd]. split; intros [Hb Hf]; (split; [done|]); rewrite Hb in *; by apply Hfin.
  - unfold final_block. cbn [snd]. split; intros [Hb Hf]; (split; [done|]); rewrite Hb in *; by apply Hfin.
  - unfold final_height. cbn [fst]. split; intros [Hb Hf]; (split; [done|]); rewrite Hb in *; by apply Hfin.
  - rewrite map_lookup_filter. cbn -[is_final]. destruct (blocks s !! k) as [b|] eqn:Hb; [|naive_solver].
    cbn. destruct (final_block height (k, b)) eqn:Hf; cbn.
    + rewrite option_guard_False by congruence. split; [by intros [_ ?]|].
      intros [_ [?|[? ?]]]; done.
    + rewrite option_guard_True by done. naive_solver.
Qed.
End pool.

(** ** Witnesses *)
Module ToyPool.
#[local] Existing Instance list_range_order.

(** A block is its height and its seal hash; confirms with a vote verify. *)
Definition fns : PoolFns (Z * Z) := {|
  GetHeight := fst;
  Nonce := fst;
  VerifyConfirm := fun c _ => if bool_decide (Votes c = []) then New "no votes" else nil_err;
  VerifyBlock := fun _ => nil_err;
  SealHash := fun b => (snd b, nil_err)
|}.

Definition proposal (h : Z) : DPOSProposal :=
  {| Sponsor := [1]; BlockHash := h; ViewOffset := 0; proposal_Sign := [] |}.
Definition confirm (h : Z) : Confirm := {| Proposal := proposal h;
  Votes := [ {| ProposalHash := h; Signer := [1]; Accept := true; vote_Sign := [] |} ] |}.

(** Blocks of heights 3 and 20, the first one confirmed. *)
Definition pool : BlockPool (Z * Z) := {|
  locked := false; blocks := {[ 77 := (3, 77); 78 := (20, 78) ]};
  confirms := {[ 77 := confirm 77 ]}; heightConfirms := {[ 3 := confirm 77 ]};
  badBlocks := ∅; futureBlocks := ∅ |}.

Lemma pool_ok : pool_inv fns pool.
Proof.
  split; cbn; intros k v Hl; repeat (rewrite lookup_insert in Hl; case_decide; simplify_eq/=);
    try done; try (rewrite lookup_singleton in Hl; case_decide; simplify_eq/=); try done.
  by exists (3, 77).
Qed.
End ToyPool.

#[local] Existing Instance list_range_order.

Lemma pool_methods_return_witness :
  exists s', invoke ToyPool.fns (m_AppendDposBlock (5, 90)) ToyPool.pool = Some ((), s') /\
    locked s' = false /\ pool_inv ToyPool.fns s'.
Proof.
  apply (pool_methods_return ToyPool.fns (m_AppendDposBlock (5, 90)) ToyPool.pool);
    [reflexivity|apply ToyPool.pool_ok|done].
Defined.

Lemma AppendConfirm_spec_witness :
  exists s', AppendConfirm ToyPool.fns (ToyPool.confirm 78) ToyPool.pool = Some (nil_err, s') /\
    GetConfirmByHeight 20 s' = Some (Some (ToyPool.confirm 78), s').
Proof.
  destruct (AppendConfirm_spec ToyPool.fns (ToyPool.confirm 78) ToyPool.pool eq_refl)
    as (err & s' & Hr & Hn & _ & Hs).
  assert (err = None) as ->.
  { apply Hn. split; [reflexivity|]. exists (20, 78). split; reflexivity. }
  exists s'. split; [done|]. by destruct (Hs eq_refl (20, 78) eq_refl) as (_ & ? & _).
Defined.

Lemma CleanFinalConfirmedBlock_spec_witness :
  exists s', CleanFinalConfirmedBlock ToyPool.fns 20 ToyPool.pool = Some ((), s') /\
    blocks s' !! 78 = Some (20, 78) /\ heightConfirms s' !! 3 <> Some (ToyPool.confirm 77).
Proof.
  destruct (CleanFinalConfirmedBlock_spec ToyPool.fns 20 ToyPool.pool eq_refl ToyPool.pool_ok ltac:(done))
    as (s' & Hr & Hb & _ & Hh & _).
  exists s'. split; [done|]. split.
  - apply Hb. split; [reflexivity|]. intros _. vm_compute. done.
  - intros E. apply Hh in E as [_ E]. assert (14 <= 3) by (by apply E). lia.
Defined.
