(* ===== verification/Routes.v ===== *)
(** * [dpos/routes.go]: the announcement of the producers' addresses

    Producers announce their network address, encrypted for each other producer, by
    gossip: inventories of hashes, requests for the unknown ones, and the signed
    addresses.  The handler goroutine is a state machine over the messages of its
    queues; its outputs are the messages sent, the inventories relayed, the peers
    disconnected and the timers set.

    The channel of announcements has room for one and the handler is its only reader:
    a send of the handler itself on the full channel blocks for ever, which is [None].
    The messages' hash and signed data, and the encryption, are of the main chain's
    library.  The shutdown and the decoding of messages are not modelled. *)
From S2P Require Import Prelude Ela.

Definition minAnnounceDuration : Z := 30 * Second.
Definition maxTimeOffset : Z := 30 * Second.
Definition maxKnownAddrs : Z := 108 * 110.

(** [msg.DAddr] of the main chain's library. *)
Record DAddr := { da_PID : bytes; da_Timestamp : Z; da_Encode : bytes; da_Cipher : bytes; da_Signature : bytes }.

#[export] Instance DAddr_eta : Eta DAddr := fun m => {|
  da_PID := da_PID m; da_Timestamp := da_Timestamp m; da_Encode := da_Encode m; da_Cipher := da_Cipher m; da_Signature := da_Signature m
|}.

(** [msg.InvVect]: the type and the hash. *)
Record InvVect := { iv_Address : bool; iv_Hash : Z }.

(** The configuration, and the functions of the library. *)
Class RoutesEnv `{!ElaLib} := {
  selfPID : bytes;
  routes_addr : bytes;
  routes_sign : bytes -> bytes;
  (** [crypto.Encrypt] with the randomness of that time *)
  Encrypt : PublicKey -> bytes -> Z -> bytes + string;
  DAddr_Hash : DAddr -> Z;
  DAddr_Data : DAddr -> bytes
}.

(** [state]: the producers, the requested addresses and those requested from each peer. *)
Record state := { peers : gset bytes; requested : gset Z; peerCache : gmap Z (gset Z) }.

#[export] Instance state_eta : Eta state := fun s => {| peers := peers s; requested := requested s; peerCache := peerCache s |}.

Inductive Output :=
  | Disconnect (p : Z)
  | SendGetData (p : Z) (hashes : list Z)
  | SendDAddr (p : Z) (m : DAddr)
  | RelayAddr (hash : Z) (m : DAddr)
  | OnCipherAddr (pid cipher : bytes)
  | ScheduleAnnounce (delay : Z).

Record Routes := {
  rt_started : bool;
  waiting : bool;
  addrIndex : gmap bytes (gmap bytes Z);
  knownAddr : gmap Z DAddr;
  (** the front first *)
  knownList : list Z;
  (** what is in the channel, and what waits to be sent to it *)
  announces : nat;
  (** the timers that will send *)
  timers : nat;
  (** the local variables of [addrHandler] *)
  rt_state : state;
  lastAnnounce : Z;
  outputs : list Output
}.

#[export] Instance Routes_eta : Eta Routes := fun r => {|
  rt_started := rt_started r; waiting := waiting r; addrIndex := addrIndex r; knownAddr := knownAddr r; knownList := knownList r; announces := announces r;
  timers := timers r; rt_state := rt_state r; lastAnnounce := lastAnnounce r; outputs := outputs r
|}.

Definition rt_zero_time : Z := time_Unix (-62135596800).

Definition NewRoutes : Routes := {|
  rt_started := false; waiting := false; addrIndex := ∅; knownAddr := ∅; knownList := []; announces := 0; timers := 0;
  rt_state := {| peers := ∅; requested := ∅; peerCache := ∅ |}; lastAnnounce := rt_zero_time; outputs := []
|}.

Definition emit (o : Output) (r : Routes) : Routes := r <| outputs := outputs r ++ [o] |>.
Definition on_state (f : state -> state) (r : Routes) : Routes := r <| rt_state := f (rt_state r) |>.

Section routes.
Context `{!ElaLib} `{!RoutesEnv} `{!RangeOrder}.

(** The list is not empty when there are too many addresses ([appendAddr_ok]). *)
Definition appendAddr (m : DAddr) (r : Routes) : Routes :=
  let hash := DAddr_Hash m in
  let known := <[ hash := m ]> (knownAddr r) in
  let r :=
    if maxKnownAddrs <? Z.of_nat (base.size known) then
      match last (knownList r) with
      | Some lru => r <| knownAddr := delete lru known |> <| knownList := hash :: take (length (knownList r) - 1) (knownList r) |>
      | None => r <| knownAddr := known |>
      end
    else r <| knownAddr := known |> <| knownList := hash :: knownList r |> in
  emit (RelayAddr hash m) r.

(** [announceAddr]: whether something is to be sent to the channel. *)
Definition ask_announce (isCurrent : bool) (r : Routes) : bool * Routes :=
  if negb isCurrent then (false, r) else if waiting r then (false, r) else (true, r <| waiting := true |>).

(** From another goroutine: the send waits when the channel is full. *)
Definition AnnounceAddr (isCurrent : bool) (r : Routes) : Routes :=
  if negb (rt_started r) then r else let (send, r) := ask_announce isCurrent r in if send then r <| announces := S (announces r) |> else r.

(** From the handler, which is the only reader. *)
Definition announceAddr (isCurrent : bool) (r : Routes) : option Routes :=
  let (send, r) := ask_announce isCurrent r in
  if send then (if (announces r =? 0)%nat then Some (r <| announces := 1%nat |>) else None) else Some r.

Definition Start (r : Routes) : Routes := r <| rt_started := true |>.

(** An index for each new producer. *)
Definition init_index (pids : list bytes) (r : Routes) : Routes :=
  foldl (fun r pid => match addrIndex r !! pid with Some _ => r | None => r <| addrIndex := <[ pid := ∅ ]> (addrIndex r) |> end) r pids.

(** A producer that is no longer one goes with its known addresses. *)
Definition drop_peer (r : Routes) (pid : bytes) : Routes :=
  match addrIndex r !! pid with
  | None => r
  | Some pids => r <| knownAddr := foldr delete (knownAddr r) (snd <$> range_map pids) |> <| addrIndex := delete pid (addrIndex r) |>
  end.

Definition handlePeersMsg (pids : list bytes) (isCurrent : bool) (r : Routes) : option Routes :=
  let newPeers : gset bytes := list_to_set pids in
  let r := init_index pids r in
  let delPeers := fst <$> range_order ((fun pid => (pid, tt)) <$> elements (peers (rt_state r) ∖ newPeers)) in
  let r := foldl drop_peer r delPeers in
  let isProducer := bool_decide (selfPID ∈ newPeers) in
  let wasProducer := bool_decide (selfPID ∈ peers (rt_state r)) in
  let r := on_state (fun s => s <| peers := newPeers |>) r in
  if isProducer && negb wasProducer then announceAddr isCurrent r else Some r.

(** The timestamps are compared with those of the index. *)
Definition verifyDAddr (AdjustedTime : Z) (m : DAddr) (r : Routes) : error :=
  match DecodePoint (da_PID m) with
  | inr _ => New "invalid public key"
  | inl pubKey =>
      match Verify pubKey (DAddr_Data m) (da_Signature m) with
      | Some _ => New "invalid signature"
      | None =>
          match addrIndex r !! da_PID m with
          | None => nil_err
          | Some index =>
              match index !! da_Encode m with
              | None => nil_err
              | Some hash =>
                  match knownAddr r !! hash with
                  | None => nil_err
                  | Some ka =>
                      if After (da_Timestamp ka) (da_Timestamp m) then New "timestamp is older than known"
                      else if After (AdjustedTime - maxTimeOffset) (da_Timestamp m) || After (da_Timestamp m) (AdjustedTime + maxTimeOffset) then New "timestamp out of offset range"
                      else if After (da_Timestamp ka + minAnnounceDuration) (da_Timestamp m) then New "address announce too frequent"
                      else nil_err
                  end
              end
          end
      end
  end.

Definition handleDAddr (AdjustedTime : Z) (p : Z) (m : DAddr) (r : Routes) : Routes :=
  match peerCache (rt_state r) !! p with
  | None => r
  | Some c =>
      let hash := DAddr_Hash m in
      if negb (bool_decide (hash ∈ c)) then emit (Disconnect p) r
      else
        let r := on_state (fun s => s <| peerCache := <[ p := c ∖ {[ hash ]} ]> (peerCache s) |> <| requested := requested s ∖ {[ hash ]} |>) r in
        if failed (verifyDAddr AdjustedTime m r) then emit (Disconnect p) r
        else if negb (bool_decide (da_PID m ∈ peers (rt_state r))) then r
        else
          let r := appendAddr m r in
          if bytes_Equal selfPID (da_Encode m) then emit (OnCipherAddr (da_PID m) (da_Cipher m)) r else r
  end.

Definition handleNewPeer (p : Z) (r : Routes) : Routes := on_state (fun s => s <| peerCache := <[ p := ∅ ]> (peerCache s) |>) r.

Definition handleDonePeer (p : Z) (r : Routes) : Routes := on_state (fun s => s <| peerCache := delete p (peerCache s) |>) r.

(** The hashes to ask for, and the sets of requested ones of the peer and of all. *)
Fixpoint inv_loop (known : gmap Z DAddr) (invs : list InvVect) (c all : gset Z) : list Z * gset Z * gset Z :=
  match invs with
  | [] => ([], c, all)
  | iv :: invs =>
      let hash := iv_Hash iv in
      if negb (iv_Address iv) then inv_loop known invs c all
      else match known !! hash with
      | Some _ => inv_loop known invs c all
      | None =>
          if bool_decide (hash ∈ all) then inv_loop known invs c all
          else let '(asked, c, all) := inv_loop known invs ({[ hash ]} ∪ c) ({[ hash ]} ∪ all) in (hash :: asked, c, all)
      end
  end.

Definition handleInv (p : Z) (invs : list InvVect) (r : Routes) : Routes :=
  match peerCache (rt_state r) !! p with
  | None => r
  | Some c =>
      let '(asked, c, all) := inv_loop (knownAddr r) invs c (requested (rt_state r)) in
      let r := on_state (fun s => s <| peerCache := <[ p := c ]> (peerCache s) |> <| requested := all |>) r in
      match asked with [] => r | _ => emit (SendGetData p asked) r end
  end.

Definition OnGetData (p : Z) (invs : list InvVect) (r : Routes) : Routes :=
  foldl (fun r iv => if iv_Address iv then match knownAddr r !! iv_Hash iv with Some addr => emit (SendDAddr p addr) r | None => r end else r) r invs.

(** The address of this node, encrypted for a producer. *)
Definition own_addr (now : Z) (pid : bytes) : option DAddr :=
  if bytes_Equal selfPID pid then None
  else match DecodePoint pid with
  | inr _ => None
  | inl pubKey =>
      match Encrypt pubKey routes_addr now with
      | inr _ => None
      | inl cipher =>
          let addr := {| da_PID := selfPID; da_Timestamp := now; da_Encode := pid; da_Cipher := cipher; da_Signature := [] |} in
          Some (addr <| da_Signature := routes_sign (DAddr_Data addr) |>)
      end
  end.

(** An announcement is taken from the channel at the time [now]. *)
Definition handleAnnounce (now : Z) (r : Routes) : Routes :=
  let r := r <| announces := Nat.pred (announces r) |> in
  let r := if bool_decide (selfPID ∈ peers (rt_state r)) then r else r <| waiting := false |> in
  if After (lastAnnounce r + minAnnounceDuration) now then
    let nextAnnounce := minAnnounceDuration - Sub now (lastAnnounce r) in
    emit (ScheduleAnnounce nextAnnounce) (r <| timers := S (timers r) |>)
  else
    let r := r <| lastAnnounce := now |> <| waiting := false |> in
    let pids := fst <$> range_order ((fun pid => (pid, tt)) <$> elements (peers (rt_state r))) in
    foldl (fun r pid => match own_addr now pid with Some addr => appendAddr addr r | None => r end) r pids.

(** What can happen: the messages of the queues, the requests of other goroutines and
    the timers. *)
Inductive Ev :=
  | EvNewPeer (p : Z)
  | EvDonePeer (p : Z)
  | EvInv (p : Z) (invs : list InvVect)
  | EvDAddr (time p : Z) (m : DAddr)
  | EvPeers (pids : list bytes) (isCurrent : bool)
  | EvGetData (p : Z) (invs : list InvVect)
  | EvAnnounceAddr (isCurrent : bool)
  | EvTimer
  | EvAnnounce (now : Z).

Definition handle (e : Ev) (r : Routes) : option Routes :=
  match e with
  | EvNewPeer p => Some (handleNewPeer p r)
  | EvDonePeer p => Some (handleDonePeer p r)
  | EvInv p invs => Some (handleInv p invs r)
  | EvDAddr time p m => Some (handleDAddr time p m r)
  | EvPeers pids isCurrent => handlePeersMsg pids isCurrent r
  | EvGetData p invs => Some (OnGetData p invs r)
  | EvAnnounceAddr isCurrent => Some (AnnounceAddr isCurrent r)
  | EvTimer => Some (match timers r with O => r | S n => r <| timers := n |> <| announces := S (announces r) |> end)
  | EvAnnounce now => Some (match announces r with O => r | S _ => handleAnnounce now r end)
  end.

Fixpoint handle_all (es : list Ev) (r : Routes) : option Routes :=
  match es with [] => Some r | e :: es => r ← handle e r; handle_all es r end.
End routes.

(** * The known and the requested addresses *)
Section routes_facts.
Context `{!ElaLib} `{!RoutesEnv} `{!RangeOrder}.

Record routes_ok (r : Routes) : Prop := {
  ok_list : NoDup (knownList r);
  ok_known : forall h, h ∈ knownList r <-> is_Some (knownAddr r !! h);
  ok_bound : zlen (knownList r) <= maxKnownAddrs;
  ok_hash : forall h m, knownAddr r !! h = Some m -> DAddr_Hash m = h;
  ok_index : forall pid index, addrIndex r !! pid = Some index -> index = ∅;
  ok_cache : forall p c, peerCache (rt_state r) !! p = Some c -> c ⊆ requested (rt_state r);
  ok_disjoint : forall p q c d, p <> q -> peerCache (rt_state r) !! p = Some c -> peerCache (rt_state r) !! q = Some d -> c ## d;
  ok_new : forall h, h ∈ requested (rt_state r) -> knownAddr r !! h = None
}.

(** The hashes of this node's addresses are new when it announces them. *)
Definition own_addrs (now : Z) (r : Routes) : list DAddr :=
  omap (own_addr now) (fst <$> range_order ((fun pid => (pid, tt)) <$> elements (peers (rt_state r)))).

Definition fresh_announce (e : Ev) (r : Routes) : Prop :=
  match e with
  | EvAnnounce now => NoDup (DAddr_Hash <$> own_addrs now r) /\ Forall (fun m => knownAddr r !! DAddr_Hash m = None /\ DAddr_Hash m ∉ requested (rt_state r)) (own_addrs now r)
  | _ => True
  end.

(** Changes of what the invariant does not look at. *)
Lemma routes_ok_ext r r' :
  knownList r' = knownList r -> knownAddr r' = knownAddr r -> addrIndex r' = addrIndex r ->
  requested (rt_state r') = requested (rt_state r) -> peerCache (rt_state r') = peerCache (rt_state r) -> routes_ok r -> routes_ok r'.
Proof. intros E1 E2 E3 E4 E5 [O1 O2 O3 O4 O5 O6 O7 O8]. split; rewrite ?E1, ?E2, ?E3, ?E4, ?E5; done. Qed.

Lemma known_size r : routes_ok r -> zlen (knownList r) = Z.of_nat (base.size (knownAddr r)).
Proof.
  intros [Hnd Hk _ _ _ _ _ _]. unfold zlen. f_equal. rewrite <- (length_map_to_list (knownAddr r)), <- (length_fmap fst). apply Permutation_length, NoDup_Permutation; [done|apply NoDup_fst_map_to_list|].
  intros h. rewrite Hk, list_elem_of_fmap. split.
  - intros [m E]. exists (h, m). split; [done|]. by apply elem_of_map_to_list.
  - intros ([h' m] & -> & E%elem_of_map_to_list). eauto.
Qed.

(** The list of hashes without its last one. *)
Lemma last_split {A} (l : list A) x : last l = Some x -> l = take (length l - 1) l ++ [x].
Proof.
  intros Hl. apply last_Some in Hl as [k ->]. rewrite length_app. cbn. by rewrite Nat.add_sub, take_app_length.
Qed.

Lemma appendAddr_ok m r : routes_ok r -> knownAddr r !! DAddr_Hash m = None -> DAddr_Hash m ∉ requested (rt_state r) -> routes_ok (appendAddr m r).
Proof.
  intros Hr Hn Hq. pose proof (known_size r Hr) as Hs. pose proof Hr as [H1' H2' H3' H4' H5' H6' H7' H8']. unfold appendAddr. eapply routes_ok_ext; [reflexivity..|]. cbn zeta.
  assert (DAddr_Hash m ∉ knownList r) as Hnl by (rewrite H2', Hn; by intros [? [=]]).
  rewrite map_size_insert_None by done. destruct (maxKnownAddrs <? Z.of_nat (S (base.size (knownAddr r)))) eqn:E; bools.
  - destruct (last (knownList r)) as [lru|] eqn:El.
    2:{ apply last_None in El. rewrite El in Hs. unfold zlen in Hs. cbn in Hs. unfold maxKnownAddrs in E. lia. }
    pose proof (last_split _ _ El) as Hl. set (k := take _ _) in *.
    assert (NoDup (k ++ [lru])) as Hnd by (by rewrite <- Hl). apply NoDup_app in Hnd as (Hk & Hkl & _).
    assert (lru ∈ knownList r) as Hlru by (rewrite Hl; set_solver).
    split; cbn; try done.
    + constructor; [|done]. intros C. apply Hnl. rewrite Hl. set_solver.
    + intros h. rewrite elem_of_cons, lookup_delete, lookup_insert. specialize (H2' h). rewrite Hl, elem_of_app, list_elem_of_singleton in H2'. case_decide as D1; [|case_decide as D2].
      * subst h. split; [|by intros [? [=]]]. intros [C|C]; [subst lru; done|]. exfalso. apply (Hkl lru C). set_solver.
      * subst h. split; [eauto|by left].
      * rewrite <- H2'. split; [intros [C|C]; [congruence|by left]|intros [C|C]; [by right|congruence]].
    + rewrite zlen_cons. rewrite Hl, zlen_app in H3'. unfold zlen at 2 in H3'. cbn in H3'. lia.
    + intros h m'. rewrite lookup_delete_Some, lookup_insert_Some. intros (_ & [[D1 D2]|[_ E']]); [congruence|by apply H4'].
    + intros h Hh. rewrite lookup_delete_None, lookup_insert_None. right. split; [by apply H8'|]. intros <-. done.
  - split; cbn; try done.
    + by constructor.
    + intros h. rewrite elem_of_cons, lookup_insert, H2'. case_decide as D; [subst h; split; [eauto|by left]|]. split; [intros [C|C]; [congruence|done]|by right].
    + rewrite zlen_cons. lia.
    + intros h m'. rewrite lookup_insert_Some. intros [[D1 D2]|[_ E']]; [congruence|by apply H4'].
    + intros h Hh. rewrite lookup_insert_None. split; [by apply H8'|]. intros <-. done.
Qed.

Lemma appendAddr_known m h r : DAddr_Hash m <> h -> knownAddr r !! h = None -> knownAddr (appendAddr m r) !! h = None.
Proof.
  intros Hne Hn. unfold appendAddr. cbn zeta. assert (<[DAddr_Hash m:=m]> (knownAddr r) !! h = None) as Hi by (by rewrite lookup_insert_ne).
  repeat case_match; cbn; rewrite ?lookup_delete_None; auto.
Qed.

Lemma appendAddr_state m r : rt_state (appendAddr m r) = rt_state r.
Proof. unfold appendAddr. cbn zeta. by repeat case_match. Qed.

Lemma append_all_ok ms r :
  routes_ok r -> NoDup (DAddr_Hash <$> ms) -> Forall (fun m => knownAddr r !! DAddr_Hash m = None /\ DAddr_Hash m ∉ requested (rt_state r)) ms ->
  routes_ok (foldl (fun r m => appendAddr m r) r ms).
Proof.
  revert r. induction ms as [|m ms IH]; cbn [foldl fmap list_fmap]; intros r Hr Hnd Hf; [done|]. apply NoDup_cons in Hnd as [Hn Hnd]. apply Forall_cons in Hf as [[H1' H2'] Hf].
  apply IH; [by apply appendAddr_ok|done|]. apply Forall_forall. intros m' Hm'. rewrite Forall_forall in Hf. destruct (Hf _ Hm') as [H3' H4']. rewrite appendAddr_state. split; [|done].
  apply appendAddr_known; [|done]. intros E. apply Hn. rewrite E. by apply list_elem_of_fmap_2.
Qed.

Lemma announce_fold now pids r :
  foldl (fun r pid => match own_addr now pid with Some addr => appendAddr addr r | None => r end) r pids = foldl (fun r m => appendAddr m r) r (omap (own_addr now) pids).
Proof. revert r. induction pids as [|pid pids IH]; intros r; [done|]. cbn. destruct (own_addr now pid); cbn; apply IH. Qed.

Lemma inv_loop_spec known invs c all asked c' all' :
  inv_loop known invs c all = (asked, c', all') ->
  c' = list_to_set asked ∪ c /\ all' = list_to_set asked ∪ all /\ NoDup asked /\ Forall (fun h => h ∉ all /\ known !! h = None) asked.
Proof.
  revert c all asked c' all'. induction invs as [|iv invs IH]; cbn [inv_loop]; intros c all asked c' all' E.
  { simplify_eq. cbn. split; [set_solver|]. split; [set_solver|]. split; constructor. }
  destruct (negb (iv_Address iv)); [by apply IH|]. destruct (known !! iv_Hash iv) eqn:Ek; [by apply IH|]. case_bool_decide as Hin; [by apply IH|].
  destruct (inv_loop _ _ _ _) as [[a1 c1] all1] eqn:E1. simplify_eq. apply IH in E1 as (-> & -> & Hnd & Hf). rewrite Forall_forall in Hf. cbn [list_to_set].
  split; [set_solver|]. split; [set_solver|]. split.
  - constructor; [|done]. intros C. destruct (Hf _ C) as [C' _]. set_solver.
  - constructor; [done|]. apply Forall_forall. intros h Hh. destruct (Hf _ Hh) as [H1' H2']. split; [set_solver|done].
Qed.

Lemma handleInv_ok p invs r : routes_ok r -> routes_ok (handleInv p invs r).
Proof.
  intros Hr. unfold handleInv. destruct (peerCache (rt_state r) !! p) as [c|] eqn:Ec; [|done]. destruct (inv_loop _ _ _ _) as [[asked c'] all'] eqn:E.
  apply inv_loop_spec in E as (-> & -> & Hnd & Hf). rewrite Forall_forall in Hf. pose proof Hr as [O1 O2 O3 O4 O5 O6 O7 O8].
  assert (routes_ok (on_state (fun s => s <| peerCache := <[ p := list_to_set asked ∪ c ]> (peerCache s) |> <| requested := list_to_set asked ∪ requested (rt_state r) |>) r)) as Hok.
  { split; cbn; try done.
    - intros q d. rewrite lookup_insert. case_decide; [intros [= <-]; specialize (O6 _ _ Ec); set_solver|]. intros Hd. specialize (O6 _ _ Hd). set_solver.
    - assert (forall q d, p <> q -> peerCache (rt_state r) !! q = Some d -> list_to_set asked ∪ c ## d) as Hdis.
      { intros q d Hpq Hd. specialize (O7 p q c d Hpq Ec Hd). specialize (O6 _ _ Hd). intros h [Hh|Hh]%elem_of_union Hhd; [|by apply (O7 h)].
        apply elem_of_list_to_set in Hh. destruct (Hf _ Hh) as [C _]. apply C, O6, Hhd. }
      intros q1 q2 d1 d2 Hne. rewrite !lookup_insert. repeat case_decide; subst; try done; intros E1 E2; simplify_eq.
      + by apply (Hdis q2).
      + symmetry. by apply (Hdis q1); [congruence|].
      + exact (O7 q1 q2 d1 d2 Hne E1 E2).
    - intros h [Hh|Hh]%elem_of_union; [|by apply O8]. apply elem_of_list_to_set in Hh. by apply Hf. }
  destruct asked; [done|]. by eapply routes_ok_ext; [..|exact Hok].
Qed.

Lemma take_requested_ok p c h r :
  routes_ok r -> peerCache (rt_state r) !! p = Some c -> h ∈ c ->
  let r' := on_state (fun s => s <| peerCache := <[ p := c ∖ {[ h ]} ]> (peerCache s) |> <| requested := requested s ∖ {[ h ]} |>) r in
  routes_ok r' /\ knownAddr r' !! h = None /\ h ∉ requested (rt_state r').
Proof.
  intros [O1 O2 O3 O4 O5 O6 O7 O8] Ec Hh r'. split; [|split; cbn; [apply O8; by eapply O6|set_solver]]. split; cbn; try done.
  - intros q d. rewrite lookup_insert. case_decide; [intros [= <-]; specialize (O6 _ _ Ec); set_solver|]. intros Hd. pose proof (O6 _ _ Hd). specialize (O7 p q c d ltac:(done) Ec Hd). set_solver.
  - intros q1 q2 d1 d2 Hne. rewrite !lookup_insert. repeat case_decide; subst; try done; intros E1 E2; simplify_eq.
    + pose proof (O7 q1 q2 c d2 Hne Ec E2). set_solver.
    + pose proof (O7 q1 q2 d1 c Hne E1 Ec). set_solver.
    + exact (O7 q1 q2 d1 d2 Hne E1 E2).
  - intros h' Hh'. apply O8. set_solver.
Qed.

Lemma handleDAddr_ok time p m r : routes_ok r -> routes_ok (handleDAddr time p m r).
Proof.
  intros Hr. unfold handleDAddr. destruct (peerCache (rt_state r) !! p) as [c|] eqn:Ec; [|done]. destruct (negb _) eqn:Eh; [by eapply routes_ok_ext; [..|exact Hr]|]. bools.
  destruct (take_requested_ok p c (DAddr_Hash m) r Hr Ec Eh) as (Hok & Hn & Hq). set (r1 := on_state _ r) in *. clearbody r1.
  destruct (failed _); [by eapply routes_ok_ext; [..|exact Hok]|]. destruct (negb _); [done|]. pose proof (appendAddr_ok m r1 Hok Hn Hq) as Ha.
  destruct (bytes_Equal _ _); [by eapply routes_ok_ext; [..|exact Ha]|done].
Qed.

Lemma init_index_ok pids r : routes_ok r -> routes_ok (init_index pids r) /\ rt_state (init_index pids r) = rt_state r.
Proof.
  unfold init_index. revert r. induction pids as [|pid pids IH]; cbn [foldl]; intros r Hr; [done|]. destruct (addrIndex r !! pid) eqn:E; [by apply IH|].
  destruct (IH (r <| addrIndex := <[ pid := ∅ ]> (addrIndex r) |>)) as [Hok Hst]; [|done].
  pose proof Hr as [O1 O2 O3 O4 O5 O6 O7 O8]. split; cbn; try done. intros q i. rewrite lookup_insert. case_decide; [by intros [= <-]|apply O5].
Qed.

Lemma drop_peers_ok pids r : routes_ok r -> routes_ok (foldl drop_peer r pids) /\ rt_state (foldl drop_peer r pids) = rt_state r.
Proof.
  revert r. induction pids as [|pid pids IH]; cbn [foldl]; intros r Hr; [done|]. assert (routes_ok (drop_peer r pid) /\ rt_state (drop_peer r pid) = rt_state r) as [Hok Hst].
  { unfold drop_peer. destruct (addrIndex r !! pid) as [i|] eqn:E; [|done]. pose proof Hr as [O1 O2 O3 O4 O5 O6 O7 O8]. rewrite (O5 _ _ E), range_map_empty. cbn.
    split; [|done]. split; cbn; try done. intros q j. rewrite lookup_delete_Some. intros [_ Hj]. by eapply O5. }
  destruct (IH _ Hok) as [Hok' Hst']. split; [done|congruence].
Qed.

Lemma announceAddr_ok isCurrent r r' : routes_ok r -> announceAddr isCurrent r = Some r' -> routes_ok r'.
Proof.
  unfold announceAddr, ask_announce. intros Hr E. repeat case_match; simplify_eq; try done; by eapply routes_ok_ext; [..|exact Hr].
Qed.

Lemma handlePeersMsg_ok pids isCurrent r r' : routes_ok r -> handlePeersMsg pids isCurrent r = Some r' -> routes_ok r'.
Proof.
  unfold handlePeersMsg. intros Hr E. destruct (init_index_ok pids r Hr) as [Hok1 Hst1]. set (r1 := init_index pids r) in *. clearbody r1.
  set (del := fst <$> _) in E. destruct (drop_peers_ok del r1 Hok1) as [Hok2 Hst2]. set (r2 := foldl drop_peer r1 del) in *. clearbody r2.
  assert (routes_ok (on_state (fun s => s <| peers := list_to_set pids |>) r2)) as Hok3 by (by eapply routes_ok_ext; [..|exact Hok2]).
  case_match; [by eapply announceAddr_ok|by simplify_eq].
Qed.

Lemma OnGetData_ok p invs r : routes_ok r -> routes_ok (OnGetData p invs r).
Proof.
  unfold OnGetData. revert r. induction invs as [|iv invs IH]; cbn [foldl]; intros r Hr; [done|]. apply IH. repeat case_match; try done. by eapply routes_ok_ext; [..|exact Hr].
Qed.

Lemma handle_ok e r r' : routes_ok r -> fresh_announce e r -> handle e r = Some r' -> routes_ok r'.
Proof.
  intros Hr Hf E. destruct e as [p|p|p invs|time p m|pids isCurrent|p invs|isCurrent| |now]; cbn [handle] in E; try (injection E as <-).
  - pose proof Hr as [O1 O2 O3 O4 O5 O6 O7 O8]. split; cbn; try done.
    + intros q c. rewrite lookup_insert. case_decide; [intros [= <-]; set_solver|apply O6].
    + intros q1 q2 d1 d2 Hne. rewrite !lookup_insert. repeat case_decide; subst; try done; intros E1 E2; simplify_eq; [set_solver..|exact (O7 q1 q2 d1 d2 Hne E1 E2)].
  - pose proof Hr as [O1 O2 O3 O4 O5 O6 O7 O8]. split; cbn; try done.
    + intros q c [_ Hc]%lookup_delete_Some. by eapply O6.
    + intros q1 q2 d1 d2 Hne [_ E1]%lookup_delete_Some [_ E2]%lookup_delete_Some. exact (O7 q1 q2 d1 d2 Hne E1 E2).
  - by apply handleInv_ok.
  - by apply handleDAddr_ok.
  - by eapply handlePeersMsg_ok.
  - by apply OnGetData_ok.
  - unfold AnnounceAddr, ask_announce. repeat case_match; simplify_eq; try done; by eapply routes_ok_ext; [..|exact Hr].
  - case_match; [done|]. by eapply routes_ok_ext; [..|exact Hr].
  - destruct (announces r); [done|]. unfold handleAnnounce. destruct Hf as [Hnd Hf].
    set (r1 := if bool_decide _ then _ else _). assert (routes_ok r1 /\ rt_state r1 = rt_state r /\ knownAddr r1 = knownAddr r) as (Hok & Hst & Hk).
    { unfold r1. case_match; (split; [by eapply routes_ok_ext; [..|exact Hr]|done]). }
    clearbody r1. case_match; [by eapply routes_ok_ext; [..|exact Hok]|]. rewrite announce_fold.
    apply append_all_ok; [by eapply routes_ok_ext; [..|exact Hok]|cbn; rewrite Hst; exact Hnd|]. cbn. rewrite Hst, Hk. exact Hf.
Qed.

(** The runs whose announcements are new. *)
Fixpoint fresh_run (es : list Ev) (r : Routes) : Prop :=
  match es with
  | [] => True
  | e :: es => fresh_announce e r /\ match handle e r with Some r' => fresh_run es r' | None => True end
  end.

#[export] Instance fresh_announce_dec e r : Decision (fresh_announce e r).
Proof. destruct e; apply _. Defined.

#[export] Instance fresh_run_dec es : forall r, Decision (fresh_run es r).
Proof.
  induction es as [|e es IH]; intros r; cbn [fresh_run]; [apply _|]. apply and_dec; [apply _|]. destruct (handle e r) as [r'|]; [apply IH|apply _].
Defined.

Lemma handle_all_ok es r r' : routes_ok r -> fresh_run es r -> handle_all es r = Some r' -> routes_ok r'.
Proof.
  revert r. induction es as [|e es IH]; cbn [handle_all fresh_run]; intros r Hr Hf E; [by simplify_eq|]. destruct Hf as [Hf1 Hf2].
  destruct (handle e r) as [r1|] eqn:E1; [|done]. eapply (IH r1); [by eapply handle_ok|done|done].
Qed.

Lemma NewRoutes_ok : routes_ok (Start NewRoutes).
Proof.
  split; cbn; try done.
  - constructor.
  - intros h. rewrite lookup_empty. split; [by intros ?%not_elem_of_nil|by intros [? [=]]].
Qed.

(** * The index of addresses stays empty *)

Definition index_empty (r : Routes) : Prop := forall pid index, addrIndex r !! pid = Some index -> index = ∅.

Lemma appendAddr_index m r : addrIndex (appendAddr m r) = addrIndex r.
Proof. unfold appendAddr. cbn zeta. by repeat case_match. Qed.

Lemma append_all_index ms r : addrIndex (foldl (fun r m => appendAddr m r) r ms) = addrIndex r.
Proof. revert r. induction ms as [|m ms IH]; intros r; cbn [foldl]; [done|]. by rewrite IH, appendAddr_index. Qed.

Lemma OnGetData_rest p invs r : addrIndex (OnGetData p invs r) = addrIndex r /\ knownAddr (OnGetData p invs r) = knownAddr r /\ rt_state (OnGetData p invs r) = rt_state r.
Proof.
  unfold OnGetData. revert r. induction invs as [|iv invs IH]; intros r; cbn [foldl]; [done|]. destruct (IH (if iv_Address iv then match knownAddr r !! iv_Hash iv with Some addr => emit (SendDAddr p addr) r | None => r end else r)) as (-> & -> & ->).
  by repeat case_match.
Qed.

Lemma handleDAddr_index time p m r : addrIndex (handleDAddr time p m r) = addrIndex r.
Proof. unfold handleDAddr. repeat case_match; first [reflexivity|apply (appendAddr_index m (on_state _ r))]. Qed.

Lemma handleInv_index p invs r : addrIndex (handleInv p invs r) = addrIndex r.
Proof. unfold handleInv. by repeat case_match. Qed.

Lemma announceAddr_rest isCurrent r r' : announceAddr isCurrent r = Some r' -> addrIndex r' = addrIndex r /\ knownAddr r' = knownAddr r /\ rt_state r' = rt_state r.
Proof. unfold announceAddr, ask_announce. intros E. by repeat case_match; simplify_eq. Qed.

Lemma AnnounceAddr_rest isCurrent r : addrIndex (AnnounceAddr isCurrent r) = addrIndex r /\ knownAddr (AnnounceAddr isCurrent r) = knownAddr r /\ rt_state (AnnounceAddr isCurrent r) = rt_state r.
Proof. unfold AnnounceAddr, ask_announce. by repeat case_match; simplify_eq. Qed.

Lemma handleAnnounce_index now r : addrIndex (handleAnnounce now r) = addrIndex r.
Proof. unfold handleAnnounce. rewrite announce_fold. repeat case_match; rewrite ?append_all_index; done. Qed.

(** The known addresses stay when an index is made or an empty one goes. *)
Lemma init_index_empty pids r : index_empty r -> index_empty (init_index pids r) /\ knownAddr (init_index pids r) = knownAddr r /\ rt_state (init_index pids r) = rt_state r.
Proof.
  unfold init_index. revert r. induction pids as [|pid pids IH]; cbn [foldl]; intros r Hr; [done|]. destruct (addrIndex r !! pid) eqn:E; [by apply IH|].
  destruct (IH (r <| addrIndex := <[ pid := ∅ ]> (addrIndex r) |>)) as (Hi & Hk & Hs); [|done].
  intros q i. cbn. rewrite lookup_insert. case_decide; [by intros [= <-]|apply Hr].
Qed.

Lemma drop_peers_empty pids r : index_empty r -> index_empty (foldl drop_peer r pids) /\ knownAddr (foldl drop_peer r pids) = knownAddr r /\ rt_state (foldl drop_peer r pids) = rt_state r.
Proof.
  revert r. induction pids as [|pid pids IH]; cbn [foldl]; intros r Hr; [done|].
  assert (index_empty (drop_peer r pid) /\ knownAddr (drop_peer r pid) = knownAddr r /\ rt_state (drop_peer r pid) = rt_state r) as (Hi & Hk & Hs).
  { unfold drop_peer. destruct (addrIndex r !! pid) as [i|] eqn:E; [|done]. rewrite (Hr _ _ E), range_map_empty. cbn. split; [|done].
    intros q j. cbn. rewrite lookup_delete_Some. intros [_ Hj]. by eapply Hr. }
  destruct (IH _ Hi) as (Hi' & Hk' & Hs'). split; [done|]. split; congruence.
Qed.

Lemma handlePeersMsg_rest pids isCurrent r r' :
  index_empty r -> handlePeersMsg pids isCurrent r = Some r' ->
  index_empty r' /\ knownAddr r' = knownAddr r /\ requested (rt_state r') = requested (rt_state r) /\ peerCache (rt_state r') = peerCache (rt_state r).
Proof.
  unfold handlePeersMsg. intros Hr E. destruct (init_index_empty pids r Hr) as (Hi1 & Hk1 & Hs1). set (r1 := init_index pids r) in *. clearbody r1.
  set (del := fst <$> _) in E. destruct (drop_peers_empty del r1 Hi1) as (Hi2 & Hk2 & Hs2). set (r2 := foldl drop_peer r1 del) in *. clearbody r2.
  case_match.
  - apply announceAddr_rest in E as (E1 & E2 & E3). unfold index_empty. rewrite E1, E2, E3. cbn. rewrite Hs2, Hs1, Hk2, Hk1. done.
  - simplify_eq. cbn. rewrite Hs2, Hs1, Hk2, Hk1. done.
Qed.

Lemma handle_index e r r' : index_empty r -> handle e r = Some r' -> index_empty r'.
Proof.
  intros Hr E. destruct e as [p|p|p invs|time p m|pids isCurrent|p invs|isCurrent| |now]; cbn [handle] in E; try (injection E as <-); try done.
  - unfold index_empty. by rewrite handleInv_index.
  - unfold index_empty. by rewrite handleDAddr_index.
  - by eapply handlePeersMsg_rest.
  - unfold index_empty. by rewrite (proj1 (OnGetData_rest _ _ _)).
  - unfold index_empty. by rewrite (proj1 (AnnounceAddr_rest _ _)).
  - by case_match.
  - case_match; [done|]. unfold index_empty. by rewrite handleAnnounce_index.
Qed.

Lemma handle_all_index es r r' : index_empty r -> handle_all es r = Some r' -> index_empty r'.
Proof.
  revert r. induction es as [|e es IH]; cbn [handle_all]; intros r Hr E; [by simplify_eq|]. destruct (handle e r) as [r1|] eqn:E1; [|done].
  eapply (IH r1); [by eapply handle_index|done].
Qed.

(** What is checked of an address when the index is empty: the key and the signature. *)
Definition signature_only (m : DAddr) : error :=
  match DecodePoint (da_PID m) with
  | inr _ => New "invalid public key"
  | inl pubKey => match Verify pubKey (DAddr_Data m) (da_Signature m) with Some _ => New "invalid signature" | None => nil_err end
  end.

(** In every run the timestamp of an address is not looked at, neither against the
    known one, nor against the median time, nor for its frequency. *)
Theorem timestamps_unchecked es r time m : handle_all es (Start NewRoutes) = Some r -> verifyDAddr time m r = signature_only m.
Proof.
  intros E. assert (index_empty r) as Hi by (eapply handle_all_index; [|exact E]; intros ?? [=]). unfold verifyDAddr, signature_only.
  destruct (DecodePoint (da_PID m)); [|done]. destruct (Verify _ _ _); [done|]. destruct (addrIndex r !! da_PID m) as [i|] eqn:Ei; [|done]. by rewrite (Hi _ _ Ei), lookup_empty.
Qed.

(** * A request is lost with its peer *)

(** The address is requested of nobody. *)
Record orphan (h : Z) (r : Routes) : Prop := {
  orphan_requested : h ∈ requested (rt_state r);
  orphan_cache : forall p c, peerCache (rt_state r) !! p = Some c -> h ∉ c;
  orphan_unknown : knownAddr r !! h = None
}.

Lemma orphan_ext h r r' :
  knownAddr r' = knownAddr r -> requested (rt_state r') = requested (rt_state r) -> peerCache (rt_state r') = peerCache (rt_state r) -> orphan h r -> orphan h r'.
Proof. intros E1 E2 E3 [O1 O2 O3]. split; rewrite ?E1, ?E2, ?E3; done. Qed.

Lemma orphan_append h m r : DAddr_Hash m <> h -> orphan h r -> orphan h (appendAddr m r).
Proof. intros Hne [O1 O2 O3]. split; rewrite ?appendAddr_state; try done. by apply appendAddr_known. Qed.

Lemma orphan_append_all h ms r : Forall (fun m => DAddr_Hash m <> h) ms -> orphan h r -> orphan h (foldl (fun r m => appendAddr m r) r ms).
Proof. revert r. induction ms as [|m ms IH]; cbn [foldl]; intros r Hf Ho; [done|]. apply Forall_cons in Hf as [Hm Hf]. apply IH; [done|]. by apply orphan_append. Qed.

Lemma orphan_handleInv h p invs r : orphan h r -> orphan h (handleInv p invs r).
Proof.
  intros Ho. unfold handleInv. destruct (peerCache (rt_state r) !! p) as [c|] eqn:Ec; [|done]. destruct (inv_loop _ _ _ _) as [[asked c'] all'] eqn:E.
  apply inv_loop_spec in E as (-> & -> & _ & Hf). rewrite Forall_forall in Hf. destruct Ho as [O1 O2 O3].
  assert (orphan h (on_state (fun s => s <| peerCache := <[ p := list_to_set asked ∪ c ]> (peerCache s) |> <| requested := list_to_set asked ∪ requested (rt_state r) |>) r)) as Hok.
  { split; cbn; [set_solver| |done]. intros q d. rewrite lookup_insert. case_decide; [|apply O2]. intros [= <-] [Hh|Hh]%elem_of_union; [|by apply (O2 p c)].
    apply elem_of_list_to_set in Hh. by apply (Hf h). }
  destruct asked; [done|]. by eapply orphan_ext; [..|exact Hok].
Qed.

Lemma orphan_handleDAddr h time p m r : orphan h r -> orphan h (handleDAddr time p m r).
Proof.
  intros Ho. unfold handleDAddr. destruct (peerCache (rt_state r) !! p) as [c|] eqn:Ec; [|done]. destruct (negb _) eqn:Eh; [by eapply orphan_ext; [..|exact Ho]|]. bools.
  destruct Ho as [O1 O2 O3]. assert (DAddr_Hash m <> h) as Hne by (intros <-; by apply (O2 p c)).
  assert (orphan h (on_state (fun s => s <| peerCache := <[ p := c ∖ {[ DAddr_Hash m ]} ]> (peerCache s) |> <| requested := requested s ∖ {[ DAddr_Hash m ]} |>) r)) as Hok.
  { split; cbn; [set_solver| |done]. intros q d. rewrite lookup_insert. case_decide; [|apply O2]. intros [= <-]. specialize (O2 _ _ Ec). set_solver. }
  set (r1 := on_state _ r) in *. clearbody r1. destruct (failed _); [by eapply orphan_ext; [..|exact Hok]|]. destruct (negb _); [done|].
  pose proof (orphan_append h m r1 Hne Hok) as Ha. destruct (bytes_Equal _ _); [by eapply orphan_ext; [..|exact Ha]|done].
Qed.

(** The node does not announce an address of that hash itself. *)
Definition never_own (h : Z) (es : list Ev) : Prop := forall now pid m, EvAnnounce now ∈ es -> own_addr now pid = Some m -> DAddr_Hash m <> h.

Lemma orphan_handleAnnounce h now r : (forall pid m, own_addr now pid = Some m -> DAddr_Hash m <> h) -> orphan h r -> orphan h (handleAnnounce now r).
Proof.
  intros Hown Ho. unfold handleAnnounce. set (r1 := if bool_decide _ then _ else _). assert (orphan h r1) as Ho1.
  { unfold r1. case_match; by eapply orphan_ext; [..|exact Ho]. }
  clearbody r1. case_match; [by eapply orphan_ext; [..|exact Ho1]|]. rewrite announce_fold. apply orphan_append_all; [|by eapply orphan_ext; [..|exact Ho1]].
  apply Forall_forall. intros m. rewrite list_elem_of_omap. intros (pid & _ & Hm). by eapply Hown.
Qed.

Lemma orphan_handle h e r r' : never_own h [e] -> index_empty r -> orphan h r -> handle e r = Some r' -> orphan h r'.
Proof.
  intros Hown Hi Ho E. pose proof Ho as [O1 O2 O3]. destruct e as [p|p|p invs|time p m|pids isCurrent|p invs|isCurrent| |now]; cbn [handle] in E; try (injection E as <-).
  - split; cbn; try done. intros q c. rewrite lookup_insert. case_decide; [intros [= <-]; set_solver|apply O2].
  - split; cbn; try done. intros q c [_ Hc]%lookup_delete_Some. by eapply O2.
  - by apply orphan_handleInv.
  - by apply orphan_handleDAddr.
  - destruct (handlePeersMsg_rest _ _ _ _ Hi E) as (_ & E1 & E2 & E3). by eapply orphan_ext; [..|exact Ho].
  - destruct (OnGetData_rest p invs r) as (_ & E1 & E2). eapply orphan_ext; [..|exact Ho]; congruence.
  - destruct (AnnounceAddr_rest isCurrent r) as (_ & E1 & E2). eapply orphan_ext; [..|exact Ho]; congruence.
  - case_match; [done|]. by eapply orphan_ext; [..|exact Ho].
  - case_match; [done|]. apply orphan_handleAnnounce; [|done]. intros pid m. apply Hown. by apply list_elem_of_singleton.
Qed.

Lemma orphan_for_ever h es r r' : never_own h es -> index_empty r -> orphan h r -> handle_all es r = Some r' -> orphan h r'.
Proof.
  revert r. induction es as [|e es IH]; cbn [handle_all]; intros r Hown Hi Ho E; [by simplify_eq|]. destruct (handle e r) as [r1|] eqn:E1; [|done].
  assert (never_own h [e]) as H1' by (intros now pid m Hin; apply Hown; set_solver). assert (never_own h es) as H2' by (intros now pid m Hin; apply Hown; by right).
  eapply (IH r1); [done|by eapply handle_index|by eapply orphan_handle|done].
Qed.

(** A peer that leaves with an address requested of it: whatever happens afterwards,
    whoever offers it, that address is not learned.  [handleDonePeer] clears the set of
    the peer and not the common one. *)
Theorem lost_request p c h es r r' :
  routes_ok r -> peerCache (rt_state r) !! p = Some c -> h ∈ c -> never_own h es ->
  handle_all (EvDonePeer p :: es) r = Some r' -> h ∈ requested (rt_state r') /\ knownAddr r' !! h = None.
Proof.
  intros [O1 O2 O3 O4 O5 O6 O7 O8] Hc Hh Hown E. cbn in E. eapply orphan_for_ever in E as [E1 _ E3]; [done|done|exact O5|].
  split; cbn; [by eapply O6| |apply O8; by eapply O6]. intros q d [Hq Hd]%lookup_delete_Some Hhd. exact (O7 p q c d Hq Hc Hd h Hh Hhd).
Qed.

(** * An address goes from node to node *)

Lemma appendAddr_learns m r : routes_ok r -> knownAddr r !! DAddr_Hash m = None -> knownAddr (appendAddr m r) !! DAddr_Hash m = Some m.
Proof.
  intros [O1 O2 O3 O4 O5 O6 O7 O8] Hn. unfold appendAddr. cbn zeta. repeat case_match; cbn; rewrite ?lookup_delete_ne, ?lookup_insert_eq; try done.
  intros ->. match goal with E : last _ = Some _ |- _ => apply last_Some in E as [k E] end. assert (DAddr_Hash m ∈ knownList r) as [? ?]%O2; [|congruence].
  by rewrite H3; set_solver.
Qed.

Definition offer (h : Z) : list InvVect := [{| iv_Address := true; iv_Hash := h |}].

(** An offered address arrives.  A node [b], to which the node [a] offers an address
    that [b] neither knows nor has requested, asks for it; [a] answers with it; [b]
    then knows it, has nothing more outstanding than before, relays it, and hands the
    cipher to the network when the address is encrypted for [b]. *)
Theorem address_propagates time p q c m (a b : Routes) :
  routes_ok b -> peerCache (rt_state b) !! p = Some c -> index_empty b ->
  knownAddr a !! DAddr_Hash m = Some m -> knownAddr b !! DAddr_Hash m = None -> DAddr_Hash m ∉ requested (rt_state b) ->
  signature_only m = nil_err -> da_PID m ∈ peers (rt_state b) ->
  let b1 := handleInv p (offer (DAddr_Hash m)) b in
  let b2 := handleDAddr time p m b1 in
  outputs b1 = outputs b ++ [SendGetData p [DAddr_Hash m]] /\
  outputs (OnGetData q (offer (DAddr_Hash m)) a) = outputs a ++ [SendDAddr q m] /\
  outputs b2 = outputs b1 ++ RelayAddr (DAddr_Hash m) m :: (if bytes_Equal selfPID (da_Encode m) then [OnCipherAddr (da_PID m) (da_Cipher m)] else []) /\
  knownAddr b2 !! DAddr_Hash m = Some m /\ requested (rt_state b2) = requested (rt_state b) /\ routes_ok b2.
Proof.
  intros Hok Hc Hi Ha Hb Hq Hs Hp b1 b2. pose proof Hok as [_ _ _ _ _ O6 _ _].
  assert (b1 = emit (SendGetData p [DAddr_Hash m]) (on_state (fun s => s <| peerCache := <[ p := {[ DAddr_Hash m ]} ∪ c ]> (peerCache s) |> <| requested := {[ DAddr_Hash m ]} ∪ requested s |>) b)) as E1.
  { unfold b1, handleInv, offer. rewrite Hc. cbn. rewrite Hb, bool_decide_eq_false_2 by done. done. }
  assert (routes_ok b1) as Hok1 by (by apply handleInv_ok). split; [by rewrite E1|]. split; [unfold OnGetData, offer; cbn; by rewrite Ha|].
  assert (peerCache (rt_state b1) !! p = Some ({[ DAddr_Hash m ]} ∪ c)) as Hc1 by (rewrite E1; cbn; by rewrite lookup_insert_eq).
  destruct (take_requested_ok p _ (DAddr_Hash m) b1 Hok1 Hc1 ltac:(set_solver)) as (Hok2 & Hk2 & Hq2).
  assert (routes_ok b2) as Hokb by (by apply handleDAddr_ok). subst b2. revert Hokb. unfold handleDAddr. rewrite Hc1, bool_decide_eq_true_2 by set_solver. cbn [negb].
  set (r2 := on_state _ b1) in *. assert (verifyDAddr time m r2 = nil_err) as ->.
  { unfold verifyDAddr. revert Hs. unfold signature_only. destruct (DecodePoint (da_PID m)); [|done]. destruct (Verify _ _ _); [done|]. intros _.
    assert (addrIndex r2 = addrIndex b) as -> by (unfold r2; by rewrite E1). destruct (addrIndex b !! da_PID m) as [i|] eqn:Ei; [|done]. by rewrite (Hi _ _ Ei), lookup_empty. }
  cbn [failed]. assert (peers (rt_state r2) = peers (rt_state b)) as -> by (unfold r2; by rewrite E1). rewrite bool_decide_eq_true_2 by done. cbn [negb].
  assert (requested (rt_state r2) = requested (rt_state b)) as Hreq by (unfold r2; rewrite E1; cbn; set_solver).
  assert (outputs (appendAddr m r2) = outputs b1 ++ [RelayAddr (DAddr_Hash m) m]) as Ho by (unfold appendAddr; cbn zeta; by repeat case_match).
  pose proof (appendAddr_learns m r2 Hok2 Hk2) as Hl. pose proof (appendAddr_state m r2) as Hst. intros Hokb.
  set (r3 := appendAddr m r2) in *. clearbody r3. destruct (bytes_Equal _ _); cbn; rewrite Ho, Hst, <- ?app_assoc; done.
Qed.

(** * Outstanding announcements *)

(** In the channel, on a timer, and whether one is waited for. *)
Definition queue (r : Routes) : nat * nat * bool := (announces r, timers r, waiting r).

Definition queue_ok (r : Routes) : Prop := (announces r + timers r = if waiting r then 1 else 0)%nat.

Lemma queue_ok_ext r r' : queue r' = queue r -> queue_ok r -> queue_ok r'.
Proof. unfold queue, queue_ok. intros [= -> -> ->]. done. Qed.

Lemma appendAddr_queue m r : queue (appendAddr m r) = queue r.
Proof. unfold appendAddr. cbn zeta. by repeat case_match. Qed.

Lemma append_all_queue ms r : queue (foldl (fun r m => appendAddr m r) r ms) = queue r.
Proof. revert r. induction ms as [|m ms IH]; intros r; cbn [foldl]; [done|]. by rewrite IH, appendAddr_queue. Qed.

Lemma OnGetData_queue p invs r : queue (OnGetData p invs r) = queue r.
Proof. unfold OnGetData. revert r. induction invs as [|iv invs IH]; intros r; cbn [foldl]; [done|]. rewrite IH. by repeat case_match. Qed.

Lemma handleDAddr_queue time p m r : queue (handleDAddr time p m r) = queue r.
Proof. unfold handleDAddr. repeat case_match; first [reflexivity|apply (appendAddr_queue m (on_state _ r))]. Qed.

Lemma handleInv_queue p invs r : queue (handleInv p invs r) = queue r.
Proof. unfold handleInv. by repeat case_match. Qed.

Lemma peers_queue pids del r : queue (foldl drop_peer (init_index pids r) del) = queue r.
Proof.
  transitivity (queue (init_index pids r)).
  - generalize (init_index pids r). induction del as [|pid del IH]; intros r'; cbn [foldl]; [done|]. rewrite IH. unfold drop_peer. by case_match.
  - unfold init_index. revert r. induction pids as [|pid pids IH]; intros r; cbn [foldl]; [done|]. rewrite IH. by case_match.
Qed.

(** The request of the handler does not block: nothing is in the channel unless an
    announcement is waited for. *)
Lemma announceAddr_queue isCurrent r : queue_ok r -> exists r', announceAddr isCurrent r = Some r' /\ queue_ok r'.
Proof.
  unfold queue_ok, announceAddr, ask_announce. intros Hq. destruct isCurrent; [|by exists r]. cbn [negb]. destruct (waiting r) eqn:Ew; [exists r; by rewrite Ew|]. cbn.
  assert (announces r = 0%nat /\ timers r = 0%nat) as [-> E2] by lia. eexists. split; [done|]. cbn. by rewrite E2.
Qed.

(** The node is a producer whenever it announces. *)
Definition still_producer (e : Ev) (r : Routes) : Prop := match e with EvAnnounce _ => selfPID ∈ peers (rt_state r) | _ => True end.

Lemma handle_queue e r : queue_ok r -> still_producer e r -> exists r', handle e r = Some r' /\ queue_ok r'.
Proof.
  intros Hq Hp. destruct e as [p|p|p invs|time p m|pids isCurrent|p invs|isCurrent| |now]; cbn [handle].
  - by eexists.
  - by eexists.
  - eexists. split; [done|]. by eapply queue_ok_ext, Hq; apply handleInv_queue.
  - eexists. split; [done|]. by eapply queue_ok_ext, Hq; apply handleDAddr_queue.
  - unfold handlePeersMsg. cbn zeta. set (del := fst <$> _). set (r1 := on_state _ (foldl drop_peer _ _)).
    assert (queue_ok r1) as H1' by (eapply queue_ok_ext, Hq; exact (peers_queue pids del r)). clearbody r1.
    case_match; [by apply announceAddr_queue|by exists r1].
  - eexists. split; [done|]. by eapply queue_ok_ext, Hq; apply OnGetData_queue.
  - eexists. split; [done|]. unfold AnnounceAddr, ask_announce. unfold queue_ok in *. destruct (rt_started r); [|done]. destruct isCurrent; [|done]. cbn.
    destruct (waiting r) eqn:Ew; cbn; [by rewrite Ew|lia].
  - eexists. split; [done|]. unfold queue_ok in *. destruct (timers r) eqn:Et; [by rewrite Et|]. cbn. case_match; lia.
  - eexists. split; [done|]. cbn in Hp. unfold queue_ok in *. destruct (announces r) as [|k] eqn:Ea; [by rewrite Ea|]. unfold handleAnnounce. cbn zeta. cbn -[append_all_queue].
    rewrite bool_decide_eq_true_2 by done. rewrite announce_fold. destruct (waiting r) eqn:Ew; [|lia]. assert (k = 0%nat /\ timers r = 0%nat) as [-> E2] by lia.
    case_match; cbn -[queue_ok]; [cbn; rewrite ?Ea, ?Ew, ?E2; done|]. eapply queue_ok_ext; [apply append_all_queue|]. unfold queue_ok. cbn. rewrite ?Ea, ?E2. done.
Qed.

(** * The address book *)

(** The runs in which the node is a producer whenever it announces. *)
Fixpoint producer_run (es : list Ev) (r : Routes) : Prop :=
  match es with
  | [] => True
  | e :: es => still_producer e r /\ match handle e r with Some r' => producer_run es r' | None => True end
  end.

#[export] Instance still_producer_dec e r : Decision (still_producer e r).
Proof. unfold still_producer. destruct e; apply _. Defined.

#[export] Instance producer_run_dec es : forall r, Decision (producer_run es r).
Proof.
  induction es as [|e es IH]; intros r; cbn [producer_run]; [apply _|]. apply and_dec; [apply _|]. destruct (handle e r) as [r'|]; [apply IH|apply _].
Defined.

Lemma handle_all_queue es r : queue_ok r -> producer_run es r -> exists r', handle_all es r = Some r' /\ queue_ok r'.
Proof.
  revert r. induction es as [|e es IH]; cbn [handle_all producer_run]; intros r Hq Hp; [by exists r|]. destruct Hp as [Hp1 Hp2].
  destruct (handle_queue e r Hq Hp1) as (r1 & E1 & H1'). rewrite E1 in *. by apply IH.
Qed.

(** C32: The address book.  Whatever messages, timers and requests the handler takes
    once it is started, as long as its own announcements have new hashes: at most
    11,880 addresses are kept, exactly those on the list, each under its own hash; an
    address is asked of one peer at a time, and never one that is known.  If the node
    is a producer whenever it takes an announcement, the handler never blocks, and an
    announcement is outstanding, in the channel or on a timer, exactly while one is
    waited for, and only one. *)
Theorem routes_invariant es :
  (forall r, fresh_run es (Start NewRoutes) -> handle_all es (Start NewRoutes) = Some r ->
    NoDup (knownList r) /\ (forall h, h ∈ knownList r <-> is_Some (knownAddr r !! h)) /\ Z.of_nat (base.size (knownAddr r)) <= maxKnownAddrs /\
    (forall h m, knownAddr r !! h = Some m -> DAddr_Hash m = h) /\
    (forall p q c d h, peerCache (rt_state r) !! p = Some c -> peerCache (rt_state r) !! q = Some d -> h ∈ c -> h ∈ d -> p = q) /\
    (forall p c h, peerCache (rt_state r) !! p = Some c -> h ∈ c -> knownAddr r !! h = None)) /\
  (producer_run es (Start NewRoutes) ->
    exists r, handle_all es (Start NewRoutes) = Some r /\ (announces r + timers r = if waiting r then 1 else 0)%nat).
Proof.
  split; [|intros Hp; by apply handle_all_queue].
  intros r Hf E. pose proof (handle_all_ok es _ r NewRoutes_ok Hf E) as Hok. rewrite <- known_size by done. destruct Hok as [O1 O2 O3 O4 O5 O6 O7 O8].
  split; [done|]. split; [done|]. split; [done|]. split; [done|]. split.
  - intros p q c d h Hc Hd H1' H2'. destruct (decide (p = q)) as [|Hne]; [done|]. destruct (O7 p q c d Hne Hc Hd h H1' H2').
  - intros p c h Hc Hh. apply O8. by eapply O6.
Qed.
End routes_facts.

(** * A small instance *)
Module ToyRoutes.
#[export] Instance lib : ElaLib := Toy.lib.
#[export] Instance order : RangeOrder := list_range_order.

Definition data (m : DAddr) : bytes := da_Timestamp m :: da_Encode m.

#[export] Instance env : RoutesEnv := {|
  selfPID := [2; 1];
  routes_addr := [10; 0; 0; 1];
  routes_sign := fun d => [2; 1] ++ d;
  Encrypt := fun pk addr now => inl (now :: addr);
  DAddr_Hash := fun m => Zpos (encode (da_PID m ++ data m));
  DAddr_Data := data
|}.

(** An address of another producer for this one. *)
Definition addr (t : Z) : DAddr := {| da_PID := [2; 2]; da_Timestamp := t; da_Encode := [2; 1]; da_Cipher := [7]; da_Signature := [2; 2; t; 2; 1] |}.

Definition producers : list bytes := [[2; 1]; [2; 2]; [2; 3]].
Definition learn (t : Z) : list Ev := [EvInv 1 (offer (DAddr_Hash (addr t))); EvDAddr 0 1 (addr t)].

(** Two producers, a peer, an address learned, and the node's announcement. *)
Definition trace : list Ev := [EvPeers producers true; EvAnnounceAddr true; EvAnnounce 0; EvAnnounceAddr true; EvNewPeer 1] ++ learn 5 ++ [EvInv 1 (offer (DAddr_Hash (addr 6)))].
End ToyRoutes.
#[local] Existing Instances ToyRoutes.lib ToyRoutes.order ToyRoutes.env.

(** Three addresses are known: two of the node's own, and the one it has learned. *)
Lemma routes_invariant_witness : exists r, handle_all ToyRoutes.trace (Start NewRoutes) = Some r /\ length (knownList r) = 3%nat /\ NoDup (knownList r) /\
  waiting r = true /\ (announces r + timers r)%nat = 1%nat.
Proof.
  destruct (handle_all ToyRoutes.trace (Start NewRoutes)) as [r|] eqn:E; [|by vm_compute in E]. exists r. split; [done|]. split; [vm_compute in E; by injection E as <-|].
  assert (fresh_run ToyRoutes.trace (Start NewRoutes)) as Hf.
  { apply (bool_decide_unpack _). vm_compute. exact I. }
  split; [exact (proj1 (proj1 (routes_invariant _) r Hf E))|].
  assert (waiting r = true) as Hw by (vm_compute in E; by injection E as <-). split; [exact Hw|].
  assert (producer_run ToyRoutes.trace (Start NewRoutes)) as Hp by (apply (bool_decide_unpack _); vm_compute; exact I).
  destruct (proj2 (routes_invariant _) Hp) as (r' & E' & Hq). rewrite E in E'. injection E' as <-. rewrite Hw in Hq. exact Hq.
Defined.

(** Peer 1 leaves after it was asked for the address of time 6; peer 2 offers it and
    sends it in vain. *)
Lemma lost_request_witness : exists r r' c,
  handle_all ToyRoutes.trace (Start NewRoutes) = Some r /\ peerCache (rt_state r) !! 1 = Some c /\ DAddr_Hash (ToyRoutes.addr 6) ∈ c /\
  handle_all [EvDonePeer 1; EvNewPeer 2; EvInv 2 (offer (DAddr_Hash (ToyRoutes.addr 6))); EvDAddr 0 2 (ToyRoutes.addr 6)] r = Some r' /\
  knownAddr r' !! DAddr_Hash (ToyRoutes.addr 6) = None.
Proof.
  pose (h := DAddr_Hash (ToyRoutes.addr 6)).
  assert (match handle_all ToyRoutes.trace (Start NewRoutes) with Some r => match peerCache (rt_state r) !! 1 with Some c => bool_decide (h ∈ c) | None => false end | None => false end = true) as Hd by (vm_compute; reflexivity).
  destruct (handle_all ToyRoutes.trace (Start NewRoutes)) as [r|] eqn:E; [|done]. destruct (peerCache (rt_state r) !! 1) as [c|] eqn:Ec; [|done]. apply bool_decide_eq_true in Hd as Hh.
  assert (routes_ok r) as Hok by (eapply (handle_all_ok ToyRoutes.trace); [exact NewRoutes_ok|apply (bool_decide_unpack _); vm_compute; exact I|exact E]).
  pose (es := [EvNewPeer 2; EvInv 2 (offer h); EvDAddr 0 2 (ToyRoutes.addr 6)]). destruct (handle_all (EvDonePeer 1 :: es) r) as [r'|] eqn:E'.
  - exists r, r', c. repeat (split; [done|]). eapply (proj2 (lost_request 1 c h es r r' Hok Ec Hh _ E')). Unshelve.
    intros now pid m Hin. unfold es in Hin. rewrite !elem_of_cons, elem_of_nil in Hin. intuition congruence.
  - exfalso. revert E'. cbn. done.
Defined.

(** Not a producer, the node is asked to announce its address twice within 30 seconds
    while a timer is due; then it becomes one.  The handler sends to its own full
    channel and never returns. *)
Definition blocking_run : list Ev :=
  [EvAnnounceAddr true; EvAnnounce 0; EvAnnounceAddr true; EvAnnounce (10 * Second); EvTimer; EvAnnounceAddr true; EvAnnounce (31 * Second); EvPeers ToyRoutes.producers true].

Theorem handler_blocks : exists r, handle_all (take 7 blocking_run) (Start NewRoutes) = Some r /\ handle_all blocking_run (Start NewRoutes) = None.
Proof. destruct (handle_all (take 7 blocking_run) (Start NewRoutes)) as [r|] eqn:E; [|by vm_compute in E]. exists r. split; [done|]. by vm_compute. Qed.
