(* ===== verification/Rlp.v ===== *)
(** * [rlp/encode.go], [rlp/raw.go]: the RLP encoding

    Headers, blocks and transactions are hashed and sent in RLP.  The encoder
    does not know the size of a list before its elements are written, so it
    collects the string data in one buffer, keeps the list headers aside and
    merges the two at the end ([encbuf]); the reference [rlp] is the recursive
    definition of the format.  The decoder's scanner is [readKind].  Sizes are
    64-bit. *)
From S2P Require Import Prelude.

(** What the writers built by reflection emit: a byte string ([encodeString])
    or a list of values. *)
Inductive item :=
| Str (b : bytes)
| Lst (l : list item).

(** Induction over the nested lists. *)
Section item_ind.
Context (P : item -> Prop) (HS : forall b, P (Str b)) (HL : forall l, Forall P l -> P (Lst l)).
Fixpoint item_induction (i : item) : P i :=
  match i with
  | Str b => HS b
  | Lst l => HL l ((fix go l := match l return Forall P l with
                     | [] => Forall_nil_2 _
                     | x :: l => Forall_cons_2 _ _ _ (item_induction x) (go l)
                     end) l)
  end.
End item_ind.

(** ** Integers *)

(** [putint]: the bytes it writes; their number is the size it returns. *)
Definition putint (i : Z) : bytes :=
  let byte k := u8 (Z.shiftr i k) in
  if i <? 2 ^ 8 then [byte 0]
  else if i <? 2 ^ 16 then [byte 8; byte 0]
  else if i <? 2 ^ 24 then [byte 16; byte 8; byte 0]
  else if i <? 2 ^ 32 then [byte 24; byte 16; byte 8; byte 0]
  else if i <? 2 ^ 40 then [byte 32; byte 24; byte 16; byte 8; byte 0]
  else if i <? 2 ^ 48 then [byte 40; byte 32; byte 24; byte 16; byte 8; byte 0]
  else if i <? 2 ^ 56 then [byte 48; byte 40; byte 32; byte 24; byte 16; byte 8; byte 0]
  else [byte 56; byte 48; byte 40; byte 32; byte 24; byte 16; byte 8; byte 0].

(** [intsize]: the loop shifts [i] until it is zero; eight rounds empty a
    [uint64]. *)
Fixpoint intsize_loop (fuel : nat) (size i : Z) : Z :=
  match fuel with
  | O => size
  | S fuel => let i := Z.shiftr i 8 in if i =? 0 then size else intsize_loop fuel (size + 1) i
  end.

Definition intsize (i : Z) : Z := intsize_loop 8 1 i.

Definition headsize (size : Z) : Z := if size <? 56 then 1 else 1 + intsize size.

Definition puthead (smalltag largetag size : Z) : bytes :=
  if size <? 56 then [u8 (smalltag + u8 size)]
  else let s := putint size in u8 (largetag + u8 (zlen s)) :: s.

Definition ListSize (contentSize : Z) : Z := u64 (headsize contentSize + contentSize).

(** ** The encoding buffer *)
Record listhead := { offset : Z; lh_size : Z }.

Record encbuf := { str : bytes; lheads : list listhead; lhsize : Z }.

#[export] Instance encbuf_eta : Eta encbuf :=
  fun w => {| str := str w; lheads := lheads w; lhsize := lhsize w |}.

Definition new_encbuf : encbuf := {| str := []; lheads := []; lhsize := 0 |}.

Definition encodeStringHeader (size : Z) (w : encbuf) : encbuf :=
  if size <? 56 then w <| str := str w ++ [u8 (128 + u8 size)] |>
  else let s := putint size in
       w <| str := str w ++ u8 (183 + u8 (zlen s)) :: s |>.

Definition encodeString (b : bytes) (w : encbuf) : encbuf :=
  match b with
  | [x] => if x <=? 127 then w <| str := str w ++ [x] |>
           else let w := encodeStringHeader (zlen b) w in w <| str := str w ++ b |>
  | _ => let w := encodeStringHeader (zlen b) w in w <| str := str w ++ b |>
  end.

(** [list]: the pointer it returns is the index of the new header. *)
Definition list_start (w : encbuf) : nat * encbuf :=
  (length (lheads w),
   w <| lheads := lheads w ++ [{| offset := zlen (str w); lh_size := lhsize w |}] |>).

Definition size (w : encbuf) : Z := zlen (str w) + lhsize w.

Definition listEnd (lh : nat) (w : encbuf) : encbuf :=
  match lheads w !! lh with
  | None => w
  | Some h =>
      let s := size w - offset h - lh_size h in
      let w := w <| lheads := <[ lh := {| offset := offset h; lh_size := s |} ]> (lheads w) |> in
      if s <? 56 then w <| lhsize := lhsize w + 1 |>
      else w <| lhsize := lhsize w + (1 + intsize s) |>
  end.

(** The writer of a value: [makeSliceWriter], [makeStructWriter], [writeBytes]. *)
Fixpoint write (i : item) (w : encbuf) : encbuf :=
  match i with
  | Str b => encodeString b w
  | Lst l => let '(lh, w) := list_start w in listEnd lh (foldl (fun w i => write i w) w l)
  end.

(** [toBytes]: the loop over the list headers. *)
Fixpoint merge_heads (heads : list listhead) (strpos : Z) (s : bytes) : bytes :=
  match heads with
  | [] => drop (Z.to_nat strpos) s
  | h :: heads =>
      take (Z.to_nat (offset h - strpos)) (drop (Z.to_nat strpos) s) ++
      puthead 192 247 (lh_size h) ++ merge_heads heads (offset h) s
  end.

Definition toBytes (w : encbuf) : bytes := merge_heads (lheads w) 0 (str w).

(** [EncodeToBytes] of a value. *)
Definition EncodeToBytes (i : item) : bytes := toBytes (write i new_encbuf).

(** ** Scanning *)
Inductive Kind := Byte | String_ | List_.

#[export] Instance Kind_eq_dec : EqDecision Kind.
Proof. solve_decision. Defined.

Definition ErrUnexpectedEOF : string := "unexpected EOF".
Definition ErrCanonSize : string := "rlp: non-canonical size information".
Definition ErrValueTooLarge : string := "rlp: value size exceeds available input length".
Definition ErrExpectedString : string := "rlp: expected String or Byte".
Definition ErrExpectedList : string := "rlp: expected List".

(** [b[0]<<8(n-1) | ... | b[n-1]]. *)
Fixpoint shift_or (l : bytes) : Z :=
  match l with
  | [] => 0
  | b :: l => Z.lor (Z.shiftl b (8 * zlen l)) (shift_or l)
  end.

Definition readSize (b : bytes) (slen : Z) : Z + string :=
  if zlen b <? slen then inr ErrUnexpectedEOF
  else
    let s := shift_or (take (Z.to_nat slen) b) in
    if (s <? 56) || (default 0 (b !! 0%nat) =? 0) then inr ErrCanonSize else inl s.

(** The switch of [readKind] on the first byte. *)
Definition readTag (b : Z) (tl : bytes) : (Kind * Z * Z) + string :=
  if b <? 128 then inl (Byte, 0, 1)
  else if b <? 184 then
    let contentsize := u8 (b - 128) in
    if (contentsize =? 1) && (1 <? zlen (b :: tl)) && (default 0 (tl !! 0%nat) <? 128)
    then inr ErrCanonSize else inl (String_, 1, contentsize)
  else if b <? 192 then
    match readSize tl (u8 (b - 183)) with
    | inl s => inl (String_, u8 (b - 183) + 1, s)
    | inr e => inr e
    end
  else if b <? 248 then inl (List_, 1, u8 (b - 192))
  else
    match readSize tl (u8 (b - 247)) with
    | inl s => inl (List_, u8 (b - 247) + 1, s)
    | inr e => inr e
    end.

(** [(kind, tagsize, contentsize)] or the error. *)
Definition readKind (buf : bytes) : (Kind * Z * Z) + string :=
  match buf with
  | [] => inr ErrUnexpectedEOF
  | b :: tl =>
      match readTag b tl with
      | inr e => inr e
      | inl (k, tagsize, contentsize) =>
          if u64 (zlen buf - tagsize) <? contentsize then inr ErrValueTooLarge
          else inl (k, tagsize, contentsize)
      end
  end.

(** [(kind, content, rest)] or the error. *)
Definition Split (b : bytes) : (Kind * bytes * bytes) + string :=
  match readKind b with
  | inr e => inr e
  | inl (k, ts, cs) =>
      inl (k, take (Z.to_nat cs) (drop (Z.to_nat ts) b), drop (Z.to_nat (ts + cs)) b)
  end.

Definition SplitString (b : bytes) : (bytes * bytes) + string :=
  match Split b with
  | inr e => inr e
  | inl (k, content, rest) => if decide (k = List_) then inr ErrExpectedString else inl (content, rest)
  end.

Definition SplitList (b : bytes) : (bytes * bytes) + string :=
  match Split b with
  | inr e => inr e
  | inl (k, content, rest) => if decide (k = List_) then inl (content, rest) else inr ErrExpectedList
  end.

(** The loop of [CountValues]; every round consumes at least one byte, so
    [len(b)] rounds are enough. *)
Fixpoint count_values (fuel : nat) (i : Z) (b : bytes) : Z + string :=
  match b, fuel with
  | [], _ => inl i
  | _, O => inr "out of fuel"
  | _, S fuel =>
      match readKind b with
      | inr e => inr e
      | inl (_, tagsize, size) => count_values fuel (i + 1) (drop (Z.to_nat (tagsize + size)) b)
      end
  end.

Definition CountValues (b : bytes) : Z + string := count_values (length b) 0 b.

(** ** The reference encoding *)
Fixpoint be (n : nat) (x : Z) : bytes :=
  match n with O => [] | S n => Z.shiftr x (8 * Z.of_nat n) mod 256 :: be n x end.

Definition be_size (x : Z) : nat := Z.to_nat (Z.log2 x / 8 + 1).

(** A header: the size in the tag if it is below 56, else the length of its
    minimal big-endian form in the tag and that form. *)
Definition head (tag n : Z) : bytes :=
  if n <? 56 then [tag + n] else (tag + 55 + Z.of_nat (be_size n)) :: be (be_size n) n.

Fixpoint rlp (i : item) : bytes :=
  match i with
  | Str b => match b with
             | [x] => if x <? 128 then b else head 128 1 ++ b
             | _ => head 128 (zlen b) ++ b
             end
  | Lst l => let body := concat (rlp <$> l) in head 192 (zlen body) ++ body
  end.

Fixpoint wf_item (i : item) : Prop :=
  match i with
  | Str b => wf_bytes b
  | Lst l => fold_right (fun i P => wf_item i /\ P) True l
  end.

(** ** Lemmas on integers *)
Lemma be_length n x : length (be n x) = n.
Proof. induction n; cbn; congruence. Qed.

Lemma be_wf n x : wf_bytes (be n x).
Proof. induction n; cbn; constructor; [apply Z.mod_pos_bound; lia|done]. Qed.

Lemma be_size_range k n : 2 ^ (8 * (k - 1)) <= n < 2 ^ (8 * k) -> 1 <= k -> be_size n = Z.to_nat k.
Proof.
  intros Hn Hk. unfold be_size. f_equal.
  assert (0 < 2 ^ (8 * (k - 1))) by (apply Z.pow_pos_nonneg; lia).
  assert (8 * (k - 1) <= Z.log2 n) by (apply Z.log2_le_pow2; lia).
  assert (Z.log2 n < 8 * k) by (apply Z.log2_lt_pow2; lia). div_lia.
Qed.

Lemma be_size_bound n : 0 < n < 2 ^ 64 -> (1 <= be_size n <= 8)%nat.
Proof.
  intros Hn. unfold be_size. pose proof (Z.log2_nonneg n).
  assert (Z.log2 n < 64) by (apply Z.log2_lt_pow2; lia). div_lia.
Qed.

Lemma putint_be i : 0 < i < 2 ^ 64 -> putint i = be (be_size i) i.
Proof.
  intros Hi. unfold putint.
  repeat match goal with |- context [?a <? ?b] => destruct (Z.ltb_spec a b) end;
    match goal with
    | |- ?l = _ => let k := eval cbv in (Z.of_nat (length l)) in
                   rewrite (be_size_range k) by lia; reflexivity
    end.
Qed.

Lemma intsize_loop_spec fuel s i :
  0 < i < 2 ^ (8 * Z.of_nat fuel) -> intsize_loop fuel s i = s + Z.log2 i / 8.
Proof.
  revert s i. induction fuel as [|fuel IH]; intros s i Hi; [cbn in Hi; lia|]. cbn [intsize_loop].
  rewrite Z.shiftr_div_pow2 by lia. destruct (Z.eqb_spec (i / 2 ^ 8) 0) as [E|E].
  - assert (Z.log2 i < 8) by (apply Z.log2_lt_pow2; div_lia). pose proof (Z.log2_nonneg i).
    rewrite Z.div_small by lia. lia.
  - assert (0 < i / 2 ^ 8) by div_lia. rewrite IH.
    + rewrite <- Z.shiftr_div_pow2, Z.log2_shiftr by lia.
      assert (8 <= Z.log2 i) by (apply Z.log2_le_pow2; div_lia). rewrite Z.max_r by lia. div_lia.
    + split; [done|]. replace (8 * Z.of_nat (S fuel)) with (8 + 8 * Z.of_nat fuel) in Hi by lia.
      rewrite Z.pow_add_r in Hi by lia. apply Z.div_lt_upper_bound; lia.
Qed.

Lemma intsize_be i : 0 < i < 2 ^ 64 -> intsize i = Z.of_nat (be_size i).
Proof.
  intros Hi. unfold intsize. rewrite intsize_loop_spec by done. unfold be_size.
  pose proof (Z.log2_nonneg i). div_lia.
Qed.

Lemma puthead_head tag n :
  0 <= tag <= 192 -> 0 <= n < 2 ^ 64 -> puthead tag (tag + 55) n = head tag n.
Proof.
  intros Ht Hn. unfold puthead, head. destruct (Z.ltb_spec n 56).
  - rewrite !u8_id; [done|lia|]. rewrite u8_id; lia.
  - cbn zeta. rewrite putint_be by lia. pose proof (be_size_bound n).
    unfold zlen. rewrite be_length. rewrite (u8_id (Z.of_nat _)) by lia. rewrite u8_id by lia. done.
Qed.

Lemma headsize_head tag n : 0 <= n < 2 ^ 64 -> headsize n = zlen (head tag n).
Proof.
  intros Hn. unfold headsize, head. destruct (Z.ltb_spec n 56); [done|].
  rewrite intsize_be by lia. rewrite zlen_cons. unfold zlen. rewrite be_length. lia.
Qed.

Lemma encodeString_rlp b w : zlen b < 2 ^ 64 -> encodeString b w = w <| str := str w ++ rlp (Str b) |>.
Proof.
  intros Hb.
  assert (Hh : forall b, zlen b < 2 ^ 64 ->
    (encodeStringHeader (zlen b) w) <| str := str (encodeStringHeader (zlen b) w) ++ b |> =
    w <| str := str w ++ head 128 (zlen b) ++ b |>).
  { clear. intros b Hb. pose proof (zlen_nonneg b).
    assert (encodeStringHeader (zlen b) w = w <| str := str w ++ head 128 (zlen b) |>) as ->.
    { rewrite <- puthead_head by lia. unfold encodeStringHeader, puthead. by case_match. }
    cbn. by rewrite <- app_assoc. }
  destruct b as [|x [|y b]]; cbn [encodeString rlp]; [by apply Hh| |by apply Hh].
  destruct (Z.leb_spec x 127), (Z.ltb_spec x 128); try lia; [done|by apply Hh].
Qed.

(** ** The encoding buffer *)

(** The string data of a value, the sizes of its list headers and the headers
    with their offsets when its data starts at [off]. *)
Fixpoint sdata (i : item) : bytes :=
  match i with Str _ => rlp i | Lst l => concat (sdata <$> l) end.

Fixpoint hsize (i : item) : Z :=
  match i with
  | Str _ => 0
  | Lst l => headsize (zlen (concat (rlp <$> l))) + foldr Z.add 0 (hsize <$> l)
  end.

Fixpoint heads (off : Z) (i : item) : list listhead :=
  match i with
  | Str _ => []
  | Lst l => {| offset := off; lh_size := zlen (concat (rlp <$> l)) |} ::
             (fix go off l := match l with
                              | [] => []
                              | x :: l => heads off x ++ go (off + zlen (sdata x)) l
                              end) off l
  end.

Fixpoint heads_list (off : Z) (l : list item) : list listhead :=
  match l with [] => [] | x :: l => heads off x ++ heads_list (off + zlen (sdata x)) l end.

Lemma heads_Lst off l :
  heads off (Lst l) = {| offset := off; lh_size := zlen (concat (rlp <$> l)) |} :: heads_list off l.
Proof. done. Qed.

Lemma zlen_concat_rlp l x : x ∈ l -> zlen (rlp x) <= zlen (concat (rlp <$> l)).
Proof.
  induction l as [|y l IH]; [by intros ?%elem_of_nil|]. cbn. rewrite zlen_app.
  pose proof (zlen_nonneg (rlp y)). pose proof (zlen_nonneg (concat (rlp <$> l))).
  intros [->|Hx]%elem_of_cons; [lia|]. specialize (IH Hx). lia.
Qed.

Lemma zlen_rlp_Lst l : zlen (concat (rlp <$> l)) < zlen (rlp (Lst l)).
Proof.
  cbn. rewrite zlen_app. unfold head. case_match; rewrite zlen_cons; [unfold zlen at 2; cbn; lia|].
  pose proof (zlen_nonneg (be (be_size (zlen (concat (rlp <$> l)))) (zlen (concat (rlp <$> l))))). lia.
Qed.

Lemma zlen_concat {A} (f : item -> list A) l : zlen (concat (f <$> l)) = foldr Z.add 0 ((fun i => zlen (f i)) <$> l).
Proof. induction l as [|x l IH]; [done|]. cbn. rewrite zlen_app. by rewrite IH. Qed.

Lemma zlen_rlp i : zlen (rlp i) < 2 ^ 64 -> zlen (rlp i) = zlen (sdata i) + hsize i.
Proof.
  induction i as [b|l IH] using item_induction; intros Hi; [cbn; lia|].
  pose proof (zlen_rlp_Lst l) as Hlt. pose proof (zlen_nonneg (concat (rlp <$> l))).
  cbn [rlp sdata hsize] in *. rewrite zlen_app, <- headsize_head by lia.
  assert (Hl : zlen (concat (rlp <$> l)) = zlen (concat (sdata <$> l)) + foldr Z.add 0 (hsize <$> l)); [|lia].
  rewrite !zlen_concat.
  assert (Hb : forall x, x ∈ l -> zlen (rlp x) < 2 ^ 64) by (intros x Hx%zlen_concat_rlp; lia).
  clear Hi Hlt H. induction IH as [|x l Hx _ IHl]; [done|]. cbn. rewrite Hx by (apply Hb; left).
  rewrite IHl by (intros; apply Hb; by right). lia.
Qed.

Lemma zlen_concat_split l :
  zlen (rlp (Lst l)) < 2 ^ 64 ->
  zlen (concat (rlp <$> l)) = zlen (concat (sdata <$> l)) + foldr Z.add 0 (hsize <$> l).
Proof.
  intros Hl. pose proof (zlen_rlp (Lst l) Hl) as E. pose proof (zlen_rlp_Lst l).
  pose proof (zlen_nonneg (concat (rlp <$> l))).
  cbn [rlp sdata hsize] in E. rewrite zlen_app, <- headsize_head in E by lia. lia.
Qed.

(** What a value adds to the buffer. *)
Lemma write_exact i w :
  zlen (rlp i) < 2 ^ 64 ->
  write i w = {| str := str w ++ sdata i; lheads := lheads w ++ heads (zlen (str w)) i;
                 lhsize := lhsize w + hsize i |}.
Proof.
  revert w. induction i as [b|l IH] using item_induction; intros w Hi.
  { cbn [write]. rewrite encodeString_rlp.
    - destruct w. cbn. by rewrite app_nil_r, Z.add_0_r.
    - destruct b as [|x [|y b]]; cbn in *; try done; rewrite zlen_app in Hi;
        match goal with H : zlen ?h + _ < _ |- _ => pose proof (zlen_nonneg h) end; lia. }
  assert (Hfold : forall w, foldl (fun w i => write i w) w l =
    {| str := str w ++ concat (sdata <$> l); lheads := lheads w ++ heads_list (zlen (str w)) l;
       lhsize := lhsize w + foldr Z.add 0 (hsize <$> l) |}).
  { assert (Hb : forall x, x ∈ l -> zlen (rlp x) < 2 ^ 64).
    { intros x Hx%zlen_concat_rlp. pose proof (zlen_rlp_Lst l). lia. }
    clear Hi. induction IH as [|x l Hx _ IHl]; intros u; cbn [foldl].
    - destruct u. cbn. by rewrite !app_nil_r, Z.add_0_r.
    - rewrite Hx by (apply Hb; left). rewrite IHl by (intros; apply Hb; by right). cbn.
      rewrite zlen_app, <- !app_assoc. f_equal. lia. }
  set (w1 := w <| lheads := lheads w ++ [{| offset := zlen (str w); lh_size := lhsize w |}] |>).
  change (write (Lst l) w) with (listEnd (length (lheads w)) (foldl (fun w i => write i w) w1 l)).
  rewrite Hfold. unfold listEnd. cbn [lheads].
  assert (E : (lheads w1 ++ heads_list (zlen (str w1)) l) !! length (lheads w) =
    Some {| offset := zlen (str w); lh_size := lhsize w |}).
  { unfold w1. cbn. rewrite <- app_assoc. cbn. apply list_lookup_middle. done. }
  rewrite E. unfold size. cbn [offset lh_size str lhsize].
  assert (Hs : zlen (str w1 ++ concat (sdata <$> l)) + (lhsize w1 + foldr Z.add 0 (hsize <$> l))
    - zlen (str w) - lhsize w = zlen (concat (rlp <$> l))).
  { rewrite zlen_app, zlen_concat_split by done. unfold w1. cbn. lia. }
  rewrite Hs. rewrite heads_Lst. cbn [sdata hsize].
  unfold headsize, w1. cbn [str lheads lhsize]. cbn. rewrite <- app_assoc. cbn.
  rewrite insert_app_r_alt by done. rewrite Nat.sub_diag. cbn.
  destruct (zlen (concat (rlp <$> l)) <? 56); cbn; f_equal; lia.
Qed.

(** ** Merging the headers *)
Definition heads_from (o : Z) (hs : list listhead) : Prop :=
  match hs with [] => True | h :: _ => o <= offset h end.

Lemma merge_advance hs p n s :
  0 <= p -> heads_from (p + zlen n) hs -> take (length n) (drop (Z.to_nat p) s) = n ->
  merge_heads hs p s = n ++ merge_heads hs (p + zlen n) s.
Proof.
  intros Hp Hf Hn. set (k := length n) in *. assert (Hk : zlen n = Z.of_nat k) by done.
  rewrite Hk in *. destruct hs as [|h hs]; cbn [merge_heads].
  - rewrite <- (take_drop k (drop (Z.to_nat p) s)), Hn. f_equal.
    rewrite drop_drop. f_equal. lia.
  - cbn in Hf.
    replace (Z.to_nat (offset h - p)) with (k + Z.to_nat (offset h - (p + Z.of_nat k)))%nat by lia.
    rewrite <- take_take_drop, Hn, drop_drop, <- app_assoc.
    replace (Z.to_nat (p + Z.of_nat k)) with (Z.to_nat p + k)%nat by lia. done.
Qed.

Lemma heads_from_heads off i rest :
  heads_from (off + zlen (sdata i)) rest -> heads_from off (heads off i ++ rest).
Proof.
  destruct i; cbn; [|lia]. intros Hr. destruct rest; [done|]. cbn in *.
  match goal with H : off + zlen ?x <= _ |- _ => pose proof (zlen_nonneg x) end. lia.
Qed.

Lemma heads_from_list off l rest :
  heads_from (off + zlen (concat (sdata <$> l))) rest -> heads_from off (heads_list off l ++ rest).
Proof.
  revert off. induction l as [|x l IH]; intros off Hr; cbn in *.
  { destruct rest; [done|]. cbn in *. unfold zlen in Hr. cbn in Hr. lia. }
  rewrite <- app_assoc. apply heads_from_heads, IH. rewrite zlen_app in Hr. by rewrite <- Z.add_assoc.
Qed.

(** Merging emits the encoding of the value whose data comes next. *)
Lemma merge_item i off rest s post :
  0 <= off -> drop (Z.to_nat off) s = sdata i ++ post -> zlen (rlp i) < 2 ^ 64 ->
  heads_from (off + zlen (sdata i)) rest ->
  merge_heads (heads off i ++ rest) off s = rlp i ++ merge_heads rest (off + zlen (sdata i)) s.
Proof.
  revert off rest post. induction i as [b|l IH] using item_induction; intros off rest post Ho Hs Hi Hr.
  { cbn [heads app sdata] in *. apply merge_advance; [done..|]. rewrite Hs. apply take_app_length. }
  assert (Hlist : forall off rest post, 0 <= off -> drop (Z.to_nat off) s = concat (sdata <$> l) ++ post ->
    heads_from (off + zlen (concat (sdata <$> l))) rest ->
    merge_heads (heads_list off l ++ rest) off s =
    concat (rlp <$> l) ++ merge_heads rest (off + zlen (concat (sdata <$> l))) s).
  { assert (Hb : forall x, x ∈ l -> zlen (rlp x) < 2 ^ 64).
    { intros x Hx%zlen_concat_rlp. pose proof (zlen_rlp_Lst l). lia. }
    clear -IH Hb. induction IH as [|x l Hx _ IHl]; intros off rest post Ho Hs Hr; cbn in *.
    { by rewrite Z.add_0_r. }
    pose proof (zlen_nonneg (sdata x)). rewrite <- !app_assoc in *. rewrite zlen_app, Z.add_assoc in *.
    rewrite (Hx off _ (concat (sdata <$> l) ++ post)); [|done|done|apply Hb; left|by apply heads_from_list].
    f_equal. apply (IHl ltac:(intros; apply Hb; by right) _ _ post); [lia| |done].
    rewrite Z2Nat.inj_add, <- drop_drop, Hs by lia. unfold zlen. rewrite Nat2Z.id. apply drop_app_length. }
  rewrite heads_Lst. cbn [app merge_heads offset lh_size]. rewrite Z.sub_diag. cbn [take Z.to_nat app].
  pose proof (zlen_rlp_Lst l). pose proof (zlen_nonneg (concat (rlp <$> l))).
  rewrite (puthead_head 192) by lia. cbn [rlp sdata] in *. rewrite <- app_assoc.
  by rewrite (Hlist off rest post).
Qed.

Lemma EncodeToBytes_rlp (i : item) : zlen (rlp i) < 2 ^ 64 -> EncodeToBytes i = rlp i.
Proof.
  intros Hi. unfold EncodeToBytes, toBytes. rewrite write_exact by done. cbn [str lheads new_encbuf app].
  rewrite <- (app_nil_r (heads _ i)).
  rewrite (merge_item i _ [] _ []); [|done|by rewrite app_nil_r|done|done].
  cbn [merge_heads]. unfold zlen. cbn [length]. rewrite Z.add_0_l, Nat2Z.id, drop_all. apply app_nil_r.
Qed.

(** The slice of [size] bytes that [toBytes] copies into is filled exactly. *)
Lemma toBytes_fills (i : item) : zlen (rlp i) < 2 ^ 64 -> zlen (EncodeToBytes i) = size (write i new_encbuf).
Proof. intros Hi. rewrite EncodeToBytes_rlp, zlen_rlp, write_exact by done. by unfold size. Qed.

(** ** The scanner *)

(** The only encoding of a value of kind [k] with content [c]. *)
Definition encoding (k : Kind) (c : bytes) : bytes :=
  match k with
  | Byte => c
  | String_ => head 128 (zlen c) ++ c
  | List_ => head 192 (zlen c) ++ c
  end.

Definition single_byte (c : bytes) : bool := match c with [x] => x <? 128 | _ => false end.

Definition kind_content (k : Kind) (c : bytes) : Prop :=
  match k with
  | Byte => single_byte c = true
  | String_ => single_byte c = false
  | List_ => True
  end.

Lemma lor_shiftl a b n : 0 <= n -> 0 <= b < 2 ^ n -> Z.lor (Z.shiftl a n) b = a * 2 ^ n + b.
Proof.
  intros Hn Hb.
  assert (Hz : Z.land (Z.shiftl a n) b = 0).
  { apply Z.bits_inj'. intros m Hm. rewrite Z.land_spec, Z.bits_0, Z.shiftl_spec by done.
    destruct (Z.lt_ge_cases m n).
    - rewrite Z.testbit_neg_r by lia. done.
    - rewrite <- (Z.mod_small b (2 ^ n)), Z.mod_pow2_bits_high, andb_false_r by lia. done. }
  rewrite <- Z.lxor_lor, <- Z.add_nocarry_lxor by done. rewrite Z.shiftl_mul_pow2 by done. done.
Qed.

Lemma shift_or_bound l : wf_bytes l -> 0 <= shift_or l < 2 ^ (8 * zlen l).
Proof.
  induction 1 as [|b l Hb _ IH]; cbn [shift_or]; [done|]. pose proof (zlen_nonneg l). cbn in Hb.
  rewrite lor_shiftl by lia. rewrite zlen_cons.
  replace (8 * (zlen l + 1)) with (8 * zlen l + 8) by lia. rewrite Z.pow_add_r by lia. nia.
Qed.

Lemma shift_or_cons b l : wf_bytes l -> shift_or (b :: l) = b * 2 ^ (8 * zlen l) + shift_or l.
Proof.
  intros Hl. cbn. pose proof (zlen_nonneg l). by rewrite lor_shiftl by (lia || by apply shift_or_bound).
Qed.

Lemma shift_or_be n x : 0 <= x -> shift_or (be n x) = x mod 2 ^ (8 * Z.of_nat n).
Proof.
  intros Hx. induction n as [|n IH]; [cbn; by rewrite Z.mod_1_r|].
  cbn [be]. rewrite shift_or_cons, IH by apply be_wf. unfold zlen. rewrite be_length.
  rewrite Z.shiftr_div_pow2 by lia.
  replace (8 * Z.of_nat (S n)) with (8 * Z.of_nat n + 8) by lia.
  rewrite Z.pow_add_r, Z.rem_mul_r by lia. change (2 ^ 8) with 256. lia.
Qed.

Lemma be_mod n k x : (n <= k)%nat -> be n x = be n (x mod 2 ^ (8 * Z.of_nat k)).
Proof.
  intros Hk. induction n as [|n IH]; [done|]. cbn [be]. f_equal; [|apply IH; lia].
  rewrite !Z.shiftr_div_pow2 by lia. apply Z.bits_inj'. intros m Hm.
  change 256 with (2 ^ 8). rewrite <- !Z.shiftr_div_pow2 by lia.
  destruct (Z.lt_ge_cases m 8).
  - rewrite !Z.mod_pow2_bits_low, !Z.shiftr_spec by lia. rewrite Z.mod_pow2_bits_low by lia. done.
  - by rewrite !Z.mod_pow2_bits_high by lia.
Qed.

Lemma be_shift_or l : wf_bytes l -> be (length l) (shift_or l) = l.
Proof.
  induction 1 as [|b l Hb Hl IH]; [done|]. pose proof (shift_or_bound l Hl) as Hs.
  rewrite shift_or_cons by done. cbn [length be]. cbn in Hb. f_equal.
  - rewrite Z.shiftr_div_pow2 by lia. change (Z.of_nat (length l)) with (zlen l).
    rewrite Z.div_add_l, Z.div_small, Z.add_0_r by lia. apply Z.mod_small. lia.
  - rewrite (be_mod _ (length l)) by (lia || nia). change (Z.of_nat (length l)) with (zlen l).
    rewrite Z.add_comm, Z.mod_add, Z.mod_small by lia. done.
Qed.

(** A header followed by anything scans to its tag and size. *)
Lemma readSize_be n rest :
  56 <= n < 2 ^ 64 -> readSize (be (be_size n) n ++ rest) (Z.of_nat (be_size n)) = inl n.
Proof.
  intros Hn. pose proof (be_size_bound n) as Hs. unfold readSize.
  rewrite zlen_app. unfold zlen at 1. rewrite be_length. pose proof (zlen_nonneg rest).
  destruct (Z.ltb_spec (Z.of_nat (be_size n) + zlen rest) (Z.of_nat (be_size n))); [lia|].
  assert (Ht : take (be_size n) (be (be_size n) n ++ rest) = be (be_size n) n).
  { rewrite <- (be_length (be_size n) n) at 1. apply take_app_length. }
  rewrite Nat2Z.id, Ht. clear Ht.
  assert (Hlog : Z.log2 n / 8 * 8 <= Z.log2 n < Z.log2 n / 8 * 8 + 8) by div_lia.
  pose proof (Z.log2_nonneg n). pose proof (Z.log2_spec n ltac:(lia)) as Hl2.
  assert (Hbs : Z.of_nat (be_size n) = Z.log2 n / 8 + 1) by (unfold be_size; div_lia).
  assert (Hlt : n < 2 ^ (8 * Z.of_nat (be_size n))).
  { eapply Z.lt_le_trans; [apply Hl2|]. apply Z.pow_le_mono_r; lia. }
  rewrite shift_or_be, Z.mod_small by lia. destruct (Z.ltb_spec n 56); [lia|]. cbn [orb].
  destruct (be_size n) as [|k] eqn:Ek; [lia|]. cbn [be app].
  change (default 0 ((?x :: ?l) !! 0%nat)) with x.
  rewrite Z.shiftr_div_pow2 by lia.
  destruct (Z.eqb_spec (n / 2 ^ (8 * Z.of_nat k) mod 256) 0) as [E|]; [|done]. exfalso.
  assert (2 ^ (8 * Z.of_nat k) <= n).
  { etrans; [|apply Hl2]. apply Z.pow_le_mono_r; lia. }
  assert (0 < 2 ^ (8 * Z.of_nat k)) by (apply Z.pow_pos_nonneg; lia).
  assert (n / 2 ^ (8 * Z.of_nat k) < 256).
  { apply Z.div_lt_upper_bound; [lia|]. rewrite Z.mul_comm.
    replace (8 * Z.of_nat (S k)) with (8 + 8 * Z.of_nat k) in Hlt by lia.
    rewrite Z.pow_add_r in Hlt by lia. change (2 ^ 8) with 256 in Hlt. lia. }
  assert (1 <= n / 2 ^ (8 * Z.of_nat k)) by (apply Z.div_le_lower_bound; lia).
  rewrite Z.mod_small in E; lia.
Qed.

Lemma head_small tag n : n < 56 -> head tag n = [tag + n].
Proof. intros. unfold head. by destruct (Z.ltb_spec n 56); [|lia]. Qed.

Lemma head_large tag n : 56 <= n -> head tag n = (tag + 55 + Z.of_nat (be_size n)) :: be (be_size n) n.
Proof. intros. unfold head. by destruct (Z.ltb_spec n 56); [lia|]. Qed.

(** The size check of [readKind] on a value that is entirely there. *)
Lemma size_check (h c rest : bytes) :
  zlen (h ++ c ++ rest) < 2 ^ 64 -> (u64 (zlen (h ++ c ++ rest) - zlen h) <? zlen c) = false.
Proof.
  intros Hl. rewrite !zlen_app in *. pose proof (zlen_nonneg h). pose proof (zlen_nonneg c).
  pose proof (zlen_nonneg rest). rewrite u64_id by (unfold is_u64; lia). apply Z.ltb_ge. lia.
Qed.

Lemma zlen_head_large tag n : 56 <= n -> zlen (head tag n) = Z.of_nat (be_size n) + 1.
Proof. intros. rewrite head_large by done. rewrite zlen_cons. unfold zlen. by rewrite be_length. Qed.

Definition tag_of (k : Kind) : Z := match k with Byte => 0 | String_ => 128 | List_ => 192 end.

Lemma readTag_small k n tl :
  k <> Byte -> 0 <= n < 56 -> (k = String_ -> n = 1 -> 128 <= default 0 (tl !! 0%nat)) ->
  readTag (tag_of k + n) tl = inl (k, 1, n).
Proof.
  intros Hk Hn Hc. unfold readTag. destruct k; [done|..]; cbn [tag_of].
  - destruct (Z.ltb_spec (128 + n) 128); [lia|]. destruct (Z.ltb_spec (128 + n) 184); [|lia].
    replace (128 + n - 128) with n by lia. rewrite u8_id by lia.
    destruct (Z.eqb_spec n 1); [|done]. destruct (Z.ltb_spec (default 0 (tl !! 0%nat)) 128).
    + specialize (Hc eq_refl e). lia.
    + by rewrite andb_false_r.
  - destruct (Z.ltb_spec (192 + n) 128); [lia|]. destruct (Z.ltb_spec (192 + n) 184); [lia|].
    destruct (Z.ltb_spec (192 + n) 192); [lia|]. destruct (Z.ltb_spec (192 + n) 248); [|lia].
    replace (192 + n - 192) with n by lia. rewrite u8_id by lia. done.
Qed.

Lemma readTag_large k s tl n :
  k <> Byte -> 1 <= s <= 8 -> readSize tl s = inl n ->
  readTag (tag_of k + 55 + s) tl = inl (k, s + 1, n).
Proof.
  intros Hk Hs Hr. unfold readTag. destruct k; [done|..]; cbn [tag_of].
  - destruct (Z.ltb_spec (128 + 55 + s) 128); [lia|]. destruct (Z.ltb_spec (128 + 55 + s) 184); [lia|].
    destruct (Z.ltb_spec (128 + 55 + s) 192); [|lia].
    replace (128 + 55 + s - 183) with s by lia. rewrite u8_id by lia. by rewrite Hr.
  - destruct (Z.ltb_spec (192 + 55 + s) 128); [lia|]. destruct (Z.ltb_spec (192 + 55 + s) 184); [lia|].
    destruct (Z.ltb_spec (192 + 55 + s) 192); [lia|]. destruct (Z.ltb_spec (192 + 55 + s) 248); [lia|].
    replace (192 + 55 + s - 247) with s by lia. rewrite u8_id by lia. by rewrite Hr.
Qed.

Lemma encoding_head k c : k <> Byte -> encoding k c = head (tag_of k) (zlen c) ++ c.
Proof. by destruct k. Qed.

Lemma readKind_head k c rest :
  k <> Byte -> kind_content k c -> zlen (head (tag_of k) (zlen c) ++ c ++ rest) < 2 ^ 64 ->
  readKind (head (tag_of k) (zlen c) ++ c ++ rest) = inl (k, zlen (head (tag_of k) (zlen c)), zlen c).
Proof.
  intros Hk Hc Hl. pose proof (size_check _ _ _ Hl) as Hsz. rewrite !zlen_app in Hl.
  pose proof (zlen_nonneg c). pose proof (zlen_nonneg rest). pose proof (zlen_nonneg (head (tag_of k) (zlen c))).
  destruct (Z.lt_ge_cases (zlen c) 56).
  - rewrite head_small in * by done. change ([?x] ++ ?l) with (x :: l) in *. cbn [readKind].
    change (zlen [tag_of k + zlen c]) with 1 in *.
    rewrite readTag_small; [by rewrite Hsz|done|lia|]. intros -> E. cbn in Hc.
    destruct c as [|x [|y c]]; [done| |rewrite !zlen_cons in E; pose proof (zlen_nonneg c); lia].
    cbn in Hc |- *. by apply Z.ltb_ge.
  - rewrite (zlen_head_large _ (zlen c)) in * by done. pose proof (be_size_bound (zlen c)).
    rewrite head_large in * by done. cbn [app readKind] in *.
    rewrite (readTag_large k _ _ (zlen c)); [by rewrite Hsz|done|lia|by apply readSize_be; lia].
Qed.

Lemma Split_encoding k c rest :
  kind_content k c -> zlen (encoding k c ++ rest) < 2 ^ 64 ->
  Split (encoding k c ++ rest) = inl (k, c, rest).
Proof.
  intros Hk Hl. unfold Split.
  assert (exists h, encoding k c = h ++ c /\ readKind (encoding k c ++ rest) = inl (k, zlen h, zlen c))
    as (h & Hh & ->).
  { destruct (decide (k = Byte)) as [->|Hb].
    - exists []. split; [done|]. destruct c as [|x [|? ?]]; cbn in Hk; try done. cbn in Hl |- *.
      unfold readTag. rewrite Hk.
      pose proof (size_check [] [x] rest Hl) as Hc. cbn [app] in Hc. change (zlen [x]) with 1 in Hc.
      change (zlen []) with 0 in Hc. by rewrite Hc.
    - exists (head (tag_of k) (zlen c)). rewrite encoding_head in * by done. rewrite <- app_assoc in *.
      split; [done|]. by apply readKind_head. }
  rewrite Hh, <- app_assoc. unfold zlen. rewrite Z2Nat.inj_add, !Nat2Z.id by lia.
  rewrite <- drop_drop, drop_app_length, take_app_length, drop_app_length. done.
Qed.

Lemma readSize_inv b slen n :
  wf_bytes b -> 1 <= slen -> readSize b slen = inl n ->
  56 <= n /\ n < 2 ^ (8 * slen) /\ exists tl, b = be (be_size n) n ++ tl /\ Z.of_nat (be_size n) = slen.
Proof.
  intros Hb Hs. unfold readSize. destruct (Z.ltb_spec (zlen b) slen); [done|].
  set (l := take (Z.to_nat slen) b). destruct ((shift_or l <? 56) || _) eqn:E; [done|]. intros [= <-].
  apply orb_false_iff in E as [E1%Z.ltb_ge E2%Z.eqb_neq].
  assert (Hl : wf_bytes l) by (by apply Forall_take).
  assert (Hlen : length l = Z.to_nat slen) by (unfold l, zlen in *; rewrite length_take; lia).
  pose proof (shift_or_bound l Hl) as Hbd. replace (zlen l) with slen in Hbd by (unfold zlen; lia).
  assert (Hbe : be_size (shift_or l) = Z.to_nat slen).
  { apply be_size_range; [|done]. split; [|apply Hbd].
    destruct l as [|x l'] eqn:El; [cbn in Hlen; lia|]. apply Forall_cons in Hl as [Hx Hl'].
    rewrite shift_or_cons by done. pose proof (shift_or_bound l' Hl').
    replace (slen - 1) with (zlen l') by (unfold zlen; cbn in Hlen; lia).
    assert (x <> 0).
    { intros ->. apply E2. assert (b !! 0%nat = Some 0) as ->; [|done].
      rewrite <- (take_drop (Z.to_nat slen) b). unfold l in El. by rewrite El. }
    cbn in Hx. nia. }
  split_and!; [done|apply Hbd|]. exists (drop (Z.to_nat slen) b). rewrite Hbe. split; [|lia].
  rewrite <- Hlen at 1. rewrite be_shift_or by done. unfold l. by rewrite take_drop.
Qed.

(** Whatever [readKind] accepts is the encoding of the content it delimits. *)
Lemma readTag_inv b tl k ts cs :
  wf_bytes (b :: tl) -> readTag b tl = inl (k, ts, cs) -> cs <= zlen (b :: tl) - ts ->
  match k with
  | Byte => ts = 0 /\ cs = 1 /\ b < 128
  | _ => b :: tl = head (tag_of k) cs ++ drop (Z.to_nat ts) (b :: tl) /\
         ts = zlen (head (tag_of k) cs) /\ 0 <= cs < 2 ^ 64 /\
         (k = String_ -> cs = 1 -> 128 <= default 0 (tl !! 0%nat))
  end.
Proof.
  intros [Hb Htl]%Forall_cons Ht Hcs. cbn in Hb. unfold readTag in Ht.
  assert (Hlarge : forall kk t, tag_of kk + 55 = t -> kk <> Byte -> 1 <= b - t <= 8 ->
    forall s, readSize tl (u8 (b - t)) = inl s ->
    b :: tl = head (tag_of kk) s ++ drop (Z.to_nat (u8 (b - t) + 1)) (b :: tl) /\
    u8 (b - t) + 1 = zlen (head (tag_of kk) s) /\ 0 <= s < 2 ^ 64 /\ 1 < s).
  { intros kk t <- Hk Hr s Hs. rewrite (u8_id (b - _)) in * by lia.
    apply readSize_inv in Hs as (H56 & Hlt & tl' & -> & Hz); [|done|lia].
    assert (2 ^ (8 * (b - (tag_of kk + 55))) <= 2 ^ 64) by (apply Z.pow_le_mono_r; lia).
    rewrite zlen_head_large by done. split_and!; try lia.
    rewrite head_large, Hz by done. rewrite <- Hz, Z2Nat.inj_add, Nat2Z.id by lia.
    change (Z.to_nat 1) with 1%nat. rewrite Nat.add_1_r. cbn [drop app].
    rewrite drop_app_length' by (by rewrite be_length). f_equal. lia. }
  destruct (Z.ltb_spec b 128); [by injection Ht as <- <- <-|].
  destruct (Z.ltb_spec b 184).
  { destruct (_ && _) eqn:E; [done|]. injection Ht as <- <- <-. rewrite u8_id in * by lia. cbn [tag_of].
    rewrite head_small by lia. split_and!; [cbn; f_equal; lia|done|lia..|].
    intros _ Hc. rewrite Hc in *. cbn [Z.eqb andb] in E.
    destruct tl as [|y tl]; [unfold zlen in Hcs; cbn in Hcs; lia|].
    destruct (Z.ltb_spec 1 (zlen (b :: y :: tl))); cbn in E |- *; [by apply Z.ltb_ge|].
    rewrite !zlen_cons in *. pose proof (zlen_nonneg tl). lia. }
  destruct (Z.ltb_spec b 192).
  { destruct (readSize tl _) as [s|] eqn:E; [|done]. injection Ht as <- <- <-.
    destruct (Hlarge String_ 183 eq_refl ltac:(done) ltac:(lia) _ E) as (? & ? & ? & ?). split_and!; (done || lia). }
  destruct (Z.ltb_spec b 248).
  { injection Ht as <- <- <-. rewrite u8_id in * by lia. cbn [tag_of].
    rewrite head_small by lia. split_and!; [cbn; f_equal; lia|done|lia..|done]. }
  destruct (readSize tl _) as [s|] eqn:E; [|done]. injection Ht as <- <- <-.
  destruct (Hlarge List_ 247 eq_refl ltac:(done) ltac:(lia) _ E) as (? & ? & ? & ?). split_and!; (done || lia).
Qed.

Lemma readTag_tagsize b tl k ts cs :
  0 <= b < 256 -> readTag b tl = inl (k, ts, cs) -> 0 <= ts <= zlen (b :: tl).
Proof.
  intros Hb Ht. pose proof (zlen_nonneg tl). rewrite zlen_cons.
  assert (Hr : forall t s, 0 <= t < 256 -> readSize tl t = inl s -> t <= zlen tl).
  { intros t s Hs. unfold readSize. by destruct (Z.ltb_spec (zlen tl) t). }
  unfold readTag in Ht. destruct (b <? 128); [injection Ht as <- <- <-; lia|].
  destruct (b <? 184); [destruct (_ && _); [done|injection Ht as <- <- <-; lia]|].
  destruct (b <? 192).
  { destruct (readSize tl _) eqn:E; [|done]. injection Ht as <- <- <-.
    apply Hr in E; pose proof (Z.mod_pos_bound (b - 183) (2 ^ 8)); unfold u8 in *; lia. }
  destruct (b <? 248); [injection Ht as <- <- <-; lia|].
  destruct (readSize tl _) eqn:E; [|done]. injection Ht as <- <- <-.
  apply Hr in E; pose proof (Z.mod_pos_bound (b - 247) (2 ^ 8)); unfold u8 in *; lia.
Qed.

Lemma Split_canonical b k c rest :
  wf_bytes b -> zlen b < 2 ^ 64 -> Split b = inl (k, c, rest) ->
  kind_content k c /\ b = encoding k c ++ rest.
Proof.
  intros Hwf Hl. unfold Split, readKind. destruct b as [|x tl]; [done|].
  destruct (readTag x tl) as [[[k' ts] cs]|] eqn:Ht; [|done].
  destruct (Z.ltb_spec (u64 (zlen (x :: tl) - ts)) cs) as [|Hle]; [done|]. intros [= <- <- <-].
  pose proof (readTag_tagsize _ _ _ _ _ (Forall_inv Hwf) Ht) as Hts.
  rewrite u64_id in Hle by (unfold is_u64; lia).
  pose proof (readTag_inv _ _ _ _ _ Hwf Ht Hle) as Hinv.
  destruct (decide (k' = Byte)) as [->|Hk].
  { destruct Hinv as (-> & -> & Hx). cbn. split; [by apply Z.ltb_lt|done]. }
  assert (Hi : x :: tl = head (tag_of k') cs ++ drop (Z.to_nat ts) (x :: tl) /\
    ts = zlen (head (tag_of k') cs) /\ 0 <= cs < 2 ^ 64 /\
    (k' = String_ -> cs = 1 -> 128 <= default 0 (tl !! 0%nat))) by (by destruct k').
  destruct Hi as (Hd & -> & Hcs & Hone). clear Hinv.
  set (h := head (tag_of k') cs) in *. set (d := drop (Z.to_nat (zlen h)) (x :: tl)) in *.
  assert (Hld : cs <= zlen d) by (rewrite Hd, zlen_app in Hle; lia).
  assert (Hc : zlen (take (Z.to_nat cs) d) = cs) by (unfold zlen in *; rewrite length_take; lia).
  assert (Hrest : drop (Z.to_nat (zlen h + cs)) (x :: tl) = drop (Z.to_nat cs) d).
  { unfold d. rewrite drop_drop. f_equal. pose proof (zlen_nonneg h). lia. }
  rewrite Hrest, encoding_head by done. rewrite Hc. fold h. split.
  - destruct k'; [done| |done]. cbn [kind_content].
    destruct (take (Z.to_nat cs) d) as [|y [|? ?]] eqn:Et; [done| |done]. cbn. apply Z.ltb_ge.
    unfold zlen in Hc. cbn in Hc. subst cs. specialize (Hone eq_refl eq_refl).
    assert (Htl : tl = d) by exact (f_equal tail Hd). rewrite Htl in Hone.
    destruct d as [|z d']; [done|]. change (take (Z.to_nat 1) (z :: d')) with [z] in Et.
    by injection Et as ->.
  - rewrite <- app_assoc, take_drop. exact Hd.
Qed.

(** scanning is exact and canonical.  On well-formed input, [Split]
    returns kind [k], content [c] and the rest exactly when the input is the
    unique encoding of [c] at kind [k] followed by the rest: every valid
    encoding is recognised, and non-minimal sizes and single bytes with a
    header are rejected. *)
Theorem Split_spec (b c rest : bytes) (k : Kind) :
  wf_bytes b -> zlen b < 2 ^ 64 ->
  Split b = inl (k, c, rest) <-> kind_content k c /\ b = encoding k c ++ rest.
Proof.
  intros Hb Hl. split; [by apply Split_canonical|]. intros [Hk ->]. by apply Split_encoding.
Qed.

(** The encoding of an item, as the scanner sees it. *)
Definition item_kind (i : item) : Kind :=
  match i with Str b => if single_byte b then Byte else String_ | Lst _ => List_ end.
Definition item_content (i : item) : bytes :=
  match i with Str b => b | Lst l => concat (rlp <$> l) end.

Lemma rlp_encoding i : rlp i = encoding (item_kind i) (item_content i) /\ kind_content (item_kind i) (item_content i).
Proof.
  destruct i as [[|x [|y b]]|l]; try done. cbn. destruct (x <? 128) eqn:E; by rewrite ?E.
Qed.

Lemma count_values_rlp l fuel n :
  zlen (concat (rlp <$> l)) < 2 ^ 64 -> (length l <= fuel)%nat ->
  count_values fuel n (concat (rlp <$> l)) = inl (n + zlen l).
Proof.
  revert fuel n. induction l as [|i l IH]; intros fuel n Hl Hf; cbn [fmap list_fmap concat].
  { cbn. rewrite Z.add_0_r. by destruct fuel. }
  destruct fuel as [|fuel]; [cbn in Hf; lia|].
  destruct (rlp_encoding i) as [He Hk]. cbn [fmap list_fmap concat] in Hl. rewrite He in *.
  pose proof (Split_encoding _ _ _ Hk Hl) as Hs. unfold Split in Hs.
  destruct (encoding _ _ ++ _) as [|x b] eqn:E; [done|]. cbn [count_values].
  destruct (readKind (x :: b)) as [[[k ts] cs]|]; [|done]. injection Hs as _ _ ->.
  rewrite IH; [rewrite zlen_cons; f_equal; lia| |cbn in Hf; lia].
  rewrite <- E, zlen_app in Hl. match goal with H : zlen ?a + _ < _ |- _ => pose proof (zlen_nonneg a) end. lia.
Qed.

Lemma length_concat_rlp l : (length l <= length (concat (rlp <$> l)))%nat.
Proof.
  induction l as [|i l IH]; [done|]. cbn. rewrite length_app.
  assert (1 <= length (rlp i))%nat; [|lia].
  assert (Hh : forall t n, (1 <= length (head t n))%nat) by (intros; unfold head; case_match; cbn; lia).
  destruct i as [[|x [|y b]]|l']; cbn [rlp]; try case_match; rewrite ?length_app; try (cbn; lia);
    match goal with |- context [head ?t ?n] => pose proof (Hh t n); lia end.
Qed.

(** counting the encoded values of a list's content gives their number. *)
Theorem CountValues_rlp (l : list item) :
  zlen (concat (rlp <$> l)) < 2 ^ 64 -> CountValues (concat (rlp <$> l)) = inl (zlen l).
Proof. intros Hl. apply count_values_rlp; [done|apply length_concat_rlp]. Qed.

(** ** Injectivity *)
Lemma rlp_inj_app i : forall j r r',
  rlp i ++ r = rlp j ++ r' -> zlen (rlp i ++ r) < 2 ^ 64 -> i = j /\ r = r'.
Proof.
  induction i as [b|l IH] using item_induction; intros j r r' E Hl.
  - destruct (rlp_encoding (Str b)) as [Ei Hi], (rlp_encoding j) as [Ej Hj]. rewrite Ei, Ej in E.
    rewrite Ei in Hl. pose proof (Split_encoding _ _ _ Hi Hl) as Si. rewrite E in Hl.
    pose proof (Split_encoding _ _ _ Hj Hl) as Sj. rewrite E, Sj in Si. injection Si as Hk Hc ->.
    destruct j as [b'|l']; cbn in *; [by subst|]. destruct (single_byte b); done.
  - destruct (rlp_encoding (Lst l)) as [Ei Hi], (rlp_encoding j) as [Ej Hj].
    pose proof (zlen_rlp_Lst l) as Hlt. rewrite zlen_app in Hl. pose proof (zlen_nonneg r).
    rewrite Ei, Ej in E. assert (Hl' : zlen (encoding (item_kind (Lst l)) (item_content (Lst l)) ++ r) < 2 ^ 64)
      by (rewrite <- Ei, zlen_app; lia).
    pose proof (Split_encoding _ _ _ Hi Hl') as Si. rewrite E in Hl'.
    pose proof (Split_encoding _ _ _ Hj Hl') as Sj. rewrite E, Sj in Si. injection Si as Hk Hc ->.
    destruct j as [b'|l']; cbn in Hk, Hc; [destruct (single_byte b'); done|]. split; [|done]. f_equal.
    assert (Hb : zlen (concat (rlp <$> l)) < 2 ^ 64) by lia. clear - IH Hc Hb.
    revert l' Hc. induction IH as [|x l Hx _ IHl]; intros [|y l'] Hc; cbn in *.
    + done.
    + pose proof (length_concat_rlp (y :: l')) as Hn. cbn in Hn. rewrite Hc in Hn. cbn in Hn. lia.
    + pose proof (length_concat_rlp (x :: l)) as Hn. cbn in Hn. rewrite <- Hc in Hn. cbn in Hn. lia.
    + destruct (Hx y _ _ (eq_sym Hc) Hb) as [-> E]. f_equal. apply IHl; [|done].
      rewrite zlen_app in Hb. pose proof (zlen_nonneg (rlp y)). lia.
Qed.

Lemma rlp_inj i j : rlp i = rlp j -> zlen (rlp i) < 2 ^ 64 -> i = j.
Proof.
  intros E Hl. apply (rlp_inj_app i j [] []); rewrite !app_nil_r; done.
Qed.

(** C34: the two-buffer encoder is correct.  For every value whose encoding
    stays below 2^64 bytes, collecting string data and list headers separately
    and merging them gives exactly the recursively defined RLP encoding, and
    different values have different encodings. *)
Theorem EncodeToBytes_correct (i : item) :
  zlen (rlp i) < 2 ^ 64 ->
  EncodeToBytes i = rlp i /\
  forall j, zlen (rlp j) < 2 ^ 64 -> EncodeToBytes i = EncodeToBytes j -> i = j.
Proof.
  intros Hi. split; [by apply EncodeToBytes_rlp|]. intros j Hj.
  rewrite !EncodeToBytes_rlp by done. intros E. by apply rlp_inj.
Qed.

(** ** Integers as byte strings *)

(** [i.Bytes()] and the bytes [writeUint] emits: minimal, empty for zero. *)
Definition big_Bytes (i : Z) : bytes := if i =? 0 then [] else be (be_size i) i.

Lemma be_size_lt x : 0 < x -> x < 2 ^ (8 * Z.of_nat (be_size x)).
Proof.
  intros Hx. pose proof (Z.log2_nonneg x). eapply Z.lt_le_trans; [apply (Z.log2_spec x Hx)|].
  apply Z.pow_le_mono_r; [done|]. unfold be_size. div_lia.
Qed.

Lemma shift_or_big_Bytes i : 0 <= i -> shift_or (big_Bytes i) = i.
Proof.
  intros Hi. unfold big_Bytes. destruct (Z.eqb_spec i 0); [by subst|].
  rewrite shift_or_be by done. apply Z.mod_small. pose proof (be_size_lt i). lia.
Qed.

Lemma big_Bytes_inj a b : 0 <= a -> 0 <= b -> big_Bytes a = big_Bytes b -> a = b.
Proof. intros Ha Hb E. rewrite <- (shift_or_big_Bytes a), <- (shift_or_big_Bytes b), E; done. Qed.

Lemma be_inj n a b :
  0 <= a < 2 ^ (8 * Z.of_nat n) -> 0 <= b < 2 ^ (8 * Z.of_nat n) -> be n a = be n b -> a = b.
Proof.
  intros Ha Hb E. apply (f_equal shift_or) in E. rewrite !shift_or_be, !Z.mod_small in E; lia.
Qed.

(** *** Witnesses *)
Definition example_item : item :=
  Lst [Str [1]; Str []; Lst [Str (replicate 60 7); Lst []; Str [200]]; Str (replicate 3 9)].

Lemma EncodeToBytes_correct_witness : take 4 (EncodeToBytes example_item) = [248; 73; 1; 128].
Proof. rewrite (proj1 (EncodeToBytes_correct example_item eq_refl)). vm_compute. reflexivity. Defined.

Lemma Split_spec_witness : Split [129; 200; 5] = inl (String_, [200], [5]).
Proof.
  apply (Split_spec [129; 200; 5] [200] [5] String_); [|reflexivity|split; reflexivity].
  apply (bool_decide_unpack _). vm_compute. done.
Defined.

Lemma CountValues_rlp_witness : CountValues (concat (rlp <$> [example_item; Str [5]])) = inl 2.
Proof. apply (CountValues_rlp [example_item; Str [5]]). vm_compute. done. Defined.
