(* ===== verification/Common.v ===== *)
(** * [common/types.go], [common/bytes.go]: hashes and hexadecimal strings

    A [common.Hash] is its 32 bytes here, as the cross-chain code handles it. *)
From Stdlib Require Import Ascii.
From S2P Require Import Prelude Rlp.

(** ** Hashes as bytes ([common/types.go], [common/bytes.go]) *)
Definition HashLength : Z := 32.

Definition BytesToHash (b : bytes) : bytes :=
  if HashLength <? zlen b then drop (Z.to_nat (zlen b - HashLength)) b
  else replicate (Z.to_nat (HashLength - zlen b)) 0 ++ b.

Definition Hex2Bytes (s : string) : bytes := fst (hex_decode s).

Definition has0xPrefix (s : string) : bool :=
  match s with
  | String a (String b _) => bool_decide (a = "0"%char) && (bool_decide (b = "x"%char) || bool_decide (b = "X"%char))
  | _ => false
  end.

Definition FromHex (s : string) : bytes :=
  let s := if has0xPrefix s then String.substring 2 (String.length s - 2) s else s in
  let s := if (String.length s mod 2 =? 1)%nat then String "0"%char s else s in
  Hex2Bytes s.

Definition HexToHash (s : string) : bytes := BytesToHash (FromHex s).

Definition hash_String (h : bytes) : string := String "0"%char (String "x"%char (hex_encode h)).

Definition zero_hash : bytes := replicate 32 0.
#[global] Arguments zero_hash : simpl never.

(** [if hash[:2] == "0x" { hash = hash[2:] }]; slicing a shorter string panics. *)
Definition strip0x (s : string) : option string :=
  match s with
  | String a (String b r) => Some (if bool_decide (a = "0"%char /\ b = "x"%char) then r else s)
  | _ => None
  end.

(** ** Strings as bytes *)
Fixpoint string_bytes (s : string) : bytes :=
  match s with EmptyString => [] | String c s => Z.of_N (N_of_ascii c) :: string_bytes s end.

Fixpoint bytes_string (b : bytes) : string :=
  match b with [] => EmptyString | x :: b => String (ascii_of_N (Z.to_N x)) (bytes_string b) end.

Lemma bytes_string_bytes s : bytes_string (string_bytes s) = s.
Proof. induction s as [|c s IH]; [done|]. cbn. by rewrite N2Z.id, ascii_N_embedding, IH. Qed.

Lemma string_bytes_inj s t : string_bytes s = string_bytes t -> s = t.
Proof. intros E. by rewrite <- (bytes_string_bytes s), E, bytes_string_bytes. Qed.

(** ** Addresses, as integers of 160 bits *)
Definition AddressLength : Z := 20.

Definition BytesToAddress (b : bytes) : Z :=
  shift_or (if AddressLength <? zlen b then drop (Z.to_nat (zlen b - AddressLength)) b else b).

Definition HexToAddress (s : string) : Z := BytesToAddress (FromHex s).

Definition isHexCharacter (c : ascii) : bool := bool_decide (is_Some (hex_value c)).

Fixpoint all_hex (s : string) : bool :=
  match s with EmptyString => true | String c s => isHexCharacter c && all_hex s end.

Definition isHex (s : string) : bool := (String.length s mod 2 =? 0)%nat && all_hex s.

Definition IsHexAddress (s : string) : bool :=
  let s := if has0xPrefix s then String.substring 2 (String.length s - 2) s else s in
  (Z.of_nat (String.length s) =? 2 * AddressLength) && isHex s.

(** ** Lemmas on hexadecimal strings *)
Lemma hex_value_range c x : hex_value c = Some x -> 0 <= x < 16.
Proof.
  unfold hex_value. set (n := Z.of_N (N_of_ascii c)). intros E.
  destruct ((48 <=? n) && (n <=? 57)) eqn:E1; [injection E as <-; bools; lia|].
  destruct ((97 <=? n) && (n <=? 102)) eqn:E2; [injection E as <-; bools; lia|].
  destruct ((65 <=? n) && (n <=? 70)) eqn:E3; [injection E as <-; bools; lia|done].
Qed.

Lemma Hex2Bytes_wf s : wf_bytes (Hex2Bytes s).
Proof.
  unfold Hex2Bytes. remember (String.length s) as n eqn:Hn. revert s Hn.
  induction (lt_wf n) as [n _ IH]; intros s ->. destruct s as [|c [|d s]]; [by constructor..|]. cbn [hex_decode].
  destruct (hex_value c) as [x|] eqn:Hx; [|by constructor]. destruct (hex_value d) as [y|] eqn:Hy; [|by constructor].
  pose proof (IH (String.length s) ltac:(cbn; lia) s eq_refl) as Hs. destruct (hex_decode s) as [b ok].
  apply hex_value_range in Hx, Hy. constructor; [lia|exact Hs].
Qed.

Lemma Hex2Bytes_encode b : wf_bytes b -> Hex2Bytes (hex_encode b) = b.
Proof. intros Hb. unfold Hex2Bytes. by rewrite hex_decode_encode. Qed.

Lemma hex_encode_length b : String.length (hex_encode b) = (2 * length b)%nat.
Proof. induction b as [|x b IH]; [done|]. cbn [hex_encode String.length length]. rewrite IH. lia. Qed.

Lemma hex_digit_x d : 0 <= d < 16 -> hex_digit d <> "x"%char /\ hex_digit d <> "X"%char.
Proof.
  intros Hd.
  assert (HF : Forall (fun d => hex_digit d <> "x"%char /\ hex_digit d <> "X"%char) (seqZ 0 16))
    by (apply (bool_decide_unpack _); by vm_compute).
  rewrite Forall_forall in HF. apply HF, elem_of_seqZ. lia.
Qed.

Lemma encode_not_prefixed b : wf_bytes b -> has0xPrefix (hex_encode b) = false.
Proof.
  intros Hb. destruct b as [|x b]; [done|]. cbn. apply Forall_cons_1 in Hb as [Hx _].
  destruct (hex_digit_x (x mod 16)) as [H1 H2]; [div_lia|].
  rewrite (bool_decide_eq_false_2 (_ = "x"%char)), (bool_decide_eq_false_2 (_ = "X"%char)) by done. apply andb_false_r.
Qed.

Lemma HexToHash_encode h : wf_bytes h -> zlen h = 32 -> HexToHash (hex_encode h) = h.
Proof.
  intros Hh Hl. unfold HexToHash, FromHex. rewrite encode_not_prefixed by done.
  rewrite hex_encode_length, Nat.mul_comm, Nat.Div0.mod_mul. cbn [Nat.eqb]. rewrite Hex2Bytes_encode by done.
  unfold BytesToHash, HashLength. by rewrite Hl.
Qed.

Lemma BytesToHash_id h : zlen h = 32 -> BytesToHash h = h.
Proof. intros Hl. unfold BytesToHash, HashLength. by rewrite Hl. Qed.

Lemma strip_hash h : strip0x (hash_String h) = Some (hex_encode h).
Proof. done. Qed.

Lemma strip_encode b : wf_bytes b -> b <> [] -> strip0x (hex_encode b) = Some (hex_encode b).
Proof.
  intros Hb Hne. destruct b as [|x b]; [done|]. cbn. apply Forall_cons_1 in Hb as [Hx _].
  destruct (hex_digit_x (x mod 16)) as [Hd _]; [div_lia|]. by rewrite bool_decide_eq_false_2 by naive_solver.
Qed.
