(* ===== verification/Header.v ===== *)
(** * [core/types/block.go]: headers and blocks, and the seal hash

    A [common.Hash] and a [common.Address] are integers of 256 and 160 bits, a
    bloom one of 2048 bits; a [*big.Int] field is [None] when the pointer is
    nil.  The hash function is Keccak-256 of golang.org/x/crypto, a parameter. *)
From S2P Require Import Prelude Rlp.

Class Keccak := Keccak256 : bytes -> Z.

(** [EncodeNonce] and [BlockNonce.Uint64]: eight bytes, big endian. *)
Definition EncodeNonce (i : Z) : bytes := be 8 i.
Definition nonce_Uint64 (n : bytes) : Z := shift_or n.

Record Header := {
  ParentHash : Z;
  UncleHash : Z;
  Coinbase : Z;
  Root : Z;
  TxHash : Z;
  ReceiptHash : Z;
  Bloom : Z;
  Difficulty : option Z;
  Number : option Z;
  GasLimit : Z;
  GasUsed : Z;
  header_Time : Z;
  Extra : bytes;
  MixDigest : Z;
  header_Nonce : bytes
}.

#[export] Instance Header_eta : Eta Header := fun h => {|
  ParentHash := ParentHash h; UncleHash := UncleHash h; Coinbase := Coinbase h; Root := Root h;
  TxHash := TxHash h; ReceiptHash := ReceiptHash h; Bloom := Bloom h; Difficulty := Difficulty h;
  Number := Number h; GasLimit := GasLimit h; GasUsed := GasUsed h; header_Time := header_Time h;
  Extra := Extra h; MixDigest := MixDigest h; header_Nonce := header_Nonce h
|}.

#[export] Instance Header_eq_dec : EqDecision Header.
Proof. solve_decision. Defined.

(** [header.Number.Uint64()]; the callers have checked the pointer. *)
Definition Number_Uint64 (h : Header) : Z := u64 (default 0 (Number h)).

(** The RLP values of the fields: byte arrays at their length, integers
    minimal; a nil [*big.Int] is written like zero. *)
Definition hash_item (x : Z) : item := Str (be 32 x).
Definition int_item (x : Z) : item := Str (big_Bytes x).
Definition big_item (x : option Z) : item := Str (big_Bytes (default 0 x)).

(** The fields that [encodeSigHeader] writes: all but [Extra]. *)
Definition sig_fields (h : Header) : list item :=
  [hash_item (ParentHash h); hash_item (UncleHash h); Str (be 20 (Coinbase h)); hash_item (Root h);
   hash_item (TxHash h); hash_item (ReceiptHash h); Str (be 256 (Bloom h)); big_item (Difficulty h);
   big_item (Number h); int_item (GasLimit h); int_item (GasUsed h); int_item (header_Time h);
   hash_item (MixDigest h); Str (header_Nonce h)].

(** The struct writer: every field in order. *)
Definition header_item (h : Header) : item :=
  Lst ([hash_item (ParentHash h); hash_item (UncleHash h); Str (be 20 (Coinbase h)); hash_item (Root h);
   hash_item (TxHash h); hash_item (ReceiptHash h); Str (be 256 (Bloom h)); big_item (Difficulty h);
   big_item (Number h); int_item (GasLimit h); int_item (GasUsed h); int_item (header_Time h)] ++
   [Str (Extra h); hash_item (MixDigest h); Str (header_Nonce h)]).

Definition encodeSigHeader (h : Header) : bytes := EncodeToBytes (Lst (sig_fields h)).

Definition CopyHeader (h : Header) : Header :=
  h <| Difficulty := Some (default 0 (Difficulty h)) |> <| Number := Some (default 0 (Number h)) |>.

(** Transactions are kept in their RLP form. *)
Record Block := { block_header : Header; block_uncles : list Header; block_transactions : list bytes }.

#[export] Instance Block_eq_dec : EqDecision Block.
Proof. solve_decision. Defined.

Definition block_Header (b : Block) : Header := CopyHeader (block_header b).
Definition block_Extra (b : Block) : bytes := Extra (block_header b).
Definition NumberU64 (b : Block) : Z := Number_Uint64 (block_header b).
Definition block_Nonce (b : Block) : Z := nonce_Uint64 (header_Nonce (block_header b)).
Definition block_GetHeight (b : Block) : Z := NumberU64 b.

Definition WithSeal (h : Header) (b : Block) : Block :=
  {| block_header := h; block_uncles := block_uncles b; block_transactions := block_transactions b |}.

Section hashes.
Context `{!Keccak}.

Definition rlpHash (i : item) : Z := Keccak256 (EncodeToBytes i).

Definition header_Hash (h : Header) : Z := rlpHash (header_item h).

(** [CalcUncleHash(nil)], the hash of the empty list. *)
Definition EmptyUncleHash : Z := rlpHash (Lst []).
Definition CalcUncleHash (uncles : list Header) : Z :=
  match uncles with [] => EmptyUncleHash | _ => rlpHash (Lst (header_item <$> uncles)) end.

(** [SealHash] of [consensus/pbft/pbft.go]. *)
Definition SealHash (h : Header) : Z := Keccak256 (encodeSigHeader h).

Definition block_Hash (b : Block) : Z := header_Hash (block_header b).
End hashes.

(** ** Lemmas *)
Lemma nonce_roundtrip i : is_u64 i -> nonce_Uint64 (EncodeNonce i) = i.
Proof.
  intros Hi. unfold nonce_Uint64, EncodeNonce. rewrite shift_or_be by (unfold is_u64 in Hi; lia).
  by apply Z.mod_small.
Qed.

(** A header whose fields are within their widths, as the decoder produces. *)
Definition wf_header (h : Header) : Prop :=
  Forall (fun x => 0 <= x < 2 ^ 256)
    [ParentHash h; UncleHash h; Root h; TxHash h; ReceiptHash h; MixDigest h] /\
  0 <= Coinbase h < 2 ^ 160 /\ 0 <= Bloom h < 2 ^ 2048 /\
  (exists d, Difficulty h = Some d /\ 0 <= d < 2 ^ 256) /\ (exists n, Number h = Some n /\ 0 <= n < 2 ^ 256) /\
  is_u64 (GasLimit h) /\ is_u64 (GasUsed h) /\ is_u64 (header_Time h) /\
  wf_bytes (header_Nonce h) /\ length (header_Nonce h) = 8%nat.

Lemma zlen_rlp_Str b n : zlen b <= n -> n < 2 ^ 60 -> zlen (rlp (Str b)) <= n + 9.
Proof.
  intros Hb Hn. pose proof (zlen_nonneg b).
  assert (Hh : zlen (head 128 (zlen b)) <= 9).
  { rewrite <- headsize_head by lia. unfold headsize. case_match; [lia|].
    rewrite intsize_be by lia. pose proof (be_size_bound (zlen b)). lia. }
  destruct b as [|x [|y b]]; cbn [rlp] in *; try (rewrite zlen_app; lia).
  case_match; [|rewrite zlen_app]; unfold zlen in *; cbn in *; lia.
Qed.

Lemma zlen_big_Bytes x k : 0 <= x < 2 ^ (8 * k) -> 0 <= k -> zlen (big_Bytes x) <= k.
Proof.
  intros Hx Hk. unfold big_Bytes. destruct (Z.eqb_spec x 0); [done|]. unfold zlen. rewrite be_length.
  unfold be_size. pose proof (Z.log2_nonneg x). assert (Z.log2 x < 8 * k) by (apply Z.log2_lt_pow2; lia). div_lia.
Qed.

Lemma sig_fields_short h :
  wf_header h -> Forall (fun i => exists b, i = Str b /\ zlen b <= 256) (sig_fields h).
Proof.
  intros (Hh & _ & _ & (d & Ed & Hd) & (n & En & Hn) & Hgl & Hgu & Ht & _ & Hno).
  unfold sig_fields, big_item. rewrite Ed, En.
  assert (Hbe : forall k x, (k <= 256)%nat -> zlen (be k x) <= 256)
    by (intros k x Hk; unfold zlen; rewrite be_length; lia).
  assert (Hu : forall x, is_u64 x -> zlen (big_Bytes x) <= 256).
  { intros x Hx. etrans; [apply (zlen_big_Bytes x 8); [exact Hx|done]|done]. }
  assert (Hbig : forall x, 0 <= x < 2 ^ 256 -> zlen (big_Bytes x) <= 256).
  { intros x Hx. etrans; [apply (zlen_big_Bytes x 32); [exact Hx|done]|done]. }
  repeat (apply Forall_cons; split; [eexists; split; [reflexivity|]|]); try apply Hbe; try lia;
    try (by apply Hu); try (by apply Hbig); [|done]. unfold zlen. lia.
Qed.

Lemma sig_header_short h : wf_header h -> zlen (rlp (Lst (sig_fields h))) < 2 ^ 64.
Proof.
  intros Hw. pose proof (sig_fields_short h Hw) as Hf.
  assert (Hc : zlen (concat (rlp <$> sig_fields h)) <= 265 * zlen (sig_fields h)).
  { induction Hf as [|i l (b & -> & Hb) _ IH]; [done|]. cbn [fmap list_fmap concat]. rewrite zlen_app, zlen_cons.
    pose proof (zlen_rlp_Str b 256 Hb ltac:(done)). lia. }
  change (zlen (sig_fields h)) with 14 in Hc. pose proof (zlen_nonneg (concat (rlp <$> sig_fields h))).
  cbn [rlp]. rewrite zlen_app, <- headsize_head by lia. unfold headsize.
  case_match; [lia|]. rewrite intsize_be by lia.
  pose proof (be_size_bound (zlen (concat (rlp <$> sig_fields h)))). lia.
Qed.

Lemma cons_Str_inj a b (l l' : list item) : Str a :: l = Str b :: l' -> a = b /\ l = l'.
Proof. by intros [= -> ->]. Qed.

Lemma Lst_inj (l l' : list item) : Lst l = Lst l' -> l = l'.
Proof. by intros [= ->]. Qed.

#[local] Opaque be big_Bytes.

Lemma sig_fields_inj h1 h2 :
  wf_header h1 -> wf_header h2 -> sig_fields h1 = sig_fields h2 -> h2 = h1 <| Extra := Extra h2 |>.
Proof.
  intros (Hh & Hc & Hb & (d & Ed & Hd) & (n & En & Hn) & Hgl & Hgu & Ht & Hno & Hnl)
         (Hh' & Hc' & Hb' & (d' & Ed' & Hd') & (n' & En' & Hn') & Hgl' & Hgu' & Ht' & Hno' & Hnl') E.
  unfold sig_fields, hash_item, int_item, big_item in E. rewrite Ed, Ed', En, En' in E. cbn [default] in E.
  apply cons_Str_inj in E as [E1 (E2 & (E3 & (E4 & (E5 & (E6 & (E7 & E)%cons_Str_inj)%cons_Str_inj
    )%cons_Str_inj)%cons_Str_inj)%cons_Str_inj)%cons_Str_inj].
  apply cons_Str_inj in E as [E8 (E9 & (E10 & (E11 & (E12 & (E13 & (E14 & _)%cons_Str_inj)%cons_Str_inj
    )%cons_Str_inj)%cons_Str_inj)%cons_Str_inj)%cons_Str_inj].
  rewrite !Forall_cons in Hh, Hh'. unfold is_u64 in *.
  destruct Hh as (? & ? & ? & ? & ? & ? & _), Hh' as (? & ? & ? & ? & ? & ? & _).
  apply (be_inj 32) in E1, E2, E4, E5, E6, E13; [|done..]. apply (be_inj 20) in E3; [|done..].
  apply (be_inj 256) in E7; [|done..]. 
  pose proof (proj1 Hd). pose proof (proj1 Hd'). pose proof (proj1 Hn). pose proof (proj1 Hn').
  apply big_Bytes_inj in E8; [|done..]. apply big_Bytes_inj in E9; [|done..].
  apply big_Bytes_inj in E10; [|by apply Hgl|by apply Hgl']. apply big_Bytes_inj in E11; [|by apply Hgu|by apply Hgu'].
  apply big_Bytes_inj in E12; [|by apply Ht|by apply Ht'].
  destruct h1, h2. cbn in *. by subst.
Qed.

#[local] Transparent be big_Bytes.

(** the seal hash commits to the whole header except the extra data.  For
    headers with fields in range, two seal hashes are equal exactly when the
    headers agree on every field but [Extra], where the confirm is stored, as
    long as Keccak-256 does not collide on the two encodings. *)
Theorem SealHash_commits `{!Keccak} (h1 h2 : Header) :
  wf_header h1 -> wf_header h2 ->
  (Keccak256 (encodeSigHeader h1) = Keccak256 (encodeSigHeader h2) -> encodeSigHeader h1 = encodeSigHeader h2) ->
  SealHash h1 = SealHash h2 <-> h2 = h1 <| Extra := Extra h2 |>.
Proof.
  intros H1 H2 Hk. split.
  - intros E%Hk. unfold encodeSigHeader in E.
    rewrite !EncodeToBytes_rlp in E by (by apply sig_header_short).
    apply rlp_inj in E; [|by apply sig_header_short]. apply Lst_inj in E. by apply sig_fields_inj.
  - intros E. rewrite E. done.
Qed.

(** *** Witness *)
Definition example_header : Header := {|
  ParentHash := 5; UncleHash := 6; Coinbase := 7; Root := 8; TxHash := 9; ReceiptHash := 10; Bloom := 11;
  Difficulty := Some 2; Number := Some 1000; GasLimit := 8000000; GasUsed := 21000; header_Time := 1600000000;
  Extra := [1; 2; 3]; MixDigest := 0; header_Nonce := EncodeNonce 900000 |}.

(** A stand-in for the hash that is injective by construction. *)
Definition toy_keccak : Keccak := fun b => Zpos (encode b).

Lemma toy_keccak_inj a b : toy_keccak a = toy_keccak b -> a = b.
Proof. unfold toy_keccak. intros [= E]. by apply (inj encode) in E. Qed.

Lemma example_header_wf e : wf_header (example_header <| Extra := e |>).
Proof.
  unfold wf_header. cbn -[Z.pow]. split_and!; try (by eexists); try done.
  - repeat constructor; done.
  - apply (bool_decide_unpack _). vm_compute. done.
Qed.

Lemma SealHash_commits_witness :
  @SealHash toy_keccak example_header = @SealHash toy_keccak (example_header <| Extra := [] |>).
Proof.
  apply (@SealHash_commits toy_keccak example_header (example_header <| Extra := [] |>)).
  - apply (example_header_wf [1; 2; 3]).
  - apply example_header_wf.
  - apply toy_keccak_inj.
  - reflexivity.
Defined.
