(* ===== verification/EvilSigners.v ===== *)
(** * [core/evilSigner.go], [core/evil_journal.go]: evidence of double signing

    Two blocks of one height and one signer are evidence against that signer; too much
    evidence in the recent heights stops the chain.  The evidence is written to a
    journal and read back when the node starts.

    [*EvilEvidence] are pointers that a list may hold twice: they index [heap], where
    evidence is only added.  The journal's file is the sequence of the events written;
    [Author] is the engine's method, [signersCount] [blocksigner.GetBlockSignersCount()]. *)
From S2P Require Import Prelude Rlp Header.

Record EvilEvidence := { ev_Height : Z; BlockOnHeight : gmap Z Z }.

Definition NewEvilEvidence (height : Z) : EvilEvidence := {| ev_Height := height; BlockOnHeight := ∅ |}.

Record EvilSingerEvent := { Singer : option Z; event_Height : Z; ElaHeight : Z; event_Hash : Z }.

(** [EvilSignersMap], with the evidence its pointers refer to. *)
Record EvilSigners := { heap : list EvilEvidence; signers : gmap Z (list nat) }.

#[export] Instance EvilSigners_eta : Eta EvilSigners := fun s => {| heap := heap s; signers := signers s |}.

Definition no_signers : EvilSigners := {| heap := []; signers := ∅ |}.

Definition height_at (hp : list EvilEvidence) (p : nat) : Z := default 0 (ev_Height <$> hp !! p).

(** The index [addEvidence] finds: of the last evidence that is higher. *)
Definition insert_index (hp : list EvilEvidence) (ei : list nat) (height : Z) : nat :=
  foldl (fun index '(i, v) => if height <? height_at hp v then i else index) (length ei) (imap pair ei).

(** The first [append] writes into the array that [evilBlocks] still refers to, and the
    second copies from there. *)
Definition addEvidence (height : Z) (ei : list nat) (hp : list EvilEvidence) : nat * list nat * list EvilEvidence :=
  let index := insert_index hp ei height in
  let evilEvidence := length hp in
  let hp := hp ++ [NewEvilEvidence height] in
  let ei :=
    if (index <? length ei)%nat then let evilBlocks := <[ index := evilEvidence ]> ei in take (S index) evilBlocks ++ drop index evilBlocks
    else ei ++ [evilEvidence] in
  (evilEvidence, ei, hp).

Definition getEvidence (height : Z) (ei : list nat) (hp : list EvilEvidence) : nat * list nat * list EvilEvidence :=
  match filter (fun v => height_at hp v = height) ei with
  | v :: _ => (v, ei, hp)
  | [] => addEvidence height ei hp
  end.

Definition ExtraVanity : Z := 32.
Definition ExtraSeal : Z := 65.
Definition ExtraElaHeight : Z := 8.

Definition ParseElaHeightFromHead (head : Header) : Z * error :=
  let length := zlen (Extra head) in
  if length <? ExtraVanity + ExtraSeal + ExtraElaHeight then (0, New "header's extra length is to short")
  else (shift_or (rev (take 8 (drop (Z.to_nat (length - ExtraSeal - ExtraElaHeight)) (Extra head)))), nil_err).

Section evil.
Context `{!Keccak} `{!RangeOrder}.
Context (signersCount : Z) (Author : Header -> Z + string).

(** The last evidence of each signer decides; a signer without evidence is a panic. *)
Definition RemoveOldEvilSigners (currentHeight : option Z) (rangeValue : Z) (s : EvilSigners) : option EvilSigners :=
  foldl (fun acc '(k, v) =>
    s' ← acc;
    match currentHeight with
    | None => Some s'
    | Some current =>
        if rangeValue <=? 0 then Some s'
        else p ← last v; Some (if rangeValue <? i64 (current - height_at (heap s) p) then s' <| signers := delete k (signers s') |> else s')
    end) (Some s) (range_map (signers s)).

(** The hashes that are not yet there, with their heights. *)
Fixpoint add_hashes (hashes : list (Z * Z)) (m : gmap Z Z) : gmap Z Z :=
  match hashes with
  | [] => m
  | (hash, ela) :: hashes => add_hashes hashes (match m !! hash with Some _ => m | None => <[ hash := ela ]> m end)
  end.

(** The evidence of the height; its blocks are returned. *)
Definition UpdateEvilSigners (signer : Z) (height : Z) (hashes : list (Z * Z)) (s : EvilSigners) : option (gmap Z Z * EvilSigners) :=
  s ← RemoveOldEvilSigners (Some height) signersCount s;
  let evidences := default [] (signers s !! signer) in
  let '(p, evidences, hp) := getEvidence height evidences (heap s) in
  e ← hp !! p;
  let m := add_hashes hashes (BlockOnHeight e) in
  Some (m, {| heap := <[ p := {| ev_Height := ev_Height e; BlockOnHeight := m |} ]> hp; signers := <[ signer := evidences ]> (signers s) |}).

Definition in_window (currentHeight height : Z) : bool := (height <=? currentHeight) && (currentHeight - signersCount <? height).

Definition IsDanger (currentHeight threshold : Z) (s : EvilSigners) : bool :=
  if threshold <=? 0 then false
  else
    let count := foldl (fun count '(k, v) => foldr (fun p count => if in_window currentHeight (height_at (heap s) p) then count + 1 else count) count v) 0 (range_map (signers s)) in
    threshold <=? count.

Fixpoint AddEvilSingerEvents (evilEvents : list EvilSingerEvent) (s : EvilSigners) : option EvilSigners :=
  match evilEvents with
  | [] => Some s
  | v :: evilEvents =>
      match Singer v with
      | None => AddEvilSingerEvents evilEvents s
      | Some singer => '(_, s) ← UpdateEvilSigners singer (event_Height v) [(event_Hash v, ElaHeight v)] s; AddEvilSingerEvents evilEvents s
      end
  end.

(** Every event refers to the one variable [singer] of the loop, which holds the last
    signer when the events are read. *)
Definition GetEvilSignerEvents (s : EvilSigners) : list EvilSingerEvent :=
  let visited := range_map (signers s) in
  let singer := fst <$> last visited in
  '(_, evidences) ← visited;
  p ← evidences;
  match heap s !! p with
  | None => []
  | Some blockInfo => (fun '(hash, v) => {| Singer := singer; event_Height := ev_Height blockInfo; ElaHeight := v; event_Hash := hash |}) <$> range_map (BlockOnHeight blockInfo)
  end.

(** Whether to stop, the events for the journal, and the evidence.  A new header without a
    number is a panic: the journal and [IsDanger] dereference it. *)
Definition IsNeedStopChain (headerNew headerOld : Header) (s : EvilSigners) : option (bool * list EvilSingerEvent * EvilSigners) :=
  let hashOld := header_Hash headerOld in
  let hashNew := header_Hash headerNew in
  let elaHeightOld := fst (ParseElaHeightFromHead headerOld) in
  let elaHeightNew := fst (ParseElaHeightFromHead headerNew) in
  if hashNew =? hashOld then Some (false, [], s)
  else match Author headerOld, Author headerNew with
  | inl singerOld, inl singerNew =>
      if negb (singerNew =? singerOld) then Some (false, [], s)
      else
        number ← Number headerNew;
        '(addHashes, s) ← UpdateEvilSigners singerNew number [(hashOld, elaHeightOld); (hashNew, elaHeightNew)] s;
        let events := (fun '(hash, height) => {| Singer := Some singerNew; event_Height := number; ElaHeight := height; event_Hash := hash |}) <$> range_map addHashes in
        Some (IsDanger number (signersCount * 2 / 3) s, events, s)
  | _, _ => Some (false, [], s)
  end.

(** ** The journal *)

Inductive Writer := NoWriter | DevNull | FileWriter.

(** The file: what it holds up to its end, or up to an entry that does not decode. *)
Record EvilJournal := { j_file : option (list EvilSingerEvent * error); j_writer : Writer }.

#[export] Instance EvilJournal_eta : Eta EvilJournal := fun j => {| j_file := j_file j; j_writer := j_writer j |}.

(** In batches of 101. *)
Fixpoint load_loop (events batch : list EvilSingerEvent) (s : EvilSigners) : option EvilSigners :=
  match events with
  | [] => if 0 <? zlen batch then AddEvilSingerEvents batch s else Some s
  | evilEvent :: events =>
      let batch := batch ++ [evilEvent] in
      if 100 <? zlen batch then s ← AddEvilSingerEvents batch s; load_loop events [] s else load_loop events batch s
  end.

Definition Load (j : EvilJournal) (s : EvilSigners) : option (error * EvilJournal * EvilSigners) :=
  match j_file j with
  | None => Some (nil_err, j, s)
  | Some (events, failure) => s ← load_loop events [] s; Some (failure, j <| j_writer := NoWriter |>, s)
  end.

Definition errNoActiveJournal : string := "no active journal".

Definition Insert (evilEvent : EvilSingerEvent) (j : EvilJournal) : error * EvilJournal :=
  match j_writer j with
  | NoWriter => (New errNoActiveJournal, j)
  | DevNull => (nil_err, j)
  | FileWriter => (nil_err, j <| j_file := (fun '(events, failure) => (events ++ [evilEvent], failure)) <$> j_file j |>)
  end.

(** The file is replaced by the events; the file system's errors are not modelled. *)
Definition Rotate (all : list EvilSingerEvent) (j : EvilJournal) : EvilJournal := {| j_file := Some (all, nil_err); j_writer := FileWriter |}.

Definition journal_Close (j : EvilJournal) : EvilJournal := j <| j_writer := NoWriter |>.
End evil.

(** * Facts *)

Lemma height_at_app hp e p : (p < length hp)%nat -> height_at (hp ++ [e]) p = height_at hp p.
Proof. intros Hp. unfold height_at. by rewrite lookup_app_l by done. Qed.

Lemma height_at_new hp h : height_at (hp ++ [NewEvilEvidence h]) (length hp) = h.
Proof. unfold height_at. rewrite lookup_app_r by lia. by rewrite Nat.sub_diag. Qed.

(** Evidence that is not older than the rest goes to the end. *)
Lemma insert_index_end hp ei h : Forall (fun p => height_at hp p <= h) ei -> insert_index hp ei h = length ei.
Proof.
  intros Hf. unfold insert_index. assert (forall d k, foldl (fun index '(i, v) => if h <? height_at hp v then i else index) d (imap (fun n x => ((k + n)%nat, x)) ei) = d) as Hg; [|by apply (Hg _ 0%nat)].
  induction ei as [|p ei IH]; intros d k; [done|]. cbn. apply Forall_cons in Hf as [Hp Hf]. rewrite (proj2 (Z.ltb_ge _ _)) by done.
  etransitivity; [|exact (IH Hf d (S k))]. f_equal. apply imap_ext. intros i x _. cbn. f_equal. lia.
Qed.

(** Otherwise the evidence at the index is overwritten, and the new one is there twice. *)
Lemma addEvidence_overwrites h ei hp :
  (insert_index hp ei h < length ei)%nat ->
  let i := insert_index hp ei h in
  addEvidence h ei hp = (length hp, take i ei ++ [length hp; length hp] ++ drop (S i) ei, hp ++ [NewEvilEvidence h]).
Proof.
  intros Hi i. unfold addEvidence. fold i. rewrite (proj2 (Nat.ltb_lt _ _)) by done. cbn zeta. f_equal. f_equal. fold i in Hi.
  rewrite insert_take_drop by done. rewrite take_app, drop_app, length_take, Nat.min_l by lia. rewrite (take_ge (take i ei)) by (rewrite length_take; lia).
  replace (S i - i)%nat with 1%nat by lia. rewrite (drop_ge (take i ei)) by (rewrite length_take; lia). rewrite Nat.sub_diag. cbn. by rewrite take_0, <- app_assoc.
Qed.

Lemma subseteq_take_elem {A} n (l : list A) x : x ∈ take n l -> x ∈ l.
Proof. intros Hx. rewrite <- (take_drop n l). set_solver. Qed.

Lemma subseteq_drop_elem {A} n (l : list A) x : x ∈ drop n l -> x ∈ l.
Proof. intros Hx. rewrite <- (take_drop n l). set_solver. Qed.

Lemma getEvidence_spec h ei hp p ei' hp' :
  getEvidence h ei hp = (p, ei', hp') ->
  (p ∈ ei /\ height_at hp p = h /\ ei' = ei /\ hp' = hp) \/ (p = length hp /\ hp' = hp ++ [NewEvilEvidence h] /\ p ∈ ei' /\ forall q, q ∈ ei' -> q ∈ ei \/ q = p).
Proof.
  unfold getEvidence. destruct (filter _ ei) as [|v l] eqn:Ef.
  - intros E. right. destruct (decide (insert_index hp ei h < length ei)%nat) as [Hi|Hi].
    + rewrite addEvidence_overwrites in E by done. simplify_eq. split; [done|]. split; [done|]. split; [set_solver|]. intros q. rewrite !elem_of_app, !elem_of_cons, elem_of_nil.
      intros [Hq|[[?|[?|[]]]|Hq]]; [left; by apply (subseteq_take_elem _ _ _ Hq)|by right|by right|left; by apply (subseteq_drop_elem _ _ _ Hq)].
    + unfold addEvidence in E. rewrite (proj2 (Nat.ltb_ge _ _)) in E by lia. simplify_eq. split; [done|]. split; [done|]. split; set_solver.
  - intros E. simplify_eq. left. assert (p ∈ filter (fun v => height_at hp' v = h) ei') as [Hh Hp]%list_elem_of_filter by (rewrite Ef; left). done.
Qed.

Lemma add_hashes_mono hashes m x : is_Some (m !! x) -> is_Some (add_hashes hashes m !! x).
Proof.
  revert m. induction hashes as [|[h e] hashes IH]; intros m Hx; [done|]. cbn. apply IH. case_match; [done|]. rewrite lookup_insert. case_decide; [eauto|done].
Qed.

Lemma add_hashes_spec hashes m x : is_Some (add_hashes hashes m !! x) <-> is_Some (m !! x) \/ x ∈ hashes.*1.
Proof.
  revert m. induction hashes as [|[h e] hashes IH]; intros m; cbn; [set_solver|]. rewrite IH, elem_of_cons. split.
  - intros [Hx|Hx]; [|tauto]. case_match; [tauto|]. rewrite lookup_insert in Hx. case_decide; [subst; auto|auto].
  - assert (is_Some (match m !! h with Some _ => m | None => <[h:=e]> m end !! h)) as Hh by (case_match; [eauto|rewrite lookup_insert_eq; eauto]).
    intros [Hx|[->|Hx]]; [left|by left|by right]. case_match; [done|]. rewrite lookup_insert. case_decide; [eauto|done].
Qed.

Section facts.
Context `{!Keccak} `{!RangeOrder}.
Context (signersCount : Z) (Author : Header -> Z + string).

(** Every signer has evidence, and its own. *)
Record evil_wf (s : EvilSigners) : Prop := {
  wf_ptr : forall a v p, signers s !! a = Some v -> p ∈ v -> (p < length (heap s))%nat;
  wf_own : forall a b v w p, signers s !! a = Some v -> signers s !! b = Some w -> p ∈ v -> p ∈ w -> a = b;
  wf_some : forall a v, signers s !! a = Some v -> v <> []
}.

Lemma no_signers_wf : evil_wf no_signers.
Proof. split; cbn; intros *; rewrite ?lookup_empty; done. Qed.

Lemma evil_wf_sub s s' : heap s' = heap s -> signers s' ⊆ signers s -> evil_wf s -> evil_wf s'.
Proof.
  intros Eh Hs [W1 W2 W3]. split; rewrite ?Eh; intros *.
  - intros Ha. apply (W1 a). by eapply lookup_weaken.
  - intros Ha Hb. apply (W2 a b v w); by eapply lookup_weaken.
  - intros Ha. apply (W3 a). by eapply lookup_weaken.
Qed.

Lemma RemoveOld_total current range s : evil_wf s -> exists s', RemoveOldEvilSigners current range s = Some s' /\ heap s' = heap s /\ signers s' ⊆ signers s.
Proof.
  intros [_ _ Hsome]. unfold RemoveOldEvilSigners. assert (forall k v, (k, v) ∈ range_map (signers s) -> v <> []) as Hl by (intros k v Hk%elem_of_range_map; by eapply Hsome).
  enough (forall l s0, (forall k v, (k, v) ∈ l -> v <> []) -> heap s0 = heap s -> signers s0 ⊆ signers s ->
    exists s', foldl (fun acc '(k, v) => s' ← acc; match current with None => Some s' | Some current => if range <=? 0 then Some s' else p ← last v; Some (if range <? i64 (current - height_at (heap s) p) then s' <| signers := delete k (signers s') |> else s') end) (Some s0) l = Some s'
      /\ heap s' = heap s /\ signers s' ⊆ signers s) as Hg by (by apply Hg).
  clear Hl. induction l as [|[k v] l IH]; cbn [foldl]; intros s0 Hl Eh Es; [by exists s0|].
  assert (forall k v, (k, v) ∈ l -> v <> []) as Hl' by (intros ? ? ?; apply (Hl k0); by right).
  destruct current as [c|]; [|by apply IH]. cbn [mbind option_bind]. destruct (range <=? 0); [by apply IH|].
  destruct (last v) as [p|] eqn:El; [|apply last_None in El; destruct (Hl k v); [by left|done]]. cbn [mbind option_bind].
  apply IH; [done| |]; case_match; cbn; try done. transitivity (signers s0); [apply delete_subseteq|done].
Qed.

(** What an update does: the old evidence that stays, and the one of the height. *)
Lemma Update_spec a h hashes s :
  evil_wf s -> exists m s' s1 v p e, UpdateEvilSigners signersCount a h hashes s = Some (m, s') /\
    heap s1 = heap s /\ signers s1 ⊆ signers s /\ evil_wf s1 /\ evil_wf s' /\
    signers s' = <[ a := v ]> (signers s1) /\ p ∈ v /\ heap s' !! p = Some {| ev_Height := h; BlockOnHeight := m |} /\ m = add_hashes hashes (BlockOnHeight e) /\
    (BlockOnHeight e = ∅ \/ exists v0, signers s1 !! a = Some v0 /\ p ∈ v0 /\ heap s !! p = Some e /\ ev_Height e = h) /\
    (forall q, q ∈ v -> q <> p -> exists v0, signers s1 !! a = Some v0 /\ q ∈ v0) /\
    (forall q, (q < length (heap s))%nat -> q <> p -> heap s' !! q = heap s !! q).
Proof.
  intros Hwf. destruct (RemoveOld_total (Some h) signersCount s Hwf) as (s1 & E1 & Eh & Es). pose proof (evil_wf_sub s s1 Eh Es Hwf) as [W1 W2 W3].
  unfold UpdateEvilSigners. rewrite E1. cbn [mbind option_bind]. destruct (getEvidence h _ _) as [[p v] hp] eqn:Eg.
  assert (forall q, q ∈ default [] (signers s1 !! a) -> exists v0, signers s1 !! a = Some v0 /\ q ∈ v0) as Hdef by (intros q; destruct (signers s1 !! a) as [v0|]; cbn; [eauto|by intros ?%not_elem_of_nil]).
  apply getEvidence_spec in Eg as [(Hp & Hh & -> & ->)|(-> & -> & Hp & Hv)].
  - destruct (Hdef p Hp) as (v0 & Ev0 & Hp0). rewrite Ev0 in *. cbn in *. destruct (lookup_lt_is_Some_2 (heap s1) p) as [e Ee]; [by eapply W1|]. rewrite Ee. cbn.
    assert (ev_Height e = h) as He by (unfold height_at in Hh; by rewrite Ee in Hh). rewrite He.
    eexists _, _, s1, v0, p, e. split; [done|]. split; [done|]. split; [done|]. split; [done|]. split; [|split; [done|]].
    { split; cbn; rewrite ?length_insert; rewrite insert_id by done; done. }
    split; [done|]. split; [cbn; by rewrite list_lookup_insert_eq by (by apply lookup_lt_Some in Ee)|]. split; [done|]. split; [right; exists v0; by rewrite <- Eh|].
    split; [by exists v0|]. intros q _ Hq. cbn. rewrite list_lookup_insert_ne by done. by rewrite Eh.
  - rewrite lookup_app_r, Nat.sub_diag by lia. cbn. eexists _, _, s1, v, (length (heap s1)), (NewEvilEvidence h). split; [done|]. split; [done|]. split; [done|]. split; [done|].
    assert (forall q, q ∈ default [] (signers s1 !! a) -> (q < length (heap s1))%nat) as Hlt by (intros q (v0 & Ev0 & Hq)%Hdef; by eapply W1).
    split; [|split; [done|]].
    { split; cbn; rewrite ?length_insert, ?length_app; cbn.
      - intros b w q. rewrite lookup_insert. case_decide as D; [intros [= <-] [Hq| ->]%Hv; [specialize (Hlt q Hq)|]; lia|]. intros Hb Hq. specialize (W1 b w q Hb Hq). lia.
      - intros b c w x q. rewrite !lookup_insert. repeat case_decide; subst; try done; intros H1' H2' Hq1 Hq2; simplify_eq.
        + apply Hv in Hq1 as [Hq1| ->]; [|specialize (W1 c x _ H2' Hq2); lia]. destruct (Hdef q Hq1) as (v0 & Ev0 & Hq0). by eapply (W2 b c v0 x).
        + apply Hv in Hq2 as [Hq2| ->]; [|specialize (W1 b w _ H1' Hq1); lia]. destruct (Hdef q Hq2) as (v0 & Ev0 & Hq0). by eapply (W2 b c w v0).
        + by eapply (W2 b c w x).
      - intros b w. rewrite lookup_insert. case_decide; [intros [= <-] ->; by apply not_elem_of_nil in Hp|apply W3]. }
    split; [done|]. split; [cbn; by rewrite list_lookup_insert_eq by (rewrite length_app; cbn; lia)|]. split; [done|]. split; [by left|].
    split; [intros q [Hq|Hq]%Hv Hne; [by apply Hdef|done]|]. intros q Hq Hne. cbn. rewrite list_lookup_insert_ne by done. rewrite lookup_app_l by (rewrite Eh; lia). by rewrite Eh.
Qed.

(** Pairs of blocks of one height, the new one first, and whether the last stops the
    chain. *)
Fixpoint watch (pairs : list (Header * Header)) (stop : bool) (s : EvilSigners) : option (bool * EvilSigners) :=
  match pairs with
  | [] => Some (stop, s)
  | (headerNew, headerOld) :: pairs => '(stop, _, s) ← IsNeedStopChain signersCount Author headerNew headerOld s; watch pairs stop s
  end.

(** The signer made a block with that number and hash, among those seen. *)
Definition signed_by (seen : list (Header * Header)) (a number hash : Z) : Prop :=
  exists n o h, (n, o) ∈ seen /\ (h = n \/ h = o) /\ Author h = inl a /\ default 0 (Number h) = number /\ header_Hash h = hash.

(** Evidence is of two blocks at least, which its signer made. *)
Definition justified (seen : list (Header * Header)) (s : EvilSigners) : Prop :=
  forall a v p e, signers s !! a = Some v -> p ∈ v -> heap s !! p = Some e ->
  (exists x y, x <> y /\ is_Some (BlockOnHeight e !! x) /\ is_Some (BlockOnHeight e !! y)) /\
  (forall x, is_Some (BlockOnHeight e !! x) -> signed_by seen a (ev_Height e) x).

Lemma justified_more seen more s : justified seen s -> justified (more ++ seen) s.
Proof.
  intros Hj a v p e Ha Hp He. destruct (Hj a v p e Ha Hp He) as [H1' H2']. split; [done|]. intros x Hx. destruct (H2' x Hx) as (n & o & h & Hin & Hh & Hrest).
  exists n, o, h. split; [set_solver|done].
Qed.

Lemma IsNeedStopChain_justified seen n o s :
  evil_wf s -> justified seen s -> is_Some (Number n) -> Number o = Number n ->
  exists stop events s', IsNeedStopChain signersCount Author n o s = Some (stop, events, s') /\ evil_wf s' /\ justified ((n, o) :: seen) s'.
Proof.
  intros Hwf Hj [k Hk] Hno. apply (justified_more _ [(n, o)]) in Hj. cbn in Hj. unfold IsNeedStopChain. destruct (header_Hash n =? header_Hash o) eqn:Eh; [eauto 10|]. apply Z.eqb_neq in Eh.
  destruct (Author o) as [a|] eqn:Eo; [|eauto 10]. destruct (Author n) as [b|] eqn:En; [|eauto 10]. destruct (b =? a) eqn:Eab; cbn; [|eauto 10]. apply Z.eqb_eq in Eab. subst b. rewrite Hk. cbn [mbind option_bind].
  set (hashes := [(header_Hash o, _); (header_Hash n, _)]).
  destruct (Update_spec a k hashes s Hwf) as (m & s' & s1 & v & p & e & E & Eh1 & Es1 & Hwf1 & Hwf' & Esig & Hp & Ep & Em & He & Hrest & Hold).
  rewrite E. cbn. eexists _, _, s'. split; [done|]. split; [done|].
  intros b w q f Hb Hq Hf. rewrite Esig, lookup_insert in Hb. assert (forall c, c ∈ w -> (c < length (heap s'))%nat) as Hlt.
  { intros c Hc. eapply (wf_ptr s' Hwf' b); [|done]. by rewrite Esig, lookup_insert. }
  destruct (decide (q = p)) as [->|Hqp].
  - assert (b = a) as ->.
    { case_decide as D; [done|]. eapply (wf_own s' Hwf' b a w v p); try done; rewrite Esig, lookup_insert; by case_decide. }
    rewrite Ep in Hf. injection Hf as <-. cbn [BlockOnHeight ev_Height]. rewrite Em. assert (hashes.*1 = [header_Hash o; header_Hash n]) as Ehs by done. clearbody hashes. split.
    + exists (header_Hash n), (header_Hash o). split; [done|]. split; apply add_hashes_spec; right; rewrite Ehs; set_solver.
    + intros x [Hx|Hx]%add_hashes_spec.
      * destruct He as [He|(v0 & Ev0 & Hp0 & He & Hh)]; [rewrite He, lookup_empty in Hx; by destruct Hx|].
        rewrite <- Hh. eapply (Hj a v0 p e); [by eapply lookup_weaken|done|done|done].
      * rewrite Ehs, !elem_of_cons, elem_of_nil in Hx. destruct Hx as [->|[->|[]]]; [exists n, o, o; rewrite Hno, Hk|exists n, o, n; rewrite Hk]; (split; [left|]; auto).
  - assert (exists w0, signers s1 !! b = Some w0 /\ q ∈ w0) as (w0 & Ew0 & Hq0).
    { case_decide as D; [subst b; simplify_eq; by apply Hrest|eauto]. }
    apply (Hj b w0 q f); [by eapply lookup_weaken|done|]. rewrite <- Hold; [done| |done]. rewrite <- Eh1. by eapply (wf_ptr s1 Hwf1).
Qed.

Lemma IsNeedStopChain_total n o s : is_Some (Number n) -> evil_wf s -> exists stop events s', IsNeedStopChain signersCount Author n o s = Some (stop, events, s').
Proof.
  intros [k Hk] Hwf. unfold IsNeedStopChain. destruct (_ =? _); [eauto|]. destruct (Author o) as [a|]; [|eauto]. destruct (Author n) as [b|]; [|eauto]. destruct (negb _); [eauto|]. rewrite Hk. cbn [mbind option_bind].
  destruct (Update_spec b k [(header_Hash o, fst (ParseElaHeightFromHead o)); (header_Hash n, fst (ParseElaHeightFromHead n))] s Hwf) as (m & s' & s1 & v & p & e & E & _). rewrite E. cbn. eauto.
Qed.

Lemma watch_justified pairs seen stop s :
  evil_wf s -> justified seen s -> Forall (fun '(n, o) => is_Some (Number n) /\ Number o = Number n) pairs ->
  exists stop' s', watch pairs stop s = Some (stop', s') /\ evil_wf s' /\ justified (reverse pairs ++ seen) s'.
Proof.
  revert seen stop s. induction pairs as [|[n o] pairs IH]; intros seen stop s Hwf Hj Hf; [eauto|]. apply Forall_cons in Hf as [[Hnn Hno] Hf]. cbn [watch].
  destruct (IsNeedStopChain_justified seen n o s Hwf Hj Hnn Hno) as (stop1 & events & s1 & E & Hwf1 & Hj1). rewrite E. cbn [mbind option_bind].
  destruct (IH ((n, o) :: seen) stop1 s1 Hwf1 Hj1 Hf) as (stop' & s' & E' & Hwf' & Hj'). exists stop', s'. split; [done|]. split; [done|]. by rewrite reverse_cons, <- app_assoc.
Qed.

(** C31: No innocent signer is accused.  After any sequence of pairs of blocks of equal
    heights, starting without evidence, the watch has not panicked, and every piece of evidence it holds against a
    signer is of at least two different blocks, all of which that signer made at that
    height. *)
Theorem evidence_is_double_sign pairs :
  Forall (fun '(n, o) => is_Some (Number n) /\ Number o = Number n) pairs ->
  exists stop s, watch pairs false no_signers = Some (stop, s) /\ justified pairs s.
Proof.
  intros Hf. destruct (watch_justified pairs [] false no_signers no_signers_wf) as (stop & s & E & _ & Hj); [|done|].
  - intros a v p e Ha. cbn in Ha. by rewrite lookup_empty in Ha.
  - exists stop, s. split; [done|]. intros a v p e Ha Hp He. destruct (Hj a v p e Ha Hp He) as [H1' H2']. split; [done|]. intros x Hx. destruct (H2' x Hx) as (n & o & h & Hin & Hrest).
    exists n, o, h. split; [|done]. rewrite app_nil_r in Hin. by apply elem_of_reverse.
Qed.

(** ** One signer is enough *)

(** The only evidence is against [a], one piece for each of the [n] heights from [k]. *)
Definition only_against (a k : Z) (n : nat) (s : EvilSigners) : Prop :=
  exists v, ((signers s = {[ a := v ]} /\ v <> []) \/ (signers s = ∅ /\ v = [])) /\ Forall (fun p => (p < length (heap s))%nat) v /\
    (height_at (heap s) <$> v) = (fun i => k + Z.of_nat i) <$> seq 0 n.

Lemma range_map_singleton {V} (a : Z) (v : V) : range_map ({[ a := v ]} : gmap Z V) = [(a, v)].
Proof. unfold range_map. rewrite map_to_list_singleton. apply Permutation_singleton_r, range_order_perm. Qed.

Lemma only_against_remove a k n s : 1 < signersCount -> only_against a k n s -> RemoveOldEvilSigners (Some (k + Z.of_nat n)) signersCount s = Some s.
Proof.
  intros Hc (v & [[Es Hv]|[Es ->]] & Hp & Hh); unfold RemoveOldEvilSigners; rewrite Es; [|by rewrite range_map_empty].
  rewrite range_map_singleton. cbn [foldl]. cbn. rewrite (proj2 (Z.leb_gt _ _)) by lia. destruct n as [|n]; [by destruct v|].
  rewrite seq_S, fmap_app in Hh. cbn in Hh. assert (last (height_at (heap s) <$> v) = Some (k + Z.of_nat n)) as Hl by (by rewrite Hh, last_snoc).
  rewrite fmap_last in Hl. destruct (last v) as [p|]; [|done]. cbn in *. injection Hl as Hl. rewrite Hl, i64_id by (unfold is_i64; lia).
  by rewrite (proj2 (Z.ltb_ge _ _)) by lia.
Qed.

Lemma only_against_step a k n hashes s :
  1 < signersCount -> only_against a k n s ->
  exists m s', UpdateEvilSigners signersCount a (k + Z.of_nat n) hashes s = Some (m, s') /\ only_against a k (S n) s'.
Proof.
  intros Hc Ho. unfold UpdateEvilSigners. rewrite (only_against_remove a k n) by done. cbn [mbind option_bind]. destruct Ho as (v & Es & Hp & Hh).
  assert (default [] (signers s !! a) = v) as -> by (destruct Es as [[-> _]|[-> ->]]; [by rewrite lookup_singleton_eq|done]).
  assert (Forall (fun p => height_at (heap s) p < k + Z.of_nat n) v) as Hlt.
  { apply Forall_fmap with (f := height_at (heap s)) (P := fun h => h < k + Z.of_nat n). rewrite Hh. apply Forall_fmap, Forall_forall. intros i Hi%elem_of_seq. cbn. lia. }
  unfold getEvidence. assert (filter (fun q => height_at (heap s) q = k + Z.of_nat n) v = []) as ->.
  { rewrite Forall_forall in Hlt. destruct (filter _ v) as [|q l] eqn:Ef; [done|]. assert (q ∈ filter (fun q => height_at (heap s) q = k + Z.of_nat n) v) as [Hq Hqv]%list_elem_of_filter by (rewrite Ef; left).
    specialize (Hlt q Hqv). lia. }
  unfold addEvidence. rewrite insert_index_end by (eapply Forall_impl; [exact Hlt|]; cbn; lia). rewrite Nat.ltb_irrefl. rewrite lookup_app_r by lia. rewrite Nat.sub_diag. cbn.
  eexists _, _. split; [done|]. exists (v ++ [length (heap s)]). rewrite seq_S, !fmap_app. cbn [heap signers]. split; [left; split|].
  - destruct Es as [[-> _]|[-> ->]]; [by rewrite insert_singleton_eq|done].
  - by destruct v.
  - rewrite length_insert, length_app, insert_app_r_alt, Nat.sub_diag by lia. cbn -[seq]. split.
    + apply Forall_app. split; [eapply Forall_impl; [exact Hp|]; cbn; lia|]. constructor; [lia|done].
    + rewrite <- Hh. f_equal.
      * apply list_fmap_ext. intros i q Hq. apply height_at_app. rewrite Forall_forall in Hp. apply Hp. by eapply list_elem_of_lookup_2.
      * f_equal. unfold height_at. rewrite lookup_app_r by lia. by rewrite Nat.sub_diag.
Qed.

Lemma count_all (f : nat -> bool) v c : Forall (fun p => f p = true) v -> foldr (fun p count => if f p then count + 1 else count) c v = c + zlen v.
Proof. induction 1 as [|p v Hp _ IH]; [unfold zlen; cbn; lia|]. cbn. rewrite Hp, IH, zlen_cons. lia. Qed.

Lemma only_against_danger a k n s :
  (0 < n)%nat -> Z.of_nat n <= signersCount -> only_against a k n s -> IsDanger signersCount (k + Z.of_nat n - 1) (Z.of_nat n) s = true.
Proof.
  intros Hn Hc (v & Es & _ & Hh). assert (length v = n) as Hlen by (rewrite <- (length_fmap (height_at (heap s))), Hh, length_fmap; apply length_seq).
  destruct Es as [[Es _]|[_ ->]]; [|cbn in Hlen; lia]. unfold IsDanger. rewrite (proj2 (Z.leb_gt _ _)) by lia. rewrite Es, range_map_singleton. cbn [foldl].
  rewrite count_all; [unfold zlen; apply Z.leb_le; lia|]. apply Forall_fmap with (f := height_at (heap s)) (P := fun h => in_window signersCount (k + Z.of_nat n - 1) h = true).
  rewrite Hh. apply Forall_fmap, Forall_forall. intros i Hi%elem_of_seq. cbn. unfold in_window. apply andb_true_iff. split; [apply Z.leb_le|apply Z.ltb_lt]; lia.
Qed.

Lemma watch_one a k pairs n stop s :
  1 < signersCount -> only_against a k n s ->
  (forall i p, pairs !! i = Some p -> Number p.1 = Some (k + Z.of_nat (n + i)) /\ Author p.1 = inl a /\ Author p.2 = inl a /\ header_Hash p.1 <> header_Hash p.2) ->
  exists stop' s', watch pairs stop s = Some (stop', s') /\ only_against a k (n + length pairs) s' /\
    (pairs <> [] -> stop' = IsDanger signersCount (k + Z.of_nat (n + length pairs) - 1) (signersCount * 2 / 3) s').
Proof.
  intros Hc. revert n stop s. induction pairs as [|[hn ho] pairs IH]; intros n stop s Ho Hp; [exists stop, s; rewrite Nat.add_0_r; done|].
  destruct (Hp 0%nat (hn, ho) eq_refl) as (Hnum & Han & Hao & Hne). cbn in Hnum, Han, Hao, Hne. cbn [watch]. unfold IsNeedStopChain.
  rewrite (proj2 (Z.eqb_neq _ _)) by done. rewrite Han, Hao, Z.eqb_refl, Hnum. cbn [negb mbind option_bind]. rewrite Nat.add_0_r.
  destruct (only_against_step a k n [(header_Hash ho, fst (ParseElaHeightFromHead ho)); (header_Hash hn, fst (ParseElaHeightFromHead hn))] s Hc Ho) as (m & s1 & E & Ho1).
  rewrite E. cbn [mbind option_bind]. destruct (IH (S n) (IsDanger signersCount (k + Z.of_nat n) (signersCount * 2 / 3) s1) s1 Ho1) as (stop' & s' & E' & Ho' & Hs').
  { intros i p Hi. rewrite Nat.add_succ_l, <- Nat.add_succ_r. by apply Hp. }
  exists stop', s'. split; [done|]. cbn [length]. rewrite <- Nat.add_succ_comm. split; [done|]. intros _. destruct pairs as [|q pairs]; [|by apply Hs'].
  cbn in E'. simplify_eq. cbn. f_equal. lia.
Qed.

(** One signer stops the chain.  [IsDanger] counts pieces of evidence and not signers:
    among any number of signers, one that signs two blocks at each of two thirds as many
    consecutive heights makes the last call of the watch report too many evil
    signers. *)
Theorem one_signer_stops_chain a k pairs :
  0 < signersCount * 2 / 3 -> zlen pairs = signersCount * 2 / 3 ->
  (forall i p, pairs !! i = Some p -> Number p.1 = Some (k + Z.of_nat i) /\ Author p.1 = inl a /\ Author p.2 = inl a /\ header_Hash p.1 <> header_Hash p.2) ->
  exists s v, watch pairs false no_signers = Some (true, s) /\ signers s = {[ a := v ]}.
Proof.
  intros Ht Hlen Hp. assert (1 < signersCount /\ signersCount * 2 / 3 <= signersCount) as [Hc Hle] by (split; div_lia).
  destruct (watch_one a k pairs 0 false no_signers Hc) as (stop & s & E & Ho & Hs); [exists []; split; [by right|done]|exact Hp|].
  cbn in Ho, Hs. assert (0 < length pairs)%nat as Hpos by (unfold zlen in Hlen; lia). rewrite Hs in E by (intros ->; cbn in Hpos; lia).
  rewrite <- Hlen in E. unfold zlen in E, Hlen. rewrite (only_against_danger a) in E; [|done|lia|done].
  destruct Ho as (v & [[Es _]|[_ ->]] & _ & Hh); [by exists s, v|]. destruct pairs; cbn in *; [lia|done].
Qed.

(** ** The journal *)

Lemma AddEvents_app xs ys s : AddEvilSingerEvents signersCount (xs ++ ys) s = (s ← AddEvilSingerEvents signersCount xs s; AddEvilSingerEvents signersCount ys s).
Proof.
  revert s. induction xs as [|x xs IH]; intros s; [done|]. cbn. destruct (Singer x); [|apply IH]. destruct (UpdateEvilSigners _ _ _ _ s) as [[m s']|]; [apply IH|done].
Qed.

(** Reading in batches is reading one by one. *)
Lemma load_loop_spec events batch s : load_loop signersCount events batch s = AddEvilSingerEvents signersCount (batch ++ events) s.
Proof.
  revert batch s. induction events as [|e events IH]; intros batch s; cbn [load_loop].
  - rewrite app_nil_r. destruct batch; [done|]. by rewrite (proj2 (Z.ltb_lt _ _)) by (rewrite zlen_cons; pose proof (zlen_nonneg batch); lia).
  - replace (batch ++ e :: events) with ((batch ++ [e]) ++ events) by (by rewrite <- app_assoc). case_match; [|by rewrite IH]. rewrite (AddEvents_app (batch ++ [e])). destruct (AddEvilSingerEvents signersCount (batch ++ [e]) s); [|done]. cbn. by rewrite IH.
Qed.

(** Events of one signer make evidence against no other. *)
Lemma AddEvents_one x events s :
  evil_wf s -> (forall a, is_Some (signers s !! a) -> Some a = x) -> Forall (fun e => Singer e = x) events ->
  exists s', AddEvilSingerEvents signersCount events s = Some s' /\ evil_wf s' /\ forall a, is_Some (signers s' !! a) -> Some a = x.
Proof.
  revert s. induction events as [|e events IH]; intros s Hwf Hs Hf; [eauto|]. apply Forall_cons in Hf as [He Hf]. cbn. rewrite He. destruct x as [x|]; [|by apply IH].
  destruct (Update_spec x (event_Height e) [(event_Hash e, ElaHeight e)] s Hwf) as (m & s' & s1 & v & p & ev & E & _ & Es1 & _ & Hwf' & Esig & _). rewrite E. cbn. apply IH; [done| |done].
  intros a. rewrite Esig, lookup_insert. case_decide; [by subst|]. intros [w Hw]. apply Hs. exists w. by eapply lookup_weaken.
Qed.

(** A restart blames one signer.  The events that [GetEvilSignerEvents] returns all
    name the signer that the loop visited last; whatever evidence the node had against
    however many signers, after [Rotate] and [Load] there is evidence against at most
    one. *)
Theorem restart_blames_one s j :
  exists s', Load signersCount (Rotate (GetEvilSignerEvents s) j) no_signers = Some (nil_err, journal_Close (Rotate (GetEvilSignerEvents s) j), s') /\
    forall a b, is_Some (signers s' !! a) -> is_Some (signers s' !! b) -> a = b.
Proof.
  unfold Load, Rotate. cbn [j_file]. rewrite load_loop_spec. destruct (AddEvents_one (fst <$> last (range_map (signers s))) (GetEvilSignerEvents s) no_signers) as (s' & E & _ & Hs).
  - apply no_signers_wf.
  - intros a [v Hv]. cbn in Hv. by rewrite lookup_empty in Hv.
  - apply Forall_forall. intros e. unfold GetEvilSignerEvents. rewrite list_elem_of_bind. intros ([a ps] & He & _). rewrite list_elem_of_bind in He. destruct He as (p & He & _).
    destruct (heap s !! p); [|by apply not_elem_of_nil in He]. apply list_elem_of_fmap in He as ([h v] & -> & _). done.
  - exists s'. rewrite app_nil_l, E. split; [done|]. intros a b Ha%Hs Hb%Hs. congruence.
Qed.
End facts.

(** * A small instance *)
Module ToyEvil.
#[export] Instance order : RangeOrder := list_range_order.
#[export] Instance keccak : Keccak := toy_keccak.

Definition header (coinbase number variant : Z) : Header := {|
  ParentHash := 0; UncleHash := 0; Coinbase := coinbase; Root := variant; TxHash := 0; ReceiptHash := 0; Bloom := 0; Difficulty := Some 2; Number := Some number;
  GasLimit := 0; GasUsed := 0; header_Time := 0; Extra := []; MixDigest := 0; header_Nonce := []
|}.

Definition author (h : Header) : Z + string := inl (Coinbase h).

(** Signer 7 signs two blocks at the heights 1 to 4 of a chain with six signers. *)
Definition pairs : list (Header * Header) := (fun i => (header 7 i 1, header 7 i 2)) <$> [1; 2; 3; 4].
Definition after (ps : list (Header * Header)) : option (list Z) :=
  (fun '(_, s) => height_at (heap s) <$> default [] (signers s !! 7)) <$> watch 6 author ps false no_signers.
End ToyEvil.
#[local] Existing Instances ToyEvil.order ToyEvil.keccak.

Lemma evidence_is_double_sign_witness : exists stop s, watch 6 ToyEvil.author ToyEvil.pairs false no_signers = Some (stop, s) /\ justified ToyEvil.author ToyEvil.pairs s.
Proof. apply (evidence_is_double_sign 6 ToyEvil.author ToyEvil.pairs). repeat (constructor; [split; [eexists; reflexivity|reflexivity]|]). constructor. Defined.

Lemma one_signer_stops_chain_witness : exists s v, watch 6 ToyEvil.author ToyEvil.pairs false no_signers = Some (true, s) /\ signers s = {[ 7 := v ]}.
Proof.
  apply (one_signer_stops_chain 6 ToyEvil.author 7 1 ToyEvil.pairs); [done|done|]. intros i p Hp.
  do 4 (destruct i as [|i]; [injection Hp as <-; split; [done|]; split; [done|]; split; [done|]; by apply Z.eqb_neq|]). done.
Defined.

(** Evidence at the height 5 after evidence at the height 10: the latter is gone, and the
    former there twice. *)
Example out_of_order_evidence :
  ToyEvil.after [(ToyEvil.header 7 10 1, ToyEvil.header 7 10 2)] = Some [10] /\
  ToyEvil.after [(ToyEvil.header 7 10 1, ToyEvil.header 7 10 2); (ToyEvil.header 7 5 1, ToyEvil.header 7 5 2)] = Some [5; 5].
Proof. split; vm_compute; reflexivity. Qed.
