(* ===== verification/HeaderChain.v ===== *)
(** * [core/rawdb/accessors_chain.go], [core/headerchain.go]: the stored headers and the canonical chain

    The database is a record with a map for each kind of key: headers, bodies, receipts
    and total difficulties by number and hash, the number of a hash, the canonical hash
    of a number, the block of a transaction, and the three heads.  A batch is applied
    where it is written.  The caches hold what the database holds and the freezer holds
    old entries of the same maps, so neither is there.

    A missing canonical hash reads as zero.  A nil pointer that is dereferenced, or a
    loop that does not end, is [None]. *)
From S2P Require Import Prelude Rlp Header.

Definition ErrUnknownAncestor : string := "unknown ancestor".
Definition ErrPrunedAncestor : string := "pruned ancestor".
Definition ErrFutureBlock : string := "block in the future".
Definition ErrBlacklistedHash : string := "blacklisted hash".

(** Receipts are known by their logs. *)
Record Body := { body_transactions : list bytes; body_uncles : list Header }.

Record Db := {
  db_canon : gmap Z Z;
  db_number : gmap Z Z;
  db_headers : gmap (Z * Z) Header;
  db_bodies : gmap (Z * Z) Body;
  db_receipts : gmap (Z * Z) (list bytes);
  db_td : gmap (Z * Z) Z;
  db_lookup : gmap Z Z;
  db_headHeader : Z;
  db_headBlock : Z;
  db_headFast : Z
}.

#[export] Instance Db_eta : Eta Db := fun d => {|
  db_canon := db_canon d; db_number := db_number d; db_headers := db_headers d; db_bodies := db_bodies d; db_receipts := db_receipts d; db_td := db_td d;
  db_lookup := db_lookup d; db_headHeader := db_headHeader d; db_headBlock := db_headBlock d; db_headFast := db_headFast d
|}.

Definition ReadCanonicalHash (number : Z) (d : Db) : Z := default 0 (db_canon d !! number).
Definition WriteCanonicalHash (hash number : Z) (d : Db) : Db := d <| db_canon := <[ number := hash ]> (db_canon d) |>.
Definition DeleteCanonicalHash (number : Z) (d : Db) : Db := d <| db_canon := delete number (db_canon d) |>.
Definition ReadHeaderNumber (hash : Z) (d : Db) : option Z := db_number d !! hash.
Definition ReadHeader (hash number : Z) (d : Db) : option Header := db_headers d !! (number, hash).
Definition HasHeader (hash number : Z) (d : Db) : bool := bool_decide (is_Some (db_headers d !! (number, hash))).
Definition DeleteHeader (hash number : Z) (d : Db) : Db := d <| db_headers := delete (number, hash) (db_headers d) |> <| db_number := delete hash (db_number d) |>.
Definition ReadBody (hash number : Z) (d : Db) : option Body := db_bodies d !! (number, hash).
Definition HasBody (hash number : Z) (d : Db) : bool := bool_decide (is_Some (db_bodies d !! (number, hash))).
Definition WriteBody (hash number : Z) (body : Body) (d : Db) : Db := d <| db_bodies := <[ (number, hash) := body ]> (db_bodies d) |>.
Definition DeleteBody (hash number : Z) (d : Db) : Db := d <| db_bodies := delete (number, hash) (db_bodies d) |>.
Definition ReadTd (hash number : Z) (d : Db) : option Z := db_td d !! (number, hash).
Definition WriteTd (hash number td : Z) (d : Db) : Db := d <| db_td := <[ (number, hash) := td ]> (db_td d) |>.
Definition DeleteTd (hash number : Z) (d : Db) : Db := d <| db_td := delete (number, hash) (db_td d) |>.
Definition ReadReceipts (hash number : Z) (d : Db) : option (list bytes) := db_receipts d !! (number, hash).
Definition WriteReceipts (hash number : Z) (receipts : list bytes) (d : Db) : Db := d <| db_receipts := <[ (number, hash) := receipts ]> (db_receipts d) |>.
Definition DeleteReceipts (hash number : Z) (d : Db) : Db := d <| db_receipts := delete (number, hash) (db_receipts d) |>.
Definition WriteHeadHeaderHash (hash : Z) (d : Db) : Db := d <| db_headHeader := hash |>.
Definition WriteHeadBlockHash (hash : Z) (d : Db) : Db := d <| db_headBlock := hash |>.
Definition WriteHeadFastBlockHash (hash : Z) (d : Db) : Db := d <| db_headFast := hash |>.

Definition ReadBlock (hash number : Z) (d : Db) : option Block :=
  header ← ReadHeader hash number d;
  body ← ReadBody hash number d;
  Some {| block_header := header; block_uncles := body_uncles body; block_transactions := body_transactions body |}.

Section rawdb.
Context `{!Keccak}.

Definition rawdb_WriteHeader (header : Header) (d : Db) : Db :=
  let hash := header_Hash header in
  let number := Number_Uint64 header in
  d <| db_number := <[ hash := number ]> (db_number d) |> <| db_headers := <[ (number, hash) := header ]> (db_headers d) |>.

Definition block_Body (b : Block) : Body := {| body_transactions := block_transactions b; body_uncles := block_uncles b |}.

Definition WriteBlock (b : Block) (d : Db) : Db := rawdb_WriteHeader (block_Header b) (WriteBody (block_Hash b) (NumberU64 b) (block_Body b) d).

(** A transaction is in its RLP form, of which its hash is taken. *)
Definition tx_hash (tx : bytes) : Z := Keccak256 tx.

Definition WriteTxLookupEntries (b : Block) (d : Db) : Db := d <| db_lookup := foldl (fun m tx => <[ tx_hash tx := NumberU64 b ]> m) (db_lookup d) (block_transactions b) |>.
Definition DeleteTxLookupEntry (hash : Z) (d : Db) : Db := d <| db_lookup := delete hash (db_lookup d) |>.
End rawdb.

(** ** [HeaderChain] *)

Record HeaderChain := { hc_db : Db; genesisHeader : Header; currentHeader : Header; currentHeaderHash : Z }.

#[export] Instance HeaderChain_eta : Eta HeaderChain := fun hc => {| hc_db := hc_db hc; genesisHeader := genesisHeader hc; currentHeader := currentHeader hc; currentHeaderHash := currentHeaderHash hc |}.

Inductive WriteStatus := NonStatTy | CanonStatTy | SideStatTy.

Definition on_db (f : Db -> Db) (hc : HeaderChain) : HeaderChain := hc <| hc_db := f (hc_db hc) |>.

Section headerchain.
Context `{!Keccak}.

Definition GetBlockNumber (hash : Z) (hc : HeaderChain) : option Z := ReadHeaderNumber hash (hc_db hc).
Definition GetTd (hash number : Z) (hc : HeaderChain) : option Z := ReadTd hash number (hc_db hc).
Definition GetTdByHash (hash : Z) (hc : HeaderChain) : option Z := number ← GetBlockNumber hash hc; GetTd hash number hc.
Definition GetHeader (hash number : Z) (hc : HeaderChain) : option Header := ReadHeader hash number (hc_db hc).
Definition GetHeaderByHash (hash : Z) (hc : HeaderChain) : option Header := number ← GetBlockNumber hash hc; GetHeader hash number hc.
Definition hc_HasHeader (hash number : Z) (hc : HeaderChain) : bool := HasHeader hash number (hc_db hc).
Definition GetHeaderByNumber (number : Z) (hc : HeaderChain) : option Header :=
  let hash := ReadCanonicalHash number (hc_db hc) in
  if hash =? 0 then None else GetHeader hash number hc.

Definition SetCurrentHeader (head : Header) (hc : HeaderChain) : HeaderChain :=
  on_db (WriteHeadHeaderHash (header_Hash head)) hc <| currentHeader := head |> <| currentHeaderHash := header_Hash head |>.

Definition SetGenesis (head : Header) (hc : HeaderChain) : HeaderChain := hc <| genesisHeader := head |>.

(** The canonical hashes from [i] upwards, as far as there are any, are deleted; what is
    read is what was there before. *)
Fixpoint delete_above (fuel : nat) (i : Z) (d0 d : Db) : option Db :=
  match fuel with
  | O => None
  | S fuel => if ReadCanonicalHash i d0 =? 0 then Some d else delete_above fuel (u64 (i + 1)) d0 (DeleteCanonicalHash i d)
  end.

(** One more round than there are canonical hashes. *)
Definition above_fuel (d : Db) : nat := S (base.size (db_canon d)).

(** The stale canonical hashes below a new head. *)
Fixpoint overwrite_stale (fuel : nat) (headHash headNumber : Z) (headHeader : option Header) (d : Db) : option Db :=
  match fuel with
  | O => None
  | S fuel =>
      if ReadCanonicalHash headNumber d =? headHash then Some d
      else
        let d := WriteCanonicalHash headHash headNumber d in
        header ← headHeader;
        let number := u64 (Number_Uint64 header - 1) in
        overwrite_stale fuel (ParentHash header) number (ReadHeader (ParentHash header) number d) d
  end.

Definition WriteHeader (coin : bool) (header : Header) (hc : HeaderChain) : option (WriteStatus * error * HeaderChain) :=
  let hash := header_Hash header in
  let number := Number_Uint64 header in
  match GetTd (ParentHash header) (u64 (number - 1)) hc with
  | None => Some (NonStatTy, New ErrUnknownAncestor, hc)
  | Some ptd =>
      localTd ← GetTd (currentHeaderHash hc) (Number_Uint64 (currentHeader hc)) hc;
      let externTd := default 0 (Difficulty header) + ptd in
      let hc := on_db (fun d => rawdb_WriteHeader header (WriteTd hash number externTd d)) hc in
      if (localTd <? externTd) || ((externTd =? localTd) && coin) then
        d ← delete_above (above_fuel (hc_db hc)) (u64 (number + 1)) (hc_db hc) (hc_db hc);
        let headNumber := u64 (number - 1) in
        d ← overwrite_stale (Z.to_nat number) (ParentHash header) headNumber (ReadHeader (ParentHash header) headNumber d) d;
        let d := WriteHeadHeaderHash hash (WriteCanonicalHash hash number d) in
        Some (CanonStatTy, nil_err, hc <| hc_db := d |> <| currentHeaderHash := hash |> <| currentHeader := CopyHeader header |>)
      else Some (SideStatTy, nil_err, hc)
  end.

(** The headers are linked. *)
Fixpoint contiguous (chain : list Header) : bool :=
  match chain with
  | h :: (h' :: _) as chain' => (Number_Uint64 h' =? u64 (Number_Uint64 h + 1)) && (ParentHash h' =? header_Hash h) && contiguous chain'
  | _ => true
  end.

(** The verdicts on the headers in order, each at its index. *)
Fixpoint check_results (bad : Z -> bool) (i : Z) (chain : list Header) (results : list error) : Z * error :=
  match chain, results with
  | header :: chain, result :: results => if bad (header_Hash header) then (i, New ErrBlacklistedHash) else if failed result then (i, result) else check_results bad (i + 1) chain results
  | _, _ => (0, nil_err)
  end.

Definition ValidateHeaderChain (bad : Z -> bool) (results : list error) (chain : list Header) : Z * error :=
  if negb (contiguous chain) then (0, New "non contiguous insert") else check_results bad 0 chain results.

(** A known header is skipped unless its difficulty is greater; [coins] are the random
    choices. *)
Fixpoint InsertHeaderChain (coins : list bool) (i : Z) (chain : list Header) (hc : HeaderChain) : option (Z * error * HeaderChain) :=
  match chain with
  | [] => Some (0, nil_err, hc)
  | header :: chain =>
      let hash := header_Hash header in
      let number := Number_Uint64 header in
      ignored ← (if hc_HasHeader hash number hc then match GetTd hash number hc with
        | None => Some true
        | Some externTd => localTd ← GetTd (currentHeaderHash hc) (Number_Uint64 (currentHeader hc)) hc; Some (externTd <=? localTd)
        end else Some false);
      if ignored : bool then InsertHeaderChain (tail coins) (i + 1) chain hc
      else
        '(_, err, hc) ← WriteHeader (default false (hd_error coins)) header hc;
        if failed err then Some (i, err, hc) else InsertHeaderChain (tail coins) (i + 1) chain hc
  end.

Fixpoint hashes_loop (max : nat) (header : Header) (hc : HeaderChain) : list Z :=
  match max with
  | O => []
  | S max =>
      let next := ParentHash header in
      match GetHeader next (u64 (Number_Uint64 header - 1)) hc with
      | None => []
      | Some header => next :: (if default 0 (Number header) =? 0 then [] else hashes_loop max header hc)
      end
  end.

Definition GetBlockHashesFromHash (hash : Z) (max : nat) (hc : HeaderChain) : list Z :=
  match GetHeaderByHash hash hc with None => [] | Some header => hashes_loop max header hc end.

(** The ancestor, and what is left of the counter. *)
Fixpoint ancestor_loop (ancestor : nat) (hash number maxNonCanonical : Z) (hc : HeaderChain) : Z * Z * Z :=
  match ancestor with
  | O => (hash, number, maxNonCanonical)
  | S ancestor' =>
      if ReadCanonicalHash number (hc_db hc) =? hash then (ReadCanonicalHash (u64 (number - Z.of_nat ancestor)) (hc_db hc), u64 (number - Z.of_nat ancestor), maxNonCanonical)
      else if maxNonCanonical =? 0 then (0, 0, maxNonCanonical)
      else match GetHeader hash number hc with
      | None => (0, 0, maxNonCanonical - 1)
      | Some header => ancestor_loop ancestor' (ParentHash header) (u64 (number - 1)) (maxNonCanonical - 1) hc
      end
  end.

Definition GetAncestor (hash number ancestor maxNonCanonical : Z) (hc : HeaderChain) : Z * Z * Z :=
  if number <? ancestor then (0, 0, maxNonCanonical)
  else if ancestor =? 1 then match GetHeader hash number hc with Some header => (ParentHash header, u64 (number - 1), maxNonCanonical) | None => (0, 0, maxNonCanonical) end
  else ancestor_loop (Z.to_nat ancestor) hash number maxNonCanonical hc.
End headerchain.

(** * The stored headers and the canonical chain *)

(** Every header is under its number and hash, its parent is there too, and there is one
    genesis header; total difficulties are sums. *)
Record db_ok (g : Z) `{!Keccak} (d : Db) : Prop := {
  ok_header : forall n h hd, db_headers d !! (n, h) = Some hd -> Number_Uint64 hd = n /\ header_Hash hd = h /\ 0 <= n < 2 ^ 64 - 1 /\ h <> 0;
  ok_unique : forall n n' h, is_Some (db_headers d !! (n, h)) -> is_Some (db_headers d !! (n', h)) -> n = n';
  ok_parent : forall n h hd, db_headers d !! (n, h) = Some hd -> 0 < n -> is_Some (db_headers d !! (n - 1, ParentHash hd));
  ok_genesis : forall h, is_Some (db_headers d !! (0, h)) -> h = g;
  ok_canon : forall n h, db_canon d !! n = Some h -> is_Some (db_headers d !! (n, h));
  ok_td : forall n h, is_Some (db_td d !! (n, h)) -> is_Some (db_headers d !! (n, h));
  ok_sum : forall n h hd t, db_headers d !! (n, h) = Some hd -> 0 < n -> db_td d !! (n, h) = Some t -> exists t', db_td d !! (n - 1, ParentHash hd) = Some t' /\ t = t' + default 0 (Difficulty hd)
}.

(** The canonical hashes up to the number [n] are a chain that ends in [h]. *)
Record canonical (d : Db) (n h : Z) : Prop := {
  can_range : 0 <= n;
  can_head : db_canon d !! n = Some h;
  can_link : forall m, 0 < m <= n -> exists hm hd, db_canon d !! m = Some hm /\ db_headers d !! (m, hm) = Some hd /\ db_canon d !! (m - 1) = Some (ParentHash hd)
}.

Lemma canonical_ext d d' n h : (forall m, 0 <= m <= n -> db_canon d' !! m = db_canon d !! m) -> (forall k hd, db_headers d !! k = Some hd -> db_headers d' !! k = Some hd) -> canonical d n h -> canonical d' n h.
Proof.
  intros Hc Hh [C1 C2 C3]. split; [done|by rewrite Hc by lia|]. intros m Hm. destruct (C3 m Hm) as (hm & hd & E1 & E2 & E3). exists hm, hd. rewrite !Hc by lia. auto.
Qed.

Lemma canonical_prefix d n h m hm : canonical d n h -> 0 <= m <= n -> db_canon d !! m = Some hm -> canonical d m hm.
Proof. intros [C1 C2 C3] Hm E. split; [lia|done|]. intros k Hk. apply C3. lia. Qed.

Lemma canonical_total d n h m : canonical d n h -> 0 <= m <= n -> exists hm, db_canon d !! m = Some hm.
Proof.
  intros [C1 C2 C3] Hm. destruct (decide (m = n)) as [->|Hne]; [eauto|]. destruct (C3 (m + 1)) as (hm & hd & _ & _ & E); [lia|]. replace (m + 1 - 1) with m in E by lia. eauto.
Qed.

(** A block on top of the chain. *)
Lemma canonical_extend d n h hd :
  0 < n -> canonical d (n - 1) (ParentHash hd) -> db_headers d !! (n, h) = Some hd -> db_canon d !! n = Some h -> canonical d n h.
Proof.
  intros Hn [C1 C2 C3] Hh Hc. split; [lia|done|]. intros m Hm. destruct (decide (m = n)) as [->|Hne]; [by exists h, hd|]. apply C3. lia.
Qed.

Lemma canonical_insert d n h hd :
  0 < n -> canonical d (n - 1) (ParentHash hd) -> db_headers d !! (n, h) = Some hd -> canonical (WriteCanonicalHash h n d) n h.
Proof.
  intros Hn Hc Hh. eapply (canonical_extend _ n h hd); [done| |done|cbn; by rewrite lookup_insert_eq].
  eapply canonical_ext; [| |exact Hc]; cbn; [|done]. intros m Hm. by rewrite lookup_insert_ne by lia.
Qed.

Section hcfacts.
Context `{!Keccak} (g : Z).

(** What the operations leave alone. *)
Lemma db_ok_ext d d' :
  db_headers d' = db_headers d -> db_td d' = db_td d -> (forall n h, db_canon d' !! n = Some h -> is_Some (db_headers d !! (n, h))) -> db_ok g d -> db_ok g d'.
Proof. intros E1 E2 E3 [O1 O2 O3 O4 O5 O6 O7]. split; rewrite ?E1, ?E2; eauto. Qed.

Lemma ReadCanonical_zero d n : db_ok g d -> (ReadCanonicalHash n d =? 0) = true <-> db_canon d !! n = None.
Proof.
  intros Hd. unfold ReadCanonicalHash. rewrite Z.eqb_eq. destruct (db_canon d !! n) as [h|] eqn:E; cbn; [|done]. destruct (ok_canon g d Hd _ _ E) as [hd Hhd].
  destruct (ok_header g d Hd _ _ _ Hhd) as (_ & _ & _ & Hz). split; [done|done].
Qed.

Lemma ReadCanonical_eq d n h : h <> 0 -> (ReadCanonicalHash n d =? h) = true <-> db_canon d !! n = Some h.
Proof. intros Hz. unfold ReadCanonicalHash. rewrite Z.eqb_eq. destruct (db_canon d !! n) as [h'|]; cbn; [split; congruence|split; congruence]. Qed.

(** ** Deleting the hashes above a head *)

Lemma delete_above_none fuel i d0 d : db_ok g d0 -> 0 <= i -> delete_above fuel i d0 d = None -> forall j, 0 <= j < Z.of_nat fuel -> i + j < 2 ^ 64 -> is_Some (db_canon d0 !! (i + j)).
Proof.
  intros Hok. revert i d. induction fuel as [|fuel IH]; intros i d Hi E j Hj Hlt; [lia|]. cbn [delete_above] in E. destruct (ReadCanonicalHash i d0 =? 0) eqn:E0; [done|].
  destruct (decide (j = 0)) as [->|Hj0].
  - rewrite Z.add_0_r. destruct (db_canon d0 !! i) eqn:Ei; [eauto|]. apply (ReadCanonical_zero d0 i Hok) in Ei. congruence.
  - rewrite u64_id in E by (unfold is_u64; lia). replace (i + j) with (i + 1 + (j - 1)) by lia. eapply IH; [|exact E|lia|lia]. lia.
Qed.

Lemma delete_above_total i d0 d : db_ok g d0 -> 0 <= i < 2 ^ 64 -> exists d', delete_above (above_fuel d0) i d0 d = Some d'.
Proof.
  intros Hok Hi. destruct (delete_above _ i d0 d) as [d'|] eqn:E; [eauto|]. exfalso. pose proof (delete_above_none _ _ _ _ Hok (proj1 Hi) E) as Hs.
  assert (i + Z.of_nat (base.size (db_canon d0)) < 2 ^ 64 - 1) as Hlt.
  { destruct (decide (i + Z.of_nat (base.size (db_canon d0)) < 2 ^ 64 - 1)) as [|Hn]; [done|]. destruct (Hs (2 ^ 64 - 1 - i)) as [h Hh]; [unfold above_fuel; lia|lia|].
    destruct (ok_canon g d0 Hok _ _ Hh) as [hd Hhd]. destruct (ok_header g d0 Hok _ _ _ Hhd) as (_ & _ & Hr & _). lia. }
  assert (list_to_set (seqZ i (Z.of_nat (base.size (db_canon d0)) + 1)) ⊆ dom (db_canon d0)) as Hsub.
  { intros k. rewrite elem_of_list_to_set, elem_of_seqZ, elem_of_dom. intros Hk. replace k with (i + (k - i)) by lia. apply Hs; unfold above_fuel; lia. }
  apply subseteq_size in Hsub. rewrite size_list_to_set, length_seqZ, size_dom in Hsub by apply NoDup_seqZ. lia.
Qed.

Lemma delete_above_spec fuel i d0 d d' :
  db_ok g d0 -> 0 <= i -> delete_above fuel i d0 d = Some d' ->
  (exists c, d' = d <| db_canon := c |>) /\ (forall m, m < i -> db_canon d' !! m = db_canon d !! m) /\ (forall m h, db_canon d' !! m = Some h -> db_canon d !! m = Some h).
Proof.
  intros Hok. revert i d. induction fuel as [|fuel IH]; intros i d Hi E; cbn [delete_above] in E; [done|]. destruct (ReadCanonicalHash i d0 =? 0) eqn:E0.
  { simplify_eq. split; [exists (db_canon d'); by destruct d'|done]. }
  assert (i < 2 ^ 64 - 1) as Hlt.
  { destruct (db_canon d0 !! i) as [h|] eqn:Ei; [|apply (ReadCanonical_zero d0 i Hok) in Ei; congruence]. destruct (ok_canon g d0 Hok _ _ Ei) as [hd Hhd].
    destruct (ok_header g d0 Hok _ _ _ Hhd) as (_ & _ & Hr & _). lia. }
  rewrite u64_id in E by (unfold is_u64; lia). apply IH in E as ([c ->] & H1' & H2'); [|lia]. cbn in *. split; [by exists c|]. split.
  - intros m Hm. rewrite H1' by lia. by rewrite lookup_delete_ne by lia.
  - intros m h Hm. apply H2' in Hm. by apply lookup_delete_Some in Hm as [_ Hm].
Qed.

Lemma delete_above_all top fuel i d0 d d' :
  db_ok g d0 -> 0 <= i -> (forall m h, db_canon d0 !! m = Some h -> m <= top) -> (forall m, i <= m <= top -> is_Some (db_canon d0 !! m)) ->
  (forall m, i <= m -> db_canon d !! m = db_canon d0 !! m) -> delete_above fuel i d0 d = Some d' -> forall m, i <= m -> db_canon d' !! m = None.
Proof.
  intros Hok. revert i d. induction fuel as [|fuel IH]; intros i d Hi Htop Hall Heq E m Hm; cbn [delete_above] in E; [done|]. destruct (ReadCanonicalHash i d0 =? 0) eqn:E0.
  { simplify_eq. rewrite Heq by done. destruct (db_canon d0 !! m) as [h|] eqn:Em; [|done]. apply (ReadCanonical_zero d0 i Hok) in E0. destruct (Hall i) as [? ?]; [|congruence]. specialize (Htop m h Em). lia. }
  assert (i < 2 ^ 64 - 1) as Hlt.
  { destruct (db_canon d0 !! i) as [h|] eqn:Ei; [|apply (ReadCanonical_zero d0 i Hok) in Ei; congruence]. destruct (ok_canon g d0 Hok _ _ Ei) as [hd Hhd].
    destruct (ok_header g d0 Hok _ _ _ Hhd) as (_ & _ & Hr & _). lia. }
  rewrite u64_id in E by (unfold is_u64; lia). destruct (decide (m = i)) as [->|Hne].
  - apply (delete_above_spec _ _ _ _ _ Hok) in E as (_ & H1' & _); [|lia]. rewrite H1' by lia. cbn. by rewrite lookup_delete_eq.
  - eapply (IH (i + 1)); [lia|done| | |exact E|lia].
    + intros k Hk. apply Hall. lia.
    + intros k Hk. cbn. rewrite lookup_delete_ne by lia. apply Heq. lia.
Qed.

(** ** A new header *)

(** A header that may be written: its hash is not zero and is not the hash of another
    header, and its number is not the last one. *)
Record admissible (d : Db) (header : Header) : Prop := {
  adm_hash : header_Hash header <> 0;
  adm_number : Number_Uint64 header < 2 ^ 64 - 1;
  adm_new : forall n hd, db_headers d !! (n, header_Hash header) = Some hd ->
    n = Number_Uint64 header /\ ParentHash hd = ParentHash header /\ default 0 (Difficulty hd) = default 0 (Difficulty header)
}.

Lemma Number_Uint64_range header : 0 <= Number_Uint64 header < 2 ^ 64.
Proof. apply u64_range. Qed.

Lemma put_header_ok header d :
  db_ok g d -> admissible d header -> 0 < Number_Uint64 header -> is_Some (db_headers d !! (Number_Uint64 header - 1, ParentHash header)) -> db_ok g (rawdb_WriteHeader header d).
Proof.
  intros [O1 O2 O3 O4 O5 O6 O7] [A1 A2 A3] Hpos Hpar. set (n0 := Number_Uint64 header) in *. set (h0 := header_Hash header) in *.
  assert (forall k, is_Some (<[(n0, h0):=header]> (db_headers d) !! k) <-> k = (n0, h0) \/ is_Some (db_headers d !! k)) as Hin.
  { intros k. rewrite lookup_insert. case_decide as D; [split; [by left|eauto]|]. split; [by right|intros [?|?]; [congruence|done]]. }
  split; unfold rawdb_WriteHeader; fold n0 h0; cbn.
  - intros n h hd. rewrite lookup_insert. case_decide as D; [|apply O1]. intros [= <-]. simplify_eq. split; [done|]. split; [done|]. split; [lia|done].
  - intros n n' h Hn%Hin Hn'%Hin. destruct Hn as [E|[hd E]], Hn' as [E'|[hd' E']]; simplify_eq; [done|symmetry; by eapply (A3 n' hd')|by eapply (A3 n hd)|by eapply O2; eauto].
  - intros n h hd. rewrite lookup_insert. intros E Hn. apply Hin. case_decide as D; simplify_eq; [by right|]. right. by eapply O3.
  - intros h [E|E]%Hin; [simplify_eq; lia|by apply O4].
  - intros n h E. apply Hin. right. by apply O5.
  - intros n h E. apply Hin. right. by apply O6.
  - intros n h hd t. rewrite lookup_insert. case_decide as D; [|apply O7]. intros [= <-] Hn Ht. injection D as <- <-. destruct (O6 n0 h0) as [hd Hhd]; [eauto|].
    destruct (O7 n0 h0 hd t Hhd Hn Ht) as (t' & Ht' & Es). destruct (A3 n0 hd Hhd) as (_ & E1 & E2). rewrite E1 in Ht'. rewrite E2 in Es. eauto.
Qed.

(** Its total difficulty is what it was, if there was one. *)
Lemma put_td_ok header ptd d :
  db_ok g d -> db_headers d !! (Number_Uint64 header, header_Hash header) = Some header -> 0 < Number_Uint64 header -> db_td d !! (Number_Uint64 header - 1, ParentHash header) = Some ptd ->
  db_ok g (WriteTd (header_Hash header) (Number_Uint64 header) (default 0 (Difficulty header) + ptd) d) /\
  forall k t, db_td d !! k = Some t -> db_td (WriteTd (header_Hash header) (Number_Uint64 header) (default 0 (Difficulty header) + ptd) d) !! k = Some t.
Proof.
  intros [O1 O2 O3 O4 O5 O6 O7] Hh Hpos Hp. set (n0 := Number_Uint64 header) in *. set (h0 := header_Hash header) in *.
  assert (forall k t, db_td d !! k = Some t -> <[(n0, h0) := default 0 (Difficulty header) + ptd]> (db_td d) !! k = Some t) as Hold.
  { intros k t Ht. rewrite lookup_insert. case_decide as D; [|done]. subst k. destruct (O7 _ _ _ _ Hh Hpos Ht) as (t' & Ht' & ->). rewrite Hp in Ht'. simplify_eq. f_equal. lia. }
  split; [|exact Hold]. split; cbn; try done.
  - intros n h. rewrite lookup_insert. case_decide as D; [simplify_eq; eauto|apply O6].
  - intros n h hd t Hhd Hn. rewrite lookup_insert. case_decide as D.
    + intros [= <-]. simplify_eq. exists ptd. split; [by apply Hold|lia].
    + intros Ht. destruct (O7 _ _ _ _ Hhd Hn Ht) as (t' & Ht' & ->). exists t'. split; [by apply Hold|done].
Qed.

(** Stored headers stay, up to a header of the same hash and parent. *)
Lemma put_header_canonical header d n h : db_ok g d -> admissible d header -> canonical d n h -> canonical (rawdb_WriteHeader header d) n h.
Proof.
  intros Hok Ha [C1 C2 C3]. split; [done|done|]. intros m Hm. destruct (C3 m Hm) as (hm & hd & E1 & E2 & E3). unfold rawdb_WriteHeader. cbn.
  destruct (decide ((Number_Uint64 header, header_Hash header) = (m, hm))) as [E|E].
  - simplify_eq. exists (header_Hash header), header. rewrite lookup_insert_eq. split; [done|]. split; [done|]. destruct (adm_new _ _ Ha _ _ E2) as (_ & <- & _). done.
  - exists hm, hd. by rewrite lookup_insert_ne by done.
Qed.

(** ** The stale hashes below a new head *)

Lemma overwrite_stale_S fuel headHash headNumber headHeader d :
  overwrite_stale (S fuel) headHash headNumber headHeader d =
  if ReadCanonicalHash headNumber d =? headHash then Some d
  else header ← headHeader;
    let number := u64 (Number_Uint64 header - 1) in
    let d := WriteCanonicalHash headHash headNumber d in
    overwrite_stale fuel (ParentHash header) number (ReadHeader (ParentHash header) number d) d.
Proof. done. Qed.

Lemma overwrite_total k hk (n : nat) h d :
  db_ok g d -> canonical d k hk -> (forall m, k < m <= Z.of_nat n -> db_canon d !! m = None) -> is_Some (db_headers d !! (Z.of_nat n, h)) ->
  exists c, overwrite_stale (S n) h (Z.of_nat n) (ReadHeader h (Z.of_nat n) d) d = Some (d <| db_canon := c |>) /\
    db_ok g (d <| db_canon := c |>) /\ canonical (d <| db_canon := c |>) (Z.of_nat n) h /\ (forall m, Z.of_nat n < m -> c !! m = db_canon d !! m) /\
    (forall m, m < 0 -> c !! m = db_canon d !! m).
Proof.
  revert k hk h d. induction n as [|n IH]; intros k hk h d Hok Hc Hnone [hd Hh]; pose proof (can_range _ _ _ Hc) as Hk.
  - change (Z.of_nat 0) with 0 in *. assert (db_canon d !! 0 = Some h) as E0.
    { destruct (canonical_total _ _ _ 0 Hc) as [h' E0]; [lia|]. rewrite E0. f_equal. rewrite (ok_genesis g d Hok h) by eauto. apply (ok_genesis g d Hok). by apply (ok_canon g d Hok). }
    destruct (ok_header g d Hok _ _ _ Hh) as (_ & _ & _ & Hz). exists (db_canon d). cbn [overwrite_stale]. rewrite (proj2 (ReadCanonical_eq d 0 h Hz) E0). destruct d. cbn in *.
    split; [done|]. split; [done|]. split; [|done]. eapply canonical_prefix; [exact Hc|lia|done].
  - destruct (ok_header g d Hok _ _ _ Hh) as (Hnum & _ & Hr & Hz). rewrite overwrite_stale_S. destruct (ReadCanonicalHash (Z.of_nat (S n)) d =? h) eqn:Eh.
    { apply (ReadCanonical_eq d _ h Hz) in Eh. exists (db_canon d). destruct (decide (k < Z.of_nat (S n))) as [Hlt|Hle]; [rewrite Hnone in Eh by lia; done|].
      destruct d. cbn in *. split; [done|]. split; [done|]. split; [|done]. eapply canonical_prefix; [exact Hc|lia|done]. }
    change (ReadHeader h (Z.of_nat (S n)) d) with (db_headers d !! (Z.of_nat (S n), h)). rewrite Hh. cbn [mbind option_bind]. rewrite Hnum, u64_id by (unfold is_u64; lia). replace (Z.of_nat (S n) - 1) with (Z.of_nat n) by lia.
    set (d1 := WriteCanonicalHash h (Z.of_nat (S n)) d). destruct (ok_parent g d Hok _ _ _ Hh) as [phd Hphd]; [lia|]. replace (Z.of_nat (S n) - 1) with (Z.of_nat n) in Hphd by lia.
    assert (db_ok g d1) as Hok1.
    { eapply db_ok_ext; [..|exact Hok]; try done. intros m h'. cbn. rewrite lookup_insert. case_decide as D; [intros [= <-]; subst m; eauto|apply (ok_canon g d Hok)]. }
    assert (exists k1 hk1, canonical d1 k1 hk1 /\ (forall m, k1 < m <= Z.of_nat n -> db_canon d1 !! m = None)) as (k1 & hk1 & Hc1 & Hnone1).
    { destruct (canonical_total _ _ _ (Z.min k (Z.of_nat n)) Hc) as [h1 Eh1]; [lia|]. exists (Z.min k (Z.of_nat n)), h1. split.
      - eapply canonical_ext; [| |eapply canonical_prefix; [exact Hc| |exact Eh1]; lia]; cbn; [|done]. intros m Hmr. by rewrite lookup_insert_ne by lia.
      - intros m Hmr. cbn. rewrite lookup_insert_ne by lia. apply Hnone. lia. }
    destruct (IH k1 hk1 (ParentHash hd) d1 Hok1 Hc1 Hnone1) as (c & E & Hokc & Hcc & Habove & Hbelow); [cbn; eauto|]. exists c. cbn zeta. fold d1.
    rewrite E. split; [done|]. split; [done|]. assert (c !! Z.of_nat (S n) = Some h) as Hhead by (rewrite Habove by lia; cbn; by rewrite lookup_insert_eq). split; [|split].
    + eapply canonical_extend; [|replace (Z.of_nat (S n) - 1) with (Z.of_nat n) by lia; exact Hcc|exact Hh|exact Hhead]. lia.
    + intros m Hmr. rewrite Habove by lia. cbn. by rewrite lookup_insert_ne by lia.
    + intros m Hmr. rewrite Hbelow by lia. cbn. by rewrite lookup_insert_ne by lia.
Qed.

(** Header, then total difficulty: the order of the two writes does not matter. *)
Lemma put_both header ptd d :
  db_ok g d -> admissible d header -> db_td d !! (u64 (Number_Uint64 header - 1), ParentHash header) = Some ptd ->
  let d' := rawdb_WriteHeader header (WriteTd (header_Hash header) (Number_Uint64 header) (default 0 (Difficulty header) + ptd) d) in
  0 < Number_Uint64 header /\ is_Some (db_headers d !! (Number_Uint64 header - 1, ParentHash header)) /\ db_ok g d' /\
  (forall k t, db_td d !! k = Some t -> db_td d' !! k = Some t) /\ (forall n h, canonical d n h -> canonical d' n h).
Proof.
  intros Hok Ha Hp d'. pose proof (Number_Uint64_range header) as Hr. destruct (ok_td g d Hok _ _ (ex_intro _ _ Hp)) as [phd Hphd].
  destruct (ok_header g d Hok _ _ _ Hphd) as (_ & _ & Hpr & _). assert (0 < Number_Uint64 header) as Hpos.
  { destruct (decide (Number_Uint64 header = 0)) as [E|]; [|lia]. rewrite E in Hpr. change (u64 (0 - 1)) with (2 ^ 64 - 1) in Hpr. lia. }
  rewrite u64_id in * by (unfold is_u64; lia). assert (is_Some (db_headers d !! (Number_Uint64 header - 1, ParentHash header))) as Hpar by eauto.
  split; [done|]. split; [done|]. pose proof (put_header_ok header d Hok Ha Hpos Hpar) as Hok1.
  destruct (put_td_ok header ptd (rawdb_WriteHeader header d) Hok1) as [Hok2 Htd]; [by cbn; rewrite lookup_insert_eq|done|done|].
  split; [exact Hok2|]. split; [exact Htd|]. intros n h Hc. eapply canonical_ext; [..|exact (put_header_canonical header d n h Hok Ha Hc)]; done.
Qed.

Record hc_ok (hc : HeaderChain) : Prop := {
  hc_stored : db_ok g (hc_db hc);
  hc_chain : canonical (hc_db hc) (Number_Uint64 (currentHeader hc)) (currentHeaderHash hc);
  hc_top : forall m h, db_canon (hc_db hc) !! m = Some h -> 0 <= m <= Number_Uint64 (currentHeader hc);
  hc_td : is_Some (db_td (hc_db hc) !! (Number_Uint64 (currentHeader hc), currentHeaderHash hc))
}.

(** The total difficulty of the head. *)
Definition head_td (hc : HeaderChain) : Z := default 0 (GetTd (currentHeaderHash hc) (Number_Uint64 (currentHeader hc)) hc).

Lemma head_td_eq hc t : db_td (hc_db hc) !! (Number_Uint64 (currentHeader hc), currentHeaderHash hc) = Some t -> head_td hc = t.
Proof. unfold head_td, GetTd, ReadTd. by intros ->. Qed.

Lemma CopyHeader_Number header : Number_Uint64 (CopyHeader header) = Number_Uint64 header.
Proof. done. Qed.

(** The re-routing of the canonical chain to a stored header. *)
Lemma reroute header d top h0 :
  let number := Number_Uint64 header in
  db_ok g d -> canonical d top h0 -> (forall m h, db_canon d !! m = Some h -> 0 <= m <= top) ->
  0 < number -> db_headers d !! (number, header_Hash header) = Some header -> is_Some (db_headers d !! (number - 1, ParentHash header)) ->
  exists d1 d2 c, delete_above (above_fuel d) (u64 (number + 1)) d d = Some d1 /\
    overwrite_stale (Z.to_nat number) (ParentHash header) (u64 (number - 1)) (ReadHeader (ParentHash header) (u64 (number - 1)) d1) d1 = Some d2 /\
    WriteCanonicalHash (header_Hash header) number d2 = d <| db_canon := c |> /\
    db_ok g (d <| db_canon := c |>) /\ canonical (d <| db_canon := c |>) number (header_Hash header) /\ (forall m h, c !! m = Some h -> 0 <= m <= number).
Proof.
  intros number Hok Hc Htop Hn Hh Hp. destruct (ok_header g _ Hok _ _ _ Hh) as (_ & _ & Hr & _). rewrite !u64_id by (unfold is_u64; lia).
  destruct (delete_above_total (number + 1) d d Hok) as [d1 E1]; [lia|]. assert (0 <= number + 1) as Hn1 by lia. destruct (delete_above_spec _ _ _ _ _ Hok Hn1 E1) as ([c1 Ed1] & Hlow & Hsub).
  assert (forall m, number + 1 <= m -> db_canon d1 !! m = None) as Hnone.
  { eapply (delete_above_all top); [exact Hok|lia| | |done|exact E1]; [intros m h Hm; specialize (Htop m h Hm); lia|]. intros m Hm. destruct (canonical_total _ _ _ m Hc) as [hm Ehm]; [lia|eauto]. }
  assert (db_ok g d1) as Hok1 by (eapply db_ok_ext; [..|exact Hok]; rewrite ?Ed1; try done; intros n h Hnh; apply (ok_canon g _ Hok), Hsub; by rewrite Ed1).
  assert (exists k hk, canonical d1 k hk /\ (forall m, k < m <= number - 1 -> db_canon d1 !! m = None)) as (k & hk & Hc1 & Hk).
  { pose proof (can_range _ _ _ Hc). destruct (canonical_total _ _ _ (Z.min top (number - 1)) Hc) as [hm Hm]; [lia|]. exists (Z.min top (number - 1)), hm. split.
    - eapply canonical_ext; [| |eapply canonical_prefix; [exact Hc| |exact Hm]; lia]; [intros m Hmr; apply Hlow; lia|intros x hd; by rewrite Ed1].
    - intros m Hm'. destruct (db_canon d1 !! m) as [h|] eqn:Em; [|done]. apply Hsub, Htop in Em. lia. }
  destruct (overwrite_total k hk (Z.to_nat (number - 1)) (ParentHash header) d1) as (c & E2 & Hok2 & Hc2 & Habove & Hbelow); rewrite ?Z2Nat.id in * by lia; [done|done|done|by rewrite Ed1|].
  replace (Z.to_nat number) with (S (Z.to_nat (number - 1))) by lia. exists d1, (d1 <| db_canon := c |>), (<[ number := header_Hash header ]> c). split; [done|]. split; [exact E2|]. rewrite Ed1 in *. cbn in *.
  split; [done|]. split; [|split].
  - eapply db_ok_ext; [..|exact Hok2]; try done. cbn. intros n h. rewrite lookup_insert. case_decide as D; [intros [= <-]; subst n; eauto|apply (ok_canon g _ Hok2)].
  - eapply (canonical_insert _ number _ header) in Hc2; [exact Hc2|done|done].
  - intros m h. rewrite lookup_insert. case_decide as D; [intros _; lia|]. intros Hm. destruct (decide (m <= number)) as [Hle|Hgt].
    + destruct (ok_canon g _ Hok2 m h Hm) as [hd Hhd]. destruct (ok_header g _ Hok2 _ _ _ Hhd) as (_ & _ & Hmr & _). lia.
    + rewrite Habove, Hnone in Hm by lia. done.
Qed.

Lemma WriteHeader_spec coin header hc :
  hc_ok hc -> admissible (hc_db hc) header ->
  exists status err hc', WriteHeader coin header hc = Some (status, err, hc') /\ hc_ok hc' /\ head_td hc <= head_td hc' /\
    (err = nil_err -> db_headers (hc_db hc') = <[ (Number_Uint64 header, header_Hash header) := header ]> (db_headers (hc_db hc))) /\ (failed err = true -> hc' = hc).
Proof.
  intros [Hok Hc Htop [t Ht]] Ha. unfold WriteHeader, GetTd, ReadTd. destruct (db_td (hc_db hc) !! (u64 (Number_Uint64 header - 1), ParentHash header)) as [ptd|] eqn:Ep.
  2:{ eexists _, _, hc. split; [done|]. split; [split; eauto|]. split; [lia|]. split; [done|done]. }
  rewrite Ht. cbn [mbind option_bind]. destruct (put_both header ptd (hc_db hc) Hok Ha Ep) as (Hpos & Hpar & Hok1 & Htd & Hcan). cbn zeta in *.
  set (d1 := rawdb_WriteHeader header _) in *. set (hc1 := on_db _ hc). assert (hc_db hc1 = d1) as Hdb by done. rewrite Hdb. apply Hcan in Hc. assert (db_headers d1 !! (Number_Uint64 header, header_Hash header) = Some header) as Hh by (cbn; by rewrite lookup_insert_eq).
  rewrite (head_td_eq hc t Ht). destruct ((t <? _) || _) eqn:Ecmp.
  - destruct (reroute header d1 _ _ Hok1 Hc Htop Hpos Hh) as (e1 & e2 & c & E1 & E2 & E3 & Hokc & Hcc & Htopc).
    { cbn. rewrite lookup_insert. case_decide; [eauto|exact Hpar]. }
    rewrite E1. cbn [mbind option_bind]. rewrite E2. cbn [mbind option_bind]. rewrite E3. eexists _, _, _. split; [done|].
    assert (db_td d1 !! (Number_Uint64 header, header_Hash header) = Some (default 0 (Difficulty header) + ptd)) as Hnt by (cbn; by rewrite lookup_insert_eq).
    split; [split; cbn -[d1]|split; [|split; [done|done]]].
    + eapply db_ok_ext; [..|exact Hokc]; try done. apply (ok_canon g _ Hokc).
    + eapply canonical_ext; [..|exact Hcc]; done.
    + exact Htopc.
    + eauto.
    + rewrite (head_td_eq _ (default 0 (Difficulty header) + ptd)) by exact Hnt. apply orb_true_iff in Ecmp as [Hlt%Z.ltb_lt|[Heq%Z.eqb_eq _]%andb_true_iff]; lia.
  - eexists _, _, _. split; [done|]. split; [split; cbn -[d1]|split; [|split; [done|done]]]; try done; [eauto|]. by rewrite (head_td_eq _ t) by (by apply Htd).
Qed.

(** Two headers of one hash are the same header as far as the chain is concerned. *)
Definition compatible (h h' : Header) : Prop :=
  header_Hash h = header_Hash h' -> Number_Uint64 h = Number_Uint64 h' /\ ParentHash h = ParentHash h' /\ default 0 (Difficulty h) = default 0 (Difficulty h').

(** No two of the headers collide. *)
Definition collision_free (chain : list Header) : Prop := forall h h', h ∈ chain -> h' ∈ chain -> compatible h h'.

Lemma admissible_after header h hc hc' :
  db_headers (hc_db hc') = <[ (Number_Uint64 header, header_Hash header) := header ]> (db_headers (hc_db hc)) -> compatible header h -> admissible (hc_db hc) h -> admissible (hc_db hc') h.
Proof.
  intros E Hcomp [A1 A2 A3]. split; [done|done|]. intros n hd. rewrite E, lookup_insert. case_decide as D; [|apply A3]. intros [= <-]. injection D as <- Eh. by apply Hcomp.
Qed.

Lemma InsertHeaderChain_spec chain coins i hc :
  hc_ok hc -> Forall (admissible (hc_db hc)) chain -> collision_free chain ->
  exists n err hc', InsertHeaderChain coins i chain hc = Some (n, err, hc') /\ hc_ok hc' /\ head_td hc <= head_td hc'.
Proof.
  revert coins i hc. induction chain as [|header chain IH]; intros coins i hc Hok Ha Hcf; [eexists _, _, hc; split; [done|]; split; [done|lia]|].
  apply Forall_cons in Ha as [Hah Ha]. assert (collision_free chain) as Hcf' by (intros h h' H1' H2'; apply Hcf; by right). cbn [InsertHeaderChain].
  assert (exists b : bool, (if hc_HasHeader (header_Hash header) (Number_Uint64 header) hc then match GetTd (header_Hash header) (Number_Uint64 header) hc with None => Some true | Some externTd => localTd ← GetTd (currentHeaderHash hc) (Number_Uint64 (currentHeader hc)) hc; Some (externTd <=? localTd) end else Some false) = Some b) as [b ->].
  { destruct (hc_td hc Hok) as [t Ht]. unfold GetTd at 2, ReadTd. rewrite Ht. repeat case_match; eauto. }
  cbn [mbind option_bind]. destruct b; [by apply IH|]. destruct (WriteHeader_spec (default false (hd_error coins)) header hc Hok Hah) as (status & err & hc1 & E & Hok1 & Htd & Hhd & Herr). rewrite E. cbn [mbind option_bind].
  destruct (failed err) eqn:Ef; [eauto 10|]. assert (err = nil_err) as -> by (by destruct err). destruct (IH (tail coins) (i + 1) hc1 Hok1) as (n & err & hc' & E' & Hok' & Htd'); [|done|].
  - apply Forall_forall. intros h Hh. rewrite Forall_forall in Ha. eapply (admissible_after header); [by apply Hhd| |by apply Ha]. apply Hcf; [left|by right].
  - exists n, err, hc'. split; [done|]. split; [done|lia].
Qed.
End hcfacts.
