(* ===== verification/BlockChain.v ===== *)
(** * [core/blockchain.go], [core/blockchain_insert.go], [core/block_validator.go]: the block chain

    Blocks are verified, executed and stored, and the canonical chain follows the total
    difficulty; a reorganisation deeper than the limit is refused.  The chain is a record
    over the header chain and its database; every operation of the mutex [chainmu] is
    atomic.

    The state database with its garbage collection, the engine's verdicts and the
    execution of a block are the parameters of [ChainEnv], which other files model.
    [None] is a panic, or a loop that does not end.  Fast synchronisation, the freezer,
    metrics and the shutdown are not modelled. *)
From S2P Require Import Prelude Rlp Header EvilSigners HeaderChain.

Definition ErrKnownBlock : string := "block already known".
Definition IrreversibleHeight : Z := 6.
Definition maxTimeFutureBlocks : Z := 30.

(** What is sent to the subscribers. *)
Inductive ChainOutput :=
  | RemovedLogs (logs : list bytes)
  | RebornLogs (logs : list bytes)
  | SideBlock (b : Block)
  | DangerousChain
  | SyncHeader (h : Header).

Inductive ChainEvent := BlockEvent (b : Block) (logs : list bytes) | HeadEvent (b : Block) | SideEvent (b : Block).

Class ChainEnv := {
  (** the state cache, and a state after the execution of a block *)
  Store : Type;
  StateResult : Type;
  HasState : Z -> Store -> bool;
  (** [state.Commit] and the trie database's upkeep *)
  CommitState : (Z -> option Header) -> Block -> StateResult -> Store -> Store + string;
  (** receipts as their logs, and the used gas *)
  Process : Block -> Z -> Store -> (list bytes * Z * StateResult) + string;
  IntermediateRoot : StateResult -> Z;
  DeriveSha : list bytes -> Z;
  receipts_bloom : list bytes -> list bytes -> Z;
  receipts_sha : list bytes -> Z;
  (** the configuration and the two engines, [true] for PBFT *)
  PBFTBlock : option Z;
  engine_Author : bool -> Header -> Z + string;
  (** the counts of signers vary, and may be zero: what is answered while the first block is
      the head, when it may have to make way for the second *)
  engine_SignersCount : bool -> Block -> Block -> Z;
  IsInBlockPool : bool -> Z -> bool;
  VerifyUncles : bool -> Block -> error;
  VerifyHeaders : bool -> HeaderChain -> list Block -> list error;
  GetBlockSignersCount : Block -> Z;
  BadHashes : Z -> bool;
  shouldPreserve : option (Block -> bool);
  (** [mrand.Float64() < 0.5] *)
  coin : Block -> bool;
  block_Size : Block -> Z
}.

Section types.
Context `{!ChainEnv}.

Record BlockChain := {
  bc_hc : HeaderChain;
  genesisBlock : Block;
  currentBlock : Block;
  currentFastBlock : Block;
  futureBlocks : gmap Z Block;
  badBlocks : gmap Z Block;
  evilSigners : EvilSigners;
  bc_journal : option EvilJournal;
  store : Store;
  pbftEngine : bool;
  procInterrupt : bool;
  bc_outputs : list ChainOutput
}.
End types.

#[export] Instance BlockChain_eta `{!ChainEnv} : Eta BlockChain := fun bc => {|
  bc_hc := bc_hc bc; genesisBlock := genesisBlock bc; currentBlock := currentBlock bc; currentFastBlock := currentFastBlock bc; futureBlocks := futureBlocks bc;
  badBlocks := badBlocks bc; evilSigners := evilSigners bc; bc_journal := bc_journal bc; store := store bc; pbftEngine := pbftEngine bc; procInterrupt := procInterrupt bc; bc_outputs := bc_outputs bc
|}.

Section blockchain.
Context `{!Keccak} `{!RangeOrder} `{!ChainEnv}.

Definition db (bc : BlockChain) : Db := hc_db (bc_hc bc).
Definition on_bc_db (f : Db -> Db) (bc : BlockChain) : BlockChain := bc <| bc_hc := on_db f (bc_hc bc) |>.
Definition output (o : list ChainOutput) (bc : BlockChain) : BlockChain := bc <| bc_outputs := bc_outputs bc ++ o |>.

(** [isForked]. *)
Definition IsPBFTFork (number : option Z) : bool := match PBFTBlock, number with Some s, Some n => s <=? n | _, _ => false end.

Definition block_Number (b : Block) : option Z := Number (block_header b).
Definition block_ParentHash (b : Block) : Z := ParentHash (block_header b).
Definition block_Root (b : Block) : Z := Root (block_header b).
Definition block_Difficulty (b : Block) : Z := default 0 (Difficulty (block_header b)).

Definition GetBlock (hash number : Z) (bc : BlockChain) : option Block := ReadBlock hash number (db bc).
Definition GetBlockByHash (hash : Z) (bc : BlockChain) : option Block := number ← GetBlockNumber hash (bc_hc bc); GetBlock hash number bc.
Definition GetBlockByNumber (number : Z) (bc : BlockChain) : option Block :=
  let hash := ReadCanonicalHash number (db bc) in
  if hash =? 0 then None else GetBlock hash number bc.
Definition HasBlock (hash number : Z) (bc : BlockChain) : bool := HasBody hash number (db bc).
Definition HasBlockAndState (hash number : Z) (bc : BlockChain) : bool :=
  match GetBlock hash number bc with None => false | Some b => HasState (block_Root b) (store bc) end.

(** ** The head *)

Definition insert (block : Block) (bc : BlockChain) : BlockChain :=
  let updateHeads := negb (ReadCanonicalHash (NumberU64 block) (db bc) =? block_Hash block) in
  let bc := on_bc_db (fun d => WriteHeadBlockHash (block_Hash block) (WriteCanonicalHash (block_Hash block) (NumberU64 block) d)) bc <| currentBlock := block |> in
  if updateHeads then
    let bc := bc <| bc_hc := SetCurrentHeader (block_Header block) (bc_hc bc) |> in
    on_bc_db (WriteHeadFastBlockHash (block_Hash block)) bc <| currentFastBlock := block |>
  else bc.

Definition collectLogs (bc : BlockChain) (b : Block) : list bytes :=
  match GetBlockNumber (block_Hash b) (bc_hc bc) with None => [] | Some number => default [] (ReadReceipts (block_Hash b) number (db bc)) end.

(** Down to the number [target]: the blocks passed, and the one found. *)
Fixpoint reduce (fuel : nat) (b : option Block) (target : Z) (bc : BlockChain) : option (list Block * option Block) :=
  match b with
  | None => Some ([], None)
  | Some b =>
      if NumberU64 b =? target then Some ([], Some b)
      else match fuel with
      | O => None
      | S fuel => '(l, r) ← reduce fuel (GetBlock (block_ParentHash b) (u64 (NumberU64 b - 1)) bc) target bc; Some (b :: l, r)
      end
  end.

(** Down to the common ancestor. *)
Fixpoint meet (fuel : nat) (oldBlock newBlock : Block) (bc : BlockChain) : option ((Block * list Block * list Block) + string) :=
  if block_Hash oldBlock =? block_Hash newBlock then Some (inl (oldBlock, [], []))
  else match fuel with
  | O => None
  | S fuel =>
      match GetBlock (block_ParentHash oldBlock) (u64 (NumberU64 oldBlock - 1)) bc with
      | None => Some (inr "invalid old chain")
      | Some old =>
          match GetBlock (block_ParentHash newBlock) (u64 (NumberU64 newBlock - 1)) bc with
          | None => Some (inr "invalid new chain")
          | Some new =>
              r ← meet fuel old new bc;
              Some (match r with inl (commonBlock, oldChain, newChain) => inl (commonBlock, oldBlock :: oldChain, newBlock :: newChain) | inr err => inr err end)
          end
      end
  end.

Definition walk_fuel (b : Block) : nat := S (Z.to_nat (NumberU64 b)).

(** The common ancestor, with the blocks above it on both sides, the top ones first. *)
Definition common_ancestor (oldBlock newBlock : Block) (bc : BlockChain) : option ((Block * list Block * list Block) + string) :=
  '(oldChain, old) ← (if NumberU64 newBlock <? NumberU64 oldBlock then reduce (walk_fuel oldBlock) (Some oldBlock) (NumberU64 newBlock) bc else Some ([], Some oldBlock));
  '(newChain, new) ← (if NumberU64 newBlock <? NumberU64 oldBlock then Some ([], Some newBlock) else reduce (walk_fuel newBlock) (Some newBlock) (NumberU64 oldBlock) bc);
  match old, new with
  | None, _ => Some (inr "invalid old chain")
  | _, None => Some (inr "invalid new chain")
  | Some old, Some new =>
      r ← meet (walk_fuel old) old new bc;
      Some (match r with inl (commonBlock, oldChain', newChain') => inl (commonBlock, oldChain ++ oldChain', newChain ++ newChain') | inr err => inr err end)
  end.

(** Whether the blocks to be dropped are too many; the message of the first check names
    the first new block. *)
Definition check_depth (newBlock : Block) (oldChain newChain : list Block) (bc : BlockChain) : option error :=
  if negb (IsPBFTFork (block_Number newBlock)) then
    if (6 <? GetBlockSignersCount (currentBlock bc)) && (GetBlockSignersCount (currentBlock bc) / 2 <? zlen oldChain) then match newChain with [] => None | _ => Some (New "Dangerous new chain") end else Some nil_err
  else if (0 <? engine_SignersCount (pbftEngine bc) (currentBlock bc) newBlock) && (IrreversibleHeight <=? zlen oldChain) then Some (New "final confirm chain") else Some nil_err.

(** The new blocks but the top one become canonical, from the lowest upwards. *)
Definition insert_chain (newChain : list Block) (bc : BlockChain) : BlockChain :=
  foldr (fun b bc => on_bc_db (WriteTxLookupEntries b) (insert b bc)) bc (tail newChain).

(** The lookups of the transactions that are gone. *)
Definition drop_lookups (deletedTxs addedTxs : list bytes) (d : Db) : Db :=
  foldl (fun d tx => DeleteTxLookupEntry (tx_hash tx) d) d (filter (fun tx => tx_hash tx ∉ tx_hash <$> addedTxs) deletedTxs).

Definition reorg (oldBlock newBlock : Block) (bc : BlockChain) : option (error * BlockChain) :=
  r ← common_ancestor oldBlock newBlock bc;
  match r with
  | inr err => Some (New err, bc)
  | inl (commonBlock, oldChain, newChain) =>
      depth ← check_depth newBlock oldChain newChain bc;
      if failed depth then Some (depth, output [DangerousChain] bc)
      else
        let deletedLogs := concat (collectLogs bc <$> oldChain) in
        let rebirthLogs := concat (collectLogs bc <$> reverse (tail newChain)) in
        let deletedTxs := concat (block_transactions <$> oldChain) in
        let addedTxs := concat (block_transactions <$> reverse (tail newChain)) in
        let bc := insert_chain newChain bc in
        let number := NumberU64 (currentBlock bc) in
        d ← delete_above (above_fuel (db bc)) (u64 (number + 1)) (db bc) (drop_lookups deletedTxs addedTxs (db bc));
        let sent := (if 0 <? zlen deletedLogs then [RemovedLogs deletedLogs] else []) ++ (if 0 <? zlen rebirthLogs then [RebornLogs rebirthLogs] else []) ++ (SideBlock <$> oldChain) in
        Some (nil_err, output sent (on_bc_db (fun _ => d) bc))
  end.

(** ** Writing blocks *)

Definition writeBlockWithoutState (block : Block) (td : Z) (bc : BlockChain) : BlockChain :=
  on_bc_db (fun d => WriteBlock block (WriteTd (block_Hash block) (NumberU64 block) td d)) bc.

Definition writeKnownBlock (block : Block) (bc : BlockChain) : option (error * BlockChain) :=
  '(err, bc) ← (if negb (block_ParentHash block =? block_Hash (currentBlock bc)) then reorg (currentBlock bc) block bc else Some (nil_err, bc));
  if failed err then Some (err, bc) else Some (nil_err, insert block (on_bc_db (WriteTxLookupEntries block) bc)).

(** Evidence is looked for among the blocks before PBFT. *)
Definition isToManyEvilSigners (header : Header) (bc : BlockChain) : option (bool * BlockChain) :=
  match GetHeaderByNumber (Number_Uint64 header) (bc_hc bc) with
  | None => Some (false, bc)
  | Some headerOld =>
      if IsPBFTFork (Number header) then Some (false, bc)
      else
        '(stop, evilEvents, s) ← IsNeedStopChain (GetBlockSignersCount (currentBlock bc)) (engine_Author (pbftEngine bc)) header headerOld (evilSigners bc);
        Some (stop, bc <| evilSigners := s |> <| bc_journal := (fun j => foldl (fun j e => snd (Insert e j)) j evilEvents) <$> bc_journal bc |>)
  end.

Definition IsDangerChain (bc : BlockChain) : bool := IsDanger (GetBlockSignersCount (currentBlock bc)) (default 0 (block_Number (currentBlock bc))) (GetBlockSignersCount (currentBlock bc) * 2 / 3) (evilSigners bc).

(** Whether the block becomes the head. *)
Definition choose (externTd localTd : Z) (block : Block) (bc : BlockChain) : bool :=
  if localTd <? externTd then true
  else if externTd =? localTd then
    if NumberU64 block <? NumberU64 (currentBlock bc) then true
    else if NumberU64 block =? NumberU64 (currentBlock bc) then
      let preserve b := match shouldPreserve with Some f => f b | None => false end in
      negb (preserve (currentBlock bc)) && (preserve block || (negb (pbftEngine bc) && coin block))
    else false
  else false.

Definition writeBlockWithState (block : Block) (receipts : list bytes) (state : StateResult) (bc : BlockChain) : option (WriteStatus * error * BlockChain) :=
  match GetTd (block_ParentHash block) (u64 (NumberU64 block - 1)) (bc_hc bc) with
  | None => Some (NonStatTy, New ErrUnknownAncestor, bc)
  | Some ptd =>
      let localTd := GetTd (block_Hash (currentBlock bc)) (NumberU64 (currentBlock bc)) (bc_hc bc) in
      let externTd := block_Difficulty block + ptd in
      let bc := writeBlockWithoutState block externTd bc in
      match CommitState (fun n => GetHeaderByNumber n (bc_hc bc)) block state (store bc) with
      | inr err => Some (NonStatTy, New err, bc)
      | inl st =>
          let bc := bc <| store := st |> in
          '(isToMany, bc) ← isToManyEvilSigners (block_Header block) bc;
          if isToMany : bool then Some (SideStatTy, New "too many evil signers on the chain", output [DangerousChain] bc)
          else
            localTd ← localTd;
            let finish status bc := Some (status, nil_err, output [SyncHeader (block_Header block)] (bc <| futureBlocks := delete (block_Hash block) (futureBlocks bc) |>)) in
            let batch d := WriteReceipts (block_Hash block) (NumberU64 block) receipts d in
            if choose externTd localTd block bc then
              '(err, bc) ← (if negb (block_ParentHash block =? block_Hash (currentBlock bc)) then reorg (currentBlock bc) block bc else Some (nil_err, bc));
              if failed err then Some (NonStatTy, err, bc)
              else finish CanonStatTy (insert block (on_bc_db (fun d => WriteTxLookupEntries block (batch d)) bc))
            else finish SideStatTy (on_bc_db batch bc)
      end
  end.
End blockchain.

(** * The canonical chain of blocks *)
Section chainfacts.
Context `{!Keccak} `{!RangeOrder} `{!ChainEnv} (g : Z).

(** The header of the block is stored, up to what the chain looks at. *)
Definition stored (d : Db) (b : Block) : Prop := exists hd, db_headers d !! (NumberU64 b, block_Hash b) = Some hd /\ ParentHash hd = block_ParentHash b.

Record chain_ok (bc : BlockChain) : Prop := {
  co_db : db_ok g (db bc);
  co_chain : canonical (db bc) (NumberU64 (currentBlock bc)) (block_Hash (currentBlock bc));
  co_stored : stored (db bc) (currentBlock bc);
  co_td : is_Some (db_td (db bc) !! (NumberU64 (currentBlock bc), block_Hash (currentBlock bc)))
}.

(** Two databases with the same headers and difficulties. *)
Definition same_store (d d' : Db) : Prop := db_headers d' = db_headers d /\ db_td d' = db_td d.

Lemma same_store_trans d1 d2 d3 : same_store d1 d2 -> same_store d2 d3 -> same_store d1 d3.
Proof. intros [E1 E2] [E3 E4]. split; congruence. Qed.

Lemma stored_same d d' b : same_store d d' -> stored d b -> stored d' b.
Proof. intros [E _]. unfold stored. by rewrite E. Qed.

Lemma CopyHeader_Hash h : header_Hash (CopyHeader h) = header_Hash h.
Proof. done. Qed.

Lemma NumberU64_range b : 0 <= NumberU64 b < 2 ^ 64.
Proof. apply Number_Uint64_range. Qed.

(** What is read is stored, one below and with the hash asked for. *)
Lemma GetBlock_parent bc b y :
  db_ok g (db bc) -> GetBlock (block_ParentHash b) (u64 (NumberU64 b - 1)) bc = Some y ->
  NumberU64 b = NumberU64 y + 1 /\ block_Hash y = block_ParentHash b /\ stored (db bc) y.
Proof.
  intros Hok E. unfold GetBlock, ReadBlock, ReadHeader in E. destruct (db_headers (db bc) !! _) as [hd|] eqn:Eh; [|done]. cbn in E.
  destruct (ReadBody _ _ _); [|done]. cbn in E. injection E as <-. destruct (ok_header g _ Hok _ _ _ Eh) as (En & Ehash & Hr & _). pose proof (NumberU64_range b) as Hb.
  assert (NumberU64 b <> 0) as Hn0 by (intros E0; rewrite E0 in Hr; change (u64 (0 - 1)) with (2 ^ 64 - 1) in Hr; lia).
  rewrite u64_id in * by (unfold is_u64; lia). unfold NumberU64 at 2, block_Hash. cbn. split; [lia|]. split; [done|]. exists hd. unfold NumberU64, block_Hash. cbn. rewrite En, Ehash. done.
Qed.

(** A list of blocks, the top one first, each the parent of the one before and the last
    on top of [b]. *)
Fixpoint linked (d : Db) (l : list Block) (b : Block) : Prop :=
  match l with
  | [] => True
  | x :: l' => let y := default b (hd_error l') in NumberU64 x = NumberU64 y + 1 /\ block_ParentHash x = block_Hash y /\ stored d x /\ linked d l' b
  end.

(** The block and those above it are a chain from [top]. *)
Definition chain_down (d : Db) (top : Block) (l : list Block) (b : Block) : Prop :=
  linked d l b /\ stored d b /\ let t := default b (hd_error l) in NumberU64 t = NumberU64 top /\ block_Hash t = block_Hash top /\ block_ParentHash t = block_ParentHash top.

Lemma linked_length d l b : linked d l b -> NumberU64 (default b (hd_error l)) = NumberU64 b + zlen l.
Proof. induction l as [|x l IH]; cbn; [unfold zlen; cbn; lia|]. intros (E & _ & _ & Hl). rewrite zlen_cons, E, IH by done. lia. Qed.

Lemma linked_app d l k b c : linked d l b -> linked d k c -> NumberU64 (default c (hd_error k)) = NumberU64 b -> block_Hash (default c (hd_error k)) = block_Hash b -> linked d (l ++ k) c.
Proof.
  induction l as [|x l IH]; cbn; [done|]. intros (E1 & E2 & Hs & Hl) Hk En Eh. specialize (IH Hl Hk En Eh). destruct l as [|y l]; cbn in *; [|done].
  rewrite En, Eh. done.
Qed.

(** Canonical blocks down a chain. *)
Lemma linked_canonical d l b : linked d l b -> canonical d (NumberU64 (default b (hd_error l))) (block_Hash (default b (hd_error l))) -> 0 <= NumberU64 b -> canonical d (NumberU64 b) (block_Hash b).
Proof.
  induction l as [|x l IH]; cbn; [done|]. intros (E1 & E2 & (hd & Hhd & Hp) & Hl) Hc Hb. apply IH; [done| |done]. destruct Hc as [C1 C2 C3]. pose proof (linked_length d l b Hl) as Hlen. pose proof (zlen_nonneg l) as Hz.
  destruct (C3 (NumberU64 x)) as (hm & hd' & E3 & E4 & E5); [lia|]. rewrite C2 in E3. injection E3 as <-. rewrite Hhd in E4. injection E4 as <-. replace (NumberU64 x - 1) with (NumberU64 (default b (hd_error l))) in E5 by lia.
  rewrite Hp, E2 in E5. split; [lia|done|]. intros m Hm. apply C3. lia.
Qed.

Lemma branch_reduce_spec fuel bc b target l r :
  db_ok g (db bc) -> stored (db bc) b -> reduce fuel (Some b) target bc = Some (l, Some r) -> chain_down (db bc) b l r /\ NumberU64 r = target /\ (l = [] /\ r = b \/ hd_error l = Some b).
Proof.
  intros Hok. revert b l. induction fuel as [|fuel IH]; intros b l Hs E; cbn [reduce] in E; destruct (NumberU64 b =? target) eqn:En; simplify_eq.
  - bools. split; [done|auto].
  - bools. split; [done|auto].
  - destruct (GetBlock _ _ bc) as [y|] eqn:Ey; [|destruct fuel; cbn in E; simplify_eq]. destruct (GetBlock_parent bc b y Hok Ey) as (E1 & E2 & Hsy).
    destruct (reduce fuel (Some y) target bc) as [[l' r']|] eqn:Er; [|done]. cbn in E. simplify_eq. destruct (IH y l' Hsy Er) as ((Hl & Hsr & En' & Eh' & Ep') & Ht & _). split; [|split; [done|by right]].
    split; [|done]. cbn. rewrite En', Eh'. done.
Qed.

Lemma branches_meet_spec fuel bc old new c oldChain newChain :
  db_ok g (db bc) -> stored (db bc) old -> stored (db bc) new -> NumberU64 old = NumberU64 new -> meet fuel old new bc = Some (inl (c, oldChain, newChain)) ->
  chain_down (db bc) old oldChain c /\ linked (db bc) newChain c /\
  NumberU64 (default c (hd_error newChain)) = NumberU64 new /\ block_Hash (default c (hd_error newChain)) = block_Hash new /\ (newChain = [] \/ hd_error newChain = Some new).
Proof.
  intros Hok. revert old new oldChain newChain. induction fuel as [|fuel IH]; intros old new oldChain newChain Hso Hsn Hn E; cbn [meet] in E; destruct (block_Hash old =? block_Hash new) eqn:Eh; simplify_eq; bools.
  - split; [done|]. split; [done|]. cbn. auto.
  - split; [done|]. split; [done|]. cbn. auto.
  - destruct (GetBlock (block_ParentHash old) _ bc) as [o|] eqn:Eo; [|done]. destruct (GetBlock (block_ParentHash new) _ bc) as [n|] eqn:Enw; [|done].
    destruct (GetBlock_parent bc _ _ Hok Eo) as (E1 & E2 & Hs1). destruct (GetBlock_parent bc _ _ Hok Enw) as (E3 & E4 & Hs2).
    destruct (meet fuel o n bc) as [[[[c' oc] nc]|]|] eqn:Em; [|done..]. cbn in E. simplify_eq. destruct (IH o n oc nc Hs1 Hs2 ltac:(lia) Em) as ((Hlo & Hsc & Eo1 & Eo2 & Eo3) & Hln & En1 & En2 & _).
    split; [split; [|done]|split; [|cbn; auto]]; cbn.
    + rewrite Eo1, Eo2. done.
    + rewrite En1, En2. done.
Qed.

Lemma common_ancestor_spec bc new c oldChain newChain :
  chain_ok bc -> stored (db bc) new -> common_ancestor (currentBlock bc) new bc = Some (inl (c, oldChain, newChain)) ->
  canonical (db bc) (NumberU64 c) (block_Hash c) /\ NumberU64 (currentBlock bc) = NumberU64 c + zlen oldChain /\ linked (db bc) newChain c /\
  (newChain = [] /\ NumberU64 new = NumberU64 c /\ block_Hash new = block_Hash c \/ hd_error newChain = Some new).
Proof.
  intros [Hok Hc Hs _] Hsn. unfold common_ancestor. set (old := currentBlock bc) in *.
  assert (forall o oc oc', chain_down (db bc) old oc o -> chain_down (db bc) o oc' c -> canonical (db bc) (NumberU64 c) (block_Hash c) /\ NumberU64 old = NumberU64 c + zlen (oc ++ oc')) as Hold.
  { intros o oc oc' (Hl1 & _ & En1 & Eh1 & _) (Hl2 & _ & En2 & Eh2 & _). pose proof (NumberU64_range c). pose proof (NumberU64_range o).
    rewrite <- En1, <- Eh1 in Hc. pose proof (linked_canonical _ _ _ Hl1 Hc ltac:(lia)) as Hc1. rewrite <- En2, <- Eh2 in Hc1. split; [eapply linked_canonical; [exact Hl2|exact Hc1|lia]|].
    rewrite zlen_app. pose proof (linked_length _ _ _ Hl1). pose proof (linked_length _ _ _ Hl2). lia. }
  destruct (NumberU64 new <? NumberU64 old) eqn:Elt; bools.
  - destruct (reduce _ (Some old) _ bc) as [[oc [o|]]|] eqn:Er; [|done..]. cbn [mbind option_bind]. destruct (branch_reduce_spec _ _ _ _ _ _ Hok Hs Er) as (Hd & Hn & _).
    destruct (meet _ o new bc) as [[[[c' oc'] nc]|]|] eqn:Em; [|done..]. cbn. intros [= -> <- <-].
    destruct (branches_meet_spec _ _ _ _ _ _ _ Hok (proj1 (proj2 Hd)) Hsn Hn Em) as (Hd2 & Hln & En & Eh & Hhd). destruct (Hold o oc oc' Hd Hd2) as [H1' H2']. split; [done|]. split; [done|]. split; [done|].
    destruct Hhd as [-> | ->]; [left|by right]. cbn in En, Eh. done.
  - cbn [mbind option_bind]. destruct (reduce _ (Some new) _ bc) as [[nc [n|]]|] eqn:Er; [|done..]. cbn [mbind option_bind]. destruct (branch_reduce_spec _ _ _ _ _ _ Hok Hsn Er) as (Hd & Hn & Hhd).
    destruct (meet _ old n bc) as [[[[c' oc'] nc']|]|] eqn:Em; [|done..]. cbn. intros [= -> <- <-].
    destruct (branches_meet_spec _ _ _ _ _ _ _ Hok Hs (proj1 (proj2 Hd)) (eq_sym Hn) Em) as (Hd2 & Hln & En & Eh & Hhd2). destruct (Hold old [] oc' ltac:(done) Hd2) as [H1' H2']. split; [done|]. split; [done|].
    split; [apply (linked_app _ _ _ n); [apply Hd|done|done|done]|]. destruct Hhd as [[-> ->]|Hhd]; [|right; by destruct nc]. destruct Hhd2 as [-> |Hhd2]; [left; cbn in *; auto|by right].
Qed.

(** ** Insertion *)

Lemma insert_facts b bc :
  db_canon (db (insert b bc)) = <[ NumberU64 b := block_Hash b ]> (db_canon (db bc)) /\ same_store (db bc) (db (insert b bc)) /\ currentBlock (insert b bc) = b.
Proof. unfold insert. by case_match. Qed.

Lemma insert_canonical b bc :
  db_ok g (db bc) -> stored (db bc) b -> 0 < NumberU64 b -> canonical (db bc) (NumberU64 b - 1) (block_ParentHash b) ->
  db_ok g (db (insert b bc)) /\ canonical (db (insert b bc)) (NumberU64 b) (block_Hash b).
Proof.
  intros Hok (hd & Hhd & Hp) Hn Hc. destruct (insert_facts b bc) as (Ec & [Eh Et] & _). split.
  - eapply db_ok_ext; [exact Eh|exact Et| |exact Hok]. intros n h. rewrite Ec, lookup_insert. case_decide as D; [intros [= <-]; subst n; eauto|apply (ok_canon g _ Hok)].
  - rewrite <- Hp in Hc. eapply canonical_ext; [| |exact (canonical_insert _ _ _ _ Hn Hc Hhd)]; [intros m _; by rewrite Ec|intros k x; cbn; by rewrite Eh].
Qed.

(** What the chain does not look at. *)
Lemma db_ok_same d d' : db_canon d' = db_canon d -> same_store d d' -> db_ok g d -> db_ok g d'.
Proof. intros Ec [Eh Et] Hok. eapply db_ok_ext; [exact Eh|exact Et| |exact Hok]. rewrite Ec. apply (ok_canon g _ Hok). Qed.

Lemma canonical_same d d' n h : db_canon d' = db_canon d -> same_store d d' -> canonical d n h -> canonical d' n h.
Proof. intros Ec [Eh _]. apply canonical_ext; [intros m _; by rewrite Ec|intros k hd; by rewrite Eh]. Qed.

Lemma insert_list_spec l c bc :
  db_ok g (db bc) -> linked (db bc) l c -> canonical (db bc) (NumberU64 c) (block_Hash c) ->
  let bc' := foldr (fun b bc => on_bc_db (WriteTxLookupEntries b) (insert b bc)) bc l in
  let top := default c (hd_error l) in
  db_ok g (db bc') /\ same_store (db bc) (db bc') /\ canonical (db bc') (NumberU64 top) (block_Hash top) /\
  (forall m, m <= NumberU64 c -> db_canon (db bc') !! m = db_canon (db bc) !! m) /\ currentBlock bc' = default (currentBlock bc) (hd_error l) /\ pbftEngine bc' = pbftEngine bc.
Proof.
  intros Hok. induction l as [|x l IH]; cbn [linked foldr]; intros Hl Hc; [done|]. destruct Hl as (E1 & E2 & Hs & Hl). destruct (IH Hl Hc) as (Hok1 & Hs1 & Hc1 & Hm1 & Hcur1 & Hpb1). cbn zeta in *.
  set (bc1 := foldr _ bc l) in *. clearbody bc1. pose proof (linked_length _ _ _ Hl) as Hlen. pose proof (zlen_nonneg l). pose proof (NumberU64_range c).
  destruct (insert_canonical x bc1 Hok1) as [Hok2 Hc2]; [by eapply stored_same|lia|rewrite E1, Z.add_simpl_r, E2; exact Hc1|]. destruct (insert_facts x bc1) as (Ec & Hss & Hcur).
  split; [by eapply db_ok_same; [..|exact Hok2]|]. split; [eapply same_store_trans; [exact Hs1|exact Hss]|]. split; [by eapply canonical_same; [..|exact Hc2]|]. split; [|split].
  - intros m Hm. transitivity (db_canon (db bc1) !! m); [|by apply Hm1]. change (db_canon (db (on_bc_db (WriteTxLookupEntries x) (insert x bc1)))) with (db_canon (db (insert x bc1))). rewrite Ec, lookup_insert_ne by lia. done.
  - cbn. exact Hcur.
  - etransitivity; [|exact Hpb1]. cbn. unfold insert. by case_match.
Qed.

(** ** Reorganisation *)

Lemma drop_lookups_same deletedTxs addedTxs d : db_canon (drop_lookups deletedTxs addedTxs d) = db_canon d /\ same_store d (drop_lookups deletedTxs addedTxs d).
Proof. unfold drop_lookups. generalize (filter (fun tx => tx_hash tx ∉ tx_hash <$> addedTxs) deletedTxs). intros l. revert d. induction l as [|tx l IH]; intros d; cbn [foldl]; [done|]. destruct (IH (DeleteTxLookupEntry (tx_hash tx) d)) as (-> & E). done. Qed.

(** What a reorganisation from the head to [new] leaves: the chain up to the common ancestor
    [c], and a chain to the parent of [new]. *)
Record reorganised (new : Block) (bc bc' : BlockChain) (c : Block) : Prop := {
  re_db : db_ok g (db bc');
  re_same : same_store (db bc) (db bc');
  re_common : canonical (db bc) (NumberU64 c) (block_Hash c);
  re_depth : NumberU64 c <= NumberU64 (currentBlock bc);
  re_final : IsPBFTFork (block_Number new) = true -> 0 < engine_SignersCount (pbftEngine bc) (currentBlock bc) new -> NumberU64 (currentBlock bc) - NumberU64 c < IrreversibleHeight;
  re_poa : IsPBFTFork (block_Number new) = false -> 6 < GetBlockSignersCount (currentBlock bc) -> NumberU64 (currentBlock bc) - NumberU64 c <= GetBlockSignersCount (currentBlock bc) / 2;
  re_kept : forall m, m <= NumberU64 c -> db_canon (db bc') !! m = db_canon (db bc) !! m;
  re_new : (NumberU64 new = NumberU64 c /\ block_Hash new = block_Hash c) \/ (NumberU64 c < NumberU64 new /\ canonical (db bc') (NumberU64 new - 1) (block_ParentHash new))
}.

Lemma check_depth_spec new oldChain newChain bc :
  check_depth new oldChain newChain bc = Some nil_err ->
  (IsPBFTFork (block_Number new) = true -> 0 < engine_SignersCount (pbftEngine bc) (currentBlock bc) new -> zlen oldChain < IrreversibleHeight) /\
  (IsPBFTFork (block_Number new) = false -> 6 < GetBlockSignersCount (currentBlock bc) -> zlen oldChain <= GetBlockSignersCount (currentBlock bc) / 2).
Proof.
  unfold check_depth. destruct (IsPBFTFork (block_Number new)); cbn.
  - destruct (_ && _) eqn:E; [done|]. intros _. split; [|done]. intros _ Hs. apply andb_false_iff in E as [E%Z.ltb_ge|E%Z.leb_gt]; lia.
  - destruct (_ && _) eqn:E; [by case_match|]. intros _. split; [done|]. intros _ Hs. apply andb_false_iff in E as [E%Z.ltb_ge|E%Z.ltb_ge]; lia.
Qed.

Lemma reorg_spec new bc err bc' :
  chain_ok bc -> stored (db bc) new -> reorg (currentBlock bc) new bc = Some (err, bc') ->
  if failed err then db bc' = db bc /\ currentBlock bc' = currentBlock bc else exists c, reorganised new bc bc' c.
Proof.
  intros Hco Hsn. unfold reorg. destruct (common_ancestor _ _ _) as [[[[c oc] nc]|e]|] eqn:Ea; cbn [mbind option_bind]; [|intros E; by simplify_eq|done].
  destruct (common_ancestor_spec bc new c oc nc Hco Hsn Ea) as (Hc & Hlen & Hl & Hhd). destruct (check_depth _ _ _ _) as [depth|] eqn:Ed; [|done]. cbn [mbind option_bind].
  destruct (failed depth) eqn:Ef; [intros E; simplify_eq; by rewrite Ef|]. assert (depth = nil_err) as -> by (by destruct depth). clear Ef. apply check_depth_spec in Ed as [Hd1 Hd2].
  pose proof Hco as [Hok Hcur Hcs _]. pose proof (zlen_nonneg oc) as Hz. pose proof (NumberU64_range c) as Hcr.
  assert (linked (db bc) (tail nc) c) as Hlt by (destruct nc; cbn in *; tauto). unfold insert_chain.
  destruct (insert_list_spec (tail nc) c bc Hok Hlt Hc) as (Hok1 & Hs1 & Hc1 & Hm1 & Hcur1 & Hpb1). cbn zeta in *. set (bc1 := foldr _ bc (tail nc)) in *. clearbody bc1.
  destruct (delete_above _ _ _ _) as [d|] eqn:Edel; [|done]. cbn [mbind option_bind]. intros E. simplify_eq. cbn [failed].
  set (d0 := drop_lookups _ _ _) in Edel. destruct (drop_lookups_same (concat (block_transactions <$> oc)) (concat (block_transactions <$> reverse (tail nc))) (db bc1)) as [Ec0 Hs0]. fold d0 in Ec0, Hs0.
  assert (NumberU64 (default c (hd_error (tail nc))) <= NumberU64 (currentBlock bc1) < 2 ^ 64 - 1) as Hnum.
  { destruct Hcs as (hd & Hhd' & _). destruct (ok_header g _ Hok _ _ _ Hhd') as (_ & _ & Hr & _). rewrite Hcur1. destruct (hd_error (tail nc)) as [y|] eqn:Ey; cbn; [|lia]. split; [lia|].
    destruct (tail nc) as [|z l]; [done|]. cbn in Ey. injection Ey as ->. destruct Hlt as (_ & _ & (hy & Hhy & _) & _). destruct (ok_header g _ Hok _ _ _ Hhy) as (_ & _ & Hry & _). lia. }
  rewrite u64_id in Edel by (unfold is_u64; pose proof (NumberU64_range (currentBlock bc1)); lia).
  pose proof (linked_length _ _ _ Hlt) as Hlent. pose proof (zlen_nonneg (tail nc)) as Hzt. assert (0 <= NumberU64 (currentBlock bc1) + 1) as Hge by lia.
  destruct (delete_above_spec g _ _ _ _ _ Hok1 Hge Edel) as ([cn Ed] & Hlow & Hsub). exists c.
  assert (same_store (db bc1) d) as Hsd by (rewrite Ed; done).
  assert (forall m, m <= NumberU64 (currentBlock bc1) -> db_canon d !! m = db_canon (db bc1) !! m) as Hlow' by (intros m Hm; rewrite Hlow by lia; by rewrite Ec0).
  split; cbn; try done.
  - eapply db_ok_ext; [apply Hsd|apply Hsd| |exact Hok1]. intros n h Hn. apply Hsub in Hn. rewrite Ec0 in Hn. by apply (ok_canon g _ Hok1).
  - by eapply same_store_trans.
  - lia.
  - intros H1' H2'. specialize (Hd1 H1' H2'). lia.
  - intros H1' H2'. specialize (Hd2 H1' H2'). lia.
  - intros m Hm. change (db_canon d !! m = db_canon (db bc) !! m). rewrite Hlow' by lia. by apply Hm1.
  - destruct Hhd as [(-> & En & Eh)|Hhd]; [by left|right]. destruct nc as [|x l]; [done|]. cbn in Hhd. injection Hhd as ->. cbn in Hl, Hc1, Hlent, Hnum, Hzt. destruct Hl as (E1 & E2 & _). split; [lia|].
    rewrite E1, Z.add_simpl_r, E2. eapply canonical_ext; [| |exact Hc1]; [intros m Hm; apply Hlow'; lia|intros k hd; by rewrite (proj1 Hsd)].
Qed.

(** A block on top of the head needs no reorganisation. *)
Lemma head_extends new bc :
  chain_ok bc -> stored (db bc) new -> 0 < NumberU64 new -> block_ParentHash new = block_Hash (currentBlock bc) -> reorganised new bc bc (currentBlock bc).
Proof.
  intros [Hok Hc (hc & Hhc & _) _] (hd & Hhd & Hp) Hn Hpar. destruct (ok_parent g _ Hok _ _ _ Hhd Hn) as [hp Hhp]. rewrite Hp, Hpar in Hhp.
  assert (NumberU64 new - 1 = NumberU64 (currentBlock bc)) as En by (eapply (ok_unique g _ Hok); eauto).
  split; try done; [intros; unfold IrreversibleHeight; lia| |].
  - intros _ Hs. assert (0 <= GetBlockSignersCount (currentBlock bc) / 2) by (apply Z.div_pos; lia). lia.
  - right. split; [lia|]. by rewrite En, Hpar.
Qed.

(** To the parent of the block. *)
Definition goto (new : Block) (bc : BlockChain) : option (error * BlockChain) :=
  if negb (block_ParentHash new =? block_Hash (currentBlock bc)) then reorg (currentBlock bc) new bc else Some (nil_err, bc).

Lemma goto_spec new bc err bc' :
  chain_ok bc -> stored (db bc) new -> 0 < NumberU64 new -> goto new bc = Some (err, bc') ->
  if failed err then db bc' = db bc /\ currentBlock bc' = currentBlock bc else exists c, reorganised new bc bc' c.
Proof.
  intros Hco Hs Hn. unfold goto. destruct (_ =? _) eqn:E; cbn; [|by apply reorg_spec]. intros [= <- <-]. bools. exists (currentBlock bc). by apply head_extends.
Qed.

(** The block becomes the head. *)
Lemma insert_reorganised new bc bc1 bc2 c :
  reorganised new bc bc1 c -> stored (db bc) new -> is_Some (db_td (db bc) !! (NumberU64 new, block_Hash new)) -> db_canon (db bc2) = db_canon (db bc1) -> same_store (db bc1) (db bc2) ->
  chain_ok (insert new bc2) /\ same_store (db bc) (db (insert new bc2)) /\ currentBlock (insert new bc2) = new /\ forall m, m <= NumberU64 c -> db_canon (db (insert new bc2)) !! m = db_canon (db bc) !! m.
Proof.
  intros [R1 R2 R3 R4 R5 R6 R7 R8] Hs Htd Ec Hss. destruct (insert_facts new bc2) as (Ei & Hsi & Hcur). pose proof (db_ok_same _ _ Ec Hss R1) as Hok2.
  assert (same_store (db bc) (db (insert new bc2))) as Hsame by (eapply same_store_trans; [exact R2|]; by eapply same_store_trans).
  assert (db_ok g (db (insert new bc2)) /\ canonical (db (insert new bc2)) (NumberU64 new) (block_Hash new) /\ forall m, m <= NumberU64 c -> db_canon (db (insert new bc2)) !! m = db_canon (db bc) !! m) as (Hok3 & Hc3 & Hkept).
  { destruct R8 as [[En Eh]|[Hlt Hc]].
    - assert (canonical (db bc2) (NumberU64 new) (block_Hash new)) as Hc2.
      { rewrite En, Eh. eapply canonical_ext; [| |exact R3]; [intros m Hm; rewrite Ec; apply R7; lia|intros k hd; by rewrite (proj1 Hss), (proj1 R2)]. }
      assert (db_canon (db (insert new bc2)) = db_canon (db bc2)) as Eid by (rewrite Ei; apply insert_id, (can_head _ _ _ Hc2)).
      split; [by eapply db_ok_same|]. split; [by eapply canonical_same|]. intros m Hm. rewrite Eid, Ec. by apply R7.
    - pose proof (can_range _ _ _ Hc). destruct (insert_canonical new bc2 Hok2) as [Hok3 Hc3]; [exact (stored_same _ _ _ (same_store_trans _ _ _ R2 Hss) Hs)|lia|exact (canonical_same _ _ _ _ Ec Hss Hc)|].
      split; [done|]. split; [done|]. intros m Hm. rewrite Ei, lookup_insert_ne by lia. rewrite Ec. by apply R7. }
  split; [|done]. split; rewrite ?Hcur; [done|done|by eapply stored_same|]. by rewrite (proj2 Hsame).
Qed.

(** A known block.  Whatever it says of its parent, moving the head to a stored block
    keeps the canonical hashes a chain of stored headers from the genesis to the head. *)
Lemma writeKnownBlock_ok block bc err bc' :
  chain_ok bc -> stored (db bc) block -> 0 < NumberU64 block -> is_Some (db_td (db bc) !! (NumberU64 block, block_Hash block)) -> writeKnownBlock block bc = Some (err, bc') ->
  chain_ok bc' /\ same_store (db bc) (db bc') /\ (err = nil_err -> currentBlock bc' = block).
Proof.
  intros Hco Hs Hn Htd E. unfold writeKnownBlock in E. fold (goto block bc) in E. destruct (goto block bc) as [[e bc1]|] eqn:Eg; [|done]. cbn [mbind option_bind] in E.
  pose proof (goto_spec _ _ _ _ Hco Hs Hn Eg) as Hg. destruct (failed e) eqn:Ef; simplify_eq.
  - destruct Hg as [Ed Ec]. split; [|split; [by rewrite Ed|by intros ->]]. destruct Hco as [C1 C2 C3 C4]. split; rewrite ?Ed, ?Ec; done.
  - destruct Hg as [c Hr]. destruct (insert_reorganised block bc bc1 (on_bc_db (WriteTxLookupEntries block) bc1) c Hr Hs Htd) as (H1' & H2' & H3' & _); [done|done|]. done.
Qed.

(** The total difficulty of the head. *)
Definition head_difficulty (bc : BlockChain) : Z := default 0 (GetTd (block_Hash (currentBlock bc)) (NumberU64 (currentBlock bc)) (bc_hc bc)).

(** A block that may be written. *)
Definition admissible_block (bc : BlockChain) (b : Block) : Prop := admissible (db bc) (block_Header b).

Lemma write_stored block ptd bc :
  chain_ok bc -> admissible_block bc block -> GetTd (block_ParentHash block) (u64 (NumberU64 block - 1)) (bc_hc bc) = Some ptd ->
  let bc' := writeBlockWithoutState block (block_Difficulty block + ptd) bc in
  chain_ok bc' /\ stored (db bc') block /\ 0 < NumberU64 block /\ db_td (db bc') !! (NumberU64 block, block_Hash block) = Some (block_Difficulty block + ptd) /\
  (forall k t, db_td (db bc) !! k = Some t -> db_td (db bc') !! k = Some t) /\ currentBlock bc' = currentBlock bc /\ db_canon (db bc') = db_canon (db bc).
Proof.
  intros [Hok Hc Hs [t Ht]] Ha Hp bc'. destruct (put_both g (block_Header block) ptd (db bc) Hok Ha Hp) as (Hpos & Hpar & Hok1 & Htd & Hcan). cbn zeta in *.
  set (d1 := rawdb_WriteHeader (block_Header block) _) in *. assert (same_store d1 (db bc') /\ db_canon (db bc') = db_canon d1) as [Hss Ec] by done.
  assert (stored (db bc') block) as Hst by (exists (block_Header block); split; [cbn; by rewrite lookup_insert_eq|done]).
  assert (forall k t, db_td (db bc) !! k = Some t -> db_td (db bc') !! k = Some t) as Htd' by exact Htd.
  split; [split|].
  - by eapply db_ok_same; [..|exact Hok1].
  - eapply canonical_same; [exact Ec|exact Hss|]. by apply Hcan.
  - change (currentBlock bc') with (currentBlock bc). destruct Hs as (hd & Hhd & Hpd).
    destruct (decide ((NumberU64 block, block_Hash block) = (NumberU64 (currentBlock bc), block_Hash (currentBlock bc)))) as [E|E].
    + exists (block_Header block). rewrite <- E. split; [cbn; by rewrite lookup_insert_eq|]. injection E as E1 E2. destruct Ha as [_ _ A3].
      destruct (A3 _ _ (eq_trans (f_equal (fun h => db_headers (db bc) !! (NumberU64 (currentBlock bc), h)) E2) Hhd)) as (_ & E3 & _). by rewrite <- Hpd, E3.
    + exists hd. split; [|done]. transitivity (db_headers (db bc) !! (NumberU64 (currentBlock bc), block_Hash (currentBlock bc))); [|done]. cbn. by rewrite lookup_insert_ne.
  - exists t. by apply Htd'.
  - split; [done|]. split; [done|]. split; [cbn; by rewrite lookup_insert_eq|]. done.
Qed.

Lemma isToMany_rest header bc b bc' : isToManyEvilSigners header bc = Some (b, bc') -> bc_hc bc' = bc_hc bc /\ currentBlock bc' = currentBlock bc /\ pbftEngine bc' = pbftEngine bc.
Proof.
  unfold isToManyEvilSigners. destruct (GetHeaderByNumber _ _); [|by intros [= <- <-]]. destruct (IsPBFTFork _); [by intros [= <- <-]|].
  destruct (IsNeedStopChain _ _ _ _ _) as [[[stop ev] s]|]; [|done]. cbn. by intros [= <- <-].
Qed.

Lemma choose_td externTd localTd block bc : choose externTd localTd block bc = true -> localTd <= externTd.
Proof. unfold choose. repeat case_match; bools; try done; lia. Qed.

Lemma chain_ok_same bc bc' : db_canon (db bc') = db_canon (db bc) -> same_store (db bc) (db bc') -> currentBlock bc' = currentBlock bc -> chain_ok bc -> chain_ok bc'.
Proof.
  intros E1 E2 E3 [C1 C2 C3 C4]. split; rewrite ?E3; [by eapply db_ok_same|by eapply canonical_same|by eapply stored_same|by rewrite (proj2 E2)].
Qed.

Lemma head_difficulty_eq bc t : db_td (db bc) !! (NumberU64 (currentBlock bc), block_Hash (currentBlock bc)) = Some t -> head_difficulty bc = t.
Proof. unfold head_difficulty, GetTd, ReadTd. fold (db bc). by intros ->. Qed.

(** What a write does to the chain. *)
Record written (block : Block) (status : WriteStatus) (bc bc' : BlockChain) : Prop := {
  wr_ok : chain_ok bc';
  wr_td : head_difficulty bc <= head_difficulty bc';
  wr_engine : pbftEngine bc' = pbftEngine bc;
  wr_head : match status with CanonStatTy => currentBlock bc' = block | _ => currentBlock bc' = currentBlock bc /\ db_canon (db bc') = db_canon (db bc) end;
  wr_final : IsPBFTFork (block_Number block) = true -> 0 < engine_SignersCount (pbftEngine bc) (currentBlock bc) block -> forall m, m <= NumberU64 (currentBlock bc) - IrreversibleHeight -> db_canon (db bc') !! m = db_canon (db bc) !! m;
  wr_old : forall k t, db_td (db bc) !! k = Some t -> db_td (db bc') !! k = Some t
}.

Lemma written_side block status bc bc' :
  status <> CanonStatTy -> chain_ok bc -> chain_ok bc' -> currentBlock bc' = currentBlock bc -> pbftEngine bc' = pbftEngine bc -> db_canon (db bc') = db_canon (db bc) ->
  (forall k t, db_td (db bc) !! k = Some t -> db_td (db bc') !! k = Some t) -> written block status bc bc'.
Proof.
  intros Hs Hco Hco' Ec Ep Ecan Htd. split; try done; [|by destruct status|by rewrite Ecan]. destruct (co_td bc Hco) as [t Ht]. rewrite (head_difficulty_eq bc t Ht).
  rewrite (head_difficulty_eq bc' t); [done|]. rewrite Ec. by apply Htd.
Qed.

Lemma reorg_engine old new bc err bc' : reorg old new bc = Some (err, bc') -> pbftEngine bc' = pbftEngine bc /\ store bc' = store bc.
Proof.
  unfold reorg. destruct (common_ancestor _ _ _) as [[[[c oc] nc]|]|]; cbn [mbind option_bind]; [|by intros [= <- <-]|done]. destruct (check_depth _ _ _ _) as [depth|]; [|done]. cbn [mbind option_bind].
  destruct (failed depth); [by intros [= <- <-]|]. destruct (delete_above _ _ _ _) as [d|]; [|done]. cbn. intros [= <- <-]. cbn. unfold insert_chain. generalize (tail nc). intros l.
  induction l as [|x l IH]; cbn; [done|]. destruct IH as [<- <-]. unfold insert. by case_match.
Qed.

Lemma writeBlockWithState_spec block receipts state bc status err bc' :
  chain_ok bc -> admissible_block bc block -> writeBlockWithState block receipts state bc = Some (status, err, bc') -> written block status bc bc'.
Proof.
  intros Hco Ha. unfold writeBlockWithState. destruct (GetTd (block_ParentHash block) _ _) as [ptd|] eqn:Ep; [|intros E; simplify_eq; by apply written_side].
  destruct (write_stored block ptd bc Hco Ha Ep) as (Hco1 & Hst1 & Hpos & Htd1 & Hold1 & Hcur1 & Hcan1). cbn zeta in *. set (bc1 := writeBlockWithoutState block _ bc) in *.
  assert (pbftEngine bc1 = pbftEngine bc) as Hpb1 by done. clearbody bc1. destruct (CommitState _ _ _ _) as [st|e]; [|intros E; simplify_eq; by apply written_side].
  set (bc2 := bc1 <| store := st |>). destruct (isToManyEvilSigners _ bc2) as [[many bc3]|] eqn:Em; [|done]. cbn [mbind option_bind]. apply isToMany_rest in Em as (Eh3 & Ec3 & Ep3).
  assert (db bc3 = db bc1) as Ed3 by (unfold db; by rewrite Eh3). change (currentBlock bc2) with (currentBlock bc1) in Ec3. change (pbftEngine bc2) with (pbftEngine bc1) in Ep3.
  clearbody bc2. clear Eh3 bc2. assert (chain_ok bc3) as Hco3 by (eapply chain_ok_same; [..|exact Hco1]; [by rewrite Ed3|by rewrite Ed3|done]).
  rewrite <- Ed3 in Hst1, Htd1, Hold1, Hcan1. rewrite <- Ec3 in Hcur1. rewrite <- Ep3 in Hpb1. clear Ed3 Ec3 Ep3 Hco1 bc1.
  destruct many; [intros E; simplify_eq; apply written_side; try done; by eapply chain_ok_same; [..|exact Hco3]|].
  destruct (GetTd (block_Hash (currentBlock bc)) _ _) as [localTd|] eqn:El; [|done]. cbn [mbind option_bind]. destruct (choose _ _ _ _) eqn:Ech.
  2:{ intros E. simplify_eq. apply written_side; try done. by eapply chain_ok_same; [..|exact Hco3]. }
  fold (goto block bc3). destruct (goto block bc3) as [[e bc4]|] eqn:Eg; [|done]. cbn [mbind option_bind]. pose proof (goto_spec _ _ _ _ Hco3 Hst1 Hpos Eg) as Hg.
  assert (pbftEngine bc4 = pbftEngine bc) as Hpb4.
  { rewrite <- Hpb1. unfold goto in Eg. destruct (negb _); [by eapply reorg_engine|by simplify_eq]. }
  destruct (failed e).
  { destruct Hg as [Ed Ec]. intros E. simplify_eq. apply written_side; [done|done| |congruence|done|congruence|by rewrite Ed]. eapply chain_ok_same; [..|exact Hco3]; [by rewrite Ed|by rewrite Ed|done]. }
  destruct Hg as [c Hr]. intros E. simplify_eq.
  set (bc5 := on_bc_db _ bc4). destruct (insert_reorganised block bc3 bc4 bc5 c Hr Hst1 (ex_intro _ _ Htd1)) as (Hco6 & Hss6 & Hcur6 & Hkept); [done|done|].
  assert (pbftEngine (insert block bc5) = pbftEngine bc4) as Hpb6 by (unfold insert; by case_match). set (bc6 := insert block bc5) in *. clearbody bc6.
  split; cbn.
  - by eapply chain_ok_same; [..|exact Hco6].
  - rewrite (head_difficulty_eq bc localTd El). erewrite (head_difficulty_eq _ (block_Difficulty block + ptd)); [by eapply choose_td|]. cbn. rewrite Hcur6. change (db_td (db bc6) !! (NumberU64 block, block_Hash block) = Some (block_Difficulty block + ptd)). by rewrite (proj2 Hss6).
  - congruence.
  - done.
  - intros Hf Hsc m Hm. change (db_canon (db bc6) !! m = db_canon (db bc) !! m). rewrite Hkept; [by rewrite Hcan1|]. pose proof (re_final _ _ _ _ Hr Hf) as Hd. rewrite Hpb1, Hcur1 in Hd. specialize (Hd Hsc). lia.
  - intros k t Ht. change (db_td (db bc6) !! k = Some t). rewrite (proj2 Hss6). by apply Hold1.
Qed.

(** ** What the database holds besides the canonical hashes *)

(** Headers, difficulties and bodies. *)
Definition contents (d : Db) : gmap (Z * Z) Header * gmap (Z * Z) Z * gmap (Z * Z) Body := (db_headers d, db_td d, db_bodies d).

Lemma delete_above_contents fuel i d0 d d' : delete_above fuel i d0 d = Some d' -> contents d' = contents d.
Proof. revert i d. induction fuel as [|fuel IH]; intros i d; cbn [delete_above]; [done|]. case_match; [by intros [= <-]|]. intros E%IH. by rewrite E. Qed.

Lemma insert_contents b bc : contents (db (insert b bc)) = contents (db bc).
Proof. unfold insert. by case_match. Qed.

Lemma insert_chain_contents nc bc : contents (db (insert_chain nc bc)) = contents (db bc).
Proof.
  unfold insert_chain. generalize (tail nc). intros l. induction l as [|x l IH]; cbn [foldr]; [done|]. rewrite <- IH.
  change (contents (db (on_bc_db (WriteTxLookupEntries x) ?y))) with (contents (db y)). apply (insert_contents x).
Qed.

Lemma drop_lookups_contents deletedTxs addedTxs d : contents (drop_lookups deletedTxs addedTxs d) = contents d.
Proof. unfold drop_lookups. generalize (filter (fun tx => tx_hash tx ∉ tx_hash <$> addedTxs) deletedTxs). intros l. revert d. induction l as [|tx l IH]; intros d; cbn [foldl]; [done|]. by rewrite IH. Qed.

Lemma reorg_contents old new bc err bc' : reorg old new bc = Some (err, bc') -> contents (db bc') = contents (db bc).
Proof.
  unfold reorg. destruct (common_ancestor _ _ _) as [[[[c oc] nc]|]|]; cbn [mbind option_bind]; [|by intros [= <- <-]|done]. destruct (check_depth _ _ _ _) as [depth|]; [|done]. cbn [mbind option_bind].
  destruct (failed depth); [by intros [= <- <-]|]. destruct (delete_above _ _ _ _) as [d|] eqn:Ed; [|done]. cbn [mbind option_bind]. intros [= <- <-]. apply delete_above_contents in Ed.
  rewrite drop_lookups_contents, insert_chain_contents in Ed. exact Ed.
Qed.

Lemma goto_contents new bc err bc' : goto new bc = Some (err, bc') -> contents (db bc') = contents (db bc).
Proof. unfold goto. case_match; [apply reorg_contents|by intros [= <- <-]]. Qed.

Lemma writeKnownBlock_contents block bc err bc' : writeKnownBlock block bc = Some (err, bc') -> contents (db bc') = contents (db bc).
Proof.
  unfold writeKnownBlock. fold (goto block bc). destruct (goto block bc) as [[e bc1]|] eqn:Eg; [|done]. cbn [mbind option_bind]. apply goto_contents in Eg. case_match; intros [= <- <-]; [done|]. by rewrite insert_contents.
Qed.

Lemma writeBlockWithState_contents block receipts state bc status err bc' :
  writeBlockWithState block receipts state bc = Some (status, err, bc') ->
  contents (db bc') = contents (db bc) \/ exists ptd, GetTd (block_ParentHash block) (u64 (NumberU64 block - 1)) (bc_hc bc) = Some ptd /\ contents (db bc') = contents (db (writeBlockWithoutState block (block_Difficulty block + ptd) bc)).
Proof.
  unfold writeBlockWithState. destruct (GetTd (block_ParentHash block) _ _) as [ptd|] eqn:Ep; [|intros [= <- <- <-]; by left]. set (bc1 := writeBlockWithoutState block _ bc). intros E. right. exists ptd. split; [done|]. revert E.
  destruct (CommitState _ _ _ _) as [st|e]; [|by intros [= <- <- <-]]. destruct (isToManyEvilSigners _ _) as [[many bc3]|] eqn:Em; [|done]. cbn [mbind option_bind]. apply isToMany_rest in Em as (Eh3 & _).
  assert (contents (db bc3) = contents (db bc1)) as E3 by (unfold db; by rewrite Eh3). destruct many; [by intros [= <- <- <-]|]. destruct (GetTd (block_Hash (currentBlock bc)) _ _); [|done]. cbn [mbind option_bind].
  case_match; [|by intros [= <- <- <-]]. fold (goto block bc3). destruct (goto block bc3) as [[e bc4]|] eqn:Eg; [|done]. cbn [mbind option_bind]. apply goto_contents in Eg. case_match; intros [= <- <- <-]; [by etransitivity; [exact Eg|]|].
  etransitivity; [apply (insert_contents block)|]. etransitivity; [|exact E3]. exact Eg.
Qed.

(** ** A write returns *)

Lemma reduce_total fuel b target bc : db_ok g (db bc) -> (Z.to_nat (NumberU64 b) < fuel)%nat -> is_Some (reduce fuel (Some b) target bc).
Proof.
  intros Hok. revert b. induction fuel as [|fuel IH]; intros b Hf; [lia|]. cbn [reduce]. case_match; [eauto|]. destruct (GetBlock _ _ bc) as [y|] eqn:Ey.
  - destruct (GetBlock_parent bc b y Hok Ey) as (En & _). pose proof (NumberU64_range y). destruct (IH y) as [[l r] E]; [lia|]. rewrite E. cbn. eauto.
  - destruct fuel; cbn; eauto.
Qed.

Lemma meet_total fuel old new bc : db_ok g (db bc) -> (Z.to_nat (NumberU64 old) < fuel)%nat -> is_Some (meet fuel old new bc).
Proof.
  intros Hok. revert old new. induction fuel as [|fuel IH]; intros old new Hf; [lia|]. cbn [meet]. case_match; [eauto|]. destruct (GetBlock (block_ParentHash old) _ bc) as [o|] eqn:Eo; [|eauto]. destruct (GetBlock (block_ParentHash new) _ bc) as [n|]; [|eauto].
  destruct (GetBlock_parent bc _ _ Hok Eo) as (En & _). pose proof (NumberU64_range o). destruct (IH o n) as [r E]; [lia|]. rewrite E. cbn. eauto.
Qed.

Lemma common_ancestor_total old new bc : db_ok g (db bc) -> is_Some (common_ancestor old new bc).
Proof.
  intros Hok. unfold common_ancestor, walk_fuel. case_match.
  - destruct (reduce_total (S (Z.to_nat (NumberU64 old))) old (NumberU64 new) bc Hok) as [[l r] E]; [lia|]. rewrite E. cbn [mbind option_bind]. destruct r as [o|]; [|eauto].
    destruct (meet_total (S (Z.to_nat (NumberU64 o))) o new bc Hok) as [x Ex]; [lia|]. rewrite Ex. cbn. eauto.
  - cbn [mbind option_bind]. destruct (reduce_total (S (Z.to_nat (NumberU64 new))) new (NumberU64 old) bc Hok) as [[l r] E]; [lia|]. rewrite E. cbn [mbind option_bind]. destruct r as [o|]; [|eauto].
    destruct (meet_total (S (Z.to_nat (NumberU64 old))) old o bc Hok) as [x Ex]; [lia|]. rewrite Ex. cbn. eauto.
Qed.

(** A canonical block may be the target in the time of PBFT only: the other check of the depth
    reads the first new block, and there is none. *)
Lemma reorg_total new bc :
  chain_ok bc -> stored (db bc) new -> IsPBFTFork (block_Number new) = true \/ db_canon (db bc) !! NumberU64 new <> Some (block_Hash new) -> is_Some (reorg (currentBlock bc) new bc).
Proof.
  intros Hco Hs Hnc. unfold reorg. destruct (common_ancestor_total (currentBlock bc) new bc (co_db _ Hco)) as [r Er]. rewrite Er. cbn [mbind option_bind]. destruct r as [[[c oc] nc]|]; [|eauto].
  destruct (common_ancestor_spec bc new c oc nc Hco Hs Er) as (Hc & _ & Hl & Hhd). assert (is_Some (check_depth new oc nc bc)) as [depth ->].
  { unfold check_depth. destruct Hnc as [->|Hnc]; [cbn; case_match; eauto|]. destruct Hhd as [(-> & En & Eh)|Hhd]; [destruct Hc as [_ C _]; congruence|]. destruct nc; [done|]. repeat case_match; eauto. }
  cbn [mbind option_bind]. case_match; [eauto|]. assert (linked (db bc) (tail nc) c) as Hlt by (destruct nc; cbn in *; tauto). unfold insert_chain. destruct (insert_list_spec (tail nc) c bc (co_db _ Hco) Hlt Hc) as (Hok1 & _). cbn zeta in *.
  set (bc1 := foldr _ bc (tail nc)) in *. edestruct (delete_above_total g (u64 (NumberU64 (currentBlock bc1) + 1)) (db bc1)) as [d Ed]; [exact Hok1|apply u64_range|]. rewrite Ed. cbn. eauto.
Qed.

Lemma isToMany_total header bc : is_Some (Number header) -> IsPBFTFork (Number header) = true \/ evil_wf (evilSigners bc) -> exists b bc', isToManyEvilSigners header bc = Some (b, bc').
Proof.
  intros Hnum Hwf. unfold isToManyEvilSigners. destruct (GetHeaderByNumber _ _) as [old|]; [|eauto]. destruct (IsPBFTFork _); [eauto|]. destruct Hwf as [|Hwf]; [done|].
  destruct (IsNeedStopChain_total (GetBlockSignersCount (currentBlock bc)) (engine_Author (pbftEngine bc)) header old (evilSigners bc) Hnum Hwf) as (stop & ev & s & E). rewrite E. cbn. eauto.
Qed.

Lemma IsPBFTFork_copy b : IsPBFTFork (block_Number b) = true -> IsPBFTFork (Number (block_Header b)) = true.
Proof. unfold IsPBFTFork, block_Number. cbn. by destruct (Number (block_header b)), PBFTBlock. Qed.

Lemma writeBlockWithState_total block receipts state bc :
  chain_ok bc -> admissible_block bc block ->
  IsPBFTFork (block_Number block) = true \/ (evil_wf (evilSigners bc) /\ db_canon (db bc) !! NumberU64 block <> Some (block_Hash block)) ->
  is_Some (writeBlockWithState block receipts state bc).
Proof.
  intros Hco Ha Hor. unfold writeBlockWithState. destruct (GetTd (block_ParentHash block) _ _) as [ptd|] eqn:Ep; [|eauto].
  destruct (write_stored block ptd bc Hco Ha Ep) as (Hco1 & Hst1 & Hpos & _ & _ & Hcur1 & Hcan1). cbn zeta in *. set (bc1 := writeBlockWithoutState block _ bc) in *. assert (evilSigners bc1 = evilSigners bc) as Hev by done. clearbody bc1.
  destruct (CommitState _ _ _ _) as [st|]; [|eauto]. destruct (isToMany_total (block_Header block) (bc1 <| store := st |>)) as (many & bc3 & Em); [by eexists|cbn; rewrite Hev; destruct Hor as [Hf|[Hwf _]]; [left|by right]; by apply IsPBFTFork_copy|]. rewrite Em. cbn [mbind option_bind]. destruct many; [eauto|].
  apply isToMany_rest in Em as (Eh3 & Ec3 & _). destruct (co_td bc Hco) as [t Ht]. unfold GetTd, ReadTd. fold (db bc). rewrite Ht. cbn [mbind option_bind]. case_match; [|eauto].
  assert (db bc3 = db bc1) as Ed3 by (unfold db; by rewrite Eh3). assert (chain_ok bc3) as Hco3 by (eapply chain_ok_same; [..|exact Hco1]; [by rewrite Ed3|by rewrite Ed3|exact Ec3]).
  assert (is_Some (goto block bc3)) as [[e bc4] Eg].
  { unfold goto. case_match; [|eauto]. apply reorg_total; [done|by rewrite Ed3|]. destruct Hor as [Hf|[_ Hnc]]; [by left|right; by rewrite Ed3, Hcan1]. }
  fold (goto block bc3). rewrite Eg. cbn [mbind option_bind]. case_match; eauto.
Qed.

Lemma writeKnownBlock_total block bc :
  chain_ok bc -> stored (db bc) block -> IsPBFTFork (block_Number block) = true -> is_Some (writeKnownBlock block bc).
Proof.
  intros Hco Hs Hf. unfold writeKnownBlock. fold (goto block bc). assert (is_Some (goto block bc)) as [[e bc1] ->]; [|cbn; case_match; eauto].
  unfold goto. case_match; [|eauto]. apply reorg_total; [done|done|by left].
Qed.

(** C13: A write returns.  Writing a block that is not canonical yet never panics and its walks
    down the two branches end, with a status or an error. *)
Theorem writeBlockWithState_returns block receipts state bc :
  chain_ok bc -> evil_wf (evilSigners bc) -> admissible_block bc block -> db_canon (db bc) !! NumberU64 block <> Some (block_Hash block) ->
  exists status err bc', writeBlockWithState block receipts state bc = Some (status, err, bc').
Proof.
  intros Hco Hwf Ha Hnc. destruct (writeBlockWithState_total block receipts state bc Hco Ha) as [[[st e] bc'] E]; [by right|eauto].
Qed.

(** ** Finality *)

(** From the number [f] on, the total difficulty of a block is given by its number. *)
Record settled (c d f : Z) (bc : BlockChain) : Prop := {
  se_td : forall n h t, f <= n -> db_td (db bc) !! (n, h) = Some t -> t = c + d * n;
  se_head : f <= NumberU64 (currentBlock bc)
}.

(** Writes of blocks of the constant difficulty [d] in the time of PBFT, each while the
    engine counts at least one signer. *)
Inductive writes (d f : Z) : BlockChain -> BlockChain -> Prop :=
  | no_writes bc : writes d f bc bc
  | one_more bc bc1 bc2 block receipts state status err :
      writes d f bc bc1 -> admissible_block bc1 block -> IsPBFTFork (block_Number block) = true -> block_Difficulty block = d -> f < NumberU64 block ->
      0 < engine_SignersCount (pbftEngine bc1) (currentBlock bc1) block ->
      writeBlockWithState block receipts state bc1 = Some (status, err, bc2) -> writes d f bc bc2.

Lemma write_settled c d f block receipts state bc status err bc' :
  0 < d -> settled c d f bc -> chain_ok bc -> admissible_block bc block -> block_Difficulty block = d -> f < NumberU64 block -> writeBlockWithState block receipts state bc = Some (status, err, bc') ->
  settled c d f bc' /\ NumberU64 (currentBlock bc) <= NumberU64 (currentBlock bc').
Proof.
  intros Hd [S1 S2] Hco Ha Hdiff Hf E. pose proof (writeBlockWithState_spec _ _ _ _ _ _ _ Hco Ha E) as [W1 W2 _ W4 _ _].
  assert (forall n h t, f <= n -> db_td (db bc') !! (n, h) = Some t -> t = c + d * n) as S1'.
  { apply writeBlockWithState_contents in E as [E|(ptd & Hp & E)]; injection E as _ E _; rewrite E; [done|]. intros n h t Hn. cbn. rewrite lookup_insert. case_decide as D; [|by apply S1]. intros [= <-]. injection D as <- <-.
    pose proof (NumberU64_range block). assert (f <= NumberU64 block - 1) as Hf' by lia. unfold GetTd, ReadTd in Hp. destruct (decide (NumberU64 block = 0)) as [E0|Hn0].
    - destruct (ok_td g _ (co_db _ Hco) _ _ (ex_intro _ _ Hp)) as [hd Hhd]. destruct (ok_header g _ (co_db _ Hco) _ _ _ Hhd) as (_ & _ & Hr & _). rewrite E0 in Hr. change (u64 (0 - 1)) with (2 ^ 64 - 1) in Hr. lia.
    - rewrite u64_id in Hp by (unfold is_u64; lia). rewrite (S1 _ _ _ Hf' Hp). lia. }
  destruct (co_td bc Hco) as [t Ht]. destruct (co_td bc' W1) as [t' Ht']. rewrite (head_difficulty_eq bc t Ht), (head_difficulty_eq bc' t' Ht') in W2.
  assert (f <= NumberU64 (currentBlock bc')) as S2' by (destruct status; [destruct W4 as [-> _]; done|rewrite W4; lia|destruct W4 as [-> _]; done]). split; [by split|].
  rewrite (S1 _ _ _ S2 Ht), (S1' _ _ _ S2' Ht') in W2. nia.
Qed.

(** C12: Finality.  A canonical block that is six or more below the head stays canonical, whatever
    blocks are written afterwards, as long as these are blocks of the time of PBFT and of
    one difficulty, as all blocks are from some number up to the head on, and the engine
    counts at least one signer whenever one is written; with no signer, the code does not
    limit the depth of a reorganisation. *)
Theorem deep_blocks_are_final c d f bc bc' m :
  0 < d -> settled c d f bc -> chain_ok bc -> writes d f bc bc' ->
  m <= NumberU64 (currentBlock bc) - IrreversibleHeight -> db_canon (db bc') !! m = db_canon (db bc) !! m.
Proof.
  intros Hd Hse Hco Hw Hm. enough (settled c d f bc' /\ chain_ok bc' /\ NumberU64 (currentBlock bc) <= NumberU64 (currentBlock bc') /\ db_canon (db bc') !! m = db_canon (db bc) !! m) by tauto.
  induction Hw as [bc|bc bc1 bc2 block receipts state status err Hw IH Ha Hf Hdiff Hn Hsc E]; [split; [done|]; split; [done|]; split; [lia|done]|]. destruct (IH Hse Hco Hm) as (Hse1 & Hco1 & Hn1 & Hm1).
  pose proof (writeBlockWithState_spec _ _ _ _ _ _ _ Hco1 Ha E) as [W1 _ _ _ W5 _]. destruct (write_settled c d f _ _ _ _ _ _ _ Hd Hse1 Hco1 Ha Hdiff Hn E) as [Hse2 Hn2].
  split; [done|]. split; [done|]. split; [lia|]. rewrite W5; [done|done|done|lia].
Qed.

(** C11: The head follows the total difficulty.  After a write the canonical hashes are a chain of
    stored headers from the genesis to the head; the head is the written block when the
    status says so and the former one otherwise, and its total difficulty is not less
    than it was; in the time of PBFT, when the engine counts at least one signer, nothing
    six or more below the former head has changed. *)
Theorem write_keeps_heaviest block receipts state bc status err bc' :
  chain_ok bc -> admissible_block bc block -> writeBlockWithState block receipts state bc = Some (status, err, bc') ->
  chain_ok bc' /\ head_difficulty bc <= head_difficulty bc' /\ (status = CanonStatTy -> currentBlock bc' = block) /\
  (status <> CanonStatTy -> currentBlock bc' = currentBlock bc /\ db_canon (db bc') = db_canon (db bc)) /\
  (IsPBFTFork (block_Number block) = true -> 0 < engine_SignersCount (pbftEngine bc) (currentBlock bc) block -> forall m, m <= NumberU64 (currentBlock bc) - IrreversibleHeight -> db_canon (db bc') !! m = db_canon (db bc) !! m).
Proof.
  intros Hco Ha E. destruct (writeBlockWithState_spec _ _ _ _ _ _ _ Hco Ha E) as [W1 W2 _ W4 W5 _]. split; [done|]. split; [done|]. split; [by intros ->|]. split; [by destruct status|done].
Qed.
End chainfacts.

(** * A small instance *)
Module ToyChain.
#[export] Instance order : RangeOrder := list_range_order.

(** A polynomial in the bytes. *)
Definition polynomial : bytes -> Z := foldl (fun acc x => Z.land (acc * 33 + x + 1) (Z.ones 40)) 7.
#[global] Opaque polynomial.
#[export] Instance keccak : Keccak := polynomial.

(** The store is the set of roots; a block's state is its root; twelve signers, and PBFT
    from the block 1 on. *)
#[export] Instance env : ChainEnv := {|
  Store := gset Z; StateResult := Z;
  HasState := fun r s => bool_decide (r ∈ s);
  CommitState := fun _ b _ s => inl ({[ block_Root b ]} ∪ s);
  Process := fun b _ _ => inl ([], 0, block_Root b);
  IntermediateRoot := fun r => r; DeriveSha := fun _ => 0; receipts_bloom := fun _ _ => 0; receipts_sha := fun _ => 0;
  PBFTBlock := Some 1; engine_Author := fun _ h => inl (Coinbase h); engine_SignersCount := fun _ _ _ => 12; IsInBlockPool := fun _ _ => false;
  VerifyUncles := fun _ _ => nil_err; VerifyHeaders := fun _ _ chain => (fun _ => nil_err) <$> chain; GetBlockSignersCount := fun _ => 12; BadHashes := fun _ => false;
  shouldPreserve := None; coin := fun _ => false; block_Size := fun _ => 1
|}.

Definition block (parent number difficulty root : Z) : Block := {|
  block_header := {|
    ParentHash := parent; UncleHash := EmptyUncleHash; Coinbase := 7; Root := root; TxHash := 0; ReceiptHash := 0; Bloom := 0; Difficulty := Some difficulty; Number := Some number;
    GasLimit := 0; GasUsed := 0; header_Time := 0; Extra := []; MixDigest := 0; header_Nonce := []
  |};
  block_uncles := []; block_transactions := []
|}.

Definition genesis : Block := block 0 0 1 100.
Definition g : Z := block_Hash genesis.

Definition db0 : Db := {|
  db_canon := {[ 0 := g ]}; db_number := {[ g := 0 ]}; db_headers := {[ (0, g) := block_Header genesis ]}; db_bodies := {[ (0, g) := block_Body genesis ]}; db_receipts := ∅; db_td := {[ (0, g) := 1 ]};
  db_lookup := ∅; db_headHeader := g; db_headBlock := g; db_headFast := g
|}.

Definition bc0 : BlockChain := {|
  bc_hc := {| hc_db := db0; genesisHeader := block_Header genesis; currentHeader := block_Header genesis; currentHeaderHash := g |};
  genesisBlock := genesis; currentBlock := genesis; currentFastBlock := genesis; futureBlocks := ∅; badBlocks := ∅; evilSigners := no_signers; bc_journal := None;
  store := {[ 100 ]}; pbftEngine := true; procInterrupt := false; bc_outputs := []
|}.

Lemma g_nonzero : g <> 0.
Proof. by vm_compute. Qed.

Lemma bc0_ok : chain_ok g bc0.
Proof.
  assert (forall n h hd, db_headers db0 !! (n, h) = Some hd -> n = 0 /\ h = g /\ hd = block_Header genesis) as Hh by (intros n h hd E; cbn [db0 db_headers] in E; apply lookup_singleton_Some in E as [[<- <-]%pair_equal_spec <-]; split; [|split]; reflexivity).
  split; cbn.
  - split; cbn.
    + intros n h hd (-> & -> & ->)%Hh. split; [done|]. split; [done|]. split; [lia|apply g_nonzero].
    + intros n n' h [hd (-> & _)%Hh] [hd' (-> & _)%Hh]. done.
    + intros n h hd (-> & _)%Hh. lia.
    + intros h [hd (_ & -> & _)%Hh]. done.
    + intros n h [<- <-]%lookup_singleton_Some. rewrite lookup_singleton_eq. eauto.
    + intros n h [t [[<- <-]%pair_equal_spec _]%lookup_singleton_Some]. rewrite lookup_singleton_eq. eauto.
    + intros n h hd t (-> & _)%Hh. lia.
  - split; [done|exact (lookup_singleton_eq 0 g)|]. intros m Hm. exfalso. assert (0 < m <= 0) by exact Hm. lia.
  - exists (block_Header genesis). split; [exact (lookup_singleton_eq (0, g) (block_Header genesis))|done].
  - exists 1. exact (lookup_singleton_eq (0, g) 1).
Qed.

(** The block may be written. *)
Definition checked (b : Block) (bc : BlockChain) : bool :=
  bool_decide (block_Hash b <> 0) && (NumberU64 b <? 2 ^ 64 - 1) &&
  bool_decide (map_Forall (fun k hd => snd k = block_Hash b -> fst k = NumberU64 b /\ ParentHash hd = block_ParentHash b /\ default 0 (Difficulty hd) = block_Difficulty b) (db_headers (db bc))).

Lemma checked_admissible b bc : checked b bc = true -> admissible_block bc b.
Proof.
  unfold checked. rewrite !andb_true_iff, !bool_decide_eq_true. intros [[H1 H2%Z.ltb_lt] H3]. split; [done|done|]. intros n hd Hhd. by apply (H3 _ _ Hhd).
Qed.

Definition write (b : Block) (bc : BlockChain) : option BlockChain := if checked b bc then (fun '(_, _, bc') => bc') <$> writeBlockWithState b [] (block_Root b) bc else None.

Fixpoint write_all (bs : list Block) (bc : BlockChain) : option BlockChain := match bs with [] => Some bc | b :: bs => bc ← write b bc; write_all bs bc end.

Lemma write_ok b bc bc' : chain_ok g bc -> write b bc = Some bc' -> chain_ok g bc'.
Proof.
  unfold write. destruct (checked b bc) eqn:Ec; [|done]. intros Hco E. apply fmap_Some in E as ([[st e] bc1] & E & ->). eapply writeBlockWithState_spec; [exact Hco|by apply checked_admissible|exact E].
Qed.

Lemma write_all_ok bs bc bc' : chain_ok g bc -> write_all bs bc = Some bc' -> chain_ok g bc'.
Proof.
  revert bc. induction bs as [|b bs IH]; intros bc Hco E; cbn in E; [by simplify_eq|]. destruct (write b bc) as [bc1|] eqn:E1; [|done]. eapply (IH bc1); [by eapply write_ok|done].
Qed.

(** A chain of blocks of difficulty 2 on a parent. *)
Fixpoint extend (n : nat) (parent : Block) (root : Z) : list Block :=
  match n with O => [] | S n => let b := block (block_Hash parent) (NumberU64 parent + 1) 2 root in b :: extend n b (root + 1) end.

Definition main_chain : list Block := extend 6 genesis 200.

(** A fork at the block 5 that grows longer than the main chain. *)
Definition fork_chain : list Block := extend 2 (default genesis (main_chain !! 4%nat)) 300.

Definition usual (b : Block) : bool := IsPBFTFork (block_Number b) && (block_Difficulty b =? 2) && (0 <? NumberU64 b).

Lemma bc0_settled : settled 1 2 0 bc0.
Proof. split; [|done]. intros n h t Hn E. cbn [bc0 db bc_hc hc_db db0 db_td] in E. apply lookup_singleton_Some in E as [[<- _]%pair_equal_spec <-]. lia. Qed.

Lemma write_all_writes bs start bc bc' : forallb usual bs = true -> writes 2 0 start bc -> write_all bs bc = Some bc' -> writes 2 0 start bc'.
Proof.
  revert bc. induction bs as [|b bs IH]; intros bc Hu Hw E; cbn in E; [by simplify_eq|]. cbn in Hu. apply andb_true_iff in Hu as [Hb Hu]. unfold usual in Hb. rewrite !andb_true_iff, Z.eqb_eq, Z.ltb_lt in Hb. destruct Hb as [[H1 H2] H3].
  destruct (write b bc) as [bc1|] eqn:E1; [|done]. apply (IH bc1); [done| |done]. unfold write in E1. destruct (checked b bc) eqn:Ec; [|done]. apply fmap_Some in E1 as ([[st e] bc2] & E1 & ->).
  eapply (one_more _ _ _ bc bc2 b); [done|by apply checked_admissible|done|done|done|done|exact E1].
Qed.

Lemma writes_settled start bc : chain_ok g start -> settled 1 2 0 start -> writes 2 0 start bc -> settled 1 2 0 bc /\ chain_ok g bc.
Proof.
  intros Hco Hse. induction 1 as [|start bc1 bc2 b receipts state status err Hw IH Ha Hf Hd Hn Hsc E]; [done|]. destruct (IH Hco Hse) as [Hse1 Hco1].
  split; [by eapply (write_settled g 1 2 0 b)|]. by eapply (writeBlockWithState_spec g b).
Qed.
End ToyChain.
#[local] Existing Instances ToyChain.order ToyChain.keccak ToyChain.env.


(** The block 1 is written on the genesis block. *)
Definition toy_block : Block := ToyChain.block ToyChain.g 1 2 200.
Definition toy_state : @StateResult ToyChain.env := 200.

Lemma toy_block_admissible : admissible_block ToyChain.bc0 toy_block.
Proof. apply ToyChain.checked_admissible. vm_compute. reflexivity. Qed.

Lemma writeBlockWithState_returns_witness : exists status err bc', writeBlockWithState toy_block [] toy_state ToyChain.bc0 = Some (status, err, bc').
Proof.
  apply (writeBlockWithState_returns ToyChain.g toy_block [] toy_state ToyChain.bc0); [exact ToyChain.bc0_ok|exact no_signers_wf|exact toy_block_admissible|]. apply (bool_decide_unpack _). vm_compute. exact I.
Defined.

Lemma write_keeps_heaviest_witness : exists status err bc', writeBlockWithState toy_block [] toy_state ToyChain.bc0 = Some (status, err, bc') /\ currentBlock bc' = toy_block /\ head_difficulty ToyChain.bc0 <= head_difficulty bc'.
Proof.
  assert (match writeBlockWithState toy_block [] toy_state ToyChain.bc0 with Some (CanonStatTy, None, _) => true | _ => false end = true) as Hd by (vm_compute; reflexivity).
  destruct (writeBlockWithState toy_block [] toy_state ToyChain.bc0) as [[[st e] bc']|] eqn:E; [|discriminate Hd]. destruct st; [discriminate Hd| |discriminate Hd]. destruct e; [discriminate Hd|].
  destruct (write_keeps_heaviest ToyChain.g _ _ _ _ _ _ _ ToyChain.bc0_ok toy_block_admissible E) as (_ & H1 & H2 & _). exists CanonStatTy, nil_err, bc'. split; [reflexivity|]. split; [apply H2; reflexivity|exact H1].
Defined.

(** The head moves from the block 6 to the longer fork; the genesis block stays. *)
Lemma deep_blocks_are_final_witness : exists bc bc', ToyChain.write_all ToyChain.main_chain ToyChain.bc0 = Some bc /\ ToyChain.write_all ToyChain.fork_chain bc = Some bc' /\ db_canon (db bc') !! 0 = db_canon (db bc) !! 0.
Proof.
  assert (match ToyChain.write_all ToyChain.main_chain ToyChain.bc0 with Some bc => (NumberU64 (currentBlock bc) =? 6) && pbftEngine bc && match ToyChain.write_all ToyChain.fork_chain bc with Some bc' => NumberU64 (currentBlock bc') =? 7 | None => false end | None => false end = true) as Hd by (vm_compute; reflexivity).
  destruct (ToyChain.write_all ToyChain.main_chain ToyChain.bc0) as [bc|] eqn:E; [|discriminate Hd]. rewrite !andb_true_iff in Hd. destruct Hd as [[Hn%Z.eqb_eq Hp] Hd]. destruct (ToyChain.write_all ToyChain.fork_chain bc) as [bc'|] eqn:E'; [|discriminate Hd].
  exists bc, bc'. split; [reflexivity|]. split; [exact E'|]. destruct (ToyChain.writes_settled ToyChain.bc0 bc ToyChain.bc0_ok ToyChain.bc0_settled) as [Hse Hco].
  { eapply (ToyChain.write_all_writes ToyChain.main_chain); [vm_compute; reflexivity|apply no_writes|exact E]. }
  apply (deep_blocks_are_final ToyChain.g 1 2 0 bc bc' 0); [lia|exact Hse|exact Hco| |rewrite Hn; unfold IrreversibleHeight; lia].
  eapply (ToyChain.write_all_writes ToyChain.fork_chain); [vm_compute; reflexivity|apply no_writes|exact E'].
Defined.

(** Two blocks of difficulty 1 are canonical when one of difficulty 2 arrives on the genesis
    block: it is preferred, being as heavy and lower.  The canonical hash above it
    stays. *)
Definition light_blocks : list Block := let a := ToyChain.block ToyChain.g 1 1 200 in [a; ToyChain.block (block_Hash a) 2 1 201].
Definition heavy_block : Block := ToyChain.block ToyChain.g 1 2 300.

Theorem stale_canonical_hash :
  match ToyChain.write_all (light_blocks ++ [heavy_block]) ToyChain.bc0 with
  | Some bc => block_Hash (currentBlock bc) = block_Hash heavy_block /\ NumberU64 (currentBlock bc) = 1 /\ (block_Hash <$> GetBlockByNumber 2 bc) = (block_Hash <$> light_blocks !! 1%nat)
  | None => False
  end.
Proof. vm_compute. split; [|split]; reflexivity. Qed.
