(* ===== verification/BlockImport.v ===== *)
(** * [core/blockchain.go], [core/blockchain_insert.go], [core/block_validator.go]: import, rewind and repair

    The import of a segment of blocks: the verdicts of the engine on the headers are read
    one by one, bodies are validated when a block's turn comes, and the blocks are
    executed and written.  A segment whose parent's state is gone is stored first and
    imported again when it has become the heavier chain; that recursion has fuel.

    The wall clock is an argument. *)
From S2P Require Import Prelude Rlp Header EvilSigners HeaderChain BlockChain.

Section blockimport.
Context `{!Keccak} `{!RangeOrder} `{!ChainEnv}.

(** ** [BlockValidator] *)

Definition ValidateBody (block : Block) (bc : BlockChain) : error :=
  if IsInBlockPool (pbftEngine bc) (block_Hash block) then nil_err
  else if HasBlockAndState (block_Hash block) (NumberU64 block) bc then New ErrKnownBlock
  else match VerifyUncles (pbftEngine bc) block with
  | Some err => New err
  | None =>
      if negb (CalcUncleHash (block_uncles block) =? UncleHash (block_header block)) then New "uncle root hash mismatch"
      else if negb (DeriveSha (block_transactions block) =? TxHash (block_header block)) then New "transaction root hash mismatch"
      else if negb (HasBlockAndState (block_ParentHash block) (u64 (NumberU64 block - 1)) bc) then
        if negb (HasBlock (block_ParentHash block) (u64 (NumberU64 block - 1)) bc) then New ErrUnknownAncestor else New ErrPrunedAncestor
      else nil_err
  end.

Definition ValidateState (block : Block) (statedb : StateResult) (receipts : list bytes) (usedGas : Z) : error :=
  let header := block_header block in
  if negb (GasUsed header =? usedGas) then New "invalid gas used"
  else if negb (receipts_bloom receipts (block_transactions block) =? Bloom header) then New "invalid bloom"
  else if negb (receipts_sha receipts =? ReceiptHash header) then New "invalid receipt root hash"
  else if negb (IntermediateRoot statedb =? Root header) then New "invalid merkle root"
  else nil_err.

Definition GasLimitBoundDivisor : Z := 1024.
Definition MinGasLimit : Z := 5000.

Definition CalcGasLimit (parent : Block) (gasFloor gasCeil : Z) : Z :=
  let gasUsed := GasUsed (block_header parent) in
  let gasLimit := GasLimit (block_header parent) in
  let contrib := u64 (gasUsed + gasUsed / 2) / GasLimitBoundDivisor in
  let decay := u64 (gasLimit / GasLimitBoundDivisor - 1) in
  let limit := u64 (u64 (gasLimit - decay) + contrib) in
  let limit := if limit <? MinGasLimit then MinGasLimit else limit in
  if limit <? gasFloor then
    let limit := u64 (gasLimit + decay) in if gasFloor <? limit then gasFloor else limit
  else if gasCeil <? limit then
    let limit := u64 (gasLimit - decay) in if limit <? gasCeil then gasCeil else limit
  else limit.

(** ** The iterator *)

Record insertIterator := { it_chain : list Block; it_results : list error; it_index : Z }.

Definition newInsertIterator (chain : list Block) (results : list error) : insertIterator := {| it_chain := chain; it_results := results; it_index := -1 |}.

Definition at_index (it : insertIterator) (i : Z) : insertIterator := {| it_chain := it_chain it; it_results := it_results it; it_index := i |}.

Definition next (it : insertIterator) (bc : BlockChain) : option Block * error * insertIterator :=
  if zlen (it_chain it) <=? it_index it + 1 then (None, nil_err, at_index it (zlen (it_chain it)))
  else
    let i := it_index it + 1 in
    let block := it_chain it !! Z.to_nat i in
    match default nil_err (it_results it !! Z.to_nat i) with
    | Some err => (block, New err, at_index it i)
    | None => (block, match block with Some b => ValidateBody b bc | None => nil_err end, at_index it i)
    end.

Definition previous (it : insertIterator) : option Header := if it_index it <? 1 then None else block_Header <$> it_chain it !! Z.to_nat (it_index it - 1).

Definition is_err (err : error) (e : string) : bool := match err with Some s => String.eqb s e | None => false end.

(** ** Import *)

Definition addFutureBlock (now : Z) (block : Block) (bc : BlockChain) : error * BlockChain :=
  if u64 (now + maxTimeFutureBlocks) <? header_Time (block_header block) then (New "future block timestamp", bc)
  else (nil_err, bc <| futureBlocks := <[ block_Hash block := block ]> (futureBlocks bc) |>).

Definition reportBlock (block : Block) (bc : BlockChain) : BlockChain := bc <| badBlocks := <[ block_Hash block := block ]> (badBlocks bc) |>.

Definition Imported : Type := Z * list ChainEvent * list bytes * error * BlockChain.

(** The known blocks that are not heavier than the head are skipped. *)
Fixpoint skip_known (fuel : nat) (localTd externTd : Z) (block : option Block) (err : error) (it : insertIterator) (bc : BlockChain) : option (option Block * error * insertIterator) :=
  match block with
  | Some b =>
      if is_err err ErrKnownBlock then
        let externTd := externTd + block_Difficulty b in
        if localTd <? externTd then Some (block, err, it)
        else match fuel with O => None | S fuel => let '(block, err, it) := next it bc in skip_known fuel localTd externTd block err it bc end
      else Some (block, err, it)
  | None => Some (block, err, it)
  end.

(** The known blocks that are left are written. *)
Fixpoint write_known (fuel : nat) (block : option Block) (err : error) (it : insertIterator) (lastCanon : option Block) (bc : BlockChain) :
  option ((option Block * error * insertIterator * option Block * BlockChain) + Imported) :=
  match block with
  | Some b =>
      if is_err err ErrKnownBlock then
        match fuel with
        | O => None
        | S fuel =>
            '(e, bc) ← writeKnownBlock b bc;
            if failed e then Some (inr (it_index it, [], [], e, bc))
            else let '(block, err, it) := next it bc in write_known fuel block err it (Some b) bc
        end
      else Some (inl (block, err, it, lastCanon, bc))
  | None => Some (inl (block, err, it, lastCanon, bc))
  end.

(** Blocks whose ancestor is unknown follow one of the future: the error of the queue, and
    where the iterator is. *)
Fixpoint queue_future (fuel : nat) (now : Z) (first : bool) (block : option Block) (err : error) (it : insertIterator) (bc : BlockChain) : option (error * error * insertIterator * BlockChain) :=
  match block with
  | Some b =>
      if (first && (it_index it =? 0)) || is_err err ErrUnknownAncestor then
        match fuel with
        | O => None
        | S fuel =>
            let '(e, bc) := addFutureBlock now b bc in
            if failed e then Some (e, err, it, bc)
            else let '(block, err, it) := next it bc in queue_future fuel now first block err it bc
        end
      else Some (nil_err, err, it, bc)
  | None => Some (nil_err, err, it, bc)
  end.

(** The end of an import: future blocks are queued, and the head is announced. *)
Definition import_end (fuel : nat) (now : Z) (block : option Block) (err : error) (it : insertIterator) (events : list ChainEvent) (logs : list bytes) (lastCanon : option Block) (bc : BlockChain) : option Imported :=
  let announce '(err, it, bc) : Imported :=
    (it_index it, events ++ match lastCanon with Some b => if block_Hash (currentBlock bc) =? block_Hash b then [HeadEvent b] else [] | None => [] end, logs, err, bc) in
  match block with
  | Some b =>
      if is_err err ErrFutureBlock then
        let '(e, bc) := addFutureBlock now b bc in
        if failed e then Some (it_index it, events, logs, e, bc)
        else
          let '(block, err, it) := next it bc in
          '(e, err, it, bc) ← queue_future fuel now false block err it bc;
          if failed e then Some (it_index it, events, logs, e, bc) else Some (announce (err, it, bc))
      else Some (announce (err, it, bc))
  | None => Some (announce (err, it, bc))
  end.

(** The blocks are executed on their parents' states, validated and written. *)
Fixpoint import_loop (fuel : nat) (now : Z) (block : option Block) (err : error) (it : insertIterator) (events : list ChainEvent) (logs : list bytes) (lastCanon : option Block) (bc : BlockChain) : option Imported :=
  match fuel with
  | O => None
  | S fuel =>
      match block with
      | Some b =>
          if (negb (failed err) || is_err err ErrKnownBlock) && negb (procInterrupt bc) then
            if BadHashes (block_Hash b) then Some (it_index it, events, logs, New ErrBlacklistedHash, reportBlock b bc)
            else if is_err err ErrKnownBlock then
              '(e, bc) ← writeKnownBlock b bc;
              if failed e then Some (it_index it, [], [], e, bc)
              else let '(block, err, it) := next it bc in import_loop fuel now block err it (events ++ [BlockEvent b []]) logs (Some b) bc
            else
              parent ← match previous it with Some h => Some h | None => GetHeader (block_ParentHash b) (u64 (NumberU64 b - 1)) (bc_hc bc) end;
              if negb (HasState (Root parent) (store bc)) then Some (it_index it, events, logs, New "missing trie node", bc)
              else match Process b (Root parent) (store bc) with
              | inr e => Some (it_index it, events, logs, New e, reportBlock b bc)
              | inl (receipts, usedGas, statedb) =>
                  match ValidateState b statedb receipts usedGas with
                  | Some e => Some (it_index it, events, logs, New e, reportBlock b bc)
                  | None =>
                      '(status, e, bc) ← writeBlockWithState b receipts statedb bc;
                      if failed e then Some (it_index it, events, logs, e, bc)
                      else
                        let '(block, err, it) := next it bc in
                        match status with
                        | CanonStatTy => import_loop fuel now block err it (events ++ [BlockEvent b receipts]) (logs ++ receipts) (Some b) bc
                        | SideStatTy => import_loop fuel now block err it (events ++ [SideEvent b]) logs lastCanon bc
                        | NonStatTy => import_loop fuel now block err it events logs lastCanon bc
                        end
                  end
              end
          else import_end fuel now block err it events logs lastCanon bc
      | None => import_end fuel now block err it events logs lastCanon bc
      end
  end.

(** ** Side chains *)

(** The blocks of a side chain are stored; the total difficulty of the last is kept. *)
Fixpoint store_side (fuel : nat) (current : Block) (externTd : option Z) (block : option Block) (err : error) (it : insertIterator) (bc : BlockChain) :
  option ((option Z * error * insertIterator * BlockChain) + Imported) :=
  match block with
  | Some b =>
      if is_err err ErrPrunedAncestor then
        match fuel with
        | O => None
        | S fuel =>
            let canonical := if NumberU64 b <=? NumberU64 current then GetBlockByNumber (NumberU64 b) bc else None in
            match canonical with
            | Some c =>
                if block_Hash c =? block_Hash b then
                  let '(block, err, it) := next it bc in store_side fuel current (GetTd (block_Hash b) (NumberU64 b) (bc_hc bc)) block err it bc
                else if block_Root c =? block_Root b then Some (inr (it_index it, [], [], New "sidechain ghost-state attack", bc))
                else
                  td ← match externTd with Some td => Some td | None => GetTd (block_ParentHash b) (u64 (NumberU64 b - 1)) (bc_hc bc) end;
                  let td := td + block_Difficulty b in
                  let bc := if HasBlock (block_Hash b) (NumberU64 b) bc then bc else writeBlockWithoutState b td bc in
                  let '(block, err, it) := next it bc in store_side fuel current (Some td) block err it bc
            | None =>
                td ← match externTd with Some td => Some td | None => GetTd (block_ParentHash b) (u64 (NumberU64 b - 1)) (bc_hc bc) end;
                let td := td + block_Difficulty b in
                let bc := if HasBlock (block_Hash b) (NumberU64 b) bc then bc else writeBlockWithoutState b td bc in
                let '(block, err, it) := next it bc in store_side fuel current (Some td) block err it bc
            end
        end
      else Some (inl (externTd, err, it, bc))
  | None => Some (inl (externTd, err, it, bc))
  end.

(** The headers without a state, the lowest last, down to one that has it. *)
Fixpoint stateless (fuel : nat) (parent : option Header) (bc : BlockChain) : option (list (Z * Z) * option Header) :=
  match parent with
  | None => Some ([], None)
  | Some h =>
      if HasState (Root h) (store bc) then Some ([], Some h)
      else match fuel with
      | O => None
      | S fuel => '(l, p) ← stateless fuel (GetHeader (ParentHash h) (u64 (Number_Uint64 h - 1)) (bc_hc bc)) bc; Some ((header_Hash h, Number_Uint64 h) :: l, p)
      end
  end.

(** The stored blocks in order, imported in batches; [reimport] is [insertChain]. *)
Fixpoint reimport_loop (reimport : list Block -> BlockChain -> option Imported) (hashes : list (Z * Z)) (blocks : list Block) (memory : Z) (bc : BlockChain) : option Imported :=
  match hashes with
  | [] => match blocks with [] => Some (0, [], [], nil_err, bc) | _ => reimport blocks bc end
  | (hash, number) :: hashes =>
      block ← GetBlock hash number bc;
      let blocks := blocks ++ [block] in
      let memory := memory + block_Size block in
      if (2048 <=? zlen blocks) || (64 * 1024 * 1024 <? memory) then
        '(_, _, _, e, bc) ← reimport blocks bc;
        if failed e then Some (0, [], [], e, bc)
        else if procInterrupt bc then Some (0, [], [], nil_err, bc)
        else reimport_loop reimport hashes [] 0 bc
      else reimport_loop reimport hashes blocks memory bc
  end.

Definition insertSideChain (reimport : list Block -> BlockChain -> option Imported) (fuel : nat) (block : option Block) (it : insertIterator) (bc : BlockChain) : option Imported :=
  let current := currentBlock bc in
  r ← store_side fuel current None block (New ErrPrunedAncestor) it bc;
  match r with
  | inr imported => Some imported
  | inl (externTd, err, it, bc) =>
      externTd ← externTd;
      localTd ← GetTd (block_Hash current) (NumberU64 current) (bc_hc bc);
      if externTd <? localTd then Some (it_index it, [], [], err, bc)
      else
        let last := previous it in
        '(hashes, parent) ← stateless (S (Z.to_nat (default 0 (Number_Uint64 <$> last)))) last bc;
        match parent with
        | None => Some (it_index it, [], [], New "missing parent", bc)
        | Some _ => reimport_loop reimport (reverse hashes) [] 0 bc
        end
  end.

(** ** [insertChain] *)

Definition insertBlockChain (reimport : list Block -> BlockChain -> option Imported) (now : Z) (engine : bool) (chain : list Block) (bc : BlockChain) : option Imported :=
  if procInterrupt bc then Some (0, [], [], nil_err, bc)
  else
    let it := newInsertIterator chain (VerifyHeaders engine (bc_hc bc) chain) in
    let fuel := S (S (length chain)) in
    let '(block, err, it) := next it bc in
    r ← match block with
      | Some b =>
          if is_err err ErrKnownBlock then
            localTd ← GetTd (block_Hash (currentBlock bc)) (NumberU64 (currentBlock bc)) (bc_hc bc);
            externTd ← GetTd (block_ParentHash b) (u64 (NumberU64 b - 1)) (bc_hc bc);
            '(block, err, it) ← skip_known fuel localTd externTd block err it bc;
            write_known fuel block err it None bc
          else Some (inl (block, err, it, None, bc))
      | None => Some (inl (block, err, it, None, bc))
      end;
    match r with
    | inr imported => Some imported
    | inl (block, err, it, lastCanon, bc) =>
        if is_err err ErrPrunedAncestor then insertSideChain reimport fuel block it bc
        else if is_err err ErrFutureBlock || (is_err err ErrUnknownAncestor && match chain with b :: _ => bool_decide (is_Some (futureBlocks bc !! block_ParentHash b)) | [] => false end) then
          '(e, err, it, bc) ← queue_future fuel now true block err it bc;
          Some (it_index it, [], [], if failed e then e else err, bc)
        else if failed err then
          b ← block;
          Some (it_index it, [], [], err, reportBlock b (bc <| futureBlocks := delete (block_Hash b) (futureBlocks bc) |>))
        else import_loop fuel now block err it [] [] lastCanon bc
    end.

(** The blocks before the fork go to one engine, those from it on to the other. *)
Fixpoint insertChain (fuel : nat) (now : Z) (chain : list Block) (bc : BlockChain) : option Imported :=
  match fuel, chain with
  | O, _ => None
  | _, [] => None
  | S fuel, first :: _ =>
      let reimport := insertChain fuel now in
      match PBFTBlock with
      | None => insertBlockChain reimport now true chain bc
      | Some fork =>
          if IsPBFTFork (block_Number first) then insertBlockChain reimport now true chain bc
          else
            let limit := u64 (u64 fork - NumberU64 first) in
            if zlen chain <=? limit then insertBlockChain reimport now false chain bc
            else
              '(n, events, logs, err, bc) ← insertBlockChain reimport now false (take (Z.to_nat limit) chain) bc;
              if failed err then Some (n, events, logs, err, bc)
              else
                let events := take (length events - 1) events in
                '(n, events1, logs1, err, bc) ← insertBlockChain reimport now true (drop (Z.to_nat limit) chain) bc;
                Some (n, events ++ events1, logs ++ logs1, err, bc)
      end
  end.

Definition InsertChain (fuel : nat) (now : Z) (chain : list Block) (bc : BlockChain) : option Imported :=
  match chain with
  | [] => Some (0, [], [], nil_err, bc)
  | _ => if negb (contiguous (block_header <$> chain)) then Some (0, [], [], New "non contiguous insert", bc) else insertChain fuel now chain bc
  end.

(** The future blocks one by one; [queued] are those of the cache, sorted by number. *)
Definition procFutureBlocks (fuel : nat) (now : Z) (queued : list Block) (bc : BlockChain) : option BlockChain :=
  foldl (fun acc b => bc ← acc; '(_, _, _, _, bc) ← InsertChain fuel now [b] bc; Some bc) (Some bc) queued.
End blockimport.

(** * Import keeps the chain *)

Lemma is_err_spec err e : is_err err e = true <-> err = Some e.
Proof. unfold is_err. destruct err as [s|]; [|done]. rewrite String.eqb_eq. split; congruence. Qed.

(** The headers in play: no two collide, no hash is zero. *)
Record universe `{!Keccak} (U : Header -> Prop) : Prop := {
  U_compat : forall h h', U h -> U h' -> compatible h h';
  U_hash : forall h, U h -> header_Hash h <> 0;
  U_number : forall h, U h -> Number_Uint64 h < 2 ^ 64 - 1;
  U_copy : forall h, U h -> U (CopyHeader h)
}.

(** The engines leave it to the validator to say that a block is known, or its ancestor
    pruned. *)
Definition plain (err : error) : Prop := err <> Some ErrKnownBlock /\ err <> Some ErrPrunedAncestor.

Record plain_engines `{!ChainEnv} : Prop := {
  plain_headers : forall engine hc chain err, err ∈ VerifyHeaders engine hc chain -> plain err;
  plain_uncles : forall engine b, plain (VerifyUncles engine b)
}.

Section importfacts.
Context `{!Keccak} `{!RangeOrder} `{!ChainEnv} (g : Z) (U : Header -> Prop) (HU : universe U) (HE : plain_engines).

Record import_ok (bc : BlockChain) : Prop := {
  io_chain : chain_ok g bc;
  io_U : forall k hd, db_headers (db bc) !! k = Some hd -> U hd;
  io_td : forall k, is_Some (db_headers (db bc) !! k) -> is_Some (db_td (db bc) !! k);
  io_body : forall k, is_Some (db_bodies (db bc) !! k) -> is_Some (db_headers (db bc) !! k)
}.

(** A block that may be imported. *)
Definition good (b : Block) : Prop := U (block_Header b) /\ 0 < NumberU64 b.

Lemma good_admissible bc b : import_ok bc -> good b -> admissible_block bc b.
Proof.
  intros [Hco HI _ _] [Hb _]. split; [by apply (U_hash U HU)|by apply (U_number U HU)|]. intros n hd Hhd. destruct (ok_header g _ (co_db g bc Hco) _ _ _ Hhd) as (En & Eh & _).
  destruct (U_compat U HU hd (block_Header b)) as (E1 & E2 & E3); [by eapply HI|done|done|]. split; [congruence|]. done.
Qed.

(** A block of which the header is there. *)
Lemma good_stored bc b hd : import_ok bc -> good b -> db_headers (db bc) !! (NumberU64 b, block_Hash b) = Some hd -> stored (db bc) b /\ is_Some (db_td (db bc) !! (NumberU64 b, block_Hash b)).
Proof.
  intros Hio Hb Hhd. destruct (good_admissible bc b Hio Hb) as [_ _ A]. destruct (A _ _ Hhd) as (_ & Ep & _). split; [by exists hd|]. apply (io_td bc Hio). eauto.
Qed.

Lemma has_block_stored bc b : import_ok bc -> good b -> HasBlockAndState (block_Hash b) (NumberU64 b) bc = true -> stored (db bc) b /\ is_Some (db_td (db bc) !! (NumberU64 b, block_Hash b)).
Proof.
  intros Hio Hb. unfold HasBlockAndState, GetBlock, ReadBlock, ReadHeader. destruct (db_headers (db bc) !! _) as [hd|] eqn:Eh; [|done]. intros _. by eapply good_stored.
Qed.

Lemma import_ok_same bc bc' : contents (db bc') = contents (db bc) -> chain_ok g bc' -> import_ok bc -> import_ok bc'.
Proof. intros E Hco [_ I1 I2 I3]. injection E as E1 E2 E3. split; rewrite ?E1, ?E2, ?E3; done. Qed.

Lemma import_ok_ext bc bc' : bc_hc bc' = bc_hc bc -> currentBlock bc' = currentBlock bc -> import_ok bc -> import_ok bc'.
Proof.
  intros E1 E2 Hio. assert (db bc' = db bc) as Ed by (unfold db; by rewrite E1). eapply import_ok_same; [by rewrite Ed| |exact Hio]. eapply chain_ok_same; [..|exact (io_chain bc Hio)]; [by rewrite Ed|by rewrite Ed|done].
Qed.

Lemma import_ok_put block ptd bc :
  import_ok bc -> good block -> GetTd (block_ParentHash block) (u64 (NumberU64 block - 1)) (bc_hc bc) = Some ptd ->
  import_ok (writeBlockWithoutState block (block_Difficulty block + ptd) bc) /\
  db_td (db (writeBlockWithoutState block (block_Difficulty block + ptd) bc)) !! (NumberU64 block, block_Hash block) = Some (block_Difficulty block + ptd).
Proof.
  intros Hio Hb Hp. pose proof (good_admissible bc block Hio Hb) as Ha. destruct (write_stored g block ptd bc (io_chain bc Hio) Ha Hp) as (Hco & _ & _ & Htd & _). cbn zeta in *. split; [|done]. destruct Hio as [_ I1 I2 I3].
  split; [done|..]; unfold writeBlockWithoutState, WriteBlock, rawdb_WriteHeader, WriteBody, WriteTd; cbn.
  - intros k hd. rewrite lookup_insert. case_decide; [intros [= <-]; apply Hb|apply I1].
  - intros k. rewrite !lookup_insert. change (Number_Uint64 (block_Header block)) with (NumberU64 block). change (header_Hash (block_Header block)) with (block_Hash block). case_decide; [eauto|apply I2].
  - intros k. rewrite !lookup_insert. change (Number_Uint64 (block_Header block)) with (NumberU64 block). change (header_Hash (block_Header block)) with (block_Hash block). case_decide; [eauto|apply I3].
Qed.

Lemma import_write block receipts state bc status err bc' : import_ok bc -> good block -> writeBlockWithState block receipts state bc = Some (status, err, bc') -> import_ok bc'.
Proof.
  intros Hio Hb E. pose proof (writeBlockWithState_spec g _ _ _ _ _ _ _ (io_chain bc Hio) (good_admissible bc block Hio Hb) E) as [Hco _ _ _ _ _].
  apply writeBlockWithState_contents in E as [E|(ptd & Hp & E)]; [by eapply import_ok_same|]. eapply import_ok_same; [exact E|done|]. by apply import_ok_put.
Qed.

Lemma import_known block bc err bc' : import_ok bc -> good block -> HasBlockAndState (block_Hash block) (NumberU64 block) bc = true -> writeKnownBlock block bc = Some (err, bc') -> import_ok bc'.
Proof.
  intros Hio Hb Hk E. destruct (has_block_stored bc block Hio Hb Hk) as [Hs Ht]. destruct (writeKnownBlock_ok g _ _ _ _ (io_chain bc Hio) Hs (proj2 Hb) Ht E) as (Hco & _). eapply import_ok_same; [|done|exact Hio]. by eapply writeKnownBlock_contents.
Qed.

(** ** The iterator *)

Record it_ok (it : insertIterator) : Prop := { it_good : Forall good (it_chain it); it_plain : forall err, err ∈ it_results it -> plain err; it_low : -1 <= it_index it }.

(** The block at the iterator, and what its error says. *)
Definition at_block (it : insertIterator) (block : option Block) (err : error) (bc : BlockChain) : Prop :=
  match block with
  | None => err = nil_err
  | Some b => 0 <= it_index it /\ it_chain it !! Z.to_nat (it_index it) = Some b /\ good b /\ (err = Some ErrKnownBlock -> HasBlockAndState (block_Hash b) (NumberU64 b) bc = true)
  end.

Lemma ValidateBody_known b bc : ValidateBody b bc = Some ErrKnownBlock -> HasBlockAndState (block_Hash b) (NumberU64 b) bc = true.
Proof.
  unfold ValidateBody. destruct (IsInBlockPool _ _); [done|]. destruct (HasBlockAndState (block_Hash b) _ bc); [done|]. pose proof (plain_uncles HE (pbftEngine bc) b) as [Hu _]. destruct (VerifyUncles _ _) as [e|]; [congruence|].
  repeat case_match; done.
Qed.

Lemma next_spec it bc block err it' :
  it_ok it -> next it bc = (block, err, it') -> it_ok it' /\ it_chain it' = it_chain it /\ at_block it' block err bc /\ (is_Some block -> it_index it' = it_index it + 1).
Proof.
  intros [G P L]. unfold next. destruct (zlen (it_chain it) <=? it_index it + 1) eqn:El; bools.
  - intros [= <- <- <-]. split; [split; cbn; try done; pose proof (zlen_nonneg (it_chain it)); lia|]. split; [done|]. split; [done|by intros [? [=]]].
  - destruct (lookup_lt_is_Some_2 (it_chain it) (Z.to_nat (it_index it + 1))) as [b Eb]; [unfold zlen in El; lia|]. rewrite Eb. rewrite Forall_forall in G. assert (good b) as Hb by (apply G; by eapply list_elem_of_lookup_2).
    set (verdict := default nil_err (it_results it !! Z.to_nat (it_index it + 1))). assert (plain verdict) as Hv.
    { unfold verdict. destruct (it_results it !! _) as [e|] eqn:Ee; [|done]. apply P. by eapply list_elem_of_lookup_2. }
    clearbody verdict. destruct verdict as [e|]; intros [= <- <- <-]; (split; [split; cbn; [by apply Forall_forall|done|lia]|]); (split; [done|]); (split; [|done]); cbn; (split; [lia|]); (split; [done|]); (split; [done|]).
    + by destruct Hv.
    + apply ValidateBody_known.
Qed.

Lemma skip_known_spec fuel localTd externTd block err it bc block' err' it' :
  it_ok it -> at_block it block err bc -> skip_known fuel localTd externTd block err it bc = Some (block', err', it') -> it_ok it' /\ it_chain it' = it_chain it /\ at_block it' block' err' bc.
Proof.
  revert externTd block err it. induction fuel as [|fuel IH]; intros externTd block err it Hi Ha E; cbn [skip_known] in E; (destruct block as [b|]; [|by simplify_eq]); (destruct (is_err err ErrKnownBlock); [|by simplify_eq]); (case_match; [by simplify_eq|]); [done|].
  destruct (next it bc) as [[block1 err1] it1] eqn:En. destruct (next_spec _ _ _ _ _ Hi En) as (Hi1 & Ec1 & Ha1 & _). destruct (IH _ _ _ _ Hi1 Ha1 E) as (H1' & H2' & H3'). split; [done|]. split; [congruence|done].
Qed.

Lemma write_known_spec fuel block err it lastCanon bc r :
  import_ok bc -> it_ok it -> at_block it block err bc -> write_known fuel block err it lastCanon bc = Some r ->
  match r with inl (block', err', it', _, bc') => import_ok bc' /\ it_ok it' /\ it_chain it' = it_chain it /\ at_block it' block' err' bc' /\ err' <> Some ErrKnownBlock | inr (_, _, _, _, bc') => import_ok bc' end.
Proof.
  revert block err it lastCanon bc. induction fuel as [|fuel IH]; intros block err it lastCanon bc Hio Hi Ha E; cbn [write_known] in E; (destruct block as [b|]; [|simplify_eq; cbn in Ha; by subst err]); (destruct (is_err err ErrKnownBlock) eqn:Ek; [apply is_err_spec in Ek; subst err|simplify_eq; split; [done|]; split; [done|]; split; [done|]; split; [done|]; intros ->; by vm_compute in Ek]); [done|].
  destruct Ha as (_ & _ & Hb & Hk). destruct (writeKnownBlock b bc) as [[e bc1]|] eqn:Ew; [|done]. cbn [mbind option_bind] in E. pose proof (import_known b bc e bc1 Hio Hb (Hk eq_refl) Ew) as Hio1. destruct (failed e); [by simplify_eq|].
  destruct (next it bc1) as [[block1 err1] it1] eqn:En. destruct (next_spec _ _ _ _ _ Hi En) as (Hi1 & Ec1 & Ha1 & _). specialize (IH _ _ _ _ _ Hio1 Hi1 Ha1 E). destruct r as [[[[[block' err'] it'] lc] bc']|]; [|done].
  destruct IH as (H1' & H2' & H3' & H4'). split; [done|]. split; [done|]. split; [congruence|done].
Qed.

Lemma addFuture_ok now b bc e bc' : import_ok bc -> addFutureBlock now b bc = (e, bc') -> import_ok bc'.
Proof. intros Hio. unfold addFutureBlock. case_match; intros [= <- <-]; [done|]. by eapply import_ok_ext; [..|exact Hio]. Qed.

Lemma queue_future_ok fuel now first block err it bc e err' it' bc' : import_ok bc -> queue_future fuel now first block err it bc = Some (e, err', it', bc') -> import_ok bc'.
Proof.
  revert block err it bc. induction fuel as [|fuel IH]; intros block err it bc Hio E; cbn [queue_future] in E; (destruct block as [b|]; [|by simplify_eq]); (case_match; [|by simplify_eq]); [done|].
  destruct (addFutureBlock now b bc) as [e1 bc1] eqn:Ea. pose proof (addFuture_ok _ _ _ _ _ Hio Ea) as Hio1. destruct (failed e1); [by simplify_eq|]. destruct (next it bc1) as [[block1 err1] it1]. by eapply IH.
Qed.

Lemma import_end_ok fuel now block err it events logs lastCanon bc n ev lg e bc' : import_ok bc -> import_end fuel now block err it events logs lastCanon bc = Some (n, ev, lg, e, bc') -> import_ok bc'.
Proof.
  intros Hio. unfold import_end. destruct block as [b|]; [|by intros [= <- <- <- <- <-]]. case_match; [|by intros [= <- <- <- <- <-]]. destruct (addFutureBlock now b bc) as [e1 bc1] eqn:Ea. pose proof (addFuture_ok _ _ _ _ _ Hio Ea) as Hio1.
  case_match; [by intros [= <- <- <- <- <-]|]. destruct (next it bc1) as [[block1 err1] it1]. destruct (queue_future _ _ _ _ _ _ _) as [[[[e2 err2] it2] bc2]|] eqn:Eq; [|done]. cbn [mbind option_bind].
  pose proof (queue_future_ok _ _ _ _ _ _ _ _ _ _ _ Hio1 Eq) as Hio2. by case_match; intros [= <- <- <- <- <-].
Qed.

Lemma import_loop_ok fuel now block err it events logs lastCanon bc n ev lg e bc' :
  import_ok bc -> it_ok it -> at_block it block err bc -> import_loop fuel now block err it events logs lastCanon bc = Some (n, ev, lg, e, bc') -> import_ok bc'.
Proof.
  revert block err it events logs lastCanon bc. induction fuel as [|fuel IH]; intros block err it events logs lastCanon bc Hio Hi Ha E; cbn [import_loop] in E; [done|].
  destruct block as [b|]; [|by eapply import_end_ok]. destruct Ha as (_ & _ & Hb & Hk). destruct ((_ || _) && _) eqn:Eok; [|by eapply import_end_ok].
  destruct (BadHashes _); [simplify_eq; by eapply import_ok_ext; [..|exact Hio]|]. destruct (is_err err ErrKnownBlock) eqn:Ek.
  - apply is_err_spec in Ek. destruct (writeKnownBlock b bc) as [[e1 bc1]|] eqn:Ew; [|done]. cbn [mbind option_bind] in E. pose proof (import_known b bc e1 bc1 Hio Hb (Hk Ek) Ew) as Hio1. destruct (failed e1); [by simplify_eq|].
    destruct (next it bc1) as [[block1 err1] it1] eqn:En. destruct (next_spec _ _ _ _ _ Hi En) as (Hi1 & Ec1 & Ha1 & _). by eapply (IH _ _ _ _ _ _ _ Hio1 Hi1 Ha1).
  - destruct (match previous it with Some h => Some h | None => _ end) as [parent|]; [|done]. cbn [mbind option_bind] in E. destruct (negb (HasState _ _)); [by simplify_eq|].
    destruct (Process _ _ _) as [[[receipts usedGas] statedb]|e1]; [|simplify_eq; by eapply import_ok_ext; [..|exact Hio]]. destruct (ValidateState _ _ _ _); [simplify_eq; by eapply import_ok_ext; [..|exact Hio]|].
    destruct (writeBlockWithState b receipts statedb bc) as [[[status e1] bc1]|] eqn:Ew; [|done]. cbn [mbind option_bind] in E. pose proof (import_write _ _ _ _ _ _ _ Hio Hb Ew) as Hio1. destruct (failed e1); [by simplify_eq|].
    destruct (next it bc1) as [[block1 err1] it1] eqn:En. destruct (next_spec _ _ _ _ _ Hi En) as (Hi1 & Ec1 & Ha1 & _). destruct status; by eapply (IH _ _ _ _ _ _ _ Hio1 Hi1 Ha1).
Qed.

(** ** Side chains *)

Definition contig (chain : list Block) : Prop :=
  forall i b b', chain !! i = Some b -> chain !! S i = Some b' -> NumberU64 b' = NumberU64 b + 1 /\ block_ParentHash b' = block_Hash b.

Lemma number_bound b : good b -> NumberU64 b < 2 ^ 64 - 1.
Proof. intros [Hb _]. exact (U_number U HU _ Hb). Qed.

(** The total difficulty that is carried along is the parent's. *)
Definition carried (externTd : option Z) (block : option Block) (bc : BlockChain) : Prop :=
  match externTd, block with Some t, Some b => GetTd (block_ParentHash b) (u64 (NumberU64 b - 1)) (bc_hc bc) = Some t | _, _ => True end.

Lemma carried_next it block err bc it' b t :
  it_ok it -> contig (it_chain it) -> 0 <= it_index it -> it_chain it !! Z.to_nat (it_index it) = Some b -> good b -> next it bc = (block, err, it') -> db_td (db bc) !! (NumberU64 b, block_Hash b) = t -> carried t block bc.
Proof.
  intros Hi Hcon Hidx Hb Hgb En Ht. destruct (next_spec _ _ _ _ _ Hi En) as (_ & Ec & Ha & Hn). destruct block as [b'|]; [|by destruct t]. destruct Ha as (_ & Hb' & _). rewrite Ec, Hn in Hb' by eauto.
  replace (Z.to_nat (it_index it + 1)) with (S (Z.to_nat (it_index it))) in Hb' by lia. destruct (Hcon _ _ _ Hb Hb') as [E1 E2]. destruct t as [t|]; [|done]. cbn. unfold GetTd, ReadTd. rewrite E1, E2, Z.add_simpl_r.
  pose proof (NumberU64_range b). rewrite u64_id by (unfold is_u64; lia). exact Ht.
Qed.

Lemma put_side externTd b bc td :
  import_ok bc -> good b -> carried externTd (Some b) bc ->
  match externTd with Some td => Some td | None => GetTd (block_ParentHash b) (u64 (NumberU64 b - 1)) (bc_hc bc) end = Some td ->
  let bc1 := if HasBlock (block_Hash b) (NumberU64 b) bc then bc else writeBlockWithoutState b (td + block_Difficulty b) bc in
  import_ok bc1 /\ db_td (db bc1) !! (NumberU64 b, block_Hash b) = Some (td + block_Difficulty b).
Proof.
  intros Hio Hb Hc Etd bc1. assert (GetTd (block_ParentHash b) (u64 (NumberU64 b - 1)) (bc_hc bc) = Some td) as Hp by (destruct externTd; cbn in Hc; congruence). subst bc1. destruct (HasBlock _ _ _) eqn:Eh.
  - split; [done|]. unfold HasBlock, HasBody in Eh. bools. destruct (io_body bc Hio _ Eh) as [hd Hhd]. destruct (good_stored bc b hd Hio Hb Hhd) as [_ [t Ht]]. rewrite Ht. f_equal.
    destruct (ok_sum g _ (co_db g bc (io_chain bc Hio)) _ _ _ _ Hhd (proj2 Hb) Ht) as (t' & Ht' & ->). destruct (good_admissible bc b Hio Hb) as [_ _ A]. destruct (A _ _ Hhd) as (_ & E1 & E2).
    pose proof (number_bound b Hb). rewrite u64_id in Hp by (unfold is_u64; destruct Hb; lia). rewrite E1 in Ht'. change (db_td (db bc) !! (NumberU64 b - 1, block_ParentHash b) = Some t') in Ht'. unfold GetTd, ReadTd in Hp. fold (db bc) in Hp. rewrite Hp in Ht'. injection Ht' as <-. f_equal. exact E2.
  - rewrite (Z.add_comm td). by apply import_ok_put.
Qed.

Lemma store_side_spec fuel current externTd block err it bc r :
  import_ok bc -> it_ok it -> contig (it_chain it) -> at_block it block err bc -> carried externTd block bc -> store_side fuel current externTd block err it bc = Some r ->
  match r with inl (_, _, it', bc') => import_ok bc' /\ it_ok it' /\ it_chain it' = it_chain it | inr (_, _, _, _, bc') => import_ok bc' end.
Proof.
  revert externTd block err it bc. induction fuel as [|fuel IH]; intros externTd block err it bc Hio Hi Hcon Ha Hcar E; cbn [store_side] in E; (destruct block as [b|]; [|by simplify_eq]); (destruct (is_err err ErrPrunedAncestor); [|by simplify_eq]); [done|].
  destruct Ha as (Hidx & Hchain & Hb & _).
  assert (forall td0 bc1 block1 err1 it1, import_ok bc1 -> db_td (db bc1) !! (NumberU64 b, block_Hash b) = td0 -> next it bc1 = (block1, err1, it1) -> store_side fuel current td0 block1 err1 it1 bc1 = Some r ->
    match r with inl (_, _, it', bc') => import_ok bc' /\ it_ok it' /\ it_chain it' = it_chain it | inr (_, _, _, _, bc') => import_ok bc' end) as Hstep.
  { intros td0 bc1 block1 err1 it1 Hio1 Htd1 En E1. pose proof (carried_next _ _ _ _ _ _ _ Hi Hcon Hidx Hchain Hb En Htd1) as Hcar1. destruct (next_spec _ _ _ _ _ Hi En) as (Hi1 & Ec1 & Ha1 & _).
    specialize (IH td0 block1 err1 it1 bc1 Hio1 Hi1 ltac:(by rewrite Ec1) Ha1 Hcar1 E1). destruct r as [[[[? ?] it'] bc']|]; [|done]. by rewrite <- Ec1. }
  assert (forall r', (td ← match externTd with Some td => Some td | None => GetTd (block_ParentHash b) (u64 (NumberU64 b - 1)) (bc_hc bc) end;
      let td := td + block_Difficulty b in
      let bc := if HasBlock (block_Hash b) (NumberU64 b) bc then bc else writeBlockWithoutState b td bc in
      let '(block, err, it) := next it bc in store_side fuel current (Some td) block err it bc) = Some r' -> r' = r ->
    match r with inl (_, _, it', bc') => import_ok bc' /\ it_ok it' /\ it_chain it' = it_chain it | inr (_, _, _, _, bc') => import_ok bc' end) as Hput.
  { intros r' E1 ->. destruct (match externTd with Some td => Some td | None => _ end) as [td|] eqn:Etd; [|done]. cbn [mbind option_bind] in E1. destruct (put_side externTd b bc td Hio Hb Hcar Etd) as [Hio1 Htd1]. cbn zeta in *.
    set (bc1 := if HasBlock _ _ bc then bc else _) in *. destruct (next it bc1) as [[block1 err1] it1] eqn:En. by eapply (Hstep _ bc1). }
  destruct (if NumberU64 b <=? NumberU64 current then _ else None) as [c|]; [|by eapply Hput]. destruct (block_Hash c =? block_Hash b).
  - destruct (next it bc) as [[block1 err1] it1] eqn:En. by eapply (Hstep _ bc).
  - destruct (block_Root c =? block_Root b); [by simplify_eq|]. by eapply Hput.
Qed.

(** Keys of headers from the lowest upwards, each the child of the one before. *)
Definition ascending (ks : list (Z * Z)) : Prop :=
  (forall i h n, ks !! i = Some (h, n) -> 0 < n) /\
  (forall i h1 n1 h2 n2, ks !! i = Some (h1, n1) -> ks !! S i = Some (h2, n2) -> n2 = n1 + 1 /\ forall hd, U hd -> header_Hash hd = h2 -> ParentHash hd = h1).

Definition key (b : Block) : Z * Z := (block_Hash b, NumberU64 b).

Lemma ascending_contig blocks : Forall good blocks -> ascending (key <$> blocks) -> contig blocks.
Proof.
  intros Hg [_ Ha] i b b' Hb Hb'. rewrite Forall_forall in Hg. destruct (Ha i (block_Hash b) (NumberU64 b) (block_Hash b') (NumberU64 b')) as [E1 E2]; [by rewrite list_lookup_fmap, Hb|by rewrite list_lookup_fmap, Hb'|].
  split; [done|]. apply (E2 (block_Header b')); [|done]. apply Hg. by eapply list_elem_of_lookup_2.
Qed.

Lemma ascending_app_r ks1 ks2 : ascending (ks1 ++ ks2) -> ascending ks2.
Proof.
  intros [A1 A2]. split.
  - intros i h n Hi. apply (A1 (length ks1 + i)%nat h). rewrite lookup_app_r by lia. by rewrite Nat.add_comm, Nat.add_sub.
  - intros i h1 n1 h2 n2 H1' H2'. apply (A2 (length ks1 + i)%nat); rewrite lookup_app_r by lia.
    + by rewrite Nat.add_comm, Nat.add_sub.
    + by replace (S (length ks1 + i) - length ks1)%nat with (S i) by lia.
Qed.

Lemma ascending_app_l ks1 ks2 : ascending (ks1 ++ ks2) -> ascending ks1.
Proof.
  intros [A1 A2]. split.
  - intros i h n Hi. apply (A1 i h). by apply lookup_app_l_Some.
  - intros i h1 n1 h2 n2 H1' H2'. by apply (A2 i); apply lookup_app_l_Some.
Qed.

Lemma ascending_snoc ks h1 n1 h2 n2 :
  ascending (ks ++ [(h1, n1)]) -> n2 = n1 + 1 -> (forall hd, U hd -> header_Hash hd = h2 -> ParentHash hd = h1) -> ascending (ks ++ [(h1, n1); (h2, n2)]).
Proof.
  intros [A1 A2] En Hh. pose proof (A1 (length ks) h1 n1 ltac:(by rewrite lookup_app_r, Nat.sub_diag by lia)) as Hn1.
  replace (ks ++ [(h1, n1); (h2, n2)]) with ((ks ++ [(h1, n1)]) ++ [(h2, n2)]) by (by rewrite <- app_assoc). split.
  - intros i h n [Hi|[Hi Hi']]%lookup_app_Some; [by eapply A1|]. apply list_lookup_singleton_Some in Hi' as [_ E]. simplify_eq. lia.
  - intros i a1 m1 a2 m2 H1' H2'. apply lookup_app_Some in H2' as [H2'|[Hi H2']].
    + apply (A2 i); [|done]. apply lookup_app_Some in H1' as [H1'|[Hi _]]; [done|]. apply lookup_lt_Some in H2'. lia.
    + apply list_lookup_singleton_Some in H2' as [Ei E]. injection E as <- <-. rewrite length_app in *. cbn in *. assert (i = length ks) as -> by lia. rewrite lookup_app_l, lookup_app_r, Nat.sub_diag in H1' by (rewrite ?length_app; cbn; lia).
      cbn in H1'. by injection H1' as <- <-.
Qed.

Lemma stateless_spec fuel h bc l p :
  import_ok bc -> U h -> stateless fuel (Some h) bc = Some (l, Some p) -> ascending (reverse l) /\ (l = [] \/ hd_error l = Some (header_Hash h, Number_Uint64 h)).
Proof.
  intros Hio. revert h l. induction fuel as [|fuel IH]; intros h l Hh E; cbn [stateless] in E; (destruct (HasState (Root h) (store bc)); [simplify_eq; split; [split; intros ?; rewrite ?reverse_nil; done|by left]|]); [done|].
  destruct (GetHeader _ _ _) as [hp|] eqn:Eg; [|by destruct fuel; cbn in E; simplify_eq]. destruct (stateless fuel (Some hp) bc) as [[l' p']|] eqn:Es; [|done]. cbn in E. injection E as <- ->.
  pose proof (io_U bc Hio _ _ Eg) as Hhp. destruct (ok_header g _ (co_db g bc (io_chain bc Hio)) _ _ _ Eg) as (En & Ehash & Hr & _). pose proof (Number_Uint64_range h) as Hhr.
  assert (0 < Number_Uint64 h) as Hpos by (destruct (decide (Number_Uint64 h = 0)) as [E0|]; [rewrite E0 in Hr; change (u64 (0 - 1)) with (2 ^ 64 - 1) in Hr; lia|lia]).
  rewrite u64_id in En by (unfold is_u64; lia). destruct (IH hp l' Hhp Es) as [Hasc Hhd]. split; [|by right]. rewrite reverse_cons. destruct Hhd as [->|Hhd].
  - rewrite reverse_nil. cbn. split.
    + intros i x n Hi. apply list_lookup_singleton_Some in Hi as [_ E]. by simplify_eq.
    + intros i x n y m Hi Hi'. apply list_lookup_singleton_Some in Hi' as [E _]. done.
  - destruct l' as [|k l']; [done|]. cbn in Hhd. injection Hhd as ->. rewrite reverse_cons in *. rewrite <- app_assoc. cbn. apply ascending_snoc; [done|lia|].
    intros hd Hhd Eh. destruct (U_compat U HU hd h Hhd Hh Eh) as (_ & -> & _). done.
Qed.

Definition keeps (reimport : list Block -> BlockChain -> option Imported) : Prop :=
  forall chain bc n ev lg e bc', import_ok bc -> Forall good chain -> contig chain -> reimport chain bc = Some (n, ev, lg, e, bc') -> import_ok bc'.

Lemma GetBlock_good hash number bc b : import_ok bc -> 0 < number -> GetBlock hash number bc = Some b -> good b /\ key b = (hash, number).
Proof.
  intros Hio Hn. unfold GetBlock, ReadBlock, ReadHeader. destruct (db_headers (db bc) !! _) as [hd|] eqn:Eh; [|done]. cbn. destruct (ReadBody _ _ _); [|done]. cbn. intros [= <-].
  destruct (ok_header g _ (co_db g bc (io_chain bc Hio)) _ _ _ Eh) as (En & Ehash & _). split; [split|].
  - apply (U_copy U HU). by eapply (io_U bc Hio).
  - unfold NumberU64. cbn. by rewrite En.
  - unfold key, block_Hash, NumberU64. cbn. by rewrite En, Ehash.
Qed.

Lemma reimport_loop_ok reimport hashes blocks memory bc n ev lg e bc' :
  keeps reimport -> import_ok bc -> Forall good blocks -> ascending ((key <$> blocks) ++ hashes) -> reimport_loop reimport hashes blocks memory bc = Some (n, ev, lg, e, bc') -> import_ok bc'.
Proof.
  intros Hk. revert blocks memory bc. induction hashes as [|[h m] hashes IH]; intros blocks memory bc Hio Hg Ha E; cbn [reimport_loop] in E.
  - rewrite app_nil_r in Ha. destruct blocks as [|b blocks]; [by simplify_eq|]. eapply (Hk (b :: blocks)); [exact Hio|done|by apply ascending_contig|exact E].
  - destruct (GetBlock h m bc) as [b|] eqn:Eb; [|done]. cbn [mbind option_bind] in E.
    assert (0 < m) as Hm by (apply (proj1 Ha (length blocks) h); rewrite lookup_app_r by (rewrite length_fmap; lia); by rewrite length_fmap, Nat.sub_diag).
    destruct (GetBlock_good h m bc b Hio Hm Eb) as [Hgb Hkey]. assert (ascending ((key <$> (blocks ++ [b])) ++ hashes)) as Ha' by (rewrite fmap_app; cbn; by rewrite Hkey, <- app_assoc).
    assert (Forall good (blocks ++ [b])) as Hg' by (apply Forall_app; split; [done|by constructor]). destruct (_ || _); [|by eapply IH].
    destruct (reimport (blocks ++ [b]) bc) as [[[[[n1 ev1] lg1] e1] bc1]|] eqn:Er; [|done]. cbn [mbind option_bind] in E. assert (import_ok bc1) as Hio1.
    { eapply (Hk (blocks ++ [b])); [exact Hio|done| |exact Er]. apply ascending_contig; [done|by eapply ascending_app_l]. }
    destruct (failed e1); [by simplify_eq|]. destruct (procInterrupt bc1); [by simplify_eq|]. eapply (IH [] 0 bc1); [done|done| |exact E]. by eapply ascending_app_r.
Qed.

Lemma insertSideChain_ok reimport fuel block it bc n ev lg e bc' :
  keeps reimport -> import_ok bc -> it_ok it -> contig (it_chain it) -> at_block it block (New ErrPrunedAncestor) bc -> insertSideChain reimport fuel block it bc = Some (n, ev, lg, e, bc') -> import_ok bc'.
Proof.
  intros Hk Hio Hi Hcon Ha. unfold insertSideChain. destruct (store_side _ _ _ _ _ _ _) as [r|] eqn:Es; [|done]. cbn [mbind option_bind].
  assert (carried None block bc) as Hcar by done. pose proof (store_side_spec _ _ _ _ _ _ _ _ Hio Hi Hcon Ha Hcar Es) as Hr. destruct r as [[[[externTd err] it1] bc1]|[[[[n1 ev1] lg1] e1] bc1]]; [|by intros [= <- <- <- <- <-]]. destruct Hr as (Hio1 & Hi1 & Ec1).
  destruct externTd as [td|]; [|done]. cbn [mbind option_bind]. destruct (GetTd _ _ (bc_hc bc1)) as [localTd|]; [|done]. cbn [mbind option_bind]. case_match; [by intros [= <- <- <- <- <-]|].
  destruct (stateless _ _ _) as [[hashes parent]|] eqn:Est; [|done]. cbn [mbind option_bind]. destruct parent as [p|]; [|by intros [= <- <- <- <- <-]]. intros E. eapply (reimport_loop_ok reimport _ [] 0); [exact Hk|exact Hio1|done| |exact E].
  cbn. unfold previous in Est. destruct (it_index it1 <? 1); [by cbn in Est; simplify_eq|]. destruct (it_chain it1 !! _) as [b|] eqn:Eb; [|by cbn in Est; simplify_eq]. cbn [fmap option_fmap option_map] in Est.
  eapply stateless_spec; [exact Hio1| |exact Est]. pose proof (it_good _ Hi1) as Hg. rewrite Forall_forall in Hg. apply Hg. by eapply list_elem_of_lookup_2.
Qed.

Lemma insertBlockChain_ok reimport now engine chain bc n ev lg e bc' :
  keeps reimport -> import_ok bc -> Forall good chain -> contig chain -> insertBlockChain reimport now engine chain bc = Some (n, ev, lg, e, bc') -> import_ok bc'.
Proof.
  intros Hk Hio Hg Hcon. unfold insertBlockChain. destruct (procInterrupt bc); [by intros [= <- <- <- <- <-]|]. set (it0 := newInsertIterator chain _). set (fuel := S (S (length chain))).
  assert (it_ok it0) as Hi0 by (split; cbn; [done|apply (plain_headers HE)|lia]). destruct (next it0 bc) as [[block err] it] eqn:En. destruct (next_spec _ _ _ _ _ Hi0 En) as (Hi & Ec & Ha & _).
  assert (contig (it_chain it)) as Hcon1 by (by rewrite Ec). clear En Hi0. clearbody fuel.
  set (known := match block with Some b => _ | None => _ end). intros E. destruct known as [r|] eqn:Er; [|done]. cbn [mbind option_bind] in E.
  assert (match r with inl (block', err', it', _, bc1) => import_ok bc1 /\ it_ok it' /\ it_chain it' = it_chain it /\ at_block it' block' err' bc1 | inr (_, _, _, _, bc1) => import_ok bc1 end) as Hr.
  { unfold known in Er. destruct block as [b|]; [|by simplify_eq]. destruct (is_err err ErrKnownBlock) eqn:Ek; [|by simplify_eq].
    destruct (GetTd (block_Hash (currentBlock bc)) _ _) as [localTd|]; [|done]. cbn [mbind option_bind] in Er. destruct (GetTd (block_ParentHash b) _ _) as [externTd|]; [|done]. cbn [mbind option_bind] in Er.
    destruct (skip_known _ _ _ _ _ _ _) as [[[block1 err1] it1]|] eqn:Esk; [|done]. cbn [mbind option_bind] in Er. destruct (skip_known_spec _ _ _ _ _ _ _ _ _ _ Hi Ha Esk) as (Hi1 & Ec1 & Ha1).
    pose proof (write_known_spec _ _ _ _ _ _ _ Hio Hi1 Ha1 Er) as Hw. destruct r as [[[[[block2 err2] it2] lc] bc2]|]; [|done]. destruct Hw as (H1' & H2' & H3' & H4' & _). split; [done|]. split; [done|]. split; [congruence|done]. }
  clearbody known. clear Er. destruct r as [[[[[block1 err1] it1] lc] bc1]|[[[[n1 ev1] lg1] e1] bc1]]; [|by simplify_eq]. destruct Hr as (Hio1 & Hi1 & Ec1 & Ha1). assert (contig (it_chain it1)) as Hcon2 by (by rewrite Ec1).
  destruct (is_err err1 ErrPrunedAncestor) eqn:Ep; [apply is_err_spec in Ep; subst err1; by eapply insertSideChain_ok|]. destruct (_ || _).
  { destruct (queue_future _ _ _ _ _ _ _) as [[[[e2 err2] it2] bc2]|] eqn:Eq; [|done]. cbn [mbind option_bind] in E. simplify_eq. by eapply queue_future_ok. }
  destruct (failed err1); [|by eapply import_loop_ok]. destruct block1 as [b|]; [|done]. cbn [mbind option_bind] in E. simplify_eq. by eapply import_ok_ext; [..|exact Hio1].
Qed.

Lemma contig_take k chain : contig chain -> contig (take k chain).
Proof. intros Hc i b b' Hb Hb'. apply (Hc i); [by apply lookup_take_Some in Hb as [Hb _]|by apply lookup_take_Some in Hb' as [Hb' _]]. Qed.

Lemma contig_drop k chain : contig chain -> contig (drop k chain).
Proof. intros Hc i b b' Hb Hb'. rewrite lookup_drop in Hb, Hb'. apply (Hc (k + i)%nat); [done|]. by rewrite <- Nat.add_succ_r. Qed.

Lemma insertChain_keeps fuel now : keeps (insertChain fuel now).
Proof.
  induction fuel as [|fuel IH]; intros chain bc n ev lg e bc' Hio Hg Hcon E; cbn [insertChain] in E; [done|]. destruct chain as [|first rest]; [done|]. set (chain := first :: rest) in *.
  assert (forall engine chain bc n ev lg e bc', import_ok bc -> Forall good chain -> contig chain -> insertBlockChain (insertChain fuel now) now engine chain bc = Some (n, ev, lg, e, bc') -> import_ok bc') as Hins by (intros; by eapply insertBlockChain_ok).
  destruct PBFTBlock as [fork|]; [|by eapply Hins]. destruct (IsPBFTFork _); [by eapply Hins|]. case_match; [by eapply Hins|].
  destruct (insertBlockChain _ _ false _ bc) as [[[[[n1 ev1] lg1] e1] bc1]|] eqn:E1; [|done]. cbn [mbind option_bind] in E.
  assert (import_ok bc1) as Hio1 by (eapply (Hins _ _ bc); [exact Hio|by apply Forall_take|by apply contig_take|exact E1]). destruct (failed e1); [by simplify_eq|].
  destruct (insertBlockChain _ _ true _ bc1) as [[[[[n2 ev2] lg2] e2] bc2]|] eqn:E2; [|done]. cbn [mbind option_bind] in E. simplify_eq.
  eapply (Hins _ _ bc1); [exact Hio1|by apply Forall_drop|by apply contig_drop|exact E2].
Qed.

Lemma contiguous_contig chain : Forall good chain -> contiguous (block_header <$> chain) = true -> contig chain.
Proof.
  intros Hg E i b b' Hb Hb'. revert i Hb Hb' E. induction chain as [|x chain IH]; intros i Hb Hb' E; [done|]. apply Forall_cons in Hg as [Hx Hg]. destruct chain as [|y chain]; [by destruct i|].
  cbn [fmap list_fmap contiguous] in E. apply andb_true_iff in E as [[E1%Z.eqb_eq E2%Z.eqb_eq]%andb_true_iff E3]. destruct i as [|i].
  - cbn in Hb, Hb'. injection Hb as <-. injection Hb' as <-. split; [|done]. unfold NumberU64. rewrite E1. apply u64_id. unfold is_u64. pose proof (number_bound x Hx). pose proof (NumberU64_range x). unfold NumberU64 in *. lia.
  - by apply (IH Hg i).
Qed.

(** ** Imports return

    An iterator at the index [i] of a chain of [n] blocks needs [n - i] more steps. *)
Definition steps_left (it : insertIterator) : Z := zlen (it_chain it) - it_index it.

Lemma next_left it bc block err it' : it_ok it -> next it bc = (block, err, it') -> is_Some block -> steps_left it' = steps_left it - 1 /\ 0 < steps_left it'.
Proof.
  intros Hi E Hb. destruct (next_spec _ _ _ _ _ Hi E) as (Hi' & Ec & Ha & Hn). destruct Hb as [b ->]. destruct Ha as (Hidx & Hl & _). apply lookup_lt_Some in Hl. unfold steps_left. rewrite Ec in *. rewrite Hn in * by eauto. unfold zlen. lia.
Qed.

(** The block has its parent's state. *)
Definition based (b : Block) (bc : BlockChain) : Prop := HasBlockAndState (block_ParentHash b) (u64 (NumberU64 b - 1)) bc = true.

Lemma next_pruned it bc b it' : it_ok it -> next it bc = (Some b, New ErrPrunedAncestor, it') -> ~ based b bc.
Proof.
  intros [_ P _] E Hb. unfold next in E. destruct (_ <=? _); [done|]. destruct (default nil_err (it_results it !! _)) as [e|] eqn:Ee.
  - injection E as E0 E1 E2. subst e. destruct (it_results it !! _) as [e|] eqn:Er; [|done]. cbn in Ee. subst e. by destruct (P _ (list_elem_of_lookup_2 _ _ _ Er)).
  - destruct (it_chain it !! _) as [x|]; [|done]. injection E as -> E _. unfold ValidateBody in E. pose proof (plain_uncles HE (pbftEngine bc) b) as [_ Hu]. unfold based in Hb. rewrite Hb in E. repeat case_match; first [congruence|by vm_compute in E|done].
Qed.

Lemma based_next it bc b block err it' :
  it_ok it -> contig (it_chain it) -> 0 <= it_index it -> it_chain it !! Z.to_nat (it_index it) = Some b -> good b -> HasBlockAndState (block_Hash b) (NumberU64 b) bc = true -> next it bc = (block, err, it') -> err <> Some ErrPrunedAncestor.
Proof.
  intros Hi Hcon Hidx Hb Hgb Hk En ->. destruct (next_spec _ _ _ _ _ Hi En) as (_ & Ec & Ha & Hn). destruct block as [b'|]; [|done]. apply (next_pruned _ _ _ _ Hi En). destruct Ha as (_ & Hb' & _). rewrite Ec, Hn in Hb' by eauto.
  replace (Z.to_nat (it_index it + 1)) with (S (Z.to_nat (it_index it))) in Hb' by lia. destruct (Hcon _ _ _ Hb Hb') as [E1 E2]. unfold based. rewrite E1, E2, Z.add_simpl_r. pose proof (NumberU64_range b). by rewrite u64_id by (unfold is_u64; lia).
Qed.

Lemma skip_known_total fuel localTd externTd block err it bc :
  it_ok it -> contig (it_chain it) -> at_block it block err bc -> err <> Some ErrPrunedAncestor -> (is_Some block -> steps_left it <= Z.of_nat fuel) ->
  exists block' err' it', skip_known fuel localTd externTd block err it bc = Some (block', err', it') /\ err' <> Some ErrPrunedAncestor /\ (is_Some block' -> steps_left it' <= Z.of_nat fuel) /\ (it_index it' = 0 -> it_index it = 0).
Proof.
  revert externTd block err it. induction fuel as [|fuel IH]; intros externTd block err it Hi Hcon Ha Hnp Hs; cbn [skip_known]; (destruct block as [b|]; [|eauto 10]); (destruct (is_err err ErrKnownBlock) eqn:Ek; [|eauto 10]); (case_match; [eauto 10|]).
  - exfalso. destruct Ha as (Hidx & Hl & _). apply lookup_lt_Some in Hl. specialize (Hs ltac:(eauto)). unfold steps_left, zlen in Hs. lia.
  - destruct Ha as (Hidx & Hl & Hgb & Hk). apply is_err_spec in Ek. destruct (next it bc) as [[block1 err1] it1] eqn:En. destruct (next_spec _ _ _ _ _ Hi En) as (Hi1 & Ec1 & Ha1 & Hn1).
    destruct (IH (externTd + block_Difficulty b) block1 err1 it1) as (block' & err' & it' & E & H1' & H2' & H3'); [done|by rewrite Ec1|done|exact (based_next _ _ _ _ _ _ Hi Hcon Hidx Hl Hgb (Hk Ek) En)| |].
    { intros Hb1. destruct (next_left _ _ _ _ _ Hi En Hb1) as [-> _]. specialize (Hs ltac:(eauto)). lia. }
    exists block', err', it'. split; [done|]. split; [done|]. split; [intros Hb; specialize (H2' Hb); lia|]. intros Hz. specialize (H3' Hz). exfalso. unfold next in En. destruct (_ <=? _) eqn:El; bools; [|repeat case_match; simplify_eq; cbn in H3'; lia].
    simplify_eq. cbn in H3'. unfold zlen in *. apply lookup_lt_Some in Hl. lia.
Qed.
(** A known block is written again. *)
Lemma known_total b bc : import_ok bc -> good b -> IsPBFTFork (block_Number b) = true -> HasBlockAndState (block_Hash b) (NumberU64 b) bc = true ->
  exists e bc', writeKnownBlock b bc = Some (e, bc') /\ import_ok bc' /\ HasBlockAndState (block_Hash b) (NumberU64 b) bc' = true.
Proof.
  intros Hio Hb Hf Hk. destruct (has_block_stored bc b Hio Hb Hk) as [Hs _]. destruct (writeKnownBlock_total g b bc (io_chain bc Hio) Hs Hf) as [[e bc'] E]. exists e, bc'. split; [done|]. split; [by eapply import_known|].
  pose proof (writeKnownBlock_contents _ _ _ _ E) as Ec. injection Ec as E1 _ E3. assert (store bc' = store bc) as E2.
  { unfold writeKnownBlock in E. destruct (negb _).
    - destruct (reorg _ _ _) as [[e1 bc1]|] eqn:Er; [|done]. cbn [mbind option_bind] in E. apply reorg_engine in Er as [_ <-]. unfold insert in E. repeat case_match; by simplify_eq.
    - cbn [mbind option_bind] in E. unfold insert in E. repeat case_match; by simplify_eq. }
  unfold HasBlockAndState, GetBlock, ReadBlock, ReadHeader, ReadBody in *. by rewrite E1, E2, E3.
Qed.

Definition all_pbft (chain : list Block) : Prop := Forall (fun b => IsPBFTFork (block_Number b) = true) chain.

Lemma at_pbft it b : all_pbft (it_chain it) -> it_chain it !! Z.to_nat (it_index it) = Some b -> IsPBFTFork (block_Number b) = true.
Proof. intros Hf Hl. unfold all_pbft in Hf. rewrite Forall_forall in Hf. apply Hf. by eapply list_elem_of_lookup_2. Qed.

Lemma write_known_total fuel block err it lastCanon bc :
  import_ok bc -> it_ok it -> contig (it_chain it) -> all_pbft (it_chain it) -> at_block it block err bc -> err <> Some ErrPrunedAncestor -> (is_Some block -> steps_left it <= Z.of_nat fuel) ->
  exists r, write_known fuel block err it lastCanon bc = Some r /\
    match r with inl (block', err', it', _, bc') => err' <> Some ErrPrunedAncestor /\ (is_Some block' -> steps_left it' <= Z.of_nat fuel) /\ (it_index it' = 0 -> it_index it = 0 /\ bc' = bc) | inr _ => True end.
Proof.
  revert block err it lastCanon bc. induction fuel as [|fuel IH]; intros block err it lastCanon bc Hio Hi Hcon Hf Ha Hnp Hs; cbn [write_known]; (destruct block as [b|]; [|eexists; split; [done|]; cbn; done]); (destruct (is_err err ErrKnownBlock) eqn:Ek; [|eexists; split; [done|]; cbn; done]).
  - exfalso. destruct Ha as (Hidx & Hl & _). apply lookup_lt_Some in Hl. specialize (Hs ltac:(eauto)). unfold steps_left, zlen in Hs. lia.
  - destruct Ha as (Hidx & Hl & Hgb & Hk). apply is_err_spec in Ek. destruct (known_total b bc Hio Hgb (at_pbft _ _ Hf Hl) (Hk Ek)) as (e & bc1 & -> & Hio1 & Hk1). cbn [mbind option_bind]. destruct (failed e); [eexists; split; [reflexivity|done]|].
    destruct (next it bc1) as [[block1 err1] it1] eqn:En. destruct (next_spec _ _ _ _ _ Hi En) as (Hi1 & Ec1 & Ha1 & Hn1).
    destruct (IH block1 err1 it1 (Some b) bc1) as (r & E & Hr); [done|done|by rewrite Ec1|by rewrite Ec1|done|exact (based_next _ _ _ _ _ _ Hi Hcon Hidx Hl Hgb Hk1 En)| |].
    { intros Hb1. destruct (next_left _ _ _ _ _ Hi En Hb1) as [-> _]. specialize (Hs ltac:(eauto)). lia. }
    exists r. split; [done|]. destruct r as [[[[[block' err'] it'] lc] bc']|]; [|done]. destruct Hr as (H1' & H2' & H3'). split; [done|]. split; [intros Hb; specialize (H2' Hb); lia|].
    intros Hz. destruct (H3' Hz) as [Hz1 _]. exfalso. unfold next in En. apply lookup_lt_Some in Hl. destruct (_ <=? _) eqn:El; bools; [simplify_eq; cbn in Hz1; unfold zlen in *; lia|repeat case_match; simplify_eq; cbn in Hz1; lia].
Qed.

Lemma queue_future_total fuel now first block err it bc :
  it_ok it -> (is_Some block -> 0 <= it_index it /\ 0 < steps_left it <= Z.of_nat fuel) -> is_Some (queue_future fuel now first block err it bc).
Proof.
  revert block err it bc. induction fuel as [|fuel IH]; intros block err it bc Hi Hs; cbn [queue_future]; (destruct block as [b|]; [|eauto]); (case_match; [|eauto]).
  - specialize (Hs ltac:(eauto)). lia.
  - destruct (addFutureBlock now b bc) as [e bc1]. case_match; [eauto|]. destruct (next it bc1) as [[block1 err1] it1] eqn:En. destruct (next_spec _ _ _ _ _ Hi En) as (Hi1 & _ & _ & Hn1). apply IH; [done|].
    intros Hb1. destruct (next_left _ _ _ _ _ Hi En Hb1) as [El Hl]. rewrite Hn1 by done. specialize (Hs ltac:(eauto)). lia.
Qed.

Lemma import_end_total fuel now block err it events logs lastCanon bc :
  it_ok it -> at_block it block err bc -> (is_Some block -> steps_left it <= Z.of_nat (S fuel)) -> is_Some (import_end fuel now block err it events logs lastCanon bc).
Proof.
  intros Hi Ha Hs. unfold import_end. destruct block as [b|]; [|eauto]. case_match; [|eauto]. destruct (addFutureBlock now b bc) as [e bc1]. case_match; [eauto|]. destruct (next it bc1) as [[block1 err1] it1] eqn:En.
  destruct (next_spec _ _ _ _ _ Hi En) as (Hi1 & _ & _ & Hn1). destruct (queue_future_total fuel now false block1 err1 it1 bc1) as [[[[e2 err2] it2] bc2] ->]; [done| |cbn; case_match; eauto].
  intros Hb1. destruct (next_left _ _ _ _ _ Hi En Hb1) as [El Hl]. rewrite Hn1 by done. destruct Ha as (Hidx & _). specialize (Hs ltac:(eauto)). lia.
Qed.

Lemma import_loop_total fuel now block err it events logs lastCanon bc :
  import_ok bc -> it_ok it -> all_pbft (it_chain it) -> at_block it block err bc -> (0 < fuel)%nat -> (is_Some block -> steps_left it < Z.of_nat fuel) ->
  (forall b, block = Some b -> it_index it = 0 -> based b bc) -> is_Some (import_loop fuel now block err it events logs lastCanon bc).
Proof.
  revert block err it events logs lastCanon bc. induction fuel as [|fuel IH]; intros block err it events logs lastCanon bc Hio Hi Hf Ha Hpos Hs Hz; cbn [import_loop]; [lia|].
  destruct block as [b|]; [|by apply import_end_total; [..|intros [? ?]]]. assert (steps_left it < Z.of_nat (S fuel)) as Hs' by (apply Hs; eauto). pose proof Ha as (Hidx & Hl & Hb & Hk).
  destruct ((_ || _) && _) eqn:Eok; [|apply import_end_total; [done|done|intros _; lia]]. destruct (BadHashes _); [eauto|].
  assert (forall bc1 block1 err1 it1 ev lg lc, import_ok bc1 -> next it bc1 = (block1, err1, it1) -> is_Some (import_loop fuel now block1 err1 it1 ev lg lc bc1)) as Hnext.
  { intros bc1 block1 err1 it1 ev lg lc Hio1 En. destruct (next_spec _ _ _ _ _ Hi En) as (Hi1 & Ec1 & Ha1 & Hn1). apply lookup_lt_Some in Hl. unfold steps_left, zlen in Hs'. apply IH; [done|done|by rewrite Ec1|done|lia| |].
    - intros Hb1. destruct (next_left _ _ _ _ _ Hi En Hb1) as [-> _]. unfold steps_left, zlen. lia.
    - intros b1 -> Hz1. rewrite Hn1 in Hz1 by eauto. lia. }
  destruct (is_err err ErrKnownBlock) eqn:Ek.
  - apply is_err_spec in Ek. destruct (known_total b bc Hio Hb (at_pbft _ _ Hf Hl) (Hk Ek)) as (e & bc1 & -> & Hio1 & _). cbn [mbind option_bind]. destruct (failed e); [eauto|]. destruct (next it bc1) as [[block1 err1] it1] eqn:En. by eapply Hnext.
  - assert (is_Some (match previous it with Some h => Some h | None => GetHeader (block_ParentHash b) (u64 (NumberU64 b - 1)) (bc_hc bc) end)) as [parent ->].
    { unfold previous. destruct (it_index it <? 1) eqn:El; bools.
      - specialize (Hz b eq_refl ltac:(lia)). unfold based, HasBlockAndState, GetBlock, ReadBlock in Hz. unfold GetHeader. change (hc_db (bc_hc bc)) with (db bc). destruct (ReadHeader _ _ _); [eauto|done].
      - destruct (lookup_lt_is_Some_2 (it_chain it) (Z.to_nat (it_index it - 1))) as [x ->]; [apply lookup_lt_Some in Hl; lia|]. cbn. eauto. }
    cbn [mbind option_bind]. destruct (negb (HasState _ _)); [eauto|]. destruct (Process _ _ _) as [[[receipts usedGas] statedb]|e1]; [|eauto]. destruct (ValidateState _ _ _ _); [eauto|].
    destruct (writeBlockWithState_total g b receipts statedb bc (io_chain bc Hio) (good_admissible bc b Hio Hb)) as [[[status e] bc1] Ew]; [left; by eapply at_pbft|]. rewrite Ew. cbn [mbind option_bind]. pose proof (import_write _ _ _ _ _ _ _ Hio Hb Ew) as Hio1. destruct (failed e); [eauto|].
    destruct (next it bc1) as [[block1 err1] it1] eqn:En. destruct status; by eapply Hnext.
Qed.
Lemma insertBlockChain_total reimport now engine chain bc :
  import_ok bc -> Forall good chain -> contig chain -> all_pbft chain -> (forall b, hd_error chain = Some b -> based b bc) -> is_Some (insertBlockChain reimport now engine chain bc).
Proof.
  intros Hio Hg Hcon Hf Hhd. unfold insertBlockChain. destruct (procInterrupt bc); [eauto|]. set (it0 := newInsertIterator chain _). set (fuel := S (S (length chain))).
  assert (it_ok it0) as Hi0 by (split; cbn; [done|apply (plain_headers HE)|lia]). destruct (next it0 bc) as [[block err] it] eqn:En. destruct (next_spec _ _ _ _ _ Hi0 En) as (Hi & Ec & Ha & Hn).
  change (it_chain it0) with chain in Ec. change (it_index it0) with (-1) in Hn.
  assert (forall b, block = Some b -> based b bc) as Hbase.
  { intros b ->. apply Hhd. destruct Ha as (_ & Hl & _). rewrite Hn in Hl by eauto. rewrite Ec in Hl. by destruct chain. }
  assert (err <> Some ErrPrunedAncestor) as Hnp.
  { intros ->. destruct block as [b|]; [|done]. by apply (next_pruned _ _ _ _ Hi0 En), Hbase. }
  assert (is_Some block -> steps_left it < Z.of_nat fuel) as Hs.
  { intros Hb. unfold steps_left. rewrite Hn, Ec by done. unfold fuel, zlen. lia. }
  set (known := match block with Some b => _ | None => _ end).
  assert (exists r, known = Some r /\ match r with inl (block', err', it', _, bc1) => import_ok bc1 /\ it_ok it' /\ it_chain it' = chain /\ at_block it' block' err' bc1 /\
      err' <> Some ErrPrunedAncestor /\ (is_Some block' -> steps_left it' < Z.of_nat fuel) /\ (forall b, block' = Some b -> it_index it' = 0 -> based b bc1) | inr _ => True end) as (r & Er & Hr).
  { unfold known. destruct block as [b|]; [|eexists; split; [reflexivity|]; by split_and!]. destruct (is_err err ErrKnownBlock) eqn:Ek; [|eexists; split; [reflexivity|]; split_and!; try done; intros b' E' _; by apply Hbase]. apply is_err_spec in Ek.
    pose proof Ha as (Hidx & Hl & Hb & Hk). destruct (has_block_stored bc b Hio Hb (Hk Ek)) as [(hd & Hhd' & Hpar) _]. pose proof (number_bound b Hb) as Hnb.
    destruct (co_td g bc (io_chain bc Hio)) as [localTd Hlt]. unfold GetTd, ReadTd. change (hc_db (bc_hc bc)) with (db bc). rewrite Hlt. cbn [mbind option_bind].
    destruct (ok_parent g _ (co_db g bc (io_chain bc Hio)) _ _ _ Hhd' (proj2 Hb)) as [hp Hhp]. rewrite Hpar in Hhp. destruct (io_td bc Hio _ (ex_intro _ _ Hhp)) as [externTd Het].
    rewrite u64_id by (unfold is_u64; destruct Hb; lia). rewrite Het. cbn [mbind option_bind].
    destruct (skip_known_total fuel localTd externTd (Some b) err it bc) as (block1 & err1 & it1 & E1 & Hnp1 & Hs1 & Hz1); [done|by rewrite Ec|done|done|intros Hb'; specialize (Hs Hb'); lia|].
    rewrite E1. cbn [mbind option_bind]. destruct (skip_known_spec _ _ _ _ _ _ _ _ _ _ Hi Ha E1) as (Hi1 & Ec1 & Ha1).
    destruct (write_known_total fuel block1 err1 it1 None bc) as (r & E2 & Hr); [done|done|by rewrite Ec1, Ec|by rewrite Ec1, Ec|done|done|done|]. exists r. split; [done|].
    pose proof (write_known_spec _ _ _ _ _ _ _ Hio Hi1 Ha1 E2) as Hw. destruct r as [[[[[block2 err2] it2] lc] bc2]|]; [|done]. destruct Hw as (W1 & W2 & W3 & W4 & _). destruct Hr as (R1 & R2 & R3).
    split; [done|]. split; [done|]. split; [congruence|]. split; [done|]. split; [done|]. split.
    - intros Hb2. destruct block2 as [b2|]; [|by destruct Hb2]. destruct W4 as (Hi2 & _). unfold steps_left in *. rewrite W3, Ec1, Ec in *. unfold fuel, zlen. lia.
    - intros b2 -> Hz2. destruct (R3 Hz2) as [Hz3 ->]. apply Hhd. destruct W4 as (_ & Hl2 & _). rewrite Hz2, W3, Ec1, Ec in Hl2. by destruct chain. }
  rewrite Er. cbn [mbind option_bind]. destruct r as [[[[[block1 err1] it1] lc] bc1]|]; [|eauto]. destruct Hr as (Hio1 & Hi1 & Ec1 & Ha1 & Hnp1 & Hs1 & Hz1). clearbody known. clear Er known.
  destruct (is_err err1 ErrPrunedAncestor) eqn:Ep; [by apply is_err_spec in Ep|]. case_match.
  { destruct (queue_future_total fuel now true block1 err1 it1 bc1) as [[[[e2 err2] it2] bc2] ->]; [done| |cbn; eauto]. intros Hb1. specialize (Hs1 Hb1). destruct block1 as [b1|]; [|by destruct Hb1]. destruct Ha1 as (Hi1' & Hl1 & _). apply lookup_lt_Some in Hl1. split; [done|]. unfold steps_left, zlen in *. lia. }
  destruct (failed err1) eqn:Efail; [|apply import_loop_total; try done; [by rewrite Ec1|unfold fuel; lia]]. destruct block1 as [b|]; [cbn; eauto|]. cbn in Ha1. by subst err1.
Qed.

(** C14: Import.  Blocks of the time of PBFT arrive on a block that has its state: whatever the
    engine, the execution and the validator say of them, and whether they are new, known,
    of the future, or move the head to another branch, the import returns, without a
    panic.  Whatever blocks arrive, also on a pruned branch, which is then stored and
    imported again: when an import returns, the canonical hashes are a chain of stored
    headers from the genesis to the head, every stored header has its parent and its total
    difficulty, and total difficulties are sums.  The engines, as those of the repository,
    leave it to the validator to report known blocks and pruned ancestors, and no two
    headers in play have one hash. *)
Theorem InsertChain_keeps_chain fuel now chain bc :
  import_ok bc -> Forall good chain ->
  (all_pbft chain -> (forall b, hd_error chain = Some b -> based b bc) -> exists n ev lg e bc', InsertChain (S fuel) now chain bc = Some (n, ev, lg, e, bc')) /\
  (forall n ev lg e bc', InsertChain fuel now chain bc = Some (n, ev, lg, e, bc') -> import_ok bc').
Proof.
  intros Hio Hg. unfold InsertChain. destruct chain as [|b chain]; [split; [eauto 10|by intros ? ? ? ? ? [= <- <- <- <- <-]]|]. destruct (contiguous _) eqn:Ec; cbn [negb]; [|split; [eauto 10|by intros ? ? ? ? ? [= <- <- <- <- <-]]].
  pose proof (contiguous_contig _ Hg Ec) as Hcon. split; [|intros n ev lg e bc' E; by eapply insertChain_keeps].
  intros Hf Hhd. cbn [insertChain]. assert (forall engine, is_Some (insertBlockChain (insertChain fuel now) now engine (b :: chain) bc)) as Hins by (intros engine; by apply insertBlockChain_total).
  destruct PBFTBlock as [fork|]; [|destruct (Hins true) as [[[[[? ?] ?] ?] ?] ->]; eauto 10]. pose proof (proj1 (proj1 (Forall_cons _ _ _) Hf)) as Hb. rewrite Hb. destruct (Hins true) as [[[[[? ?] ?] ?] ?] ->]; eauto 10.
Qed.
End importfacts.

(** * The small instance *)
#[local] Existing Instances ToyChain.order ToyChain.keccak ToyChain.env.

Definition toy_universe (h : Header) : Prop := h = block_Header ToyChain.genesis \/ h = block_Header toy_block.

Lemma toy_hashes : header_Hash (block_Header ToyChain.genesis) <> header_Hash (block_Header toy_block).
Proof. apply Z.eqb_neq. vm_compute. reflexivity. Qed.

Lemma toy_universe_ok : universe toy_universe.
Proof.
  split.
  - intros h h' [-> | ->] [-> | ->] E; [|destruct (toy_hashes E)|destruct (toy_hashes (eq_sym E))|]; (split; [|split]); reflexivity.
  - intros h [-> | ->]; apply Z.eqb_neq; vm_compute; reflexivity.
  - intros h [-> | ->]; apply Z.ltb_lt; vm_compute; reflexivity.
  - intros h [-> | ->]; [left|right]; reflexivity.
Qed.

Lemma toy_plain : plain_engines.
Proof. split; [|by split]. intros engine hc chain err E. cbn in E. apply list_elem_of_fmap in E as (b & -> & _). by split. Qed.

Lemma toy_import_ok : import_ok ToyChain.g toy_universe ToyChain.bc0.
Proof.
  split; [exact ToyChain.bc0_ok|..]; cbn [ToyChain.bc0 db bc_hc hc_db ToyChain.db0 db_headers db_td db_bodies].
  - intros k hd [_ <-]%lookup_singleton_Some. left. reflexivity.
  - intros k [hd E]. apply lookup_singleton_Some in E as [E _]. subst k. rewrite lookup_singleton_eq. eauto.
  - intros k [hd E]. apply lookup_singleton_Some in E as [E _]. subst k. rewrite lookup_singleton_eq. eauto.
Qed.

(** The block 1 is imported and becomes the head. *)
Lemma InsertChain_keeps_chain_witness :
  exists n ev lg e bc', InsertChain 1 0 [toy_block] ToyChain.bc0 = Some (n, ev, lg, e, bc') /\ currentBlock bc' = toy_block /\ import_ok ToyChain.g toy_universe bc'.
Proof.
  assert (Forall (good toy_universe) [toy_block]) as Hg by (constructor; [|constructor]; split; [right; reflexivity|]; apply Z.ltb_lt; vm_compute; reflexivity).
  destruct (proj1 (InsertChain_keeps_chain ToyChain.g toy_universe toy_universe_ok toy_plain 0 0 [toy_block] ToyChain.bc0 toy_import_ok Hg)) as (n & ev & lg & e & bc' & E).
  - constructor; [vm_compute; reflexivity|constructor].
  - intros b [= <-]. vm_compute. reflexivity.
  - exists n, ev, lg, e, bc'. split; [exact E|]. split; [|exact (proj2 (InsertChain_keeps_chain ToyChain.g toy_universe toy_universe_ok toy_plain 1 0 [toy_block] ToyChain.bc0 toy_import_ok Hg) n ev lg e bc' E)].
    assert (match InsertChain 1 0 [toy_block] ToyChain.bc0 with Some (_, _, _, _, bc') => bool_decide (currentBlock bc' = toy_block) | None => false end = true) as Hd by (vm_compute; reflexivity).
    rewrite E in Hd. exact (proj1 (bool_decide_eq_true _) Hd).
Defined.
