(* ===== verification/AccessList.v ===== *)
(** * [core/state/access_list.go], [core/state/transient_storage.go]

    The access list of a transaction (EIP-2929): an address maps to the index
    of its slot set, or to [-1] when it has none.  Slot sets are appended and, by
    the journal, removed in the opposite order.  Transient storage (EIP-1153) is
    a map of maps that may be nil. *)
From S2P Require Import Prelude Common.

Record accessList := {
  addresses : gmap Z Z;
  slots : list (gset bytes)
}.

#[export] Instance accessList_eta : Eta accessList := fun a => {| addresses := addresses a; slots := slots a |}.

Definition slot_in (slot : bytes) (slotmap : gset bytes) : bool := bool_decide (slot ∈ slotmap).

Definition newAccessList : accessList := {| addresses := ∅; slots := [] |}.

Definition ContainsAddress (address : Z) (al : accessList) : bool := bool_decide (is_Some (addresses al !! address)).

(** Whether the address and the slot are present; an index out of range panics. *)
Definition Contains (address : Z) (slot : bytes) (al : accessList) : option (bool * bool) :=
  match addresses al !! address with
  | None => Some (false, false)
  | Some idx =>
      if idx =? -1 then Some (true, false)
      else slotmap ← slots al !! Z.to_nat idx; Some (true, slot_in slot slotmap)
  end.

Definition AddAddress (address : Z) (al : accessList) : bool * accessList :=
  match addresses al !! address with
  | Some _ => (false, al)
  | None => (true, al <| addresses := <[ address := -1 ]> (addresses al) |>)
  end.

(** Whether the address and the slot were added. *)
Definition AddSlot (address : Z) (slot : bytes) (al : accessList) : option (bool * bool * accessList) :=
  let fresh (addrPresent : bool) :=
    Some (negb addrPresent, true,
          {| addresses := <[ address := zlen (slots al) ]> (addresses al); slots := slots al ++ [ {[ slot ]} ] |}) in
  match addresses al !! address with
  | None => fresh false
  | Some idx =>
      if idx =? -1 then fresh true
      else
        slotmap ← slots al !! Z.to_nat idx;
        if slot_in slot slotmap then Some (false, false, al)
        else Some (false, true, al <| slots := <[ Z.to_nat idx := {[ slot ]} ∪ slotmap ]> (slots al) |>)
  end.

(** [None] is the panic on an address without slots. *)
Definition DeleteSlot (address : Z) (slot : bytes) (al : accessList) : option accessList :=
  idx ← addresses al !! address;
  if idx <? 0 then None
  else
    slotmap ← slots al !! Z.to_nat idx;
    let slotmap : gset bytes := slotmap ∖ {[ slot ]} in
    let al := al <| slots := <[ Z.to_nat idx := slotmap ]> (slots al) |> in
    Some (if bool_decide (slotmap = ∅)
          then {| addresses := <[ address := -1 ]> (addresses al); slots := take (Z.to_nat idx) (slots al) |}
          else al).

Definition DeleteAddress (address : Z) (al : accessList) : accessList :=
  al <| addresses := delete address (addresses al) |>.

(** ** Transient storage *)
Definition transientStorage : Type := option (gmap Z (gmap bytes bytes)).

Definition newTransientStorage : transientStorage := Some ∅.

(** A missing entry reads as the zero hash. *)
Definition storage_get (m : gmap bytes bytes) (key : bytes) : bytes := default zero_hash (m !! key).

Definition transient_Get (addr : Z) (key : bytes) (t : transientStorage) : bytes :=
  storage_get (default ∅ (default ∅ t !! addr)) key.

(** Writing to the nil map panics. *)
Definition transient_Set (addr : Z) (key value : bytes) (t : transientStorage) : option transientStorage :=
  m ← t;
  Some (Some (<[ addr := <[ key := value ]> (default ∅ (m !! addr)) ]> m)).

(** ** Well-formedness: indices are in range, and a used slot set is not empty
    and belongs to one address. *)
Record access_wf (al : accessList) : Prop := {
  access_index a i : addresses al !! a = Some i -> i = -1 \/ 0 <= i < zlen (slots al);
  access_inj a b i : addresses al !! a = Some i -> addresses al !! b = Some i -> i <> -1 -> a = b;
  access_nonempty : Forall (fun m => m <> ∅) (slots al)
}.

Lemma access_slot al a i : access_wf al -> addresses al !! a = Some i -> i <> -1 ->
  0 <= i /\ exists m, slots al !! Z.to_nat i = Some m /\ m <> ∅.
Proof.
  intros Hw Ha Hi. destruct (access_index _ Hw _ _ Ha) as [|Hr]; [done|]. split; [lia|].
  destruct (lookup_lt_is_Some_2 (slots al) (Z.to_nat i)) as [m Hm]; [unfold zlen in Hr; lia|].
  exists m. split; [done|]. by eapply (Forall_lookup_1 _ _ _ _ (access_nonempty _ Hw)).
Qed.

(** On a well-formed list nothing panics, and deleting undoes adding. *)
Lemma Contains_total al a k : access_wf al -> is_Some (Contains a k al).
Proof.
  intros Hw. unfold Contains. destruct (addresses al !! a) as [i|] eqn:Ha; [|done].
  case_match eqn:E; [done|]. bools. destruct (access_slot _ _ _ Hw Ha E) as [_ (m & -> & _)]. done.
Qed.

Lemma AddAddress_wf al a : access_wf al -> access_wf (snd (AddAddress a al)).
Proof.
  intros Hw. unfold AddAddress. destruct (addresses al !! a) as [i|] eqn:Ha; [done|]. destruct Hw as [H1 H2 H3].
  split; cbn; [..|done].
  - intros b i. rewrite lookup_insert_Some. intros [[_ <-]|[_ Hb]]; [by left|eauto].
  - intros b c i. rewrite !lookup_insert_Some. intros [[_ <-]|[_ Hb]] [[_ E]|[_ Hc]] Hi; subst; by eauto.
Qed.

Lemma AddAddress_undo al a : fst (AddAddress a al) = true -> DeleteAddress a (snd (AddAddress a al)) = al.
Proof.
  unfold AddAddress, DeleteAddress. destruct (addresses al !! a) as [i|] eqn:Ha; [done|]. intros _. cbn.
  rewrite delete_insert_id by done. by destruct al.
Qed.

(** The first slot of an address gets a new set at the end. *)
Section first_slot.
Context (al : accessList) (a : Z) (k : bytes).
Let al' := {| addresses := <[ a := zlen (slots al) ]> (addresses al); slots := slots al ++ [ {[ k ]} ] |}.

Lemma first_slot_wf : access_wf al -> access_wf al'.
Proof.
  intros [H1 H2 H3]. pose proof (zlen_nonneg (slots al)). split; unfold al'; cbn.
  - intros b j. rewrite lookup_insert_Some, zlen_app, zlen_cons.
    intros [[_ <-]|[_ Hb]]; [right; change (zlen []) with 0; lia|].
    destruct (H1 _ _ Hb) as [|]; [by left|right; change (zlen []) with 0; lia].
  - intros b c j. rewrite !lookup_insert_Some. intros [[<- <-]|[_ Hb]] [[<- E]|[_ Hc]] Hj; [done|..|by eauto].
    + destruct (H1 _ _ Hc); [done|lia].
    + subst j. destruct (H1 _ _ Hb); [done|lia].
  - apply Forall_app. split; [done|]. constructor; [set_solver|constructor].
Qed.

Lemma first_slot_undo :
  DeleteSlot a k al' = Some {| addresses := <[ a := -1 ]> (addresses al); slots := slots al |}.
Proof.
  unfold DeleteSlot, al'. cbn. rewrite lookup_insert_eq. cbn. pose proof (zlen_nonneg (slots al)) as Hn.
  destruct (Z.ltb_spec (zlen (slots al)) 0); [lia|]. unfold zlen. rewrite Nat2Z.id.
  rewrite list_lookup_middle by done. cbn. rewrite bool_decide_eq_true_2 by set_solver. cbn.
  rewrite insert_app_r_alt, take_app_length by lia. by rewrite insert_insert_eq.
Qed.
End first_slot.

Lemma added_removed (k : bytes) (m : gset bytes) : k ∉ m -> ({[ k ]} ∪ m) ∖ {[ k ]} = m.
Proof.
  intros Hk. apply set_eq. intros x. rewrite elem_of_difference, elem_of_union, elem_of_singleton.
  destruct (decide (x = k)) as [->|]; tauto.
Qed.

(** On a well-formed list adding a slot does not panic, and deleting what was
    added, in the opposite order, gives the list back. *)
Lemma AddSlot_spec al a k : access_wf al -> exists ac sc al',
  AddSlot a k al = Some (ac, sc, al') /\ access_wf al' /\
  (sc = false -> ac = false /\ al' = al) /\
  (sc = true -> exists al1, DeleteSlot a k al' = Some al1 /\ (if ac then DeleteAddress a al1 else al1) = al).
Proof.
  intros Hw. unfold AddSlot. destruct (addresses al !! a) as [i|] eqn:Ha.
  2:{ do 3 eexists. split; [done|]. split; [by apply first_slot_wf|]. split; [done|]. intros _.
      eexists. split; [apply first_slot_undo|]. unfold DeleteAddress. cbn. rewrite delete_insert_id by done. by destruct al. }
  case_match eqn:E; bools.
  - subst i. do 3 eexists. split; [done|]. split; [by apply first_slot_wf|]. split; [done|]. intros _.
    eexists. split; [apply first_slot_undo|]. cbn. rewrite insert_id by done. by destruct al.
  - destruct (access_slot _ _ _ Hw Ha E) as (Hi & m & Hm & Hne). rewrite Hm. cbn. unfold slot_in.
    case_bool_decide as Hk; [by do 3 eexists|]. do 3 eexists. split; [done|]. split; [|split; [done|]].
    + destruct Hw as [H1 H2 H3]. split; cbn; [|done|].
      * intros b j Hb. unfold zlen. rewrite length_insert. by eauto.
      * apply Forall_insert; [done|set_solver].
    + intros _. unfold DeleteSlot. cbn. rewrite Ha. cbn. destruct (Z.ltb_spec i 0); [lia|].
      rewrite list_lookup_insert_eq by (by eapply lookup_lt_Some). cbn.
      rewrite (added_removed k m Hk).
      rewrite bool_decide_eq_false_2 by done. eexists. split; [done|]. cbn.
      rewrite list_insert_insert_eq, list_insert_id by done. by destruct al.
Qed.
