(* ===== verification/StateDB.v ===== *)
(** * [core/state/]: the journalled account state

    [StateDB] keeps the accounts a block changes as [stateObject]s over the
    account trie, with the refund counter, logs, preimages, access list and
    transient storage of the current transaction.  Every change appends an entry
    to the journal; [RevertToSnapshot] undoes the entries after a snapshot.

    An address is a 160-bit integer, a hash its 32 bytes.  Storage tries and
    contract code come from the database, a parameter; errors of the database
    (the memoised [dbErr]) are not modelled.  A pointer to a [stateObject] is the
    object under its address in [stateObjects]; an object replaced by
    [createObject] is kept by the journal only and is not changed any more, so a
    copy of it is the same.  A panic is [None]. *)
From S2P Require Import Prelude Rlp Header Common AccessList.

Definition Keccak256Hash `{!Keccak} (b : bytes) : bytes := be 32 (Keccak256 b).

Definition emptyRoot : bytes := HexToHash "56e81f171bcc55a6ff8345e692c0f86e5b48e01b996cadc001622fb5e363b421".

(** ** Data *)
Record Account := { acc_Nonce : Z; acc_Balance : Z; acc_Root : bytes; acc_CodeHash : bytes }.

#[export] Instance Account_eta : Eta Account := fun a => {|
  acc_Nonce := acc_Nonce a; acc_Balance := acc_Balance a; acc_Root := acc_Root a; acc_CodeHash := acc_CodeHash a
|}.

(** The database: the contents of a storage trie by its root, and code by its
    hash ([None] when it is not found). *)
Class Database := {
  OpenStorageTrie : bytes -> gmap bytes bytes;
  ContractCode : bytes -> option bytes
}.

(** [code] is nil until it is set or read. *)
Record stateObject := {
  address : Z;
  data : Account;
  code : option bytes;
  originStorage : gmap bytes bytes;
  pendingStorage : gmap bytes bytes;
  dirtyStorage : gmap bytes bytes;
  dirtyCode : bool;
  suicided : bool;
  deleted : bool
}.

#[export] Instance stateObject_eta : Eta stateObject := fun o => {|
  address := address o; data := data o; code := code o; originStorage := originStorage o;
  pendingStorage := pendingStorage o; dirtyStorage := dirtyStorage o; dirtyCode := dirtyCode o;
  suicided := suicided o; deleted := deleted o
|}.

Record Log := {
  log_Address : Z; log_Topics : list bytes; log_Data : bytes; log_BlockNumber : Z;
  log_TxHash : bytes; log_TxIndex : Z; log_BlockHash : bytes; log_Index : Z
}.

#[export] Instance Log_eta : Eta Log := fun l => {|
  log_Address := log_Address l; log_Topics := log_Topics l; log_Data := log_Data l; log_BlockNumber := log_BlockNumber l;
  log_TxHash := log_TxHash l; log_TxIndex := log_TxIndex l; log_BlockHash := log_BlockHash l; log_Index := log_Index l
|}.

Inductive journalEntry :=
| createObjectChange (account : Z)
| resetObjectChange (prev : stateObject) (prevdestruct : bool)
| suicideChange (account : Z) (prev : bool) (prevbalance : Z)
| balanceChange (account : Z) (prev : Z)
| nonceChange (account : Z) (prev : Z)
| storageChange (account : Z) (key prevalue : bytes)
| codeChange (account : Z) (prevcode : option bytes) (prevhash : bytes)
| refundChange (prev : Z)
| addLogChange (txhash : bytes)
| addPreimageChange (hash : bytes)
| touchChange (account : Z)
| accessListAddAccountChange (account : Z)
| accessListAddSlotChange (account : Z) (slot : bytes)
| transientStorageChange (account : Z) (key prevalue : bytes).

Record journal := { entries : list journalEntry; dirties : gmap Z Z }.

#[export] Instance journal_eta : Eta journal := fun j => {| entries := entries j; dirties := dirties j |}.

Record revision := { rev_id : Z; journalIndex : nat }.

Record StateDB := {
  trie : gmap Z Account;
  stateObjects : gmap Z stateObject;
  stateObjectsPending : gset Z;
  stateObjectsDirty : gset Z;
  stateObjectsDestruct : gset Z;
  refund : Z;
  thash : bytes;
  bhash : bytes;
  txIndex : Z;
  logs : gmap bytes (list Log);
  logSize : Z;
  preimages : gmap bytes bytes;
  state_accessList : accessList;
  state_transient : transientStorage;
  state_journal : journal;
  validRevisions : list revision;
  nextRevisionId : Z
}.

#[export] Instance StateDB_eta : Eta StateDB := fun s => {|
  trie := trie s; stateObjects := stateObjects s; stateObjectsPending := stateObjectsPending s;
  stateObjectsDirty := stateObjectsDirty s; stateObjectsDestruct := stateObjectsDestruct s; refund := refund s;
  thash := thash s; bhash := bhash s; txIndex := txIndex s; logs := logs s; logSize := logSize s;
  preimages := preimages s; state_accessList := state_accessList s; state_transient := state_transient s;
  state_journal := state_journal s; validRevisions := validRevisions s; nextRevisionId := nextRevisionId s
|}.

(** ** The journal *)
Definition newJournal : journal := {| entries := []; dirties := ∅ |}.

Definition dirtied (e : journalEntry) : option Z :=
  match e with
  | createObjectChange a | suicideChange a _ _ | touchChange a | balanceChange a _ | nonceChange a _
  | codeChange a _ _ | storageChange a _ _ => Some a
  | _ => None
  end.

(** [j.dirties[addr]++]. *)
Definition journal_dirty (addr : Z) (j : journal) : journal :=
  j <| dirties := <[ addr := default 0 (dirties j !! addr) + 1 ]> (dirties j) |>.

Definition append_entry (e : journalEntry) (j : journal) : journal :=
  let j := j <| entries := entries j ++ [e] |> in
  match dirtied e with Some addr => journal_dirty addr j | None => j end.

Definition journal_append (e : journalEntry) (s : StateDB) : StateDB :=
  s <| state_journal := append_entry e (state_journal s) |>.

Definition undirty (e : journalEntry) (j : journal) : journal :=
  match dirtied e with
  | None => j
  | Some addr =>
      let n := default 0 (dirties j !! addr) - 1 in
      j <| dirties := if n =? 0 then delete addr (dirties j) else <[ addr := n ]> (dirties j) |>
  end.

Definition ripemd : Z := 3.

Section state.
Context `{!Keccak} `{!Database}.

Definition emptyCodeHash : bytes := Keccak256Hash [].

(** ** State objects *)
Definition empty (o : stateObject) : bool :=
  (acc_Nonce (data o) =? 0) && (acc_Balance (data o) =? 0) && bytes_Equal (acc_CodeHash (data o)) emptyCodeHash.

(** [Account{}]: its zero root and nil code hash are replaced by [newObject]. *)
Definition zeroAccount : Account := {| acc_Nonce := 0; acc_Balance := 0; acc_Root := zero_hash; acc_CodeHash := [] |}.

Definition newObject (addr : Z) (d : Account) : stateObject :=
  {| address := addr;
     data := {| acc_Nonce := acc_Nonce d; acc_Balance := acc_Balance d;
                acc_Root := if bytes_Equal (acc_Root d) zero_hash then emptyRoot else acc_Root d;
                acc_CodeHash := if zlen (acc_CodeHash d) =? 0 then emptyCodeHash else acc_CodeHash d |};
     code := None; originStorage := ∅; pendingStorage := ∅; dirtyStorage := ∅;
     dirtyCode := false; suicided := false; deleted := false |}.

(** The value and the object with the value cached. *)
Definition obj_GetCommittedState (key : bytes) (o : stateObject) : bytes * stateObject :=
  match pendingStorage o !! key with
  | Some value => (value, o)
  | None =>
      match originStorage o !! key with
      | Some value => (value, o)
      | None =>
          let value := storage_get (OpenStorageTrie (acc_Root (data o))) key in
          (value, o <| originStorage := <[ key := value ]> (originStorage o) |>)
      end
  end.

Definition obj_GetState (key : bytes) (o : stateObject) : bytes * stateObject :=
  match dirtyStorage o !! key with
  | Some value => (value, o)
  | None => obj_GetCommittedState key o
  end.

(** [Code]: the code, [None] for nil, and the object with the code cached. *)
Definition obj_Code (o : stateObject) : option bytes * stateObject :=
  match code o with
  | Some c => (Some c, o)
  | None =>
      if bytes_Equal (acc_CodeHash (data o)) emptyCodeHash then (None, o)
      else let c := ContractCode (BytesToHash (acc_CodeHash (data o))) in (c, o <| code := c |>)
  end.

Definition setBalance (amount : Z) (o : stateObject) : stateObject := o <| data := (data o) <| acc_Balance := amount |> |>.
Definition setNonce (nonce : Z) (o : stateObject) : stateObject := o <| data := (data o) <| acc_Nonce := nonce |> |>.
Definition setState (key value : bytes) (o : stateObject) : stateObject :=
  o <| dirtyStorage := <[ key := value ]> (dirtyStorage o) |>.
Definition setCode (codeHash : bytes) (c : option bytes) (o : stateObject) : stateObject :=
  o <| code := c |> <| data := (data o) <| acc_CodeHash := codeHash |> |> <| dirtyCode := true |>.

Definition finalise (o : stateObject) : stateObject :=
  o <| pendingStorage := dirtyStorage o ∪ pendingStorage o |> <| dirtyStorage := ∅ |>.

(** ** Looking objects up *)
Definition setStateObject (o : stateObject) (s : StateDB) : StateDB :=
  s <| stateObjects := <[ address o := o ]> (stateObjects s) |>.

(** The object and the state with a loaded object among the live ones. *)
Definition getDeletedStateObject (addr : Z) (s : StateDB) : option stateObject * StateDB :=
  match stateObjects s !! addr with
  | Some o => (Some o, s)
  | None =>
      match trie s !! addr with
      | None => (None, s)
      | Some d => let o := newObject addr d in (Some o, setStateObject o s)
      end
  end.

Definition getStateObject (addr : Z) (s : StateDB) : option stateObject * StateDB :=
  let (o, s) := getDeletedStateObject addr s in
  (match o with Some o => if deleted o then None else Some o | None => None end, s).

(** The new object and the one it replaces, unless that was deleted. *)
Definition createObject (addr : Z) (s : StateDB) : stateObject * option stateObject * StateDB :=
  let (prev, s) := getDeletedStateObject addr s in
  let prevdestruct := match prev with Some p => bool_decide (address p ∈ stateObjectsDestruct s) | None => false end in
  let s := match prev with
           | Some p => s <| stateObjectsDestruct := {[ address p ]} ∪ stateObjectsDestruct s |>
           | None => s
           end in
  let newobj := setNonce 0 (newObject addr zeroAccount) in
  let s := match prev with
           | None => journal_append (createObjectChange addr) s
           | Some p => journal_append (resetObjectChange p prevdestruct) s
           end in
  let s := setStateObject newobj s in
  (newobj, match prev with Some p => if deleted p then None else Some p | None => None end, s).

Definition CreateAccount (addr : Z) (s : StateDB) : StateDB :=
  let '(newObj, prev, s) := createObject addr s in
  match prev with
  | Some p => setStateObject (setBalance (acc_Balance (data p)) newObj) s
  | None => s
  end.

Definition GetOrNewStateObject (addr : Z) (s : StateDB) : stateObject * StateDB :=
  let (o, s) := getStateObject addr s in
  match o with
  | Some o => (o, s)
  | None => let '(o, _, s) := createObject addr s in (o, s)
  end.

(** ** Reading.  The getters return the value; that an object or a slot has
    been loaded is not visible through them ([getStateObject_world]). *)
Definition Exist (addr : Z) (s : StateDB) : bool := bool_decide (is_Some (fst (getStateObject addr s))).

Definition Empty (addr : Z) (s : StateDB) : bool :=
  match fst (getStateObject addr s) with Some o => empty o | None => true end.

Definition GetBalance (addr : Z) (s : StateDB) : Z :=
  match fst (getStateObject addr s) with Some o => acc_Balance (data o) | None => 0 end.

Definition GetNonce (addr : Z) (s : StateDB) : Z :=
  match fst (getStateObject addr s) with Some o => acc_Nonce (data o) | None => 0 end.

Definition GetCode (addr : Z) (s : StateDB) : bytes :=
  match fst (getStateObject addr s) with Some o => default [] (fst (obj_Code o)) | None => [] end.

(** [ContractCodeSize] of the database is the length of the code it finds. *)
Definition GetCodeSize (addr : Z) (s : StateDB) : Z :=
  match fst (getStateObject addr s) with
  | None => 0
  | Some o =>
      match code o with
      | Some c => zlen c
      | None => zlen (default [] (ContractCode (BytesToHash (acc_CodeHash (data o)))))
      end
  end.

Definition GetCodeHash (addr : Z) (s : StateDB) : bytes :=
  match fst (getStateObject addr s) with Some o => BytesToHash (acc_CodeHash (data o)) | None => zero_hash end.

Definition GetState (addr : Z) (key : bytes) (s : StateDB) : bytes :=
  match fst (getStateObject addr s) with Some o => fst (obj_GetState key o) | None => zero_hash end.

Definition GetCommittedState (addr : Z) (key : bytes) (s : StateDB) : bytes :=
  match fst (getStateObject addr s) with Some o => fst (obj_GetCommittedState key o) | None => zero_hash end.

Definition HasSuicided (addr : Z) (s : StateDB) : bool :=
  match fst (getStateObject addr s) with Some o => suicided o | None => false end.

Definition GetRefund (s : StateDB) : Z := refund s.

Definition GetLogs (hash : bytes) (s : StateDB) : list Log := default [] (logs s !! hash).

Definition GetTransientState (addr : Z) (key : bytes) (s : StateDB) : bytes := transient_Get addr key (state_transient s).

Definition AddressInAccessList (addr : Z) (s : StateDB) : bool := ContainsAddress addr (state_accessList s).
Definition SlotInAccessList (addr : Z) (slot : bytes) (s : StateDB) : option (bool * bool) :=
  Contains addr slot (state_accessList s).

(** ** Changes *)
Definition obj_touch (o : stateObject) (s : StateDB) : StateDB :=
  let s := journal_append (touchChange (address o)) s in
  if address o =? ripemd then s <| state_journal := journal_dirty (address o) (state_journal s) |> else s.

Definition obj_SetBalance (amount : Z) (o : stateObject) (s : StateDB) : StateDB :=
  setStateObject (setBalance amount o) (journal_append (balanceChange (address o) (acc_Balance (data o))) s).

Definition obj_AddBalance (amount : Z) (o : stateObject) (s : StateDB) : StateDB :=
  if amount =? 0 then (if empty o then obj_touch o s else s)
  else obj_SetBalance (acc_Balance (data o) + amount) o s.

Definition obj_SubBalance (amount : Z) (o : stateObject) (s : StateDB) : StateDB :=
  if amount =? 0 then s else obj_SetBalance (acc_Balance (data o) - amount) o s.

Definition AddBalance (addr amount : Z) (s : StateDB) : StateDB :=
  let (o, s) := GetOrNewStateObject addr s in obj_AddBalance amount o s.

Definition SubBalance (addr amount : Z) (s : StateDB) : StateDB :=
  let (o, s) := GetOrNewStateObject addr s in obj_SubBalance amount o s.

Definition SetBalance (addr amount : Z) (s : StateDB) : StateDB :=
  let (o, s) := GetOrNewStateObject addr s in obj_SetBalance amount o s.

Definition SetNonce (addr nonce : Z) (s : StateDB) : StateDB :=
  let (o, s) := GetOrNewStateObject addr s in
  setStateObject (setNonce nonce o) (journal_append (nonceChange (address o) (acc_Nonce (data o))) s).

Definition SetCode (addr : Z) (c : bytes) (s : StateDB) : StateDB :=
  let (o, s) := GetOrNewStateObject addr s in
  let (prevcode, o) := obj_Code o in
  setStateObject (setCode (Keccak256Hash c) (Some c) o)
    (journal_append (codeChange (address o) prevcode (acc_CodeHash (data o))) s).

Definition SetState (addr : Z) (key value : bytes) (s : StateDB) : StateDB :=
  let (o, s) := GetOrNewStateObject addr s in
  let (prev, o) := obj_GetState key o in
  if bytes_Equal prev value then setStateObject o s
  else setStateObject (setState key value o) (journal_append (storageChange (address o) key prev) s).

Definition Suicide (addr : Z) (s : StateDB) : bool * StateDB :=
  let (o, s) := getStateObject addr s in
  match o with
  | None => (false, s)
  | Some o =>
      (true, setStateObject (setBalance 0 (o <| suicided := true |>))
               (journal_append (suicideChange addr (suicided o) (acc_Balance (data o))) s))
  end.

Definition setTransientState (addr : Z) (key value : bytes) (s : StateDB) : option StateDB :=
  t ← transient_Set addr key value (state_transient s); Some (s <| state_transient := t |>).

Definition SetTransientState (addr : Z) (key value : bytes) (s : StateDB) : option StateDB :=
  let prev := GetTransientState addr key s in
  if bytes_Equal prev value then Some s
  else setTransientState addr key value (journal_append (transientStorageChange addr key prev) s).

Definition AddRefund (gas : Z) (s : StateDB) : StateDB :=
  journal_append (refundChange (refund s)) s <| refund := u64 (refund s + gas) |>.

Definition SubRefund (gas : Z) (s : StateDB) : option StateDB :=
  if refund s <? gas then None else Some (journal_append (refundChange (refund s)) s <| refund := u64 (refund s - gas) |>).

Definition AddLog (l : Log) (s : StateDB) : StateDB :=
  let s := journal_append (addLogChange (thash s)) s in
  let l := l <| log_TxHash := thash s |> <| log_BlockHash := bhash s |> <| log_TxIndex := u64 (txIndex s) |>
             <| log_Index := logSize s |> in
  s <| logs := <[ thash s := default [] (logs s !! thash s) ++ [l] ]> (logs s) |> <| logSize := u64 (logSize s + 1) |>.

Definition AddPreimage (hash preimage : bytes) (s : StateDB) : StateDB :=
  match preimages s !! hash with
  | Some _ => s
  | None => journal_append (addPreimageChange hash) s <| preimages := <[ hash := preimage ]> (preimages s) |>
  end.

Definition AddAddressToAccessList (addr : Z) (s : StateDB) : StateDB :=
  let (added, al) := AddAddress addr (state_accessList s) in
  let s := s <| state_accessList := al |> in
  if added then journal_append (accessListAddAccountChange addr) s else s.

Definition AddSlotToAccessList (addr : Z) (slot : bytes) (s : StateDB) : option StateDB :=
  match AddSlot addr slot (state_accessList s) with
  | None => None
  | Some (addrMod, slotMod, al) =>
      let s := s <| state_accessList := al |> in
      let s := if addrMod then journal_append (accessListAddAccountChange addr) s else s in
      Some (if slotMod then journal_append (accessListAddSlotChange addr slot) s else s)
  end.

(** The access list of a transaction: the entries of its optional list, an
    address with its storage keys; it replaces the list without a journal entry. *)
Fixpoint add_slots (addr : Z) (keys : list bytes) (al : accessList) : option accessList :=
  match keys with
  | [] => Some al
  | key :: keys => match AddSlot addr key al with Some (_, _, al) => add_slots addr keys al | None => None end
  end.

Fixpoint add_tuples (tuples : list (Z * list bytes)) (al : accessList) : option accessList :=
  match tuples with
  | [] => Some al
  | (addr, keys) :: tuples => al ← add_slots addr keys (snd (AddAddress addr al)); add_tuples tuples al
  end.

Definition add_addresses (addrs : list Z) (al : accessList) : accessList :=
  foldl (fun al addr => snd (AddAddress addr al)) al addrs.

Definition PrepareAccessList (isBerlin isShanghai : bool) (sender coinbase : Z) (dst : option Z) (precompiles : list Z)
    (tuples : list (Z * list bytes)) (s : StateDB) : option StateDB :=
  s ← (if isBerlin then
         al ← add_tuples tuples (add_addresses (sender :: match dst with Some d => [d] | None => [] end ++ precompiles) newAccessList);
         Some (s <| state_accessList := if isShanghai then snd (AddAddress coinbase al) else al |>)
       else Some s);
  Some (s <| state_transient := newTransientStorage |>).

(** ** Undoing *)
Definition revert_entry (e : journalEntry) (s : StateDB) : option StateDB :=
  (* the methods of a nil object panic *)
  let with_object account (f : stateObject -> stateObject) :=
    let (o, s) := getStateObject account s in
    match o with Some o => Some (setStateObject (f o) s) | None => None end in
  match e with
  | createObjectChange account =>
      Some (s <| stateObjects := delete account (stateObjects s) |>
              <| stateObjectsDirty := stateObjectsDirty s ∖ {[ account ]} |>)
  | resetObjectChange prev prevdestruct =>
      let s := setStateObject prev s in
      Some (if prevdestruct then s else s <| stateObjectsDestruct := stateObjectsDestruct s ∖ {[ address prev ]} |>)
  | suicideChange account prev prevbalance =>
      let (o, s) := getStateObject account s in
      Some match o with
           | Some o => setStateObject (setBalance prevbalance (o <| suicided := prev |>)) s
           | None => s
           end
  | touchChange _ => Some s
  | balanceChange account prev => with_object account (setBalance prev)
  | nonceChange account prev => with_object account (setNonce prev)
  | codeChange account prevcode prevhash => with_object account (setCode (BytesToHash prevhash) prevcode)
  | storageChange account key prevalue => with_object account (setState key prevalue)
  | transientStorageChange account key prevalue => setTransientState account key prevalue s
  | refundChange prev => Some (s <| refund := prev |>)
  | addLogChange txhash =>
      let l := default [] (logs s !! txhash) in
      if zlen l =? 0 then None
      else Some (s <| logs := if zlen l =? 1 then delete txhash (logs s)
                              else <[ txhash := take (length l - 1) l ]> (logs s) |>
                   <| logSize := u64 (logSize s - 1) |>)
  | addPreimageChange hash => Some (s <| preimages := delete hash (preimages s) |>)
  | accessListAddAccountChange account => Some (s <| state_accessList := DeleteAddress account (state_accessList s) |>)
  | accessListAddSlotChange account slot =>
      al ← DeleteSlot account slot (state_accessList s); Some (s <| state_accessList := al |>)
  end.

(** The entries from the last one back, each with its dirty count. *)
Fixpoint revert_entries (es : list journalEntry) (s : StateDB) : option StateDB :=
  match es with
  | [] => Some s
  | e :: es =>
      s ← revert_entry e s;
      revert_entries es (s <| state_journal := undirty e (state_journal s) |>)
  end.

Definition journal_revert (snapshot : nat) (s : StateDB) : option StateDB :=
  s ← revert_entries (reverse (drop snapshot (entries (state_journal s)))) s;
  Some (s <| state_journal := (state_journal s) <| entries := take snapshot (entries (state_journal s)) |> |>).

Definition Snapshot (s : StateDB) : Z * StateDB :=
  (nextRevisionId s,
   s <| nextRevisionId := nextRevisionId s + 1 |>
     <| validRevisions := validRevisions s ++
          [{| rev_id := nextRevisionId s; journalIndex := length (entries (state_journal s)) |}] |>).

(** [sort.Search] finds the first index whose id is at least [revid] (the ids
    increase). *)
Fixpoint search_revision (revid : Z) (l : list revision) : nat :=
  match l with
  | [] => 0
  | r :: l => if revid <=? rev_id r then 0 else S (search_revision revid l)
  end.

Definition RevertToSnapshot (revid : Z) (s : StateDB) : option StateDB :=
  let idx := search_revision revid (validRevisions s) in
  match validRevisions s !! idx with
  | None => None
  | Some r =>
      if negb (rev_id r =? revid) then None
      else
        s ← journal_revert (journalIndex r) s;
        Some (s <| validRevisions := take idx (validRevisions s) |>)
  end.

(** ** The end of a transaction *)
Definition clearJournalAndRefund (s : StateDB) : StateDB :=
  let s := if 0 <? zlen (entries (state_journal s)) then s <| state_journal := newJournal |> <| refund := 0 |> else s in
  s <| validRevisions := [] |>.

Definition finalise_one (deleteEmptyObjects : bool) (s : StateDB) (addr : Z) : StateDB :=
  match stateObjects s !! addr with
  | None => s
  | Some o =>
      let o := if suicided o || (deleteEmptyObjects && empty o) then o <| deleted := true |> else finalise o in
      s <| stateObjects := <[ addr := o ]> (stateObjects s) |>
        <| stateObjectsPending := {[ addr ]} ∪ stateObjectsPending s |>
        <| stateObjectsDirty := {[ addr ]} ∪ stateObjectsDirty s |>
  end.

Definition Finalise `{!RangeOrder} (deleteEmptyObjects : bool) (s : StateDB) : StateDB :=
  clearJournalAndRefund (foldl (finalise_one deleteEmptyObjects) s (range_map (dirties (state_journal s))).*1).

Definition Prepare (th bh : bytes) (ti : Z) (s : StateDB) : StateDB :=
  s <| thash := th |> <| bhash := bh |> <| txIndex := ti |>.
End state.
