(* ===== verification/StateSpec.v ===== *)
(** * The state as a map of accounts with saved copies

    The specification of [StateDB]: a [World] is what the getters of the state
    show, [Spec] a world with the copies that snapshots have saved.  A change of
    the specification acts on the world directly, a snapshot saves a copy and a
    revert restores it.  The file shows that the journalled state implements
    this: every operation simulates the one of the specification, including the
    panics, and reverting never panics on a valid snapshot. *)
From S2P Require Import Prelude Rlp Header Common AccessList StateDB.

(** ** Worlds *)
Record AccountView := {
  v_nonce : Z;
  v_balance : Z;
  v_codehash : bytes;
  v_code : option bytes;
  v_codesize : Z;
  v_suicided : bool;
  v_storage : bytes -> bytes;
  v_committed : bytes -> bytes
}.

#[export] Instance AccountView_eta : Eta AccountView := fun v => {|
  v_nonce := v_nonce v; v_balance := v_balance v; v_codehash := v_codehash v; v_code := v_code v;
  v_codesize := v_codesize v; v_suicided := v_suicided v; v_storage := v_storage v; v_committed := v_committed v
|}.

Record World := {
  w_account : Z -> option AccountView;
  w_refund : Z;
  w_thash : bytes;
  w_bhash : bytes;
  w_txIndex : Z;
  w_logs : gmap bytes (list Log);
  w_logSize : Z;
  w_preimages : gmap bytes bytes;
  w_access : accessList;
  w_transient : option (Z -> bytes -> bytes)
}.

#[export] Instance World_eta : Eta World := fun w => {|
  w_account := w_account w; w_refund := w_refund w; w_thash := w_thash w; w_bhash := w_bhash w; w_txIndex := w_txIndex w;
  w_logs := w_logs w; w_logSize := w_logSize w; w_preimages := w_preimages w; w_access := w_access w;
  w_transient := w_transient w
|}.

(** Worlds are compared pointwise. *)
#[export] Instance AccountView_equiv : Equiv AccountView := fun v v' =>
  (v_nonce v, v_balance v, v_codehash v, v_code v, v_codesize v, v_suicided v) =
  (v_nonce v', v_balance v', v_codehash v', v_code v', v_codesize v', v_suicided v') /\
  (forall k, v_storage v k = v_storage v' k) /\ (forall k, v_committed v k = v_committed v' k).

#[export] Instance AccountView_equivalence : Equivalence (≡@{AccountView}).
Proof.
  split.
  - by intros v.
  - intros v v' (E & Hs & Hc). by repeat split.
  - intros v v' v'' (E & Hs & Hc) (E' & Hs' & Hc'). split; [congruence|].
    split; intros k; [by rewrite Hs|by rewrite Hc].
Qed.

Definition transient_equiv (t t' : option (Z -> bytes -> bytes)) : Prop :=
  match t, t' with
  | Some f, Some f' => forall a k, f a k = f' a k
  | None, None => True
  | _, _ => False
  end.

#[export] Instance transient_equiv_refl : Reflexive transient_equiv.
Proof. by intros [f|]. Qed.

#[export] Instance World_equiv : Equiv World := fun w w' =>
  (forall a, w_account w a ≡ w_account w' a) /\ transient_equiv (w_transient w) (w_transient w') /\
  (w_refund w, w_thash w, w_bhash w, w_txIndex w, w_logs w, w_logSize w, w_preimages w, w_access w) =
  (w_refund w', w_thash w', w_bhash w', w_txIndex w', w_logs w', w_logSize w', w_preimages w', w_access w').

#[export] Instance World_equivalence : Equivalence (≡@{World}).
Proof.
  split.
  - intros w. by split; [|split].
  - intros w w' (Ha & Ht & E). split; [by intros a|]. split; [|done].
    unfold transient_equiv in *. destruct (w_transient w), (w_transient w'); by try intros a k.
  - intros w w' w'' (Ha & Ht & E) (Ha' & Ht' & E'). split; [intros a; by rewrite Ha|]. split; [|congruence].
    unfold transient_equiv in *. destruct (w_transient w), (w_transient w'), (w_transient w''); try done.
    intros a k. by rewrite Ht.
Qed.

(** Changes of equivalent worlds outside the accounts and transient storage. *)
Lemma equiv_fields w w' :
  w ≡ w' -> forall x x', w_account x = w_account w -> w_account x' = w_account w' -> w_transient x = w_transient w ->
  w_transient x' = w_transient w' ->
  (w_refund x, w_thash x, w_bhash x, w_txIndex x, w_logs x, w_logSize x, w_preimages x, w_access x) =
  (w_refund x', w_thash x', w_bhash x', w_txIndex x', w_logs x', w_logSize x', w_preimages x', w_access x') -> x ≡ x'.
Proof.
  intros (Ha & Ht & _) x x' F1 F2 F3 F4 F5. split; [by rewrite F1, F2|]. split; [by rewrite F3, F4|done].
Qed.

(** Equivalent views with the same fields replaced. *)
Ltac view_split :=
  let E := fresh "E" in intros ?v ?v' (E & ?Hs & ?Hc); injection E as ? ? ? ? ? ?; split; [cbn; congruence|split; [|done]]; try done.

Definition w_set (a : Z) (v : option AccountView) (w : World) : World :=
  w <| w_account := fun b => if b =? a then v else w_account w b |>.

Section spec.
Context `{!Keccak} `{!Database}.

(** ** What a state shows *)
Definition code_of (h : bytes) (c : option bytes) : option bytes :=
  match c with Some c => Some c | None => if bytes_Equal h emptyCodeHash then None else ContractCode (BytesToHash h) end.

Definition size_of (h : bytes) (c : option bytes) : Z :=
  match c with Some c => zlen c | None => zlen (default [] (ContractCode (BytesToHash h))) end.

Definition committed_of (o : stateObject) (k : bytes) : bytes :=
  match pendingStorage o !! k with
  | Some x => x
  | None => match originStorage o !! k with
            | Some x => x
            | None => storage_get (OpenStorageTrie (acc_Root (data o))) k
            end
  end.

Definition storage_of (o : stateObject) (k : bytes) : bytes :=
  match dirtyStorage o !! k with Some x => x | None => committed_of o k end.

(** The getters of an object compute these ([obj_reads]). *)
Definition view_obj (o : stateObject) : AccountView :=
  {| v_nonce := acc_Nonce (data o); v_balance := acc_Balance (data o); v_codehash := acc_CodeHash (data o);
     v_code := code_of (acc_CodeHash (data o)) (code o);
     v_codesize := size_of (acc_CodeHash (data o)) (code o);
     v_suicided := suicided o; v_storage := storage_of o; v_committed := committed_of o |}.

Lemma obj_reads o k :
  fst (obj_Code o) = v_code (view_obj o) /\ fst (obj_GetState k o) = v_storage (view_obj o) k /\
  fst (obj_GetCommittedState k o) = v_committed (view_obj o) k.
Proof.
  cbn. unfold obj_Code, code_of, storage_of, committed_of, obj_GetState, obj_GetCommittedState. split_and!.
  - destruct (code o); [done|]. by destruct (bytes_Equal _ _).
  - destruct (dirtyStorage o !! k); [done|]. destruct (pendingStorage o !! k); [done|]. by destruct (originStorage o !! k).
  - destruct (pendingStorage o !! k); [done|]. by destruct (originStorage o !! k).
Qed.

(** Reading caches what it reads, which the view does not show. *)
Lemma obj_reads_cache o k :
  view_obj (snd (obj_Code o)) ≡ view_obj o /\ view_obj (snd (obj_GetState k o)) ≡ view_obj o /\
  deleted (snd (obj_Code o)) = deleted o /\ deleted (snd (obj_GetState k o)) = deleted o /\
  address (snd (obj_Code o)) = address o /\ address (snd (obj_GetState k o)) = address o /\
  data (snd (obj_Code o)) = data o /\ data (snd (obj_GetState k o)) = data o.
Proof.
  assert (Hcode : view_obj (snd (obj_Code o)) ≡ view_obj o).
  { unfold obj_Code. destruct (code o) as [c|] eqn:Hc; [done|]. destruct (bytes_Equal _ _) eqn:E; [done|].
    split; [|by split]. cbn. rewrite Hc. unfold code_of, size_of. rewrite E.
    by destruct (ContractCode _). }
  assert (Hst : view_obj (snd (obj_GetState k o)) ≡ view_obj o).
  { unfold obj_GetState, obj_GetCommittedState. destruct (dirtyStorage o !! k); [done|].
    destruct (pendingStorage o !! k) eqn:Hp; [done|]. destruct (originStorage o !! k) eqn:Ho; [done|].
    assert (Hk : forall k', committed_of (o <| originStorage := <[ k := storage_get (OpenStorageTrie (acc_Root (data o))) k ]>
      (originStorage o) |>) k' = committed_of o k').
    { intros k'. unfold committed_of. cbn. destruct (decide (k = k')) as [<-|]; [by rewrite Hp, lookup_insert_eq, Ho|].
      by rewrite lookup_insert_ne by done. }
    split; [done|]. split; intros k'; cbn; [|apply Hk]. unfold storage_of. cbn. by rewrite Hk. }
  split; [done|]. split; [done|]. unfold obj_Code, obj_GetState, obj_GetCommittedState.
  split_and!; repeat (case_match; try done).
Qed.

Definition live (o : stateObject) : option AccountView := if deleted o then None else Some (view_obj o).

(** The object of an address, loaded when it has to be. *)
Definition object_at (s : StateDB) (a : Z) : option stateObject :=
  match stateObjects s !! a with Some o => Some o | None => newObject a <$> trie s !! a end.

Definition world (s : StateDB) : World := {|
  w_account := fun a => object_at s a ≫= live;
  w_refund := refund s; w_thash := thash s; w_bhash := bhash s; w_txIndex := txIndex s;
  w_logs := logs s; w_logSize := logSize s; w_preimages := preimages s; w_access := state_accessList s;
  w_transient := (fun _ a k => transient_Get a k (state_transient s)) <$> state_transient s
|}.

(** An account that has just been created. *)
Definition new_view : AccountView := view_obj (setNonce 0 (newObject 0 zeroAccount)).

Definition w_object (a : Z) (w : World) : AccountView := default new_view (w_account w a).

Definition w_update (a : Z) (f : AccountView -> AccountView) (w : World) : World := w_set a (Some (f (w_object a w))) w.

(** ** Operations *)
Inductive op :=
| OAddBalance (a x : Z)
| OSubBalance (a x : Z)
| OSetBalance (a x : Z)
| OSetNonce (a n : Z)
| OSetCode (a : Z) (c : bytes)
| OSetState (a : Z) (key value : bytes)
| OSuicide (a : Z)
| OCreateAccount (a : Z)
| OLoad (a : Z)
| OSetTransientState (a : Z) (key value : bytes)
| OAddRefund (g : Z)
| OSubRefund (g : Z)
| OAddLog (l : Log)
| OAddPreimage (h p : bytes)
| OAddAddress (a : Z)
| OAddSlot (a : Z) (slot : bytes)
| OSnapshot
| ORevert (id : Z).

Definition exec (o : op) (s : StateDB) : option StateDB :=
  match o with
  | OAddBalance a x => Some (AddBalance a x s)
  | OSubBalance a x => Some (SubBalance a x s)
  | OSetBalance a x => Some (SetBalance a x s)
  | OSetNonce a n => Some (SetNonce a n s)
  | OSetCode a c => Some (SetCode a c s)
  | OSetState a k v => Some (SetState a k v s)
  | OSuicide a => Some (snd (Suicide a s))
  | OCreateAccount a => Some (CreateAccount a s)
  | OLoad a => Some (snd (getStateObject a s))
  | OSetTransientState a k v => SetTransientState a k v s
  | OAddRefund g => Some (AddRefund g s)
  | OSubRefund g => SubRefund g s
  | OAddLog l => Some (AddLog l s)
  | OAddPreimage h p => Some (AddPreimage h p s)
  | OAddAddress a => Some (AddAddressToAccessList a s)
  | OAddSlot a k => AddSlotToAccessList a k s
  | OSnapshot => Some (snd (Snapshot s))
  | ORevert id => RevertToSnapshot id s
  end.

(** The same operations on a world. *)
Definition wexec (o : op) (w : World) : option World :=
  match o with
  | OAddBalance a x => Some (w_update a (fun v => v <| v_balance := v_balance v + x |>) w)
  | OSubBalance a x => Some (w_update a (fun v => v <| v_balance := v_balance v - x |>) w)
  | OSetBalance a x => Some (w_update a (fun v => v <| v_balance := x |>) w)
  | OSetNonce a n => Some (w_update a (fun v => v <| v_nonce := n |>) w)
  | OSetCode a c => Some (w_update a (fun v => v <| v_codehash := Keccak256Hash c |> <| v_code := Some c |>
                                                 <| v_codesize := zlen c |>) w)
  | OSetState a k x => Some (w_update a (fun v => v <| v_storage := fun k' => if bytes_Equal k' k then x else v_storage v k' |>) w)
  | OSuicide a => Some (w_set a ((fun v => v <| v_balance := 0 |> <| v_suicided := true |>) <$> w_account w a) w)
  | OCreateAccount a => Some (w_set a (Some (new_view <| v_balance := v_balance (w_object a w) |>)) w)
  | OLoad _ => Some w
  | OSetTransientState a k x =>
      match w_transient w with
      | None => if bytes_Equal zero_hash x then Some w else None
      | Some t => Some (w <| w_transient := Some (fun b k' => if (b =? a) && bytes_Equal k' k then x else t b k') |>)
      end
  | OAddRefund g => Some (w <| w_refund := u64 (w_refund w + g) |>)
  | OSubRefund g => if w_refund w <? g then None else Some (w <| w_refund := u64 (w_refund w - g) |>)
  | OAddLog l =>
      let l := l <| log_TxHash := w_thash w |> <| log_BlockHash := w_bhash w |> <| log_TxIndex := u64 (w_txIndex w) |>
                 <| log_Index := w_logSize w |> in
      Some (w <| w_logs := <[ w_thash w := default [] (w_logs w !! w_thash w) ++ [l] ]> (w_logs w) |>
              <| w_logSize := u64 (w_logSize w + 1) |>)
  | OAddPreimage h p =>
      Some (w <| w_preimages := match w_preimages w !! h with Some _ => w_preimages w | None => <[ h := p ]> (w_preimages w) end |>)
  | OAddAddress a => Some (w <| w_access := snd (AddAddress a (w_access w)) |>)
  | OAddSlot a k => match AddSlot a k (w_access w) with Some (_, _, al) => Some (w <| w_access := al |>) | None => None end
  | OSnapshot | ORevert _ => Some w
  end.

(** A world with its saved copies. *)
Record Spec := { cur : World; saved : list (Z * World); next : Z }.

#[export] Instance Spec_eta : Eta Spec := fun S => {| cur := cur S; saved := saved S; next := next S |}.

(** The copy with an id and the copies below it. *)
Fixpoint restore (id : Z) (l : list (Z * World)) : option (list (Z * World) * World) :=
  match l with
  | [] => None
  | (i, w) :: l => if i =? id then Some ([], w) else r ← restore id l; Some ((i, w) :: fst r, snd r)
  end.

Definition sexec (o : op) (S : Spec) : option Spec :=
  match o with
  | OSnapshot => Some {| cur := cur S; saved := saved S ++ [(next S, cur S)]; next := next S + 1 |}
  | ORevert id => r ← restore id (saved S); Some {| cur := snd r; saved := fst r; next := next S |}
  | _ => w ← wexec o (cur S); Some (S <| cur := w |>)
  end.
End spec.

(** ** Undoing an entry, on a world *)
Section undo.
Context `{!Keccak} `{!Database}.

Definition w_modify (a : Z) (f : AccountView -> AccountView) (w : World) : option World :=
  v ← w_account w a; Some (w_set a (Some (f v)) w).

Definition wundo (e : journalEntry) (w : World) : option World :=
  match e with
  | createObjectChange a => Some (w_set a None w)
  | resetObjectChange prev _ => Some (w_set (address prev) (live prev) w)
  | suicideChange a p b => Some (w_set a ((fun v => v <| v_balance := b |> <| v_suicided := p |>) <$> w_account w a) w)
  | touchChange _ => Some w
  | balanceChange a b => w_modify a (fun v => v <| v_balance := b |>) w
  | nonceChange a n => w_modify a (fun v => v <| v_nonce := n |>) w
  | codeChange a c h =>
      w_modify a (fun v => v <| v_codehash := h |> <| v_code := code_of h c |> <| v_codesize := size_of h c |>) w
  | storageChange a k x =>
      w_modify a (fun v => v <| v_storage := fun k' => if bytes_Equal k' k then x else v_storage v k' |>) w
  | transientStorageChange a k x =>
      t ← w_transient w;
      Some (w <| w_transient := Some (fun b k' => if (b =? a) && bytes_Equal k' k then x else t b k') |>)
  | refundChange r => Some (w <| w_refund := r |>)
  | addLogChange h =>
      let l := default [] (w_logs w !! h) in
      if zlen l =? 0 then None
      else Some (w <| w_logs := if zlen l =? 1 then delete h (w_logs w) else <[ h := take (length l - 1) l ]> (w_logs w) |>
                   <| w_logSize := u64 (w_logSize w - 1) |>)
  | addPreimageChange h => Some (w <| w_preimages := delete h (w_preimages w) |>)
  | accessListAddAccountChange a => Some (w <| w_access := DeleteAddress a (w_access w) |>)
  | accessListAddSlotChange a k => al ← DeleteSlot a k (w_access w); Some (w <| w_access := al |>)
  end.

Fixpoint wundo_all (es : list journalEntry) (w : World) : option World :=
  match es with [] => Some w | e :: es => w ← wundo e w; wundo_all es w end.

#[export] Instance w_set_proper : Proper ((=) ==> (≡) ==> (≡) ==> (≡)) w_set.
Proof.
  intros a ? <- v v' Hv w w' (Ha & Ht & E). split; [|done]. intros b. cbn. by destruct (b =? a).
Qed.

(** Two equivalent worlds with the same value replaced are equivalent. *)
Lemma equiv_account w w' a : w ≡ w' -> w_account w a ≡ w_account w' a.
Proof. intros (Ha & _). apply Ha. Qed.

(** Changes of a view that respect the equivalence. *)
Definition respects (f : AccountView -> AccountView) : Prop := forall v v', v ≡ v' -> f v ≡ f v'.

Lemma w_modify_proper a f w w' : respects f -> w ≡ w' -> w_modify a f w ≡ w_modify a f w'.
Proof.
  intros Hf Hw. unfold w_modify. pose proof (equiv_account _ _ a Hw) as Ha.
  destruct Ha as [v v' Hv|]; cbn; [|constructor]. constructor. rewrite Hw. by rewrite (Hf _ _ Hv).
Qed.

Lemma respects_storage k x : respects (fun v => v <| v_storage := fun k' => if bytes_Equal k' k then x else v_storage v k' |>).
Proof. view_split. intros k'. cbn. by rewrite Hs. Qed.

Lemma respects_balance b : respects (fun v => v <| v_balance := b |>).
Proof. view_split. Qed.

#[export] Instance wundo_proper e : Proper ((≡) ==> (≡)) (wundo e).
Proof.
  intros w w' Hw. pose proof Hw as (Ha & Ht & E). injection E as E1 E2 E3 E4 E5 E6 E7 E8.
  pose proof (equiv_fields _ _ Hw) as Hkeep.
  destruct e; cbn -[u64 zlen].
  - constructor. by rewrite Hw.
  - constructor. by rewrite Hw.
  - constructor. apply w_set_proper; [done| |done]. destruct (Ha account) as [v0 v0' Hv|]; constructor.
    revert Hv. revert v0 v0'. view_split.
  - apply w_modify_proper; [apply respects_balance|done].
  - apply w_modify_proper; [view_split|done].
  - apply w_modify_proper; [apply respects_storage|done].
  - apply w_modify_proper; [view_split|done].
  - constructor. apply Hkeep; cbn; congruence.
  - rewrite E5, E6. case_match; constructor. apply Hkeep; cbn -[u64 zlen]; congruence.
  - constructor. apply Hkeep; cbn; congruence.
  - by constructor.
  - constructor. apply Hkeep; cbn; congruence.
  - rewrite E8. destruct (DeleteSlot _ _ _); constructor. apply Hkeep; cbn; congruence.
  - unfold transient_equiv in Ht. destruct (w_transient w), (w_transient w'); try done; cbn; constructor.
    split; [done|]. split; [|cbn; congruence]. cbn. intros b k. case_match; [done|]. apply Ht.
Qed.

#[export] Instance wundo_all_proper es : Proper ((≡) ==> (≡)) (wundo_all es).
Proof.
  induction es as [|e es IH]; intros w w' Hw; cbn; [by constructor|].
  destruct (wundo_proper e _ _ Hw) as [? ? Hx|]; cbn; [|constructor]. by apply IH.
Qed.

Lemma wundo_all_app es es' w : wundo_all (es ++ es') w = wundo_all es w ≫= wundo_all es'.
Proof. revert w. induction es as [|e es IH]; intros w; cbn; [done|]. destruct (wundo e w); cbn; [apply IH|done]. Qed.
End undo.

(** ** Well-formed states *)
Section wf.
Context `{!Keccak} `{!Database}.

(** An object is under its own address and has a full code hash. *)
Definition object_ok (a : Z) (o : stateObject) : Prop := address o = a /\ zlen (acc_CodeHash (data o)) = 32.

(** What an entry relies on: the account it creates is not in the trie, the
    object it restores is well formed. *)
Definition entry_ok (t : gmap Z Account) (e : journalEntry) : Prop :=
  match e with
  | createObjectChange a => t !! a = None
  | resetObjectChange prev _ => zlen (acc_CodeHash (data prev)) = 32
  | codeChange _ _ h => zlen h = 32
  | _ => True
  end.

Record state_ok (s : StateDB) : Prop := {
  ok_objects : map_Forall object_ok (stateObjects s);
  ok_trie : map_Forall (fun _ d => zlen (acc_CodeHash d) = 0 \/ zlen (acc_CodeHash d) = 32) (trie s);
  ok_entries : Forall (entry_ok (trie s)) (entries (state_journal s))
}.

Lemma Keccak256Hash_length c : zlen (Keccak256Hash c) = 32.
Proof. unfold Keccak256Hash, zlen. by rewrite be_length. Qed.

Lemma emptyCodeHash_length : zlen emptyCodeHash = 32.
Proof. apply Keccak256Hash_length. Qed.

Lemma newObject_ok a d : zlen (acc_CodeHash d) = 0 \/ zlen (acc_CodeHash d) = 32 -> object_ok a (newObject a d).
Proof.
  intros Hd. split; [done|]. cbn -[zlen]. case_match eqn:E; [apply emptyCodeHash_length|]. bools. tauto.
Qed.

Lemma object_at_ok s a o : state_ok s -> object_at s a = Some o -> object_ok a o.
Proof.
  intros Hs. unfold object_at. destruct (stateObjects s !! a) as [o'|] eqn:Ho.
  - intros [= <-]. by apply (ok_objects _ Hs).
  - destruct (trie s !! a) as [d|] eqn:Hd; [|done]. intros [= <-]. apply newObject_ok. by eapply (ok_trie _ Hs).
Qed.

(** [s'] differs from [s] in its live objects only. *)
Definition same_but_objects (s s' : StateDB) : Prop := s' = s <| stateObjects := stateObjects s' |>.

Lemma setStateObject_world o s : world (setStateObject o s) ≡ w_set (address o) (live o) (world s).
Proof.
  split; [|by split]. intros a. cbn. unfold object_at. cbn. destruct (Z.eqb_spec a (address o)) as [->|Hne].
  - by rewrite lookup_insert_eq.
  - by rewrite lookup_insert_ne by done.
Qed.

Lemma setStateObject_ok o s : state_ok s -> zlen (acc_CodeHash (data o)) = 32 -> state_ok (setStateObject o s).
Proof. intros [H1 H2 H3] Ho. split; [|done|done]. by apply map_Forall_insert_2. Qed.

(** Loading an object shows nothing new. *)
Lemma getDeleted_spec a s :
  state_ok s -> let r := getDeletedStateObject a s in
  fst r = object_at s a /\ stateObjects (snd r) !! a = object_at s a /\ world (snd r) ≡ world s /\ state_ok (snd r) /\
  same_but_objects s (snd r).
Proof.
  intros Hs. unfold getDeletedStateObject. pose proof (object_at_ok s a) as Hok. unfold object_at in *.
  destruct (stateObjects s !! a) as [o|] eqn:Ho; cbn; [split_and!; [done..|by destruct s]|].
  destruct (trie s !! a) as [d|] eqn:Hd; cbn in *; [|split_and!; [done..|by destruct s]].
  destruct (Hok _ Hs eq_refl) as [_ Hc]. split_and!; [done|by rewrite lookup_insert_eq|..|done].
  - rewrite setStateObject_world. split; [|by split]. intros b. cbn. destruct (Z.eqb_spec b a) as [->|]; [|done].
    unfold object_at. by rewrite Ho, Hd.
  - by apply setStateObject_ok.
Qed.

Lemma getStateObject_spec a s :
  state_ok s -> let r := getStateObject a s in
  (forall o, fst r = Some o -> object_at s a = Some o /\ deleted o = false /\ object_ok a o) /\
  (fst r = None -> w_account (world s) a = None) /\
  w_account (world s) a = view_obj <$> fst r /\
  stateObjects (snd r) !! a = object_at s a /\ world (snd r) ≡ world s /\ state_ok (snd r) /\ same_but_objects s (snd r).
Proof.
  intros Hs. unfold getStateObject. destruct (getDeleted_spec a s Hs) as (H1 & H2 & H3 & H4 & H5).
  destruct (getDeletedStateObject a s) as [o s']. cbn in *. symmetry in H1. rewrite H1 in *. cbn. unfold live.
  destruct o as [o|]; cbn; [|by split_and!]. destruct (deleted o) eqn:Hd; [by split_and!|]. split_and!; try done.
  intros o' [= <-]. split; [done|]. split; [done|]. by apply (object_at_ok s).
Qed.

Lemma view_setState k x o :
  view_obj (setState k x o) ≡ (view_obj o) <| v_storage := fun k' => if bytes_Equal k' k then x else v_storage (view_obj o) k' |>.
Proof.
  split; [done|]. split; [|done]. intros k'. cbn. unfold storage_of. cbn. destruct (bytes_Equal k' k) eqn:E; bools.
  - subst. by rewrite lookup_insert_eq.
  - by rewrite lookup_insert_ne by done.
Qed.

(** Undoing leaves the journal and the revisions alone. *)
Definition frame (s s' : StateDB) : Prop :=
  trie s' = trie s /\ entries (state_journal s') = entries (state_journal s) /\
  validRevisions s' = validRevisions s /\ nextRevisionId s' = nextRevisionId s.

Lemma same_but_objects_frame s s' : same_but_objects s s' -> frame s s'.
Proof. unfold same_but_objects. intros ->. done. Qed.

Lemma with_object_spec a (f : stateObject -> stateObject) (g : AccountView -> AccountView) s :
  state_ok s -> (forall o, deleted (f o) = deleted o) -> (forall o, address (f o) = address o) ->
  (forall o, zlen (acc_CodeHash (data o)) = 32 -> zlen (acc_CodeHash (data (f o))) = 32) ->
  (forall o, view_obj (f o) ≡ g (view_obj o)) ->
  let r := (let (o, s) := getStateObject a s in match o with Some o => Some (setStateObject (f o) s) | None => None end) in
  world <$> r ≡ w_modify a g (world s) /\ (forall s', r = Some s' -> state_ok s' /\ frame s s').
Proof.
  intros Hs Hdel Haddr Hcode Hview. cbn zeta. destruct (getStateObject_spec a s Hs) as (H1 & _ & H3 & _ & H4 & H5 & H6).
  apply same_but_objects_frame in H6. unfold w_modify. rewrite H3.
  destruct (getStateObject a s) as [[o|] s1]; cbn in *; [|by split; [constructor|]].
  destruct (H1 _ eq_refl) as (_ & Hd & <- & Hc). split.
  - constructor. rewrite setStateObject_world, H4, Haddr. unfold live. rewrite Hdel, Hd.
    apply w_set_proper; [done| |done]. constructor. apply Hview.
  - intros s' [= <-]. split; [|done]. apply setStateObject_ok; auto.
Qed.

Lemma transient_Set_world a k x s :
  world <$> setTransientState a k x s ≡
  (t ← w_transient (world s);
   Some ((world s) <| w_transient := Some (fun b k' => if (b =? a) && bytes_Equal k' k then x else t b k') |>)).
Proof.
  unfold setTransientState, transient_Set. cbn. destruct (state_transient s) as [m|] eqn:Et; cbn; [|constructor]. constructor.
  split; [done|]. split; [|done]. cbn. intros b k'. unfold transient_Get. cbn.
  destruct (Z.eqb_spec b a) as [->|]; cbn; [rewrite lookup_insert_eq|by rewrite lookup_insert_ne by done]. cbn.
  unfold storage_get. destruct (bytes_Equal k' k) eqn:E; bools; [subst; by rewrite lookup_insert_eq|by rewrite lookup_insert_ne by done].
Qed.

Ltac ok_frame := intros ? [= <-]; split; [by match goal with H : state_ok _ |- _ => destruct H end; split|done].

Lemma revert_entry_world e s :
  state_ok s -> entry_ok (trie s) e ->
  world <$> revert_entry e s ≡ wundo e (world s) /\ (forall s', revert_entry e s = Some s' -> state_ok s' /\ frame s s').
Proof.
  intros Hs He. destruct e as [a|p pd|a p b|a b|a n|a k x|a c h|r|h|h|a|a|a k|a k x]; cbn [entry_ok] in He.
  - cbn. split.
    + constructor. split; [|by split]. intros b. cbn. unfold object_at. cbn. destruct (Z.eqb_spec b a) as [->|].
      * by rewrite lookup_delete_eq, He.
      * by rewrite lookup_delete_ne by done.
    + intros s' [= <-]. split; [|done]. destruct Hs as [H1 H2 H3]. split; cbn; [|done..]. by apply map_Forall_delete.
  - cbn. split.
    + constructor. rewrite <- setStateObject_world. by destruct pd.
    + intros s' [= <-]. split; [|by destruct pd]. pose proof (setStateObject_ok p s Hs He) as [H1 H2 H3]. by destruct pd.
  - cbn. destruct (getStateObject_spec a s Hs) as (H1 & _ & H3 & _ & H4 & H5 & H6).
    apply same_but_objects_frame in H6. cbn in H3. rewrite H3.
    destruct (getStateObject a s) as [[o|] s1]; cbn in *.
    + destruct (H1 _ eq_refl) as (_ & Hd & <- & Hc). split.
      * constructor. rewrite setStateObject_world, H4. unfold live. cbn. by rewrite Hd.
      * intros s' [= <-]. split; [|done]. by apply setStateObject_ok.
    + split; [|by intros s' [= <-]]. constructor. rewrite H4. split; [|by split]. intros b'. cbn.
      destruct (Z.eqb_spec b' a) as [->|]; [|done]. by rewrite H3.
  - by apply with_object_spec.
  - by apply with_object_spec.
  - apply with_object_spec; [done..|apply view_setState].
  - apply with_object_spec; try done; intros o; cbn -[zlen].
    + by rewrite BytesToHash_id.
    + by rewrite BytesToHash_id.
  - cbn. split; [reflexivity|ok_frame].
  - cbn -[u64 zlen]. case_match; (split; [reflexivity|]); [done|ok_frame].
  - cbn. split; [reflexivity|ok_frame].
  - cbn. split; [reflexivity|ok_frame].
  - cbn. split; [reflexivity|ok_frame].
  - cbn. destruct (DeleteSlot _ _ _); cbn; (split; [reflexivity|]); [ok_frame|done].
  - cbn [revert_entry]. split; [apply transient_Set_world|]. unfold setTransientState.
    destruct (transient_Set _ _ _ _); cbn; [ok_frame|done].
Qed.

Lemma frame_trans s1 s2 s3 : frame s1 s2 -> frame s2 s3 -> frame s1 s3.
Proof. unfold frame. intros (-> & -> & -> & ->). done. Qed.

Lemma journal_ok j s : state_ok s -> entries j = entries (state_journal s) -> state_ok (s <| state_journal := j |>).
Proof. intros [H1 H2 H3] E. split; cbn; [done..|by rewrite E]. Qed.

Lemma undirty_entries e j : entries (undirty e j) = entries j.
Proof. unfold undirty. by destruct (dirtied e). Qed.

Lemma revert_entries_world es s :
  state_ok s -> Forall (entry_ok (trie s)) es ->
  world <$> revert_entries es s ≡ wundo_all es (world s) /\
  (forall s', revert_entries es s = Some s' -> state_ok s' /\ frame s s').
Proof.
  revert s. induction es as [|e es IH]; intros s Hs Hes; cbn.
  { split; [reflexivity|]. by intros s' [= <-]. }
  apply Forall_cons_1 in Hes as [He Hes]. destruct (revert_entry_world e s Hs He) as [Hw Hf].
  destruct (revert_entry e s) as [s1|]; cbn in *; [|by destruct (wundo e (world s)); [inversion Hw|]].
  destruct (Hf _ eq_refl) as [Hs1 Hf1]. destruct (wundo e (world s)) as [w1|]; [|inversion Hw]. cbn.
  apply Some_equiv_inj in Hw. pose proof Hf1 as (Ht & _).
  destruct (IH (s1 <| state_journal := undirty e (state_journal s1) |>)) as [Hw2 Hf2].
  - by apply journal_ok; [|apply undirty_entries].
  - cbn. by rewrite Ht.
  - split.
    + rewrite Hw2. by rewrite <- Hw.
    + intros s' Hs'. destruct (Hf2 _ Hs') as [H1 H2]. split; [done|].
      eapply frame_trans; [exact Hf1|]. revert H2. unfold frame. cbn. by rewrite undirty_entries.
Qed.

(** ** Changes that the journal undoes *)

(** [s'] extends the journal of [s] by entries that take its world back. *)
Definition undoable (s s' : StateDB) : Prop :=
  state_ok s' /\ trie s' = trie s /\ validRevisions s' = validRevisions s /\ nextRevisionId s' = nextRevisionId s /\
  exists es, entries (state_journal s') = entries (state_journal s) ++ es /\
    wundo_all (reverse es) (world s') ≡ Some (world s).

Lemma undoable_refl s : state_ok s -> undoable s s.
Proof. intros Hs. split_and!; [done..|]. exists []. by rewrite app_nil_r. Qed.

Lemma undoable_trans s1 s2 s3 : undoable s1 s2 -> undoable s2 s3 -> undoable s1 s3.
Proof.
  intros (H1 & H2 & H3 & H4 & es & H5 & H6) (H1' & H2' & H3' & H4' & es' & H5' & H6').
  split_and!; [done|congruence..|]. exists (es ++ es'). split; [by rewrite H5', H5, app_assoc|].
  rewrite reverse_app, wundo_all_app. destruct (wundo_all (reverse es') (world s3)) as [w|]; [|inversion H6'].
  apply Some_equiv_inj in H6'. cbn. by rewrite H6', H6.
Qed.

Lemma undoable_frame s s' : frame s s' -> world s' ≡ world s -> state_ok s' -> undoable s s'.
Proof.
  intros (H1 & H2 & H3 & H4) Hw Hs. split_and!; [done..|]. exists []. rewrite app_nil_r. split; [done|]. cbn. by rewrite Hw.
Qed.

(** One entry whose undoing restores the world. *)
Lemma undoable_entry s s' e :
  state_ok s' -> trie s' = trie s -> validRevisions s' = validRevisions s -> nextRevisionId s' = nextRevisionId s ->
  entries (state_journal s') = entries (state_journal s) ++ [e] -> wundo e (world s') ≡ Some (world s) -> undoable s s'.
Proof.
  intros H1 H2 H3 H4 H5 H6. split_and!; [done..|]. exists [e]. split; [done|]. cbn.
  destruct (wundo e (world s')); [done|inversion H6].
Qed.

Lemma append_entries e j : entries (append_entry e j) = entries j ++ [e].
Proof. unfold append_entry. by destruct (dirtied e). Qed.

Lemma journal_append_ok e s : state_ok s -> entry_ok (trie s) e -> state_ok (journal_append e s).
Proof.
  intros [H1 H2 H3] He. split; cbn; [done..|]. rewrite append_entries. apply Forall_app. by split; [|constructor].
Qed.

Lemma w_set_set a v v' w : w_set a v (w_set a v' w) ≡ w_set a v w.
Proof. split; [|by split]. intros b. cbn. by destruct (b =? a). Qed.

Lemma w_set_id a v w : w_account w a ≡ v -> w_set a v w ≡ w.
Proof. intros Hv. split; [|by split]. intros b. cbn. destruct (Z.eqb_spec b a) as [->|]; [by symmetry|done]. Qed.

(** An object put in place of another, with an entry that puts the old one back. *)
Lemma undoable_replace s a e o' old :
  state_ok s -> entry_ok (trie s) e -> address o' = a -> deleted o' = false -> zlen (acc_CodeHash (data o')) = 32 ->
  w_account (world s) a ≡ old ->
  (forall w, w_account w a ≡ Some (view_obj o') -> wundo e w ≡ Some (w_set a old w)) ->
  let s' := setStateObject o' (journal_append e s) in
  undoable s s' /\ world s' ≡ w_set a (Some (view_obj o')) (world s).
Proof.
  intros Hs He <- Hd Hc Hold Hundo s'.
  assert (Hw : world s' ≡ w_set (address o') (Some (view_obj o')) (world s))
    by (unfold s'; rewrite setStateObject_world; unfold live; by rewrite Hd).
  split; [|done]. apply (undoable_entry _ _ e); try done.
  - apply setStateObject_ok; [by apply journal_append_ok|done].
  - apply append_entries.
  - rewrite Hundo; [constructor; rewrite Hw, w_set_set; by apply w_set_id|].
    rewrite (equiv_account _ _ _ Hw). cbn. by rewrite Z.eqb_refl.
Qed.

(** The live object under [a] changed by [f], with an entry that changes it back. *)
Lemma undoable_modify s a e o (f : stateObject -> stateObject) (g : AccountView -> AccountView) :
  state_ok s -> entry_ok (trie s) e -> object_at s a = Some o -> deleted o = false ->
  address (f o) = address o -> deleted (f o) = deleted o -> zlen (acc_CodeHash (data (f o))) = 32 ->
  (forall w, wundo e w = w_modify a g w) -> g (view_obj (f o)) ≡ view_obj o ->
  let s' := setStateObject (f o) (journal_append e s) in
  undoable s s' /\ world s' ≡ w_set a (Some (view_obj (f o))) (world s).
Proof.
  intros Hs He Ho Hd Ha Hdel Hc Hundo Hg s'. destruct (object_at_ok _ _ _ Hs Ho) as [<- _].
  assert (Hw : world s' ≡ w_set (address o) (Some (view_obj (f o))) (world s))
    by (unfold s'; rewrite setStateObject_world, Ha; unfold live; by rewrite Hdel, Hd).
  split; [|done]. apply (undoable_entry _ _ e); try done.
  - apply setStateObject_ok; [by apply journal_append_ok|done].
  - apply append_entries.
  - rewrite Hundo. unfold w_modify. pose proof (equiv_account _ _ (address o) Hw) as Hv. cbn in Hv.
    rewrite Z.eqb_refl in Hv. assert (Hv' : w_account (world s') (address o) = Some (view_obj (f o))).
    { unfold s'. cbn. unfold object_at. cbn. rewrite Ha, lookup_insert_eq. cbn. unfold live. by rewrite Hdel, Hd. }
    rewrite Hv'. cbn. constructor. rewrite Hw, w_set_set. apply w_set_id. cbn. rewrite Ho. cbn. unfold live. rewrite Hd.
    by constructor.
Qed.

Lemma view_new a : view_obj (setNonce 0 (newObject a zeroAccount)) = new_view.
Proof. done. Qed.

Lemma newObject_zero_ok a : zlen (acc_CodeHash (data (newObject a zeroAccount))) = 32.
Proof. apply emptyCodeHash_length. Qed.

Lemma object_at_set o s : object_at (setStateObject o s) (address o) = Some o.
Proof. unfold object_at. cbn. by rewrite lookup_insert_eq. Qed.

(** The new object of [createObject], or any live object put in its place. *)
Lemma createObject_spec a s f :
  state_ok s -> (forall o, address (f o) = address o /\ deleted (f o) = deleted o /\ acc_CodeHash (data (f o)) = acc_CodeHash (data o)) ->
  let '(o, prev, s1) := createObject a s in
  let s' := setStateObject (f o) s1 in
  o = setNonce 0 (newObject a zeroAccount) /\ view_obj <$> prev = w_account (world s) a /\ setStateObject o s1 = s1 /\
  undoable s s' /\ world s' ≡ w_set a (Some (view_obj (f o))) (world s).
Proof.
  intros Hs Hf. unfold createObject. destruct (getDeleted_spec a s Hs) as (H1 & _ & H3 & H4 & H5).
  apply same_but_objects_frame in H5. destruct (getDeletedStateObject a s) as [prev s0]. cbn in H1, H3, H4, H5.
  pose proof (undoable_frame _ _ H5 H3 H4) as Hu0. set (o := setNonce 0 (newObject a zeroAccount)).
  destruct (Hf o) as (Ha & Hd & Hc).
  assert (Hset : forall x, setStateObject (f o) (setStateObject o x) = setStateObject (f o) x).
  { intros x. unfold setStateObject. rewrite Ha. cbn. by rewrite insert_insert_eq. }
  assert (Hid : forall x, setStateObject o (setStateObject o x) = setStateObject o x).
  { intros x. unfold setStateObject. cbn. by rewrite insert_insert_eq. }
  assert (Hacc : w_account (world s) a ≡ w_account (world s0) a) by (symmetry; by apply equiv_account).
  destruct prev as [p|].
  - split; [done|]. split; [cbn; rewrite <- H1; cbn; unfold live; by destruct (deleted p)|]. split; [apply Hid|]. rewrite Hset.
    destruct (object_at_ok s a p Hs (eq_sym H1)) as [Hpa Hpc]. set (pd := bool_decide _). set (s1 := s0 <| stateObjectsDestruct := _ |>).
    assert (Hs1 : state_ok s1) by (destruct H4; by split).
    destruct (undoable_replace s1 a (resetObjectChange p pd) (f o) (live p)) as [Hu Hw]; try done.
    + rewrite Hc. exact (newObject_zero_ok a).
    + change (w_account (world s1) a) with (w_account (world s0) a). rewrite <- Hacc. cbn. by rewrite <- H1.
    + intros w _. cbn. by rewrite Hpa.
    + split; [|rewrite Hw; by rewrite <- H3]. eapply undoable_trans; [exact Hu0|]. eapply undoable_trans; [|exact Hu].
      by apply undoable_frame.
  - split; [done|]. split; [cbn; by rewrite <- H1|]. split; [apply Hid|]. rewrite Hset.
    destruct H5 as (Ht & _). assert (Hta : trie s !! a = None).
    { unfold object_at in H1. destruct (stateObjects s !! a); [done|]. by destruct (trie s !! a). }
    destruct (undoable_replace s0 a (createObjectChange a) (f o) None) as [Hu Hw]; try done.
    + cbn. by rewrite Ht.
    + rewrite Hc. exact (newObject_zero_ok a).
    + rewrite <- Hacc. cbn. by rewrite <- H1.
    + split; [by eapply undoable_trans|]. rewrite Hw. by rewrite H3.
Qed.

Lemma GetOrNew_spec a s :
  state_ok s -> let r := GetOrNewStateObject a s in
  undoable s (snd r) /\ object_at (snd r) a = Some (fst r) /\ deleted (fst r) = false /\ object_ok a (fst r) /\
  view_obj (fst r) = w_object a (world s) /\ world (snd r) ≡ w_set a (Some (view_obj (fst r))) (world s).
Proof.
  intros Hs. cbn zeta. unfold GetOrNewStateObject. destruct (getStateObject_spec a s Hs) as (H1 & H2 & H3 & H4 & H5 & H6 & H7).
  apply same_but_objects_frame in H7. destruct (getStateObject a s) as [[o|] s1]; cbn [fst snd] in *.
  - destruct (H1 _ eq_refl) as (Ho & Hd & Hok). unfold object_at at 1. rewrite H4, Ho. split_and!; try done.
    + by apply undoable_frame.
    + unfold w_object. by rewrite H3.
    + rewrite H5. symmetry. apply w_set_id. by rewrite H3.
  - pose proof (createObject_spec a s1 id H6 ltac:(done)) as Hc. destruct (createObject a s1) as [[o prev] s2].
    destruct Hc as (-> & _ & Hid & Hu & Hw). cbn [id fst snd] in *. rewrite Hid in *.
    split_and!; try done.
    + eapply undoable_trans; [|exact Hu]. by apply undoable_frame.
    + rewrite <- Hid. exact (object_at_set (setNonce 0 (newObject a zeroAccount)) s2).
    + unfold w_object. rewrite H2 by done. done.
    + by rewrite Hw, H5.
Qed.

(** A change of the object of [a], found or created. *)
Lemma update_spec a s (f : stateObject -> stateObject) (g h : AccountView -> AccountView) e :
  state_ok s -> let r := GetOrNewStateObject a s in
  let o := fst r in
  entry_ok (trie s) e -> address (f o) = address o -> deleted (f o) = deleted o -> zlen (acc_CodeHash (data (f o))) = 32 ->
  (forall w, wundo e w = w_modify a g w) -> g (view_obj (f o)) ≡ view_obj o -> view_obj (f o) ≡ h (view_obj o) ->
  let s' := setStateObject (f o) (journal_append e (snd r)) in
  undoable s s' /\ world s' ≡ w_update a h (world s).
Proof.
  intros Hs r o He Ha Hd Hc Hundo Hg Hh. destruct (GetOrNew_spec a s Hs) as (Hu & Ho & Hdel & Hok & Hv & Hw).
  fold r o in Hu, Ho, Hdel, Hok, Hv, Hw. pose proof Hu as (Hs1 & Ht & _).
  destruct (undoable_modify (snd r) a e o f g) as [Hu' Hw']; try done; [by rewrite Ht|].
  split; [by eapply undoable_trans|]. rewrite Hw', Hw, w_set_set. unfold w_update. rewrite <- Hv.
  apply w_set_proper; [done| |done]. by constructor.
Qed.

(** The object of [a] found or created, and nothing else. *)
Lemma no_update_spec a s (h : AccountView -> AccountView) :
  state_ok s -> let r := GetOrNewStateObject a s in
  view_obj (fst r) ≡ h (view_obj (fst r)) ->
  undoable s (snd r) /\ world (snd r) ≡ w_update a h (world s).
Proof.
  intros Hs r Hh. destruct (GetOrNew_spec a s Hs) as (Hu & Ho & Hdel & Hok & Hv & Hw). split; [done|].
  fold r in Hv, Hw. rewrite Hw. unfold w_update. rewrite <- Hv. apply w_set_proper; [done| |done]. by constructor.
Qed.

Lemma obj_SetBalance_spec a x s :
  state_ok s -> let r := GetOrNewStateObject a s in
  let s' := obj_SetBalance x (fst r) (snd r) in
  undoable s s' /\ world s' ≡ w_update a (fun v => v <| v_balance := x |>) (world s).
Proof.
  intros Hs. cbn zeta. destruct (GetOrNew_spec a s Hs) as (_ & _ & _ & [Ha Hc] & _). unfold obj_SetBalance. rewrite Ha.
  apply (update_spec a s (setBalance x) (fun v => v <| v_balance := acc_Balance (data (GetOrNewStateObject a s).1) |>)); done.
Qed.

Lemma AddBalance_spec a x s :
  state_ok s -> let s' := AddBalance a x s in
  undoable s s' /\ world s' ≡ w_update a (fun v => v <| v_balance := v_balance v + x |>) (world s).
Proof.
  intros Hs. cbn zeta. unfold AddBalance. destruct (GetOrNew_spec a s Hs) as (Hu & _ & _ & Hok & Hv & _).
  pose proof (obj_SetBalance_spec a (acc_Balance (data (GetOrNewStateObject a s).1) + x) s Hs) as [H1 H2].
  pose proof (no_update_spec a s (fun v => v <| v_balance := v_balance v + x |>) Hs) as H3. cbn zeta in *.
  destruct (GetOrNewStateObject a s) as [o s1]. cbn [fst snd] in *. unfold obj_AddBalance. destruct (Z.eqb_spec x 0) as [->|].
  - destruct H3 as [H3 H4]; [split; [cbn; by rewrite Z.add_0_r|done]|]. destruct (empty o); [|done].
    unfold obj_touch. destruct Hu as (Hs1 & _).
    assert (Hs2 : state_ok (journal_append (touchChange (address o)) s1)) by (by apply journal_append_ok).
    assert (Hu2 : undoable s1 (journal_append (touchChange (address o)) s1))
      by (apply (undoable_entry _ _ (touchChange (address o))); try done; apply append_entries).
    case_match; (split; [|exact H4]); [|by eapply undoable_trans].
    eapply undoable_trans; [exact H3|]. eapply undoable_trans; [exact Hu2|]. apply undoable_frame; [done..|].
    by apply journal_ok.
  - split; [done|]. rewrite H2. unfold w_update. by rewrite <- Hv.
Qed.

Lemma SubBalance_spec a x s :
  state_ok s -> let s' := SubBalance a x s in
  undoable s s' /\ world s' ≡ w_update a (fun v => v <| v_balance := v_balance v - x |>) (world s).
Proof.
  intros Hs. cbn zeta. unfold SubBalance. destruct (GetOrNew_spec a s Hs) as (Hu & _ & _ & Hok & Hv & _).
  pose proof (obj_SetBalance_spec a (acc_Balance (data (GetOrNewStateObject a s).1) - x) s Hs) as [H1 H2].
  pose proof (no_update_spec a s (fun v => v <| v_balance := v_balance v - x |>) Hs) as H3. cbn zeta in *.
  destruct (GetOrNewStateObject a s) as [o s1]. cbn [fst snd] in *. unfold obj_SubBalance. destruct (Z.eqb_spec x 0) as [->|].
  - apply H3. split; [cbn; by rewrite Z.sub_0_r|done].
  - split; [done|]. rewrite H2. unfold w_update. by rewrite <- Hv.
Qed.

Lemma SetNonce_spec a n s :
  state_ok s -> let s' := SetNonce a n s in
  undoable s s' /\ world s' ≡ w_update a (fun v => v <| v_nonce := n |>) (world s).
Proof.
  intros Hs. cbn zeta. unfold SetNonce. destruct (GetOrNew_spec a s Hs) as (_ & _ & _ & [Ha Hc] & _).
  pose proof (update_spec a s (setNonce n) (fun v => v <| v_nonce := acc_Nonce (data (GetOrNewStateObject a s).1) |>)) as Hup.
  destruct (GetOrNewStateObject a s) as [o s1]. cbn [fst snd] in *. rewrite Ha. by apply Hup.
Qed.

(** Code that has been read stays what it is when it is set again. *)
Lemma code_of_idem h c : code_of h (code_of h c) = code_of h c.
Proof. unfold code_of. destruct c; [done|]. destruct (bytes_Equal _ _); [done|]. by destruct (ContractCode _). Qed.

Lemma size_of_idem h c : size_of h (code_of h c) = size_of h c.
Proof. unfold size_of, code_of. destruct c; [done|]. destruct (bytes_Equal _ _); [done|]. by destruct (ContractCode _). Qed.

Lemma SetCode_spec a c s :
  state_ok s -> let s' := SetCode a c s in
  undoable s s' /\ world s' ≡ w_update a (fun v => v <| v_codehash := Keccak256Hash c |> <| v_code := Some c |>
                                                    <| v_codesize := zlen c |>) (world s).
Proof.
  intros Hs. cbn zeta. unfold SetCode. destruct (GetOrNew_spec a s Hs) as (_ & _ & _ & [Ha Hc] & _).
  pose proof (fun pc h => update_spec a s (fun o => setCode (Keccak256Hash c) (Some c) (snd (obj_Code o)))
    (fun v => v <| v_codehash := h |> <| v_code := code_of h pc |> <| v_codesize := size_of h pc |>)) as Hup. cbn zeta in Hup.
  destruct (GetOrNewStateObject a s) as [o s1]. cbn [fst snd] in *.
  destruct (obj_reads o zero_hash) as (Hcode & _). destruct (obj_reads_cache o zero_hash) as (Hv & _ & Hd & _ & Had & _ & Hda & _).
  destruct (obj_Code o) as [pc o1] eqn:Eo. cbn [fst snd] in *.
  specialize (Hup pc (acc_CodeHash (data o))). rewrite Had, Hda, Ha. apply Hup; try done.
  - destruct Hv as (E & Hs1 & Hs2). injection E as E1 E2 E3 E4 E5 E6. split; [|done]. cbn in *.
    rewrite Hcode, code_of_idem, size_of_idem. congruence.
  - destruct Hv as (E & Hs1 & Hs2). injection E as E1 E2 E3 E4 E5 E6. split; [|done]. cbn in *. congruence.
Qed.

Lemma SetState_spec a k x s :
  state_ok s -> let s' := SetState a k x s in
  undoable s s' /\
  world s' ≡ w_update a (fun v => v <| v_storage := fun k' => if bytes_Equal k' k then x else v_storage v k' |>) (world s).
Proof.
  intros Hs. cbn zeta. unfold SetState. destruct (GetOrNew_spec a s Hs) as (Hu & Ho & Hdel & [Ha Hc] & _ & Hw).
  pose proof (fun p => update_spec a s (fun o => setState k x (snd (obj_GetState k o)))
    (fun v => v <| v_storage := fun k' => if bytes_Equal k' k then p else v_storage v k' |>)) as Hup.
  pose proof (no_update_spec a s (fun v => v <| v_storage := fun k' => if bytes_Equal k' k then x else v_storage v k' |>) Hs) as Hno.
  cbn zeta in *. destruct (GetOrNewStateObject a s) as [o s1]. cbn [fst snd] in *.
  destruct (obj_reads o k) as (_ & Hget & _). destruct (obj_reads_cache o k) as (_ & Hv & _ & Hd & _ & Had & _ & Hda).
  destruct (obj_GetState k o) as [p o1] eqn:Eo. cbn [fst snd] in *.
  pose proof Hv as (Ev & Hv1 & Hv2). destruct (bytes_Equal p x) eqn:Ex; bools.
  - destruct Hno as [H1 H2]; [split; [done|]; split; [|done]; intros k'; cbn; destruct (bytes_Equal k' k) eqn:Ek; bools; [|done];
      subst k' x; by cbn in Hget|].
    assert (Hw1 : world (setStateObject o1 s1) ≡ world s1).
    { rewrite setStateObject_world, Had, Ha. apply w_set_id. cbn. rewrite Ho. cbn. unfold live. rewrite Hd, Hdel.
      constructor. by symmetry. }
    split; [|by rewrite Hw1]. eapply undoable_trans; [exact H1|]. destruct H1 as (Hs1 & _).
    apply undoable_frame; [done..|]. apply setStateObject_ok; [done|]. by rewrite Hda.
  - specialize (Hup p (fun v => v <| v_storage := fun k' => if bytes_Equal k' k then x else v_storage v k' |>)).
    rewrite Had, Ha. apply Hup; try done.
    + cbn. by rewrite Hda.
    + pose proof (view_setState k x o1) as (E & F & G). split; [rewrite <- Ev; exact E|]. split; [|done].
      intros k'. cbn. cbn in F, Hv1, Hget. rewrite F, Hv1. destruct (bytes_Equal k' k) eqn:Ek; bools; [by subst|done].
    + rewrite view_setState. split; [exact Ev|]. split; [|done]. intros k'. cbn in *. by rewrite Hv1.
Qed.

Lemma Suicide_spec a s :
  state_ok s -> let s' := snd (Suicide a s) in
  undoable s s' /\
  world s' ≡ w_set a ((fun v => v <| v_balance := 0 |> <| v_suicided := true |>) <$> w_account (world s) a) (world s).
Proof.
  intros Hs. cbn zeta. unfold Suicide. destruct (getStateObject_spec a s Hs) as (H1 & H2 & H3 & H4 & H5 & H6 & H7).
  apply same_but_objects_frame in H7. rewrite H3. destruct (getStateObject a s) as [[o|] s1]; cbn [fst snd fmap option_fmap option_map] in *.
  - destruct (H1 _ eq_refl) as (Ho & Hd & [Ha Hc]).
    destruct (undoable_replace s1 a (suicideChange a (suicided o) (acc_Balance (data o))) (setBalance 0 (o <| suicided := true |>))
      (Some (view_obj o))) as [Hu Hw]; try done.
    + rewrite (equiv_account _ _ a H5), H3. done.
    + intros w Hv. cbn. constructor. apply w_set_proper; [done| |done]. inversion Hv as [v v' Hx E1 E2|]. subst v'.
      cbn. constructor. destruct Hx as (E & Hx1 & Hx2). injection E as ? ? ? ? ? ?. split; [cbn; congruence|done].
    + split; [eapply undoable_trans; [by apply undoable_frame|exact Hu]|]. rewrite Hw. by rewrite H5.
  - split; [by apply undoable_frame|]. cbn. rewrite H5. symmetry. apply w_set_id. by rewrite H2.
Qed.

Lemma CreateAccount_spec a s :
  state_ok s -> let s' := CreateAccount a s in
  undoable s s' /\ world s' ≡ w_set a (Some (new_view <| v_balance := v_balance (w_object a (world s)) |>)) (world s).
Proof.
  intros Hs. cbn zeta. unfold CreateAccount.
  pose proof (createObject_spec a s id Hs ltac:(done)) as H0'.
  pose proof (fun b => createObject_spec a s (setBalance b) Hs ltac:(done)) as Hb.
  destruct (createObject a s) as [[o prev] s1]. destruct H0' as (-> & Hp & Hid & Hu & Hw). cbn [id] in *. rewrite Hid in *.
  unfold w_object. rewrite <- Hp. destruct prev as [p|]; cbn.
  - destruct (Hb (acc_Balance (data p))) as (_ & _ & _ & Hu' & Hw'). done.
  - done.
Qed.

(** ** The other fields *)
Record world_ok (w : World) : Prop := {
  ok_access : access_wf (w_access w);
  ok_logSize : is_u64 (w_logSize w);
  ok_logs h : w_logs w !! h <> Some []
}.

#[export] Instance world_ok_proper : Proper ((≡) ==> iff) world_ok.
Proof.
  assert (H1 : forall w w', w ≡ w' -> world_ok w -> world_ok w').
  { intros w w' (_ & _ & E) [H1 H2 H3]. injection E as ? ? ? ? E1 E2 ? E3. split; congruence. }
  intros w w' Hw. split; by apply H1.
Qed.

(** A change of the fields outside the accounts, with an entry that undoes it. *)
Lemma undoable_other s s' e :
  state_ok s -> entry_ok (trie s) e -> trie s' = trie s -> stateObjects s' = stateObjects s ->
  validRevisions s' = validRevisions s -> nextRevisionId s' = nextRevisionId s ->
  state_journal s' = append_entry e (state_journal s) -> wundo e (world s') ≡ Some (world s) -> undoable s s'.
Proof.
  intros Hs He Ht Ho Hr Hn Hj Hw. apply (undoable_entry _ _ e); try done.
  - destruct (journal_append_ok e s Hs He) as [H1 H2 H3]. split; [by rewrite Ho|by rewrite Ht|by rewrite Ht, Hj].
  - by rewrite Hj, append_entries.
Qed.

Lemma AddLog_spec l s :
  state_ok s -> world_ok (world s) -> undoable s (AddLog l s) /\ wexec (OAddLog l) (world s) = Some (world (AddLog l s)) /\
  world_ok (world (AddLog l s)).
Proof.
  intros Hs Hw. split; [|split; [done|]].
  - apply (undoable_other _ _ (addLogChange (thash s))); try done. cbn -[u64 zlen]. rewrite lookup_insert_eq. cbn -[u64 zlen].
    set (l' := default [] (logs s !! thash s)). match goal with |- context [l' ++ [?y]] => set (x := y) end.
    rewrite zlen_app. change (zlen [x]) with 1. pose proof (zlen_nonneg l'). destruct (Z.eqb_spec (zlen l' + 1) 0); [lia|].
    constructor. split; [done|]. split; [reflexivity|]. cbn -[u64 zlen].
    assert (Hlog : u64 (u64 (logSize s + 1) - 1) = logSize s)
      by (destruct Hw as [_ Hl _]; cbn in Hl; unfold is_u64, u64 in *; div_lia). rewrite Hlog. do 4 f_equal.
    pose proof (ok_logs _ Hw (thash s)) as Hl. cbn in Hl. destruct (Z.eqb_spec (zlen l' + 1) 1) as [E|E].
    + rewrite delete_insert_eq. apply delete_id. unfold l' in E. destruct (logs s !! thash s) as [[|y k]|] eqn:Ek; try done.
      cbn -[zlen] in E. pose proof (zlen_nonneg k). rewrite zlen_cons in E. lia.
    + rewrite insert_insert_eq. rewrite length_app, Nat.add_sub, take_app_length. apply insert_id. unfold l' in *.
      destruct (logs s !! thash s); [done|]. by cbn in E.
  - destruct Hw as [H1 H2 H3]. split; cbn -[u64]; [done|apply u64_range|].
    intros h. rewrite lookup_insert_Some. intros [[_ E]|[_ E]]; [by destruct (default [] (logs s !! thash s))|by apply (H3 h)].
Qed.

Lemma SetTransientState_spec a k x s :
  state_ok s ->
  world <$> SetTransientState a k x s ≡ wexec (OSetTransientState a k x) (world s) /\
  (forall s', SetTransientState a k x s = Some s' -> undoable s s' /\ w_access (world s') = w_access (world s) /\
    w_logs (world s') = w_logs (world s) /\ w_logSize (world s') = w_logSize (world s)).
Proof.
  intros Hs. unfold SetTransientState, GetTransientState. destruct (bytes_Equal _ x) eqn:Ex; bools.
  - split; [|intros s' [= <-]; split_and!; [by apply undoable_refl|done..]]. cbn in *.
    destruct (state_transient s) as [m|] eqn:Et; cbn.
    + constructor. split; [done|]. split; [|done]. cbn. rewrite Et. cbn. intros b k'. destruct ((b =? a) && bytes_Equal k' k) eqn:E; [|done].
      bools. by subst.
    + destruct (bytes_Equal zero_hash x) eqn:E; bools; [reflexivity|]. by destruct E.
  - pose proof (transient_Set_world a k x (journal_append (transientStorageChange a k (transient_Get a k (state_transient s))) s)) as Hw.
    split.
    + rewrite Hw. cbn. destruct (state_transient s) as [m|] eqn:Et; cbn; [reflexivity|].
      destruct (bytes_Equal zero_hash x) eqn:E; bools; [by destruct Ex|constructor].
    + intros s' E. rewrite E in Hw. cbn in Hw. unfold setTransientState, transient_Set in E.
      destruct (state_transient s) as [m|] eqn:Et; cbn in E; rewrite Et in E; cbn in E; [|done]. simplify_eq.
      split_and!; try done.
      apply (undoable_other _ _ (transientStorageChange a k (transient_Get a k (state_transient s)))); try done; [by rewrite Et|].
      cbn. constructor. split; [done|]. split; [|done]. cbn. rewrite Et. cbn. intros b k'.
      destruct ((b =? a) && bytes_Equal k' k) eqn:E; [bools; by subst|]. unfold transient_Get. cbn.
      destruct (Z.eqb_spec b a) as [->|]; [|by rewrite lookup_insert_ne by done]. rewrite lookup_insert_eq. cbn in *. bools.
      unfold storage_get. by rewrite lookup_insert_ne by done.
Qed.

Lemma AddSlotToAccessList_spec a k s :
  state_ok s -> world_ok (world s) -> exists s' al b c,
  AddSlotToAccessList a k s = Some s' /\ AddSlot a k (w_access (world s)) = Some (b, c, al) /\ access_wf al /\
  undoable s s' /\ world s' = (world s) <| w_access := al |>.
Proof.
  intros Hs Hw. destruct (AddSlot_spec _ a k (ok_access _ Hw)) as (ac & sc & al & E & Hal & Hno & Hyes).
  unfold AddSlotToAccessList. cbn in E. rewrite E. do 4 eexists. split; [done|]. split; [done|]. split; [done|].
  destruct sc.
  2:{ destruct Hno as [-> ->]; [done|]. split; [|done]. by apply undoable_frame; [| |destruct Hs; split]. }
  destruct (Hyes eq_refl) as (al1 & Hdel & Hback).
  assert (Hu : forall s1, state_ok s1 -> state_accessList s1 = al -> undoable
    (s1 <| state_accessList := al1 |>) (journal_append (accessListAddSlotChange a k) s1)).
  { intros s1 Hs1 Ha. apply (undoable_other _ _ (accessListAddSlotChange a k)); try done; [by destruct Hs1; split|].
    cbn. rewrite Ha, Hdel. cbn. reflexivity. }
  destruct ac; (split; [|done]).
  - set (s1 := s <| state_accessList := al |>).
    assert (Hs1 : state_ok (journal_append (accessListAddAccountChange a) s1)) by (apply journal_append_ok; [by destruct Hs; split|done]).
    assert (H1 : undoable s (journal_append (accessListAddAccountChange a) s1 <| state_accessList := al1 |>)).
    { apply (undoable_other _ _ (accessListAddAccountChange a)); try done. cbn. rewrite Hback. constructor.
      split; [done|]. by split. }
    eapply undoable_trans; [exact H1|]. by apply Hu.
  - assert (H1 : s <| state_accessList := al |> <| state_accessList := al1 |> = s) by (rewrite Hback; by destruct s).
    pose proof (Hu (s <| state_accessList := al |>)) as Hx. rewrite H1 in Hx. apply Hx; [by destruct Hs; split|done].
Qed.

Lemma w_update_fields a f w :
  w_access (w_update a f w) = w_access w /\ w_logs (w_update a f w) = w_logs w /\ w_logSize (w_update a f w) = w_logSize w.
Proof. done. Qed.

Lemma world_ok_fields w w' :
  world_ok w -> w_access w' = w_access w -> w_logs w' = w_logs w -> w_logSize w' = w_logSize w -> world_ok w'.
Proof. intros [H1 H2 H3] E1 E2 E3. split; [by rewrite E1|by rewrite E3|by rewrite E2]. Qed.

Definition is_change (o : op) : bool := match o with OSnapshot | ORevert _ => false | _ => true end.

(** A change and its image, with the journal that undoes it; a panic of one is
    a panic of the other. *)
Definition step_ok (s : StateDB) (r : option StateDB) (r' : option World) : Prop :=
  match r, r' with
  | Some s', Some w' => undoable s s' /\ world s' ≡ w' /\ world_ok w'
  | None, None => True
  | _, _ => False
  end.

Lemma step_pure s s' w' :
  world_ok (world s) -> undoable s s' /\ world s' ≡ w' ->
  w_access w' = w_access (world s) -> w_logs w' = w_logs (world s) -> w_logSize w' = w_logSize (world s) ->
  step_ok s (Some s') (Some w').
Proof. intros Hw [H1 H2] E1 E2 E3. split; [done|]. split; [done|]. by eapply world_ok_fields. Qed.

Lemma step_equiv s r r' :
  world <$> r ≡ r' -> (forall s', r = Some s' -> undoable s s' /\ world_ok (world s')) -> step_ok s r r'.
Proof.
  intros He Hr. destruct r as [s'|], r' as [w'|]; cbn in *; inversion He; try done. destruct (Hr _ eq_refl) as [Hu Hw].
  apply Some_equiv_inj in He. split; [done|]. split; [done|]. by rewrite <- He.
Qed.

Lemma exec_step o s :
  state_ok s -> world_ok (world s) -> is_change o = true -> step_ok s (exec o s) (wexec o (world s)).
Proof.
  intros Hs Hw Ho. destruct o; try done; cbn [exec wexec].
  - apply step_pure; [done|by apply AddBalance_spec|done..].
  - apply step_pure; [done|by apply SubBalance_spec|done..].
  - apply step_pure; [done| |done..]. unfold SetBalance. pose proof (obj_SetBalance_spec a x s Hs) as Hb. cbn zeta in Hb.
    by destruct (GetOrNewStateObject a s).
  - apply step_pure; [done|by apply SetNonce_spec|done..].
  - apply step_pure; [done|by apply SetCode_spec|done..].
  - apply step_pure; [done|by apply SetState_spec|done..].
  - apply step_pure; [done|by apply Suicide_spec|done..].
  - apply step_pure; [done|by apply CreateAccount_spec|done..].
  - apply step_pure; [done| |done..]. destruct (getStateObject_spec a s Hs) as (_ & _ & _ & _ & H1 & H2 & H3).
    split; [|done]. by apply undoable_frame; [apply same_but_objects_frame| |].
  - destruct (SetTransientState_spec a key value s Hs) as [H1 H2]. cbn [wexec] in H1.
    apply step_equiv; [exact H1|]. intros s' E. destruct (H2 _ E) as (Hu & E3 & E4 & E5). split; [done|].
    by eapply world_ok_fields.
  - apply step_pure; [done| |done..]. split; [|reflexivity]. by apply (undoable_other _ _ (refundChange (refund s))).
  - unfold SubRefund. cbn. destruct (refund s <? g); [done|]. apply step_pure; [done| |done..]. split; [|reflexivity].
    by apply (undoable_other _ _ (refundChange (refund s))).
  - destruct (AddLog_spec l s Hs Hw) as (H1 & H2 & H3). split; [done|]. split; [reflexivity|exact H3].
  - unfold AddPreimage. cbn. destruct (preimages s !! h) eqn:Eh; cbn.
    + apply step_pure; [done| |done..]. split; [by apply undoable_refl|reflexivity].
    + apply step_pure; [done| |done..]. split; [|reflexivity]. apply (undoable_other _ _ (addPreimageChange h)); try done.
      cbn. rewrite delete_insert_id by done. reflexivity.
  - unfold AddAddressToAccessList. cbn. pose proof (AddAddress_wf _ a (ok_access _ Hw)) as Hal.
    pose proof (AddAddress_undo (state_accessList s) a) as Hun. cbn in Hal.
    destruct (AddAddress a (state_accessList s)) as [b al] eqn:E. cbn in *. split; [|split].
    + destruct b.
      * apply (undoable_other _ _ (accessListAddAccountChange a)); try done. cbn. by rewrite Hun.
      * unfold AddAddress in E. destruct (addresses (state_accessList s) !! a); [|done]. injection E as <-.
        by apply undoable_frame; [| |destruct Hs; split].
    + by destruct b.
    + destruct Hw as [H1 H2 H3]. by split.
  - destruct (AddSlotToAccessList_spec a slot s Hs Hw) as (s' & al & b & c & -> & E & Hal & Hu & Hw'). rewrite E.
    split; [done|]. split; [by rewrite Hw'|]. destruct Hw as [H1 H2 H3]. by split.
Qed.

(** The operations respect the equivalence of worlds. *)
Lemma w_object_proper a w w' : w ≡ w' -> w_object a w ≡ w_object a w'.
Proof. intros Hw. unfold w_object. by destruct (equiv_account _ _ a Hw). Qed.

Lemma w_update_proper a f w w' : respects f -> w ≡ w' -> w_update a f w ≡ w_update a f w'.
Proof.
  intros Hf Hw. unfold w_update. apply w_set_proper; [done| |done]. constructor. by apply Hf, w_object_proper.
Qed.

#[export] Instance wexec_proper o : Proper ((≡) ==> (≡)) (wexec o).
Proof.
  intros w w' Hw. pose proof Hw as (Ha & Ht & E). injection E as E1 E2 E3 E4 E5 E6 E7 E8.
  pose proof (equiv_fields _ _ Hw) as Hkeep.
  destruct o; cbn -[u64 zlen]; try (constructor; apply w_update_proper; [|done]; view_split).
  - intros k. cbn. by rewrite Hs.
  - constructor. apply w_set_proper; [done| |done]. destruct (Ha a) as [v0 v0' Hv|]; constructor. revert v0 v0' Hv. view_split.
  - constructor. apply w_set_proper; [done| |done]. constructor. destruct (w_object_proper a _ _ Hw) as (E & _).
    injection E as _ -> _ _ _ _. done.
  - by constructor.
  - unfold transient_equiv in Ht. destruct (w_transient w), (w_transient w'); try done.
    + constructor. split; [done|]. split; [|cbn; congruence]. cbn. intros b k. case_match; [done|]. apply Ht.
    + case_match; by constructor.
  - constructor. apply Hkeep; cbn -[u64]; rewrite ?E1, ?E2, ?E3, ?E4, ?E5, ?E6, ?E7, ?E8; done.
  - rewrite E1. case_match; constructor. apply Hkeep; cbn -[u64]; rewrite ?E1, ?E2, ?E3, ?E4, ?E5, ?E6, ?E7, ?E8; done.
  - constructor. apply Hkeep; cbn -[u64]; rewrite ?E1, ?E2, ?E3, ?E4, ?E5, ?E6, ?E7, ?E8; done.
  - constructor. apply Hkeep; cbn; rewrite ?E1, ?E2, ?E3, ?E4, ?E5, ?E6, ?E7, ?E8; done.
  - constructor. apply Hkeep; cbn; rewrite ?E1, ?E2, ?E3, ?E4, ?E5, ?E6, ?E7, ?E8; done.
  - rewrite E8. destruct (AddSlot _ _ _) as [[[? ?] ?]|]; constructor. apply Hkeep; cbn; rewrite ?E1, ?E2, ?E3, ?E4, ?E5, ?E6, ?E7, ?E8; done.
  - by constructor.
  - by constructor.
Qed.
End wf.
