(* ===== verification/StateRefine.v ===== *)
(** * The journalled state refines the specification with saved copies

    The simulation between [StateDB] and [Spec], the refinement for any
    sequence of operations, and what it gives for the code that snapshots and
    reverts around a call. *)
From S2P Require Import Prelude Rlp Header Common AccessList StateDB StateSpec.

Section refine.
Context `{!Keccak} `{!Database}.

(** The getters read the world. *)
Lemma getters_world s a k :
  state_ok s ->
  GetBalance a s = from_option v_balance 0 (w_account (world s) a) /\
  GetNonce a s = from_option v_nonce 0 (w_account (world s) a) /\
  GetState a k s = from_option (fun v => v_storage v k) zero_hash (w_account (world s) a) /\
  GetCommittedState a k s = from_option (fun v => v_committed v k) zero_hash (w_account (world s) a) /\
  GetCode a s = from_option (fun v => default [] (v_code v)) [] (w_account (world s) a) /\
  GetCodeSize a s = from_option v_codesize 0 (w_account (world s) a) /\
  GetCodeHash a s = from_option (fun v => BytesToHash (v_codehash v)) zero_hash (w_account (world s) a) /\
  HasSuicided a s = from_option v_suicided false (w_account (world s) a) /\
  Exist a s = bool_decide (is_Some (w_account (world s) a)).
Proof.
  intros Hs. destruct (getStateObject_spec a s Hs) as (_ & _ & E & _).
  unfold GetBalance, GetNonce, GetState, GetCommittedState, GetCode, GetCodeSize, GetCodeHash, HasSuicided, Exist. rewrite E.
  destruct (fst (getStateObject a s)) as [o|]; [|done]. destruct (obj_reads o k) as (H1 & H2 & H3).
  cbn -[view_obj]. rewrite H1, H2, H3. by split_and!.
Qed.

(** ** The simulation *)
Definition saved_by (s : StateDB) (r : revision) (c : Z * World) : Prop :=
  rev_id r = c.1 /\ (journalIndex r <= length (entries (state_journal s)))%nat /\ world_ok c.2 /\
  wundo_all (reverse (drop (journalIndex r) (entries (state_journal s)))) (world s) ≡ Some c.2.

Definition rev_lt (r r' : revision) : Prop := rev_id r < rev_id r' /\ (journalIndex r <= journalIndex r')%nat.

Record sim (s : StateDB) (S : Spec) : Prop := {
  sim_state : state_ok s;
  sim_ok : world_ok (world s);
  sim_world : world s ≡ cur S;
  sim_next : nextRevisionId s = next S;
  sim_saved : Forall2 (saved_by s) (validRevisions s) (saved S);
  sim_sorted : StronglySorted rev_lt (validRevisions s);
  sim_fresh : Forall (fun r => rev_id r < nextRevisionId s) (validRevisions s)
}.

Lemma sim_ids s S : sim s S -> rev_id <$> validRevisions s = (saved S).*1.
Proof. intros Hs. induction (sim_saved _ _ Hs) as [|r c l cs (E & _) _ IH]; [done|]. cbn. by rewrite E, IH. Qed.

(** A change keeps what reverting to an earlier revision gives. *)
Lemma saved_by_undoable s s' r c : undoable s s' -> saved_by s r c -> saved_by s' r c.
Proof.
  intros (_ & _ & _ & _ & es & E & Hu) (H1 & H2 & H3 & H4). split; [done|]. split; [|split; [done|]].
  - rewrite E, length_app. lia.
  - rewrite E, drop_app_le, reverse_app, wundo_all_app by done.
    destruct (wundo_all (reverse es) (world s')) as [w|]; [|inversion Hu]. apply Some_equiv_inj in Hu. cbn. by rewrite Hu, H4.
Qed.

Lemma sim_change s s' S w :
  sim s S -> undoable s s' -> world s' ≡ w -> world_ok w -> sim s' (S <| cur := w |>).
Proof.
  intros [H1 H2 H3 H4 H5 H6 H7] Hu Hw Hok. pose proof Hu as (G1 & G2 & G3 & G4 & _). split; cbn; try done.
  - by rewrite Hw.
  - by rewrite G4.
  - rewrite G3. eapply Forall2_impl; [exact H5|]. intros r c. by apply saved_by_undoable.
  - by rewrite G3.
  - by rewrite G3, G4.
Qed.

Lemma sim_Snapshot s S :
  sim s S -> sim (snd (Snapshot s)) {| cur := cur S; saved := saved S ++ [(next S, cur S)]; next := next S + 1 |}.
Proof.
  intros [H1 H2 H3 H4 H5 H6 H7]. split; cbn; try done.
  - by destruct H1; split.
  - by rewrite H4.
  - apply Forall2_app; [exact H5|]. constructor; [|constructor]. split; [done|]. split; [done|]. split; [by rewrite <- H3|].
    cbn. by rewrite drop_all, H3.
  - apply StronglySorted_app. split; [|split; [done|by repeat constructor]]. intros r r' Hr ->%list_elem_of_singleton. cbn.
    rewrite Forall_forall in H7. split; [by apply H7|].
    apply list_elem_of_lookup_1 in Hr as [i Hi]. destruct (Forall2_lookup_l _ _ _ _ _ H5 Hi) as (c & _ & Hc). apply Hc.
  - apply Forall_app. split; [|by repeat constructor; cbn; lia]. eapply Forall_impl; [exact H7|]. cbn. lia.
Qed.

(** Searching the revisions by their increasing ids finds the saved copy. *)
Lemma search_restore id l cs :
  Forall2 (fun r c => rev_id r = c.1) l cs -> StronglySorted rev_lt l ->
  match l !! search_revision id l with
  | Some r => if rev_id r =? id then exists w, cs !! search_revision id l = Some (id, w) /\
                                       restore id cs = Some (take (search_revision id l) cs, w)
              else restore id cs = None
  | None => restore id cs = None
  end.
Proof.
  induction 1 as [|r [i w] l cs E Hl IH]; intros Hs; cbn; [done|]. apply StronglySorted_inv in Hs as [Hs Hr]. cbn in E. subst i.
  specialize (IH Hs). destruct (Z.leb_spec id (rev_id r)) as [Hle|Hlt]; cbn.
  - destruct (Z.eqb_spec (rev_id r) id) as [->|Hne]; [by eexists|].
    assert (Hnone : restore id cs = None); [|by rewrite Hnone]. clear IH.
    assert (Hbig : Forall (fun c => id < c.1) cs).
    { clear -Hl Hr Hle. revert Hr. induction Hl as [|r' [j x] l cs E Hl IH]; constructor; apply Forall_cons_1 in Hr as [[Hr _] Hr'];
        cbn in *; [lia|by apply IH]. }
    clear -Hbig. induction Hbig as [|[j x] cs Hj _ IH]; cbn in *; [done|]. destruct (Z.eqb_spec j id); [lia|]. by rewrite IH.
  - destruct (Z.eqb_spec (rev_id r) id); [lia|]. destruct (l !! search_revision id l) as [r'|]; [|by rewrite IH].
    destruct (rev_id r' =? id); [|by rewrite IH]. destruct IH as (w' & H1 & H2). exists w'. by rewrite H2.
Qed.

Lemma sorted_take l i r :
  StronglySorted rev_lt l -> l !! i = Some r -> StronglySorted rev_lt (take i l) /\ Forall (fun r' => rev_lt r' r) (take i l).
Proof.
  intros Hs Hi. rewrite <- (take_drop_middle l i r Hi) in Hs. apply StronglySorted_app in Hs as (Hlt & Hs & _).
  split; [done|]. apply Forall_forall. intros r' Hr'. apply Hlt; [done|]. left.
Qed.

Lemma sim_Revert id s S :
  sim s S -> match RevertToSnapshot id s, restore id (saved S) with
             | Some s', Some r => sim s' {| cur := snd r; saved := fst r; next := next S |}
             | None, None => True
             | _, _ => False
             end.
Proof.
  intros [H1 H2 H3 H4 H5 H6 H7]. unfold RevertToSnapshot.
  assert (Hids : Forall2 (fun r c => rev_id r = c.1) (validRevisions s) (saved S)) by (eapply Forall2_impl; [exact H5|]; by intros r c (? & _)).
  pose proof (search_restore id _ _ Hids H6) as Hsr. set (idx := search_revision id (validRevisions s)) in *.
  destruct (validRevisions s !! idx) as [r|] eqn:Hr; [|by rewrite Hsr]. destruct (rev_id r =? id); cbn; [|by rewrite Hsr].
  destruct Hsr as (w & Hw & ->). destruct (Forall2_lookup_l _ _ _ _ _ H5 Hr) as (c & Hc & Hid & Hle & Hcok & Hundo).
  assert (c = (id, w)) as -> by congruence. cbn in Hundo, Hcok. set (n := journalIndex r) in *.
  set (es := drop n (entries (state_journal s))) in *.
  assert (Hes : Forall (entry_ok (trie s)) (reverse es)) by (apply Forall_reverse, Forall_drop, (ok_entries _ H1)).
  destruct (revert_entries_world (reverse es) s H1 Hes) as [Hrw Hrf]. unfold journal_revert. fold n es.
  destruct (revert_entries (reverse es) s) as [s1|]; cbn [fmap option_fmap option_map mbind option_bind] in *.
  2:{ rewrite Hundo in Hrw. inversion Hrw. }
  destruct (Hrf _ eq_refl) as [Hs1 (F1 & F2 & F3 & F4)]. rewrite Hundo in Hrw. apply Some_equiv_inj in Hrw.
  cbn [fst snd]. match goal with |- sim ?x _ => set (s2 := x) end.
  assert (Hw2 : world s2 ≡ w) by exact Hrw.
  assert (He2 : entries (state_journal s2) = take n (entries (state_journal s))) by (cbn; by rewrite F2).
  assert (Hr2 : validRevisions s2 = take idx (validRevisions s)) by (cbn; by rewrite F3).
  destruct (sorted_take _ _ _ H6 Hr) as [Hsort Hbelow]. split; cbn [cur saved next]; try done.
  - destruct Hs1 as [K1 K2 K3]. split; [done..|]. rewrite He2. rewrite F2 in K3. cbn. by apply Forall_take.
  - by rewrite Hw2.
  - cbn. by rewrite F4.
  - rewrite Hr2. apply Forall2_same_length_lookup_2; [by rewrite !length_take, (Forall2_length _ _ _ H5)|].
    intros i r' c' [Hr' Hi]%lookup_take_Some [Hc' _]%lookup_take_Some.
    destruct (Forall2_lookup_lr _ _ _ _ _ _ H5 Hr' Hc') as (G1 & G2 & G3 & G4).
    destruct (Forall_lookup_1 _ _ i r' Hbelow ltac:(by rewrite lookup_take_lt)) as [_ Hji]. fold n in Hji. split; [done|]. rewrite He2. split; [rewrite length_take; lia|]. split; [done|].
    rewrite <- (take_drop n (entries (state_journal s))), drop_app_le, reverse_app, wundo_all_app in G4 by (rewrite length_take; lia).
    fold es in G4. destruct (wundo_all (reverse es) (world s)) as [w'|]; [|inversion Hundo].
    apply Some_equiv_inj in Hundo. cbn in G4. by rewrite Hw2, <- Hundo.
  - by rewrite Hr2.
  - rewrite Hr2. cbn. rewrite F4. by apply Forall_take.
Qed.

(** ** Sequences of operations *)
Fixpoint run {A} (f : op -> A -> option A) (ops : list op) (a : A) : option A :=
  match ops with [] => Some a | o :: ops => a ← f o a; run f ops a end.

Lemma run_app {A} (f : op -> A -> option A) ops ops' a : run f (ops ++ ops') a = run f ops a ≫= run f ops'.
Proof. revert a. induction ops as [|o ops IH]; intros a; cbn; [done|]. destruct (f o a); cbn; [apply IH|done]. Qed.

Lemma sim_exec o s S :
  sim s S -> match exec o s, sexec o S with
             | Some s', Some S' => sim s' S'
             | None, None => True
             | _, _ => False
             end.
Proof.
  intros Hsim. destruct (is_change o) eqn:Hch.
  - pose proof (exec_step o s (sim_state _ _ Hsim) (sim_ok _ _ Hsim) Hch) as Hst.
    assert (Hse : sexec o S = (w ← wexec o (cur S); Some (S <| cur := w |>))) by (by destruct o). rewrite Hse.
    pose proof (wexec_proper o _ _ (sim_world _ _ Hsim)) as Hp. unfold step_ok in Hst.
    destruct (exec o s) as [s'|], (wexec o (world s)) as [w|]; try done; inversion Hp as [? w' Hw E1 E2|]; cbn; [|done].
    destruct Hst as (Hu & Hw' & Hok). apply (sim_change s); [done..|by rewrite Hw'|by rewrite <- Hw].
  - destruct o; try done; cbn.
    + by apply sim_Snapshot.
    + pose proof (sim_Revert id s S Hsim) as Hr. by destruct (RevertToSnapshot id s), (restore id (saved S)).
Qed.

Lemma sim_run ops s S :
  sim s S -> match run exec ops s, run sexec ops S with
             | Some s', Some S' => sim s' S'
             | None, None => True
             | _, _ => False
             end.
Proof.
  revert s S. induction ops as [|o ops IH]; intros s S Hs; cbn; [done|]. pose proof (sim_exec o s S Hs) as Ho.
  destruct (exec o s), (sexec o S); try done. by apply IH.
Qed.

(** A state without snapshots, as a transaction starts from. *)
Definition fresh (s : StateDB) : Prop := state_ok s /\ world_ok (world s) /\ validRevisions s = [].

Definition spec_of (s : StateDB) : Spec := {| cur := world s; saved := []; next := nextRevisionId s |}.

Lemma sim_fresh_state s : fresh s -> sim s (spec_of s).
Proof. intros (H1 & H2 & H3). split; try done; rewrite H3; constructor. Qed.

(** ** Snapshots around a sequence of operations *)

(** The operations revert only to snapshots from [id] on: the ones taken after
    the snapshot below [id]. *)
Definition within (id : Z) (o : op) : Prop := match o with ORevert i => id <= i | _ => True end.

Lemma restore_within id l c l' :
  Forall (fun x => x.1 < id) l -> restore id (l ++ c :: l') = if c.1 =? id then Some (l, c.2) else
    match restore id l' with Some r => Some (l ++ c :: r.1, r.2) | None => None end.
Proof.
  induction 1 as [|[i w] l Hi _ IH]; cbn in *.
  - destruct c as [j w]. cbn. destruct (j =? id); [done|]. by destruct (restore id l').
  - destruct (Z.eqb_spec i id); [lia|]. rewrite IH. destruct (c.1 =? id); [done|]. by destruct (restore id l').
Qed.

Lemma sexec_within o S S' l c l' :
  saved S = l ++ c :: l' -> Forall (fun x => x.1 < c.1) l -> within (c.1 + 1) o -> sexec o S = Some S' ->
  exists l'', saved S' = l ++ c :: l''.
Proof.
  intros E Hl Hw He.
  assert (Hch : forall w : option World, (w ← w; Some (S <| cur := w |>)) = Some S' -> exists l'', saved S' = l ++ c :: l'').
  { intros [w|]; [|done]. intros [= <-]. by exists l'. }
  destruct o; try (by eapply Hch; exact He).
  - injection He as <-. cbn. rewrite E, <- app_assoc. by eexists.
  - cbn in Hw, He. rewrite E, restore_within in He by (eapply Forall_impl; [exact Hl|]; cbn; lia).
    destruct (Z.eqb_spec c.1 id); [lia|]. destruct (restore id l') as [r|]; [|done]. injection He as <-. by eexists.
Qed.

Lemma srun_within ops S S' l c l' :
  saved S = l ++ c :: l' -> Forall (fun x => x.1 < c.1) l -> Forall (within (c.1 + 1)) ops -> run sexec ops S = Some S' ->
  exists l'', saved S' = l ++ c :: l''.
Proof.
  revert S l'. induction ops as [|o ops IH]; intros S l' E Hl Hw; cbn; [intros [= <-]; by eexists|].
  apply Forall_cons_1 in Hw as [Ho Hops]. destruct (sexec o S) as [S1|] eqn:Eo; [|done]. cbn.
  destruct (sexec_within o S S1 l c l' E Hl Ho Eo) as [l1 E1]. by apply (IH S1 l1).
Qed.

(** Reverting to a snapshot after operations that keep it. *)
Lemma revert_snapshot s S ops s' :
  sim s S -> Forall (within (nextRevisionId s + 1)) ops -> run exec ops (snd (Snapshot s)) = Some s' ->
  exists s'' n, RevertToSnapshot (nextRevisionId s) s' = Some s'' /\ sim s'' {| cur := cur S; saved := saved S; next := n |}.
Proof.
  intros Hsim Hops Hrun. pose proof (sim_Snapshot s S Hsim) as Hsnap. pose proof (sim_run ops _ _ Hsnap) as Hr.
  rewrite Hrun in Hr. set (S0 := {| cur := cur S; saved := saved S ++ [(next S, cur S)]; next := next S + 1 |}) in *.
  destruct (run sexec ops S0) as [S'|] eqn:ES; [|done]. rewrite (sim_next _ _ Hsim) in *.
  assert (Hlow : Forall (fun x => x.1 < next S) (saved S)).
  { pose proof (sim_fresh _ _ Hsim) as Hf. rewrite (sim_next _ _ Hsim) in Hf. pose proof (sim_saved _ _ Hsim) as Hs.
    apply Forall_forall. intros c Hc. apply list_elem_of_lookup_1 in Hc as [i Hi].
    destruct (Forall2_lookup_r _ _ _ _ _ Hs Hi) as (r & Hri & Hid & _). rewrite <- Hid. by apply (Forall_lookup_1 _ _ _ _ Hf Hri). }
  destruct (srun_within ops S0 S' (saved S) (next S, cur S) [] eq_refl Hlow Hops ES) as [l'' E'].
  pose proof (sim_Revert (next S) s' S' Hr) as Hrev. rewrite E', restore_within in Hrev by done. cbn in Hrev. rewrite Z.eqb_refl in Hrev.
  destruct (RevertToSnapshot (next S) s') as [s''|]; [|done]. by exists s'', (next S').
Qed.
End refine.

(** ** Finishing a transaction *)
Section finalise.
Context `{!Keccak} `{!Database} `{!RangeOrder}.

Definition finalised (d : bool) (o : stateObject) : stateObject :=
  if suicided o || (d && empty o) then o <| deleted := true |> else finalise o.

Lemma finalise_objects d l s a :
  NoDup l -> stateObjects (foldl (finalise_one d) s l) !! a =
    if bool_decide (a ∈ l) then finalised d <$> stateObjects s !! a else stateObjects s !! a.
Proof.
  revert s. induction l as [|b l IH]; intros s Hl; [done|]. apply NoDup_cons in Hl as [Hb Hl]. cbn [foldl]. rewrite IH by done.
  assert (E : stateObjects (finalise_one d s b) !! a = if decide (a = b) then finalised d <$> stateObjects s !! a else stateObjects s !! a).
  { unfold finalise_one, finalised. destruct (decide (a = b)) as [->|Hab].
    - destruct (stateObjects s !! b) as [o|] eqn:Ho; cbn; [by rewrite lookup_insert_eq|done].
    - destruct (stateObjects s !! b) as [o|] eqn:Ho; cbn; [by rewrite lookup_insert_ne|done]. }
  rewrite E. destruct (decide (a = b)) as [->|Hab].
  - rewrite bool_decide_eq_false_2 by done. rewrite bool_decide_eq_true_2 by left. done.
  - destruct (decide (a ∈ l)) as [Hin|Hin].
    + rewrite !bool_decide_eq_true_2 by (by try right). done.
    + rewrite !bool_decide_eq_false_2; [done| |done]. by intros [->|?]%elem_of_cons.
Qed.

Lemma foldl_finalise_fields d l s :
  let s' := foldl (finalise_one d) s l in
  trie s' = trie s /\ refund s' = refund s /\ logs s' = logs s /\ state_journal s' = state_journal s /\
  state_accessList s' = state_accessList s /\ state_transient s' = state_transient s /\ preimages s' = preimages s.
Proof.
  revert s. induction l as [|b l IH]; intros s; [done|]. cbn [foldl]. destruct (IH (finalise_one d s b)) as (-> & -> & -> & -> & -> & -> & ->).
  unfold finalise_one. by destruct (stateObjects s !! b).
Qed.

Lemma view_finalise o : view_obj (finalise o) ≡ (view_obj o) <| v_committed := v_storage (view_obj o) |>.
Proof.
  assert (Hk : forall k, committed_of (finalise o) k = storage_of o k).
  { intros k. unfold committed_of, storage_of, committed_of. cbn. rewrite lookup_union.
    by destruct (dirtyStorage o !! k), (pendingStorage o !! k). }
  split; [done|]. split; intros k; cbn; [|apply Hk]. unfold storage_of at 1. cbn. apply Hk.
Qed.

(** An account is empty in the sense of EIP-161. *)
Definition view_empty (v : AccountView) : bool :=
  (v_nonce v =? 0) && (v_balance v =? 0) && bytes_Equal (v_codehash v) emptyCodeHash.

Lemma empty_view o : empty o = view_empty (view_obj o).
Proof. done. Qed.

(** An account after [Finalise]: removed when it has been destroyed or is an
    empty one to be deleted; otherwise its storage is what it was and is now the
    committed one. *)
Definition settled (d : bool) (v : AccountView) : option AccountView :=
  if v_suicided v || (d && view_empty v) then None else Some (v <| v_committed := v_storage v |>).

Lemma clear_world s : world (clearJournalAndRefund s) ≡ (world s) <| w_refund := refund (clearJournalAndRefund s) |>.
Proof. unfold clearJournalAndRefund. by destruct (0 <? zlen (entries (state_journal s))). Qed.

Lemma Finalise_account d s a :
  w_account (world (Finalise d s)) a ≡
  if bool_decide (a ∈ (range_map (dirties (state_journal s))).*1 /\ is_Some (stateObjects s !! a))
  then w_account (world s) a ≫= settled d else w_account (world s) a.
Proof.
  unfold Finalise. set (l := (range_map (dirties (state_journal s))).*1). set (s1 := foldl (finalise_one d) s l).
  rewrite (equiv_account _ _ a (clear_world s1)). cbn. unfold object_at.
  pose proof (finalise_objects d l s a (NoDup_range_map_fst _)) as E. fold s1 in E. rewrite E.
  destruct (foldl_finalise_fields d l s) as (Et & _). fold s1 in Et. rewrite Et. destruct (stateObjects s !! a) as [o|] eqn:Ho; cbn.
  2:{ rewrite (bool_decide_eq_false_2 (_ /\ _)); [by case_bool_decide|]. intros [_ []]. done. }
  case_bool_decide as Hl.
  - rewrite bool_decide_eq_true_2 by (split; [done|by eexists]). cbn. unfold finalised, settled, live. destruct (deleted o) eqn:Hd; cbn.
    + destruct (suicided o || (d && empty o)); cbn; rewrite ?Hd; done.
    + rewrite empty_view. destruct (suicided o || _); cbn; rewrite ?Hd; constructor. apply view_finalise.
  - rewrite (bool_decide_eq_false_2 (_ /\ _)); [done|]. by intros [? _].
Qed.

Lemma Finalise_fresh d s : state_ok s -> world_ok (world s) -> fresh (Finalise d s).
Proof.
  intros Hs Hw. unfold Finalise. set (l := (range_map (dirties (state_journal s))).*1). set (s1 := foldl (finalise_one d) s l).
  destruct (foldl_finalise_fields d l s) as (E1 & E2 & E3 & E4 & E5 & E6 & E7). fold s1 in E1, E2, E3, E4, E5, E6, E7.
  assert (Hobj : map_Forall object_ok (stateObjects s1)).
  { intros a o Ho. pose proof (finalise_objects d l s a (NoDup_range_map_fst _)) as E. fold s1 in E. rewrite Ho in E.
    pose proof (ok_objects _ Hs a) as Hok. destruct (stateObjects s !! a) as [o'|]; [|by case_match]. specialize (Hok _ eq_refl).
    case_match; [|by simplify_eq]. cbn in E. injection E as ->. unfold finalised, object_ok in *. by case_match. }
  assert (Hn : logSize s1 = logSize s).
  { clear. unfold s1. generalize s. induction l as [|b l IH]; intros s0; [done|]. cbn [foldl]. rewrite IH.
    unfold finalise_one. by destruct (stateObjects s0 !! b). }
  unfold clearJournalAndRefund. rewrite E4. destruct Hs as [G1 G2 G3], Hw as [W1 W2 W3].
  destruct (0 <? zlen (entries (state_journal s))); (split; [|split; [|done]]); split; cbn;
    rewrite ?E1, ?E3, ?E4, ?E5, ?Hn; first [done|constructor].
Qed.
End finalise.

(** ** Properties *)
Section properties.
Context `{!Keccak} `{!Database}.

(** C38: the journalled state implements saving copies.  For every sequence of
    balance, nonce, code, storage, log, refund, access-list and transient-storage
    changes, account creations and self-destructions, snapshots and reverts, a
    state without snapshots shows the same world at the end as the specification
    in which a snapshot saves a copy of the world and a revert restores it, and
    one of them panics exactly when the other does. *)
Theorem journal_refines_copies (ops : list op) (s : StateDB) :
  fresh s -> world <$> run exec ops s ≡ cur <$> run sexec ops (spec_of s).
Proof.
  intros Hs. pose proof (sim_run ops s (spec_of s) (sim_fresh_state s Hs)) as Hr.
  destruct (run exec ops s) as [s'|], (run sexec ops (spec_of s)) as [S'|]; try done; cbn; constructor. apply Hr.
Qed.

(** a snapshot taken at any reachable state can be reverted after any
    further operations that only revert to later snapshots: reverting does not
    panic, every getter shows what it showed when the snapshot was taken, and
    the same snapshots are valid as then. *)
Theorem revert_restores (ops0 ops : list op) (s0 s s' : StateDB) :
  fresh s0 -> run exec ops0 s0 = Some s -> Forall (within (fst (Snapshot s) + 1)) ops ->
  run exec ops (snd (Snapshot s)) = Some s' ->
  exists s'', RevertToSnapshot (fst (Snapshot s)) s' = Some s'' /\ world s'' ≡ world s /\
    rev_id <$> validRevisions s'' = rev_id <$> validRevisions s /\
    forall a k, GetBalance a s'' = GetBalance a s /\ GetNonce a s'' = GetNonce a s /\ GetState a k s'' = GetState a k s /\
      GetCode a s'' = GetCode a s /\ Exist a s'' = Exist a s.
Proof.
  intros H0' Hrun Hin Hrun'. pose proof (sim_run ops0 s0 (spec_of s0) (sim_fresh_state s0 H0')) as Hr. rewrite Hrun in Hr.
  destruct (run sexec ops0 (spec_of s0)) as [S|]; [|done].
  destruct (revert_snapshot s S ops s' Hr Hin Hrun') as (s'' & n & Hrev & Hsim). exists s''. split; [exact Hrev|].
  assert (Hw : world s'' ≡ world s) by (rewrite (sim_world _ _ Hsim); symmetry; apply (sim_world _ _ Hr)). split; [done|].
  split; [by rewrite (sim_ids _ _ Hsim), (sim_ids _ _ Hr)|]. intros a k.
  destruct (getters_world s'' a k (sim_state _ _ Hsim)) as (-> & -> & -> & _ & -> & _ & _ & _ & ->).
  destruct (getters_world s a k (sim_state _ _ Hr)) as (-> & -> & -> & _ & -> & _ & _ & _ & ->).
  destruct (equiv_account _ _ a Hw) as [v v' (E & Hst & _)|]; [|done]. injection E as ? ? ? ? ? ?. cbn.
  split_and!; congruence.
Qed.

(** at the end of a transaction [Finalise] settles exactly the accounts
    marked dirty: one that was destroyed (or is empty, when empty accounts are
    deleted) is gone, any other keeps its data and its storage becomes the
    committed one; accounts not marked are unchanged.  The journal is cleared
    and no snapshot is left. *)
Theorem Finalise_settles `{!RangeOrder} (d : bool) (s : StateDB) :
  state_ok s -> world_ok (world s) -> entries (state_journal s) <> [] ->
  fresh (Finalise d s) /\ GetRefund (Finalise d s) = 0 /\
  forall a, w_account (world (Finalise d s)) a ≡
    if bool_decide (is_Some (dirties (state_journal s) !! a) /\ is_Some (stateObjects s !! a))
    then w_account (world s) a ≫= settled d else w_account (world s) a.
Proof.
  intros Hs Hw He. split; [by apply Finalise_fresh|]. split.
  - unfold GetRefund, Finalise, clearJournalAndRefund. match goal with |- context [foldl ?f s ?l] => destruct (foldl_finalise_fields d l s) as (_ & _ & _ & -> & _) end.
    destruct (Z.ltb_spec 0 (zlen (entries (state_journal s)))); [done|]. destruct He. by apply zlen_0_nil.
  - intros a. rewrite Finalise_account. erewrite bool_decide_ext; [done|].
    assert (Hd : a ∈ (range_map (dirties (state_journal s))).*1 <-> is_Some (dirties (state_journal s) !! a)); [|by rewrite Hd].
    rewrite list_elem_of_fmap. split.
    + intros ([b n] & -> & Hin%elem_of_range_map). by eexists.
    + intros [n Hn]. exists (a, n). split; [done|]. by apply elem_of_range_map.
Qed.
End properties.

(** ** Witnesses *)
Module ToyState.
Definition db : Database := {| OpenStorageTrie := fun _ => ∅; ContractCode := fun _ => None |}.
#[local] Existing Instance toy_keccak.
#[local] Existing Instance db.

(** Account 7 holds 100. *)
Definition start : StateDB := {|
  trie := {[ 7 := {| acc_Nonce := 1; acc_Balance := 100; acc_Root := emptyRoot; acc_CodeHash := [] |} ]};
  stateObjects := ∅; stateObjectsPending := ∅; stateObjectsDirty := ∅; stateObjectsDestruct := ∅; refund := 0;
  thash := zero_hash; bhash := zero_hash; txIndex := 0; logs := ∅; logSize := 0; preimages := ∅;
  state_accessList := newAccessList; state_transient := newTransientStorage; state_journal := newJournal;
  validRevisions := []; nextRevisionId := 0 |}.

Lemma start_fresh : fresh start.
Proof.
  split; [|split; [|done]].
  - split; [apply map_Forall_empty| |constructor]. apply map_Forall_singleton. by left.
  - split; [|done|]; cbn.
    + split; cbn; [|done|constructor]. intros a i. by rewrite lookup_empty.
    + intros h. by rewrite lookup_empty.
Qed.

Definition ops0 : list op := [OSubBalance 7 10; OAddBalance 8 10].
Definition ops : list op := [OSubBalance 7 30; OAddBalance 9 30; OSnapshot; OSetNonce 9 4; ORevert 1; OSetState 8 [1] [2]; OSuicide 7].
Definition final : StateDB := default start (run exec ops0 start).

Lemma ops_within : Forall (within (fst (Snapshot final) + 1)) ops.
Proof.
  change (fst (Snapshot final)) with 0. unfold ops. repeat (apply Forall_cons; split; [cbn; try lia; exact I|]). apply Forall_nil_2.
Qed.
End ToyState.

#[local] Existing Instance toy_keccak.
#[local] Existing Instance ToyState.db.

Lemma journal_refines_copies_witness :
  world <$> run exec (OSnapshot :: ToyState.ops0) ToyState.start ≡
  cur <$> run sexec (OSnapshot :: ToyState.ops0) (spec_of ToyState.start).
Proof. apply journal_refines_copies. exact ToyState.start_fresh. Defined.

(** After paying out account 7, destroying it and creating account 9, the
    snapshot brings its 90 back. *)
Lemma revert_restores_witness :
  exists s' s'', run exec ToyState.ops (snd (Snapshot ToyState.final)) = Some s' /\
    RevertToSnapshot (fst (Snapshot ToyState.final)) s' = Some s'' /\
    GetBalance 7 s' = 0 /\ GetBalance 7 s'' = 90 /\ Exist 9 s' = true /\ Exist 9 s'' = false.
Proof.
  destruct (run exec ToyState.ops (snd (Snapshot ToyState.final))) as [s'|] eqn:E; [|exfalso; revert E; by vm_compute].
  destruct (revert_restores ToyState.ops0 ToyState.ops ToyState.start ToyState.final s' ToyState.start_fresh ltac:(by vm_compute)
    ToyState.ops_within E) as (s'' & Hr & _ & _ & Hg).
  exists s', s''. destruct (Hg 7 zero_hash) as (Hb & _). destruct (Hg 9 zero_hash) as (_ & _ & _ & _ & Hx). rewrite Hb, Hx.
  assert (E' : (fun s => (GetBalance 7 s, Exist 9 s)) <$> run exec ToyState.ops (snd (Snapshot ToyState.final)) = Some (0, true))
    by (vm_compute; reflexivity).
  rewrite E in E'. injection E' as E1 E2. rewrite E1, E2. split_and!; [done|exact Hr|done..].
Defined.

Lemma Finalise_settles_witness :
  let s := ToyState.final in
  fresh (@Finalise _ list_range_order true s) /\ GetRefund (@Finalise _ list_range_order true s) = 0 /\
  w_account (world (@Finalise _ list_range_order true s)) 9 ≡ w_account (world s) 9.
Proof.
  pose proof (sim_run ToyState.ops0 _ _ (sim_fresh_state _ ToyState.start_fresh)) as Hr.
  assert (E : run exec ToyState.ops0 ToyState.start = Some ToyState.final) by (by vm_compute). rewrite E in Hr.
  destruct (run sexec ToyState.ops0 (spec_of ToyState.start)) as [S|]; [|done].
  destruct (@Finalise_settles _ _ list_range_order true ToyState.final (sim_state _ _ Hr) (sim_ok _ _ Hr) ltac:(by vm_compute)) as (H1 & H2 & H3).
  split; [exact H1|]. split; [exact H2|]. exact (H3 9).
Defined.
