(* ===== verification/TrieKeys.v ===== *)
(** * [trie/encoding.go]

    The encodings of trie keys.  A key is a sequence of bytes; inside the trie it
    is a sequence of nibbles closed by the terminator 16; on disk a part of it is
    compact, two nibbles to a byte after a flag that says whether their number is
    odd and whether the terminator follows.  [None] is a panic. *)
From S2P Require Import Prelude Rlp.

Definition hasTerm (s : bytes) : bool := bool_decide (last s = Some 16).

(** [s[:len(s)-1]] *)
Definition without_last (s : bytes) : bytes := take (length s - 1) s.

(** The bytes written for pairs of nibbles; an odd one is read out of range. *)
Fixpoint decodeNibbles (nibbles : bytes) : option bytes :=
  match nibbles with
  | [] => Some []
  | [_] => None
  | a :: b :: nibbles => bs ← decodeNibbles nibbles; Some (Z.lor (u8 (Z.shiftl a 4)) b :: bs)
  end.

Definition hexToCompact (hex : bytes) : option bytes :=
  let terminator := if hasTerm hex then 1 else 0 in
  let hex := if hasTerm hex then without_last hex else hex in
  let flag := u8 (Z.shiftl terminator 5) in
  if Z.land (zlen hex) 1 =? 1 then
    match hex with
    | [] => None
    | nibble :: hex => bs ← decodeNibbles hex; Some (Z.lor (Z.lor flag (Z.shiftl 1 4)) nibble :: bs)
    end
  else bs ← decodeNibbles hex; Some (flag :: bs).

Definition nibbles_of (str : bytes) : bytes := flat_map (fun b => [b / 16; b mod 16]) str.
Definition keybytesToHex (str : bytes) : bytes := nibbles_of str ++ [16].

Definition compactToHex (compact : bytes) : bytes :=
  match compact with
  | [] => compact
  | _ =>
      let base := keybytesToHex compact in
      let flag := List.hd 0 base in
      let base := if flag <? 2 then without_last base else base in
      drop (Z.to_nat (2 - Z.land flag 1)) base
  end.

Definition hexToKeybytes (hex : bytes) : option bytes :=
  let hex := if hasTerm hex then without_last hex else hex in
  if negb (Z.land (zlen hex) 1 =? 0) then None else decodeNibbles hex.

Fixpoint prefixLen (a b : bytes) : nat :=
  match a, b with
  | x :: a, y :: b => if x =? y then S (prefixLen a b) else O
  | _, _ => O
  end.

(** ** Nibbles *)
Definition nibble (x : Z) : Prop := 0 <= x < 16.
Definition nibbles (s : bytes) : Prop := Forall nibble s.

(** The key of a whole path. *)
Definition terminated (k : bytes) : Prop := exists s, k = s ++ [16] /\ nibbles s.

Lemma nibble_byte a b : nibble a -> nibble b -> Z.lor (u8 (Z.shiftl a 4)) b = a * 16 + b.
Proof.
  unfold nibble. intros Ha Hb. rewrite u8_id by (rewrite Z.shiftl_mul_pow2; lia). by rewrite lor_shiftl by lia.
Qed.

Lemma without_last_snoc s x : without_last (s ++ [x]) = s.
Proof. unfold without_last. rewrite length_app. replace (length s + length [x] - 1)%nat with (length s) by (cbn; lia). apply take_app_length. Qed.

Lemma hasTerm_snoc s x : hasTerm (s ++ [x]) = (x =? 16).
Proof. unfold hasTerm. rewrite last_snoc. destruct (Z.eqb_spec x 16) as [->|]; [by apply bool_decide_eq_true_2|]. apply bool_decide_eq_false_2. congruence. Qed.

Lemma hasTerm_nibbles s : nibbles s -> hasTerm s = false.
Proof.
  intros Hs. unfold hasTerm. apply bool_decide_eq_false_2. intros E. apply last_Some in E as [s' ->].
  apply Forall_app in Hs as [_ Hs]. apply Forall_cons_1 in Hs as [Hs _]. unfold nibble in Hs. lia.
Qed.

Lemma zodd_length (s : bytes) : Z.odd (zlen s) = Nat.odd (length s).
Proof.
  induction s as [|x s IH]; [done|]. rewrite zlen_cons. cbn [length]. rewrite Z.odd_add, IH, Nat.odd_succ, <- Nat.negb_odd.
  by destruct (Nat.odd (length s)).
Qed.

Lemma odd_length (s : bytes) : (Z.land (zlen s) 1 =? 1) = Nat.odd (length s).
Proof. change 1 with (Z.ones 1) at 1. rewrite Z.land_ones by lia. change (2 ^ 1) with 2. rewrite Zmod_odd, zodd_length. by destruct (Nat.odd _). Qed.

Lemma even_length (s : bytes) : negb (Z.land (zlen s) 1 =? 0) = Nat.odd (length s).
Proof. change 1 with (Z.ones 1). rewrite Z.land_ones by lia. change (2 ^ 1) with 2. rewrite Zmod_odd, zodd_length. by destruct (Nat.odd _). Qed.

Lemma nibbles_of_nibbles b : wf_bytes b -> nibbles (nibbles_of b).
Proof.
  intros Hb. induction Hb as [|x b Hx _ IH]; [constructor|]. unfold nibbles, nibble in *. cbn in *.
  constructor; [div_lia|]. constructor; [div_lia|done].
Qed.

Lemma nibbles_of_length b : length (nibbles_of b) = (2 * length b)%nat.
Proof. induction b as [|x b IH]; [done|]. cbn [nibbles_of flat_map app length]. fold (nibbles_of b). lia. Qed.

Lemma pairs_ind (P : bytes -> Prop) :
  P [] -> (forall x, P [x]) -> (forall x y s, P s -> P (x :: y :: s)) -> forall s, P s.
Proof.
  intros H0 H1 H2 s. assert (P s /\ forall x, P (x :: s)) as [? _]; [|done]. induction s as [|y s [IH1 IH2]]; [by split|].
  split; [apply IH2|]. intros x. by apply H2.
Qed.

Lemma decodeNibbles_even s :
  nibbles s -> Nat.odd (length s) = false -> exists b, decodeNibbles s = Some b /\ nibbles_of b = s /\ wf_bytes b.
Proof.
  induction s as [|x|x y s IH] using pairs_ind; intros Hs Ho; [exists []; repeat split; constructor|done|]. cbn [length Nat.odd Nat.even] in Ho.
  apply Forall_cons_1 in Hs as [Hx Hs]. apply Forall_cons_1 in Hs as [Hy Hs]. destruct (IH Hs) as (b & E & Eb & Hb); [exact Ho|].
  cbn [decodeNibbles]. rewrite E. cbn [mbind option_bind]. eexists. split; [done|]. rewrite nibble_byte by done. unfold nibble in *.
  cbn [nibbles_of flat_map app]. fold (nibbles_of b). rewrite Eb. split; [f_equal; [div_lia|]; f_equal; div_lia|]. constructor; [lia|done].
Qed.

Lemma decode_nibbles_of b : wf_bytes b -> decodeNibbles (nibbles_of b) = Some b.
Proof.
  induction 1 as [|x b Hx _ IH]; [done|]. cbn [nibbles_of flat_map app decodeNibbles]. fold (nibbles_of b). rewrite IH. cbn [mbind option_bind]. cbn in Hx. rewrite nibble_byte by (unfold nibble; div_lia). do 2 f_equal. div_lia.
Qed.

(** The compact form of [s], with the terminator if [t]. *)
Definition flag_of (t odd : bool) : Z := (if t then 32 else 0) + (if odd then 16 else 0).

Lemma compact_back t odd x b :
  nibble x -> (odd = false -> x = 0) ->
  compactToHex (flag_of t odd + x :: b) = (if odd then [x] else []) ++ nibbles_of b ++ (if t then [16] else []).
Proof.
  intros Hx Ho. unfold nibble in Hx. unfold compactToHex, keybytesToHex. cbn [nibbles_of flat_map app]. fold (nibbles_of b). cbn [List.hd].
  assert (E1 : (flag_of t odd + x) / 16 = (if t then 2 else 0) + (if odd then 1 else 0)) by (unfold flag_of; destruct t, odd; div_lia).
  assert (E2 : (flag_of t odd + x) mod 16 = x) by (unfold flag_of; destruct t, odd; div_lia). rewrite E1, E2.
  rewrite !app_comm_cons, without_last_snoc. destruct t, odd; cbn -[nibbles_of]; rewrite ?app_nil_r; done.
Qed.

Lemma compact_forth t s :
  nibbles s -> exists b odd x, hexToCompact (s ++ if t : bool then [16] else []) = Some (flag_of t odd + x :: b) /\ nibble x /\ wf_bytes b /\
    (odd = false -> x = 0) /\ (if odd : bool then [x] else []) ++ nibbles_of b = s.
Proof.
  intros Hs. unfold hexToCompact.
  assert (E : hasTerm (s ++ if t then [16] else []) = t) by (destruct t; [apply hasTerm_snoc|rewrite app_nil_r; by apply hasTerm_nibbles]).
  rewrite E. replace (if t then without_last _ else _) with s by (destruct t; [by rewrite without_last_snoc|by rewrite app_nil_r]).
  rewrite odd_length. destruct (Nat.odd (length s)) eqn:Eo.
  - destruct s as [|x s]; [done|]. apply Forall_cons_1 in Hs as [Hx Hs]. cbn [length] in Eo.
    destruct (decodeNibbles_even s Hs) as (b & -> & <- & Hb); [by rewrite Nat.odd_succ, <- Nat.negb_odd, negb_true_iff in Eo|].
    exists b, true, x. cbn [mbind option_bind]. split_and!; try done. do 2 f_equal. unfold nibble in Hx.
    replace (Z.lor (u8 (Z.shiftl (if t then 1 else 0) 5)) (Z.shiftl 1 4)) with (Z.shiftl (if t then 3 else 1) 4) by by destruct t.
    rewrite lor_shiftl by lia. unfold flag_of. destruct t; lia.
  - destruct (decodeNibbles_even s Hs Eo) as (b & -> & <- & Hb). exists b, false, 0. cbn [mbind option_bind].
    split_and!; try done. by destruct t.
Qed.

Lemma keybytes_back key : wf_bytes key -> hexToKeybytes (keybytesToHex key) = Some key.
Proof.
  intros Hk. unfold hexToKeybytes, keybytesToHex. rewrite hasTerm_snoc. change (16 =? 16) with true. cbv iota.
  rewrite without_last_snoc, even_length, nibbles_of_length, Nat.odd_even. by apply decode_nibbles_of.
Qed.

Lemma keybytes_terminated key : wf_bytes key -> terminated (keybytesToHex key).
Proof. intros Hk. exists (nibbles_of key). split; [done|by apply nibbles_of_nibbles]. Qed.

Lemma keybytes_inj a b : wf_bytes a -> wf_bytes b -> keybytesToHex a = keybytesToHex b -> a = b.
Proof. intros Ha%keybytes_back Hb%keybytes_back E. rewrite E in Ha. congruence. Qed.

Lemma compact_exists s (t : bool) :
  nibbles s -> exists compact, hexToCompact (s ++ if t then [16] else []) = Some compact /\
    compactToHex compact = (s ++ if t then [16] else []) /\ wf_bytes compact /\ compact <> [].
Proof.
  intros Hs. destruct (compact_forth t s Hs) as (b & odd & x & E & Hx & Hb & Ho & Es). eexists. split; [exact E|].
  split; [by rewrite compact_back, app_assoc, Es|]. split; [|done]. constructor; [|done]. unfold flag_of, nibble in *. destruct t, odd; lia.
Qed.

(** ** Properties *)

(** the encodings of keys are faithful.  Turning key bytes into nibbles and
    back gives the key; the compact form of a part of a key, with or without the
    terminator, exists and turns back into that part, so different parts have
    different compact forms; and both forms are bytes. *)
Theorem keys_roundtrip :
  (forall key, wf_bytes key -> hexToKeybytes (keybytesToHex key) = Some key /\ terminated (keybytesToHex key)) /\
  (forall hex, nibbles hex \/ terminated hex ->
     exists compact, hexToCompact hex = Some compact /\ compactToHex compact = hex /\ wf_bytes compact /\ compact <> []).
Proof.
  split.
  - intros key Hk. split; [by apply keybytes_back|by apply keybytes_terminated].
  - intros hex [Hn|(s & -> & Hn)]; [|exact (compact_exists s true Hn)]. pose proof (compact_exists hex false Hn) as H. by rewrite app_nil_r in H.
Qed.
