(* ===== verification/Trie.v ===== *)
(** * [trie/trie.go], [trie/node.go]: the Merkle Patricia trie

    A trie maps keys to values.  Its nodes are values, short nodes, which skip a
    part of the key, full nodes, which branch on a nibble, and hash nodes, which
    stand for nodes of the database that are loaded when they are reached.  The
    operations keep the trie in minimal form: a full node has at least two
    children and a short node never leads to a short node, so that the contents
    alone determine the shape.

    [None] is a panic or a recursion deeper than [trie_fuel], which is enough for
    well-formed tries. *)
From S2P Require Import Prelude Common TrieKeys.

Record nodeFlag := { flag_hash : option bytes; dirty : bool }.

Inductive node :=
  | nilNode
  | valueNode (v : bytes)
  | shortNode (Key : bytes) (Val : node) (flags : nodeFlag)
  | fullNode (Children : list node) (flags : nodeFlag)
  | hashNode (h : bytes).

Record MissingNodeError := { NodeHash : bytes; Path : bytes }.

Definition newFlag : nodeFlag := {| flag_hash := None; dirty := true |}.
Definition is_nil (n : node) : bool := match n with nilNode => true | _ => false end.

(** What an operation returns: a panic, an error or a value. *)
Definition Outcome (A : Type) := option (A + MissingNodeError).
Definition ok {A} (a : A) : Outcome A := Some (inl a).
Definition then_ {A B} (r : Outcome A) (f : A -> Outcome B) : Outcome B :=
  match r with None => None | Some (inr err) => Some (inr err) | Some (inl a) => f a end.
Definition index {A B} (o : option A) (f : A -> Outcome B) : Outcome B := match o with None => None | Some a => f a end.
Notation "'let?' x := r 'in' f" := (then_ r (fun x => f)) (at level 200, x pattern, right associativity).
Notation "'let!' x := o 'in' f" := (index o (fun x => f)) (at level 200, x pattern, right associativity).

Definition trie_fuel (key : bytes) : nat := 2 * length key + 3.

Section trie.
(** [t.db.node(common.BytesToHash(n))] *)
Context (db : bytes -> option node).

Definition resolveHash (h prefix : bytes) : Outcome node :=
  match db h with Some n => ok n | None => Some (inr {| NodeHash := BytesToHash h; Path := prefix |}) end.

Definition resolve (n : node) (prefix : bytes) : Outcome node :=
  match n with hashNode h => resolveHash h prefix | _ => ok n end.

(** The value, the node with what was loaded, and whether something was. *)
Fixpoint tryGet (fuel : nat) (origNode : node) (key : bytes) (pos : nat) : Outcome (bytes * node * bool) :=
  match fuel with
  | O => None
  | S fuel =>
      match origNode with
      | nilNode => ok ([], nilNode, false)
      | valueNode v => ok (v, origNode, false)
      | shortNode k val fl =>
          if (length key - pos <? length k)%nat || negb (bytes_Equal k (take (length k) (drop pos key))) then ok ([], origNode, false)
          else
            let? (value, newnode, didResolve) := tryGet fuel val key (pos + length k) in
            ok (value, if didResolve : bool then shortNode k newnode fl else origNode, didResolve)
      | fullNode cs fl =>
          let! i := key !! pos in
          let! c := cs !! Z.to_nat i in
          let? (value, newnode, didResolve) := tryGet fuel c key (pos + 1) in
          ok (value, if didResolve : bool then fullNode (<[ Z.to_nat i := newnode ]> cs) fl else origNode, didResolve)
      | hashNode h =>
          let? child := resolveHash h (take pos key) in
          let? (value, newnode, _) := tryGet fuel child key pos in
          ok (value, newnode, true)
      end
  end.

(** Whether the node changed, and the node. *)
Fixpoint insert (fuel : nat) (n : node) (prefix key : bytes) (value : node) : Outcome (bool * node) :=
  match fuel with
  | O => None
  | S fuel =>
      match key with
      | [] =>
          match n with
          | valueNode v => match value with valueNode v' => ok (negb (bytes_Equal v v'), value) | _ => None end
          | _ => ok (true, value)
          end
      | k0 :: key' =>
          match n with
          | shortNode k val fl =>
              let matchlen := prefixLen key k in
              if (matchlen =? length k)%nat then
                let? (dirty, nn) := insert fuel val (prefix ++ take matchlen key) (drop matchlen key) value in
                if negb dirty then ok (false, n) else ok (true, shortNode k nn newFlag)
              else
                let! i1 := k !! matchlen in
                let? (_, c1) := insert fuel nilNode (prefix ++ take (matchlen + 1) k) (drop (matchlen + 1) k) val in
                let! i2 := key !! matchlen in
                let? (_, c2) := insert fuel nilNode (prefix ++ take (matchlen + 1) key) (drop (matchlen + 1) key) value in
                let branch := fullNode (<[ Z.to_nat i2 := c2 ]> (<[ Z.to_nat i1 := c1 ]> (replicate 17 nilNode))) newFlag in
                if (matchlen =? 0)%nat then ok (true, branch) else ok (true, shortNode (take matchlen key) branch newFlag)
          | fullNode cs fl =>
              let! c := cs !! Z.to_nat k0 in
              let? (dirty, nn) := insert fuel c (prefix ++ [k0]) key' value in
              if negb dirty then ok (false, n) else ok (true, fullNode (<[ Z.to_nat k0 := nn ]> cs) newFlag)
          | nilNode => ok (true, shortNode key value newFlag)
          | hashNode h =>
              let? rn := resolveHash h prefix in
              let? (dirty, nn) := insert fuel rn prefix key value in
              if negb dirty then ok (false, rn) else ok (true, nn)
          | valueNode _ => None
          end
      end
  end.

(** The index of the only child that is left, -1 if none is and -2 if several
    are. *)
Fixpoint only_child (i pos : Z) (cs : list node) : Z :=
  match cs with
  | [] => pos
  | c :: cs => if is_nil c then only_child (i + 1) pos cs else if pos =? -1 then only_child (i + 1) i cs else -2
  end.

(** A full node after the deletion of a child. *)
Definition reduce (cs : list node) (prefix : bytes) : Outcome (bool * node) :=
  let pos := only_child 0 (-1) cs in
  if 0 <=? pos then
    let! c := cs !! Z.to_nat pos in
    let short := ok (true, shortNode [pos] c newFlag) in
    if negb (pos =? 16) then
      let? cnode := resolve c prefix in
      match cnode with
      | shortNode k val _ => ok (true, shortNode (pos :: k) val newFlag)
      | _ => short
      end
    else short
  else ok (true, fullNode cs newFlag).

Fixpoint delete (fuel : nat) (n : node) (prefix key : bytes) : Outcome (bool * node) :=
  match fuel with
  | O => None
  | S fuel =>
      match n with
      | shortNode k val fl =>
          let matchlen := prefixLen key k in
          if (matchlen <? length k)%nat then ok (false, n)
          else if (matchlen =? length key)%nat then ok (true, nilNode)
          else
            let? (dirty, child) := delete fuel val (prefix ++ take (length k) key) (drop (length k) key) in
            if negb dirty then ok (false, n)
            else match child with
            | shortNode k' val' _ => ok (true, shortNode (k ++ k') val' newFlag)
            | _ => ok (true, shortNode k child newFlag)
            end
      | fullNode cs fl =>
          match key with
          | [] => None
          | k0 :: key' =>
              let! c := cs !! Z.to_nat k0 in
              let? (dirty, nn) := delete fuel c (prefix ++ [k0]) key' in
              if negb dirty then ok (false, n) else reduce (<[ Z.to_nat k0 := nn ]> cs) prefix
          end
      | valueNode _ => ok (true, nilNode)
      | nilNode => ok (false, nilNode)
      | hashNode h =>
          let? rn := resolveHash h prefix in
          let? (dirty, nn) := delete fuel rn prefix key in
          if negb dirty then ok (false, rn) else ok (true, nn)
      end
  end.

(** ** The operations of a trie, given by its root *)
Definition TryGet (key : bytes) (root : node) : option (bytes * option MissingNodeError * node) :=
  let key := keybytesToHex key in
  match tryGet (trie_fuel key) root key 0 with
  | None => None
  | Some (inr err) => Some ([], Some err, root)
  | Some (inl (value, newroot, didResolve)) => Some (value, None, if didResolve : bool then newroot else root)
  end.

Definition set_root (r : Outcome (bool * node)) (root : node) : option (option MissingNodeError * node) :=
  match r with
  | None => None
  | Some (inr err) => Some (Some err, root)
  | Some (inl (_, n)) => Some (None, n)
  end.

Definition TryUpdate (key value : bytes) (root : node) : option (option MissingNodeError * node) :=
  let k := keybytesToHex key in
  if negb (zlen value =? 0) then set_root (insert (trie_fuel k) root [] k (valueNode value)) root
  else set_root (delete (trie_fuel k) root [] k) root.

Definition TryDelete (key : bytes) (root : node) : option (option MissingNodeError * node) :=
  let k := keybytesToHex key in
  set_root (delete (trie_fuel k) root [] k) root.
End trie.

(** ** The contents of a node *)
Section contents.
Context (db : bytes -> option node).

(** Below the node, the rest [k] of a key leads to the value [x]. *)
Inductive holds : node -> bytes -> bytes -> Prop :=
  | holds_value x : holds (valueNode x) [] x
  | holds_short k val fl k' x : holds val k' x -> holds (shortNode k val fl) (k ++ k') x
  | holds_full cs fl i c k x : cs !! Z.to_nat i = Some c -> 0 <= i -> holds c k x -> holds (fullNode cs fl) (i :: k) x
  | holds_hash h n k x : db h = Some n -> holds n k x -> holds (hashNode h) k x.

(** ** Minimal form *)
Definition full_under (n : node) : Prop :=
  match n with fullNode _ _ => True | hashNode h => exists cs fl, db h = Some (fullNode cs fl) | _ => False end.

Definition loaded (n : node) : Prop := match n with shortNode _ _ _ | fullNode _ _ => True | _ => False end.

(** A non-empty part of a key, which may be its end. *)
Definition key_part (k : bytes) : Prop := (nibbles k /\ k <> []) \/ terminated k.

(** Two children at least. *)
Definition several (cs : list node) : Prop :=
  exists i j c d, i <> j /\ cs !! i = Some c /\ cs !! j = Some d /\ c <> nilNode /\ d <> nilNode.

(** A subtrie in minimal form, below the terminator if [e]. *)
Inductive sub_ok : bool -> node -> Prop :=
  | sub_nil e : sub_ok e nilNode
  | sub_value v : v <> [] -> sub_ok true (valueNode v)
  | sub_short k val fl :
      key_part k -> val <> nilNode -> sub_ok (hasTerm k) val -> (hasTerm k = false -> full_under val) -> sub_ok false (shortNode k val fl)
  | sub_full cs fl :
      length cs = 17%nat -> (forall i c, 0 <= i -> cs !! Z.to_nat i = Some c -> sub_ok (i =? 16) c) -> several cs ->
      sub_ok false (fullNode cs fl)
  | sub_hash h n : db h = Some n -> loaded n -> sub_ok false n -> sub_ok false (hashNode h).

(** The rest of a key, below the terminator if [e]. *)
Definition sub_key (e : bool) (k : bytes) : Prop := if e then k = [] else terminated k.

(** *** Keys *)
Lemma terminated_cons i k : terminated (i :: k) <-> 0 <= i <= 16 /\ sub_key (i =? 16) k.
Proof.
  split.
  - intros (s & E & Hs). destruct s as [|j s]; cbn in E; injection E as -> ->; [done|].
    apply Forall_cons_1 in Hs as [Hj Hs]. unfold nibble in Hj. rewrite (proj2 (Z.eqb_neq _ _)) by lia. split; [lia|]. by exists s.
  - intros [Hi Hk]. destruct (Z.eqb_spec i 16) as [->|Hne]; cbn in Hk; [subst k; by exists []; split; [|constructor]|].
    destruct Hk as (s & -> & Hs). exists (i :: s). split; [done|]. constructor; [unfold nibble; lia|done].
Qed.

Lemma hasTerm_terminated k : terminated k -> hasTerm k = true.
Proof. intros (s & -> & _). apply hasTerm_snoc. Qed.

Lemma terminated_app k k' : key_part k -> terminated (k ++ k') <-> sub_key (hasTerm k) k'.
Proof.
  intros [[Hk Hne]|Ht].
  - rewrite hasTerm_nibbles by done. cbn. split.
    + clear Hne. induction Hk as [|i k Hi _ IH]; [done|]. cbn. rewrite terminated_cons. unfold nibble in Hi.
      rewrite (proj2 (Z.eqb_neq _ _)) by lia. intros [_ ?]. by apply IH.
    + intros (s & -> & Hs). exists (k ++ s). split; [by rewrite app_assoc|]. by apply Forall_app.
  - rewrite (hasTerm_terminated k Ht). cbn. destruct Ht as (s & -> & Hs). split.
    + induction Hs as [|i s Hi _ IH]; cbn; rewrite terminated_cons; [by intros [_ ?]|]. unfold nibble in Hi.
      rewrite (proj2 (Z.eqb_neq _ _)) by lia. intros [_ ?]. by apply IH.
    + intros ->. rewrite app_nil_r. by exists s.
Qed.

Lemma prefixLen_spec a b :
  exists p a' b', a = p ++ a' /\ b = p ++ b' /\ length p = prefixLen a b /\
    match a', b' with x :: _, y :: _ => x <> y | _, _ => True end.
Proof.
  revert b. induction a as [|x a IH]; intros [|y b]; cbn [prefixLen]; try (eexists [], _, _; split_and!; done).
  destruct (Z.eqb_spec x y) as [->|Hne]; [|by exists [], (x :: a), (y :: b)].
  destruct (IH b) as (p & a' & b' & -> & -> & El & Hd). exists (y :: p), a', b'. cbn. by rewrite El.
Qed.

Lemma list_snoc_cases (r : bytes) : r = [] \/ exists r' y, r = r' ++ [y].
Proof. induction r as [|y r _] using rev_ind; eauto. Qed.

(** A key that does not end inside a part of a key. *)
Lemma terminated_prefix k k' : terminated (k ++ k') -> terminated k -> k' = [].
Proof. intros Hk Ht. apply terminated_app in Hk; [|by right]. by rewrite hasTerm_terminated in Hk. Qed.

(** *** Contents *)
Lemma holds_nil_iff k x : holds nilNode k x <-> False.
Proof. split; [|done]. intros Hh. inversion Hh. Qed.

Lemma holds_value_iff v k x : holds (valueNode v) k x <-> k = [] /\ x = v.
Proof. split; [intros Hh; by inversion Hh|]. intros [-> ->]. constructor. Qed.

Lemma holds_short_iff k val fl q x : holds (shortNode k val fl) q x <-> exists q', q = k ++ q' /\ holds val q' x.
Proof. split; [intros Hh; inversion Hh; subst; eauto|]. intros (q' & -> & Hh). by constructor. Qed.

Lemma holds_full_iff cs fl q x :
  holds (fullNode cs fl) q x <-> exists i q' c, q = i :: q' /\ 0 <= i /\ cs !! Z.to_nat i = Some c /\ holds c q' x.
Proof. split; [intros Hh; inversion Hh; subst; eauto 8|]. intros (i & q' & c & -> & Hi & Hc & Hh). by econstructor. Qed.

Lemma holds_hash_iff h n q x : db h = Some n -> holds (hashNode h) q x <-> holds n q x.
Proof. intros Hn. split; [intros Hh; inversion Hh; subst; congruence|]. intros Hh. by econstructor. Qed.

Lemma holds_full_cons cs fl i c q x : cs !! Z.to_nat i = Some c -> 0 <= i -> holds (fullNode cs fl) (i :: q) x <-> holds c q x.
Proof.
  intros Hc Hi. rewrite holds_full_iff. split; [|by intros ?; eauto 8]. intros (j & q' & c' & E & _ & Hc' & Hh). injection E as <- <-. congruence.
Qed.

(** Only terminated keys and non-empty values are held. *)
Lemma sub_holds e n k x : sub_ok e n -> holds n k x -> sub_key e k /\ x <> [].
Proof.
  intros Hn Hh. revert e Hn. induction Hh as [x|k val fl k' x _ IH|cs fl i c k x Hc Hi _ IH|h n k x Hd _ IH]; intros e Hn; inversion Hn; subst.
  - done.
  - destruct (IH (hasTerm k)) as [Hk Hx]; [done|]. split; [|done]. cbn. by apply terminated_app.
  - destruct (IH (i =? 16)) as [Hk Hx]; [auto|]. split; [|done]. cbn. apply terminated_cons. split; [|done].
    apply lookup_lt_Some in Hc. lia.
  - apply IH. congruence.
Qed.

Lemma key_part_length k : key_part k -> (0 < length k)%nat.
Proof. intros [[_ Hk]|(s & -> & _)]; [destruct k; [done|cbn; lia]|]. rewrite length_app. cbn. lia. Qed.

Definition hash_cost (n : node) : nat := match n with hashNode _ => 1 | _ => 0 end.

(** What is loaded shows the same contents. *)
Definition same (n n' : node) : Prop := forall k x, holds n' k x <-> holds n k x.

Lemma sub_full_child cs fl i c : sub_ok false (fullNode cs fl) -> 0 <= i -> cs !! Z.to_nat i = Some c -> sub_ok (i =? 16) c.
Proof. intros Hn Hi Hc. inversion Hn; subst. auto. Qed.

Lemma child_exists cs fl i : sub_ok false (fullNode cs fl) -> 0 <= i <= 16 -> exists c, cs !! Z.to_nat i = Some c.
Proof. intros Hn Hi. inversion Hn; subst. apply lookup_lt_is_Some. lia. Qed.

(** A child is replaced by one that is nil only if it was. *)
Lemma several_insert cs i c c' :
  several cs -> cs !! i = Some c -> (c <> nilNode -> c' <> nilNode) -> several (<[ i := c' ]> cs).
Proof.
  intros (a & b & x & y & Hab & Ha & Hb & Hx & Hy) Hc Hn. pose proof (lookup_lt_Some _ _ _ Hc) as Hl.
  assert (HL : forall j z, cs !! j = Some z -> z <> nilNode -> exists z', <[ i := c' ]> cs !! j = Some z' /\ z' <> nilNode).
  { intros j z Hj Hz. destruct (decide (j = i)) as [->|Hji]; [exists c'; rewrite list_lookup_insert_eq by done; split; [done|]; apply Hn; congruence|].
    exists z. by rewrite list_lookup_insert_ne by done. }
  destruct (HL a x Ha Hx) as (x' & Hx1 & Hx2), (HL b y Hb Hy) as (y' & Hy1 & Hy2). by exists a, b, x', y'.
Qed.

Lemma sub_full_insert cs fl fl' i c c' :
  sub_ok false (fullNode cs fl) -> 0 <= i -> cs !! Z.to_nat i = Some c -> sub_ok (i =? 16) c' -> (c <> nilNode -> c' <> nilNode) ->
  sub_ok false (fullNode (<[ Z.to_nat i := c' ]> cs) fl').
Proof.
  intros Hn Hi Hc Hc' Hnil. inversion Hn as [| | |? ? Hl Hcs Hs|]; subst. constructor; [by rewrite length_insert| |by eapply several_insert].
  intros j d Hj Hd. destruct (decide (j = i)) as [->|Hji].
  - rewrite list_lookup_insert_eq in Hd by (by eapply lookup_lt_Some). by injection Hd as <-.
  - rewrite list_lookup_insert_ne in Hd by lia. by apply Hcs.
Qed.

Lemma holds_full_insert cs fl fl' i c c' q x :
  cs !! Z.to_nat i = Some c -> 0 <= i ->
  holds (fullNode (<[ Z.to_nat i := c' ]> cs) fl') q x <->
  (exists q', q = i :: q' /\ holds c' q' x) \/ (head q <> Some i /\ holds (fullNode cs fl) q x).
Proof.
  intros Hc Hi. pose proof (lookup_lt_Some _ _ _ Hc) as Hl. split.
  - rewrite holds_full_iff. intros (j & q' & d & -> & Hj & Hd & Hh). destruct (decide (j = i)) as [->|Hji].
    + rewrite list_lookup_insert_eq in Hd by done. injection Hd as <-. left. eauto.
    + rewrite list_lookup_insert_ne in Hd by lia. right. split; [cbn; congruence|]. by econstructor.
  - intros [(q' & -> & Hh)|[Hq Hh]].
    + econstructor; [by apply list_lookup_insert_eq|done|done].
    + apply holds_full_iff in Hh as (j & q' & d & -> & Hj & Hd & Hh). cbn in Hq. econstructor; [|done|exact Hh].
      rewrite list_lookup_insert_ne; [done|]. intros E. apply Hq. f_equal. lia.
Qed.

Lemma same_full cs fl i c c' : cs !! Z.to_nat i = Some c -> 0 <= i -> same c c' -> same (fullNode cs fl) (fullNode (<[ Z.to_nat i := c' ]> cs) fl).
Proof.
  intros Hc Hi Hs q x. rewrite (holds_full_insert cs fl fl i c c') by done. split.
  - intros [(q' & -> & Hh)|[_ Hh]]; [|done]. apply Hs in Hh. by econstructor.
  - intros Hh. destruct (decide (head q = Some i)) as [E|]; [|by right]. left. destruct q as [|j q]; [done|]. injection E as ->.
    apply holds_full_cons with (c := c) in Hh; [|done..]. exists q. split; [done|]. by apply Hs.
Qed.

(** ** Reading *)
Lemma match_short (k key : bytes) (pos : nat) :
  (length key - pos <? length k)%nat || negb (bytes_Equal k (take (length k) (drop pos key))) = false <->
  exists q, drop pos key = k ++ q.
Proof.
  rewrite orb_false_iff, negb_false_iff, bytes_Equal_spec, Nat.ltb_ge. split.
  - intros [_ E]. exists (drop (length k) (drop pos key)). rewrite E at 1. by rewrite take_drop.
  - intros [q E]. rewrite E, take_app_length. split; [|done]. apply (f_equal length) in E. rewrite length_drop, length_app in E. lia.
Qed.

Record got (e : bool) (n : node) (key : bytes) (v : bytes) (n' : node) : Prop := {
  got_value : forall x, holds n key x <-> v = x /\ x <> [];
  got_same : same n n';
  got_ok : sub_ok e n';
  got_nil : n <> nilNode -> n' <> nilNode;
  got_full : full_under n -> full_under n'
}.

Lemma got_itself e n key v : sub_ok e n -> (forall x, holds n key x <-> v = x /\ x <> []) -> got e n key v n.
Proof. intros Hn Hv. by split. Qed.

Lemma tryGet_spec fuel e n key pos :
  sub_ok e n -> sub_key e (drop pos key) -> (2 * length (drop pos key) + hash_cost n < fuel)%nat ->
  exists v n' r, tryGet db fuel n key pos = ok (v, n', r) /\ got e n (drop pos key) v n'.
Proof.
  revert e n pos. induction fuel as [|fuel IH]; intros e n pos Hn Hk Hf; [lia|]. cbn [tryGet].
  inversion Hn as [e'|v Hv|k val fl Hkp Hnil Hval Hfull|cs fl Hl Hcs Hs|h m Hm Hld Hmk]; subst.
  - eexists _, _, _. split; [done|]. apply got_itself; [done|]. intros x. rewrite holds_nil_iff. split; [done|]. by intros [<- ?].
  - cbn in Hk. rewrite Hk. eexists _, _, _. split; [done|]. apply got_itself; [done|]. intros x. rewrite holds_value_iff. split; [by intros [_ ->]|].
    by intros [-> _].
  - destruct (_ || _) eqn:Em.
    + eexists _, _, _. split; [done|]. apply got_itself; [done|]. intros x. rewrite holds_short_iff. split; [|by intros [<- ?]].
      intros (q & E & _). assert (Em' : (length key - pos <? length k)%nat || negb (bytes_Equal k (take (length k) (drop pos key))) = false)
        by (apply match_short; by exists q). congruence.
    + apply match_short in Em as [q E]. pose proof (key_part_length k Hkp) as Hlk. rewrite E in *. cbn in Hk. apply terminated_app in Hk; [|done].
      assert (Eq : drop (pos + length k) key = q) by (rewrite <- drop_drop, E; apply drop_app_length).
      destruct (IH (hasTerm k) val (pos + length k)%nat Hval) as (v & n' & r & -> & [G1 G2 G3 G4 G5]).
      { by rewrite Eq. }
      { rewrite Eq. rewrite length_app in Hf. cbn in Hf. destruct val; cbn; lia. }
      rewrite Eq in G1. cbn [then_ ok]. eexists _, _, _. split; [done|].
      assert (HV : forall x, holds (shortNode k val fl) (k ++ q) x <-> v = x /\ x <> []).
      { intros x. rewrite <- G1, holds_short_iff. split; [|eauto]. intros (q' & Eq' & Hh). apply app_inv_head in Eq'. by subst q'. }
      destruct r; [|by apply got_itself]. split; try done.
      * intros k0 x. rewrite !holds_short_iff. by setoid_rewrite (G2 _ x).
      * constructor; auto.
  - cbn in Hk. destruct (drop pos key) as [|i q] eqn:E; [destruct Hk as ([|] & ? & _); done|].
    assert (Ei : key !! pos = Some i) by (rewrite <- (Nat.add_0_r pos), <- lookup_drop, E; done).
    apply terminated_cons in Hk as [Hi Hk]. destruct (child_exists cs fl i Hn Hi) as [c Hc]. rewrite Ei. cbn [index]. rewrite Hc. cbn [index].
    assert (Eq : drop (pos + 1) key = q) by (rewrite <- drop_drop, E; done).
    destruct (IH (i =? 16) c (pos + 1)%nat) as (v & n' & r & -> & [G1 G2 G3 G4 G5]); [by apply (Hcs i); [lia|]|by rewrite Eq| |].
    { rewrite Eq. cbn in Hf. destruct c; cbn; lia. }
    rewrite Eq in G1. cbn [then_ ok]. eexists _, _, _. split; [done|].
    assert (HV : forall x, holds (fullNode cs fl) (i :: q) x <-> v = x /\ x <> []) by (intros x; rewrite <- G1; apply holds_full_cons; [done|lia]).
    destruct r; [|by apply got_itself]. split; try done.
    + eapply same_full; [exact Hc|lia|done].
    + eapply sub_full_insert; [exact Hn|lia|done..].
  - unfold resolveHash. rewrite Hm. cbn [then_ ok].
    assert (Hnh : hash_cost m = 0%nat) by by destruct m.
    destruct (IH false m pos Hmk Hk) as (v & n' & r & -> & [G1 G2 G3 G4 G5]); [cbn in Hf; lia|]. cbn [then_ ok].
    eexists _, _, _. split; [done|]. assert (HH := fun q x => holds_hash_iff h m q x Hm). split; try done.
    + intros x. by rewrite HH.
    + intros k x. by rewrite HH.
    + intros _. apply G4. by destruct m.
    + intros (cs & fl & Hd). apply G5. rewrite Hm in Hd. by injection Hd as ->.
Qed.

(** ** Inserting *)

(** [n'] holds what [n] holds but for [key], where it holds [v]. *)
Definition updated (n n' : node) (key v : bytes) : Prop :=
  forall k x, holds n' k x <-> (k = key /\ x = v) \/ (k <> key /\ holds n k x).

(** [val] below the rest [r] of a short node's key. *)
Definition attach (r : bytes) (val : node) : node := match r with [] => val | _ => shortNode r val newFlag end.

Lemma insert_nil fuel prefix key val : insert db (S fuel) nilNode prefix key val = ok (true, attach key val).
Proof. by destruct key. Qed.

Lemma holds_attach r val q x : holds (attach r val) q x <-> exists q', q = r ++ q' /\ holds val q' x.
Proof. destruct r; cbn [attach]; [|apply holds_short_iff]. split; [by eauto|]. by intros (q' & -> & Hh). Qed.

(** A part of a key, split. *)
Lemma key_part_split p i r :
  key_part (p ++ i :: r) -> nibbles p /\ 0 <= i <= 16 /\ hasTerm (p ++ i :: r) = (if r then i =? 16 else hasTerm r) /\
  match r with [] => True | _ => key_part r /\ i <> 16 end.
Proof.
  intros Hk. assert (Eh : hasTerm (p ++ i :: r) = (if r then i =? 16 else hasTerm r)).
  { destruct r as [|j r]; [apply hasTerm_snoc|]. unfold hasTerm. by rewrite last_app_cons, last_cons_cons. }
  destruct Hk as [[Hn _]|(s & E & Hs)].
  - apply Forall_app in Hn as [Hp Hn]. apply Forall_cons_1 in Hn as [Hi Hr]. unfold nibble in Hi.
    split_and!; [done|lia|lia|done|]. destruct r; [done|]. split; [|lia]. by left.
  - destruct (list_snoc_cases r) as [->|(r' & y & ->)].
    + apply app_inj_tail in E as [-> ->]. by split_and!.
    + rewrite app_comm_cons, app_assoc in E. apply app_inj_tail in E as [E ->]. subst s.
      apply Forall_app in Hs as [Hp Hs]. apply Forall_cons_1 in Hs as [Hi Hr]. unfold nibble in Hi.
      split_and!; [done|lia|lia|done|]. assert (key_part (r' ++ [16])) by (right; by exists r').
      destruct r'; cbn in *; (split; [done|lia]).
Qed.

Lemma attach_ok p i r val :
  key_part (p ++ i :: r) -> val <> nilNode -> sub_ok (hasTerm (p ++ i :: r)) val -> (hasTerm (p ++ i :: r) = false -> full_under val) ->
  sub_ok (i =? 16) (attach r val) /\ attach r val <> nilNode.
Proof.
  intros Hk Hnil Hval Hfull. destruct (key_part_split p i r Hk) as (_ & Hi & Eh & Hr). rewrite Eh in *.
  destruct r as [|j r]; [done|]. destruct Hr as [Hr Hne]. rewrite (proj2 (Z.eqb_neq _ _)) by done. split; [|done]. by constructor.
Qed.

(** Branching out where the key and a short node's key differ. *)
Definition branched (i1 : Z) (c1 : node) (i2 : Z) (c2 : node) : node :=
  fullNode (<[ Z.to_nat i2 := c2 ]> (<[ Z.to_nat i1 := c1 ]> (replicate 17 nilNode))) newFlag.

Lemma branched_child i1 c1 i2 c2 i c :
  0 <= i1 <= 16 -> 0 <= i2 <= 16 -> i1 <> i2 -> 0 <= i ->
  <[ Z.to_nat i2 := c2 ]> (<[ Z.to_nat i1 := c1 ]> (replicate 17 nilNode)) !! Z.to_nat i = Some c <->
  i <= 16 /\ c = (if i =? i2 then c2 else if i =? i1 then c1 else nilNode).
Proof.
  intros H1 H2 Hne Hi. set (cs := <[ Z.to_nat i1 := c1 ]> (replicate 17 nilNode)).
  assert (Hl : length cs = 17%nat) by (unfold cs; by rewrite length_insert, length_replicate).
  destruct (Z.eqb_spec i i2) as [->|N2]; [rewrite list_lookup_insert_eq by lia; naive_solver lia|].
  rewrite list_lookup_insert_ne by lia. unfold cs. destruct (Z.eqb_spec i i1) as [->|N1].
  - rewrite list_lookup_insert_eq by (rewrite length_replicate; lia). naive_solver lia.
  - rewrite list_lookup_insert_ne, lookup_replicate by lia. naive_solver lia.
Qed.

Lemma branched_ok i1 c1 i2 c2 :
  0 <= i1 <= 16 -> 0 <= i2 <= 16 -> i1 <> i2 -> sub_ok (i1 =? 16) c1 -> sub_ok (i2 =? 16) c2 -> c1 <> nilNode -> c2 <> nilNode ->
  sub_ok false (branched i1 c1 i2 c2).
Proof.
  intros H1 H2 Hne O1 O2 N1 N2. pose proof (branched_child i1 c1 i2 c2) as HB. constructor.
  - by rewrite !length_insert, length_replicate.
  - intros i c Hi Hc. apply HB in Hc as [_ ->]; [|done..]. destruct (Z.eqb_spec i i2) as [->|]; [done|].
    destruct (Z.eqb_spec i i1) as [->|]; [done|constructor].
  - exists (Z.to_nat i1), (Z.to_nat i2), c1, c2. split; [lia|]. split_and!; try done; apply HB; try lia; split; try lia.
    + rewrite (proj2 (Z.eqb_neq _ _)) by done. by rewrite Z.eqb_refl.
    + by rewrite Z.eqb_refl.
Qed.

Lemma holds_branched i1 c1 i2 c2 q x :
  0 <= i1 <= 16 -> 0 <= i2 <= 16 -> i1 <> i2 ->
  holds (branched i1 c1 i2 c2) q x <-> (exists q', q = i1 :: q' /\ holds c1 q' x) \/ (exists q', q = i2 :: q' /\ holds c2 q' x).
Proof.
  intros H1 H2 Hne. pose proof (branched_child i1 c1 i2 c2) as HB. unfold branched. rewrite holds_full_iff. split.
  - intros (i & q' & c & -> & Hi & Hc & Hh). apply HB in Hc as [_ ->]; [|done..]. destruct (Z.eqb_spec i i2) as [->|]; [by eauto|].
    destruct (Z.eqb_spec i i1) as [->|]; [by eauto|]. by apply holds_nil_iff in Hh.
  - intros [(q' & -> & Hh)|(q' & -> & Hh)].
    + exists i1, q', c1. split_and!; [done|lia| |done]. apply HB; try lia. rewrite (proj2 (Z.eqb_neq i1 i2)) by done. rewrite Z.eqb_refl. split; [lia|done].
    + exists i2, q', c2. split_and!; [done|lia| |done]. apply HB; try lia. rewrite Z.eqb_refl. split; [lia|done].
Qed.

Lemma branch_ok p i1 r1 val fl i2 r2 v :
  key_part (p ++ i1 :: r1) -> val <> nilNode -> sub_ok (hasTerm (p ++ i1 :: r1)) val ->
  (hasTerm (p ++ i1 :: r1) = false -> full_under val) -> terminated (p ++ i2 :: r2) -> i2 <> i1 -> v <> [] ->
  let n' := attach p (branched i1 (attach r1 val) i2 (attach r2 (valueNode v))) in
  sub_ok false n' /\ n' <> nilNode /\ updated (shortNode (p ++ i1 :: r1) val fl) n' (p ++ i2 :: r2) v.
Proof.
  intros Hk Hnil Hval Hfull Ht Hne Hv. destruct (key_part_split p i1 r1 Hk) as (Hp & Hi1 & _).
  destruct (key_part_split p i2 r2 (or_intror Ht)) as (_ & Hi2 & _).
  destruct (attach_ok p i1 r1 val Hk Hnil Hval Hfull) as [O1 N1].
  destruct (attach_ok p i2 r2 (valueNode v) (or_intror Ht)) as [O2 N2]; [done|rewrite hasTerm_terminated by done; by constructor|
    by rewrite hasTerm_terminated|].
  set (b := branched i1 (attach r1 val) i2 (attach r2 (valueNode v))). assert (Ob : sub_ok false b) by (apply branched_ok; auto).
  cbn zeta. split; [|split; [by destruct p|]].
  - destruct p as [|j p]; [done|]. cbn [attach]. constructor; [by left|done| |done]. by rewrite hasTerm_nibbles.
  - intros q x. rewrite holds_attach. split.
    + intros (q' & -> & Hh). apply holds_branched in Hh as [(q1 & -> & Hh)|(q1 & -> & Hh)]; [| |lia..|congruence];
        apply holds_attach in Hh as (q2 & -> & Hh).
      * right. split; [intros E; apply app_inv_head in E; by injection E as E _|]. rewrite app_comm_cons, app_assoc. by constructor.
      * apply holds_value_iff in Hh as [-> ->]. left. by rewrite app_nil_r.
    + intros [[-> ->]|[Hq Hh]].
      * exists (i2 :: r2). split; [done|]. apply holds_branched; [lia..|congruence|]. right. exists r2. split; [done|]. apply holds_attach.
        exists []. split; [by rewrite app_nil_r|constructor].
      * apply holds_short_iff in Hh as (q' & -> & Hh). exists (i1 :: r1 ++ q'). split; [by rewrite <- app_assoc|].
        apply holds_branched; [lia..|congruence|]. left. exists (r1 ++ q'). split; [done|]. apply holds_attach. eauto.
Qed.

(** Replacing the child on the key's path. *)
Lemma updated_short k val val' fl fl' q v : updated val val' q v -> updated (shortNode k val fl) (shortNode k val' fl') (k ++ q) v.
Proof.
  intros HU q0 x. rewrite !holds_short_iff. split.
  - intros (q' & -> & Hh). apply HU in Hh as [[-> ->]|[Hq Hh]]; [by left|]. right. split; [intros E; by apply app_inv_head in E|]. eauto.
  - intros [[-> ->]|[Hq (q' & -> & Hh)]]; [exists q; split; [done|]; apply HU; by left|]. exists q'. split; [done|]. apply HU. right.
    split; [by intros ->|done].
Qed.

Lemma updated_full cs fl fl' i c c' q v :
  cs !! Z.to_nat i = Some c -> 0 <= i -> updated c c' q v -> updated (fullNode cs fl) (fullNode (<[ Z.to_nat i := c' ]> cs) fl') (i :: q) v.
Proof.
  intros Hc Hi HU q0 x. rewrite (holds_full_insert cs fl fl' i c c') by done. split.
  - intros [(q' & -> & Hh)|[Hq Hh]].
    + apply HU in Hh as [[-> ->]|[Hq Hh]]; [by left|]. right. split; [congruence|]. by econstructor.
    + right. split; [by intros ->|done].
  - intros [[-> ->]|[Hq Hh]]; [left; exists q; split; [done|]; apply HU; by left|].
    destruct (decide (head q0 = Some i)) as [E|]; [|by right]. left. destruct q0 as [|j q0]; [done|]. injection E as ->.
    apply (holds_full_cons cs fl i c) in Hh; [|done..]. exists q0. split; [done|]. apply HU. right. split; [congruence|done].
Qed.

Record inserted (e : bool) (n : node) (key v : bytes) (d : bool) (n' : node) : Prop := {
  ins_ok : sub_ok e n';
  ins_nil : n' <> nilNode;
  ins_full : full_under n -> full_under n';
  ins_updated : updated n n' key v;
  ins_clean : d = false -> updated n n key v
}.

Lemma inserted_hash h m e key v d n' :
  db h = Some m -> inserted e m key v d n' -> inserted e (hashNode h) key v d n'.
Proof.
  intros Hm [O N F U C]. assert (HH := fun q x => holds_hash_iff h m q x Hm). split; try done.
  - intros (cs & fl & Hd). apply F. rewrite Hm in Hd. by injection Hd as ->.
  - intros q x. rewrite HH. apply U.
  - intros Hd q x. rewrite !HH. by apply C.
Qed.

Lemma insert_value fuel n prefix v :
  sub_ok true n -> v <> [] -> exists d n', insert db (S fuel) n prefix [] (valueNode v) = ok (d, n') /\ inserted true n [] v d n'.
Proof.
  intros Hn Hv. assert (HE : forall q x, holds n q x -> q = []) by (intros q x Hh; by apply (sub_holds _ _ _ _ Hn) in Hh as [Hh _]).
  assert (HU : updated n (valueNode v) [] v).
  { intros q x. rewrite holds_value_iff. split; [by left|]. intros [?|[Hq Hh]]; [done|]. by apply HE in Hh. }
  assert (O : sub_ok true (valueNode v)) by by constructor.
  inversion Hn as [e'|v0 Hv0| | |]; subst; cbn [insert]; eexists _, _; (split; [done|]).
  - by split.
  - split; try done. rewrite negb_false_iff, bytes_Equal_spec. by intros ->.
Qed.

(** [insert] is correct with [fuel]. *)
Definition insert_correct (fuel : nat) : Prop := forall e n prefix key v,
  sub_ok e n -> sub_key e key -> v <> [] -> (2 * length key + hash_cost n < fuel)%nat ->
  exists d n', insert db fuel n prefix key (valueNode v) = ok (d, n') /\ inserted e n key v d n'.

(** Below a short node whose key is on the path. *)
Lemma insert_below fuel k val fl prefix q v :
  insert_correct fuel -> key_part k -> val <> nilNode -> sub_ok (hasTerm k) val -> (hasTerm k = false -> full_under val) ->
  terminated (k ++ q) -> v <> [] -> (2 * length (k ++ q) < S fuel)%nat ->
  exists d n', (let? (dirty, nn) := insert db fuel val (prefix ++ k) q (valueNode v) in
      if negb dirty then ok (false, shortNode k val fl) else ok (true, shortNode k nn newFlag)) = ok (d, n') /\
    inserted false (shortNode k val fl) (k ++ q) v d n'.
Proof.
  intros IH Hkp Hnil Hval Hfull Hk Hv Hf. pose proof (key_part_length k Hkp) as Hlk. apply terminated_app in Hk; [|done].
  rewrite length_app in Hf. destruct (IH (hasTerm k) val (prefix ++ k) q v Hval Hk Hv) as (d & n' & -> & [O N F U C]); [destruct val; cbn; lia|].
  cbn [then_ ok]. destruct d; cbn [negb]; eexists _, _; (split; [done|]); split; try done.
  - by constructor; auto.
  - by apply updated_short.
  - by constructor; auto.
  - apply updated_short. by apply C.
  - intros _. apply updated_short. by apply C.
Qed.

Lemma insert_short fuel k val fl prefix key v :
  insert_correct fuel -> sub_ok false (shortNode k val fl) -> terminated key -> v <> [] -> (2 * length key < S fuel)%nat ->
  exists d n', insert db (S fuel) (shortNode k val fl) prefix key (valueNode v) = ok (d, n') /\ inserted false (shortNode k val fl) key v d n'.
Proof.
  intros IH Hn Hk Hv Hf. inversion Hn as [| |? ? ? Hkp Hnil Hval Hfull| |]; subst.
  destruct key as [|k0 key']; [by destruct Hk as ([|] & ? & _)|]. cbn [insert]. set (key := k0 :: key') in *.
  destruct (prefixLen_spec key k) as (p & r & rk & Ekey & Ek & El & Hd). rewrite <- El. clearbody key. subst key k.
  destruct rk as [|i1 r1].
  { rewrite app_nil_r in *. rewrite Nat.eqb_refl, take_app_length, drop_app_length. by apply insert_below. }
  destruct r as [|i2 r2].
  { exfalso. rewrite app_nil_r in Hk. destruct Hkp as [[Hnb _]|Ht]; [|by apply (terminated_prefix p (i1 :: r1)) in Hk].
    apply Forall_app in Hnb as [Hnb _]. apply hasTerm_nibbles in Hnb. by rewrite hasTerm_terminated in Hnb. }
  rewrite (proj2 (Nat.eqb_neq _ _)) by (rewrite length_app; cbn; lia).
  assert (HL : forall (i : Z) r, (p ++ i :: r) !! length p = Some i /\ drop (length p + 1) (p ++ i :: r) = r).
  { intros i r. rewrite lookup_app_r, Nat.sub_diag by lia. split; [done|]. by rewrite <- drop_drop, drop_app_length. }
  destruct (HL i1 r1) as [-> ->], (HL i2 r2) as [-> ->]. cbn [index]. destruct fuel as [|fuel]; [rewrite length_app in Hf; cbn in Hf; lia|].
  rewrite !insert_nil. cbn [then_ ok].
  destruct (branch_ok p i1 r1 val fl i2 r2 v) as (O & N & U); [done..|congruence|done|].
  rewrite take_app_length. exists true, (attach p (branched i1 (attach r1 val) i2 (attach r2 (valueNode v)))).
  split; [by destruct p|]. by split.
Qed.

Lemma insert_full fuel cs fl prefix key v :
  insert_correct fuel -> sub_ok false (fullNode cs fl) -> terminated key -> v <> [] -> (2 * length key < S fuel)%nat ->
  exists d n', insert db (S fuel) (fullNode cs fl) prefix key (valueNode v) = ok (d, n') /\ inserted false (fullNode cs fl) key v d n'.
Proof.
  intros IH Hn Hk Hv Hf. inversion Hn as [| | |? ? Hl Hcs Hs|]; subst.
  destruct key as [|k0 key']; [by destruct Hk as ([|] & ? & _)|]. cbn [insert].
  apply terminated_cons in Hk as [Hi Hk]. destruct (child_exists cs fl k0 Hn Hi) as [c Hc]. rewrite Hc. cbn [index].
  destruct (IH (k0 =? 16) c (prefix ++ [k0]) key' v) as (d & n' & -> & [O N F U C]); [by apply (Hcs k0); [lia|]|done|done| |].
  { cbn in Hf. destruct c; cbn; lia. }
  cbn [then_ ok]. destruct d; cbn [negb]; eexists _, _; (split; [done|]); [split; try done|].
  - eapply sub_full_insert; [exact Hn|lia|done..].
  - eapply updated_full; [done|lia|done].
  - assert (HC : updated (fullNode cs fl) (fullNode cs fl) (k0 :: key') v); [|by split].
    rewrite <- (list_insert_id cs (Z.to_nat k0) c Hc) at 2. eapply updated_full; [done|lia|by apply C].
Qed.

Lemma insert_hash fuel h prefix key v :
  insert_correct fuel -> sub_ok false (hashNode h) -> terminated key -> v <> [] -> (2 * length key + 1 < S fuel)%nat ->
  exists d n', insert db (S fuel) (hashNode h) prefix key (valueNode v) = ok (d, n') /\ inserted false (hashNode h) key v d n'.
Proof.
  intros IH Hn Hk Hv Hf. inversion Hn as [| | | |? m Hm Hld Hmk]; subst.
  destruct key as [|k0 key']; [by destruct Hk as ([|] & ? & _)|]. cbn [insert]. unfold resolveHash. rewrite Hm. cbn [then_ ok].
  assert (Hnh : hash_cost m = 0%nat) by by destruct m.
  destruct (IH false m prefix (k0 :: key') v Hmk Hk Hv) as (d & n' & -> & [O N F U C]); [lia|]. cbn [then_ ok].
  destruct d; cbn [negb]; eexists _, _; (split; [done|]); (eapply inserted_hash; [exact Hm|]); split; try done; [by destruct m|by apply C].
Qed.

Lemma insert_empty fuel prefix key v :
  terminated key -> v <> [] -> exists d n', insert db (S fuel) nilNode prefix key (valueNode v) = ok (d, n') /\ inserted false nilNode key v d n'.
Proof.
  intros Hk Hv. rewrite insert_nil. eexists _, _. split; [done|]. pose proof (hasTerm_terminated key Hk) as Ht.
  assert (Ea : attach key (valueNode v) = shortNode key (valueNode v) newFlag) by (destruct key; [by destruct Hk as ([|] & ? & _)|done]).
  rewrite Ea. split; try done.
  - constructor; [by right|done|rewrite Ht; by constructor|by rewrite Ht].
  - intros q x. rewrite holds_short_iff. setoid_rewrite holds_value_iff. rewrite holds_nil_iff. split.
    + intros (q' & -> & -> & ->). left. by rewrite app_nil_r.
    + intros [[-> ->]|[_ []]]. exists []. by rewrite app_nil_r.
Qed.

Lemma insert_spec fuel : insert_correct fuel.
Proof.
  induction fuel as [|fuel IH]; intros e n prefix key v Hn Hk Hv Hf; [lia|].
  destruct e; [cbn in Hk; subst key; by apply insert_value|]. cbn [sub_key] in Hk.
  destruct n; [by apply insert_empty|inversion Hn|apply insert_short|apply insert_full|apply insert_hash]; done || (cbn in Hf; lia).
Qed.

(** ** Deleting *)

(** [n'] holds what [n] holds but for [key]. *)
Definition removed (n n' : node) (key : bytes) : Prop := forall k x, holds n' k x <-> k <> key /\ holds n k x.

Lemma is_nil_spec n : is_nil n = true <-> n = nilNode.
Proof. by destruct n. Qed.

(** The scan from the [i]th child on, after it found nothing, or the child [pos]. *)
Lemma only_child_found i pos cs :
  0 <= pos -> (only_child i pos cs = pos /\ Forall (fun c => c = nilNode) cs) \/
  (only_child i pos cs = -2 /\ exists j c, cs !! j = Some c /\ c <> nilNode).
Proof.
  intros Hp. revert i. induction cs as [|c cs IH]; intros i; cbn [only_child]; [by left|].
  destruct (is_nil c) eqn:Ec.
  - apply is_nil_spec in Ec as ->. destruct (IH (i + 1)) as [[-> HF]|[-> (j & d & Hj & Hd)]]; [left; split; [done|by constructor]|].
    right. split; [done|]. by exists (S j), d.
  - rewrite (proj2 (Z.eqb_neq pos (-1))) by lia. right. split; [done|]. exists O, c. split; [done|]. intros ->. done.
Qed.

Lemma only_child_spec i cs :
  0 <= i -> let pos := only_child i (-1) cs in
  (pos = -1 /\ Forall (fun c => c = nilNode) cs) \/
  (exists j c, pos = i + Z.of_nat j /\ cs !! j = Some c /\ c <> nilNode /\ forall j' c', cs !! j' = Some c' -> c' <> nilNode -> j' = j) \/
  (pos = -2 /\ several cs).
Proof.
  cbn zeta. revert i. induction cs as [|c cs IH]; intros i Hi; cbn [only_child]; [by left|].
  destruct (is_nil c) eqn:Ec.
  - apply is_nil_spec in Ec as ->. destruct (IH (i + 1)) as [[-> HF]|[(j & d & -> & Hj & Hd & HU)|[-> (a & b & x & y & Hs)]]]; [lia|..].
    + left. split; [done|by constructor].
    + right; left. exists (S j), d. split_and!; [lia|done|done|]. intros [|j'] c' Hj' Hc'; [by injection Hj' as <-|]. f_equal. by eapply HU.
    + right; right. split; [done|]. exists (S a), (S b), x, y. naive_solver lia.
  - assert (Hc : c <> nilNode) by (intros ->; done). cbn. destruct (only_child_found (i + 1) i cs Hi) as [[-> HF]|[-> (j & d & Hj & Hd)]].
    + right; left. exists O, c. split_and!; [lia|done|done|]. intros [|j'] c' Hj' Hc'; [done|].
      rewrite Forall_forall in HF. destruct Hc'. apply HF. by eapply list_elem_of_lookup_2.
    + right; right. split; [done|]. by exists O, (S j), c, d.
Qed.

(** A full node whose only child is [c]. *)
Lemma holds_only cs fl j c q x :
  cs !! j = Some c -> (forall j' c', cs !! j' = Some c' -> c' <> nilNode -> j' = j) ->
  holds (fullNode cs fl) q x <-> exists q', q = Z.of_nat j :: q' /\ holds c q' x.
Proof.
  intros Hc HU. rewrite holds_full_iff. split.
  - intros (i & q' & d & -> & Hi & Hd & Hh). assert (Hne : d <> nilNode) by (intros ->; by apply holds_nil_iff in Hh).
    pose proof (HU _ _ Hd Hne) as E. exists q'. rewrite E in Hd. rewrite Hc in Hd. injection Hd as ->. split; [|done]. f_equal. lia.
  - intros (q' & -> & Hh). exists (Z.of_nat j), q', c. rewrite Nat2Z.id. split_and!; [done|lia|done|done].
Qed.

(** A short node's key is lengthened at the front. *)
Lemma lengthen_ok p k val fl fl' : nibbles p -> sub_ok false (shortNode k val fl) -> sub_ok false (shortNode (p ++ k) val fl').
Proof.
  intros Hp Hn. inversion Hn as [| |? ? ? Hkp Hnil Hval Hfull| |]; subst. pose proof (key_part_length k Hkp) as Hlk.
  assert (Eh : hasTerm (p ++ k) = hasTerm k).
  { unfold hasTerm. destruct k as [|i k]; [cbn in Hlk; lia|]. by rewrite last_app_cons. }
  constructor; rewrite ?Eh; try done. destruct Hkp as [[Hk Hne]|(s & -> & Hs)].
  - left. split; [by apply Forall_app|]. intros [_ ?]%app_nil. done.
  - right. exists (p ++ s). split; [by rewrite app_assoc|by apply Forall_app].
Qed.

Lemma holds_lengthen p k val fl fl' q x : holds (shortNode (p ++ k) val fl') q x <-> exists q', q = p ++ q' /\ holds (shortNode k val fl) q' x.
Proof.
  rewrite holds_short_iff. setoid_rewrite holds_short_iff. split.
  - intros (q' & -> & Hh). exists (k ++ q'). split; [by rewrite app_assoc|eauto].
  - intros (q1 & -> & q2 & -> & Hh). exists q2. split; [by rewrite app_assoc|done].
Qed.

(** The child [c] at the nibble [i] becomes a short node. *)
Lemma shorten_child i c prefix :
  nibble i -> sub_ok false c -> c <> nilNode ->
  exists n', (let? cnode := resolve db c prefix in
      match cnode with shortNode k val _ => ok (true, shortNode (i :: k) val newFlag) | _ => ok (true, shortNode [i] c newFlag) end) = ok (true, n') /\
    sub_ok false n' /\ loaded n' /\ forall q x, holds n' q x <-> exists q', q = i :: q' /\ holds c q' x.
Proof.
  intros Hi Oc Hc. assert (Hp : nibbles [i]) by (by constructor; [|constructor]).
  assert (HF : full_under c -> sub_ok false (shortNode [i] c newFlag)).
  { intros Hf. constructor; [by left|done|by rewrite hasTerm_nibbles|done]. }
  assert (HL : forall k val fl, sub_ok false (shortNode k val fl) -> same c (shortNode k val fl) ->
    sub_ok false (shortNode (i :: k) val newFlag) /\ forall q x, holds (shortNode (i :: k) val newFlag) q x <-> exists q', q = i :: q' /\ holds c q' x).
  { intros k val fl Ok Hs. split; [exact (lengthen_ok [i] k val fl newFlag Hp Ok)|]. intros q x. rewrite (holds_lengthen [i] k val fl newFlag).
    by setoid_rewrite (Hs _ x). }
  inversion Oc as [| |k val fl Hkp Hnil Hval Hfull|cs fl Hl Hcs Hs|h m Hm Hld Hmk]; subst; [done| | |].
  - destruct (HL k val fl Oc) as [O Hh]; [done|]. by eexists.
  - eexists. split; [done|]. split; [by apply HF|]. split; [done|]. intros q x. apply (holds_short_iff [i]).
  - cbn [resolve]. unfold resolveHash. rewrite Hm. cbn [then_ ok]. assert (HH := fun q x => holds_hash_iff h m q x Hm).
    destruct m as [| |k val fl|cs fl|]; try done.
    + destruct (HL k val fl Hmk) as [O Hh]; [intros q x; by rewrite HH|]. by eexists.
    + eexists. split; [done|]. split; [apply HF; cbn; eauto|]. split; [done|]. intros q x. apply (holds_short_iff [i]).
Qed.

(** What [reduce] makes of the children of a full node. *)
Lemma reduce_spec cs fl prefix :
  length cs = 17%nat -> (forall i c, 0 <= i -> cs !! Z.to_nat i = Some c -> sub_ok (i =? 16) c) -> (exists j c, cs !! j = Some c /\ c <> nilNode) ->
  exists n', reduce db cs prefix = ok (true, n') /\ sub_ok false n' /\ loaded n' /\ same (fullNode cs fl) n'.
Proof.
  intros Hl Hcs (j0 & c0 & Hj0 & Hc0). unfold reduce. destruct (only_child_spec 0 cs) as [[_ HF]|[(j & c & -> & Hj & Hc & HU)|[-> Hs]]]; [lia|..].
  - rewrite Forall_forall in HF. destruct Hc0. apply HF. by eapply list_elem_of_lookup_2.
  - rewrite Z.add_0_l. pose proof (lookup_lt_Some _ _ _ Hj) as Hlt. rewrite (proj2 (Z.leb_le 0 (Z.of_nat j))) by lia. rewrite Nat2Z.id, Hj. cbn [index].
    assert (Oc : sub_ok (Z.of_nat j =? 16) c) by (apply Hcs; [lia|by rewrite Nat2Z.id]).
    destruct (Z.eqb_spec (Z.of_nat j) 16) as [E|Hne]; cbn [negb].
    + inversion Oc as [|v Hv| | |]; subst; [done|]. eexists. split; [done|]. rewrite E.
      split; [|split; [done|]]; [constructor; [right; by exists []; split; [|constructor]|done|by constructor|done]|].
      intros q x. rewrite (holds_only cs fl j (valueNode v)), E by done. apply (holds_short_iff [16]).
    + destruct (shorten_child (Z.of_nat j) c prefix) as (n' & -> & O & L & Hh); [unfold nibble; lia|done|done|].
      exists n'. split_and!; [done..|]. intros q x. by rewrite Hh, (holds_only cs fl j c).
  - cbn. eexists. split; [done|]. split; [by apply sub_full|]. split; [done|]. intros q x. by rewrite !holds_full_iff.
Qed.

Lemma removed_short k val val' fl fl' q : removed val val' q -> removed (shortNode k val fl) (shortNode k val' fl') (k ++ q).
Proof.
  intros HR q0 x. rewrite !holds_short_iff. split.
  - intros (q' & -> & Hh). apply HR in Hh as [Hq Hh]. split; [intros E; by apply app_inv_head in E|eauto].
  - intros [Hq (q' & -> & Hh)]. exists q'. split; [done|]. apply HR. split; [by intros ->|done].
Qed.

Lemma removed_full cs fl fl' i c c' q :
  cs !! Z.to_nat i = Some c -> 0 <= i -> removed c c' q -> removed (fullNode cs fl) (fullNode (<[ Z.to_nat i := c' ]> cs) fl') (i :: q).
Proof.
  intros Hc Hi HR q0 x. rewrite (holds_full_insert cs fl fl' i c c') by done. split.
  - intros [(q' & -> & Hh)|[Hq Hh]]; [|split; [by intros ->|done]]. apply HR in Hh as [Hq Hh]. split; [congruence|]. by econstructor.
  - intros [Hq Hh]. destruct (decide (head q0 = Some i)) as [E|]; [|by right]. left. destruct q0 as [|j q0]; [done|]. injection E as ->.
    apply (holds_full_cons cs fl i c) in Hh; [|done..]. exists q0. split; [done|]. apply HR. split; [congruence|done].
Qed.

(** The result of deleting; a full node leaves one that is loaded. *)
Record deleted (e : bool) (n : node) (key : bytes) (d : bool) (n' : node) : Prop := {
  del_ok : sub_ok e n';
  del_full : d = true -> full_under n -> loaded n';
  del_removed : removed n n' key;
  del_clean : d = false -> removed n n key
}.

Lemma removed_same n n1 n2 key : removed n n1 key -> same n1 n2 -> removed n n2 key.
Proof. intros HR HS q x. by rewrite (HS q x). Qed.

Lemma deleted_hash h m e key d n' : db h = Some m -> deleted e m key d n' -> deleted e (hashNode h) key d n'.
Proof.
  intros Hm [O F R C]. assert (HH := fun q x => holds_hash_iff h m q x Hm). split; try done.
  - intros Hd (cs & fl & Hh). apply F; [done|]. rewrite Hm in Hh. by injection Hh as ->.
  - intros q x. rewrite HH. apply R.
  - intros Hd q x. rewrite !HH. by apply C.
Qed.

Definition delete_correct (fuel : nat) : Prop := forall e n prefix key,
  sub_ok e n -> sub_key e key -> (2 * length key + hash_cost n < fuel)%nat ->
  exists d n', delete db fuel n prefix key = ok (d, n') /\ deleted e n key d n'.

(** Nothing to delete. *)
Lemma removed_absent n key : (forall x, ~ holds n key x) -> removed n n key.
Proof. intros Hn q x. split; [|by intros [_ ?]]. intros Hh. split; [|done]. intros ->. by apply (Hn x). Qed.

Lemma delete_full fuel cs fl prefix key :
  delete_correct fuel -> sub_ok false (fullNode cs fl) -> terminated key -> (2 * length key < S fuel)%nat ->
  exists d n', delete db (S fuel) (fullNode cs fl) prefix key = ok (d, n') /\ deleted false (fullNode cs fl) key d n'.
Proof.
  intros IH Hn Hk Hf. inversion Hn as [| | |? ? Hl Hcs Hs|]; subst.
  destruct key as [|k0 key']; [by destruct Hk as ([|] & ? & _)|]. cbn [delete].
  apply terminated_cons in Hk as [Hi Hk]. destruct (child_exists cs fl k0 Hn Hi) as [c Hc]. rewrite Hc. cbn [index].
  destruct (IH (k0 =? 16) c (prefix ++ [k0]) key') as (d & n' & -> & [O F R C]); [by apply (Hcs k0); [lia|]|done| |].
  { cbn in Hf. destruct c; cbn; lia. }
  cbn [then_ ok]. destruct d; cbn [negb].
  - destruct (reduce_spec (<[ Z.to_nat k0 := n' ]> cs) newFlag prefix) as (n2 & E & O2 & L2 & S2).
    + by rewrite length_insert.
    + intros i c' Hi' Hc'. destruct (decide (i = k0)) as [->|Hne].
      * rewrite list_lookup_insert_eq in Hc' by (by eapply lookup_lt_Some). by injection Hc' as <-.
      * rewrite list_lookup_insert_ne in Hc' by lia. by apply Hcs.
    + destruct Hs as (a & b & x & y & Hab & Ha & Hb & Hx & Hy). destruct (decide (a = Z.to_nat k0)) as [->|Hne].
      * exists b, y. by rewrite list_lookup_insert_ne.
      * exists a, x. by rewrite list_lookup_insert_ne.
    + exists true, n2. split; [exact E|]. split; try done. eapply removed_same; [|exact S2]. eapply removed_full; [done|lia|done].
  - assert (HC : removed (fullNode cs fl) (fullNode cs fl) (k0 :: key')).
    { rewrite <- (list_insert_id cs (Z.to_nat k0) c Hc) at 2. eapply removed_full; [done|lia|by apply C]. }
    eexists _, _. split; [done|]. by split.
Qed.

(** Below a short node whose key is on the path. *)
Lemma delete_below fuel k val fl prefix q :
  delete_correct fuel -> key_part k -> sub_ok false (shortNode k val fl) -> terminated (k ++ q) -> q <> [] -> (2 * length (k ++ q) < S fuel)%nat ->
  exists d n', (let? (dirty, child) := delete db fuel val (prefix ++ k) q in
      if negb dirty then ok (false, shortNode k val fl)
      else match child with
      | shortNode k' val' _ => ok (true, shortNode (k ++ k') val' newFlag)
      | _ => ok (true, shortNode k child newFlag)
      end) = ok (d, n') /\ deleted false (shortNode k val fl) (k ++ q) d n'.
Proof.
  intros IH Hkp Hn Hk Hq Hf. inversion Hn as [| |? ? ? _ Hnil Hval Hfull| |]; subst. pose proof (key_part_length k Hkp) as Hlk.
  apply terminated_app in Hk; [|done]. rewrite length_app in Hf. destruct (hasTerm k) eqn:Eh; [done|]. specialize (Hfull eq_refl).
  assert (Hnk : nibbles k) by (destruct Hkp as [[? _]|Ht]; [done|]; by rewrite hasTerm_terminated in Eh).
  destruct (IH false val (prefix ++ k) q Hval Hk) as (d & n' & -> & [O F R C]); [destruct val; cbn; lia|]. cbn [then_ ok].
  destruct d; cbn [negb].
  - pose proof (F eq_refl Hfull) as L. destruct n' as [| |k' val' fl'|cs fl'|]; try done.
    + eexists _, _. split; [done|]. split; try done; [by eapply lengthen_ok|]. eapply removed_same; [by apply (removed_short k val (shortNode k' val' fl') fl newFlag)|].
      intros q0 x. rewrite (holds_lengthen k k' val' fl' newFlag). symmetry. apply holds_short_iff.
    + eexists _, _. split; [done|]. split; try done; [|by apply removed_short]. constructor; [by left; split; [|intros ->; cbn in Hlk; lia]|done| |done].
      by rewrite hasTerm_nibbles.
  - assert (HC : removed (shortNode k val fl) (shortNode k val fl) (k ++ q)) by (apply removed_short; by apply C).
    eexists _, _. split; [done|]. by split.
Qed.

Lemma delete_short fuel k val fl prefix key :
  delete_correct fuel -> sub_ok false (shortNode k val fl) -> terminated key -> (2 * length key < S fuel)%nat ->
  exists d n', delete db (S fuel) (shortNode k val fl) prefix key = ok (d, n') /\ deleted false (shortNode k val fl) key d n'.
Proof.
  intros IH Hn Hk Hf. assert (Hkp : key_part k) by by inversion Hn. cbn [delete].
  destruct (prefixLen_spec key k) as (p & r & rk & Ekey & Ek & El & Hd). rewrite <- El. destruct rk as [|i1 r1].
  - rewrite app_nil_r in Ek. subst p key. rewrite Nat.ltb_irrefl. destruct r as [|i r].
    + rewrite app_nil_r in *. rewrite Nat.eqb_refl. eexists _, _. split; [done|]. split; try done; [constructor|].
      inversion Hn as [| |? ? ? _ Hnil Hval Hfull| |]; subst. rewrite hasTerm_terminated in Hval by done.
      intros q x. rewrite holds_nil_iff, holds_short_iff. split; [done|]. intros [Hq (q' & -> & Hh)].
      apply (sub_holds _ _ _ _ Hval) in Hh as [Hh _]. cbn in Hh. subst q'. by rewrite app_nil_r in Hq.
    + rewrite (proj2 (Nat.eqb_neq _ _)) by (rewrite length_app; cbn; lia). rewrite take_app_length, drop_app_length. by apply delete_below.
  - rewrite (proj2 (Nat.ltb_lt _ _)) by (rewrite Ek, length_app; cbn; lia).
    assert (HC : removed (shortNode k val fl) (shortNode k val fl) key); [|eexists _, _; split; [done|]; by split].
    apply removed_absent. intros x Hh. apply holds_short_iff in Hh as (q & E & _). rewrite Ekey, Ek, <- app_assoc in E. apply app_inv_head in E.
    subst r. by cbn in Hd.
Qed.

Lemma delete_spec fuel : delete_correct fuel.
Proof.
  induction fuel as [|fuel IH]; intros e n prefix key Hn Hk Hf; [lia|].
  destruct e.
  { cbn in Hk. subst key. inversion Hn as [|v Hv| | |]; subst; cbn [delete]; eexists _, _; (split; [done|]); split; try done.
    - apply removed_absent. intros x Hh. by apply holds_nil_iff in Hh.
    - intros _. apply removed_absent. intros x Hh. by apply holds_nil_iff in Hh.
    - constructor.
    - intros q x. rewrite holds_nil_iff, holds_value_iff. naive_solver. }
  cbn [sub_key] in Hk. destruct n as [|v|k val fl|cs fl|h]; [|by inversion Hn|apply delete_short; [done..|cbn in Hf; lia]|apply delete_full; [done..|cbn in Hf; lia]|].
  - eexists _, _. split; [done|]. assert (HC : removed nilNode nilNode key) by (apply removed_absent; intros x Hh; by apply holds_nil_iff in Hh). by split.
  - inversion Hn as [| | | |? m Hm Hld Hmk]; subst. cbn [delete]. unfold resolveHash. rewrite Hm. cbn [then_ ok].
    assert (Hnh : hash_cost m = 0%nat) by by destruct m.
    destruct (IH false m prefix key Hmk Hk) as (d & n' & -> & [O F R C]); [cbn in Hf; lia|]. cbn [then_ ok].
    destruct d; cbn [negb]; eexists _, _; (split; [done|]); (eapply deleted_hash; [exact Hm|]); split; try done. by apply C.
Qed.
End contents.

(** ** A trie is a map *)
Section map.
Context (db : bytes -> option node).

(** The trie holds the map's values under the nibbles of its keys. *)
Record represents (root : node) (m : gmap bytes bytes) : Prop := {
  rep_ok : sub_ok db false root;
  rep_wf : map_Forall (fun key _ => wf_bytes key) m;
  rep_holds : forall k x, holds db root k x <-> exists key, k = keybytesToHex key /\ m !! key = Some x
}.

Inductive trie_op := OpGet (key : bytes) | OpUpdate (key value : bytes) | OpDelete (key : bytes).

Definition op_key (o : trie_op) : bytes := match o with OpGet key | OpUpdate key _ | OpDelete key => key end.

(** What the operation returns and the new root. *)
Definition trie_step (o : trie_op) (root : node) : option (bytes * option MissingNodeError * node) :=
  match o with
  | OpGet key => TryGet db key root
  | OpUpdate key value => '(err, root) ← TryUpdate db key value root; Some ([], err, root)
  | OpDelete key => '(err, root) ← TryDelete db key root; Some ([], err, root)
  end.

Definition map_step (o : trie_op) (m : gmap bytes bytes) : bytes * gmap bytes bytes :=
  match o with
  | OpGet key => (default [] (m !! key), m)
  | OpUpdate key value => ([], if zlen value =? 0 then base.delete key m else <[ key := value ]> m)
  | OpDelete key => ([], base.delete key m)
  end.

Fixpoint trie_run (ops : list trie_op) (root : node) : option (list (bytes * option MissingNodeError) * node) :=
  match ops with
  | [] => Some ([], root)
  | o :: ops => '(v, err, root) ← trie_step o root; '(rs, root) ← trie_run ops root; Some ((v, err) :: rs, root)
  end.

Fixpoint map_run (ops : list trie_op) (m : gmap bytes bytes) : list bytes * gmap bytes bytes :=
  match ops with
  | [] => ([], m)
  | o :: ops => let (v, m) := map_step o m in let (vs, m) := map_run ops m in (v :: vs, m)
  end.

Lemma holds_key root m key x : represents root m -> wf_bytes key -> holds db root (keybytesToHex key) x <-> m !! key = Some x.
Proof.
  intros [_ Hw Hh] Hk. rewrite Hh. split; [|eauto]. intros (key' & E & Hm). apply keybytes_inj in E as ->; [done..|]. exact (Hw key' x Hm).
Qed.

Lemma fuel_enough key n : (2 * length key + hash_cost n < trie_fuel key)%nat.
Proof. unfold trie_fuel. destruct n; cbn; lia. Qed.

Lemma TryGet_map key root m :
  represents root m -> wf_bytes key -> exists root', TryGet db key root = Some (default [] (m !! key), None, root') /\ represents root' m.
Proof.
  intros HR Hk. pose proof (keybytes_terminated key Hk) as Ht. unfold TryGet.
  destruct (tryGet_spec db (trie_fuel (keybytesToHex key)) false root (keybytesToHex key) 0) as (v & n' & r & -> & [G1 G2 G3 _ _]);
    [apply HR|done|apply fuel_enough|]. cbn [ok].
  assert (Ev : v = default [] (m !! key)).
  { pose proof (fun x => holds_key root m key x HR Hk) as Hm. change (drop 0 (keybytesToHex key)) with (keybytesToHex key) in G1.
    destruct (m !! key) as [x|] eqn:Em; cbn.
    - destruct (proj1 (G1 x)) as [-> _]; [by apply Hm|done].
    - destruct v as [|b v]; [done|]. exfalso. assert (Hh : holds db root (keybytesToHex key) (b :: v)) by by apply G1.
      apply Hm in Hh. done. }
  rewrite Ev. eexists. split; [done|]. destruct r; [|done]. destruct HR as [_ Hw Hh]. split; [done|done|]. intros k x. by rewrite (G2 k x).
Qed.

Lemma delete_map key root m :
  represents root m -> wf_bytes key -> let k := keybytesToHex key in
  exists root', set_root (delete db (trie_fuel k) root [] k) root = Some (None, root') /\ represents root' (base.delete key m).
Proof.
  intros HR Hk k. destruct (delete_spec db (trie_fuel k) false root [] k) as (d & n' & -> & [O _ R _]);
    [apply HR|by apply keybytes_terminated|apply fuel_enough|]. cbn [ok set_root]. eexists. split; [done|].
  destruct HR as [_ Hw Hh]. split; [done|by apply map_Forall_delete|]. intros q x. rewrite (R q x), Hh. split.
  - intros [Hq (key' & -> & Hm)]. exists key'. split; [done|]. rewrite lookup_delete_ne; [done|]. by intros ->.
  - intros (key' & -> & Hm). apply lookup_delete_Some in Hm as [Hne Hm]. split; [|eauto]. intros E.
    apply keybytes_inj in E; [congruence|exact (Hw _ _ Hm)|done].
Qed.

Lemma insert_map key value root m :
  represents root m -> wf_bytes key -> value <> [] -> let k := keybytesToHex key in
  exists root', set_root (insert db (trie_fuel k) root [] k (valueNode value)) root = Some (None, root') /\ represents root' (<[ key := value ]> m).
Proof.
  intros HR Hk Hv k. destruct (insert_spec db (trie_fuel k) false root [] k value) as (d & n' & -> & [O _ _ U _]);
    [apply HR|by apply keybytes_terminated|done|apply fuel_enough|]. cbn [ok set_root]. eexists. split; [done|].
  destruct HR as [_ Hw Hh]. split; [done|by apply map_Forall_insert_2|]. intros q x. rewrite (U q x), Hh. split.
  - intros [[-> ->]|[Hq (key' & -> & Hm)]]; [exists key; by rewrite lookup_insert_eq|]. exists key'. split; [done|].
    rewrite lookup_insert_ne; [done|]. by intros ->.
  - intros (key' & -> & Hm). apply lookup_insert_Some in Hm as [[<- <-]|[Hne Hm]]; [by left|]. right. split; [|eauto]. intros E.
    apply keybytes_inj in E; [congruence|exact (Hw _ _ Hm)|done].
Qed.

Lemma trie_step_map o root m :
  represents root m -> wf_bytes (op_key o) ->
  exists root', trie_step o root = Some ((map_step o m).1, None, root') /\ represents root' (map_step o m).2.
Proof.
  intros HR Hk. destruct o as [key|key value|key]; cbn [trie_step map_step fst snd op_key] in *; [by apply TryGet_map| |].
  - unfold TryUpdate. destruct (Z.eqb_spec (zlen value) 0) as [E|Hne]; cbn [negb].
    + destruct (delete_map key root m HR Hk) as (root' & -> & HR'). cbn. eauto.
    + destruct (insert_map key value root m HR Hk) as (root' & -> & HR'); [by intros ->|]. cbn. eauto.
  - destruct (delete_map key root m HR Hk) as (root' & E & HR'). unfold TryDelete. rewrite E. cbn. eauto.
Qed.

(** C20: the trie implements a map.  Starting from a trie in minimal form that
    represents a map, and whose nodes are all in memory or in the database, every
    sequence of reads, updates and deletions returns without panic and without
    error what the map returns, an update with an empty value deletes the key, and
    the trie is again in minimal form and represents the resulting map. *)
Theorem trie_refines_map (ops : list trie_op) (root : node) (m : gmap bytes bytes) :
  represents root m -> Forall (fun o => wf_bytes (op_key o)) ops ->
  exists root', trie_run ops root = Some ((fun v => (v, None)) <$> (map_run ops m).1, root') /\ represents root' (map_run ops m).2.
Proof.
  intros HR HF. revert root m HR. induction HF as [|o ops Ho _ IH]; intros root m HR; [by exists root|]. cbn [trie_run map_run].
  destruct (trie_step_map o root m HR Ho) as (root1 & -> & HR1). destruct (map_step o m) as [v m1]. cbn [mbind option_bind fst snd] in *.
  destruct (IH root1 m1 HR1) as (root2 & -> & HR2). destruct (map_run ops m1) as [vs m2]. cbn. by exists root2.
Qed.
End map.

(** ** A concrete trie *)
Module ToyTrie.
Definition db (_ : bytes) : option node := None.
Definition ops : list trie_op :=
  [OpUpdate [18; 52] [1]; OpUpdate [18; 53] [2]; OpUpdate [99] [3]; OpGet [18; 53]; OpDelete [18; 52]; OpGet [18; 52]; OpUpdate [99] []].

Lemma empty_represents : represents db nilNode ∅.
Proof.
  split; [constructor|apply map_Forall_empty|]. intros k x. split; [intros Hh; inversion Hh|]. intros (key & _ & E). by rewrite lookup_empty in E.
Qed.

Lemma ops_wf : Forall (fun o => wf_bytes (op_key o)) ops.
Proof. repeat constructor; lia. Qed.
End ToyTrie.

(** Only the key [18; 53] is left, as one short node. *)
Lemma trie_refines_map_witness :
  exists root, trie_run ToyTrie.db ToyTrie.ops nilNode = Some ((fun v => (v, None)) <$> [[]; []; []; [2]; []; []; []], root) /\
    represents ToyTrie.db root {[ [18; 53] := [2] ]}.
Proof.
  destruct (trie_refines_map ToyTrie.db ToyTrie.ops nilNode ∅ ToyTrie.empty_represents ToyTrie.ops_wf) as (root & E & HR).
  exists root. split; [exact E|exact HR].
Defined.
