(* ===== verification/TrieShape.v ===== *)
(** * The contents of a trie determine its shape

    Two tries in minimal form that hold the same keys and values are the same
    tree, however they were built and whatever part of them is still in a
    database. *)
From S2P Require Import Prelude TrieKeys Trie.

(** ** What minimal form gives *)
Section minimal.
Context (db : bytes -> option node).

Lemma sub_nonempty e n : sub_ok db e n -> n <> nilNode -> exists k x, holds db n k x.
Proof.
  induction 1 as [e|v Hv|k val fl Hkp Hnil Hval IH Hfull|cs fl Hl Hcs IH Hs|h n Hn Hld Hok IH]; intros Hne; [done| | | |].
  - exists [], v. constructor.
  - destruct (IH Hnil) as (k' & x & Hh). exists (k ++ k'), x. by constructor.
  - destruct Hs as (i & _ & c & _ & _ & Hc & _ & Hcn & _). destruct (IH (Z.of_nat i) c) as (k & x & Hh); [lia|by rewrite Nat2Z.id|done|].
    exists (Z.of_nat i :: k), x. apply (holds_full_cons db cs fl (Z.of_nat i) c); [by rewrite Nat2Z.id|lia|done].
  - destruct IH as (k & x & Hh); [by destruct n|]. exists k, x. by econstructor.
Qed.

(** A full node holds keys with different first nibbles. *)
Lemma full_branches n :
  sub_ok db false n -> full_under db n -> exists i j k k' x x', i <> j /\ holds db n (i :: k) x /\ holds db n (j :: k') x'.
Proof.
  intros Hn Hf. assert (HF : forall cs fl, sub_ok db false (fullNode cs fl) ->
    exists i j k k' x x', i <> j /\ holds db (fullNode cs fl) (i :: k) x /\ holds db (fullNode cs fl) (j :: k') x').
  { intros cs fl Ho. inversion Ho as [| | |? ? Hl Hcs (a & b & c & d & Hab & Ha & Hb & Hc & Hd)|]; subst.
    destruct (sub_nonempty _ c (Hcs (Z.of_nat a) c ltac:(lia) ltac:(by rewrite Nat2Z.id)) Hc) as (k & x & Hx).
    destruct (sub_nonempty _ d (Hcs (Z.of_nat b) d ltac:(lia) ltac:(by rewrite Nat2Z.id)) Hd) as (k' & x' & Hx').
    exists (Z.of_nat a), (Z.of_nat b), k, k', x, x'. split; [lia|].
    split; econstructor; try done; try lia; by rewrite Nat2Z.id. }
  destruct n as [| | |cs fl|h]; try done; [by apply HF|]. destruct Hf as (cs & fl & Hd).
  inversion Hn as [| | | |? m Hm _ Hok]; subst. rewrite Hd in Hm. injection Hm as <-.
  destruct (HF cs fl Hok) as (i & j & k & k' & x & x' & Hij & H1 & H2). exists i, j, k, k', x, x'.
  split; [done|]. split; by econstructor.
Qed.

(** The keys below a short node start with its key, and not all with more. *)
Lemma short_longest k val fl b :
  sub_ok db false (shortNode k val fl) -> b <> [] -> key_part (k ++ b) -> ~ (forall q x, holds db (shortNode k val fl) q x -> exists q', q = k ++ b ++ q').
Proof.
  intros Hn Hb Hp HA. inversion Hn as [| |? ? ? Hkp Hnil Hval Hfull| |]; subst.
  assert (Hnb : hasTerm k = false).
  { destruct b as [|i b]; [done|]. destruct (key_part_split k i b Hp) as (Hk & _). by apply hasTerm_nibbles. }
  rewrite Hnb in Hval. destruct (full_branches val Hval (Hfull Hnb)) as (i & j & q1 & q2 & x1 & x2 & Hij & H1 & H2).
  destruct (HA (k ++ i :: q1) x1) as (r1 & E1); [by constructor|]. destruct (HA (k ++ j :: q2) x2) as (r2 & E2); [by constructor|].
  apply app_inv_head in E1, E2. destruct b as [|y b]; [done|]. injection E1 as -> _. injection E2 as -> _. done.
Qed.
End minimal.

(** ** The same tree *)
Section alike.
Context (db1 db2 : bytes -> option node).

(** Equal but for flags and for what is loaded. *)
Inductive alike : node -> node -> Prop :=
  | alike_nil : alike nilNode nilNode
  | alike_value v : alike (valueNode v) (valueNode v)
  | alike_short k v1 v2 f1 f2 : alike v1 v2 -> alike (shortNode k v1 f1) (shortNode k v2 f2)
  | alike_full cs1 cs2 f1 f2 :
      length cs1 = length cs2 -> (forall i c1 c2, cs1 !! i = Some c1 -> cs2 !! i = Some c2 -> alike c1 c2) ->
      alike (fullNode cs1 f1) (fullNode cs2 f2)
  | alike_hash1 h n1 n2 : db1 h = Some n1 -> alike n1 n2 -> alike (hashNode h) n2
  | alike_hash2 n1 h n2 : db2 h = Some n2 -> alike n1 n2 -> alike n1 (hashNode h).

Definition agree (n1 n2 : node) : Prop := forall k x, holds db1 n1 k x <-> holds db2 n2 k x.

Lemma agree_short k v1 v2 f1 f2 : agree (shortNode k v1 f1) (shortNode k v2 f2) -> agree v1 v2.
Proof.
  intros HA q x. specialize (HA (k ++ q) x). rewrite !holds_short_iff in HA. split; intros Hh.
  - destruct (proj1 HA) as (q' & E & Hh'); [eauto|]. by apply app_inv_head in E as ->.
  - destruct (proj2 HA) as (q' & E & Hh'); [eauto|]. by apply app_inv_head in E as ->.
Qed.

(** Two short nodes with the same contents have the same key. *)
Lemma short_keys k1 v1 f1 k2 v2 f2 :
  sub_ok db1 false (shortNode k1 v1 f1) -> sub_ok db2 false (shortNode k2 v2 f2) -> agree (shortNode k1 v1 f1) (shortNode k2 v2 f2) -> k1 = k2.
Proof.
  intros H1 H2 HA. destruct (prefixLen_spec k1 k2) as (p & a & b & -> & -> & _ & Hd).
  assert (K1 : key_part (p ++ a)) by by inversion H1. assert (K2 : key_part (p ++ b)) by by inversion H2.
  destruct a as [|i a], b as [|j b]; [done|exfalso..].
  - rewrite app_nil_r in *. eapply (short_longest db1 p v1 f1 (j :: b)); [done..|]. intros q x Hh. apply HA, holds_short_iff in Hh as (q' & -> & _).
    exists q'. by rewrite <- app_assoc.
  - rewrite app_nil_r in *. eapply (short_longest db2 p v2 f2 (i :: a)); [done..|]. intros q x Hh. apply HA, holds_short_iff in Hh as (q' & -> & _).
    exists q'. by rewrite <- app_assoc.
  - destruct (sub_nonempty db1 _ _ H1) as (q & x & Hh); [done|]. pose proof (proj1 (HA q x) Hh) as Hh'.
    apply holds_short_iff in Hh as (q1 & -> & _). apply holds_short_iff in Hh' as (q2 & E & _). rewrite <- !app_assoc in E.
    apply app_inv_head in E. by injection E as E _.
Qed.

(** A short node and a full node hold different keys. *)
Lemma short_not_full (dba dbb : bytes -> option node) k v f cs f' :
  sub_ok dba false (shortNode k v f) -> sub_ok dbb false (fullNode cs f') ->
  ~ (forall q x, holds dbb (fullNode cs f') q x -> holds dba (shortNode k v f) q x).
Proof.
  intros H1 H2 HA. destruct (full_branches dbb _ H2 I) as (i & j & q1 & q2 & x1 & x2 & Hij & Hi & Hj).
  apply HA, holds_short_iff in Hi as (r1 & E1 & _). apply HA, holds_short_iff in Hj as (r2 & E2 & _).
  assert (Hk : key_part k) by by inversion H1. apply key_part_length in Hk. destruct k as [|y k]; [cbn in Hk; lia|].
  injection E1 as -> _. injection E2 as -> _. done.
Qed.

Lemma agree_hash2 n1 h n2 : db2 h = Some n2 -> agree n1 (hashNode h) -> agree n1 n2.
Proof. intros Hd HA k x. by rewrite (HA k x), (holds_hash_iff db2 h n2). Qed.

Lemma agree_hash1 n2 h n1 : db1 h = Some n1 -> agree (hashNode h) n2 -> agree n1 n2.
Proof. intros Hd HA k x. by rewrite <- (HA k x), (holds_hash_iff db1 h n1). Qed.

Lemma agree_child cs1 f1 cs2 f2 i c1 c2 :
  agree (fullNode cs1 f1) (fullNode cs2 f2) -> cs1 !! i = Some c1 -> cs2 !! i = Some c2 -> agree c1 c2.
Proof.
  intros HA H1 H2 k x. rewrite <- (holds_full_cons db1 cs1 f1 (Z.of_nat i) c1), <- (holds_full_cons db2 cs2 f2 (Z.of_nat i) c2);
    rewrite ?Nat2Z.id; auto; lia.
Qed.

(** It is enough to compare with nodes that are not hashes. *)
Lemma alike_resolved e n1 :
  (forall m, hash_cost m = 0%nat -> sub_ok db2 e m -> agree n1 m -> alike n1 m) -> forall n2, sub_ok db2 e n2 -> agree n1 n2 -> alike n1 n2.
Proof.
  intros HR n2 H2 HA. destruct n2 as [| | | |h]; try (by apply HR). inversion H2 as [| | | |? m Hm Hld Hok]; subst.
  apply (alike_hash2 n1 h m Hm). apply HR; [by destruct m|done|]. by eapply agree_hash2.
Qed.

Lemma agree_empty n1 n2 e : sub_ok db2 e n2 -> n2 <> nilNode -> agree n1 n2 -> (forall k x, ~ holds db1 n1 k x) -> False.
Proof. intros H2 Hn HA HN. destruct (sub_nonempty db2 e n2 H2 Hn) as (k & x & Hh). by apply HA, HN in Hh. Qed.

Lemma agree_filled n1 e : sub_ok db1 e n1 -> n1 <> nilNode -> agree n1 nilNode -> False.
Proof. intros H1 Hn HA. destruct (sub_nonempty db1 e n1 H1 Hn) as (k & x & Hh). apply HA in Hh. by apply holds_nil_iff in Hh. Qed.

(** Tries in minimal form with the same contents are the same tree. *)
Lemma agree_alike e n1 n2 : sub_ok db1 e n1 -> sub_ok db2 e n2 -> agree n1 n2 -> alike n1 n2.
Proof.
  intros H1. revert n2. induction H1 as [e|v Hv|k val fl Hkp Hnil Hval IH Hfull|cs fl Hl Hcs IH Hs|h n Hn Hld Hok IH].
  - intros n2 H2 HA. destruct n2; try (exfalso; eapply agree_empty; [exact H2|done|exact HA|]; intros k x Hh; by apply holds_nil_iff in Hh).
    constructor.
  - intros n2 H2 HA. inversion H2 as [|v' Hv'| | |]; subst; [exfalso; eapply (agree_filled (valueNode v) true); [by constructor|done|exact HA]|].
    pose proof (proj1 (HA [] v) (holds_value db1 v)) as Hh. apply holds_value_iff in Hh as [_ ->]. constructor.
  - apply alike_resolved. assert (H1 : sub_ok db1 false (shortNode k val fl)) by by constructor.
    intros [| |k2 v2 f2|cs2 f2|h2] Hm H2 HA; try done; [exfalso; eapply agree_filled; [exact H1|done|exact HA]|by inversion H2| |].
    + assert (k = k2) as -> by (by eapply short_keys). constructor. inversion H2; subst. apply IH; [done|]. by eapply agree_short.
    + exfalso. eapply (short_not_full db1 db2); [exact H1|exact H2|]. intros q x. apply HA.
  - apply alike_resolved. assert (H1 : sub_ok db1 false (fullNode cs fl)) by by constructor.
    intros [| |k2 v2 f2|cs2 f2|h2] Hm H2 HA; try done; [exfalso; eapply agree_filled; [exact H1|done|exact HA]|by inversion H2| |].
    + exfalso. eapply (short_not_full db2 db1); [exact H2|exact H1|]. intros q x. apply HA.
    + inversion H2 as [| | |? ? Hl2 Hcs2 _|]; subst. constructor; [congruence|]. intros i c1 c2 E1 E2.
      apply (IH (Z.of_nat i) c1); [lia|by rewrite Nat2Z.id|apply Hcs2; [lia|by rewrite Nat2Z.id]|]. by eapply agree_child.
  - intros n2 H2 HA. apply (alike_hash1 h n n2 Hn). apply IH; [done|]. by eapply agree_hash1.
Qed.
End alike.
