(* ===== verification/TrieHash.v ===== *)
(** * [trie/hasher.go]: the root hash of a trie

    A node is hashed by replacing its children by their references, the encoding
    itself when it is shorter than 32 bytes and its hash otherwise, and encoding
    the result in RLP.  Nodes cache their hash; [Hash] uses the caches, [Commit]
    writes the nodes that are not yet in the database to it.  The properties: the
    hash is the one the contents alone determine, whatever the history of the trie,
    its caches and what is loaded of it.

    [None] is a panic. *)
From S2P Require Import Prelude Rlp Header Common TrieKeys Trie TrieShape.

Section hasher.
Context `{!Keccak}.

Definition makeHashNode (data : bytes) : bytes := be 32 (Keccak256 data).

(** What [rlp.Encode] sees of a node. *)
Definition child_item (f : node -> item) (c : node) : item := match c with nilNode => Str [] | _ => f c end.
Fixpoint node_item (n : node) : item :=
  match n with
  | nilNode => Lst []
  | valueNode v => Str v
  | hashNode h => Str h
  | shortNode k val _ => Lst [Str k; node_item val]
  | fullNode cs _ => Lst (map (child_item node_item) cs)
  end.

Definition node_rlp (n : node) : bytes := EncodeToBytes (node_item n).

Definition cache (n : node) : option bytes * bool :=
  match n with shortNode _ _ fl | fullNode _ fl => (flag_hash fl, dirty fl) | _ => (None, true) end.

(** The blobs written to the database, by their hash. *)
Definition writes := list (bytes * bytes).

Definition store (commit : bool) (n : node) (force : bool) : node * writes :=
  match n with
  | nilNode | hashNode _ => (n, [])
  | _ =>
      let tmp := node_rlp n in
      if (zlen tmp <? 32) && negb force then (n, [])
      else
        let hash := default (makeHashNode tmp) (fst (cache n)) in
        (hashNode hash, if commit then [(hash, tmp)] else [])
  end.

(** The answer of the cache, if it has one: the hash and what replaces the node. *)
Definition cached_hash (commit : bool) (n : node) : option (node * node) :=
  match cache n with
  | (Some hash, dirty) => if negb commit then Some (hashNode hash, n) else if negb dirty then Some (hashNode hash, hashNode hash) else None
  | (None, _) => None
  end.

(** The hash kept in the node. *)
Definition set_cache (commit : bool) (hashed n : node) : node :=
  let fl := fun fl => {| flag_hash := match hashed with hashNode h => Some h | _ => None end; dirty := if commit then false else dirty fl |} in
  match n with
  | shortNode k val f => shortNode k val (fl f)
  | fullNode cs f => fullNode cs (fl f)
  | _ => n
  end.

Section list.
Context (f : node -> option (node * node * writes)).

(** The children below 16, collapsed and cached. *)
Fixpoint hash_list (i : nat) (cs : list node) : option (list node * list node * writes) :=
  match cs with
  | [] => Some ([], [], [])
  | c :: cs =>
      '(h, c', w) ← (if (16 <=? i)%nat || is_nil c then Some (c, c, []) else f c);
      '(hs, cs', ws) ← hash_list (S i) cs;
      Some (h :: hs, c' :: cs', w ++ ws)
  end.
End list.

Fixpoint hash (commit : bool) (n : node) (force : bool) : option (node * node * writes) :=
  match cached_hash commit n with
  | Some (hashed, cached) => Some (hashed, cached, [])
  | None =>
      '(collapsed, cached, ws) ←
        match n with
        | shortNode k val fl =>
            key ← hexToCompact k;
            '(v, v', ws) ← match val with valueNode _ => Some (val, val, []) | _ => hash commit val false end;
            Some (shortNode key v fl, shortNode k v' fl, ws)
        | fullNode cs fl =>
            '(hs, cs', ws) ← hash_list (fun c => hash commit c false) 0 cs;
            Some (fullNode hs fl, fullNode cs' fl, ws)
        | _ => Some (n, n, [])
        end;
      let (hashed, w) := store commit collapsed force in
      Some (hashed, set_cache commit hashed cached, ws ++ w)
  end.

(** ** [Hash] and [Commit], given the root *)
Definition trie_emptyRoot : bytes := Hex2Bytes "56e81f171bcc55a6ff8345e692c0f86e5b48e01b996cadc001622fb5e363b421".

(** The hash, the new root and the writes; a hashed node that is not a hash is
    not converted. *)
Definition hashRoot (commit : bool) (root : node) : option (bytes * node * writes) :=
  match root with
  | nilNode => Some (trie_emptyRoot, nilNode, [])
  | _ =>
      '(hashed, cached, ws) ← hash commit root true;
      match hashed with hashNode h => Some (h, cached, ws) | _ => None end
  end.

Definition Hash (root : node) : option (bytes * node) := '(h, root, _) ← hashRoot false root; Some (h, root).
Definition Commit (root : node) : option (bytes * node * writes) := hashRoot true root.
End hasher.

(** ** The encoding the contents determine *)
Section digest.
Context `{!Keccak}.

Definition item_hash (it : item) : bytes := makeHashNode (EncodeToBytes it).
Definition large (it : item) : bool := 32 <=? zlen (EncodeToBytes it).

(** The reference to a node in its parent. *)
Definition as_ref (child : bool) (it : item) : item := if child && large it then Str (item_hash it) else it.

(** The item of a node without regard to caches and to what is loaded: the
    reference in its parent if [child], the node itself otherwise. *)
Inductive item_of (db : bytes -> option node) : bool -> node -> item -> Prop :=
  | io_nil : item_of db true nilNode (Str [])
  | io_value c v : item_of db c (valueNode v) (Str v)
  | io_short c k kc val it fl : hexToCompact k = Some kc -> item_of db true val it -> item_of db c (shortNode k val fl) (as_ref c (Lst [Str kc; it]))
  | io_full c cs its fl :
      length its = length cs -> (forall i x it, cs !! i = Some x -> its !! i = Some it -> item_of db true x it) ->
      item_of db c (fullNode cs fl) (as_ref c (Lst its))
  | io_hash c h n it : db h = Some n -> item_of db c n it -> item_of db c (hashNode h) it.

Lemma list_pointwise {A} (l l' : list A) : length l = length l' -> (forall i x y, l !! i = Some x -> l' !! i = Some y -> x = y) -> l = l'.
Proof.
  intros Hl HE. apply list_eq_same_length with (n := length l'); [done|done|]. intros i x y _ Hx Hy. by eapply HE.
Qed.

(** The same tree has the same item. *)
Lemma alike_item db1 db2 n1 n2 c it1 it2 :
  alike db1 db2 n1 n2 -> item_of db1 c n1 it1 -> item_of db2 c n2 it2 -> it1 = it2.
Proof.
  intros HA. revert c it1 it2. induction HA as [|v|k v1 v2 f1 f2 _ IH|cs1 cs2 f1 f2 Hl _ IH|h n1 n2 Hd _ IH|n1 h n2 Hd _ IH];
    intros c it1 it2 I1 I2.
  - inversion I1; inversion I2; done.
  - inversion I1; inversion I2; congruence.
  - inversion I1 as [| |? ? kc1 ? i1 ? K1 J1| |]; inversion I2 as [| |? ? kc2 ? i2 ? K2 J2| |]; subst.
    rewrite K1 in K2. injection K2 as ->. by rewrite (IH _ _ _ J1 J2).
  - inversion I1 as [| | |? ? its1 ? L1 J1|]; inversion I2 as [| | |? ? its2 ? L2 J2|]; subst.
    assert (its1 = its2) as ->; [|done]. apply list_pointwise; [congruence|]. intros i x y Hx Hy.
    destruct (lookup_lt_is_Some_2 cs1 i) as [c1 E1]; [rewrite <- L1; by eapply lookup_lt_Some|].
    destruct (lookup_lt_is_Some_2 cs2 i) as [c2 E2]; [rewrite <- L2; by eapply lookup_lt_Some|].
    eapply IH; [exact E1|exact E2|by eapply J1|by eapply J2].
  - apply (IH c); [|done]. inversion I1; subst. congruence.
  - apply (IH c); [done|]. inversion I2; subst. congruence.
Qed.

Section db.
Context (db : bytes -> option node).

Lemma alike_refl e n : sub_ok db e n -> alike db db n n.
Proof. intros Hn. eapply agree_alike; [exact Hn|exact Hn|]. done. Qed.

Lemma list_choice {A B} (P : A -> B -> Prop) (l : list A) :
  (forall i x, l !! i = Some x -> exists y, P x y) -> exists l', length l' = length l /\ forall i x y, l !! i = Some x -> l' !! i = Some y -> P x y.
Proof.
  induction l as [|x l IH]; intros HP; [by exists []|]. destruct (HP O x) as [y Hy]; [done|].
  destruct IH as (l' & Hl & HL); [intros i z Hz; by apply (HP (S i))|]. exists (y :: l'). split; [cbn; by rewrite Hl|].
  intros [|i] z w Hz Hw; [injection Hz as <-; by injection Hw as <-|by eapply HL].
Qed.

Lemma compact_part k : key_part k -> exists kc, hexToCompact k = Some kc /\ compactToHex kc = k /\ wf_bytes kc.
Proof.
  intros [[Hk _]|(s & -> & Hs)].
  - destruct (compact_exists k false Hk) as (kc & E & B & W & _). rewrite app_nil_r in *. eauto.
  - destruct (compact_exists s true Hs) as (kc & E & B & W & _). eauto.
Qed.

(** Tries in minimal form have an item. *)
Lemma item_exists e n : sub_ok db e n -> forall c : bool, (n = nilNode -> c = true) -> exists it, item_of db c n it.
Proof.
  induction 1 as [e|v Hv|k val fl Hkp Hnil Hval IH Hfull|cs fl Hl Hcs IH Hs|h n Hn Hld Hok IH]; intros c Hc.
  - rewrite Hc by done. eexists. constructor.
  - eexists. constructor.
  - destruct (compact_part k Hkp) as (kc & E & _). destruct (IH true) as [it Hit]; [done|]. eexists. by econstructor.
  - destruct (list_choice (item_of db true) cs) as (its & L & HI).
    { intros i x Hx. apply (IH (Z.of_nat i) x); [lia|by rewrite Nat2Z.id|done]. }
    eexists. by constructor.
  - destruct (IH c) as [it Hit]; [by intros ->|]. eexists. by econstructor.
Qed.

Lemma item_unique c n it1 it2 : item_of db c n it1 -> item_of db c n it2 -> it1 = it2.
Proof.
  intros I1. revert it2. induction I1 as [|c v|c k kc val it fl K _ IH|c cs its fl L _ IH|c h n it Hd _ IH]; intros it2 I2; inversion I2; subst; try done.
  - match goal with H : hexToCompact k = Some ?x |- _ => rewrite K in H; injection H as <- end. erewrite IH; [done|done].
  - match goal with |- _ = as_ref c (Lst ?x) => assert (its = x) as ->; [|done] end. apply list_pointwise; [congruence|]. intros i x y Hx Hy.
    destruct (lookup_lt_is_Some_2 cs i) as [z Hz]; [rewrite <- L; by eapply lookup_lt_Some|]. by eapply IH; eauto.
  - apply IH. congruence.
Qed.

(** The item of a node and the reference to it. *)
Lemma item_child n it : item_of db false n it -> loaded n -> item_of db true n (as_ref true it).
Proof. intros I1 Hn. inversion I1; subst; try done; by constructor. Qed.

Lemma item_own n it : item_of db true n it -> loaded n -> exists it0, item_of db false n it0 /\ it = as_ref true it0.
Proof. intros I1 Hn. inversion I1 as [| |? ? ? ? ? ? K J|? ? ? ? L J|]; subst; try done; eexists; (split; [by econstructor|done]). Qed.
End db.
End digest.

(** ** Caches that are right *)
Section right.
Context `{!Keccak} (db : bytes -> option node).

(** [h] is the hash of the node [n]; as a child, its encoding is large. *)
Definition hash_right (c : bool) (n : node) (h : bytes) : Prop :=
  exists it, item_of db false n it /\ h = item_hash it /\ (c = true -> large it = true).

Definition flag_right (c : bool) (n : node) (fl : nodeFlag) : Prop := forall h, flag_hash fl = Some h -> hash_right c n h.

(** All cached hashes and all hash nodes, below a parent if [c], are right. *)
Inductive right : bool -> node -> Prop :=
  | right_nil c : right c nilNode
  | right_value c v : right c (valueNode v)
  | right_short c k val fl : flag_right c (shortNode k val fl) fl -> right true val -> right c (shortNode k val fl)
  | right_full c cs fl :
      flag_right c (fullNode cs fl) fl -> (forall i x, cs !! i = Some x -> right true x) -> right c (fullNode cs fl)
  | right_hash c h n : db h = Some n -> hash_right c n h -> right c n -> right c (hashNode h).

Lemma right_new c n : flag_right c n newFlag.
Proof. intros h. done. Qed.

(** The node after hashing. *)
Record rehashed (e c : bool) (n n' : node) : Prop := {
  re_ok : sub_ok db e n';
  re_same : same db n n';
  re_item : forall d it, item_of db d n it -> item_of db d n' it;
  re_right : right c n';
  re_nil : n <> nilNode -> n' <> nilNode;
  re_full : full_under db n -> full_under db n'
}.

Lemma rehashed_itself e c n : sub_ok db e n -> right c n -> rehashed e c n n.
Proof. intros Hn Hr. by split. Qed.

(** The hash of a child or of the root. *)
Definition hashed_as (c : bool) (it : item) (hashed : node) : Prop :=
  if c then hashed <> nilNode /\ node_item hashed = it else hashed = hashNode (item_hash it).

(** A cached hash is the answer. *)
Lemma cached_right c n h it : loaded n -> hash_right c n h -> item_of db c n it -> hashed_as c it (hashNode h).
Proof.
  intros Hn (it0 & I0 & -> & HL) I1. destruct c; cbn; [|by rewrite (item_unique db false n it it0)].
  rewrite (item_unique db true n it (as_ref true it0)); [|done|by apply item_child]. unfold as_ref. rewrite HL by done. done.
Qed.

(** What [store] makes of a collapsed node with the item [it0]. *)
Lemma store_right c n it0 :
  loaded n -> fst (cache n) = None -> node_item n = it0 ->
  exists hashed, store false n (negb c) = (hashed, []) /\ hashed_as c (as_ref c it0) hashed /\
    forall h, hashed = hashNode h -> h = item_hash it0 /\ (c = true -> large it0 = true).
Proof.
  intros Hn Hc Ei. assert (Es : store false n (negb c) =
    if (zlen (EncodeToBytes it0) <? 32) && c then (n, []) else (hashNode (item_hash it0), [])).
  { unfold store, node_rlp, item_hash. rewrite Ei, Hc. rewrite negb_involutive. destruct n; done. }
  rewrite Es. unfold as_ref, large. destruct c; cbn; [|rewrite andb_false_r; eexists; split; [done|]; split; [done|]; intros h [= <-]; done].
  rewrite andb_true_r, Z.leb_antisym. destruct (zlen (EncodeToBytes it0) <? 32) eqn:El; cbn [negb].
  - eexists. split; [done|]. split; [by destruct n|]. intros h ->. done.
  - eexists. split; [done|]. split; [done|]. by intros h [= <-].
Qed.

(** [hash] is right for [n] in both places. *)
Definition hash_correct (e : bool) (n : node) : Prop := forall c it, right c n -> item_of db c n it ->
  exists hashed cached, hash false n (negb c) = Some (hashed, cached, []) /\ hashed_as c it hashed /\ rehashed e c n cached.

Lemma set_cache_right c k val fl it0 hashed :
  item_of db false (shortNode k val fl) it0 -> right true val ->
  (forall h, hashed = hashNode h -> h = item_hash it0 /\ (c = true -> large it0 = true)) -> right c (set_cache false hashed (shortNode k val fl)).
Proof.
  intros I0 Hr Hh. cbn. constructor; [|done]. intros h E. cbn in E. destruct hashed as [| | | |h']; try done. injection E as ->.
  destruct (Hh h eq_refl) as [-> HL]. exists it0. split; [|done]. inversion I0; subst. by constructor.
Qed.

(** A short node whose child is hashed. *)
Lemma hash_short k val fl :
  key_part k -> val <> nilNode -> sub_ok db (hasTerm k) val -> (hasTerm k = false -> full_under db val) ->
  ((forall v, val <> valueNode v) -> hash_correct (hasTerm k) val) -> hash_correct false (shortNode k val fl).
Proof.
  intros Hkp Hnil Hval Hfull IH c it Hr Hit. inversion Hr as [| |? ? ? ? HF HV| |]; subst. cbn [hash cached_hash cache].
  assert (Hok : sub_ok db false (shortNode k val fl)) by by constructor.
  destruct (flag_hash fl) as [h|] eqn:Ef; cbn [negb].
  { eexists _, _. split; [done|]. split; [apply (cached_right c (shortNode k val fl)); [done|by apply HF|done]|by apply rehashed_itself]. }
  inversion Hit as [| |? ? kc ? iv ? Hkc Hiv| |]; subst. rewrite Hkc. cbn [mbind option_bind].
  assert (HC : exists v v', (match val with valueNode _ => Some (val, val, []) | _ => hash false val false end) = Some (v, v', []) /\
    node_item v = iv /\ rehashed (hasTerm k) true val v').
  { destruct val as [|x|k' val' fl'|cs fl'|h]; [done|exists (valueNode x), (valueNode x); inversion Hiv; subst; split_and!; try done; by apply rehashed_itself|..];
      (destruct (IH ltac:(done) true iv HV Hiv) as (v & v' & E & [_ Ei] & HR); exists v, v'; by split_and!). }
  destruct HC as (v & v' & -> & Ei & [R1 R2 R3 R4 R5 R6]). cbn [mbind option_bind].
  set (it0 := Lst [Str kc; iv]). destruct (store_right c (shortNode kc v fl) it0) as (hashed & -> & HA & Hh); [done|done|by cbn; rewrite Ei|].
  eexists _, _. split; [done|]. split; [done|].
  assert (I0 : item_of db false (shortNode k v' fl) it0) by (apply (io_short db false); [done|by apply R3]).
  split.
  - constructor; [done|by apply R5|done|]. intros Hh'. by apply R6, Hfull.
  - intros q x. cbn [set_cache]. rewrite !holds_short_iff. by setoid_rewrite (R2 _ x).
  - intros d it1 I1. inversion I1 as [| |? ? kc1 ? iv1 ? Hkc1 Hiv1| |]; subst. constructor; [done|by apply R3].
  - by eapply set_cache_right.
  - done.
  - done.
Qed.

(** The children of a full node. *)
Lemma hash_list_right i cs its :
  length its = length cs ->
  (forall j x, cs !! j = Some x -> if (16 <=? i + j)%nat then (exists v, x = valueNode v) \/ x = nilNode else x <> nilNode -> hash_correct false x) ->
  (forall j x, cs !! j = Some x -> right true x) ->
  (forall j x, cs !! j = Some x -> sub_ok db (i + j =? 16)%nat x) ->
  (forall j x it, cs !! j = Some x -> its !! j = Some it -> item_of db true x it) ->
  exists hs cs', hash_list (fun c => hash false c false) i cs = Some (hs, cs', []) /\ map (child_item node_item) hs = its /\ length cs' = length cs /\
    forall j x x', cs !! j = Some x -> cs' !! j = Some x' -> rehashed (i + j =? 16)%nat true x x'.
Proof.
  revert i its. induction cs as [|c cs IH]; intros i [|it its] Hl HH HR HO HI; try done; [by exists [], []|]. cbn [hash_list].
  destruct (IH (S i) its) as (hs & cs' & E & Em & El & Hre).
  { by injection Hl. }
  { intros j x Hx. rewrite Nat.add_succ_comm. by apply (HH (S j)). }
  { intros j x Hx. by apply (HR (S j)). }
  { intros j x Hx. rewrite Nat.add_succ_comm. by apply (HO (S j)). }
  { intros j x it' Hx Hit. by apply (HI (S j)). }
  assert (HC : exists h c', (if (16 <=? i)%nat || is_nil c then Some (c, c, []) else hash false c false) = Some (h, c', []) /\
    child_item node_item h = it /\ rehashed (i =? 16)%nat true c c').
  { pose proof (HH O c eq_refl) as Hc. pose proof (HR O c eq_refl) as Hr. pose proof (HI O c it eq_refl eq_refl) as Hit.
    pose proof (HO O c eq_refl) as Ho. rewrite Nat.add_0_r in Hc, Ho. destruct (16 <=? i)%nat eqn:Ei.
    - exists c, c. split; [done|]. split; [|by apply rehashed_itself]. destruct Hc as [[v ->]| ->]; by inversion Hit.
    - destruct (is_nil c) eqn:En; [apply is_nil_spec in En as ->; exists nilNode, nilNode; inversion Hit; subst; split_and!; try done; by apply rehashed_itself|].
      cbn [orb]. destruct (Hc ltac:(by intros ->) true it Hr Hit) as (h & c' & E' & [Hn Ei'] & HRe). exists h, c'. split; [done|].
      split; [by destruct h|]. apply Nat.leb_gt in Ei. by rewrite (proj2 (Nat.eqb_neq i 16)) by lia. }
  destruct HC as (h & c' & -> & Eh & Hc). cbn [mbind option_bind]. rewrite E. cbn [mbind option_bind].
  exists (h :: hs), (c' :: cs'). split_and!; [done|cbn; by rewrite Eh, Em|cbn; by rewrite El|].
  intros [|j] x x' Hx Hx'; [injection Hx as <-; injection Hx' as <-; by rewrite Nat.add_0_r|].
  rewrite <- Nat.add_succ_comm. by eapply Hre.
Qed.

Lemma eqb_16 i : (i =? 16)%nat = (Z.of_nat i =? 16).
Proof. destruct (Nat.eqb_spec i 16), (Z.eqb_spec (Z.of_nat i) 16); lia || done. Qed.

(** Children replaced one by one. *)
Lemma rehashed_children cs cs' fl fl' :
  length cs = 17%nat -> length cs' = length cs -> several cs ->
  (forall j x x', cs !! j = Some x -> cs' !! j = Some x' -> rehashed (j =? 16)%nat true x x') ->
  sub_ok db false (fullNode cs' fl') /\ same db (fullNode cs fl) (fullNode cs' fl') /\
  forall d it, item_of db d (fullNode cs fl) it -> item_of db d (fullNode cs' fl') it.
Proof.
  intros Hl Hl' Hs HR.
  assert (HB : forall j x', cs' !! j = Some x' -> exists x, cs !! j = Some x /\ rehashed (j =? 16)%nat true x x').
  { intros j x' Hx'. destruct (lookup_lt_is_Some_2 cs j) as [x Hx]; [rewrite <- Hl'; by eapply lookup_lt_Some|]. eauto. }
  assert (HB' : forall j x, cs !! j = Some x -> exists x', cs' !! j = Some x' /\ rehashed (j =? 16)%nat true x x').
  { intros j x Hx. destruct (lookup_lt_is_Some_2 cs' j) as [x' Hx']; [rewrite Hl'; by eapply lookup_lt_Some|]. eauto. }
  split_and!.
  - constructor; [congruence| |].
    + intros i c Hi Hc. destruct (HB _ _ Hc) as (x & _ & [O _ _ _ _ _]). rewrite eqb_16, Z2Nat.id in O by lia. done.
    + destruct Hs as (a & b & x & y & Hab & Ha & Hb & Hx & Hy). destruct (HB' a x Ha) as (x' & Ha' & [_ _ _ _ N1 _]).
      destruct (HB' b y Hb) as (y' & Hb' & [_ _ _ _ N2 _]). exists a, b, x', y'. split_and!; auto.
  - intros q x. rewrite !holds_full_iff. split.
    + intros (i & q' & c' & -> & Hi & Hc & Hh). destruct (HB _ _ Hc) as (c & E & [_ S _ _ _ _]). exists i, q', c. split_and!; try done. by apply S.
    + intros (i & q' & c & -> & Hi & Hc & Hh). destruct (HB' _ _ Hc) as (c' & E & [_ S _ _ _ _]). exists i, q', c'. split_and!; try done. by apply S.
  - intros d it I1. inversion I1 as [| | |? ? its ? L J|]; subst. constructor; [congruence|]. intros i x' it' Hx' Hit.
    destruct (HB _ _ Hx') as (x & E & [_ _ T _ _ _]). apply T. by eapply J.
Qed.

Lemma hash_full cs fl :
  sub_ok db false (fullNode cs fl) ->
  (forall i c, 0 <= i < 16 -> cs !! Z.to_nat i = Some c -> c <> nilNode -> hash_correct false c) -> hash_correct false (fullNode cs fl).
Proof.
  intros Hok IH c it Hr Hit. inversion Hr as [| | |? ? ? HF HV|]; subst. cbn [hash cached_hash cache].
  destruct (flag_hash fl) as [h|] eqn:Ef; cbn [negb].
  { eexists _, _. split; [done|]. split; [apply (cached_right c (fullNode cs fl)); [done|by apply HF|done]|by apply rehashed_itself]. }
  inversion Hit as [| | |? ? its ? L J|]; subst. inversion Hok as [| | |? ? Hl Hcs Hs|]; subst.
  assert (HO : forall j x, cs !! j = Some x -> sub_ok db (j =? 16)%nat x).
  { intros j x Hx. rewrite eqb_16. apply Hcs; [lia|by rewrite Nat2Z.id]. }
  destruct (hash_list_right 0 cs its L) as (hs & cs' & -> & Em & El & HR); cbn [Nat.add].
  { intros j x Hx. pose proof (HO j x Hx) as O. destruct (16 <=? j)%nat eqn:Ej.
    - apply Nat.leb_le in Ej. apply lookup_lt_Some in Hx. rewrite (proj2 (Nat.eqb_eq j 16)) in O by lia. inversion O; subst; eauto.
    - apply Nat.leb_gt in Ej. apply (IH (Z.of_nat j)); [lia|by rewrite Nat2Z.id]. }
  { done. } { done. } { done. }
  cbn [mbind option_bind]. cbn [Nat.add] in HR. destruct (rehashed_children cs cs' fl fl Hl El Hs HR) as (_ & _ & T0).
  destruct (store_right c (fullNode hs fl) (Lst its)) as (hashed & -> & HA & Hh); [done|done|cbn; by rewrite Em|].
  eexists _, _. split; [done|]. split; [done|]. cbn [set_cache]. set (fl' := {| flag_hash := _; dirty := _ |}).
  destruct (rehashed_children cs cs' fl fl' Hl El Hs HR) as (O & S & T). split; try done. constructor.
  - intros h E. unfold fl' in E. cbn in E. destruct hashed as [| | | |h']; try done. injection E as ->. destruct (Hh h eq_refl) as [-> HL].
    exists (Lst its). split; [|done]. apply T. by apply (io_full db false).
  - intros j x' Hx'. destruct (lookup_lt_is_Some_2 cs j) as [x Hx]; [rewrite <- El; by eapply lookup_lt_Some|]. by destruct (HR j x x' Hx Hx').
Qed.

Lemma hash_hash e h : sub_ok db e (hashNode h) -> hash_correct e (hashNode h).
Proof.
  intros Hok c it Hr Hit. inversion Hok as [| | | |? m Hm Hld Hmk]; subst. inversion Hr as [| | | |? ? n Hn HH Hrn]; subst.
  rewrite Hm in Hn. injection Hn as <-. cbn. exists (hashNode h), (hashNode h). split; [done|]. split; [|by apply rehashed_itself].
  apply (cached_right c m); [done|done|]. inversion Hit; subst. congruence.
Qed.

(** In a trie in minimal form whose caches are right, the hash is right. *)
Lemma hash_spec n : sub_ok db false n -> n <> nilNode -> hash_correct false n.
Proof.
  intros Hn. remember false as e eqn:He. revert He.
  induction Hn as [e|v Hv|k val fl Hkp Hnil Hval IH Hfull|cs fl Hl Hcs IH Hs|h n Hn Hld Hok IH]; intros He Hne; [done|done| | |].
  - apply hash_short; try done. intros Hv. destruct (hasTerm k) eqn:Ek; [|by apply IH]. inversion Hval; subst; [done|]. by destruct (Hv v).
  - apply hash_full; [by constructor|]. intros i c Hi Hc Hcn. assert (E : (i =? 16) = false) by (apply Z.eqb_neq; lia).
    specialize (IH i c ltac:(lia) Hc E Hcn). by rewrite E in IH.
  - apply hash_hash. by econstructor.
Qed.
End right.

(** ** The operations keep the caches right *)
Lemma then_ok {A B} (r : Outcome A) (f : A -> Outcome B) b : then_ r f = ok b -> exists a, r = ok a /\ f a = ok b.
Proof. destruct r as [[a|]|]; [|done..]. by exists a. Qed.

Lemma index_ok {A B} (o : option A) (f : A -> Outcome B) b : index o f = ok b -> exists a, o = Some a /\ f a = ok b.
Proof. destruct o as [a|]; [|done]. by exists a. Qed.

Lemma ok_inj {A} (a b : A) : ok a = ok b -> a = b.
Proof. by intros [= ->]. Qed.

Section keeping.
Context `{!Keccak} (db : bytes -> option node).

Lemma right_hash_inv c h n : right db c (hashNode h) -> db h = Some n -> right db c n.
Proof. intros Hr Hn. inversion Hr; subst. congruence. Qed.

Lemma right_child c cs fl i x : right db c (fullNode cs fl) -> cs !! i = Some x -> right db true x.
Proof. intros Hr Hx. inversion Hr; subst. eauto. Qed.

Lemma right_full_new c (cs : list node) (i : nat) x : (forall j y, cs !! j = Some y -> right db true y) -> right db true x -> right db c (fullNode (<[ i := x ]> cs) newFlag).
Proof.
  intros HR Hx. constructor; [apply right_new|]. intros j y Hy. apply list_lookup_insert_Some in Hy as [(-> & -> & _)|[_ Hy]]; eauto.
Qed.

Lemma resolveHash_ok h prefix n : resolveHash db h prefix = ok n -> db h = Some n.
Proof. unfold resolveHash. destruct (db h); [|done]. by intros ->%ok_inj. Qed.

Lemma right_replicate n : forall j y, replicate n nilNode !! j = Some y -> right db true y.
Proof. intros j y Hy. apply lookup_replicate in Hy as [-> _]. constructor. Qed.

Lemma right_insert_child (cs : list node) (i : nat) x :
  (forall j y, cs !! j = Some y -> right db true y) -> right db true x -> forall j y, <[ i := x ]> cs !! j = Some y -> right db true y.
Proof. intros HR Hx j y Hy. apply list_lookup_insert_Some in Hy as [(-> & -> & _)|[_ Hy]]; eauto. Qed.

Lemma insert_right fuel c n prefix key value d n' :
  insert db fuel n prefix key value = ok (d, n') -> right db c n -> right db c value -> right db true value -> right db c n'.
Proof.
  revert c n prefix key value d n'. induction fuel as [|fuel IH]; intros c n prefix key value d n' E Hn Hc Hv; [done|].
  destruct key as [|k0 key']; cbn [insert] in E.
  { destruct n; try (apply ok_inj in E; by injection E as <- <-). destruct value; try done. apply ok_inj in E. by injection E as <- <-. }
  set (key := k0 :: key') in *. clearbody key. destruct n as [|v|k val fl|cs fl|h]; [|done| | |].
  - apply ok_inj in E. injection E as <- <-. constructor; [apply right_new|done].
  - inversion Hn as [| |? ? ? ? HF HV| |]; subst. destruct (_ =? length k)%nat.
    + apply then_ok in E as ([d1 n1] & E1 & E). destruct d1; apply ok_inj in E; injection E as <- <-; [|done].
      constructor; [apply right_new|]. by eapply IH.
    + apply index_ok in E as (i1 & _ & E). apply then_ok in E as ([d1 c1] & E1 & E). apply index_ok in E as (i2 & _ & E).
      apply then_ok in E as ([d2 c2] & E2 & E).
      assert (HB : forall c0, right db c0 (fullNode (<[ Z.to_nat i2 := c2 ]> (<[ Z.to_nat i1 := c1 ]> (replicate 17 nilNode))) newFlag)).
      { intros c0. apply right_full_new; [|by eapply IH; [exact E2|constructor|..]]. apply right_insert_child; [apply right_replicate|].
        by eapply IH; [exact E1|constructor|..]. }
      destruct (_ =? 0)%nat; apply ok_inj in E; injection E as <- <-; [apply HB|]. constructor; [apply right_new|apply HB].
  - apply index_ok in E as (x & Hx & E). apply then_ok in E as ([d1 n1] & E1 & E). destruct d1; apply ok_inj in E; injection E as <- <-; [|done].
    apply right_full_new; [intros j y; by eapply right_child|]. eapply IH; [exact E1|by eapply right_child|done..].
  - apply then_ok in E as (rn & Er & E). apply resolveHash_ok in Er. pose proof (right_hash_inv _ _ _ Hn Er) as Hr.
    apply then_ok in E as ([d1 n1] & E1 & E). destruct d1; apply ok_inj in E; injection E as <- <-; [|done]. by eapply IH.
Qed.

Lemma resolve_right n prefix m : resolve db n prefix = ok m -> right db true n -> right db true m.
Proof.
  intros E Hn. destruct n; cbn [resolve] in E; try (by apply ok_inj in E as <-). apply resolveHash_ok in E. by eapply right_hash_inv.
Qed.

Lemma reduce_right c cs prefix d n' : reduce db cs prefix = ok (d, n') -> (forall j y, cs !! j = Some y -> right db true y) -> right db c n'.
Proof.
  unfold reduce. intros E HR. destruct (0 <=? _); [|apply ok_inj in E; injection E as <- <-; by constructor; [apply right_new|]].
  apply index_ok in E as (x & Hx & E). pose proof (HR _ _ Hx) as Hr. destruct (negb _).
  - apply then_ok in E as (m & Em & E). apply resolve_right in Em; [|done].
    destruct m; apply ok_inj in E; injection E as <- <-; (constructor; [apply right_new|]); try done. by inversion Em.
  - apply ok_inj in E. injection E as <- <-. constructor; [apply right_new|done].
Qed.

Lemma delete_right fuel c n prefix key d n' : delete db fuel n prefix key = ok (d, n') -> right db c n -> right db c n'.
Proof.
  revert c n prefix key d n'. induction fuel as [|fuel IH]; intros c n prefix key d n' E Hn; [done|]. cbn [delete] in E.
  destruct n as [|v|k val fl|cs fl|h].
  - apply ok_inj in E. by injection E as <- <-.
  - apply ok_inj in E. injection E as <- <-. constructor.
  - inversion Hn as [| |? ? ? ? HF HV| |]; subst. destruct (_ <? _)%nat; [apply ok_inj in E; by injection E as <- <-|].
    destruct (_ =? _)%nat; [apply ok_inj in E; injection E as <- <-; constructor|].
    apply then_ok in E as ([d1 n1] & E1 & E). destruct d1; cbn [negb] in E; [|apply ok_inj in E; by injection E as <- <-].
    pose proof (IH _ _ _ _ _ _ E1 HV) as Hr. destruct n1; apply ok_inj in E; injection E as <- <-; (constructor; [apply right_new|]); try done.
    by inversion Hr.
  - destruct key as [|k0 key']; [done|]. apply index_ok in E as (x & Hx & E). apply then_ok in E as ([d1 n1] & E1 & E).
    destruct d1; cbn [negb] in E; [|apply ok_inj in E; by injection E as <- <-]. eapply reduce_right; [exact E|].
    apply right_insert_child; [intros j y; by eapply right_child|]. eapply IH; [exact E1|by eapply right_child].
  - apply then_ok in E as (rn & Er & E). apply resolveHash_ok in Er. pose proof (right_hash_inv _ _ _ Hn Er) as Hr.
    apply then_ok in E as ([d1 n1] & E1 & E). destruct d1; apply ok_inj in E; injection E as <- <-; [|done]. by eapply IH.
Qed.

(** A replaced child with the same item. *)
Lemma item_full_insert cs fl i x x' d it :
  cs !! i = Some x -> (forall d it, item_of db d x it -> item_of db d x' it) ->
  item_of db d (fullNode cs fl) it -> item_of db d (fullNode (<[ i := x' ]> cs) fl) it.
Proof.
  intros Hx HI I1. inversion I1 as [| | |? ? its ? L J|]; subst. constructor; [by rewrite length_insert|]. intros j y it' Hy Hit.
  apply list_lookup_insert_Some in Hy as [(-> & -> & _)|[_ Hy]]; [by eapply HI, J|by eapply J].
Qed.

Lemma flag_right_item c n n' fl : (forall d it, item_of db d n it -> item_of db d n' it) -> flag_right db c n fl -> flag_right db c n' fl.
Proof. intros HI HF h Hh. destruct (HF h Hh) as (it & I0 & E & HL). exists it. split; [by apply HI|done]. Qed.

Lemma tryGet_right fuel c n key pos v n' r :
  tryGet db fuel n key pos = ok (v, n', r) -> right db c n -> right db c n' /\ forall d it, item_of db d n it -> item_of db d n' it.
Proof.
  revert c n pos v n' r. induction fuel as [|fuel IH]; intros c n pos v n' r E Hn; [done|]. cbn [tryGet] in E.
  destruct n as [|x|k val fl|cs fl|h].
  - apply ok_inj in E. by injection E as <- <- <-.
  - apply ok_inj in E. by injection E as <- <- <-.
  - inversion Hn as [| |? ? ? ? HF HV| |]; subst. destruct (_ || _); [apply ok_inj in E; by injection E as <- <- <-|].
    apply then_ok in E as ([[v1 n1] r1] & E1 & E). apply ok_inj in E. injection E as <- <- <-. destruct r1; [|done].
    destruct (IH true _ _ _ _ _ E1 HV) as [R1 I1].
    assert (HI : forall d it, item_of db d (shortNode k val fl) it -> item_of db d (shortNode k n1 fl) it).
    { intros d it I0. inversion I0; subst. constructor; [done|by apply I1]. }
    split; [|done]. constructor; [by eapply flag_right_item|done].
  - inversion Hn as [| | |? ? ? HF HV|]; subst. apply index_ok in E as (i & _ & E). apply index_ok in E as (x & Hx & E).
    apply then_ok in E as ([[v1 n1] r1] & E1 & E). apply ok_inj in E. injection E as <- <- <-. destruct r1; [|done].
    destruct (IH true _ _ _ _ _ E1 (HV _ _ Hx)) as [R1 I1]. pose proof (fun d it => item_full_insert cs fl _ x n1 d it Hx I1) as HI.
    split; [|done]. constructor; [by eapply flag_right_item|]. by apply right_insert_child.
  - apply then_ok in E as (m & Em & E). apply resolveHash_ok in Em. apply then_ok in E as ([[v1 n1] r1] & E1 & E).
    apply ok_inj in E. injection E as <- <- <-. destruct (IH c _ _ _ _ _ E1 (right_hash_inv _ _ _ Hn Em)) as [R1 I1].
    split; [done|]. intros d it I0. inversion I0; subst. apply I1. congruence.
Qed.

(** ** Histories *)

(** A trie that represents a map, with right caches. *)
Definition trie_good (root : node) (m : gmap bytes bytes) : Prop := represents db root m /\ right db false root.

(** What is done to a trie: its operations, and hashing it. *)
Inductive trie_event := EvOp (o : trie_op) | EvHash.

Definition event_step (ev : trie_event) (root : node) : option node :=
  match ev with
  | EvOp o => '(_, err, root) ← trie_step db o root; match (err : option MissingNodeError) with Some _ => None | None => Some root end
  | EvHash => '(_, root) ← Hash root; Some root
  end.

Definition event_map (ev : trie_event) (m : gmap bytes bytes) : gmap bytes bytes :=
  match ev with EvOp o => (map_step o m).2 | EvHash => m end.

Definition event_wf (ev : trie_event) : Prop := match ev with EvOp o => wf_bytes (op_key o) | EvHash => True end.

Definition history (evs : list trie_event) (root : node) : option node := fold_left (fun r ev => r ≫= event_step ev) evs (Some root).
Definition history_map (evs : list trie_event) (m : gmap bytes bytes) : gmap bytes bytes := fold_left (fun m ev => event_map ev m) evs m.

Lemma set_root_right fuel k root r err root' :
  (r = delete db fuel root [] k \/ exists v, r = insert db fuel root [] k (valueNode v)) ->
  set_root r root = Some (err, root') -> right db false root -> right db false root'.
Proof.
  intros Hr E HR. destruct r as [[[d n]|e]|]; cbn in E; [|by injection E as _ <-|done]. injection E as _ <-.
  destruct Hr as [Hr|[v Hr]]; symmetry in Hr; [by eapply delete_right|]. eapply insert_right; [exact Hr|done|constructor..].
Qed.

Lemma trie_step_right o root v err root' : trie_step db o root = Some (v, err, root') -> right db false root -> right db false root'.
Proof.
  intros E HR. destruct o as [key|key value|key]; cbn [trie_step] in E.
  - unfold TryGet in E. destruct (tryGet _ _ _ _ _) as [[[[v1 n1] r1]|]|] eqn:Et; [|by injection E as _ _ <-|done].
    injection E as _ _ <-. destruct r1; [|done]. by eapply tryGet_right.
  - apply bind_Some in E as ([e1 r1] & E1 & E). injection E as _ _ <-. unfold TryUpdate in E1.
    destruct (negb _); (eapply set_root_right; [|exact E1|done]); eauto.
  - apply bind_Some in E as ([e1 r1] & E1 & E). injection E as _ _ <-. unfold TryDelete in E1. eapply set_root_right; [|exact E1|done]. eauto.
Qed.

(** The hash of a trie, computed or cached. *)
Lemma Hash_good root m :
  trie_good root m -> root <> nilNode -> exists it root', item_of db false root it /\ Hash root = Some (item_hash it, root') /\ trie_good root' m.
Proof.
  intros [[Ho Hw Hh] Hr] Hn. destruct (item_exists db false root Ho false) as [it Hit]; [done|].
  destruct (hash_spec db root Ho Hn false it Hr Hit) as (hashed & cached & E & -> & [O S _ R _ _]). exists it, cached. split; [done|].
  change (negb false) with true in E. split; [unfold Hash, hashRoot; destruct root; [done|..]; by rewrite E|]. split; [|done]. split; [done|done|]. intros k x. by rewrite (S k x).
Qed.

Lemma event_good ev root m :
  trie_good root m -> event_wf ev -> exists root', event_step ev root = Some root' /\ trie_good root' (event_map ev m).
Proof.
  intros HG Hw. destruct ev as [o|]; cbn [event_step event_map event_wf] in *.
  - destruct HG as [HR Hr]. destruct (trie_step_map db o root m HR Hw) as (root' & E & HR'). rewrite E. cbn. exists root'. split; [done|].
    split; [done|]. by eapply trie_step_right.
  - destruct (is_nil root) eqn:En; [apply is_nil_spec in En as ->; by exists nilNode|].
    destruct (Hash_good root m HG) as (it & root' & _ & -> & HG'); [by intros ->|]. by exists root'.
Qed.

Lemma history_good evs root m :
  trie_good root m -> Forall event_wf evs -> exists root', history evs root = Some root' /\ trie_good root' (history_map evs m).
Proof.
  intros HG HF. revert root m HG. induction HF as [|ev evs Hev _ IH]; intros root m HG; [by exists root|].
  destruct (event_good ev root m HG Hev) as (root1 & E & HG1). unfold history, history_map in *. cbn [fold_left]. cbn [mbind option_bind]. rewrite E.
  by apply IH.
Qed.
End keeping.

(** ** The hash commits to the contents *)
Section commits.
Context `{!Keccak}.

(** The items of the nodes of a trie. *)
Inductive sub_item (db : bytes -> option node) : node -> item -> Prop :=
  | si_own n it : loaded n -> item_of db false n it -> sub_item db n it
  | si_short k val fl it : sub_item db val it -> sub_item db (shortNode k val fl) it
  | si_full cs fl i x it : cs !! i = Some x -> sub_item db x it -> sub_item db (fullNode cs fl) it
  | si_hash h n it : db h = Some n -> sub_item db n it -> sub_item db (hashNode h) it.

(** A node that is neither nil nor a value, loaded or not, has an item of its
    own, a list; what its parent holds is the reference to it. *)
Lemma own_item db n it :
  sub_ok db false n -> n <> nilNode -> item_of db true n it ->
  exists l, item_of db false n (Lst l) /\ it = as_ref true (Lst l) /\ sub_item db n (Lst l).
Proof.
  intros Hn Hne Hit.
  assert (HL : forall m, loaded m -> item_of db true m it -> exists l, item_of db false m (Lst l) /\ it = as_ref true (Lst l) /\ sub_item db m (Lst l)).
  { intros m Hm Hi. destruct (item_own db m it Hi Hm) as (it0 & I0 & ->).
    assert (exists l, it0 = Lst l) as [l ->] by (inversion I0; subst; try done; by eexists). exists l. split_and!; [done..|]. by constructor. }
  inversion Hn as [|v Hv|k val fl|cs fl|h m Hm Hld Hok]; subst; try done; try (by apply HL).
  inversion Hit as [| | | |? ? ? ? Hm' Hi]; subst. rewrite Hm in Hm'. injection Hm' as <-.
  destruct (HL m Hld Hi) as (l & I0 & E & Hs). exists l. split_and!; [by econstructor|done|by econstructor].
Qed.

Lemma item_hash_length it : length (item_hash it) = 32%nat.
Proof. apply be_length. Qed.

Lemma Str_inj a b : Str a = Str b -> a = b.
Proof. by intros [= ->]. Qed.

(** References to different nodes are different, unless hashes collide. *)
Lemma as_ref_inj l1 l2 :
  (item_hash (Lst l1) = item_hash (Lst l2) -> Lst l1 = Lst l2) -> as_ref true (Lst l1) = as_ref true (Lst l2) -> l1 = l2.
Proof.
  intros HC. unfold as_ref. cbn [andb]. destruct (large (Lst l1)), (large (Lst l2)); try done; [|by intros [= ->]].
  intros E%Str_inj. apply HC in E. by injection E.
Qed.

Lemma as_ref_nonempty l : as_ref true (Lst l) <> Str [].
Proof.
  unfold as_ref. cbn [andb]. destruct (large _); [|done]. intros E%Str_inj. apply (f_equal length) in E. by rewrite item_hash_length in E.
Qed.

Context (db1 db2 : bytes -> option node).

Definition collision_free (n1 n2 : node) : Prop :=
  forall a b, sub_item db1 n1 a -> sub_item db2 n2 b -> item_hash a = item_hash b -> a = b.

(** [n1] and any [n2] with the same reference have the same contents. *)
Definition committed (e : bool) (n1 : node) : Prop := forall n2 it,
  sub_ok db2 e n2 -> item_of db1 true n1 it -> item_of db2 true n2 it -> collision_free n1 n2 -> agree db1 db2 n1 n2.

(** Enough for nodes that are loaded and have the same item. *)
Lemma committed_loaded n1 :
  sub_ok db1 false n1 -> loaded n1 ->
  (forall n2 l, loaded n2 -> sub_ok db2 false n2 -> item_of db1 false n1 (Lst l) -> item_of db2 false n2 (Lst l) -> collision_free n1 n2 -> agree db1 db2 n1 n2) ->
  committed false n1.
Proof.
  intros H1 L1 HC n2 it H2 I1 I2 HF. destruct (own_item db1 n1 it H1) as (l1 & J1 & E1 & S1); [by intros ->|done|].
  destruct (is_nil n2) eqn:En; [apply is_nil_spec in En as ->; inversion I2; subst; by destruct (as_ref_nonempty l1)|].
  destruct (own_item db2 n2 it H2) as (l2 & J2 & E2 & S2); [by intros ->|done|].
  assert (l1 = l2) as <- by (apply as_ref_inj; [by apply HF|congruence]).
  inversion H2 as [| |k val fl|cs fl|h m Hm Hld Hok]; subst; [done|eapply HC; done|eapply HC; done|].
  intros k x. rewrite (holds_hash_iff db2 h m) by done. apply (HC m l1); try done.
  - inversion J2; subst. congruence.
  - intros a b Ha Hb. apply HF; [done|]. by econstructor.
Qed.

Lemma committed_short k val fl :
  sub_ok db1 false (shortNode k val fl) -> committed (hasTerm k) val -> committed false (shortNode k val fl).
Proof.
  intros H1 IH. apply committed_loaded; [done|done|]. intros n2 l L2 H2 I1 I2 HF.
  inversion I1 as [| |? ? kc ? iv ? Hkc Hiv| |]; subst. destruct n2 as [| |k2 val2 fl2|cs2 fl2|]; try done.
  - inversion I2 as [| |? ? kc2 ? iv2 ? Hkc2 Hiv2| |]; subst. inversion H1 as [| |? ? ? P1 _ _ _| |]; inversion H2 as [| |? ? ? P2 _ V2 _| |]; subst.
    destruct (compact_part k P1) as (c1 & C1 & B1 & _), (compact_part k2 P2) as (c2 & C2 & B2 & _).
    assert (k2 = k) as -> by congruence. intros q x. rewrite !holds_short_iff.
    assert (HA : agree db1 db2 val val2).
    { apply (IH val2 iv); [done|done|done|]. intros a b Ha Hb. apply HF; by constructor. }
    by setoid_rewrite (HA _ x).
  - inversion I2 as [| | |? ? its ? L J|]; subst. inversion H2; subst. cbn in *. congruence.
Qed.

Lemma committed_full cs fl :
  sub_ok db1 false (fullNode cs fl) -> (forall i c, 0 <= i -> cs !! Z.to_nat i = Some c -> committed (i =? 16) c) -> committed false (fullNode cs fl).
Proof.
  intros H1 IH. apply committed_loaded; [done|done|]. intros n2 l L2 H2 I1 I2 HF.
  inversion I1 as [| | |? ? its ? L J|]; subst. inversion H1 as [| | |? ? Hl Hcs _|]; subst. destruct n2 as [| |k2 val2 fl2|cs2 fl2|]; try done.
  - inversion I2; subst. cbn in *. congruence.
  - inversion I2 as [| | |? ? its2 ? L' J'|]; subst. inversion H2 as [| | |? ? Hl2 Hcs2 _|]; subst.
    assert (HA : forall i c1 c2, 0 <= i -> cs !! Z.to_nat i = Some c1 -> cs2 !! Z.to_nat i = Some c2 -> agree db1 db2 c1 c2).
    { intros i c1 c2 Hi E1 E2. destruct (lookup_lt_is_Some_2 l (Z.to_nat i)) as [it Hit]; [rewrite L; by eapply lookup_lt_Some|].
      apply (IH i c1 Hi E1 c2 it); [by apply Hcs2|by eapply J|by eapply J'|]. intros a b Ha Hb. apply HF; by econstructor. }
    intros q x. rewrite !holds_full_iff. split; intros (i & q' & c & -> & Hi & Hc & Hh).
    + destruct (lookup_lt_is_Some_2 cs2 (Z.to_nat i)) as [c2 Hc2]; [rewrite Hl2, <- Hl; by eapply lookup_lt_Some|].
      exists i, q', c2. split_and!; try done. by apply (HA i c c2).
    + destruct (lookup_lt_is_Some_2 cs (Z.to_nat i)) as [c1 Hc1]; [rewrite Hl, <- Hl2; by eapply lookup_lt_Some|].
      exists i, q', c1. split_and!; try done. by apply (HA i c1 c).
Qed.

Lemma item_commits e n1 : sub_ok db1 e n1 -> committed e n1.
Proof.
  induction 1 as [e|v Hv|k val fl Hkp Hnil Hval IH Hfull|cs fl Hl Hcs IH Hs|h n Hn Hld Hok IH].
  - intros n2 it H2 I1 I2 _ k x. inversion I1; subst. destruct (is_nil n2) eqn:En; [apply is_nil_spec in En as ->; by rewrite !holds_nil_iff|].
    destruct e; [inversion H2; subst; [done|]; by inversion I2; subst|].
    destruct (own_item db2 n2 (Str []) H2) as (l & _ & E & _); [by intros ->|done|]. by destruct (as_ref_nonempty l).
  - intros n2 it H2 I1 I2 _ k x. inversion I1; subst. inversion H2; subst; inversion I2; subst; [done|]. by rewrite !holds_value_iff.
  - apply committed_short; [by constructor|done].
  - apply committed_full; [by constructor|done].
  - intros n2 it H2 I1 I2 HF k x. rewrite (holds_hash_iff db1 h n) by done. apply (IH n2 it); try done.
    + inversion I1; subst. congruence.
    + intros a b Ha Hb. apply HF; [by econstructor|done].
Qed.
End commits.

(** ** Properties *)
Section properties.
Context `{!Keccak} (db1 db2 : bytes -> option node).

Lemma represents_agree root1 root2 m : represents db1 root1 m -> represents db2 root2 m -> agree db1 db2 root1 root2.
Proof. intros [_ _ H1] [_ _ H2] k x. by rewrite H1, H2. Qed.

Lemma represents_nil db root m : represents db root m -> root = nilNode <-> m = ∅.
Proof.
  intros [Ho Hw Hh]. split.
  - intros ->. apply map_empty. intros key. destruct (m !! key) as [x|] eqn:E; [|done].
    assert (Hk : holds db nilNode (keybytesToHex key) x) by (apply Hh; eauto). by apply holds_nil_iff in Hk.
  - intros ->. destruct (is_nil root) eqn:En; [by apply is_nil_spec|]. destruct (sub_nonempty db false root Ho) as (k & x & Hk); [by intros ->|].
    apply Hh in Hk as (key & _ & E). by rewrite lookup_empty in E.
Qed.

(** C21: the root hash is a function of the contents.  Two tries, possibly over
    different databases, on each of which any sequence of reads, updates,
    deletions and hashing has been performed, have the same hash whenever they
    represent the same map: neither the order of the operations, nor keys that were
    added and removed, nor cached hashes, nor what is loaded from the database
    matter. *)
Theorem root_hash_canonical (evs1 evs2 : list trie_event) (root1 root2 : node) (m1 m2 : gmap bytes bytes) :
  trie_good db1 root1 m1 -> trie_good db2 root2 m2 -> Forall event_wf evs1 -> Forall event_wf evs2 ->
  history_map evs1 m1 = history_map evs2 m2 ->
  exists r1 r2 h r1' r2', history db1 evs1 root1 = Some r1 /\ history db2 evs2 root2 = Some r2 /\
    Hash r1 = Some (h, r1') /\ Hash r2 = Some (h, r2').
Proof.
  intros G1 G2 F1 F2 Em. destruct (history_good db1 evs1 root1 m1 G1 F1) as (r1 & E1 & R1), (history_good db2 evs2 root2 m2 G2 F2) as (r2 & E2 & R2).
  rewrite <- Em in R2. exists r1, r2. destruct (is_nil r1) eqn:En.
  - apply is_nil_spec in En. pose proof (proj1 (represents_nil _ _ _ (proj1 R1)) En) as E0.
    pose proof (proj2 (represents_nil _ _ _ (proj1 R2)) E0) as En2. subst r1 r2. by eexists _, _, _.
  - assert (N1 : r1 <> nilNode) by (by intros ->).
    assert (N2 : r2 <> nilNode) by (intros E0; apply N1; apply (represents_nil _ _ _ (proj1 R1)); by apply (represents_nil _ _ _ (proj1 R2))).
    destruct (Hash_good db1 r1 _ R1 N1) as (it1 & r1' & I1 & H1' & _), (Hash_good db2 r2 _ R2 N2) as (it2 & r2' & I2 & H2' & _).
    assert (it1 = it2) as <-; [|by eexists _, r1', r2']. eapply alike_item; [|exact I1|exact I2].
    apply (agree_alike db1 db2 false); [apply R1|apply R2|]. by eapply represents_agree; [apply R1|apply R2].
Qed.

Lemma agree_maps root1 root2 m1 m2 : represents db1 root1 m1 -> represents db2 root2 m2 -> agree db1 db2 root1 root2 -> m1 = m2.
Proof.
  intros [_ W1 H1] [_ W2 H2] HA. apply map_eq. intros key. apply option_eq. intros x.
  assert (HK : forall (m n : gmap bytes bytes) key', map_Forall (fun key _ => wf_bytes key) m -> map_Forall (fun key _ => wf_bytes key) n ->
    m !! key = Some x -> n !! key' = Some x -> keybytesToHex key = keybytesToHex key' -> key' = key).
  { intros m n key' Wm Wn Em En E. symmetry. apply keybytes_inj; [exact (Wm _ _ Em)|exact (Wn _ _ En)|done]. }
  split; intros E.
  - assert (Hh : holds db1 root1 (keybytesToHex key) x) by (apply H1; eauto). apply HA, H2 in Hh as (key' & Ek & E').
    by rewrite (HK m1 m2 key') in E'.
  - assert (Hh : holds db2 root2 (keybytesToHex key) x) by (apply H2; eauto). apply HA, H1 in Hh as (key' & Ek & E').
    by rewrite (HK m2 m1 key') in E'.
Qed.

(** The root's own item, as the reference to it. *)
Lemma root_item db root m it : represents db root m -> item_of db false root it -> sub_item db root it /\ item_of db true root (as_ref true it).
Proof.
  intros [Ho _ _] Hit. inversion Ho as [|v Hv|k val fl|cs fl|h n Hn Hld Hok]; subst; [inversion Hit|..];
    try (split; [by constructor|by apply item_child]).
  inversion Hit as [| | | |? ? n' ? Hn' Hi]; subst. rewrite Hn in Hn'. injection Hn' as <-. split.
  - econstructor; [done|]. by constructor.
  - econstructor; [done|]. by apply item_child.
Qed.

(** C22: the root hash commits to the contents.  Two tries with the same root hash
    represent the same map, unless the hash function collides on two nodes of
    theirs or maps a node to the root hash of the empty trie. *)
Theorem root_hash_commits (root1 root2 : node) (m1 m2 : gmap bytes bytes) (h : bytes) (r1 r2 : node) :
  trie_good db1 root1 m1 -> trie_good db2 root2 m2 -> collision_free db1 db2 root1 root2 ->
  (forall it, sub_item db1 root1 it \/ sub_item db2 root2 it -> item_hash it <> trie_emptyRoot) ->
  Hash root1 = Some (h, r1) -> Hash root2 = Some (h, r2) -> m1 = m2.
Proof.
  intros G1 G2 HC HE E1 E2. pose proof (represents_nil _ _ _ (proj1 G1)) as N1. pose proof (represents_nil _ _ _ (proj1 G2)) as N2.
  assert (HX : forall db root m r, (db = db1 /\ root = root1 \/ db = db2 /\ root = root2) -> trie_good db root m -> root <> nilNode ->
    Hash root = Some (h, r) -> exists it, item_of db false root it /\ h = item_hash it /\ sub_item db root it /\ h <> trie_emptyRoot).
  { intros db root m r Hd G Hn E. destruct (Hash_good db root m G Hn) as (it & r' & I0 & E' & _). rewrite E in E'. injection E' as -> ->.
    exists it. pose proof (proj1 (root_item db root m it (proj1 G) I0)) as S0. split_and!; try done. apply HE. by destruct Hd as [[-> ->]|[-> ->]]; auto. }
  destruct (is_nil root1) eqn:B1, (is_nil root2) eqn:B2.
  - apply is_nil_spec, N1 in B1. apply is_nil_spec, N2 in B2. congruence.
  - apply is_nil_spec in B1. destruct (HX db2 root2 m2 r2) as (it & _ & _ & _ & HN); [by right|done|by intros ->|done|].
    subst root1. injection E1 as E1 _. by destruct HN.
  - apply is_nil_spec in B2. destruct (HX db1 root1 m1 r1) as (it & _ & _ & _ & HN); [by left|done|by intros ->|done|].
    subst root2. injection E2 as E2 _. by destruct HN.
  - destruct (HX db1 root1 m1 r1) as (it1 & I1 & Eh1 & S1 & _); [by left|done|by intros ->|done|].
    destruct (HX db2 root2 m2 r2) as (it2 & I2 & Eh2 & S2 & _); [by right|done|by intros ->|done|].
    assert (it1 = it2) as <- by (apply HC; [done|done|congruence]).
    eapply agree_maps; [apply G1|apply G2|]. apply (item_commits db1 db2 false root1 (rep_ok _ _ _ (proj1 G1)) root2 (as_ref true it1));
      [apply G2|by eapply root_item; [apply G1|]|by eapply root_item; [apply G2|]|done].
Qed.
End properties.

(** ** Concrete tries *)
Module ToyHash.
#[local] Existing Instance toy_keccak.

Definition evs1 : list trie_event :=
  [EvOp (OpUpdate [18; 52] [1]); EvHash; EvOp (OpUpdate [18; 53] [2]); EvOp (OpUpdate [99] [3]); EvHash; EvOp (OpDelete [18; 52])].
Definition evs2 : list trie_event := [EvOp (OpUpdate [99] [3]); EvOp (OpUpdate [18; 53] [7]); EvOp (OpGet [99]); EvOp (OpUpdate [18; 53] [2])].

Lemma empty_good : trie_good ToyTrie.db nilNode ∅.
Proof. split; [apply ToyTrie.empty_represents|constructor]. Qed.

Lemma evs_wf : Forall event_wf evs1 /\ Forall event_wf evs2.
Proof. split; repeat constructor; lia. Qed.

(** A trie with one key. *)
Definition leaf : node := shortNode (keybytesToHex [18; 52]) (valueNode [1]) newFlag.

Lemma leaf_good : trie_good ToyTrie.db leaf {[ [18; 52] := [1] ]}.
Proof.
  destruct (history_good ToyTrie.db [EvOp (OpUpdate [18; 52] [1])] nilNode ∅ empty_good) as (r & E & G); [repeat constructor; lia|].
  vm_compute in E. injection E as <-. exact G.
Qed.

Lemma leaf_item it : sub_item ToyTrie.db leaf it -> item_of ToyTrie.db false leaf it.
Proof. intros Hs. inversion Hs as [? ? _ Hi|? ? ? ? Hv| |]; subst; [done|]. by inversion Hv. Qed.

Lemma leaf_it it : sub_item ToyTrie.db leaf it -> it = Lst [Str [32; 18; 52]; Str [1]].
Proof.
  intros Hs%leaf_item. eapply item_unique; [exact Hs|]. apply (io_short ToyTrie.db false); [by vm_compute|constructor].
Qed.
End ToyHash.

#[local] Existing Instance toy_keccak.

(** The order of insertion and a key that comes and goes do not matter. *)
Lemma root_hash_canonical_witness :
  exists r1 r2 h r1' r2', history ToyTrie.db ToyHash.evs1 nilNode = Some r1 /\ history ToyTrie.db ToyHash.evs2 nilNode = Some r2 /\
    Hash r1 = Some (h, r1') /\ Hash r2 = Some (h, r2').
Proof.
  exact (root_hash_canonical ToyTrie.db ToyTrie.db ToyHash.evs1 ToyHash.evs2 nilNode nilNode ∅ ∅ ToyHash.empty_good ToyHash.empty_good
    (proj1 ToyHash.evs_wf) (proj2 ToyHash.evs_wf) ltac:(by vm_compute)).
Defined.

Lemma root_hash_commits_witness :
  exists h r, Hash ToyHash.leaf = Some (h, r) /\ ({[ [18; 52] := [1] ]} : gmap bytes bytes) = {[ [18; 52] := [1] ]}.
Proof.
  destruct (Hash ToyHash.leaf) as [[h r]|] eqn:E; [|by vm_compute in E]. exists h, r. split; [done|].
  apply (root_hash_commits ToyTrie.db ToyTrie.db ToyHash.leaf ToyHash.leaf _ _ h r r ToyHash.leaf_good ToyHash.leaf_good).
  - intros a b Ha%ToyHash.leaf_it Hb%ToyHash.leaf_it _. congruence.
  - intros it [->%ToyHash.leaf_it| ->%ToyHash.leaf_it]; by vm_compute.
  - exact E.
  - exact E.
Defined.
