(* ===== verification/Withdraw.v ===== *)
(** * [withdrawfailedtx/withdrawfailedtx.go]: refunds of failed withdrawals

    A withdrawal that fails on the main chain is refunded on this chain when
    more than two thirds of the arbiters have signed its transaction id.  A node
    collects the signatures it receives, one per arbiter, and sends the refund
    transaction when there are enough; every node checks the signatures in the
    transaction's data when it executes it.

    The client of the local chain, the arbiters ([spv.GetArbiters]) and the
    signer's address are parameters; what is sent is recorded in the state. *)
From S2P Require Import Prelude Ela Common.

(** ** The environment *)
Record Client := {
  StorageAt : bytes -> bytes + string;
  ReceiptStatus : bytes -> Z + string;
  (** the transaction ([None] for nil) and its recipient ([None] for nil) *)
  TransactionByHash : bytes -> option (option string) + string;
  EstimateGas : Z -> bytes -> Z + string;
  SuggestGasPrice : Z + string;
  SendPublicTransaction : Z -> bytes -> Z -> Z -> error
}.

Record refund := { refund_From : Z; refund_Data : bytes; refund_Gas : Z; refund_GasPrice : Z }.

Record Withdraw := {
  failedTxList : gmap string (list string);
  verifiedArbiter : gmap string (list string);
  sent : list refund;
  broadcast : list (string * string)
}.

#[export] Instance Withdraw_eta : Eta Withdraw := fun s => {|
  failedTxList := failedTxList s; verifiedArbiter := verifiedArbiter s; sent := sent s; broadcast := broadcast s
|}.

Definition getMaxArbitersSign (total : Z) : Z := i64 (Z.quot (i64 (total * 2)) 3 + 1).

(** A missing map entry is the nil slice. *)
Definition entry (m : gmap string (list string)) (k : string) : list string := default [] (m !! k).

Definition IsSignatureVerified (txid signature : string) (s : Withdraw) : bool :=
  bool_decide (signature ∈ entry (failedTxList s) txid).

Definition IsArbiterVerified (txid arbiter : string) (s : Withdraw) : bool :=
  bool_decide (arbiter ∈ entry (verifiedArbiter s) txid).

Section withdraw.
Context `{!ElaLib}.
Context (client : option Client) (GetArbiters : (list string * Z) + string) (signer : Z) (hasEventMux : bool).

(** The loop of [verifySignature]: the first arbiter without a recorded
    signature whose key verifies this one; an invalid key ends the search. *)
Fixpoint first_signer (verified : list string) (buff sig : bytes) (arbiters : list string) : option string :=
  match arbiters with
  | [] => None
  | arbiter :: arbiters =>
      if bool_decide (arbiter ∈ verified) then first_signer verified buff sig arbiters
      else match DecodePoint (Hex2Bytes arbiter) with
           | inr _ => None
           | inl pubKey =>
               match Verify pubKey buff sig with
               | None => Some arbiter
               | Some _ => first_signer verified buff sig arbiters
               end
           end
  end.

Definition verifySignature (arbiters : list string) (txid signature : string) (s : Withdraw) : option string :=
  first_signer (entry (verifiedArbiter s) txid) (Hex2Bytes txid) (Hex2Bytes signature) arbiters.

Definition OnProcessFaildWithdrawTx (hash : string) (s : Withdraw) : option Withdraw :=
  hash ← strip0x hash;
  Some (if 0 <? zlen (entry (failedTxList s) hash)
        then s <| failedTxList := delete hash (failedTxList s) |> <| verifiedArbiter := delete hash (verifiedArbiter s) |>
        else s).

Definition getFailedTx (txid : string) (s : Withdraw) : option (list string + string) :=
  txid ← strip0x txid;
  let list := entry (failedTxList s) txid in
  Some (if 0 <? zlen list then inl list else inr ("not have tx:" +:+ txid)).

Definition getTxData (txid : bytes) (s : Withdraw) : option (bytes + string) :=
  r ← getFailedTx (hash_String txid) s;
  Some match r with
       | inr err => inr err
       | inl signatures => inl (txid ++ concat (Hex2Bytes <$> signatures))
       end.

(** The error and the state; [None] is a panic. *)
Definition SendRefundTx (from : Z) (txid : string) (s : Withdraw) : option (error * Withdraw) :=
  if from =? 0 then Some (New "SendRefundTx error signer", s)
  else match client with
  | None => Some (New "SendRefundTx client is not init", s)
  | Some client =>
      let failedTxHash := HexToHash txid in
      match StorageAt client failedTxHash with
      | inr err => Some (New err, s)
      | inl result =>
          if negb (bytes_Equal result zero_hash) then Some (New "submit by", s)
          else
            r ← getTxData failedTxHash s;
            match r with
            | inr err => Some (New err, s)
            | inl data =>
                match EstimateGas client from data with
                | inr err => Some (New err, s)
                | inl gasLimit =>
                    if gasLimit =? 0 then Some (New "IpcClient EstimateGas is 0", s)
                    else match SuggestGasPrice client with
                    | inr err => Some (New err, s)
                    | inl gasPrice =>
                        let gasPrice := if u64 gasPrice =? 0 then 1000000000 else gasPrice in
                        Some (SendPublicTransaction client from data gasLimit gasPrice,
                              s <| sent := sent s ++ [{| refund_From := from; refund_Data := data;
                                                         refund_Gas := gasLimit; refund_GasPrice := gasPrice |}] |>)
                    end
                end
            end
      end
  end.

Definition broadFailedWithdrawEvt (hash signature : string) (s : Withdraw) : Withdraw :=
  if hasEventMux then s <| broadcast := broadcast s ++ [(hash, signature)] |> else s.

(** The part of [ReceivedFailedWithdrawTx] for a withdrawal that can still be
    refunded. *)
Definition collectSignature (hash signature : string) (s : Withdraw) : option (error * Withdraw) :=
  match GetArbiters with
  | inr err => Some (New err, s)
  | inl (arbiters, total) =>
      let verifiedSigList := entry (failedTxList s) hash in
      let verifiedArbiterList := entry (verifiedArbiter s) hash in
      if getMaxArbitersSign total <=? zlen verifiedArbiterList
      then Some (New "all ready received 2/3 signatures", s)
      else match verifySignature arbiters hash signature s with
      | None => Some (nil_err, s)
      | Some arb =>
          let verifiedArbiterList := verifiedArbiterList ++ [arb] in
          let s := s <| failedTxList := <[ hash := verifiedSigList ++ [signature] ]> (failedTxList s) |>
                     <| verifiedArbiter := <[ hash := verifiedArbiterList ]> (verifiedArbiter s) |> in
          if getMaxArbitersSign total <=? zlen verifiedArbiterList
          then r ← SendRefundTx signer hash s; Some (nil_err, snd r)
          else Some (nil_err, broadFailedWithdrawEvt hash signature s)
      end
  end.

Definition ReceivedFailedWithdrawTx (hash signature : string) (s : Withdraw) : option (error * Withdraw) :=
  hash ← strip0x hash;
  if IsSignatureVerified hash signature s then Some (New "all ready received this tx", s)
  else match client with
  | None => Some (New "ipc client is null", s)
  | Some client =>
      match StorageAt client (HexToHash hash) with
      | inr err => Some (New err, s)
      | inl txhash =>
          match ReceiptStatus client (HexToHash hash) with
          | inr err => Some (New err, s)
          | inl status =>
              if status =? 0 then Some (New "tx receipt status is 0", s)
              else if negb (bytes_Equal (BytesToHash txhash) zero_hash)
              then s ← OnProcessFaildWithdrawTx hash s; Some (New "all ready refund this amount", s)
              else collectSignature hash signature s
          end
      end
  end.

(** ** Checking a refund transaction *)

(** Whether some arbiter's key verifies the signature; invalid keys are
    skipped here. *)
Definition signed_by_arbiter (arbiters : list string) (buff sig : bytes) : bool :=
  existsb (fun arbiter => match DecodePoint (Hex2Bytes arbiter) with
                          | inr _ => false
                          | inl pubKey => bool_decide (Verify pubKey buff sig = nil_err)
                          end) arbiters.

(** The loop over the signatures of [VerifySignatures]. *)
Fixpoint count_signatures (arbiters : list string) (buff : bytes) (max count : Z) (signatures : list string) : bool :=
  match signatures with
  | [] => false
  | signature :: signatures =>
      let count := if signed_by_arbiter arbiters buff (Hex2Bytes signature) then count + 1 else count in
      if max <=? count then true else count_signatures arbiters buff max count signatures
  end.

(** [data[i*64 : i*64+64]] for [i] below [n], as hexadecimal strings. *)
Definition split_signatures (data : bytes) : list string :=
  (fun i => hex_encode (take 64 (drop (i * 64) data))) <$> seq 0 (length data / 64).

Definition VerifySignatures (input : bytes) (s : Withdraw) : bool :=
  match client with
  | None => false
  | Some client =>
      if zlen input <=? 32 then false
      else
        let failedTxHash := BytesToHash (take 32 input) in
        match StorageAt client failedTxHash with
        | inr _ => false
        | inl result =>
            if negb (bytes_Equal (BytesToHash result) zero_hash) then false
            else match GetArbiters with
            | inr _ => false
            | inl (arbiters, total) =>
                let data := drop 32 input in
                if negb (zlen data mod 64 =? 0) then false
                else
                  let signatures := split_signatures data in
                  if zlen signatures <=? 0 then false
                  else
                    let txid := hex_encode failedTxHash in
                    if getMaxArbitersSign total <=? zlen (entry (verifiedArbiter s) txid) then true
                    else count_signatures arbiters (Hex2Bytes txid) (getMaxArbitersSign total) 0 signatures
            end
        end
  end.

(** The answer and the transaction id; a transaction without recipient panics. *)
Definition IsWithdawFailedTx (input : bytes) (withdrawAddress : string) : option (bool * string) :=
  if zlen input <=? 32 then Some (false, EmptyString)
  else
    let txid := hash_String (take 32 input) in
    match client with
    | None => Some (false, txid)
    | Some client =>
        match TransactionByHash client (HexToHash txid) with
        | inr _ => Some (false, txid)
        | inl (Some (Some to)) => Some (bool_decide (to = withdrawAddress), txid)
        | inl (Some None) => None
        | inl None => Some (false, txid)
        end
    end.
End withdraw.

(** ** The invariant of the collected signatures *)
Section proofs.
Context `{!ElaLib}.

Definition signs (txid sig arb : string) : Prop :=
  exists pk, DecodePoint (Hex2Bytes arb) = inl pk /\ Verify pk (Hex2Bytes txid) (Hex2Bytes sig) = nil_err.

(** For every withdrawal the recorded signers are arbiters, pairwise different, and
    the [i]-th signature is the one of the [i]-th of them.  Arbiters change: [arbiter]
    holds of those that were returned so far. *)
Record withdraw_inv (arbiter : string -> Prop) (s : Withdraw) : Prop := {
  inv_signed : forall txid, Forall2 (fun arb sig => signs txid sig arb)
    (entry (verifiedArbiter s) txid) (entry (failedTxList s) txid);
  inv_distinct : forall txid, NoDup (entry (verifiedArbiter s) txid);
  inv_arbiters : forall txid, Forall arbiter (entry (verifiedArbiter s) txid)
}.

Lemma entry_insert m k l k' : entry (<[ k := l ]> m) k' = if decide (k = k') then l else entry m k'.
Proof. unfold entry. rewrite lookup_insert. by case_decide. Qed.

Lemma entry_delete m k k' : entry (delete k m) k' = if decide (k = k') then [] else entry m k'.
Proof. unfold entry. rewrite lookup_delete. by case_decide. Qed.

Lemma first_signer_Some verified txid sig arbiters a :
  first_signer verified (Hex2Bytes txid) (Hex2Bytes sig) arbiters = Some a ->
  a ∈ arbiters /\ a ∉ verified /\ signs txid sig a.
Proof.
  induction arbiters as [|b arbiters IH]; cbn; [done|].
  case_bool_decide as Hb; [intros (? & ? & ?)%IH; by split_and!; [right|..]|].
  destruct (DecodePoint (Hex2Bytes b)) as [pk|] eqn:Hd; [|done].
  destruct (Verify pk _ _) eqn:Hv; [intros (? & ? & ?)%IH; by split_and!; [right|..]|].
  intros [= <-]. split_and!; [left|done|by exists pk].
Qed.

Lemma record_inv arbiter s hash sig arb :
  withdraw_inv arbiter s -> arb ∉ entry (verifiedArbiter s) hash -> signs hash sig arb -> arbiter arb ->
  withdraw_inv arbiter (s <| failedTxList := <[ hash := entry (failedTxList s) hash ++ [sig] ]> (failedTxList s) |>
                  <| verifiedArbiter := <[ hash := entry (verifiedArbiter s) hash ++ [arb] ]> (verifiedArbiter s) |>).
Proof.
  intros [Hs Hd Ha] Hn Hg Hx. split; cbn [failedTxList verifiedArbiter]; intros txid; cbn; rewrite ?entry_insert.
  - case_decide; [subst|apply Hs]. apply Forall2_app; [apply Hs|by constructor].
  - case_decide; [subst|apply Hd]. apply NoDup_app. split; [apply Hd|]. split; [|apply NoDup_singleton].
    intros x Hin ->%list_elem_of_singleton. done.
  - case_decide; [subst|apply Ha]. apply Forall_app. split; [apply Ha|by constructor].
Qed.

Lemma OnProcess_inv arbiter hash s s' : OnProcessFaildWithdrawTx hash s = Some s' -> withdraw_inv arbiter s -> withdraw_inv arbiter s'.
Proof.
  unfold OnProcessFaildWithdrawTx. destruct (strip0x hash) as [h|]; [|done]. cbn. intros [= <-] Hi.
  case_match; [|done]. destruct Hi as [Hs Hd Ha]. split; cbn; intros txid; rewrite !entry_delete; case_decide; try done; constructor.
Qed.

Lemma SendRefundTx_sent client from h s err s' :
  wf_bytes h -> zlen h = 32 -> SendRefundTx client from (hex_encode h) s = Some (err, s') ->
  failedTxList s' = failedTxList s /\ verifiedArbiter s' = verifiedArbiter s /\
  (sent s' = sent s \/
   exists r, sent s' = sent s ++ [r] /\ refund_Data r = h ++ concat (Hex2Bytes <$> entry (failedTxList s) (hex_encode h))).
Proof.
  intros Hw Hl. unfold SendRefundTx. rewrite HexToHash_encode by done. unfold getTxData, getFailedTx. rewrite strip_hash.
  destruct (from =? 0); [intros [= _ <-]; by auto|]. destruct client as [cl|]; [|intros [= _ <-]; by auto].
  destruct (StorageAt cl h) as [res|]; [|intros [= _ <-]; by auto]. destruct (negb _); [intros [= _ <-]; by auto|]. cbn.
  destruct (0 <? _); [|intros [= _ <-]; by auto].
  destruct (EstimateGas cl from _) as [gas|]; [|intros [= _ <-]; by auto].
  destruct (gas =? 0); [intros [= _ <-]; by auto|]. destruct (SuggestGasPrice cl) as [price|]; [|intros [= _ <-]; by auto].
  intros [= _ <-]. split_and!; [done..|]. right. by eexists.
Qed.

(** A refund for withdrawal [h] carries valid signatures of [n] pairwise
    different arbiters. *)
Definition quorum_refund (arbiter : string -> Prop) (h : bytes) (n : Z) (r : refund) : Prop :=
  exists arbs sigs, NoDup arbs /\ Forall arbiter arbs /\ Forall2 (fun arb sig => signs (hex_encode h) sig arb) arbs sigs /\
    n <= zlen arbs /\ refund_Data r = h ++ concat (Hex2Bytes <$> sigs).

(** The arbiters that are returned now are arbiters. *)
Definition covers (arbiter : string -> Prop) (GetArbiters : (list string * Z) + string) : Prop :=
  match GetArbiters with inl (arbiters, _) => Forall arbiter arbiters | inr _ => True end.

Lemma inv_maps arbiter s s' :
  failedTxList s' = failedTxList s -> verifiedArbiter s' = verifiedArbiter s -> withdraw_inv arbiter s -> withdraw_inv arbiter s'.
Proof. intros E1 E2 [Hs Hd Ha]. split; rewrite ?E2; [by rewrite E1|done|done]. Qed.

Lemma collectSignature_spec arbiter client GetArbiters signer mux h sig s err s' :
  wf_bytes h -> zlen h = 32 -> covers arbiter GetArbiters -> withdraw_inv arbiter s ->
  collectSignature client GetArbiters signer mux (hex_encode h) sig s = Some (err, s') ->
  withdraw_inv arbiter s' /\
  (sent s' = sent s \/
   exists arbiters total r, GetArbiters = inl (arbiters, total) /\ sent s' = sent s ++ [r] /\
     quorum_refund arbiter h (getMaxArbitersSign total) r).
Proof.
  intros Hw Hl Hcov Hi. unfold collectSignature. destruct GetArbiters as [[arbiters total]|]; [|intros [= _ <-]; by auto].
  case_match; [intros [= _ <-]; by auto|]. unfold verifySignature.
  destruct (first_signer _ _ _ _) as [arb|] eqn:Ef; [|intros [= _ <-]; by auto].
  apply first_signer_Some in Ef as (Hin & Hn & Hg). cbn zeta. cbn in Hcov. rewrite Forall_forall in Hcov.
  pose proof (record_inv arbiter s (hex_encode h) sig arb Hi Hn Hg (Hcov arb Hin)) as Hi1.
  set (s1 := s <| failedTxList := _ |> <| verifiedArbiter := _ |>) in *.
  destruct (_ <=? zlen (_ ++ _)) eqn:Hq.
  - destruct (SendRefundTx client signer (hex_encode h) s1) as [[e s2]|] eqn:Es; [|done]. cbn. intros [= _ <-].
    destruct (SendRefundTx_sent _ _ _ _ _ _ Hw Hl Es) as (E1 & E2 & Hsent).
    split; [by apply (inv_maps arbiter s1)|]. destruct Hsent as [->|(r & -> & Hr)]; [by left|]. right.
    exists arbiters, total, r. split_and!; [done..|].
    exists (entry (verifiedArbiter s1) (hex_encode h)), (entry (failedTxList s1) (hex_encode h)).
    split_and!; [apply Hi1..| |done]. cbn. rewrite entry_insert, decide_True by done. by apply Z.leb_le.
  - intros [= _ <-]. unfold broadFailedWithdrawEvt. destruct mux; (split; [|by left]); [by apply (inv_maps arbiter s1)|done].
Qed.

(** C35: a refund needs a quorum of arbiters.  Whatever set of keys contains the
    arbiters that [spv.GetArbiters] returns now: from a state in which the recorded
    signers of every withdrawal are in the set, pairwise different, and each
    recorded signature is valid for its signer, the reception of any signature for
    withdrawal [h] keeps that; and a refund transaction leaves the node only when
    the signatures it carries are valid ones of pairwise different keys of the set,
    more than two thirds of the total that [GetArbiters] returns.  With the set of
    the current arbiters this says that the signers are current arbiters, as long
    as the recorded ones are; with the set of all arbiters returned so far it holds
    through changes of the arbiters. *)
Theorem refund_needs_quorum (arbiter : string -> Prop) client GetArbiters signer mux (h : bytes) (sig : string) (s s' : Withdraw) (err : error) :
  wf_bytes h -> zlen h = 32 -> covers arbiter GetArbiters -> withdraw_inv arbiter s ->
  ReceivedFailedWithdrawTx client GetArbiters signer mux (hash_String h) sig s = Some (err, s') ->
  withdraw_inv arbiter s' /\
  (sent s' = sent s \/
   exists arbiters total r, GetArbiters = inl (arbiters, total) /\ sent s' = sent s ++ [r] /\
     quorum_refund arbiter h (getMaxArbitersSign total) r).
Proof.
  intros Hw Hl Hcov Hi. unfold ReceivedFailedWithdrawTx. rewrite strip_hash. cbn.
  destruct (IsSignatureVerified _ _ _); [intros [= _ <-]; by auto|].
  destruct client as [cl|]; [|intros [= _ <-]; by auto].
  destruct (StorageAt cl _) as [res|]; [|intros [= _ <-]; by auto].
  destruct (ReceiptStatus cl _) as [st|]; [|intros [= _ <-]; by auto].
  destruct (st =? 0); [intros [= _ <-]; by auto|].
  destruct (negb _); [|by apply collectSignature_spec].
  destruct (OnProcessFaildWithdrawTx (hex_encode h) s) as [s1|] eqn:Ep; [|done]. cbn. intros [= _ <-].
  split; [by eapply OnProcess_inv|]. left. unfold OnProcessFaildWithdrawTx in Ep.
  destruct (strip0x _); [|done]. cbn in Ep. injection Ep as <-. by case_match.
Qed.

(** ** Checking the signatures of a refund transaction *)
Lemma count_signatures_enough arbiters buff max count sigs :
  Forall (fun sig => signed_by_arbiter arbiters buff (Hex2Bytes sig) = true) sigs ->
  max <= count + zlen sigs -> count < max -> count_signatures arbiters buff max count sigs = true.
Proof.
  intros Hs. revert count. induction Hs as [|sig sigs Hsig _ IH]; intros count Hm Hc; cbn; [unfold zlen in Hm; cbn in Hm; lia|].
  rewrite Hsig. destruct (Z.leb_spec max (count + 1)); [done|]. apply IH; [rewrite zlen_cons in Hm; lia|lia].
Qed.

Lemma split_signatures_concat (sigs : list bytes) :
  Forall (fun b => zlen b = 64) sigs -> split_signatures (concat sigs) = hex_encode <$> sigs.
Proof.
  unfold split_signatures. intros Hs. induction Hs as [|b sigs Hb _ IH]; [done|]. cbn [concat].
  assert (Hlb : length b = 64%nat) by (unfold zlen in Hb; lia).
  rewrite length_app, Hlb. replace ((64 + length (concat sigs)) / 64)%nat with (S (length (concat sigs) / 64)).
  2:{ replace (64 + length (concat sigs))%nat with (length (concat sigs) + 1 * 64)%nat by lia.
      rewrite Nat.div_add by lia. lia. }
  cbn [seq]. rewrite fmap_cons, fmap_cons. f_equal.
  - rewrite Nat.mul_0_l, drop_0, take_app_length' by done. done.
  - rewrite <- IH, <- fmap_S_seq, <- list_fmap_compose. apply list_fmap_ext. intros _ i _. cbn [compose].
    do 2 f_equal. replace (S i * 64)%nat with (length b + i * 64)%nat by lia. apply drop_app_add.
Qed.

(** Enough signatures, each by some arbiter, make a refund valid. *)
Lemma VerifySignatures_enough cl arbiters total (h : bytes) (sigs : list bytes) res (s : Withdraw) :
  wf_bytes h -> zlen h = 32 -> StorageAt cl h = inl res -> BytesToHash res = zero_hash ->
  Forall (fun b => zlen b = 64 /\ wf_bytes b /\ signed_by_arbiter arbiters h b = true) sigs ->
  0 < getMaxArbitersSign total <= zlen sigs ->
  VerifySignatures (Some cl) (inl (arbiters, total)) (h ++ concat sigs) s = true.
Proof.
  intros Hw Hl Hst Hz Hs Hm. unfold VerifySignatures.
  assert (Hh : length h = 32%nat) by (unfold zlen in Hl; lia).
  assert (H64 : Forall (fun b => zlen b = 64) sigs) by (eapply Forall_impl; [exact Hs|]; by intros ? [? _]).
  assert (Hlen : zlen (concat sigs) = 64 * zlen sigs).
  { clear - H64. induction H64 as [|b sigs Hb _ IH]; [done|]. cbn [concat]. rewrite zlen_app, zlen_cons, Hb, IH. lia. }
  rewrite zlen_app, Hl, Hlen. destruct (Z.leb_spec (32 + 64 * zlen sigs) 32); [lia|].
  rewrite take_app_length', drop_app_length' by done. rewrite (BytesToHash_id h Hl), Hst, Hz.
  rewrite (proj2 (bytes_Equal_spec _ _)) by done. cbn [negb]. rewrite Hlen, Z.mul_comm, Z_mod_mult. cbn [Z.eqb negb].
  rewrite split_signatures_concat by done.
  destruct (Z.leb_spec (zlen (hex_encode <$> sigs)) 0) as [Hc|_]; [unfold zlen in *; rewrite length_fmap in Hc; lia|].
  case_match; [done|]. apply count_signatures_enough; [|unfold zlen in *; rewrite length_fmap; lia|lia].
  rewrite Hex2Bytes_encode by done. apply Forall_fmap. eapply Forall_impl; [exact Hs|]. intros b (_ & Hb & Hg). cbn.
  by rewrite Hex2Bytes_encode.
Qed.

Lemma signs_signed_by (h : bytes) sig arb arbiters :
  wf_bytes h -> signs (hex_encode h) sig arb -> arb ∈ arbiters -> signed_by_arbiter arbiters h (Hex2Bytes sig) = true.
Proof.
  intros Hw (pk & Hd & Hv) Hin. rewrite Hex2Bytes_encode in Hv by done. unfold signed_by_arbiter.
  apply existsb_exists. exists arb. split; [by apply list_elem_of_In|]. rewrite Hd. by apply bool_decide_eq_true.
Qed.

(** What the main chain's library documents: a valid signature has 64 bytes. *)
Definition signature_length : Prop := forall pk data sig, Verify pk data sig = nil_err -> zlen sig = 64.

(** a refund that leaves a node is accepted everywhere.  The data of a
    refund with a quorum of signatures of current arbiters, for a withdrawal not
    yet refunded, passes [VerifySignatures] on every node, whatever signatures
    that node has itself collected. *)
Theorem quorum_refund_verifies cl arbiters total (h : bytes) (r : refund) res (s : Withdraw) arbs sigs :
  signature_length -> wf_bytes h -> zlen h = 32 ->
  StorageAt cl h = inl res -> BytesToHash res = zero_hash ->
  Forall2 (fun arb sig => signs (hex_encode h) sig arb) arbs sigs -> arbs ⊆ arbiters ->
  0 < getMaxArbitersSign total <= zlen arbs -> refund_Data r = h ++ concat (Hex2Bytes <$> sigs) ->
  VerifySignatures (Some cl) (inl (arbiters, total)) (refund_Data r) s = true.
Proof.
  intros Hlen Hw Hl Hst Hz Hs Hsub Hm ->. apply (VerifySignatures_enough _ _ _ _ _ res); try done.
  - apply Forall_fmap. apply Forall_forall. intros sig [i Hi]%list_elem_of_lookup.
    destruct (Forall2_lookup_r _ _ _ _ _ Hs Hi) as (arb & Ha & Hg).
    split_and!; [|apply Hex2Bytes_wf|].
    + destruct Hg as (pk & _ & Hv). by eapply Hlen.
    + eapply signs_signed_by; [done|exact Hg|]. apply Hsub. by eapply list_elem_of_lookup_2.
  - apply Forall2_length in Hs. unfold zlen in *. rewrite length_fmap. lia.
Qed.

(** C37: one arbiter can refund alone.  [VerifySignatures] counts signatures,
    not signers: one valid signature of one arbiter, repeated as often as a
    quorum needs, is accepted. *)
Theorem one_arbiter_refunds cl arbiters total (h : bytes) (sig arb : string) res (s : Withdraw) :
  signature_length -> wf_bytes h -> zlen h = 32 ->
  StorageAt cl h = inl res -> BytesToHash res = zero_hash ->
  signs (hex_encode h) sig arb -> arb ∈ arbiters -> 0 < getMaxArbitersSign total ->
  VerifySignatures (Some cl) (inl (arbiters, total))
    (h ++ concat (replicate (Z.to_nat (getMaxArbitersSign total)) (Hex2Bytes sig))) s = true.
Proof.
  intros Hlen Hw Hl Hst Hz Hg Ha Hm. apply (VerifySignatures_enough _ _ _ _ _ res); try done.
  - apply Forall_replicate. split_and!; [|apply Hex2Bytes_wf|by eapply signs_signed_by].
    destruct Hg as (pk & _ & Hv). by eapply Hlen.
  - unfold zlen. rewrite length_replicate. lia.
Qed.
End proofs.

(** ** Witnesses *)
Module ToyWithdraw.
(** A library with signatures of 64 bytes. *)
Definition signature (pk data : bytes) : bytes := take 64 (pk ++ data ++ replicate 64 0).

#[export] Instance lib : ElaLib := {|
  PublicKey := bytes;
  DecodePoint := fun b => if bool_decide (b = []) then inr "invalid key" else inl b;
  Verify := fun pk d s => if bool_decide (s = signature pk d) then nil_err else New "invalid signature";
  proposal_Hash := @proposal_Hash Toy.lib;
  proposal_Data := @proposal_Data Toy.lib;
  vote_Hash := @vote_Hash Toy.lib;
  vote_Data := @vote_Data Toy.lib;
  resetView_SerializeUnsigned := @resetView_SerializeUnsigned Toy.lib;
  Int64ToTime := @Int64ToTime Toy.lib
|}.

Lemma length_64 : signature_length.
Proof.
  intros pk d s. cbn. case_bool_decide as E; [|done]. intros _. subst s. unfold signature, zlen.
  rewrite length_take, !length_app, length_replicate. lia.
Qed.

Definition client : Client := {|
  StorageAt := fun _ => inl (replicate 32 0);
  ReceiptStatus := fun _ => inl 1;
  TransactionByHash := fun _ => inl None;
  EstimateGas := fun _ _ => inl 21000;
  SuggestGasPrice := inl 0;
  SendPublicTransaction := fun _ _ _ _ => nil_err
|}.

Definition txid : bytes := replicate 32 7.
Definition arbiters : list string := hex_encode <$> [[2; 1]; [2; 2]; [2; 3]; [2; 4]].
Definition signed (key : bytes) : string := hex_encode (signature key txid).

Definition receive (key : bytes) (s : Withdraw) : option (error * Withdraw) :=
  ReceivedFailedWithdrawTx (Some client) (inl (arbiters, 4)) 99 true (hash_String txid) (signed key) s.

Definition empty : Withdraw := {| failedTxList := ∅; verifiedArbiter := ∅; sent := []; broadcast := [] |}.

Definition state (o : option (error * Withdraw)) : Withdraw := from_option snd empty o.
Definition one : Withdraw := state (receive [2; 1] empty).
Definition two : Withdraw := state (receive [2; 3] one).
Definition three : Withdraw := state (receive [2; 4] two).

Lemma empty_inv : withdraw_inv (.∈ arbiters) empty.
Proof. split; intros k; cbn; [constructor|apply NoDup_nil_2|constructor]. Qed.

Lemma arbiters_covered : covers (.∈ arbiters) (inl (arbiters, 4)).
Proof. apply Forall_forall. done. Qed.

Lemma txid_wf : wf_bytes txid.
Proof. repeat constructor; done. Qed.
End ToyWithdraw.

#[local] Existing Instance ToyWithdraw.lib.

(** The third signature sends the refund. *)
Lemma refund_needs_quorum_witness :
  exists r, sent ToyWithdraw.three = [r] /\ quorum_refund (.∈ ToyWithdraw.arbiters) ToyWithdraw.txid 3 r.
Proof.
  pose (step := fun key s s' => refund_needs_quorum (.∈ ToyWithdraw.arbiters) (Some ToyWithdraw.client) (inl (ToyWithdraw.arbiters, 4)) 99 true
    ToyWithdraw.txid (ToyWithdraw.signed key) s s' nil_err ToyWithdraw.txid_wf eq_refl ToyWithdraw.arbiters_covered).
  destruct (step [2; 1] ToyWithdraw.empty ToyWithdraw.one ToyWithdraw.empty_inv ltac:(vm_compute; reflexivity)) as [I1 _].
  destruct (step [2; 3] ToyWithdraw.one ToyWithdraw.two I1 ltac:(vm_compute; reflexivity)) as [I2 _].
  destruct (step [2; 4] ToyWithdraw.two ToyWithdraw.three I2 ltac:(vm_compute; reflexivity))
    as [_ [E|(a & t & r & Ea & Es & Hq)]].
  - exfalso. revert E. vm_compute. done.
  - exists r. injection Ea as <- <-. split; [exact Es|exact Hq].
Defined.

Lemma quorum_refund_verifies_witness :
  VerifySignatures (Some ToyWithdraw.client) (inl (ToyWithdraw.arbiters, 4))
    (ToyWithdraw.txid ++ concat (Hex2Bytes <$> (ToyWithdraw.signed <$> [[2; 1]; [2; 3]; [2; 4]]))) ToyWithdraw.empty = true.
Proof.
  apply (quorum_refund_verifies ToyWithdraw.client ToyWithdraw.arbiters 4 ToyWithdraw.txid
    {| refund_From := 99;
       refund_Data := ToyWithdraw.txid ++ concat (Hex2Bytes <$> (ToyWithdraw.signed <$> [[2; 1]; [2; 3]; [2; 4]]));
       refund_Gas := 21000; refund_GasPrice := 1 |}
    (replicate 32 0) ToyWithdraw.empty (hex_encode <$> [[2; 1]; [2; 3]; [2; 4]])
    (ToyWithdraw.signed <$> [[2; 1]; [2; 3]; [2; 4]])).
  - apply ToyWithdraw.length_64.
  - apply ToyWithdraw.txid_wf.
  - reflexivity.
  - reflexivity.
  - vm_compute. reflexivity.
  - repeat constructor; (eexists; split; vm_compute; reflexivity).
  - apply (bool_decide_unpack _). vm_compute. done.
  - vm_compute. split; done.
  - reflexivity.
Defined.

Lemma one_arbiter_refunds_witness :
  VerifySignatures (Some ToyWithdraw.client) (inl (ToyWithdraw.arbiters, 4))
    (ToyWithdraw.txid ++ concat (replicate 3 (Hex2Bytes (ToyWithdraw.signed [2; 2])))) ToyWithdraw.empty = true.
Proof.
  apply (one_arbiter_refunds ToyWithdraw.client ToyWithdraw.arbiters 4 ToyWithdraw.txid
    (ToyWithdraw.signed [2; 2]) (hex_encode [2; 2]) (replicate 32 0)).
  - apply ToyWithdraw.length_64.
  - apply ToyWithdraw.txid_wf.
  - reflexivity.
  - reflexivity.
  - vm_compute. reflexivity.
  - eexists. split; vm_compute; reflexivity.
  - apply (bool_decide_unpack _). vm_compute. done.
  - vm_compute. reflexivity.
Defined.
