(* ===== verification/SmallCross.v ===== *)
(** * [smallcrosstx/]: small cross-chain transactions

    A small deposit is credited before it is final on the main chain when more
    than two thirds of the arbiters have signed it.  The signatures arrive one by
    one and are kept in an in-memory key-value table under string keys; when
    there are enough the transaction is handed on ([posted]).

    Decoding a main-chain transaction and the signature scheme are parameters. *)
From Stdlib Require Import Ascii.
From S2P Require Import Prelude Ela Messages Rlp Common Withdraw.

(** ** Integers as table values *)
Definition IntToBytes (n : Z) : bytes := be 8 n.

(** [binary.Read] leaves the zero value when the data is too short. *)
Definition BytesToInt (b : bytes) : Z := if zlen b <? 8 then 0 else shift_or (take 8 b).

(** ** The message *)
Record SmallCrossTx := { RawTxID : string; RawTx : string; Signatures : list string; BlockHeight : Z }.

Definition NewSmallCrossTx : SmallCrossTx :=
  {| RawTxID := EmptyString; RawTx := EmptyString; Signatures := []; BlockHeight := 0 |}.

Definition VerifiedSignature (sig : string) (ct : SmallCrossTx) : bool := bool_decide (sig ∈ Signatures ct).

Section message.
Context `{!Codec}.

Definition SmallCrossTx_Serialize (ct : SmallCrossTx) : bytes :=
  WriteVarString (RawTxID ct) ++ WriteVarString (RawTx ct) ++ WriteUint8 (u8 (zlen (Signatures ct))) ++
  concat (WriteVarString <$> Signatures ct) ++ WriteUint64 (BlockHeight ct).

(** Only the signatures are assigned before the end. *)
Definition SmallCrossTx_Deserialize : receive SmallCrossTx := fun ct b =>
  read rawID, b <- ReadVarString of b into ct in
  read rawTx, b <- ReadVarString of b into ct in
  read count, b <- ReadUint8 of b into ct in
  let '(sigs, err, b) := read_n ReadVarString (Z.to_nat count) b in
  let ct := {| RawTxID := RawTxID ct; RawTx := RawTx ct; Signatures := sigs; BlockHeight := BlockHeight ct |} in
  if failed err then (ct, err, b)
  else
    read height, b <- ReadUint64 of b into ct in
    ({| RawTxID := rawID; RawTx := rawTx; Signatures := sigs; BlockHeight := height |}, nil_err, b).
End message.

(** ** The table *)
Record SmallTxs := {
  smallCrossTxCountMap : gmap string Z;
  small_verifiedArbiter : gmap string (list string);
  smallCrossTxMsgMap : gset string;
  smallCrossTxDb : gmap string bytes;
  posted : list string                  (** the hashes of the posted transactions *)
}.

#[export] Instance SmallTxs_eta : Eta SmallTxs := fun s => {|
  smallCrossTxCountMap := smallCrossTxCountMap s; small_verifiedArbiter := small_verifiedArbiter s;
  smallCrossTxMsgMap := smallCrossTxMsgMap s; smallCrossTxDb := smallCrossTxDb s; posted := posted s
|}.

Definition tx_key (h : string) : string := "small_cross_tx" +:+ h.
Definition count_key (h : string) : string := "small_cross_sigcount" +:+ h.
Definition sig_key (h : string) (i : Z) : string := "small_cross_sig" +:+ h +:+ pretty i.
Definition height_key (h : string) : string := "small_cross_blockNumber" +:+ h.

Arguments tx_key : simpl never.
Arguments count_key : simpl never.
Arguments sig_key : simpl never.
Arguments height_key : simpl never.

Definition PutSmallTxData (rawTx elaHash : string) (s : SmallTxs) : option SmallTxs :=
  elaHash ← strip0x elaHash;
  Some (s <| smallCrossTxDb := <[ tx_key elaHash := string_bytes rawTx ]> (smallCrossTxDb s) |>).

Definition PutSmallTxSignature (signature elaHash : string) (count blockNumber : Z) (s : SmallTxs) : option SmallTxs :=
  elaHash ← strip0x elaHash;
  Some (s <| smallCrossTxDb :=
    <[ height_key elaHash := IntToBytes blockNumber ]>
      (<[ sig_key elaHash count := string_bytes signature ]>
        (<[ count_key elaHash := IntToBytes (u64 count) ]> (smallCrossTxDb s))) |>).

Definition GetArbiterSignCount (elaHash : string) (s : SmallTxs) : option (Z + string) :=
  elaHash ← strip0x elaHash;
  Some match smallCrossTxDb s !! count_key elaHash with
       | Some data => inl (i64 (BytesToInt data))
       | None => inr ("can not find this small transaction:" +:+ elaHash)
       end.

Definition GetReiceivedBlockHeight (elaHash : string) (s : SmallTxs) : option (Z + string) :=
  elaHash ← strip0x elaHash;
  Some match smallCrossTxDb s !! height_key elaHash with
       | Some data => inl (BytesToInt data)
       | None => inr ("can not find this small transaction:" +:+ elaHash)
       end.

(** The signatures [0..count]; a missing or empty one gives up. *)
Fixpoint read_signatures (elaHash : string) (db : gmap string bytes) (indices : list Z) : option (list string) :=
  match indices with
  | [] => Some []
  | i :: indices =>
      let data := default [] (db !! sig_key elaHash i) in
      if zlen data =? 0 then None
      else sigs ← read_signatures elaHash db indices; Some (bytes_string data :: sigs)
  end.

(** The outer option is a panic, the inner one the nil result. *)
Definition GetSmallCrossTxMsg (elaHash : string) (s : SmallTxs) : option (option SmallCrossTx) :=
  elaHash ← strip0x elaHash;
  let rawTxData := default [] (smallCrossTxDb s !! tx_key elaHash) in
  if zlen rawTxData =? 0 then Some None
  else
    c ← GetArbiterSignCount elaHash s;
    match c with
    | inr _ => Some None
    | inl count =>
        match read_signatures elaHash (smallCrossTxDb s) (seqZ 0 (count + 1)) with
        | None => Some None
        | Some sigList =>
            ht ← GetReiceivedBlockHeight elaHash s;
            match ht with
            | inr _ => Some None
            | inl height => Some (Some {| RawTxID := elaHash; RawTx := bytes_string rawTxData;
                                          Signatures := sigList; BlockHeight := height |})
            end
        end
    end.

(** Writing to a buffer does not fail. *)
Definition GetSmallCrossTxBytes `{!Codec} (elaHash : string) (s : SmallTxs) : option (bytes * option SmallCrossTx * error) :=
  tx ← GetSmallCrossTxMsg elaHash s;
  Some match tx with
       | None => ([], None, New ("not have this small cross tx:" +:+ elaHash))
       | Some tx => (SmallCrossTx_Serialize tx, Some tx, nil_err)
       end.

Definition GetMaxArbitersSign (total : Z) : Z := i64 (Z.quot (i64 (total * 2)) 3 + 1).

Definition isArbiterVerified (arbiter txid : string) (s : SmallTxs) : bool :=
  bool_decide (arbiter ∈ entry (small_verifiedArbiter s) txid).

Definition OnSmallTxSuccess (elaHash : string) (s : SmallTxs) : option SmallTxs :=
  elaHash ← strip0x elaHash;
  c ← GetArbiterSignCount elaHash s;
  match c with
  | inr _ => Some s
  | inl count =>
      let db := foldl (fun db i => delete (sig_key elaHash i) db) (smallCrossTxDb s) (seqZ 0 (count + 1)) in
      let db := delete (count_key elaHash) db in
      let rawTxData := default [] (db !! tx_key elaHash) in
      Some (s <| smallCrossTxMsgMap := smallCrossTxMsgMap s ∖ {[ bytes_string rawTxData ]} |>
              <| smallCrossTxDb := delete (height_key elaHash) (delete (tx_key elaHash) db) |>
              <| smallCrossTxCountMap :=
                   if 0 <? default 0 (smallCrossTxCountMap s !! elaHash)
                   then delete elaHash (smallCrossTxCountMap s) else smallCrossTxCountMap s |>
              <| small_verifiedArbiter := delete elaHash (small_verifiedArbiter s) |>)
  end.

(** ** Receiving a signature *)
Section small.
Context `{!ElaLib}.
(** [elatx.GetTransactionByBytes] and [Deserialize]: the transaction's hash as
    a string, or the error; [None] when there is no transaction to deserialize,
    which panics. *)
Context (DecodeTx : bytes -> option (string + string)) (hasEventMux : bool).

Definition ErrAllReadyConfirm : string := "smallCroTxConfirmed".

(** The loop over the arbiters: the first one without a recorded signature
    whose key verifies; an invalid key is an error. *)
Fixpoint find_signer (verified : list string) (buff sig : bytes) (arbiters : list string) : option string + string :=
  match arbiters with
  | [] => inl None
  | pubkey :: arbiters =>
      if bool_decide (pubkey ∈ verified) then find_signer verified buff sig arbiters
      else match DecodePoint (Hex2Bytes pubkey) with
           | inr err => inr err
           | inl pubKey =>
               match Verify pubKey buff sig with
               | None => inl (Some pubkey)
               | Some _ => find_signer verified buff sig arbiters
               end
           end
  end.

(** What a verified signature of [pubkey] changes. *)
Definition recordSigner (hash rawTx signature pubkey : string) (count maxSignCount blockNumber : Z) (s : SmallTxs)
    : option SmallTxs :=
  s ← (if count =? 0 then PutSmallTxData rawTx hash s else Some s);
  let count := count + 1 in
  if count <=? maxSignCount then
    s ← PutSmallTxSignature signature hash (count - 1) blockNumber s;
    Some (s <| small_verifiedArbiter :=
                 <[ hash := entry (small_verifiedArbiter s) hash ++ [pubkey] ]> (small_verifiedArbiter s) |>
            <| smallCrossTxCountMap := <[ hash := count ]> (smallCrossTxCountMap s) |>)
  else Some s.

(** The end of [OnSmallCrossTx]. *)
Definition confirmSmall (hash rawTx : string) (count maxSignCount : Z) (s : SmallTxs) : SmallTxs :=
  if maxSignCount <=? count
  then s <| smallCrossTxMsgMap := {[ rawTx ]} ∪ smallCrossTxMsgMap s |>
         <| small_verifiedArbiter := delete hash (small_verifiedArbiter s) |>
         <| posted := posted s ++ [hash] |>
  else s.

Definition OnSmallCrossTx (arbiters : list string) (total : Z) (signature rawTx : string) (blockNumber : Z)
    (s : SmallTxs) : option (error * SmallTxs) :=
  if negb hasEventMux then Some (New "smallCrossTxDb is nil", s)
  else if bool_decide (rawTx ∈ smallCrossTxMsgMap s) then Some (New ErrAllReadyConfirm, s)
  else
    let '(buff, err) := hex_DecodeString rawTx in
    if failed err then Some (err, s)
    else
      t ← DecodeTx buff;
      match t with
      | inr err => Some (New err, s)
      | inl hash =>
          ctx ← GetSmallCrossTxMsg hash s;
          if match ctx with Some ctx => VerifiedSignature signature ctx | None => false end
          then Some (New "verified this signature", s)
          else
            let count := match ctx with Some ctx => zlen (Signatures ctx) | None => 0 end in
            let maxSignCount := GetMaxArbitersSign total in
            if maxSignCount <=? count then Some (New ErrAllReadyConfirm, s)
            else
              let '(sig, err) := hex_DecodeString signature in
              if failed err then Some (err, s)
              else match find_signer (entry (small_verifiedArbiter s) hash) buff sig arbiters with
              | inr err => Some (New err, s)
              | inl None => Some (nil_err, confirmSmall hash rawTx count maxSignCount s)
              | inl (Some pubkey) =>
                  s ← recordSigner hash rawTx signature pubkey count maxSignCount blockNumber s;
                  Some (nil_err, confirmSmall hash rawTx (count + 1) maxSignCount s)
              end
      end.

Definition OnReceivedSmallCroTxFromDirectNet (arbiters : list bytes) (total : Z) (signature rawTx : string)
    (blockHeight : Z) (s : SmallTxs) : option SmallTxs :=
  r ← OnSmallCrossTx (hex_encode <$> arbiters) total signature rawTx blockHeight s; Some (snd r).
End small.

(** ** Keys of different transactions are apart *)

(** The string form of a hash: 64 lower-case hexadecimal digits. *)
Definition canonical (h : string) : Prop := exists b, wf_bytes b /\ zlen b = 32 /\ h = hex_encode b.

Lemma canonical_cons h :
  canonical h -> exists c d r x y, h = String c (String d r) /\ hex_value c = Some x /\ hex_value d = Some y.
Proof.
  intros (b & Hw & Hl & ->). destruct b as [|z b]; [by cbn in Hl|]. apply Forall_cons_1 in Hw as [Hz _].
  cbn [hex_encode]. do 5 eexists. split; [done|]. split; apply hex_value_digit; div_lia.
Qed.

Lemma canonical_strip h : canonical h -> strip0x h = Some h.
Proof.
  intros Hh. destruct (canonical_cons h Hh) as (c & d & r & x & y & -> & _ & Hd). cbn.
  rewrite bool_decide_eq_false_2; [done|]. intros [_ ->]. done.
Qed.

Lemma canonical_length h : canonical h -> String.length h = 64%nat.
Proof. intros (b & _ & Hl & ->). rewrite hex_encode_length. unfold zlen in Hl. lia. Qed.

Definition key_of (h k : string) : Prop :=
  k = tx_key h \/ k = count_key h \/ k = height_key h \/ exists i, k = sig_key h i.
#[local] Hint Unfold key_of : core.

Lemma append_inj_prefix (a b c d : string) : String.length a = String.length b -> a +:+ c = b +:+ d -> a = b.
Proof.
  revert b. induction a as [|x a IH]; intros [|y b] Hl E; try done. cbn in *.
  injection E as -> E. f_equal. apply (IH b); [lia|done].
Qed.

Lemma sig_count_apart h i h' : canonical h -> sig_key h i <> count_key h'.
Proof.
  intros Hh E. destruct (canonical_cons h Hh) as (c & d & r & x & y & -> & _ & Hd).
  unfold sig_key, count_key in E. cbn in E. injection E as _ Ed _. by subst d.
Qed.

Lemma keys_apart h h' k : canonical h -> canonical h' -> key_of h k -> key_of h' k -> h = h'.
Proof.
  intros Hh Hh' [->|[->|[->|[i ->]]]] [E|[E|[E|[i' E]]]];
    try (exfalso; unfold tx_key, count_key, height_key, sig_key in E; discriminate E).
  - by apply (inj _) in E.
  - by apply (inj _) in E.
  - symmetry in E. by apply sig_count_apart in E.
  - by apply (inj _) in E.
  - by apply sig_count_apart in E.
  - unfold sig_key in E. apply (inj _) in E. eapply append_inj_prefix; [|exact E]. by rewrite !canonical_length.
Qed.

(** Two tables agree on a transaction. *)
Definition same_tx (h : string) (s s' : SmallTxs) : Prop :=
  forall k, key_of h k -> smallCrossTxDb s !! k = smallCrossTxDb s' !! k.

Lemma read_signatures_same h s s' l :
  same_tx h s s' -> read_signatures h (smallCrossTxDb s) l = read_signatures h (smallCrossTxDb s') l.
Proof. intros Hs. induction l as [|i l IH]; [done|]. cbn. by rewrite (Hs (sig_key h i)), IH by eauto 6. Qed.

Lemma GetSmallCrossTxMsg_same h s s' : canonical h -> same_tx h s s' -> GetSmallCrossTxMsg h s = GetSmallCrossTxMsg h s'.
Proof.
  intros Hh Hs. unfold GetSmallCrossTxMsg, GetArbiterSignCount, GetReiceivedBlockHeight. repeat (rewrite canonical_strip by done; cbn).
  rewrite (Hs (tx_key h)), (Hs (count_key h)), (Hs (height_key h)) by eauto.
  destruct (_ =? 0); [done|]. destruct (smallCrossTxDb s' !! count_key h); [|done].
  by rewrite (read_signatures_same h s s').
Qed.

(** The number of signatures found for a transaction. *)
Definition sign_count (h : string) (s : SmallTxs) : Z :=
  match GetSmallCrossTxMsg h s with Some (Some ctx) => zlen (Signatures ctx) | _ => 0 end.

Lemma read_signatures_length h db l sigs : read_signatures h db l = Some sigs -> length sigs = length l.
Proof.
  revert sigs. induction l as [|i l IH]; intros sigs; cbn; [by intros [= <-]|]. case_match; [done|].
  destruct (read_signatures h db l) as [sigs'|]; [|done]. cbn. intros [= <-]. cbn. f_equal. by apply IH.
Qed.

Lemma BytesToInt_IntToBytes n : is_u64 n -> BytesToInt (IntToBytes n) = n.
Proof.
  intros Hn. unfold BytesToInt, IntToBytes. change (zlen (be 8 n) <? 8) with false. cbn iota.
  rewrite take_ge by done. rewrite shift_or_be by (unfold is_u64 in Hn; lia). apply Z.mod_small. unfold is_u64 in Hn. lia.
Qed.

(** The stored count bounds the signatures found. *)
Lemma sign_count_stored h s c :
  canonical h -> 0 <= c < 2 ^ 63 -> smallCrossTxDb s !! count_key h = Some (IntToBytes (u64 c)) -> sign_count h s <= c + 1.
Proof.
  intros Hh Hc Hk. unfold sign_count, GetSmallCrossTxMsg, GetArbiterSignCount. repeat (rewrite canonical_strip by done; cbn).
  destruct (_ =? 0); [lia|]. rewrite Hk. cbv beta iota. rewrite u64_id, BytesToInt_IntToBytes by (unfold is_u64; lia).
  rewrite i64_id by (unfold is_i64; lia).
  destruct (read_signatures _ _ _) as [sigs|] eqn:Es; [|lia].
  apply read_signatures_length in Es. rewrite length_seqZ in Es.
  destruct (GetReiceivedBlockHeight h s) as [[ht|]|]; cbn; [unfold zlen; lia|lia|lia].
Qed.

(** ** The invariant *)
Section proofs.
Context `{!ElaLib} (DecodeTx : bytes -> option (string + string)) (isArbiter : string -> Prop).

(** [arb], an arbiter at some time, has signed bytes that decode to the
    transaction with hash [h]. *)
Definition small_signed (h arb : string) : Prop :=
  isArbiter arb /\ exists buff sig pk, DecodeTx buff = Some (inl h) /\ DecodePoint (Hex2Bytes arb) = inl pk /\ Verify pk buff sig = nil_err.

(** Until a transaction is posted, the recorded arbiters are pairwise different
    signers of it, at least as many as signatures are found for it. *)
Definition small_inv (s : SmallTxs) : Prop :=
  forall h, canonical h -> h ∉ posted s ->
    NoDup (entry (small_verifiedArbiter s) h) /\ Forall (small_signed h) (entry (small_verifiedArbiter s) h) /\
    sign_count h s <= zlen (entry (small_verifiedArbiter s) h).

Lemma find_signer_Some verified buff sig arbiters a h :
  DecodeTx buff = Some (inl h) -> Forall isArbiter arbiters ->
  find_signer verified buff sig arbiters = inl (Some a) -> a ∉ verified /\ small_signed h a.
Proof.
  intros Hb. induction 1 as [|b arbiters Hx _ IH]; cbn; [done|].
  case_bool_decide as Hv; [apply IH|]. destruct (DecodePoint (Hex2Bytes b)) as [pk|] eqn:Hd; [|done].
  destruct (Verify pk buff sig) eqn:Hs; [apply IH|]. intros [= <-]. split; [done|]. split; [done|]. by exists buff, sig, pk.
Qed.

(** Recording a signer of [h]: the other transactions are untouched. *)
Lemma recordSigner_spec h rawTx sig arb count max n s s' :
  canonical h -> 0 <= count < max -> max < 2 ^ 63 ->
  recordSigner h rawTx sig arb count max n s = Some s' ->
  posted s' = posted s /\ small_verifiedArbiter s' =
    <[ h := entry (small_verifiedArbiter s) h ++ [arb] ]> (small_verifiedArbiter s) /\
  sign_count h s' <= count + 1 /\ (forall h', canonical h' -> h' <> h -> same_tx h' s s').
Proof.
  intros Hh Hc Hm. unfold recordSigner, PutSmallTxData, PutSmallTxSignature.
  repeat (rewrite canonical_strip by done; cbn). intros E.
  set (s1 := if count =? 0 then s <| smallCrossTxDb := <[ tx_key h := string_bytes rawTx ]> (smallCrossTxDb s) |> else s).
  assert (E1 : (if count =? 0
    then Some (s <| smallCrossTxDb := <[ tx_key h := string_bytes rawTx ]> (smallCrossTxDb s) |>) else Some s) = Some s1)
    by (unfold s1; by destruct (count =? 0)).
  cbn in E1. rewrite E1 in E. cbn in E. destruct (Z.leb_spec (count + 1) max) as [_|]; [|lia].
  rewrite Z.add_simpl_r in E. injection E as <-. cbn. split_and!.
  - unfold s1. by destruct (count =? 0).
  - unfold s1. by destruct (count =? 0).
  - apply sign_count_stored; [done|lia|]. cbn.
    rewrite lookup_insert_ne by done. rewrite lookup_insert_ne by (by apply sig_count_apart). by rewrite lookup_insert_eq.
  - intros h' Hh' Hne k Hk. cbn.
    assert (Hap : forall k', key_of h k' -> k' <> k).
    { intros k' Hk' ->. apply Hne. by eapply keys_apart. }
    rewrite !lookup_insert_ne by (apply Hap; eauto 6). unfold s1.
    destruct (count =? 0); cbn; [|done]. by rewrite lookup_insert_ne by (apply Hap; eauto).
Qed.

Lemma sign_count_same h s s' : canonical h -> same_tx h s s' -> sign_count h s' = sign_count h s.
Proof. intros Hh Hs. unfold sign_count. by rewrite (GetSmallCrossTxMsg_same h s s'). Qed.

Lemma sign_count_nonneg h s : 0 <= sign_count h s.
Proof. unfold sign_count. repeat case_match; try lia. apply zlen_nonneg. Qed.

(** The invariant for everything but a transaction that is being posted. *)
Lemma recordSigner_inv h rawTx sig arb max n s s' :
  canonical h -> sign_count h s < max -> max < 2 ^ 63 -> small_inv s ->
  arb ∉ entry (small_verifiedArbiter s) h -> small_signed h arb ->
  recordSigner h rawTx sig arb (sign_count h s) max n s = Some s' ->
  small_inv s' /\ posted s' = posted s /\
  (h ∉ posted s -> sign_count h s + 1 <= zlen (entry (small_verifiedArbiter s') h)).
Proof.
  intros Hh Hc Hm Hi Hn Hs E. pose proof (sign_count_nonneg h s) as H0.
  destruct (recordSigner_spec _ _ _ _ _ _ _ _ _ Hh (conj H0 Hc) Hm E) as (Hp & Hv & Hcnt & Hsame).
  assert (Hlen : zlen (entry (small_verifiedArbiter s') h) = zlen (entry (small_verifiedArbiter s) h) + 1).
  { rewrite Hv, entry_insert, decide_True by done. by rewrite zlen_app. }
  split_and!; [|done|].
  - intros h' Hh' Hnp. rewrite Hp in Hnp. destruct (Hi h' Hh' Hnp) as (Hnd & Hf & Hle).
    destruct (decide (h = h')) as [<-|Hne].
    + rewrite Hlen. split_and!; [..|lia].
      * rewrite Hv, entry_insert, decide_True by done. apply NoDup_app. split; [done|]. split; [|apply NoDup_singleton].
        intros x Hx ->%list_elem_of_singleton. done.
      * rewrite Hv, entry_insert, decide_True by done. apply Forall_app. by split; [|constructor].
    + rewrite (sign_count_same h' s s') by (try apply Hsame; congruence).
      rewrite Hv, entry_insert, decide_False by done. done.
  - intros Hnp. destruct (Hi h Hh Hnp) as (_ & _ & Hle). rewrite Hlen. lia.
Qed.

(** A quorum of different signers stands behind a transaction. *)
Definition small_quorum (h : string) (n : Z) : Prop :=
  exists arbs, NoDup arbs /\ Forall (small_signed h) arbs /\ n <= zlen arbs.

Lemma confirmSmall_inv h rawTx count max s :
  canonical h -> small_inv s -> (h ∉ posted s -> count <= zlen (entry (small_verifiedArbiter s) h)) ->
  let s' := confirmSmall h rawTx count max s in
  small_inv s' /\
  (posted s' = posted s \/ posted s' = posted s ++ [h] /\ (h ∉ posted s -> small_quorum h max)).
Proof.
  intros Hh Hi Hc s'. unfold s', confirmSmall. destruct (Z.leb_spec max count) as [Hle|]; [|by auto]. split.
  - intros h' Hh' Hnp. cbn in Hnp. rewrite elem_of_app, list_elem_of_singleton in Hnp.
    assert (Hnp' : h' ∉ posted s) by tauto. destruct (Hi h' Hh' Hnp') as (Hnd & Hf & Hlen).
    unfold small_verifiedArbiter at 1 2 3. cbn. rewrite entry_delete, decide_False by (intros ->; tauto). done.
  - right. split; [done|]. intros Hnp. destruct (Hi h Hh Hnp) as (Hnd & Hf & _). specialize (Hc Hnp).
    exists (entry (small_verifiedArbiter s) h). split_and!; [done..|lia].
Qed.

Lemma OnSmallTxSuccess_inv h s s' :
  canonical h -> OnSmallTxSuccess h s = Some s' -> small_inv s -> small_inv s'.
Proof.
  intros Hh. unfold OnSmallTxSuccess, GetArbiterSignCount. repeat (rewrite canonical_strip by done; cbn).
  destruct (smallCrossTxDb s !! count_key h) as [data|]; [|by intros [= <-]].
  set (db := foldl _ _ _). intros [= <-] Hi h' Hh' Hnp. cbn in *. destruct (Hi h' Hh' Hnp) as (Hnd & Hf & Hle).
  rewrite entry_delete. destruct (decide (h = h')) as [<-|Hne].
  - split_and!; [apply NoDup_nil_2|constructor|]. unfold sign_count, GetSmallCrossTxMsg.
    repeat (rewrite canonical_strip by done; cbn). rewrite lookup_delete_ne by done. by rewrite lookup_delete_eq.
  - split_and!; [done..|]. rewrite (sign_count_same h' s); [done..|]. intros k Hk. cbn.
    assert (Hap : forall k', key_of h k' -> k' <> k).
    { intros k' Hk' ->. apply Hne. by eapply keys_apart. }
    rewrite !lookup_delete_ne by (apply Hap; eauto 6). subst db.
    generalize (seqZ 0 (i64 (BytesToInt data) + 1)) as l. generalize (smallCrossTxDb s) as m. intros m l. revert m.
    induction l as [|i l IH]; intros m; cbn; [done|]. rewrite <- IH, lookup_delete_ne by (apply Hap; eauto 6). done.
Qed.

(** C36: a small deposit needs a quorum of arbiters.  Starting from a table in
    which the arbiters recorded for a transaction are different signers of it,
    receiving any signature, with any current list of arbiters, keeps that invariant, and a transaction is handed on
    for the first time only when pairwise different arbiters, more than two
    thirds of the total, have signed it; forgetting a finished transaction keeps
    the invariant too. *)
Theorem small_deposit_needs_quorum mux arbiters total signature rawTx n (s s' : SmallTxs) (err : error) :
  (forall buff h, DecodeTx buff = Some (inl h) -> canonical h) -> Forall isArbiter arbiters -> small_inv s ->
  OnSmallCrossTx DecodeTx mux arbiters total signature rawTx n s = Some (err, s') ->
  small_inv s' /\
  (posted s' = posted s \/
   exists h, posted s' = posted s ++ [h] /\ (h ∉ posted s -> small_quorum h (GetMaxArbitersSign total))) /\
  (forall h s'', canonical h -> OnSmallTxSuccess h s' = Some s'' -> small_inv s'').
Proof.
  intros Hdec Harb Hi E.
  enough (Hx : small_inv s' /\ (posted s' = posted s \/
    exists h, posted s' = posted s ++ [h] /\ (h ∉ posted s -> small_quorum h (GetMaxArbitersSign total)))).
  { destruct Hx as [Hi' Hp]. split_and!; [done..|]. intros h s'' Hh Hs. by eapply OnSmallTxSuccess_inv. }
  revert E. unfold OnSmallCrossTx. destruct (negb mux); [intros [= _ <-]; by auto|].
  case_bool_decide; [intros [= _ <-]; by auto|]. destruct (hex_DecodeString rawTx) as [buff e1].
  destruct (failed e1); [intros [= _ <-]; by auto|]. destruct (DecodeTx buff) as [[h|e]|] eqn:Hb; cbn; [|intros [= _ <-]; by auto|done].
  pose proof (Hdec _ _ Hb) as Hh. destruct (GetSmallCrossTxMsg h s) as [ctx|] eqn:Hctx; cbn; [|done].
  destruct (match ctx with Some c => VerifiedSignature signature c | None => false end); [intros [= _ <-]; by auto|].
  assert (Hcount : match ctx with Some c => zlen (Signatures c) | None => 0 end = sign_count h s)
    by (unfold sign_count; by rewrite Hctx). rewrite Hcount.
  destruct (Z.leb_spec (GetMaxArbitersSign total) (sign_count h s)) as [|Hlt]; [intros [= _ <-]; by auto|].
  destruct (hex_DecodeString signature) as [sig e2]. destruct (failed e2); [intros [= _ <-]; by auto|].
  assert (Hmax : GetMaxArbitersSign total < 2 ^ 63) by (pose proof (i64_range (Z.quot (i64 (total * 2)) 3 + 1)) as Hr; unfold is_i64 in Hr; unfold GetMaxArbitersSign; lia).
  destruct (find_signer _ _ _ _) as [[arb|]|] eqn:Ef; cbn; [| |intros [= _ <-]; by auto].
  - destruct (find_signer_Some _ _ _ _ _ _ Hb Harb Ef) as [Hn Hs].
    destruct (recordSigner _ _ _ _ _ _ _ _) as [s1|] eqn:Er; cbn; [|done]. intros [= _ <-].
    destruct (recordSigner_inv _ _ _ _ _ _ _ _ Hh Hlt Hmax Hi Hn Hs Er) as (Hi1 & Hp1 & Hc1). rewrite <- Hp1 in Hc1.
    destruct (confirmSmall_inv h rawTx _ (GetMaxArbitersSign total) s1 Hh Hi1 Hc1) as [Hi2 Hp2].
    split; [done|]. rewrite <- Hp1. destruct Hp2 as [?|[? ?]]; [by left|right; by exists h].
  - intros [= _ <-]. unfold confirmSmall. destruct (Z.leb_spec (GetMaxArbitersSign total) (sign_count h s)); [lia|by auto].
Qed.
End proofs.

(** ** The message survives the wire *)
Lemma SmallCrossTx_roundtrip `{!Codec} `{!CodecLaws} (ct ct0 : SmallCrossTx) (rest : bytes) :
  Forall (fun x => Z.of_nat (String.length x) <= MaxVarStringLength) (RawTxID ct :: RawTx ct :: Signatures ct) ->
  zlen (Signatures ct) < 2 ^ 8 -> is_u64 (BlockHeight ct) ->
  SmallCrossTx_Deserialize ct0 (SmallCrossTx_Serialize ct ++ rest) = (ct, nil_err, rest).
Proof.
  intros [Hid [Htx Hs]%Forall_cons_1]%Forall_cons_1 Hl Hh. pose proof (zlen_nonneg (Signatures ct)).
  unfold SmallCrossTx_Deserialize, SmallCrossTx_Serialize. rewrite <- !app_assoc.
  rewrite (varstring_inverse (RawTxID ct)), (varstring_inverse (RawTx ct)) by done.
  rewrite u8_id by lia. rewrite uint8_inverse by lia.
  unfold zlen at 1. rewrite Nat2Z.id, (read_n_roundtrip _ _ _ _ _ varstring_inverse Hs).
  cbn [failed]. rewrite uint64_inverse by done. by destruct ct.
Qed.

(** ** Witness *)
Module ToySmall.
(** A transaction is its hash, cut or padded to 32 bytes. *)
Definition decode (buff : bytes) : option (string + string) := Some (inl (hex_encode (BytesToHash (u8 <$> buff)))).

Lemma decode_canonical buff h : decode buff = Some (inl h) -> canonical h.
Proof.
  intros [= <-]. exists (BytesToHash (u8 <$> buff)).
  assert (Hw : wf_bytes (u8 <$> buff)) by (apply Forall_fmap, Forall_true; intros x; unfold u8; cbn; apply Z.mod_pos_bound; lia).
  unfold BytesToHash, HashLength. destruct (Z.ltb_spec 32 (zlen (u8 <$> buff))); split_and!; try done.
  - by apply Forall_drop.
  - unfold zlen in *. rewrite length_drop. lia.
  - apply Forall_app. split; [by apply Forall_replicate|done].
  - unfold zlen in *. rewrite length_app, length_replicate. lia.
Qed.

Definition rawTx : bytes := [1; 2; 3].
Definition arbiters : list string := hex_encode <$> [[2; 1]; [2; 2]; [2; 3]; [2; 4]].

Definition receive (key : bytes) (s : SmallTxs) : option (error * SmallTxs) :=
  @OnSmallCrossTx Toy.lib decode true arbiters 4 (hex_encode (key ++ rawTx)) (hex_encode rawTx) 1000 s.

Definition empty : SmallTxs := {| smallCrossTxCountMap := ∅; small_verifiedArbiter := ∅; smallCrossTxMsgMap := ∅;
  smallCrossTxDb := ∅; posted := [] |}.

Definition state (o : option (error * SmallTxs)) : SmallTxs := from_option snd empty o.
Definition one : SmallTxs := state (receive [2; 4] empty).
Definition two : SmallTxs := state (receive [2; 1] one).
Definition three : SmallTxs := state (receive [2; 2] two).

Lemma empty_table_inv : @small_inv Toy.lib decode (.∈ arbiters) empty.
Proof.
  intros h Hh _. split_and!; [apply NoDup_nil_2|constructor|].
  unfold sign_count, GetSmallCrossTxMsg. by rewrite canonical_strip.
Qed.
End ToySmall.

#[local] Existing Instance Toy.lib.

(** The third signature hands the transaction on. *)
Lemma small_deposit_needs_quorum_witness :
  exists h, posted ToySmall.three = [h] /\ small_quorum ToySmall.decode (.∈ ToySmall.arbiters) h 3.
Proof.
  pose (step := fun key s s' => small_deposit_needs_quorum ToySmall.decode (.∈ ToySmall.arbiters) true ToySmall.arbiters 4
    (hex_encode (key ++ ToySmall.rawTx)) (hex_encode ToySmall.rawTx) 1000 s s' nil_err ToySmall.decode_canonical (proj2 (Forall_forall _ _) (fun _ H => H))).
  destruct (step [2; 4] ToySmall.empty ToySmall.one ToySmall.empty_table_inv ltac:(vm_compute; reflexivity)) as [I1 _].
  destruct (step [2; 1] ToySmall.one ToySmall.two I1 ltac:(vm_compute; reflexivity)) as [I2 _].
  destruct (step [2; 2] ToySmall.two ToySmall.three I2 ltac:(vm_compute; reflexivity)) as (_ & [E|(h & Ep & Hq)] & _).
  - exfalso. revert E. vm_compute. done.
  - exists h. split; [exact Ep|]. apply Hq. vm_compute. intros Hin. inversion Hin.
Defined.
