(* ===== verification/Recharge.v ===== *)
(** * [spv/recharge.go], [spv/spv_module.go]: deposits from the main chain

    A deposit is a main-chain transaction with outputs to this chain.  The SPV
    service notifies it, its outputs are saved under the transaction's hash in a
    key-value database, and a transaction that credits them is sent at once or
    queued.  Deposits that cannot be executed are recorded as failed, by height,
    to be returned on the main chain.

    The SPV service, the main chain's encodings and the client of the local
    chain are parameters.  The database does not fail except for a missing key;
    [None] for it is the nil pointer.  Mutexes and goroutines are not modelled: a
    function is atomic, the goroutine that [IteratorUnTransaction] starts is given
    by the body of its loop, [iterate], and a call that starts it leaves the state
    as it is.  [None] as a result is a panic. *)
From Stdlib Require Import Ascii.
From S2P Require Import Prelude Ela Messages Rlp Common SmallCross.

(** ** Strings *)

(** [strings.Split(s, ",")]: at least one part. *)
Fixpoint split_comma (s : string) : list string :=
  match s with
  | EmptyString => [EmptyString]
  | String c s =>
      if bool_decide (c = ","%char) then EmptyString :: split_comma s
      else match split_comma s with p :: ps => String c p :: ps | [] => [String c EmptyString] end
  end.

Fixpoint join_comma (l : list string) : string :=
  match l with
  | [] => EmptyString
  | [s] => s
  | s :: l => s +:+ "," +:+ join_comma l
  end.

(** ** Data *)
Record RechargeData := { TargetAddress : Z; TargetAmount : Z; Fee : Z; TargetData : bytes }.

(** An output of a main-chain transaction: its value and, for a cross-chain
    output, the payload with the result of its [Validate]. *)
Record CrossChainOutput := { op_TargetAddress : string; op_TargetAmount : Z; op_TargetData : bytes; op_Validate : error }.
Record ElaOutput := { out_Value : Z; out_CrossChain : bool; out_Payload : option CrossChainOutput }.

(** A main-chain transaction with the payload of version 0 decoded. *)
Record ElaTx := {
  tx_Hash : string;
  tx_TransferCrossChain : bool;
  tx_PayloadVersion : Z;
  tx_Outputs : list ElaOutput;
  tx_CrossChainAmounts : list Z;
  tx_CrossChainAddresses : list string
}.

Record TXMsg := { msg_From : Z; msg_Gas : Z; msg_Data : bytes; msg_GasPrice : Z }.

(** The package's variables, and what has been sent to the pool. *)
Record Spv := {
  spvTransactiondb : option (gmap bytes bytes);
  spv_failedTxList : gmap Z (list string);
  spvTxhash : string;
  candSend : bool;
  SelfIsProducer : bool;
  spv_sent : list TXMsg
}.

#[export] Instance Spv_eta : Eta Spv := fun s => {|
  spvTransactiondb := spvTransactiondb s; spv_failedTxList := spv_failedTxList s; spvTxhash := spvTxhash s;
  candSend := candSend s; SelfIsProducer := SelfIsProducer s; spv_sent := spv_sent s
|}.

(** ** Parameters *)
Class SpvLib := {
  (** the main chain's fixed-point numbers and hash strings *)
  StringToFixed64 : string -> Z + string;
  Fixed64_String : Z -> string;
  Uint256FromHexString : string -> bytes + string;
  HexStringToBytes : string -> bytes + string;
  (** the SPV service *)
  hasSpvService : bool;
  GetTransaction : bytes -> option ElaTx + string;
  HaveRetSideChainDepositCoinTx : bytes -> bool;
  (** the client of the local chain *)
  hasClient : bool;
  client_StorageAt : bytes -> bytes + string;
  client_CurrentBlockNumber : Z + string;
  client_EstimateGas : Z -> bytes -> Z + string;
  client_SendPublicTransaction : TXMsg -> error;
  (** the engine and the producers of a main-chain height *)
  hasPbftEngine : bool;
  GetBlockByHeight : Z -> option Z;
  ConfigProducers : list string;
  GetProducersAt : Z -> (list bytes * Z) + string
}.

Definition rate : Z := 10000000000.
Definition missingNumber : Z := 2 ^ 64 - 1.
Definition blockDiff : Z := 6.
Definition UnTransaction : string := "UnT-".
Definition UnTransactionIndex : string := "UnTI".
Definition UnTransactionSeek : string := "UnTS".

Definition encodeUnTransactionNumber (number : Z) : bytes := be 8 number.
#[global] Arguments encodeUnTransactionNumber : simpl never.

(** ** The database *)
Definition db_Get (key : bytes) (db : gmap bytes bytes) : bytes + string :=
  match db !! key with Some v => inl v | None => inr "leveldb: not found" end.

(** [Put] on the nil database panics. *)
Definition db_Put (key value : bytes) (s : Spv) : option Spv :=
  db ← spvTransactiondb s; Some (s <| spvTransactiondb := Some (<[ key := value ]> db) |>).
Definition db_Delete (key : bytes) (s : Spv) : option Spv :=
  db ← spvTransactiondb s; Some (s <| spvTransactiondb := Some (delete key db) |>).

Definition field (hash suffix : string) : bytes := string_bytes (hash +:+ suffix).

Definition GetUnTransactionNum (db : gmap bytes bytes) (prefix : string) : Z :=
  let data := default [] (db !! string_bytes prefix) in
  if negb (zlen data =? 8) then missingNumber else shift_or data.

Section spv.
Context `{!ElaLib} `{!Codec} `{!SpvLib}.

(** ** Lists of failed transactions *)
Definition encodeTxList (txlist : list string) : bytes :=
  WriteVarUint (u64 (zlen txlist)) ++ concat (WriteVarString <$> txlist).

(** The ids read before an error are returned with it. *)
Definition decodeTxList (data : bytes) : list string * error :=
  match ReadVarUint 0 data with
  | inr err => ([], New err)
  | inl (len, b) => let '(l, err, _) := read_n ReadVarString (Z.to_nat len) b in (l, err)
  end.

(** [txid == elaTx] for some id of the list, each without its 0x; a shorter id
    panics. *)
Fixpoint mem_stripped (elaTx : string) (txs : list string) : option bool :=
  match txs with
  | [] => Some false
  | txid :: txs => t ← strip0x txid; if bool_decide (t = elaTx) then Some true else mem_stripped elaTx txs
  end.

Fixpoint any_list (elaTx : string) (lists : list (list string)) : option bool :=
  match lists with
  | [] => Some false
  | txs :: lists => b ← mem_stripped elaTx txs; if (b : bool) then Some true else any_list elaTx lists
  end.

(** The lists of failed transactions in the database: the values under keys of
    eight bytes that decode. *)
Definition failed_lists (db : gmap bytes bytes) : list (bytes * list string) :=
  omap (fun '(key, value) =>
    let '(txs, err) := decodeTxList value in
    if failed err then None
    else if negb (zlen key =? 8) || (zlen txs =? 0) then None
    else Some (key, txs)) (map_to_list db).

Definition IsFailedElaTx (elaTx : string) (s : Spv) : option (bool * error) :=
  elaTx ← strip0x elaTx;
  match Uint256FromHexString elaTx with
  | inr err => Some (false, New err)
  | inl hash =>
      inMemory ← any_list elaTx (map_to_list (spv_failedTxList s)).*2;
      if (inMemory : bool) then Some (true, nil_err)
      else
        db ← spvTransactiondb s;
        inDb ← any_list elaTx (failed_lists db).*2;
        if (inDb : bool) then Some (true, nil_err)
        else if negb hasSpvService then Some (false, New "SpvService is not initialized")
        else Some (HaveRetSideChainDepositCoinTx hash, nil_err)
  end.

(** ** Reading a deposit *)

(** The loop over the outputs of a deposit; a missing memo panics. *)
Fixpoint read_outputs (addrs fees amounts memos : list string) (total : Z) : option (list RechargeData * Z * error) :=
  match addrs, fees, amounts with
  | addr :: addrs, fee :: fees, amount :: amounts =>
      if negb (IsHexAddress addr) then Some ([], 0, New ("error esc address" +:+ addr))
      else match StringToFixed64 fee with
      | inr err => Some ([], 0, New err)
      | inl f =>
          match StringToFixed64 amount with
          | inr err => Some ([], 0, New err)
          | inl o =>
              match memos with
              | [] => None
              | memo :: memos =>
                  let d := {| TargetAddress := HexToAddress addr; TargetAmount := o * rate; Fee := f * rate;
                              TargetData := string_bytes memo |} in
                  '(ds, total, err) ← read_outputs addrs fees amounts memos (total + Fee d);
                  Some (d :: ds, total, err)
              end
          end
      end
  | _, _, _ => Some ([], total, nil_err)
  end.

Definition GetRechargeDataByTxhash (elaHash : string) (s : Spv) : option (list RechargeData * Z * error) :=
  elaHash ← strip0x elaHash;
  match spvTransactiondb s with
  | None => Some ([], 0, New "spvTransactiondb is not inited")
  | Some db =>
      '(res, err) ← IsFailedElaTx elaHash s;
      if failed err then Some ([], 0, err)
      else if (res : bool) then Some ([], 0, New ("is failed elaTx: " +:+ elaHash))
      else match db_Get (field elaHash "Fee") db, db_Get (field elaHash "Address") db, db_Get (field elaHash "Output") db with
      | inr err, _, _ | _, inr err, _ | _, _, inr err => Some ([], 0, New err)
      | inl feeValues, inl addrss, inl outputs =>
          let memos := default [] (db !! field elaHash "Input") in
          let addrs := split_comma (bytes_string addrss) in
          let fees := split_comma (bytes_string feeValues) in
          let amounts := split_comma (bytes_string outputs) in
          let targetMemos := split_comma (bytes_string memos) in
          if negb (zlen addrs =? zlen fees) || negb (zlen fees =? zlen amounts) || negb (zlen amounts =? zlen addrs)
          then Some ([], 0, New ("recharge data error : " +:+ elaHash))
          else read_outputs addrs fees amounts targetMemos 0
      end
  end.

(** The fee, the address and the amount of the first output; zeros when there
    is none or it is not valid. *)
Definition FindOutputFeeAndaddressByTxHash (transactionHash : string) (s : Spv) : option (Z * Z * Z) :=
  h ← strip0x transactionHash;
  match spvTransactiondb s with
  | None => Some (0, 0, 0)
  | Some db =>
      '(res, err) ← IsFailedElaTx h s;
      if failed err || res then Some (0, 0, 0)
      else Some match db_Get (field h "Fee") db with
      | inr _ => (0, 0, 0)
      | inl v =>
          match StringToFixed64 (List.hd EmptyString (split_comma (bytes_string v))) with
          | inr _ => (0, 0, 0)
          | inl f =>
              match db_Get (field h "Address") db with
              | inr _ => (0, 0, 0)
              | inl addrss =>
                  let addr := List.hd EmptyString (split_comma (bytes_string addrss)) in
                  if negb (IsHexAddress addr) then (0, 0, 0)
                  else match db_Get (field h "Output") db with
                  | inr _ => (0, 0, 0)
                  | inl outputs =>
                      match StringToFixed64 (List.hd EmptyString (split_comma (bytes_string outputs))) with
                      | inr _ => (0, 0, 0)
                      | inl o => (f * rate, HexToAddress addr, o * rate)
                      end
                  end
              end
          end
      end
  end.

Definition FindOutRechargeInput (transactionHash : string) (s : Spv) : option bytes :=
  match spvTransactiondb s with
  | None => Some []
  | Some db => h ← strip0x transactionHash; Some (default [] (db !! field h "Input"))
  end.

(** ** The queue of unsent deposits *)
Definition trim0x (s : string) : string :=
  if String.prefix "0x" s then String.substring 2 (String.length s - 2) s else s.

Definition UpTransactionIndex (elaTx : string) (s : Spv) : option Spv :=
  let elaTx := trim0x elaTx in
  db ← spvTransactiondb s;
  let index := GetUnTransactionNum db UnTransactionIndex in
  let index := if index =? missingNumber then 1 else index in
  s ← db_Put (string_bytes UnTransaction ++ encodeUnTransactionNumber index) (string_bytes elaTx) s;
  db_Put (string_bytes UnTransactionIndex) (encodeUnTransactionNumber (u64 (index + 1))) s.

Definition setNextSeek (seek : Z) (s : Spv) : option Spv :=
  s ← db_Delete (string_bytes UnTransaction ++ encodeUnTransactionNumber seek) s;
  db_Put (string_bytes UnTransactionSeek) (encodeUnTransactionNumber (u64 (seek + 1))) s.

(** ** Failed deposits *)

(** [append(txs[:i], txs[i+1:]...)] writes to the array under [txs]: the first
    value is the new slice, the second what the old slice then holds. *)
Definition remove_in_place (i : nat) (txs : list string) : list string * list string :=
  let rest := take i txs ++ drop (S i) txs in
  (rest, rest ++ drop (length txs - 1) txs).

Fixpoint index_of_tx (elaTx : string) (txs : list string) : option nat :=
  match txs with
  | [] => None
  | txid :: txs => if bool_decide (txid = elaTx) then Some 0%nat else S <$> index_of_tx elaTx txs
  end.

(** One height of the first loop of [onElaTxPacked]: the list in memory keeps
    its length, the database gets the shortened one. *)
Definition pack_memory (elaTx : string) (s : Spv) (height : Z) (txs : list string) : option Spv :=
  match index_of_tx elaTx txs with
  | None => Some s
  | Some i =>
      if zlen txs =? 1
      then db_Delete (encodeUnTransactionNumber height) (s <| spv_failedTxList := delete height (spv_failedTxList s) |>)
      else let (rest, old) := remove_in_place i txs in
           db_Put (encodeUnTransactionNumber height) (encodeTxList rest)
             (s <| spv_failedTxList := <[ height := old ]> (spv_failedTxList s) |>)
  end.

(** One key of the second loop. *)
Definition pack_db (elaTx : string) (s : Spv) (key : bytes) (txs : list string) : option Spv :=
  let height := shift_or key in
  match index_of_tx elaTx txs with
  | None => Some s
  | Some i =>
      if zlen txs =? 1
      then db_Delete (encodeUnTransactionNumber height) (s <| spv_failedTxList := delete height (spv_failedTxList s) |>)
      else db_Put (encodeUnTransactionNumber height) (encodeTxList (fst (remove_in_place i txs))) s
  end.

Fixpoint fold_option {A S} (f : S -> A -> option S) (s : S) (l : list A) : option S :=
  match l with [] => Some s | x :: l => s ← f s x; fold_option f s l end.

(** The iterator sees the database as it is when the second loop starts. *)
Definition onElaTxPacked `{!RangeOrder} (elaTx : string) (s : Spv) : option Spv :=
  s ← fold_option (fun s '(height, txs) => pack_memory elaTx s height txs) s (range_map (spv_failedTxList s));
  db ← spvTransactiondb s;
  fold_option (fun s '(key, txs) => pack_db elaTx s key txs) s (failed_lists db).

Definition IsPackagedElaTx `{!RangeOrder} (elaTx : string) (s : Spv) : option (bool * error * Spv) :=
  if negb hasClient then Some (false, New "ipclient is nil", s)
  else
    elaTx ← strip0x elaTx;
    match client_StorageAt (HexToHash ("0x" +:+ elaTx)) with
    | inl ethTx =>
        if negb (bytes_Equal (BytesToHash ethTx) zero_hash)
        then s ← onElaTxPacked elaTx s; Some (true, nil_err, s)
        else Some (false, nil_err, s)
    | inr _ => Some (false, nil_err, s)
    end.

Definition OnTx2Failed `{!RangeOrder} (elaTx : string) (s : Spv) : option Spv :=
  elaTx ← strip0x elaTx;
  '(res, err, s) ← IsPackagedElaTx elaTx s;
  if (res : bool) || failed err then Some s
  else
    '(res, err) ← IsFailedElaTx elaTx s;
    if failed err || (res : bool) then Some s
    else match client_StorageAt (HexToHash ("0x" +:+ elaTx)) with
    | inr _ => Some s
    | inl ethTx =>
        if negb (bytes_Equal (BytesToHash ethTx) zero_hash) then Some s
        else match client_CurrentBlockNumber with
        | inr _ => Some s
        | inl height =>
            let txList := default [] (spv_failedTxList s !! height) ++ [elaTx] in
            db_Put (encodeUnTransactionNumber height) (encodeTxList txList)
              (s <| spv_failedTxList := <[ height := txList ]> (spv_failedTxList s) |>)
        end
    end.

Definition getTxsOnDb (height : Z) (s : Spv) : list string :=
  match spvTransactiondb s with
  | None => []
  | Some db =>
      match db_Get (encodeUnTransactionNumber height) db with
      | inr _ => []
      | inl data => fst (decodeTxList data)
      end
  end.

Definition GetFailedRechargeTxs (height : Z) (s : Spv) : list string :=
  if height <? blockDiff then []
  else
    let height := height - blockDiff in
    let txs := default [] (spv_failedTxList s !! height) in
    if zlen txs =? 0 then getTxsOnDb height s else txs.

(** The hash when a list of a height at least [blockDiff] below the current one
    holds it. *)
Definition matured (currentHeight height : Z) : bool := (height <=? currentHeight) && (blockDiff <=? currentHeight - height).

Definition GetFailedRechargeTxByHash (hash : string) (s : Spv) : option string :=
  if negb hasClient then None
  else match client_CurrentBlockNumber with
  | inr _ => Some EmptyString
  | inl currentHeight =>
      let holds := fun height txs => matured currentHeight height && bool_decide (is_Some (index_of_tx hash txs)) in
      if existsb (fun '(height, txs) => holds height txs) (map_to_list (spv_failedTxList s)) then Some hash
      else
        db ← spvTransactiondb s;
        if existsb (fun '(key, txs) => holds (shift_or key) txs) (failed_lists db) then Some hash
        else Some EmptyString
  end.

(** The first of the ids that parses and was returned on the main chain. *)
Fixpoint index_returned (txs : list string) : option (option nat) :=
  match txs with
  | [] => Some None
  | txHash :: txs =>
      match Uint256FromHexString txHash with
      | inr _ => i ← index_returned txs; Some (option_map S i)
      | inl hash =>
          if negb hasSpvService then None
          else if HaveRetSideChainDepositCoinTx hash then Some (Some 0%nat)
          else i ← index_returned txs; Some (option_map S i)
      end
  end.

(** The loop stops at the first height whose list becomes empty. *)
Fixpoint access_heights (lists : list (Z * list string)) (s : Spv) : option Spv :=
  match lists with
  | [] => Some s
  | (height, txs) :: lists =>
      r ← index_returned txs;
      let txs' := match r with Some i => fst (remove_in_place i txs) | None => txs end in
      let s := match r with Some _ => s <| spv_failedTxList := <[ height := txs' ]> (spv_failedTxList s) |> | None => s end in
      if zlen txs' =? 0 then Some (s <| spv_failedTxList := delete height (spv_failedTxList s) |>)
      else access_heights lists s
  end.

Definition accessFailedRechargeTx `{!RangeOrder} (s : Spv) : option Spv :=
  access_heights (range_map (spv_failedTxList s)) s.

(** ** Small deposits *)
Definition IsSmallCrossTxByData (data : bytes) : string * string * list string * Z :=
  let none := (EmptyString, EmptyString, [], 0) in
  if (zlen data <? 1024) || negb hasPbftEngine then none
  else
    let '(tx, err, _) := SmallCrossTx_Deserialize NewSmallCrossTx data in
    if failed err then none
    else if bool_decide (RawTxID tx <> EmptyString) && bool_decide (RawTx tx <> EmptyString) && (0 <? BlockHeight tx) &&
            (0 <? zlen (Signatures tx)) then
      if forallb (fun sig => let (b, err) := hex_DecodeString sig in negb (failed err) && (zlen b =? 64)) (Signatures tx)
      then (RawTxID tx, RawTx tx, Signatures tx, BlockHeight tx)
      else none
    else none.

(** The count of signatures some arbiter's key verifies, until there are
    enough. *)
Fixpoint enough_signatures (arbiters : list bytes) (buff : bytes) (max count : Z) (signatures : list string) : bool :=
  match signatures with
  | [] => false
  | signature :: signatures =>
      let (sig, err) := hex_DecodeString signature in
      if failed err then enough_signatures arbiters buff max count signatures
      else if existsb (fun pbk => match DecodePoint pbk with
                                  | inr _ => false
                                  | inl pubKey => bool_decide (Verify pubKey buff sig = nil_err)
                                  end) arbiters
      then if max <=? count + 1 then true else enough_signatures arbiters buff max (count + 1) signatures
      else enough_signatures arbiters buff max count signatures
  end.

Definition verifySmallCrossTxBySignature (rawTx : string) (signatures : list string) (blockHeight : Z) : bool * error :=
  match GetBlockByHeight blockHeight with
  | None => (false, New "current block is nil")
  | Some nonce =>
      let producers := if nonce =? 0 then inl (Hex2Bytes <$> ConfigProducers, zlen ConfigProducers) else GetProducersAt nonce in
      match producers with
      | inr err => (false, New err)
      | inl (arbiters, total) =>
          let (buff, err) := hex_DecodeString rawTx in
          if failed err then (false, err)
          else (enough_signatures arbiters buff (GetMaxArbitersSign total) 0 signatures, nil_err)
      end
  end.

Definition VerifySmallCrossTx (rawTxID rawTx : string) (signatures : list string) (blockHeight : Z) (s : Spv)
    : option (bool * error) :=
  if negb hasPbftEngine then Some (false, New "PbftEngine is nil")
  else
    '(fee, target, _) ← FindOutputFeeAndaddressByTxHash rawTxID s;
    if (0 <? u64 fee) || negb (target =? 0) then Some (true, nil_err)
    else Some (verifySmallCrossTxBySignature rawTx signatures blockHeight).

(** ** Sending and saving *)
Context `{!RangeOrder} (small : SmallTxs) (signer : Z).

Definition ErrMainTxHashPresence : string := "main txhash presence".

(** After a failed estimate: an already failed deposit is finished, any other is
    recorded as failed and stays in the queue. *)
Definition estimate_failed (elaTx : string) (s : Spv) : option (error * bool * Spv) :=
  '(res, err) ← IsFailedElaTx elaTx s;
  if failed err then Some (err, false, s)
  else if (res : bool) then Some (nil_err, true, s)
  else s ← OnTx2Failed elaTx s; Some (nil_err, false, s).

(** The data of the transaction to send: the small deposit with its signatures
    when they verify, otherwise the hash; or the error with [finished]. *)
Definition recharge_data (elaTx : string) (s : Spv) : option (bytes + (string * bool)) :=
  let by_hash := match HexStringToBytes elaTx with inl data => inl data | inr err => inr (err, true) end in
  r ← GetSmallCrossTxBytes elaTx small;
  match r with
  | (data, Some ctx, None) =>
      let (res, errmsg) := verifySmallCrossTxBySignature (RawTx ctx) (Signatures ctx) (BlockHeight ctx) in
      match errmsg with
      | Some err => Some (inr (err, false))
      | None =>
          if (res : bool) then Some (inl data)
          else
            '(recharges, _, errs) ← GetRechargeDataByTxhash elaTx s;
            let refused := inr ("verifyed small cross chain transaction failed", false) in
            if failed errs || (zlen recharges =? 0) then Some refused
            else if existsb (fun d => (Fee d <=? 0) && (TargetAmount d <=? 0) && (TargetAddress d =? 0)) recharges
            then Some refused
            else Some by_hash
      end
  | _ => Some by_hash
  end.

(** The error, whether the deposit is done with, and the state. *)
Definition SendTransaction (from : Z) (elaTx : string) (fee : Z) (s : Spv) : option (error * bool * Spv) :=
  if negb hasClient then None
  else match client_StorageAt (HexToHash ("0x" +:+ elaTx)) with
  | inr err => Some (New err, true, s)
  | inl ethTx =>
      if negb (bytes_Equal (BytesToHash ethTx) zero_hash)
      then s ← onElaTxPacked elaTx s; Some (New ("Cross-chain transactions have been processed " +:+ elaTx), true, s)
      else
        d ← recharge_data elaTx s;
        match d with
        | inr (err, finished) => Some (New err, finished, s)
        | inl data =>
            '(res, err) ← IsFailedElaTx elaTx s;
            if failed err then Some (err, false, s)
            else if (res : bool) then Some (New "is failed tx, can't to send", true, s)
            else match client_EstimateGas from data with
            | inr err =>
                if bool_decide (is_Some (String.index 0 ErrMainTxHashPresence err)) then Some (New err, true, s)
                else estimate_failed elaTx s
            | inl gasLimit =>
                if gasLimit =? 0 then estimate_failed elaTx s
                else if negb (candSend s) then Some (New "canSend is 0", false, s)
                else
                  let callmsg := {| msg_From := from; msg_Gas := gasLimit; msg_Data := data; msg_GasPrice := Z.quot fee gasLimit |} in
                  Some (client_SendPublicTransaction callmsg, true, s <| spv_sent := spv_sent s ++ [callmsg] |>)
            end
        end
  end.

(** One round of the loop of [IteratorUnTransaction]: whether to go on. *)
Definition iterate (s : Spv) : option (bool * Spv) :=
  if negb (candSend s) then Some (false, s)
  else
    db ← spvTransactiondb s;
    let index := GetUnTransactionNum db UnTransactionIndex in
    if index =? missingNumber then Some (false, s)
    else
      let seek := GetUnTransactionNum db UnTransactionSeek in
      let seek := if seek =? missingNumber then 1 else seek in
      if seek =? index then Some (false, s)
      else match db_Get (string_bytes UnTransaction ++ encodeUnTransactionNumber seek) db with
      | inr _ => s ← setNextSeek seek s; Some (false, s)
      | inl v =>
          let txHash := bytes_string v in
          '(recharges, fee, err) ← GetRechargeDataByTxhash txHash s;
          if failed err || (zlen recharges =? 0) then
            '(res, err) ← IsFailedElaTx txHash s;
            if failed err then Some (false, s)
            else
              s ← (if (res : bool) then Some s else OnTx2Failed txHash s);
              s ← setNextSeek seek s; Some (false, s)
          else
            '(_, finished, s) ← SendTransaction signer txHash fee s;
            s ← (if (finished : bool) then setNextSeek seek s else Some s);
            Some (true, s)
      end.

(** The four entries of a deposit. *)
Definition put_fields (hash fee addr output input : string) (s : Spv) : option Spv :=
  s ← db_Put (field hash "Fee") (string_bytes fee) s;
  s ← db_Put (field hash "Address") (string_bytes addr) s;
  s ← db_Put (field hash "Output") (string_bytes output) s;
  db_Put (field hash "Input") (string_bytes input) s.

(** What follows saving: send at once, or queue. *)
Definition send_or_queue (hash : string) (fees : list string) (s : Spv) : option (error * Spv) :=
  if candSend s then
    match fees with
    | [] => None
    | fee :: _ =>
        match StringToFixed64 fee with
        | inr err => Some (New err, s)
        | inl f => '(_, _, s) ← SendTransaction signer hash (f * rate) s; Some (nil_err, s)
        end
    end
  else s ← UpTransactionIndex hash s; Some (nil_err, s).

(** The four slices of [saveOutputPayload]. *)
Definition output_fees (outputs : list (Z * CrossChainOutput)) : list string :=
  (fun '(value, op) => Fixed64_String (i64 (value - op_TargetAmount op))) <$> outputs.
Definition output_amounts (outputs : list (Z * CrossChainOutput)) : list string :=
  (fun '(value, op) => Fixed64_String value) <$> outputs.
Definition output_address (outputs : list (Z * CrossChainOutput)) : list string :=
  (fun '(value, op) => op_TargetAddress op) <$> outputs.
Definition output_memos (outputs : list (Z * CrossChainOutput)) : list string :=
  (fun '(value, op) => bytes_string (op_TargetData op)) <$> outputs.

Definition saveOutputPayload (outputs : list (Z * CrossChainOutput)) (txHash : string) (s : Spv) : option (error * Spv) :=
  let fees := output_fees outputs in
  let amounts := output_amounts outputs in
  let address := output_address outputs in
  let memos := output_memos outputs in
  if bool_decide (spvTxhash s = txHash) then Some (nil_err, s)
  else
    s ← put_fields txHash (join_comma fees) (join_comma address) (join_comma amounts) (join_comma memos)
          (s <| spvTxhash := txHash |>);
    send_or_queue txHash fees s.

(** The cross-chain outputs, or the first error. *)
Fixpoint cross_chain_outputs (outputs : list ElaOutput) : list (Z * CrossChainOutput) + string :=
  match outputs with
  | [] => inl []
  | v :: outputs =>
      if negb (out_CrossChain v) then cross_chain_outputs outputs
      else match out_Payload v with
      | None => inr "invalid cross chain output payload"
      | Some op =>
          match op_Validate op with
          | Some err => inr err
          | None => match cross_chain_outputs outputs with
                    | inl l => inl ((out_Value v, op) :: l)
                    | inr err => inr err
                    end
          end
      end
  end.

Definition OnReceivedRechargeTx (tx : ElaTx) (s : Spv) : option (error * Spv) :=
  match cross_chain_outputs (tx_Outputs tx) with
  | inr err => Some (New err, s)
  | inl output => if 0 <? zlen output then saveOutputPayload output (tx_Hash tx) s else Some (nil_err, s)
  end.

(** The amounts of a payload of version 0 with the outputs and addresses at the
    same positions: fee, output and address of each; a missing output or address
    panics, an output below its amount is skipped. *)
Fixpoint payload_v0 (amounts : list Z) (outputs : list ElaOutput) (addrs : list string) : option (list (Z * Z * string)) :=
  match amounts with
  | [] => Some []
  | amount :: amounts =>
      match outputs with
      | [] => None
      | out :: outputs =>
          if out_Value out <? amount then payload_v0 amounts outputs (tail addrs)
          else match addrs with
               | [] => None
               | addr :: addrs => r ← payload_v0 amounts outputs addrs; Some ((i64 (out_Value out - amount), out_Value out, addr) :: r)
               end
      end
  end.

Definition SavePayloadInfo (tx : ElaTx) (s : Spv) : option Spv :=
  if 1 <=? tx_PayloadVersion tx then '(_, s) ← OnReceivedRechargeTx tx s; Some s
  else
    l ← payload_v0 (tx_CrossChainAmounts tx) (tx_Outputs tx) (tx_CrossChainAddresses tx);
    let fees := (fun x => Fixed64_String x.1.1) <$> l in
    let outputs := (fun x => Fixed64_String x.1.2) <$> l in
    let address := (fun x => x.2) <$> l in
    if bool_decide (spvTxhash s = tx_Hash tx) then Some s
    else
      s ← put_fields (tx_Hash tx) (join_comma fees) (join_comma address) (join_comma outputs) EmptyString
            (s <| spvTxhash := tx_Hash tx |>);
      '(_, s) ← send_or_queue (tx_Hash tx) fees s; Some s.

(** A node that is not a producer stops sending. *)
Definition stop_unless_producer (s : Spv) : Spv := if SelfIsProducer s then s else s <| candSend := false |>.

Definition listener_Notify (tx : ElaTx) (s : Spv) : option Spv :=
  let s := stop_unless_producer s in
  '(fee, addr, output) ← FindOutputFeeAndaddressByTxHash (tx_Hash tx) s;
  if (fee <=? 0) && (output <=? 0) && (addr =? 0) then SavePayloadInfo tx s else Some s.

Definition NotifySmallCrossTx (tx : ElaTx) (s : Spv) : option Spv :=
  '(fee, addr, output) ← FindOutputFeeAndaddressByTxHash (tx_Hash tx) s;
  if (0 <? fee) || (0 <? output) || negb (addr =? 0) then Some s else SavePayloadInfo tx (stop_unless_producer s).

Definition TrySetRechargeDataFromSpvService (elaHash : string) (s : Spv) : option (error * Spv) :=
  elaHash ← strip0x elaHash;
  '(fee, addr, output) ← FindOutputFeeAndaddressByTxHash elaHash s;
  if (fee <=? 0) && (output <=? 0) && (addr =? 0) then
    match Uint256FromHexString elaHash with
    | inr err => Some (New err, s)
    | inl txID =>
        if negb hasSpvService then None
        else match GetTransaction txID with
        | inr err => Some (New err, s)
        | inl None => Some (New ("not recharge tx: " +:+ elaHash), s)
        | inl (Some tx) =>
            if negb (tx_TransferCrossChain tx) then Some (New ("not recharge tx: " +:+ elaHash), s)
            else s ← SavePayloadInfo tx s; Some (nil_err, s)
        end
    end
  else Some (nil_err, s).
End spv.

(** ** The database under the operations

    Lists of failed transactions are under keys of eight bytes; the fields of a
    deposit and the queue are under other keys. *)
Definition agree8 (db db' : gmap bytes bytes) : Prop := forall k, length k <> 8%nat -> db' !! k = db !! k.

(** Only lists of failed transactions change from [s] to [s']. *)
Record failed_only (s s' : Spv) : Prop := {
  fo_db : option_Forall2 agree8 (spvTransactiondb s) (spvTransactiondb s');
  fo_hash : spvTxhash s' = spvTxhash s;
  fo_cand : candSend s' = candSend s;
  fo_self : SelfIsProducer s' = SelfIsProducer s;
  fo_sent : spv_sent s' = spv_sent s
}.

#[export] Instance agree8_preorder : PreOrder agree8.
Proof. split; [done|]. intros a b c H1 H2 k Hk. by rewrite H2, H1. Qed.

#[export] Instance failed_only_preorder : PreOrder failed_only.
Proof.
  split.
  - intros s. by split.
  - intros a b c [D1 ? ? ? ?] [D2 ? ? ? ?]. split; try congruence.
    destruct D1 as [x y Hxy|]; inversion D2; subst; constructor. by etrans.
Qed.

Lemma encode_length n : length (encodeUnTransactionNumber n) = 8%nat.
Proof. apply be_length. Qed.

Lemma encode_inj n m : is_u64 n -> is_u64 m -> encodeUnTransactionNumber n = encodeUnTransactionNumber m -> n = m.
Proof.
  unfold is_u64, encodeUnTransactionNumber. intros Hn Hm E. apply (f_equal shift_or) in E.
  rewrite !shift_or_be in E by lia. rewrite !Z.mod_small in E; lia.
Qed.

Lemma db_Put_failed_only s s' n v :
  db_Put (encodeUnTransactionNumber n) v s = Some s' -> failed_only s s'.
Proof.
  unfold db_Put. destruct (spvTransactiondb s) as [db|] eqn:E; [|done]. intros [= <-]. split; try done. rewrite E. cbn.
  constructor. intros k Hk. apply lookup_insert_ne. intros <-. by rewrite encode_length in Hk.
Qed.

Lemma db_Delete_failed_only s s' n : db_Delete (encodeUnTransactionNumber n) s = Some s' -> failed_only s s'.
Proof.
  unfold db_Delete. destruct (spvTransactiondb s) as [db|] eqn:E; [|done]. intros [= <-]. split; try done. rewrite E. cbn.
  constructor. intros k Hk. apply lookup_delete_ne. intros <-. by rewrite encode_length in Hk.
Qed.

Lemma list_failed_only s l : failed_only s (s <| spv_failedTxList := l |>).
Proof. by split. Qed.

Lemma list_Put_failed_only s s' l n v :
  db_Put (encodeUnTransactionNumber n) v (s <| spv_failedTxList := l |>) = Some s' -> failed_only s s'.
Proof. intros E%db_Put_failed_only. by etrans; [apply (list_failed_only s l)|]. Qed.

Lemma list_Delete_failed_only s s' l n :
  db_Delete (encodeUnTransactionNumber n) (s <| spv_failedTxList := l |>) = Some s' -> failed_only s s'.
Proof. intros E%db_Delete_failed_only. by etrans; [apply (list_failed_only s l)|]. Qed.

#[local] Hint Resolve db_Put_failed_only list_Put_failed_only list_Delete_failed_only : spv.

Lemma fold_option_invariant {A S} (R : S -> S -> Prop) `{!PreOrder R} (f : S -> A -> option S) l s s' :
  (forall s x s', f s x = Some s' -> R s s') -> fold_option f s l = Some s' -> R s s'.
Proof.
  intros Hf. revert s. induction l as [|x l IH]; intros s E; cbn in E; [by injection E as <-|].
  destruct (f s x) as [s1|] eqn:E1; [|done]. etrans; [by eapply Hf|by apply IH].
Qed.

Section laws.
Context `{!ElaLib} `{!Codec} `{!SpvLib} `{!RangeOrder}.

Lemma pack_memory_failed_only e s h txs s' : pack_memory e s h txs = Some s' -> failed_only s s'.
Proof.
  unfold pack_memory. destruct (index_of_tx e txs) as [i|]; [|by intros [= <-]]. destruct (remove_in_place i txs).
  intros E. destruct (zlen txs =? 1); eauto with spv.
Qed.

Lemma pack_db_failed_only e s k txs s' : pack_db e s k txs = Some s' -> failed_only s s'.
Proof.
  unfold pack_db. destruct (index_of_tx e txs) as [i|]; [|by intros [= <-]]. destruct (remove_in_place i txs).
  intros E. destruct (zlen txs =? 1); eauto with spv.
Qed.

Lemma onElaTxPacked_failed_only e s s' : onElaTxPacked e s = Some s' -> failed_only s s'.
Proof.
  unfold onElaTxPacked. intros E. apply bind_Some in E as (s1 & E1 & E).
  apply bind_Some in E as (db & _ & E2). etrans.
  - eapply (fold_option_invariant failed_only); [|exact E1]. intros ? [] ?. apply pack_memory_failed_only.
  - eapply (fold_option_invariant failed_only); [|exact E2]. intros ? [] ?. apply pack_db_failed_only.
Qed.

Lemma OnTx2Failed_failed_only e s s' : OnTx2Failed e s = Some s' -> failed_only s s'.
Proof.
  unfold OnTx2Failed. intros E. apply bind_Some in E as (e1 & _ & E). apply bind_Some in E as ([[r err] s1] & EP & E).
  assert (HF : failed_only s s1).
  { unfold IsPackagedElaTx in EP. destruct hasClient; [|by injection EP as <- <- <-]. cbn in EP.
    apply bind_Some in EP as (e2 & _ & EP). destruct (client_StorageAt _); [|by injection EP as <- <- <-].
    destruct (bytes_Equal _ _); [by injection EP as <- <- <-|]. cbn in EP.
    apply bind_Some in EP as (s2 & Ep & [= <- <- <-]). by eapply onElaTxPacked_failed_only. }
  etrans; [exact HF|]. destruct (r || failed err); [by injection E as <-|].
  apply bind_Some in E as ([r2 err2] & _ & E). destruct (failed err2 || r2); [by injection E as <-|].
  destruct (client_StorageAt _); [|by injection E as <-]. destruct (bytes_Equal _ _); [|by injection E as <-].
  cbn [negb] in E. destruct client_CurrentBlockNumber; [|by injection E as <-].
  eauto with spv.
Qed.

(** *** Sending *)
Context (small : SmallTxs).

Lemma estimate_failed_failed_only e s err fin s' :
  estimate_failed e s = Some (err, fin, s') -> failed_only s s'.
Proof.
  unfold estimate_failed. intros E. apply bind_Some in E as ([r err1] & _ & E).
  destruct (failed err1); [by injection E as <- <- <-|]. destruct r; [by injection E as <- <- <-|].
  apply bind_Some in E as (s1 & E1 & [= <- <- <-]). by eapply OnTx2Failed_failed_only.
Qed.

(** [msg] carries the deposit [e], which is not recorded as failed in [s]. *)
Definition sent_for (s : Spv) (e : string) (msg : TXMsg) : Prop :=
  recharge_data small e s = Some (inl (msg_Data msg)) /\ IsFailedElaTx e s = Some (false, nil_err).

(** Either nothing is sent, or one message is and the deposit is done with. *)
Lemma SendTransaction_sends from e fee s err fin s' :
  SendTransaction small from e fee s = Some (err, fin, s') ->
  failed_only s s' \/ (fin = true /\ exists msg, s' = s <| spv_sent := spv_sent s ++ [msg] |> /\ sent_for s e msg).
Proof.
  unfold SendTransaction. destruct hasClient; [|done]. cbn [negb]. intros E.
  destruct (client_StorageAt _) as [ethTx|]; [|left; by injection E as <- <- <-].
  destruct (bytes_Equal _ _); cbn [negb] in E;
    [|left; apply bind_Some in E as (s1 & E1 & [= <- <- <-]); by eapply onElaTxPacked_failed_only].
  apply bind_Some in E as (d & Ed & E). destruct d as [data|[er f]]; [|left; by injection E as <- <- <-].
  apply bind_Some in E as ([r er] & Er & E). destruct er as [er|]; [left; by injection E as <- <- <-|]. cbn [failed] in E.
  destruct r; [left; by injection E as <- <- <-|].
  destruct (client_EstimateGas from data) as [gas|er2].
  - destruct (gas =? 0); [left; by eapply estimate_failed_failed_only|].
    destruct (candSend s); [|left; by injection E as <- <- <-]. right. injection E as <- <- <-.
    split; [done|]. eexists. split; [reflexivity|done].
  - case_bool_decide; [left; by injection E as <- <- <-|]. left. by eapply estimate_failed_failed_only.
Qed.
End laws.

(** *** The queue

    The hashes still to be sent, oldest first. *)
Definition unsent_key (n : Z) : bytes := string_bytes UnTransaction ++ encodeUnTransactionNumber n.
Definition number (db : gmap bytes bytes) (prefix : string) : Z :=
  let n := GetUnTransactionNum db prefix in if n =? missingNumber then 1 else n.
Definition queue (db : gmap bytes bytes) : list string :=
  let seek := number db UnTransactionSeek in
  (fun n => bytes_string (default [] (db !! unsent_key n))) <$> seqZ seek (number db UnTransactionIndex - seek).

(** The numbers are in order, below the reserved one, and every one between them
    has an entry. *)
Record queue_wf (db : gmap bytes bytes) : Prop := {
  qw_seek : 1 <= number db UnTransactionSeek;
  qw_index : number db UnTransactionSeek <= number db UnTransactionIndex < missingNumber;
  qw_entry : forall n, number db UnTransactionSeek <= n < number db UnTransactionIndex -> is_Some (db !! unsent_key n)
}.

Lemma number_put db k n prefix :
  is_u64 n -> n <> missingNumber -> 
  number (<[ k := encodeUnTransactionNumber n ]> db) prefix =
  if bool_decide (k = string_bytes prefix) then n else number db prefix.
Proof.
  intros Hn Hm. unfold number, GetUnTransactionNum. case_bool_decide as Hk.
  - rewrite Hk, lookup_insert_eq. cbn [from_option id]. unfold zlen. rewrite encode_length.
    replace (shift_or _) with n; [change (Z.of_nat 8 =? 8) with true; cbn [negb]; by rewrite (proj2 (Z.eqb_neq _ _) Hm)|].
    unfold encodeUnTransactionNumber, is_u64 in *. rewrite shift_or_be by lia. by rewrite Z.mod_small by lia.
  - by rewrite lookup_insert_ne.
Qed.

Lemma unsent_key_inj n m : is_u64 n -> is_u64 m -> unsent_key n = unsent_key m -> n = m.
Proof. intros Hn Hm E. by apply app_inv_head, encode_inj in E. Qed.

Lemma unsent_key_length n : length (unsent_key n) = 12%nat.
Proof. unfold unsent_key. by rewrite length_app, encode_length. Qed.

(** Keys outside the queue's do not matter to it. *)
Lemma queue_agree db db' :
  (forall n, db' !! unsent_key n = db !! unsent_key n) ->
  (forall p, p = UnTransactionIndex \/ p = UnTransactionSeek -> db' !! string_bytes p = db !! string_bytes p) ->
  queue db' = queue db /\ number db' UnTransactionIndex = number db UnTransactionIndex /\ (queue_wf db -> queue_wf db').
Proof.
  intros Hn Hp.
  assert (HN : forall p, p = UnTransactionIndex \/ p = UnTransactionSeek -> number db' p = number db p).
  { intros p H. unfold number, GetUnTransactionNum. by rewrite Hp. }
  pose proof (HN _ (or_introl eq_refl)) as HI. pose proof (HN _ (or_intror eq_refl)) as HS.
  split_and!; [|done|].
  - unfold queue. rewrite HI, HS. apply list_fmap_ext. intros i n _. by rewrite Hn.
  - intros [W1 W2 W3]. split; rewrite ?HI, ?HS; [done..|]. intros n Hr. rewrite Hn. by apply W3.
Qed.

Lemma number_other db k v prefix : k <> string_bytes prefix -> number (<[ k := v ]> db) prefix = number db prefix.
Proof. intros Hk. unfold number, GetUnTransactionNum. by rewrite lookup_insert_ne. Qed.

Lemma number_delete db k prefix : k <> string_bytes prefix -> number (delete k db) prefix = number db prefix.
Proof. intros Hk. unfold number, GetUnTransactionNum. by rewrite lookup_delete_ne. Qed.

Lemma unsent_key_ne n p : (length (string_bytes p) <> 12)%nat -> unsent_key n <> string_bytes p.
Proof. intros Hl E. by rewrite <- E, unsent_key_length in Hl. Qed.

Definition push_db (e : string) (db : gmap bytes bytes) : gmap bytes bytes :=
  let index := number db UnTransactionIndex in
  <[ string_bytes UnTransactionIndex := encodeUnTransactionNumber (u64 (index + 1)) ]>
    (<[ unsent_key index := string_bytes e ]> db).

Definition pop_db (db : gmap bytes bytes) : gmap bytes bytes :=
  let seek := number db UnTransactionSeek in
  <[ string_bytes UnTransactionSeek := encodeUnTransactionNumber (u64 (seek + 1)) ]> (delete (unsent_key seek) db).

Lemma u64_small n : is_u64 n -> u64 n = n.
Proof. unfold is_u64, u64. intros Hn. apply Z.mod_small. lia. Qed.

Lemma missing_u64 n : 0 <= n <= missingNumber -> is_u64 n.
Proof. unfold is_u64, missingNumber. lia. Qed.

Lemma push_numbers e db :
  queue_wf db -> number db UnTransactionIndex + 1 < missingNumber ->
  number (push_db e db) UnTransactionIndex = number db UnTransactionIndex + 1 /\
  number (push_db e db) UnTransactionSeek = number db UnTransactionSeek.
Proof.
  intros [W1 W2 _] Hm. unfold push_db. rewrite u64_small by (apply missing_u64; lia).
  rewrite !number_put by (try apply missing_u64; lia). by rewrite !number_other by (apply unsent_key_ne; done).
Qed.

Lemma push_queue e db :
  queue_wf db -> number db UnTransactionIndex + 1 < missingNumber ->
  queue_wf (push_db e db) /\ number (push_db e db) UnTransactionIndex = number db UnTransactionIndex + 1 /\
  queue (push_db e db) = queue db ++ [e].
Proof.
  intros W Hm. destruct (push_numbers e db W Hm) as [HI HS]. destruct W as [W1 W2 W3].
  set (index := number db UnTransactionIndex) in *. set (seek := number db UnTransactionSeek) in *.
  assert (HL : forall n, 0 <= n <= missingNumber ->
    push_db e db !! unsent_key n = if bool_decide (n = index) then Some (string_bytes e) else db !! unsent_key n).
  { intros n Hn. unfold push_db. rewrite lookup_insert_ne by (apply not_eq_sym, unsent_key_ne; done).
    case_bool_decide as E; [rewrite E; apply lookup_insert_eq|]. apply lookup_insert_ne.
    intros E2. apply E, unsent_key_inj; [apply missing_u64; lia..|]. by symmetry. }
  split_and!; [|done|].
  - split; rewrite ?HI, ?HS; fold index seek; [lia..|]. intros n Hn. rewrite HL by lia. case_bool_decide; [done|].
    apply W3. lia.
  - unfold queue. rewrite HI, HS. fold index seek. replace (index + 1 - seek) with ((index - seek) + 1) by lia.
    rewrite seqZ_app by lia. rewrite fmap_app. f_equal.
    + apply list_fmap_ext. intros i n Hn%list_elem_of_lookup_2%elem_of_seqZ. rewrite HL by lia. by rewrite bool_decide_eq_false_2 by lia.
    + rewrite seqZ_cons, seqZ_nil by lia. cbn [fmap list_fmap]. replace (seek + (index - seek)) with index by lia.
      rewrite HL by lia.
      rewrite bool_decide_eq_true_2 by done. cbn [from_option id]. by rewrite bytes_string_bytes.
Qed.

Lemma pop_queue db :
  queue_wf db -> number db UnTransactionSeek < number db UnTransactionIndex ->
  queue_wf (pop_db db) /\ number (pop_db db) UnTransactionIndex = number db UnTransactionIndex /\
  exists v, db !! unsent_key (number db UnTransactionSeek) = Some v /\ queue db = bytes_string v :: queue (pop_db db).
Proof.
  intros [W1 W2 W3] Hlt. set (index := number db UnTransactionIndex) in *. set (seek := number db UnTransactionSeek) in *.
  assert (HI : number (pop_db db) UnTransactionIndex = index /\ number (pop_db db) UnTransactionSeek = seek + 1).
  { unfold pop_db. fold seek. rewrite u64_small by (apply missing_u64; lia).
    rewrite !number_put by (try apply missing_u64; lia). by rewrite !number_delete by (apply unsent_key_ne; done). }
  destruct HI as [HI HS].
  assert (HL : forall n, seek < n < index -> pop_db db !! unsent_key n = db !! unsent_key n).
  { intros n Hn. unfold pop_db. rewrite lookup_insert_ne by (apply not_eq_sym, unsent_key_ne; done).
    apply lookup_delete_ne. fold seek. intros E%unsent_key_inj; [lia|apply missing_u64; lia..]. }
  split_and!; [|done|].
  - split; rewrite ?HI, ?HS; [lia..|]. intros n Hn. rewrite HL by lia. apply W3. lia.
  - destruct (W3 seek ltac:(lia)) as [v Hv]. exists v. split; [done|]. unfold queue. rewrite HI, HS. fold index seek.
    rewrite seqZ_cons by lia. cbn [fmap list_fmap]. rewrite Hv. cbn [from_option id]. f_equal.
    replace (Z.pred (index - seek)) with (index - (seek + 1)) by lia.
    apply list_fmap_ext. intros i n Hn%list_elem_of_lookup_2%elem_of_seqZ. by rewrite HL by lia.
Qed.

Section queue.
Context `{!ElaLib} `{!Codec} `{!SpvLib} `{!RangeOrder} (small : SmallTxs) (signer : Z).

(** The well-formed queue of [s] is [q], with [n] the next number. *)
Definition queued (s : Spv) (n : Z) (q : list string) : Prop :=
  exists db, spvTransactiondb s = Some db /\ queue_wf db /\ number db UnTransactionIndex = n /\ queue db = q.

Lemma failed_only_queued s s' n q : failed_only s s' -> queued s n q -> queued s' n q.
Proof.
  intros [D _ _ _ _] (db & Hdb & W & <- & <-). rewrite Hdb in D. inversion D as [? db' HA E1 E2|]; subst.
  destruct (queue_agree db db') as (Hq & Hn & HW).
  - intros n. apply HA. by rewrite unsent_key_length.
  - intros p [-> | ->]; by apply HA.
  - exists db'. auto.
Qed.

Lemma UpTransactionIndex_queued s n q e :
  queued s n q -> n + 1 < missingNumber ->
  exists s', UpTransactionIndex e s = Some s' /\ queued s' (n + 1) (q ++ [trim0x e]) /\ spv_sent s' = spv_sent s.
Proof.
  intros (db & Hdb & W & <- & <-) Hm. destruct (push_queue (trim0x e) db W Hm) as (W' & Hn & Hq).
  unfold UpTransactionIndex, db_Put. rewrite Hdb. cbn [mbind option_bind]. eexists. split; [reflexivity|].
  split; [|done]. by exists (push_db (trim0x e) db).
Qed.

Lemma setNextSeek_queued s n h q db :
  queued s n (h :: q) -> spvTransactiondb s = Some db ->
  exists s', setNextSeek (number db UnTransactionSeek) s = Some s' /\ queued s' n q /\ spv_sent s' = spv_sent s.
Proof.
  intros (db1 & E & W & Hn & Hq) Hdb. assert (db1 = db) as -> by congruence.
  destruct (pop_queue db W) as (W' & Hi & v & _ & Hv).
  { apply (f_equal length) in Hq. unfold queue in Hq. rewrite length_fmap, length_seqZ in Hq. cbn in Hq. lia. }
  rewrite Hv in Hq. injection Hq as _ <-.
  unfold setNextSeek, db_Delete, db_Put. rewrite Hdb. cbn [mbind option_bind]. eexists. split; [reflexivity|].
  split; [|done]. exists (pop_db db). by rewrite Hi.
Qed.

(** The state [s1], of the same database but for lists of failed deposits, moves
    past the head of the queue of [s]. *)
Lemma setNextSeek_after s s1 n h q db :
  queued s n (h :: q) -> spvTransactiondb s = Some db -> failed_only s s1 ->
  exists s', setNextSeek (number db UnTransactionSeek) s1 = Some s' /\ queued s' n q /\ spv_sent s' = spv_sent s1.
Proof.
  intros Hq Hdb HF. pose proof (failed_only_queued _ _ _ _ HF Hq) as Hq1. destruct HF as [D _ _ _ _]. rewrite Hdb in D.
  inversion D as [? db1 HA E1 E2|]; subst. symmetry in E2.
  replace (number db UnTransactionSeek) with (number db1 UnTransactionSeek).
  - by apply (setNextSeek_queued s1 n h q db1).
  - unfold number, GetUnTransactionNum. by rewrite HA.
Qed.

(** After [s], nothing is taken off the queue, or its head is, and only then may
    a message be sent, one and for that head. *)
Definition advances (s s' : Spv) (n : Z) (q : list string) : Prop :=
  (queued s' n q /\ spv_sent s' = spv_sent s) \/
  (exists e q', q = e :: q' /\ queued s' n q' /\
     (spv_sent s' = spv_sent s \/ exists msg, spv_sent s' = spv_sent s ++ [msg] /\ sent_for small s e msg)).

Lemma setNextSeek_advances s s1 s' n h q db :
  queued s n (h :: q) -> spvTransactiondb s = Some db -> failed_only s s1 ->
  setNextSeek (number db UnTransactionSeek) s1 = Some s' -> advances s s' n (h :: q).
Proof.
  intros Hq Hdb HF E. destruct (setNextSeek_after s s1 n h q db) as (s2 & E2 & Hq2 & Hs2); [done..|].
  rewrite E2 in E. injection E as <-. right. exists h, q. split_and!; [done..|]. left. rewrite Hs2. by destruct HF.
Qed.

Lemma send_advances s n h q db fee err fin s1 s' :
  queued s n (h :: q) -> spvTransactiondb s = Some db ->
  SendTransaction small signer h fee s = Some (err, fin, s1) ->
  (if fin then setNextSeek (number db UnTransactionSeek) s1 else Some s1) = Some s' -> advances s s' n (h :: q).
Proof.
  intros Hq Hdb Es E. apply SendTransaction_sends in Es as [HF|(-> & msg & -> & Hm)].
  - destruct fin; [by eapply setNextSeek_advances|]. injection E as <-. left.
    split; [by eapply failed_only_queued|]. by destruct HF.
  - set (s1 := s <| spv_sent := _ |>) in E.
    destruct (setNextSeek_queued s1 n h q db) as (s2 & E2 & Hq2 & Hs2); [done..|].
    rewrite E2 in E. injection E as <-. right. exists h, q. split_and!; [done..|]. right. by exists msg.
Qed.

Lemma iterate_advances s n q go s' : queued s n q -> iterate small signer s = Some (go, s') -> advances s s' n q.
Proof.
  intros Hq E. assert (Stay : advances s s n q) by (left; done). unfold iterate in E.
  destruct (candSend s); [|by injection E as <- <-]. cbn [negb] in E. apply bind_Some in E as (db & Hdb & E).
  destruct (GetUnTransactionNum db UnTransactionIndex =? missingNumber) eqn:EI; [by injection E as <- <-|].
  fold (number db UnTransactionSeek) in E.
  destruct (number db UnTransactionSeek =? _) eqn:ES; [by injection E as <- <-|].
  assert (HI : GetUnTransactionNum db UnTransactionIndex = number db UnTransactionIndex) by (unfold number; by rewrite EI).
  rewrite HI in ES. pose proof Hq as (db1 & Hdb1 & W & Hn & Eq). assert (db1 = db) as -> by congruence.
  apply Z.eqb_neq in ES. destruct (pop_queue db W) as (_ & _ & v & Hv & Ev); [destruct W; lia|].
  rewrite Ev in Eq. subst q. unfold db_Get in E. fold (unsent_key (number db UnTransactionSeek)) in E. rewrite Hv in E.
  apply bind_Some in E as ([[rs fee] err] & _ & E). destruct (failed err || (zlen rs =? 0)).
  - apply bind_Some in E as ([r er] & _ & E). destruct (failed er); [by injection E as <- <-|].
    apply bind_Some in E as (s1 & E1 & E). apply bind_Some in E as (s2 & E2 & [= <- <-]).
    eapply setNextSeek_advances; [done..| |done]. destruct r; [by injection E1 as <-|by eapply OnTx2Failed_failed_only].
  - apply bind_Some in E as ([[er fin] s1] & Es & E). apply bind_Some in E as (s2 & E2 & [= <- <-]).
    by eapply send_advances.
Qed.

(** *** Runs

    What happens to the queue: a deposit is queued, the loop goes round, a
    deposit is found to have failed or to be packed in a block. *)
Inductive SpvEvent := EvQueue (e : string) | EvIterate | EvFailed (e : string) | EvPacked (e : string).

Definition spv_event (s : Spv) (ev : SpvEvent) : option Spv :=
  match ev with
  | EvQueue e => UpTransactionIndex e s
  | EvIterate => snd <$> iterate small signer s
  | EvFailed e => OnTx2Failed e s
  | EvPacked e => onElaTxPacked e s
  end.

Definition enqueued (evs : list SpvEvent) : list string :=
  omap (fun ev => match ev with EvQueue e => Some (trim0x e) | _ => None end) evs.

(** [taken] leaves the queue [q] and [sent] is sent for it. *)
Definition moves (s s' : Spv) (n : Z) (q : list string) (taken : list string) (sent : list TXMsg) : Prop :=
  exists n' q', n <= n' <= n + 1 /\ q = taken ++ q' /\ queued s' n' q' /\ spv_sent s' = spv_sent s ++ sent /\
    exists l, l `sublist_of` taken /\ Forall2 (fun e msg => exists s1, sent_for small s1 e msg) l sent.

Lemma stay_moves s s' n n' q :
  n <= n' <= n + 1 -> queued s' n' q -> spv_sent s' = spv_sent s -> moves s s' n q [] [].
Proof. intros Hn Hq Hs. exists n', q. rewrite app_nil_r. split_and!; [lia..|done|done|done|]. by exists []. Qed.

Lemma spv_event_moves s n q ev s' :
  queued s n q -> n + 1 < missingNumber -> spv_event s ev = Some s' ->
  exists taken sent, moves s s' n (q ++ enqueued [ev]) taken sent.
Proof.
  intros Hq Hn E. assert (Skip : failed_only s s' -> moves s s' n q [] []).
  { intros HF. apply (stay_moves _ _ _ n); [lia|by eapply failed_only_queued|by destruct HF]. }
  destruct ev as [e| |e|e]; cbn in E; [|rewrite app_nil_r..].
  - destruct (UpTransactionIndex_queued s n q e Hq Hn) as (s2 & E2 & Hq2 & Hs). rewrite E2 in E. injection E as <-.
    exists [], []. apply (stay_moves _ _ _ (n + 1)); [lia|done|done].
  - apply fmap_Some in E as ([go s2] & E & ->). cbn [snd].
    destruct (iterate_advances s n q go s2 Hq E) as [[Hq2 Hs]|(e & q' & -> & Hq2 & Hs)].
    + exists [], []. by apply (stay_moves _ _ _ n); [lia|..].
    + destruct Hs as [Hs|(msg & Hs & Hm)]; [exists [e], []|exists [e], [msg]]; exists n, q'; rewrite ?app_nil_r;
        (split_and!; [lia..|done|done|done|]); [exists []|exists [e]]; split; auto; [apply sublist_nil_l|].
      repeat constructor. by exists s.
  - exists [], []. apply Skip. by eapply OnTx2Failed_failed_only.
  - exists [], []. apply Skip. by eapply onElaTxPacked_failed_only.
Qed.

Lemma spv_run_moves s n q evs s' :
  queued s n q -> n + zlen evs < missingNumber -> fold_option spv_event s evs = Some s' ->
  exists n' taken q' sent l, q ++ enqueued evs = taken ++ q' /\ queued s' n' q' /\ spv_sent s' = spv_sent s ++ sent /\
    l `sublist_of` taken /\ Forall2 (fun e msg => exists s1, sent_for small s1 e msg) l sent.
Proof.
  revert s n q. induction evs as [|ev evs IH]; intros s n q Hq Hn E.
  - cbn in E. injection E as <-. exists n, [], q, [], []. rewrite !app_nil_r. split_and!; done.
  - cbn [fold_option] in E. apply bind_Some in E as (s1 & E1 & E). rewrite zlen_cons in Hn. pose proof (zlen_nonneg evs).
    destruct (spv_event_moves s n q ev s1 Hq) as (t & m & n1 & q1 & Hn1 & Eq & Hq1 & Hs1 & l & Hl & HF); [lia|done|].
    destruct (IH s1 n1 q1 Hq1) as (n' & t' & q' & m' & l' & Eq' & Hq' & Hs' & Hl' & HF'); [lia|done|].
    exists n', (t ++ t'), q', (m ++ m'), (l ++ l'). split_and!; [|done| |by apply sublist_app|by apply Forall2_app].
    + rewrite <- (app_assoc t), <- Eq', app_assoc, <- Eq, <- app_assoc. f_equal.
      unfold enqueued. by destruct ev.
    + by rewrite Hs', Hs1, app_assoc.
Qed.

(** deposits are sent in the order they were queued, each at most once.  From
    a state with an empty queue and nothing sent, through any sequence of
    deposits queued by [UpTransactionIndex], rounds of the loop of
    [IteratorUnTransaction] and deposits found failed or packed: the queue is
    what was queued less a prefix that has been taken off, and the messages sent
    are for a subsequence of that prefix, each carrying its deposit, which was
    not recorded as failed when it was sent. *)
Theorem queue_sends_in_order s n evs s' :
  queued s n [] -> spv_sent s = [] -> n + zlen evs < missingNumber -> fold_option spv_event s evs = Some s' ->
  exists n' taken waiting l, enqueued evs = taken ++ waiting /\ queued s' n' waiting /\ l `sublist_of` taken /\
    Forall2 (fun e msg => exists s1, sent_for small s1 e msg) l (spv_sent s').
Proof.
  intros Hq Hs Hn E. destruct (spv_run_moves s n [] evs s' Hq Hn E) as (n' & t & q' & m & l & ? & ? & Hs' & ? & ?).
  rewrite Hs in Hs'. cbn in Hs'. exists n', t, q', l. by rewrite Hs'.
Qed.
End queue.

(** ** Saving and reading back a deposit *)

(** The main chain's amounts read back as they print, without a comma. *)
Fixpoint no_comma (s : string) : Prop :=
  match s with EmptyString => True | String c s => c <> ","%char /\ no_comma s end.

Class SpvLaws `{!SpvLib} := {
  fixed64_inverse : forall x, 0 <= x < 2 ^ 63 -> StringToFixed64 (Fixed64_String x) = inl x;
  fixed64_no_comma : forall x, no_comma (Fixed64_String x)
}.

Lemma split_no_comma s : no_comma s -> split_comma s = [s].
Proof. induction s as [|c s IH]; [done|]. intros [Hc Hs]. cbn. by rewrite bool_decide_eq_false_2, IH. Qed.

Lemma split_app s t : no_comma s -> split_comma (s +:+ String ","%char t) = s :: split_comma t.
Proof.
  induction s as [|c s IH]; intros Hs; [done|]. destruct Hs as [Hc Hs].
  change (String c s +:+ String ","%char t) with (String c (s +:+ String ","%char t)). cbn [split_comma].
  rewrite bool_decide_eq_false_2 by done. by rewrite IH.
Qed.

Lemma split_join l : l <> [] -> Forall no_comma l -> split_comma (join_comma l) = l.
Proof.
  intros Hl HF. induction HF as [|s l Hs HF IH]; [done|]. destruct l as [|t l]; [by apply split_no_comma|].
  change (join_comma (s :: t :: l)) with (s +:+ String ","%char (join_comma (t :: l))). by rewrite split_app, IH.
Qed.

Lemma hex_no_comma s : all_hex s = true -> no_comma s.
Proof.
  induction s as [|c s IH]; [done|]. cbn. intros [Hc Hs]%andb_prop. split; [|by apply IH].
  intros ->. by apply bool_decide_eq_true in Hc as [? ?].
Qed.

Lemma hex_address_no_comma s : IsHexAddress s = true -> no_comma s.
Proof.
  unfold IsHexAddress, isHex. intros H. apply andb_prop in H as [_ H]. apply andb_prop in H as [_ H].
  destruct (has0xPrefix s) eqn:Hp; [|by apply hex_no_comma].
  destruct s as [|a [|b s]]; [done|done|]. cbn [has0xPrefix] in Hp. apply andb_prop in Hp as [Ha Hb].
  rewrite bool_decide_eq_true in Ha. subst a.
  replace (String.substring 2 _ _) with s in H.
  - split; [done|]. split; [|by apply hex_no_comma]. intros ->. by apply orb_prop in Hb as [Hb|Hb]; apply bool_decide_eq_true in Hb.
  - cbn. rewrite Nat.sub_0_r. clear. induction s as [|c s IH]; [done|]. cbn. by rewrite <- IH.
Qed.

Lemma string_bytes_string b : wf_bytes b -> string_bytes (bytes_string b) = b.
Proof.
  induction 1 as [|x b Hx _ IH]; [done|]. cbn in *. rewrite IH, N_ascii_embedding by lia. f_equal. lia.
Qed.

Section roundtrip.
Context `{!ElaLib} `{!Codec} `{!SpvLib} `{!RangeOrder}.

Lemma any_list_false e lists : any_list e lists = Some false <-> Forall (fun txs => mem_stripped e txs = Some false) lists.
Proof.
  induction lists as [|txs lists IH]; cbn; [by split|]. rewrite Forall_cons, <- IH.
  destruct (mem_stripped e txs) as [[]|]; cbn; naive_solver.
Qed.

Lemma elem_of_failed_lists db key txs :
  (key, txs) ∈ failed_lists db <->
  exists value, db !! key = Some value /\ decodeTxList value = (txs, nil_err) /\ length key = 8%nat /\ txs <> [].
Proof.
  unfold failed_lists. rewrite list_elem_of_omap. split.
  - intros ([k v] & Hkv & E). destruct (decodeTxList v) as [l [err|]] eqn:Ed; [done|]. cbn [failed] in E.
    destruct (zlen k =? 8) eqn:Hk; [|done]. destruct (zlen l =? 0) eqn:Hl; [done|]. injection E as -> ->.
    exists v. rewrite elem_of_map_to_list in Hkv. unfold zlen in *. split_and!; [done..|lia|by intros ->].
  - intros (v & Hv & Ed & Hk & Hl). exists (key, v). rewrite elem_of_map_to_list. split; [done|]. rewrite Ed. cbn [failed].
    unfold zlen. rewrite Hk. destruct txs; [done|]. done.
Qed.

(** Two databases that agree on keys of eight bytes. *)
Definition agree_on8 (db db' : gmap bytes bytes) : Prop := forall k, length k = 8%nat -> db' !! k = db !! k.

Lemma not_failed_agree e s db db' th cs :
  spvTransactiondb s = Some db -> agree_on8 db db' -> IsFailedElaTx e s = Some (false, nil_err) ->
  IsFailedElaTx e (s <| spvTransactiondb := Some db' |> <| spvTxhash := th |> <| candSend := cs |>) = Some (false, nil_err).
Proof.
  intros Hdb HA. unfold IsFailedElaTx. cbn. rewrite Hdb.
  destruct (strip0x e) as [e1|]; [|done]. cbn [mbind option_bind]. destruct (Uint256FromHexString e1) as [hash|]; [|done].
  destruct (any_list e1 (map_to_list (spv_failedTxList s)).*2) as [[]|]; cbn; [done| |done].
  destruct (any_list e1 (failed_lists db).*2) as [[]|] eqn:E; cbn; [done| |done].
  apply any_list_false in E. replace (any_list e1 (failed_lists db').*2) with (Some false); [done|].
  symmetry. apply any_list_false. rewrite Forall_fmap, Forall_forall in *. intros [k txs] Hin. apply (E (k, txs)).
  rewrite elem_of_failed_lists in *. destruct Hin as (v & Hv & Ed & Hk & Hl). exists v. by rewrite <- HA.
Qed.

(** The stored fields of a deposit of outputs [outputs], and what they stand for. *)
Definition deposit_ok (x : Z * CrossChainOutput) : Prop :=
  0 <= op_TargetAmount x.2 <= x.1 /\ x.1 < 2 ^ 63 /\ IsHexAddress (op_TargetAddress x.2) = true /\
  wf_bytes (op_TargetData x.2) /\ no_comma (bytes_string (op_TargetData x.2)).

Definition deposit_of (x : Z * CrossChainOutput) : RechargeData :=
  {| TargetAddress := HexToAddress (op_TargetAddress x.2); TargetAmount := x.1 * rate;
     Fee := (x.1 - op_TargetAmount x.2) * rate; TargetData := op_TargetData x.2 |}.

Context `{!SpvLaws}.

Lemma i64_nonneg x : 0 <= x < 2 ^ 63 -> i64 x = x.
Proof. intros Hx. unfold i64. rewrite Z.mod_small; lia. Qed.

Definition total_fee (ds : list RechargeData) : Z := foldr (fun d t => Fee d + t) 0 ds.

Lemma read_outputs_deposit outputs total :
  Forall deposit_ok outputs ->
  read_outputs (output_address outputs)
    (output_fees outputs)
    (output_amounts outputs)
    (output_memos outputs) total =
  Some (deposit_of <$> outputs, total + total_fee (deposit_of <$> outputs), nil_err).
Proof.
  unfold output_address, output_fees, output_amounts, output_memos. intros HF. revert total. induction HF as [|[v op] outputs Hx HF IH]; intros total; [cbn; by rewrite Z.add_0_r|].
  destruct Hx as (Ha & Hv & Hh & Hw & _). cbn [fst snd] in *. rewrite !fmap_cons. cbn [read_outputs]. rewrite Hh. cbn [negb].
  rewrite i64_nonneg by lia. rewrite !fixed64_inverse by lia. rewrite string_bytes_string by done. rewrite IH.
  cbn [mbind option_bind total_fee foldr]. unfold deposit_of at 4. cbn [Fee fst snd]. rewrite Z.add_assoc. reflexivity.
Qed.

Lemma fields_no_comma outputs :
  Forall deposit_ok outputs ->
  Forall no_comma (output_address outputs) /\
  Forall no_comma (output_fees outputs) /\
  Forall no_comma (output_amounts outputs) /\
  Forall no_comma (output_memos outputs).
Proof.
  intros HF. unfold output_address, output_fees, output_amounts, output_memos. rewrite !Forall_fmap. split_and!; (eapply Forall_impl; [exact HF|]); intros [v op] (_ & _ & Hh & _ & Hm); cbn;
    [by apply hex_address_no_comma|apply fixed64_no_comma..|done].
Qed.

Lemma field_length h suffix : length (field h suffix) = (String.length h + String.length suffix)%nat.
Proof.
  unfold field. assert (HL : forall s, length (string_bytes s) = String.length s) by (intros s; induction s; cbn; congruence).
  rewrite HL. clear. induction h as [|c h IH]; [done|].
  change (String c h +:+ suffix) with (String c (h +:+ suffix)). cbn. by rewrite IH.
Qed.

Lemma field_ne h a b : String.length a <> String.length b -> field h a <> field h b.
Proof. intros Hn E. apply (f_equal length) in E. rewrite !field_length in E. lia. Qed.

(** The database after the four entries. *)
Definition fields_db (h fee addr output input : string) (db : gmap bytes bytes) : gmap bytes bytes :=
  <[ field h "Input" := string_bytes input ]> (<[ field h "Output" := string_bytes output ]>
    (<[ field h "Address" := string_bytes addr ]> (<[ field h "Fee" := string_bytes fee ]> db))).

Lemma put_fields_db h fee addr output input db s :
  spvTransactiondb s = Some db ->
  put_fields h fee addr output input s = Some (s <| spvTransactiondb := Some (fields_db h fee addr output input db) |>).
Proof. intros E. unfold put_fields, db_Put. rewrite E. reflexivity. Qed.

Lemma lookup_fields h fee addr output input db :
  let db' := fields_db h fee addr output input db in
  db' !! field h "Fee" = Some (string_bytes fee) /\ db' !! field h "Address" = Some (string_bytes addr) /\
  db' !! field h "Output" = Some (string_bytes output) /\ db' !! field h "Input" = Some (string_bytes input).
Proof.
  cbn. unfold fields_db. split_and!; repeat (rewrite lookup_insert_ne by (apply field_ne; cbn; lia)); apply lookup_insert_eq.
Qed.

Lemma lookup_fields_other h fee addr output input db k :
  (length k < String.length h)%nat -> fields_db h fee addr output input db !! k = db !! k.
Proof.
  intros Hk. unfold fields_db. assert (HN : forall suffix, field h suffix <> k).
  { intros suffix <-. rewrite field_length in Hk. lia. }
  by rewrite !lookup_insert_ne.
Qed.

Definition stored (h : string) (outputs : list (Z * CrossChainOutput)) : gmap bytes bytes -> gmap bytes bytes :=
  fields_db h (join_comma (output_fees outputs)) (join_comma (output_address outputs))
    (join_comma (output_amounts outputs)) (join_comma (output_memos outputs)).

(** A database with the fields of a deposit, whatever else it holds. *)
Lemma read_deposit h outputs s db :
  strip0x h = Some h -> outputs <> [] -> Forall deposit_ok outputs -> spvTransactiondb s = Some db ->
  IsFailedElaTx h s = Some (false, nil_err) ->
  (forall suffix v, stored h outputs ∅ !! field h suffix = Some v -> db !! field h suffix = Some v) ->
  GetRechargeDataByTxhash h s = Some (deposit_of <$> outputs, total_fee (deposit_of <$> outputs), nil_err).
Proof.
  intros Hh Hne HF Hdb Hnf Hl. unfold GetRechargeDataByTxhash. rewrite Hh. cbn [mbind option_bind]. rewrite Hdb, Hnf.
  edestruct (lookup_fields h) as (E1 & E2 & E3 & E4). apply Hl in E1, E2, E3, E4. cbn [mbind option_bind failed].
  unfold db_Get. rewrite E1, E2, E3, E4. cbn [from_option id]. rewrite !bytes_string_bytes.
  destruct (fields_no_comma outputs HF) as (C1 & C2 & C3 & C4).
  rewrite !split_join; try done; try (intros E%fmap_nil_inv; done).
  unfold zlen, output_address, output_fees, output_amounts. rewrite !length_fmap, !Z.eqb_refl. cbn [negb orb].
  by apply read_outputs_deposit.
Qed.

Lemma substring_all s : String.substring 0 (String.length s) s = s.
Proof. induction s as [|c s IH]; [done|]. cbn. by rewrite IH. Qed.

Lemma trim_strip h h' : strip0x h = Some h' -> trim0x h = h'.
Proof.
  unfold trim0x. destruct h as [|a [|b h]]; [done..|]. cbn [strip0x]. intros [= <-].
  cbn [String.prefix String.length String.substring]. rewrite Nat.sub_succ, Nat.sub_succ, Nat.sub_0_r, substring_all.
  destruct (ascii_dec "0" a) as [<-|Ha]; [|by rewrite bool_decide_eq_false_2 by naive_solver].
  destruct (ascii_dec "x" b) as [<-|Hb]; [|by rewrite bool_decide_eq_false_2 by naive_solver]. by destruct h.
Qed.

(** The database after a deposit has been saved and queued. *)
Lemma saved_lookup h outputs db suffix v :
  String.length h = 64%nat -> stored h outputs ∅ !! field h suffix = Some v ->
  push_db h (stored h outputs db) !! field h suffix = Some v.
Proof.
  intros Hl E. unfold push_db. pose proof (field_length h suffix) as HF.
  rewrite !lookup_insert_ne.
  - revert E. unfold stored, fields_db. rewrite !lookup_insert. repeat case_decide; auto. by rewrite lookup_empty.
  - intros E2. rewrite <- E2, unsent_key_length in HF. lia.
  - intros E2. rewrite <- E2 in HF. cbn in HF. lia.
Qed.

Lemma saved_agree h outputs db : String.length h = 64%nat -> agree_on8 db (push_db h (stored h outputs db)).
Proof.
  intros Hl k Hk. unfold push_db. rewrite !lookup_insert_ne.
  - apply lookup_fields_other. lia.
  - intros <-. by rewrite unsent_key_length in Hk.
  - by intros <-.
Qed.

Lemma saved_queue h outputs db :
  String.length h = 64%nat -> queue_wf db -> number db UnTransactionIndex + 1 < missingNumber ->
  let db' := push_db h (stored h outputs db) in
  queue_wf db' /\ number db' UnTransactionIndex = number db UnTransactionIndex + 1 /\ queue db' = queue db ++ [h].
Proof.
  intros Hl W Hn db'. destruct (queue_agree db (stored h outputs db)) as (Hq & Hi & HW).
  - intros n. apply lookup_fields_other. rewrite unsent_key_length. lia.
  - intros p [-> | ->]; apply lookup_fields_other; cbn; lia.
  - subst db'. rewrite <- Hi in Hn. destruct (push_queue h _ (HW W) Hn) as (? & ? & ?). split_and!; congruence.
Qed.

(** what the SPV service notifies is what will be credited.  When the
    transaction of a new deposit is notified to a node that is not sending, every
    cross-chain output valid, with an amount at most its value, a hexadecimal
    address and a memo without a comma, the deposit is queued and
    [GetRechargeDataByTxhash] then gives exactly its outputs: address, value, fee
    (value less amount) and memo of each, and the sum of the fees. *)
Theorem Notify_roundtrip small signer tx outputs s n q :
  String.length (tx_Hash tx) = 64%nat -> strip0x (tx_Hash tx) = Some (tx_Hash tx) -> 1 <= tx_PayloadVersion tx ->
  cross_chain_outputs (tx_Outputs tx) = inl outputs -> outputs <> [] -> Forall deposit_ok outputs ->
  queued s n q -> n + 1 < missingNumber -> candSend s = false -> spvTxhash s <> tx_Hash tx ->
  IsFailedElaTx (tx_Hash tx) s = Some (false, nil_err) ->
  FindOutputFeeAndaddressByTxHash (tx_Hash tx) s = Some (0, 0, 0) ->
  exists s', listener_Notify small signer tx s = Some s' /\
    GetRechargeDataByTxhash (tx_Hash tx) s' = Some (deposit_of <$> outputs, total_fee (deposit_of <$> outputs), nil_err) /\
    queued s' (n + 1) (q ++ [tx_Hash tx]) /\ spv_sent s' = spv_sent s.
Proof.
  intros Hl Hst Hv Ho Hne HF (db & Hdb & W & <- & <-) Hn Hc Hh Hnf Hfind.
  set (h := tx_Hash tx) in *. set (db' := push_db h (stored h outputs db)).
  assert (HS : stop_unless_producer s = s) by (destruct s, SelfIsProducer0; cbn in *; congruence).
  destruct (saved_queue h outputs db Hl W Hn) as (W' & Hi & Hq). fold db' in W', Hi, Hq.
  pose proof (not_failed_agree h s db db' h false Hdb (saved_agree h outputs db Hl) Hnf) as Hnf'.
  set (s' := s <| spvTransactiondb := Some db' |> <| spvTxhash := h |> <| candSend := false |>) in Hnf'.
  exists s'. split_and!.
  - unfold listener_Notify. rewrite HS. fold h. rewrite Hfind. cbn [mbind option_bind Z.leb Z.eqb andb].
    unfold SavePayloadInfo. rewrite (proj2 (Z.leb_le _ _) Hv). unfold OnReceivedRechargeTx. rewrite Ho.
    replace (0 <? zlen outputs) with true by (destruct outputs; [done|rewrite zlen_cons; pose proof (zlen_nonneg outputs); lia]).
    unfold saveOutputPayload. fold h. rewrite bool_decide_eq_false_2 by done.
    rewrite (put_fields_db _ _ _ _ _ db) by done. cbn [mbind option_bind]. unfold send_or_queue. cbn [candSend set_field].
    unfold UpTransactionIndex, db_Put. rewrite (trim_strip h h Hst). destruct s. cbn in *. subst. done.
  - apply (read_deposit h outputs s' db'); auto. intros suffix v. by apply saved_lookup.
  - by exists db'.
  - done.
Qed.
End roundtrip.

(** ** The first output of a deposit *)
Section first.
Context `{!ElaLib} `{!Codec} `{!SpvLib} `{!RangeOrder}.

Lemma split_nonempty t : exists p ps, split_comma t = p :: ps.
Proof.
  induction t as [|c t (p & ps & E)]; [by eexists _, _|]. cbn [split_comma]. case_bool_decide; [by eexists _, _|]. rewrite E. by eexists _, _.
Qed.

(** [FindOutputFeeAndaddressByTxHash] gives the first of the outputs
    [GetRechargeDataByTxhash] gives. *)
Lemma Find_first h s d ds total :
  GetRechargeDataByTxhash h s = Some (d :: ds, total, nil_err) ->
  FindOutputFeeAndaddressByTxHash h s = Some (Fee d, TargetAddress d, TargetAmount d).
Proof.
  unfold GetRechargeDataByTxhash, FindOutputFeeAndaddressByTxHash. destruct (strip0x h) as [h1|]; [|done]. cbn [mbind option_bind].
  destruct (spvTransactiondb s) as [db|]; [|done]. destruct (IsFailedElaTx h1 s) as [[res err]|]; [|done]. cbn [mbind option_bind].
  destruct err; [done|]. destruct res; [done|]. cbn [failed orb].
  destruct (db_Get (field h1 "Fee") db) as [fee|]; [|done]. destruct (db_Get (field h1 "Address") db) as [addr|]; [|done].
  destruct (db_Get (field h1 "Output") db) as [out|]; [|done]. destruct (_ || _); [done|].
  destruct (split_nonempty (bytes_string addr)) as (a & as' & ->), (split_nonempty (bytes_string fee)) as (f & fs & ->),
    (split_nonempty (bytes_string out)) as (o & os & ->). cbn [read_outputs List.hd].
  destruct (negb (IsHexAddress a)); [done|]. destruct (StringToFixed64 f) as [fv|]; [|done].
  destruct (StringToFixed64 o) as [ov|]; [|done]. destruct (split_comma _) as [|memo memos]; [done|]. intros E.
  apply bind_Some in E as ([[ds' t'] e'] & _ & E). injection E as <- <- _ _. done.
Qed.

Lemma Find_strip h h' s :
  strip0x h = Some h' -> strip0x h' = Some h' -> FindOutputFeeAndaddressByTxHash h s = FindOutputFeeAndaddressByTxHash h' s.
Proof. intros E E'. unfold FindOutputFeeAndaddressByTxHash. by rewrite E, E'. Qed.

(** A deposit that is known is not fetched again. *)
Lemma TrySet_known small signer h h' s fee addr out :
  strip0x h = Some h' -> strip0x h' = Some h' -> FindOutputFeeAndaddressByTxHash h s = Some (fee, addr, out) -> 0 < fee ->
  TrySetRechargeDataFromSpvService small signer h s = Some (nil_err, s).
Proof.
  intros E E' Hf Hp. unfold TrySetRechargeDataFromSpvService. rewrite E. cbn [mbind option_bind].
  rewrite <- (Find_strip h h' s E E'), Hf. cbn [mbind option_bind]. by rewrite (proj2 (Z.leb_gt _ _)) by lia.
Qed.
End first.

(** ** Recording a failed deposit *)
Section recording.
Context `{!ElaLib} `{!Codec} `{!SpvLib} `{!RangeOrder} `{!CodecLaws}.

(** A list of ids that can be written and read back. *)
Definition encodable (l : list string) : Prop :=
  is_u64 (zlen l) /\ Forall (fun s => Z.of_nat (String.length s) <= MaxVarStringLength) l.

Lemma decode_encodeTxList l : encodable l -> decodeTxList (encodeTxList l) = (l, nil_err).
Proof.
  intros [Hl HF]. unfold decodeTxList, encodeTxList. rewrite u64_small by done. rewrite varuint_inverse by done.
  unfold zlen. rewrite Nat2Z.id. rewrite <- (app_nil_r (concat _)).
  by rewrite (read_n_roundtrip _ _ _ _ _ varstring_inverse HF).
Qed.

Lemma any_list_true e lists :
  Forall (fun txs => mem_stripped e txs = Some false \/ mem_stripped e txs = Some true) lists ->
  Exists (fun txs => mem_stripped e txs = Some true) lists -> any_list e lists = Some true.
Proof.
  induction 1 as [|txs lists Ht HF IH]; [by intros ?%Exists_nil|]. intros HE. cbn.
  destruct Ht as [E | E]; rewrite E; cbn; [|done]. apply IH. apply Exists_cons in HE as [E2|E2]; [congruence|done].
Qed.

Lemma mem_stripped_app e l : strip0x e = Some e -> mem_stripped e l = Some false -> mem_stripped e (l ++ [e]) = Some true.
Proof.
  intros He. induction l as [|x l IH]; cbn.
  - intros _. rewrite He. cbn. by rewrite bool_decide_eq_true_2.
  - destruct (strip0x x) as [t|]; cbn; [|done]. case_bool_decide; [done|apply IH].
Qed.

(** One list with the id among lists without it. *)
Lemma any_list_insert `{Countable K} (m m' : list (K * list string)) e k l :
  Forall (fun x => mem_stripped e x.2 = Some false) m -> (forall x, x ∈ m' -> x = (k, l) \/ x ∈ m) -> (k, l) ∈ m' ->
  mem_stripped e l = Some true -> any_list e m'.*2 = Some true.
Proof.
  intros HF Hin Hk Hl. rewrite Forall_forall in HF. apply any_list_true.
  - rewrite Forall_fmap, Forall_forall. intros x [-> | Hx]%Hin; [by right|]. left. by apply HF.
  - rewrite Exists_fmap, Exists_exists. by exists (k, l).
Qed.

Lemma not_failed_lists e s :
  IsFailedElaTx e s = Some (false, nil_err) -> strip0x e = Some e ->
  (exists hash, Uint256FromHexString e = inl hash) /\ hasSpvService = true /\
  Forall (fun x => mem_stripped e x.2 = Some false) (map_to_list (spv_failedTxList s)) /\
  exists db, spvTransactiondb s = Some db /\ Forall (fun x => mem_stripped e x.2 = Some false) (failed_lists db).
Proof.
  unfold IsFailedElaTx. intros E He. rewrite He in E. cbn [mbind option_bind] in E.
  destruct (Uint256FromHexString e) as [hash|]; [|done].
  destruct (any_list e (map_to_list (spv_failedTxList s)).*2) as [[]|] eqn:E1; [done| |done]. cbn [mbind option_bind] in E.
  apply any_list_false in E1. rewrite Forall_fmap in E1.
  destruct (spvTransactiondb s) as [db|]; [|done]. cbn [mbind option_bind] in E.
  destruct (any_list e (failed_lists db).*2) as [[]|] eqn:E2; [done| |done]. cbn [mbind option_bind] in E.
  apply any_list_false in E2. rewrite Forall_fmap in E2. destruct hasSpvService; [|done]. eauto 10.
Qed.

(** With the id in a list of the memory, or in one of the database and in none of
    the memory, the deposit counts as failed. *)
Lemma failed_in_memory e s :
  strip0x e = Some e -> (exists hash, Uint256FromHexString e = inl hash) ->
  any_list e (map_to_list (spv_failedTxList s)).*2 = Some true -> IsFailedElaTx e s = Some (true, nil_err).
Proof. intros He [hash Hh] E. unfold IsFailedElaTx. rewrite He. cbn. rewrite Hh. by rewrite E. Qed.

Lemma failed_in_db e s db :
  strip0x e = Some e -> (exists hash, Uint256FromHexString e = inl hash) -> spvTransactiondb s = Some db ->
  any_list e (failed_lists db).*2 = Some true -> IsFailedElaTx e (s <| spv_failedTxList := ∅ |>) = Some (true, nil_err).
Proof.
  intros He [hash Hh] Hdb E. unfold IsFailedElaTx. rewrite He. cbn. rewrite Hh, map_to_list_empty. cbn. rewrite Hdb. cbn.
  by rewrite E.
Qed.

(** The state once [e] is recorded as failed at [height]. *)
Definition recorded (e : string) (height : Z) (s : Spv) (db : gmap bytes bytes) : Spv :=
  let l := default [] (spv_failedTxList s !! height) ++ [e] in
  s <| spv_failedTxList := <[ height := l ]> (spv_failedTxList s) |>
    <| spvTransactiondb := Some (<[ encodeUnTransactionNumber height := encodeTxList l ]> db) |>.

(** The client knows no transaction that credited the deposit. *)
Definition not_credited (e : string) : Prop :=
  exists v, client_StorageAt (HexToHash ("0x" +:+ e)) = inl v /\ BytesToHash v = zero_hash.

Lemma OnTx2Failed_recorded_state e s db height :
  strip0x e = Some e -> hasClient = true -> not_credited e -> client_CurrentBlockNumber = inl height ->
  spvTransactiondb s = Some db -> IsFailedElaTx e s = Some (false, nil_err) ->
  OnTx2Failed e s = Some (recorded e height s db).
Proof.
  intros He Hc (v & Hv & Hz) Hh Hdb Hnf. unfold OnTx2Failed, IsPackagedElaTx. rewrite He, Hc. cbn [mbind option_bind negb].
  rewrite He. cbn [mbind option_bind]. rewrite Hv, Hz.
  replace (bytes_Equal zero_hash zero_hash) with true by by vm_compute. cbn [negb mbind option_bind orb failed].
  rewrite Hnf. cbn [mbind option_bind orb failed]. rewrite Hh. unfold db_Put. cbn. by rewrite Hdb.
Qed.

Lemma recorded_memory e height s db :
  strip0x e = Some e -> Forall (fun x => mem_stripped e x.2 = Some false) (map_to_list (spv_failedTxList s)) ->
  any_list e (map_to_list (spv_failedTxList (recorded e height s db))).*2 = Some true.
Proof.
  intros He HF. cbn. set (l := default [] (spv_failedTxList s !! height) ++ [e]).
  apply (any_list_insert (map_to_list (spv_failedTxList s)) _ e height l); [done| | |].
  - intros [k x]. rewrite !elem_of_map_to_list, lookup_insert_Some. naive_solver.
  - rewrite elem_of_map_to_list. apply lookup_insert_eq.
  - apply mem_stripped_app; [done|]. destruct (spv_failedTxList s !! height) as [old|] eqn:E; [|done].
    rewrite Forall_forall in HF. by apply (HF (height, old)), elem_of_map_to_list.
Qed.

Lemma recorded_db e height s db :
  strip0x e = Some e -> encodable (default [] (spv_failedTxList s !! height) ++ [e]) ->
  Forall (fun x => mem_stripped e x.2 = Some false) (map_to_list (spv_failedTxList s)) ->
  Forall (fun x => mem_stripped e x.2 = Some false) (failed_lists db) ->
  any_list e (failed_lists (<[ encodeUnTransactionNumber height :=
    encodeTxList (default [] (spv_failedTxList s !! height) ++ [e]) ]> db)).*2 = Some true.
Proof.
  intros He Henc HM HF. set (l := default [] (spv_failedTxList s !! height) ++ [e]) in *.
  apply (any_list_insert (failed_lists db) _ e (encodeUnTransactionNumber height) l); [done| | |].
  - intros [k x]. rewrite !elem_of_failed_lists. setoid_rewrite lookup_insert_Some.
    intros (v & [[<- <-]|[Hk Hv]] & Ed & ?); [|right; by exists v].
    left. rewrite decode_encodeTxList in Ed by done. by injection Ed as <-.
  - apply elem_of_failed_lists. exists (encodeTxList l). rewrite lookup_insert_eq, decode_encodeTxList by done.
    split_and!; [done..|apply encode_length|]. subst l. by destruct (default [] _).
  - apply mem_stripped_app; [done|]. destruct (spv_failedTxList s !! height) as [old|] eqn:E; [|done].
    rewrite Forall_forall in HM. by apply (HM (height, old)), elem_of_map_to_list.
Qed.

(** a deposit that cannot be executed is recorded for good.  When the client
    knows no transaction that credited it and it is not yet recorded,
    [OnTx2Failed] records it under the current height: [IsFailedElaTx] then holds,
    also when the lists in memory are lost, [GetRechargeDataByTxhash] refuses to
    give its outputs, and six blocks later [GetFailedRechargeTxs] reports it.  The
    list written to the database is the one in memory with the deposit added: what
    the database held under that height is replaced. *)
Theorem OnTx2Failed_recorded e s db height :
  strip0x e = Some e -> hasClient = true -> not_credited e -> client_CurrentBlockNumber = inl height ->
  0 <= height -> height + blockDiff < 2 ^ 64 -> spvTransactiondb s = Some db -> IsFailedElaTx e s = Some (false, nil_err) ->
  encodable (default [] (spv_failedTxList s !! height) ++ [e]) ->
  exists s', OnTx2Failed e s = Some s' /\ IsFailedElaTx e s' = Some (true, nil_err) /\
    IsFailedElaTx e (s' <| spv_failedTxList := ∅ |>) = Some (true, nil_err) /\
    GetRechargeDataByTxhash e s' = Some ([], 0, New ("is failed elaTx: " +:+ e)) /\
    GetFailedRechargeTxs (height + blockDiff) s' = default [] (spv_failedTxList s !! height) ++ [e] /\
    getTxsOnDb height s' = default [] (spv_failedTxList s !! height) ++ [e].
Proof.
  intros He Hc Hn Hh Hge H6 Hdb Hnf Henc. exists (recorded e height s db).
  destruct (not_failed_lists e s Hnf He) as (Hp & _ & HM & db1 & Hdb1 & HD). assert (db1 = db) as -> by congruence.
  assert (HF : IsFailedElaTx e (recorded e height s db) = Some (true, nil_err))
    by (apply failed_in_memory; [done..|by apply recorded_memory]).
  split_and!; [by apply OnTx2Failed_recorded_state|done| | | |].
  - eapply failed_in_db; [done..|]. by apply recorded_db.
  - unfold GetRechargeDataByTxhash. rewrite He. cbn [mbind option_bind]. rewrite HF. done.
  - unfold GetFailedRechargeTxs, blockDiff in *. rewrite (proj2 (Z.ltb_ge _ _)) by lia.
    replace (height + 6 - 6) with height by lia. cbn. rewrite lookup_insert_eq. cbn.
    rewrite zlen_app. pose proof (zlen_nonneg (default [] (spv_failedTxList s !! height))). cbn.
    by rewrite (proj2 (Z.eqb_neq _ _)) by (unfold zlen at 2; cbn; lia).
  - unfold getTxsOnDb, db_Get. cbn. by rewrite lookup_insert_eq, decode_encodeTxList.
Qed.
End recording.

(** ** A concrete service *)
Module ToySpv.
Definition hash : string := hex_encode (replicate 32 171).

(** Amounts print as 16 hexadecimal digits; the chain is at height 100, has
    credited nothing and estimates 21000 gas. *)
#[export] Instance lib : SpvLib := {|
  StringToFixed64 := fun s => inl (shift_or (Hex2Bytes s));
  Fixed64_String := fun x => hex_encode (be 8 x);
  Uint256FromHexString := fun s => inl (Hex2Bytes s);
  HexStringToBytes := fun s => inl (Hex2Bytes s);
  hasSpvService := true;
  GetTransaction := fun _ => inl None;
  HaveRetSideChainDepositCoinTx := fun _ => false;
  hasClient := true;
  client_StorageAt := fun _ => inl zero_hash;
  client_CurrentBlockNumber := inl 100;
  client_EstimateGas := fun _ _ => inl 21000;
  client_SendPublicTransaction := fun _ => nil_err;
  hasPbftEngine := true;
  GetBlockByHeight := fun _ => None;
  ConfigProducers := [];
  GetProducersAt := fun _ => inl ([], 0)
|}.

Lemma digit_hex d : 0 <= d < 16 -> isHexCharacter (hex_digit d) = true.
Proof.
  intros Hd. assert (HF : Forall (fun d => isHexCharacter (hex_digit d) = true) (seqZ 0 16))
    by (apply (bool_decide_unpack _); by vm_compute).
  rewrite Forall_forall in HF. apply HF, elem_of_seqZ. lia.
Qed.

Lemma encode_all_hex b : wf_bytes b -> all_hex (hex_encode b) = true.
Proof. induction 1 as [|x b Hx _ IH]; [done|]. cbn in *. by rewrite !digit_hex, IH by div_lia. Qed.

#[export] Instance laws : SpvLaws.
Proof.
  split.
  - intros x Hx. cbn -[be]. rewrite Hex2Bytes_encode by apply be_wf. rewrite shift_or_be by lia. by rewrite Z.mod_small by lia.
  - intros x. apply hex_no_comma, encode_all_hex, be_wf.
Qed.

Definition service (sending : bool) : Spv := {|
  spvTransactiondb := Some ∅; spv_failedTxList := ∅; spvTxhash := EmptyString; candSend := sending;
  SelfIsProducer := true; spv_sent := [] |}.

Definition small : SmallTxs := {|
  smallCrossTxCountMap := ∅; small_verifiedArbiter := ∅; smallCrossTxMsgMap := ∅; smallCrossTxDb := ∅; posted := [] |}.

Definition payload : CrossChainOutput := {|
  op_TargetAddress := "0x" +:+ hex_encode (replicate 20 17); op_TargetAmount := 900; op_TargetData := [109; 101]; op_Validate := nil_err |}.

Definition tx : ElaTx := {|
  tx_Hash := hash; tx_TransferCrossChain := true; tx_PayloadVersion := 1;
  tx_Outputs := [{| out_Value := 50; out_CrossChain := false; out_Payload := None |};
                 {| out_Value := 1000; out_CrossChain := true; out_Payload := Some payload |}];
  tx_CrossChainAmounts := []; tx_CrossChainAddresses := [] |}.

Definition ready : Spv := (service true) <| spvTransactiondb := Some (stored hash [(1000, payload)] ∅) |>.

Lemma no_numbers db :
  GetUnTransactionNum db UnTransactionIndex = missingNumber -> GetUnTransactionNum db UnTransactionSeek = missingNumber ->
  queue_wf db /\ number db UnTransactionIndex = 1 /\ queue db = [].
Proof.
  intros HI HS. assert (EI : number db UnTransactionIndex = 1) by (unfold number; by rewrite HI).
  assert (ES : number db UnTransactionSeek = 1) by (unfold number; by rewrite HS).
  split_and!; [split; rewrite ?EI, ?ES; unfold missingNumber; lia|done|]. unfold queue. by rewrite EI, ES.
Qed.

Lemma empty_queued sending : queued (service sending) 1 [].
Proof. exists ∅. split; [done|]. by apply no_numbers. Qed.

Lemma ready_queued : queued ready 1 [].
Proof. eexists. split; [reflexivity|]. by apply no_numbers; vm_compute. Qed.

Lemma outputs_ok : Forall deposit_ok [(1000, payload)].
Proof. repeat constructor; cbn; try lia; by vm_compute. Qed.
End ToySpv.

#[local] Existing Instance Toy.lib.
#[local] Existing Instance ToyCodec.codec.
#[local] Existing Instance ToyCodec.codec_laws.
#[local] Existing Instance list_range_order.
#[local] Existing Instance ToySpv.lib.
#[local] Existing Instance ToySpv.laws.

Lemma Notify_roundtrip_witness :
  exists s', listener_Notify ToySpv.small 7 ToySpv.tx (ToySpv.service false) = Some s' /\ queued s' 2 [ToySpv.hash].
Proof.
  destruct (Notify_roundtrip ToySpv.small 7 ToySpv.tx [(1000, ToySpv.payload)] (ToySpv.service false) 1 [])
    as (s' & E & _ & Hq & _); [by vm_compute|by vm_compute|by vm_compute|by vm_compute|done|
      exact ToySpv.outputs_ok|apply ToySpv.empty_queued|by vm_compute|done|by vm_compute|by vm_compute|by vm_compute|].
  by exists s'.
Defined.

Lemma OnTx2Failed_recorded_witness :
  exists s', OnTx2Failed ToySpv.hash (ToySpv.service false) = Some s' /\ GetFailedRechargeTxs 106 s' = [ToySpv.hash].
Proof.
  destruct (OnTx2Failed_recorded ToySpv.hash (ToySpv.service false) ∅ 100) as (s' & E & _ & _ & _ & Hr & _);
    [by vm_compute|done|by exists zero_hash|done|lia|by vm_compute|done|by vm_compute| |by exists s'].
  split; [by vm_compute|]. repeat constructor. by vm_compute.
Defined.

Lemma sublist_single {A B} (R : A -> B -> Prop) l taken waiting x y :
  [x] = taken ++ waiting -> l `sublist_of` taken -> Forall2 R l [y] -> R x y.
Proof.
  intros Et Hl HF. inversion HF as [|e ? l' ? HR HF']; subst. inversion HF'; subst.
  destruct taken as [|? [|]]; [by apply sublist_nil_r in Hl| |done]. injection Et as <- _.
  inversion Hl as [| |? ? ? Hl2]; subst; [done|]. by apply sublist_nil_r in Hl2.
Qed.

Lemma queue_sends_in_order_witness :
  exists s' msg s1,
    fold_option (spv_event ToySpv.small 7) ToySpv.ready [EvQueue ("0x" +:+ ToySpv.hash); EvIterate; EvIterate] = Some s' /\
    spv_sent s' = [msg] /\ sent_for ToySpv.small s1 ToySpv.hash msg.
Proof.
  pose (evs := [EvQueue ("0x" +:+ ToySpv.hash); EvIterate; EvIterate]).
  pose (msg := {| msg_From := 7; msg_Gas := 21000; msg_Data := replicate 32 171; msg_GasPrice := Z.quot (100 * rate) 21000 |}).
  assert (Em : spv_sent <$> fold_option (spv_event ToySpv.small 7) ToySpv.ready evs = Some [msg]) by by vm_compute.
  apply fmap_Some in Em as (s' & E & Em).
  destruct (queue_sends_in_order ToySpv.small 7 ToySpv.ready 1 evs s' ToySpv.ready_queued eq_refl ltac:(by vm_compute) E)
    as (n' & taken & waiting & l & Et & _ & Hl & HF).
  assert (He : enqueued evs = [ToySpv.hash]) by by vm_compute. rewrite He in Et. rewrite <- Em in HF.
  destruct (sublist_single _ _ _ _ _ _ Et Hl HF) as [s1 Hs]. exists s', msg, s1. rewrite <- Em. exact (conj E (conj eq_refl Hs)).
Defined.
