(* ===== verification/Evm.v ===== *)
(** * [core/vm/evm.go]: calls and contract creation

    [Call] carries value to an account and runs its code; called with the zero
    address it also executes the chain's two cross-chain operations, crediting a
    deposit of the main chain and refunding a failed withdrawal.  The other calls
    and [create] follow the same pattern: take a snapshot, run, and revert to the
    snapshot on an error.

    The byte-code interpreter and the precompiled contracts are parameters here;
    the file [Interpreter] closes the knot.  What the calls rely on of a run is that
    it acts on the [StateDB] through its methods, nested calls included.  Tracing
    is not modelled; an error is its message; a panic is [None]. *)
From S2P Require Import Prelude Ela Messages Rlp Header Common AccessList StateDB StateSpec StateRefine Withdraw SmallCross Recharge.

(** ** Addresses and errors *)

(** [Address.Hex]: the checksummed hexadecimal string of the 20 bytes. *)
Definition upper_if (b : bool) (c : Ascii.ascii) : Ascii.ascii :=
  let n := Ascii.N_of_ascii c in
  if ((57 <? Z.of_N n) && b)%bool then Ascii.ascii_of_N (n - 32) else c.

Fixpoint checksum (i : nat) (hash : bytes) (s : string) : string :=
  match s with
  | EmptyString => EmptyString
  | String c s =>
      let b := default 0 (hash !! (i / 2)%nat) in
      let nibble := if (i mod 2 =? 0)%nat then Z.shiftr b 4 else Z.land b 15 in
      String (upper_if (7 <? nibble) c) (checksum (S i) hash s)
  end.

Definition address_bytes (a : Z) : bytes := be 20 a.

Definition Address_Hex `{!Keccak} (a : Z) : string :=
  let unchecksummed := hex_encode (address_bytes a) in
  "0x" +:+ checksum 0 (be 32 (Keccak256 (string_bytes unchecksummed))) unchecksummed.

Definition CreateAddress `{!Keccak} (b nonce : Z) : Z :=
  BytesToAddress (drop 12 (be 32 (Keccak256 (EncodeToBytes (Lst [Str (address_bytes b); Str (big_Bytes nonce)]))))).

Definition CreateAddress2 `{!Keccak} (b : Z) (salt inithash : bytes) : Z :=
  BytesToAddress (drop 12 (be 32 (Keccak256 ([255] ++ address_bytes b ++ salt ++ inithash)))).

Definition BigToHash (b : Z) : bytes := BytesToHash (big_Bytes (Z.abs b)).

Definition ErrOutOfGas : string := "out of gas".
Definition ErrCodeStoreOutOfGas : string := "contract creation code storage out of gas".
Definition ErrDepth : string := "max call depth exceeded".
Definition ErrInsufficientBalance : string := "insufficient balance for transfer".
Definition ErrContractAddressCollision : string := "contract address collision".
Definition ErrWithdawrefundCallFailed : string := "refund withdraw tx call failed".
Definition ErrExecutionReverted : string := "execution reverted".
Definition ErrMaxCodeSizeExceeded : string := "max code size exceeded".
Definition ErrInvalidCode : string := "invalid code: must not begin with 0xef".
Definition ErrNonceUintOverflow : string := "nonce uint64 overflow".

Definition CallCreateDepth : Z := 1024.
Definition MaxCodeSize : Z := 24576.
Definition CreateDataGas : Z := 200.

(** ** Contracts *)

(** A caller: an account, or a running contract with the caller and the value it
    was called with. *)
Inductive ContractRef := AccountRef (a : Z) | RunningContract (self callerAddress value : Z).

Definition ref_Address (r : ContractRef) : Z := match r with AccountRef a => a | RunningContract self _ _ => self end.

Record Contract := {
  CallerAddress : Z; contract_self : Z; contract_value : Z; contract_Gas : Z;
  contract_Code : bytes; contract_CodeHash : bytes; CodeAddr : Z
}.

#[export] Instance Contract_eta : Eta Contract := fun c => {|
  CallerAddress := CallerAddress c; contract_self := contract_self c; contract_value := contract_value c;
  contract_Gas := contract_Gas c; contract_Code := contract_Code c; contract_CodeHash := contract_CodeHash c;
  CodeAddr := CodeAddr c
|}.

(** Go's [NewContract] followed by [SetCallCode]. *)
Definition NewContract (caller : ContractRef) (object value gas : Z) (addr : Z) (hash code : bytes) : Contract :=
  {| CallerAddress := ref_Address caller; contract_self := object; contract_value := value; contract_Gas := gas;
     contract_Code := code; contract_CodeHash := hash; CodeAddr := addr |}.

(** The type assertion on the caller panics for an account. *)
Definition AsDelegate (caller : ContractRef) (c : Contract) : option Contract :=
  match caller with
  | AccountRef _ => None
  | RunningContract _ callerAddress value => Some (c <| CallerAddress := callerAddress |> <| contract_value := value |>)
  end.

Definition UseGas (gas : Z) (c : Contract) : bool * Contract :=
  if contract_Gas c <? gas then (false, c) else (true, c <| contract_Gas := contract_Gas c - gas |>).

(** [None] is a panic of the contract. *)
Record PrecompiledContract := { RequiredGas : bytes -> Z; precompiled_Run : bytes -> option (bytes * error) }.

Definition RunPrecompiledContract (p : PrecompiledContract) (input : bytes) (suppliedGas : Z) : option (bytes * Z * error) :=
  let gasCost := RequiredGas p input in
  if suppliedGas <? gasCost then Some ([], 0, New ErrOutOfGas)
  else '(output, err) ← precompiled_Run p input; Some (output, suppliedGas - gasCost, err).

(** ** State and environment *)
Record Vm := { vm_state : StateDB; vm_withdraw : Withdraw }.

#[export] Instance Vm_eta : Eta Vm := fun v => {| vm_state := vm_state v; vm_withdraw := vm_withdraw v |}.

Class EvmEnv := {
  precompile : Z -> option PrecompiledContract;
  (** the returned bytes, the gas left, the error and the state *)
  interpreter_Run : Contract -> bytes -> bool -> Vm -> option (bytes * Z * error * Vm);
  (** the rules of the block *)
  IsHomestead : bool; IsEIP158 : bool; IsBerlin : bool; IsLondon : bool;
  (** the chain's configuration, the block and the depth of the call *)
  BlackContractAddr : string;
  evm_BlockNumber : Z;
  evm_depth : Z;
  (** [withdrawfailedtx]: the client, the arbiters, and what the receipt of a
      withdrawal says of its sender and value *)
  withdraw_client : option Client;
  withdraw_arbiters : (list string * Z) + string;
  GetWithdrawTxValue : string -> (string * Z) + string;
  GetRefundEventHash : bytes
}.

(** The topic of the event of a credited deposit. *)
Definition RechargeEventHash : bytes := HexToHash "0x09f15c376272c265d7fcb47bf57d8f84a928195e6ea156d12f5a3cd05b8fed5a".
#[global] Arguments RechargeEventHash : simpl never.

Section evm.
Context `{!Keccak} `{!Database} `{!ElaLib} `{!Codec} `{!SpvLib} `{!EvmEnv}.

(** [core/evm.go] *)
Definition CanTransfer (addr amount : Z) (s : StateDB) : bool := amount <=? GetBalance addr s.
Definition Transfer (sender recipient amount : Z) (s : StateDB) : StateDB :=
  AddBalance recipient amount (SubBalance sender amount s).

Definition isPrecompile (addr : Z) : bool := match precompile addr with Some _ => true | None => false end.

Definition on_state (f : StateDB -> StateDB) (vm : Vm) : Vm := vm <| vm_state := f (vm_state vm) |>.

(** [run(evm, contract, input, readOnly)] *)
Definition interpret (c : Contract) (input : bytes) (readOnly : bool) (vm : Vm) : option (bytes * Z * error * Vm) :=
  interpreter_Run c input readOnly vm.

(** The end of every call: an error reverts to the snapshot and takes the gas,
    unless the code asked for the revert. *)
Definition settle (snapshot : Z) (r : bytes * Z * error * Vm) : option (bytes * Z * error * Vm) :=
  let '(ret, gas, err, vm) := r in
  match err with
  | None => Some r
  | Some e =>
      s ← RevertToSnapshot snapshot (vm_state vm);
      Some (ret, if bool_decide (e = ErrExecutionReverted) then gas else 0, err, vm <| vm_state := s |>)
  end.

(** *** Call *)

(** What [Call] goes on with after its cross-chain part: the account whose code
    runs, the recipient, the value and the input. *)
Record CallPlan := { plan_addr : Z; plan_to : Z; plan_value : Z; plan_input : bytes }.

Definition event (addr : Z) (topics : list bytes) : Log :=
  {| log_Address := addr; log_Topics := topics; log_Data := []; log_BlockNumber := u64 evm_BlockNumber;
     log_TxHash := zero_hash; log_TxIndex := 0; log_BlockHash := zero_hash; log_Index := 0 |}.

(** The refund of a failed withdrawal. *)
Definition refund_withdrawal (caller : Z) (txid : string) (input : bytes) (vm : Vm) : option ((CallPlan + string) * Vm) :=
  let completeTxHash := GetState 0 (HexToHash txid) (vm_state vm) in
  let res := VerifySignatures withdraw_client withdraw_arbiters input (vm_withdraw vm) in
  if bytes_Equal completeTxHash zero_hash && res then
    match GetWithdrawTxValue txid with
    | inr err => Some (inr err, vm)
    | inl (from, amount) =>
        let l := event (HexToAddress BlackContractAddr)
          [GetRefundEventHash; HexToHash BlackContractAddr; HexToHash (Address_Hex caller); HexToHash from; BigToHash amount] in
        let s := AddBalance caller amount (AddLog l (vm_state vm)) in
        w ← OnProcessFaildWithdrawTx txid (vm_withdraw vm);
        Some (inl {| plan_addr := 0; plan_to := HexToAddress from; plan_value := amount; plan_input := input |},
              {| vm_state := s; vm_withdraw := w |})
    end
  else Some (inr ErrWithdawrefundCallFailed, vm).

(** The main-chain transaction a deposit's input names: its hash, or the small
    deposit itself. *)
Definition deposit_hash (input : bytes) : option string :=
  if zlen input =? 32 then Some (hash_String input)
  else if 32 <? zlen input then
    let '(rawTxid, _, _, _) := IsSmallCrossTxByData input in
    if (0 <? String.length rawTxid)%nat then Some rawTxid else None
  else None.

(** The credit of one output of a deposit. *)
Definition credit_deposit (caller : Z) (recharge : RechargeData) (txHash : string) (input : bytes) (value : Z) (vm : Vm)
    : (CallPlan + string) * Vm :=
  let completeTxHash := GetState 0 (HexToHash txHash) (vm_state vm) in
  if negb (bytes_Equal completeTxHash zero_hash) then (inr ErrMainTxHashPresence, vm)
  else if negb (TargetAddress recharge =? 0) && (Fee recharge <=? TargetAmount recharge) then
    let value := TargetAmount recharge - Fee recharge in
    let l := event 0
      [RechargeEventHash; HexToHash (Address_Hex caller); HexToHash txHash; HexToHash (Address_Hex (TargetAddress recharge));
       BigToHash value] in
    (inl {| plan_addr := TargetAddress recharge; plan_to := TargetAddress recharge; plan_value := value;
            plan_input := TargetData recharge |},
     on_state (fun s => AddBalance caller value (AddLog l s)) vm)
  else (inl {| plan_addr := TargetAddress recharge; plan_to := 0; plan_value := value; plan_input := input |}, vm).

(** The cross-chain part of [Call]: the plan, or the error to return at once. *)
Definition call_plan (caller addr : Z) (input : bytes) (value : Z) (recharge : option RechargeData) (vm : Vm)
    : option ((CallPlan + string) * Vm) :=
  let plain := (inl {| plan_addr := addr; plan_to := addr; plan_value := value; plan_input := input |}, vm) in
  if negb (addr =? 0) then Some plain
  else
    '(isWithdrawTx, txid) ← IsWithdawFailedTx withdraw_client input BlackContractAddr;
    if (isWithdrawTx : bool) then refund_withdrawal caller txid input vm
    else match recharge with
    | None => Some plain
    | Some recharge =>
        match deposit_hash input with
        | None => Some plain
        | Some txHash => Some (credit_deposit caller recharge txHash input value vm)
        end
    end.

(** The code of an account, or the precompiled contract at its address. *)
Definition run_account (caller : ContractRef) (p : CallPlan) (gas : Z) (vm : Vm) : option (bytes * Z * error * Vm) :=
  let addr := plan_addr p in
  match precompile addr with
  | Some c => '(ret, gas, err) ← RunPrecompiledContract c (plan_input p) gas; Some (ret, gas, err, vm)
  | None =>
      let code := GetCode addr (vm_state vm) in
      if zlen code =? 0 then Some ([], gas, nil_err, vm)
      else interpret (NewContract caller addr (plan_value p) gas addr (GetCodeHash addr (vm_state vm)) code)
             (plan_input p) false vm
  end.

(** Value sent to the black contract leaves the chain. *)
Definition burn (p : CallPlan) (r : bytes * Z * error * Vm) : bytes * Z * error * Vm :=
  let '(ret, gas, err, vm) := r in
  if bool_decide (Address_Hex (plan_to p) = BlackContractAddr) && negb (failed err)
  then (ret, gas, err, on_state (SubBalance (plan_to p) (plan_value p)) vm) else r.

Definition call_execute (caller : ContractRef) (snapshot gas : Z) (p : CallPlan) (vm : Vm) : option (bytes * Z * error * Vm) :=
  let addr := plan_addr p in
  if negb (plan_value p =? 0) && negb (CanTransfer (ref_Address caller) (plan_value p) (vm_state vm))
  then Some ([], gas, New ErrInsufficientBalance, vm)
  else if negb (Exist addr (vm_state vm)) && negb (isPrecompile addr) && IsEIP158 && (plan_value p =? 0)
  then Some ([], gas, nil_err, vm)
  else
    let vm := if Exist addr (vm_state vm) then vm else on_state (CreateAccount addr) vm in
    let vm := on_state (Transfer (ref_Address caller) (plan_to p) (plan_value p)) vm in
    r ← run_account caller p gas vm;
    settle snapshot (burn p r).

Definition Call (caller : ContractRef) (addr : Z) (input : bytes) (gas value : Z) (recharge : option RechargeData) (vm : Vm)
    : option (bytes * Z * error * Vm) :=
  if CallCreateDepth <? evm_depth then Some ([], gas, New ErrDepth, vm)
  else
    let (snapshot, s) := Snapshot (vm_state vm) in
    '(plan, vm) ← call_plan (ref_Address caller) addr input value recharge (vm <| vm_state := s |>);
    match plan with
    | inr err => Some ([], gas, New err, vm)
    | inl p => call_execute caller snapshot gas p vm
    end.

(** *** The other calls *)

(** A precompiled contract, or the code at [addr] run as [contract]. *)
Definition run_code (addr : Z) (contract : Contract) (input : bytes) (gas : Z) (readOnly : bool) (vm : Vm)
    : option (bytes * Z * error * Vm) :=
  match precompile addr with
  | Some c => '(ret, gas, err) ← RunPrecompiledContract c input gas; Some (ret, gas, err, vm)
  | None => interpret contract input readOnly vm
  end.

Definition code_contract (caller : ContractRef) (object value gas addr : Z) (s : StateDB) : Contract :=
  NewContract caller object value gas addr (GetCodeHash addr s) (GetCode addr s).

Definition CallCode (caller : ContractRef) (addr : Z) (input : bytes) (gas value : Z) (vm : Vm)
    : option (bytes * Z * error * Vm) :=
  if CallCreateDepth <? evm_depth then Some ([], gas, New ErrDepth, vm)
  else if negb (CanTransfer (ref_Address caller) value (vm_state vm)) then Some ([], gas, New ErrInsufficientBalance, vm)
  else
    let (snapshot, s) := Snapshot (vm_state vm) in
    r ← run_code addr (code_contract caller (ref_Address caller) value gas addr s) input gas false (vm <| vm_state := s |>);
    settle snapshot r.

Definition DelegateCall (caller : ContractRef) (addr : Z) (input : bytes) (gas : Z) (vm : Vm)
    : option (bytes * Z * error * Vm) :=
  if CallCreateDepth <? evm_depth then Some ([], gas, New ErrDepth, vm)
  else
    let (snapshot, s) := Snapshot (vm_state vm) in
    let vm := vm <| vm_state := s |> in
    r ← (if isPrecompile addr then run_code addr (code_contract caller (ref_Address caller) 0 gas addr s) input gas false vm
         else
           c ← AsDelegate caller (code_contract caller (ref_Address caller) 0 gas addr s);
           run_code addr c input gas false vm);
    settle snapshot r.

Definition StaticCall (caller : ContractRef) (addr : Z) (input : bytes) (gas : Z) (vm : Vm)
    : option (bytes * Z * error * Vm) :=
  if CallCreateDepth <? evm_depth then Some ([], gas, New ErrDepth, vm)
  else
    let (snapshot, s) := Snapshot (vm_state vm) in
    let s := AddBalance addr 0 s in
    r ← run_code addr (code_contract caller addr 0 gas addr s) input gas true (vm <| vm_state := s |>);
    settle snapshot r.

(** *** Creation *)

(** The checks on the deployed code and its storage: the error and the gas
    left. *)
Definition deploy (address : Z) (r : bytes * Z * error * Vm) : bytes * Z * error * Vm :=
  let '(ret, gas, err, vm) := r in
  let err := if negb (failed err) && IsEIP158 && (MaxCodeSize <? zlen ret) then New ErrMaxCodeSizeExceeded else err in
  let err := if negb (failed err) && bool_decide (List.hd_error ret = Some 239) && IsLondon then New ErrInvalidCode else err in
  if failed err then (ret, gas, err, vm)
  else
    let createDataGas := u64 (zlen ret * CreateDataGas) in
    if gas <? createDataGas then (ret, gas, New ErrCodeStoreOutOfGas, vm)
    else (ret, gas - createDataGas, nil_err, on_state (SetCode address ret) vm).

(** Before Homestead, code that could not be stored does not revert. *)
Definition settle_create (snapshot : Z) (r : bytes * Z * error * Vm) : option (bytes * Z * error * Vm) :=
  let '(_, _, err, _) := r in
  if IsHomestead || negb (bool_decide (err = New ErrCodeStoreOutOfGas)) then settle snapshot r else Some r.

Definition create (caller : ContractRef) (code codeHash : bytes) (gas value address : Z) (vm : Vm)
    : option (bytes * Z * Z * error * Vm) :=
  let addr := ref_Address caller in
  if CallCreateDepth <? evm_depth then Some ([], 0, gas, New ErrDepth, vm)
  else if negb (CanTransfer addr value (vm_state vm)) then Some ([], 0, gas, New ErrInsufficientBalance, vm)
  else
    let nonce := GetNonce addr (vm_state vm) in
    if u64 (nonce + 1) <? nonce then Some ([], 0, gas, New ErrNonceUintOverflow, vm)
    else
      let s := SetNonce addr (nonce + 1) (vm_state vm) in
      let s := if IsBerlin then AddAddressToAccessList address s else s in
      let contractHash := GetCodeHash address s in
      if negb (GetNonce address s =? 0) ||
         (negb (bytes_Equal contractHash zero_hash) && negb (bytes_Equal contractHash emptyCodeHash))
      then Some ([], 0, 0, New ErrContractAddressCollision, vm <| vm_state := s |>)
      else
        let (snapshot, s) := Snapshot s in
        let s := CreateAccount address s in
        let s := if IsEIP158 then SetNonce address 1 s else s in
        let s := Transfer addr address value s in
        let contract := NewContract caller address value gas address codeHash code in
        r ← interpret contract [] false (vm <| vm_state := s |>);
        '(ret, gas, err, vm) ← settle_create snapshot (deploy address r);
        Some (ret, address, gas, err, vm).

(** The hash of the code is computed only for [Create2]. *)
Definition Create (caller : ContractRef) (code : bytes) (gas value : Z) (vm : Vm) : option (bytes * Z * Z * error * Vm) :=
  create caller code zero_hash gas value (CreateAddress (ref_Address caller) (GetNonce (ref_Address caller) (vm_state vm))) vm.

Definition Create2 (caller : ContractRef) (code : bytes) (gas endowment : Z) (salt : bytes) (vm : Vm)
    : option (bytes * Z * Z * error * Vm) :=
  let hash := Keccak256Hash code in
  create caller code hash gas endowment (CreateAddress2 (ref_Address caller) salt hash) vm.
End evm.

(** ** Acting on the state

    [acts s s']: [s'] is reached from [s] by operations of [StateDB] that revert
    only to snapshots taken since [s]. *)
Section acting.
Context `{!Keccak} `{!Database}.

(** The refund counters of a world and its saved copies are in range. *)
Definition spec_ok (S : Spec) : Prop := is_u64 (w_refund (cur S)) /\ Forall (fun x => is_u64 (w_refund x.2)) (saved S).

Definition good (s : StateDB) : Prop := exists S, sim s S /\ spec_ok S.

Definition acts (s s' : StateDB) : Prop :=
  exists ops, run exec ops s = Some s' /\ Forall (within (nextRevisionId s)) ops.

Lemma sexec_next o S S' : sexec o S = Some S' -> next S <= next S'.
Proof.
  intros E. destruct o; cbn [sexec] in E;
    try (apply bind_Some in E as (w & _ & E); apply (inj Some) in E as <-; apply Z.le_refl).
  apply (inj Some) in E as <-. cbn [next]. lia.
Qed.

Lemma wexec_refund o w w' : wexec o w = Some w' -> is_u64 (w_refund w) -> is_u64 (w_refund w').
Proof.
  intros E Hr. destruct o; cbn [wexec] in E; try (apply (inj Some) in E as <-; exact Hr).
  - destruct (w_transient w); [apply (inj Some) in E as <-; exact Hr|]. destruct (bytes_Equal _ _); [|done].
    apply (inj Some) in E as <-. exact Hr.
  - apply (inj Some) in E as <-. apply u64_range.
  - destruct (_ <? _); [done|]. apply (inj Some) in E as <-. apply u64_range.
  - destruct (AddSlot _ _ _) as [[[? ?] ?]|]; [|done]. apply (inj Some) in E as <-. exact Hr.
Qed.

Lemma restore_ok (P : Z * World -> Prop) id l r : restore id l = Some r -> Forall P l -> Forall P r.1 /\ P (id, r.2).
Proof.
  revert r. induction l as [|[i w] l IH]; intros r E HF; cbn in E; [done|]. apply Forall_cons_1 in HF as [Hw HF].
  destruct (Z.eqb_spec i id) as [->|]; [by injection E as <-|]. apply bind_Some in E as (r' & E & [= <-]).
  destruct (IH r' E HF) as [? ?]. cbn. split; [by constructor|done].
Qed.

Lemma sexec_ok o S S' : sexec o S = Some S' -> spec_ok S -> spec_ok S'.
Proof.
  intros E [H1' H2']. destruct (is_change o) eqn:Ho.
  - assert (E' : (w ← wexec o (cur S); Some (S <| cur := w |>)) = Some S') by (by destruct o).
    apply bind_Some in E' as (w & Ew & E'). apply (inj Some) in E' as <-. split; [by eapply wexec_refund|done].
  - destruct o; try done; cbn [sexec] in E.
    + apply (inj Some) in E as <-. split; [done|]. cbn. apply Forall_app. split; [done|]. by constructor.
    + apply bind_Some in E as (r & Er & E). apply (inj Some) in E as <-.
      apply (restore_ok (fun x => is_u64 (w_refund x.2))) in Er as [? ?]; [|done]. by split.
Qed.

Lemma acts_refl s : acts s s.
Proof. exists []. by split. Qed.

Lemma acts_sim s s' S : sim s S -> acts s s' -> exists S', sim s' S' /\ next S <= next S' /\ (spec_ok S -> spec_ok S').
Proof.
  intros Hs (ops & E & _). revert s S Hs E. induction ops as [|o ops IH]; intros s S Hs E; cbn in E.
  - injection E as <-. by exists S.
  - destruct (exec o s) as [s1|] eqn:E1; [|done]. pose proof (sim_exec o s S Hs) as Ho. rewrite E1 in Ho.
    destruct (sexec o S) as [S1|] eqn:ES; [|done]. destruct (IH s1 S1 Ho E) as (S' & ? & ? & ?). exists S'.
    split; [done|]. split; [apply sexec_next in ES; lia|]. intros HS. by eauto using sexec_ok.
Qed.

Lemma acts_good s s' : good s -> acts s s' -> good s'.
Proof. intros (S & HS & Hok) Ha. destruct (acts_sim s s' S HS Ha) as (S' & ? & _ & ?). exists S'. auto. Qed.

Lemma acts_trans s1 s2 s3 : good s1 -> acts s1 s2 -> acts s2 s3 -> acts s1 s3.
Proof.
  intros (S & HS & _) A1 A2. destruct (acts_sim s1 s2 S HS A1) as (S2 & HS2 & Hn & _).
  destruct A1 as (o1 & E1 & W1), A2 as (o2 & E2 & W2). exists (o1 ++ o2). rewrite run_app, E1. split; [done|].
  apply Forall_app. split; [done|]. eapply Forall_impl; [exact W2|]. intros o Ho.
  rewrite (sim_next _ _ HS), (sim_next _ _ HS2) in *. destruct o; cbn in *; auto. lia.
Qed.

Lemma acts_op o s s' : is_change o = true -> exec o s = Some s' -> acts s s'.
Proof. intros Ho E. exists [o]. cbn. rewrite E. split; [done|]. repeat constructor. by destruct o. Qed.

Lemma acts_snapshot s s1 : acts (snd (Snapshot s)) s1 -> acts s s1.
Proof.
  intros (ops & E & W). exists (OSnapshot :: ops). split; [done|]. constructor; [done|].
  eapply Forall_impl; [exact W|]. intros o Ho. destruct o; cbn in *; auto. lia.
Qed.

(** Back at the snapshot the world is as it was. *)
Lemma acts_revert s s1 :
  good s -> acts (snd (Snapshot s)) s1 ->
  exists s2, RevertToSnapshot (nextRevisionId s) s1 = Some s2 /\ acts s s2 /\ world s2 ≡ world s.
Proof.
  intros (S & HS & _) (ops & E & W). destruct (revert_snapshot s S ops s1 HS W E) as (s2 & n & E2 & HS2).
  exists s2. split; [done|]. split.
  - exists (OSnapshot :: ops ++ [ORevert (nextRevisionId s)]). split.
    + change (run exec (ops ++ [ORevert (nextRevisionId s)]) (snd (Snapshot s)) = Some s2). rewrite run_app, E. cbn.
      by rewrite E2.
    + constructor; [done|]. apply Forall_app. split; [|repeat constructor; cbn; lia].
      eapply Forall_impl; [exact W|]. intros o Ho. destruct o; cbn in *; auto. lia.
  - rewrite (sim_world _ _ HS2), (sim_world _ _ HS). done.
Qed.

Lemma good_state s : good s -> state_ok s.
Proof. intros (S & HS & _). apply HS. Qed.

(** *** Reading after an operation *)
Definition w_balance (w : World) (a : Z) : Z := from_option v_balance 0 (w_account w a).

Lemma GetBalance_world s a : good s -> GetBalance a s = w_balance (world s) a.
Proof. intros Hs%good_state. apply (getters_world s a zero_hash Hs). Qed.

Lemma w_balance_proper w w' a : w ≡ w' -> w_balance w a = w_balance w' a.
Proof.
  intros (Ha & _). specialize (Ha a). unfold w_balance. destruct Ha as [v v' (E & _)|]; [|done]. cbn. by injection E.
Qed.

Lemma w_balance_object w a : v_balance (w_object a w) = w_balance w a.
Proof. unfold w_object, w_balance. by destruct (w_account w a). Qed.

Lemma w_balance_set w b v a : w_balance (w_set b v w) a = if a =? b then from_option v_balance 0 v else w_balance w a.
Proof. unfold w_balance, w_set. cbn. by destruct (a =? b). Qed.

Lemma w_balance_update w b f a :
  w_balance (w_update b f w) a = if a =? b then v_balance (f (w_object b w)) else w_balance w a.
Proof. apply w_balance_set. Qed.

Lemma AddBalance_acts b x s : acts s (AddBalance b x s).
Proof. by apply (acts_op (OAddBalance b x)). Qed.
Lemma SubBalance_acts b x s : acts s (SubBalance b x s).
Proof. by apply (acts_op (OSubBalance b x)). Qed.
Lemma AddLog_acts l s : acts s (AddLog l s).
Proof. by apply (acts_op (OAddLog l)). Qed.
Lemma CreateAccount_acts b s : acts s (CreateAccount b s).
Proof. by apply (acts_op (OCreateAccount b)). Qed.
Lemma SetNonce_acts b n s : acts s (SetNonce b n s).
Proof. by apply (acts_op (OSetNonce b n)). Qed.
Lemma SetCode_acts b c s : acts s (SetCode b c s).
Proof. by apply (acts_op (OSetCode b c)). Qed.
Lemma SetState_acts b k x s : acts s (SetState b k x s).
Proof. by apply (acts_op (OSetState b k x)). Qed.
Lemma AddAddress_acts b s : acts s (AddAddressToAccessList b s).
Proof. by apply (acts_op (OAddAddress b)). Qed.

Lemma AddBalance_balance b x s a :
  good s -> GetBalance a (AddBalance b x s) = GetBalance a s + if a =? b then x else 0.
Proof.
  intros Hs. rewrite !GetBalance_world by (done || by eapply acts_good, AddBalance_acts).
  destruct (AddBalance_spec b x s (good_state s Hs)) as [_ Hw]. rewrite (w_balance_proper _ _ a Hw), w_balance_update.
  destruct (Z.eqb_spec a b) as [->|]; [rewrite <- w_balance_object; reflexivity|lia].
Qed.

Lemma SubBalance_balance b x s a :
  good s -> GetBalance a (SubBalance b x s) = GetBalance a s - if a =? b then x else 0.
Proof.
  intros Hs. rewrite !GetBalance_world by (done || by eapply acts_good, SubBalance_acts).
  destruct (SubBalance_spec b x s (good_state s Hs)) as [_ Hw]. rewrite (w_balance_proper _ _ a Hw), w_balance_update.
  destruct (Z.eqb_spec a b) as [->|]; [rewrite <- w_balance_object; reflexivity|lia].
Qed.

Lemma AddLog_balance l s a : good s -> GetBalance a (AddLog l s) = GetBalance a s.
Proof. intros Hs. by rewrite !GetBalance_world by (done || by eapply acts_good, AddLog_acts). Qed.

Lemma CreateAccount_balance b s a : good s -> GetBalance a (CreateAccount b s) = GetBalance a s.
Proof.
  intros Hs. rewrite !GetBalance_world by (done || by eapply acts_good, CreateAccount_acts).
  destruct (CreateAccount_spec b s (good_state s Hs)) as [_ Hw]. rewrite (w_balance_proper _ _ a Hw), w_balance_set.
  destruct (Z.eqb_spec a b) as [->|]; [|done]. rewrite <- w_balance_object. reflexivity.
Qed.

Lemma good_Snapshot s : good s -> good (snd (Snapshot s)).
Proof.
  intros (S & HS & Ok1 & Ok2). eexists. split; [by apply sim_Snapshot|]. split; [done|]. cbn. apply Forall_app. by split; [|constructor].
Qed.

Lemma good_refund s : good s -> is_u64 (GetRefund s).
Proof.
  intros (S & HS & Hok & _). destruct (sim_world _ _ HS) as (_ & _ & E). injection E as E _ _ _ _ _ _ _. unfold GetRefund.
  cbn in E. by rewrite E.
Qed.

Lemma Snapshot_balance s a : good s -> GetBalance a (snd (Snapshot s)) = GetBalance a s.
Proof. intros Hs. by rewrite !GetBalance_world by (done || by apply good_Snapshot). Qed.
End acting.

#[export] Hint Resolve acts_refl AddBalance_acts SubBalance_acts AddLog_acts CreateAccount_acts SetNonce_acts SetCode_acts
  SetState_acts AddAddress_acts good_Snapshot acts_good : evm.

(** ** What balances and logs leave alone

    The database opens the empty root as an empty trie. *)
Class DatabaseLaws `{!Database} := { open_emptyRoot : OpenStorageTrie emptyRoot = ∅ }.

Section facts.
Context `{!Keccak} `{!Database} `{!DatabaseLaws}.

(** Nonce, a storage slot, code and destruction of an account. *)
Definition view_facts (k : bytes) (v : AccountView) : Z * bytes * bytes * bool :=
  (v_nonce v, v_storage v k, default [] (v_code v), v_suicided v).
Definition w_facts (w : World) (a : Z) (k : bytes) : Z * bytes * bytes * bool :=
  from_option (view_facts k) (0, zero_hash, [], false) (w_account w a).
Definition facts (s : StateDB) (a : Z) (k : bytes) : Z * bytes * bytes * bool :=
  (GetNonce a s, GetState a k s, GetCode a s, HasSuicided a s).

Lemma facts_world s a k : good s -> facts s a k = w_facts (world s) a k.
Proof.
  intros Hs%good_state. destruct (getters_world s a k Hs) as (_ & E2 & E3 & _ & E4 & _ & _ & E5 & _).
  unfold facts, w_facts. rewrite E2, E3, E4, E5. by destruct (w_account (world s) a).
Qed.

Lemma w_facts_proper w w' a k : w ≡ w' -> w_facts w a k = w_facts w' a k.
Proof.
  intros (Ha & _). specialize (Ha a). unfold w_facts. destruct Ha as [v v' (E & Hs & _)|]; [|done]. cbn. unfold view_facts.
  injection E as -> _ _ -> _ ->. by rewrite Hs.
Qed.

Lemma new_view_facts k : view_facts k new_view = (0, zero_hash, [], false).
Proof.
  unfold view_facts, new_view, view_obj, storage_of, committed_of. cbn -[emptyRoot].
  replace (bytes_Equal zero_hash zero_hash) with true by by vm_compute. rewrite open_emptyRoot. cbn.
  unfold code_of. cbn. by rewrite (proj2 (bytes_Equal_spec _ _) eq_refl).
Qed.

Lemma w_facts_object w a k : view_facts k (w_object a w) = w_facts w a k.
Proof. unfold w_object, w_facts. destruct (w_account w a); [done|]. apply new_view_facts. Qed.

Lemma w_facts_set w b v a k :
  w_facts (w_set b v w) a k = if a =? b then from_option (view_facts k) (0, zero_hash, [], false) v else w_facts w a k.
Proof. unfold w_facts, w_set. cbn. by destruct (a =? b). Qed.

Lemma w_facts_update w b f a k :
  (forall v, view_facts k (f v) = view_facts k v) -> w_facts (w_update b f w) a k = w_facts w a k.
Proof.
  intros Hf. unfold w_update. rewrite w_facts_set. destruct (Z.eqb_spec a b) as [->|]; [|done]. cbn [from_option].
  by rewrite Hf, w_facts_object.
Qed.

Lemma AddBalance_facts b x s a k : good s -> facts (AddBalance b x s) a k = facts s a k.
Proof.
  intros Hs. rewrite !facts_world by (done || by eapply acts_good, AddBalance_acts).
  destruct (AddBalance_spec b x s (good_state s Hs)) as [_ Hw]. rewrite (w_facts_proper _ _ a k Hw). by apply w_facts_update.
Qed.

Lemma SubBalance_facts b x s a k : good s -> facts (SubBalance b x s) a k = facts s a k.
Proof.
  intros Hs. rewrite !facts_world by (done || by eapply acts_good, SubBalance_acts).
  destruct (SubBalance_spec b x s (good_state s Hs)) as [_ Hw]. rewrite (w_facts_proper _ _ a k Hw). by apply w_facts_update.
Qed.

Lemma AddLog_facts l s a k : good s -> facts (AddLog l s) a k = facts s a k.
Proof. intros Hs. by rewrite !facts_world by (done || by eapply acts_good, AddLog_acts). Qed.

Lemma Snapshot_facts s a k : good s -> facts (snd (Snapshot s)) a k = facts s a k.
Proof. intros Hs. by rewrite !facts_world by (done || by apply good_Snapshot). Qed.

Lemma CreateAccount_facts b s a k : good s -> Exist b s = false -> facts (CreateAccount b s) a k = facts s a k.
Proof.
  intros Hs He. rewrite !facts_world by (done || by eapply acts_good, CreateAccount_acts).
  destruct (getters_world s b k (good_state s Hs)) as (_ & _ & _ & _ & _ & _ & _ & _ & E). rewrite He in E.
  symmetry in E. apply bool_decide_eq_false in E. rewrite <- eq_None_not_Some in E.
  destruct (CreateAccount_spec b s (good_state s Hs)) as [_ Hw]. rewrite (w_facts_proper _ _ a k Hw), w_facts_set.
  destruct (Z.eqb_spec a b) as [->|]; [|done]. cbn [from_option]. unfold w_facts. rewrite E. apply new_view_facts.
Qed.

Lemma Transfer_facts c d x s a k : good s -> facts (Transfer c d x s) a k = facts s a k.
Proof.
  intros Hs. unfold Transfer. rewrite AddBalance_facts, SubBalance_facts by (done || by eapply acts_good, SubBalance_acts). done.
Qed.

Lemma Transfer_balance c d x s a :
  good s -> GetBalance a (Transfer c d x s) = GetBalance a s - (if a =? c then x else 0) + (if a =? d then x else 0).
Proof.
  intros Hs. unfold Transfer. rewrite AddBalance_balance, SubBalance_balance by (done || by eapply acts_good, SubBalance_acts). done.
Qed.
End facts.

(** ** The zero address

    Executed deposits and refunds are recorded in the storage of the zero address.
    Where [zone] holds, it has a nonce and no code: then no contract is created
    there and no code runs there, so running code leaves its nonce, storage and
    code alone.  With [zone] false nothing is said of it. *)
Class Zone `{!Database} := { zone : Prop; zone_db : zone -> DatabaseLaws }.

Section zone.
Context `{!Keccak} `{!Database} `{!Zone}.

Definition guarded (s : StateDB) : Prop := 0 < GetNonce 0 s /\ GetCode 0 s = [].
Definition zgood (s : StateDB) : Prop := good s /\ (zone -> guarded s).
Definition zacts (s s' : StateDB) : Prop := acts s s' /\ (zone -> forall k, facts s' 0 k = facts s 0 k).

Lemma guarded_facts s s' : (forall k, facts s' 0 k = facts s 0 k) -> guarded s -> guarded s'.
Proof. intros F. specialize (F zero_hash). injection F as E1 _ E3 _. unfold guarded. by rewrite E1, E3. Qed.

Lemma zgood_good s : zgood s -> good s.
Proof. by intros []. Qed.

Lemma zacts_refl s : zacts s s.
Proof. split; [apply acts_refl|done]. Qed.

Lemma zacts_good s s' : zgood s -> zacts s s' -> zgood s'.
Proof. intros [G Z] [A F]. split; [by eapply acts_good|]. intros Hz. by eapply guarded_facts, Z; [apply F|]. Qed.

Lemma zacts_trans s1 s2 s3 : zgood s1 -> zacts s1 s2 -> zacts s2 s3 -> zacts s1 s3.
Proof. intros [G _] [A1 F1] [A2 F2]. split; [by eapply acts_trans|]. intros Hz k. by rewrite F2, F1. Qed.

(** What an operation must not do in the zone. *)
Definition spares (o : op) (s : StateDB) : Prop :=
  match o with
  | OSetNonce a _ | OSetCode a _ | OSetState a _ _ | OSuicide a => a <> 0
  | OCreateAccount a => a <> 0 \/ Exist a s = false
  | _ => True
  end.

Lemma w_facts_elsewhere w b v a k : b <> a -> w_facts (w_set b v w) a k = w_facts w a k.
Proof. intros Hb. rewrite w_facts_set. by rewrite (proj2 (Z.eqb_neq _ _)) by congruence. Qed.

Lemma wexec_facts `{!DatabaseLaws} o w w' k :
  wexec o w = Some w' -> match o with OCreateAccount a => a <> 0 \/ w_account w a = None | OSetNonce a _ | OSetCode a _ | OSetState a _ _ | OSuicide a => a <> 0 | _ => True end ->
  w_facts w' 0 k = w_facts w 0 k.
Proof.
  intros E Ho. destruct o; cbn [wexec] in E; try (apply (inj Some) in E as <-; first [exact eq_refl|by apply w_facts_update|by apply w_facts_elsewhere]).
  - apply (inj Some) in E as <-. rewrite w_facts_set. destruct (Z.eqb_spec 0 a) as [<-|]; [|done]. destruct Ho as [|Ho]; [done|]. unfold w_facts. rewrite Ho. apply new_view_facts.
  - destruct (w_transient w); [by apply (inj Some) in E as <-|]. destruct (bytes_Equal _ _); [by apply (inj Some) in E as <-|done].
  - destruct (_ <? _); [done|]. by apply (inj Some) in E as <-.
  - destruct (AddSlot _ _ _) as [[[? ?] ?]|]; [by apply (inj Some) in E as <-|done].
Qed.

Lemma zacts_op o s s' : zgood s -> is_change o = true -> (zone -> spares o s) -> exec o s = Some s' -> zacts s s'.
Proof.
  intros [G _] Ho Hsp E. pose proof (acts_op o s s' Ho E) as A. split; [done|]. intros Hz k. pose proof (zone_db Hz) as HD. specialize (Hsp Hz).
  rewrite !facts_world by (done || by eapply acts_good). pose proof (good_state s G) as Hok. pose proof G as (S & HS & _).
  pose proof (exec_step o s Hok (sim_ok _ _ HS) Ho) as Hst. unfold step_ok in Hst. rewrite E in Hst. destruct (wexec o (world s)) as [w|] eqn:Ew; [|done].
  destruct Hst as (_ & Hw & _). rewrite (w_facts_proper _ _ 0 k Hw). eapply wexec_facts; [exact Ew|].
  destruct o; try done. destruct Hsp as [|He]; [by left|right]. destruct (getters_world s a k Hok) as (_ & _ & _ & _ & _ & _ & _ & _ & Ex).
  rewrite He in Ex. symmetry in Ex. apply bool_decide_eq_false in Ex. by rewrite <- eq_None_not_Some in Ex.
Qed.

Lemma AddBalance_zacts b x s : zgood s -> zacts s (AddBalance b x s).
Proof. intros G. by apply (zacts_op (OAddBalance b x)). Qed.
Lemma SubBalance_zacts b x s : zgood s -> zacts s (SubBalance b x s).
Proof. intros G. by apply (zacts_op (OSubBalance b x)). Qed.
Lemma AddLog_zacts l s : zgood s -> zacts s (AddLog l s).
Proof. intros G. by apply (zacts_op (OAddLog l)). Qed.
Lemma AddAddress_zacts b s : zgood s -> zacts s (AddAddressToAccessList b s).
Proof. intros G. by apply (zacts_op (OAddAddress b)). Qed.
Lemma SetNonce_zacts b n s : zgood s -> (zone -> b <> 0) -> zacts s (SetNonce b n s).
Proof. intros G Hb. by apply (zacts_op (OSetNonce b n)). Qed.
Lemma SetCode_zacts b c s : zgood s -> (zone -> b <> 0) -> zacts s (SetCode b c s).
Proof. intros G Hb. by apply (zacts_op (OSetCode b c)). Qed.
Lemma CreateAccount_zacts b s : zgood s -> (zone -> b <> 0 \/ Exist b s = false) -> zacts s (CreateAccount b s).
Proof. intros G Hb. by apply (zacts_op (OCreateAccount b)). Qed.

Lemma Snapshot_zfacts s : good s -> forall k, facts (snd (Snapshot s)) 0 k = facts s 0 k.
Proof. intros Hs k. by rewrite !facts_world by (done || by apply good_Snapshot). Qed.

Lemma zgood_Snapshot s : zgood s -> zgood (snd (Snapshot s)).
Proof. intros [G Z]. split; [by apply good_Snapshot|]. intros Hz. eapply guarded_facts, Z, Hz. by apply Snapshot_zfacts. Qed.

Lemma zacts_snapshot s s1 : zgood s -> zacts (snd (Snapshot s)) s1 -> zacts s s1.
Proof. intros [G _] [A F]. split; [by apply acts_snapshot|]. intros Hz k. by rewrite F, Snapshot_zfacts. Qed.

Lemma zacts_revert s s1 :
  zgood s -> zacts (snd (Snapshot s)) s1 ->
  exists s2, RevertToSnapshot (nextRevisionId s) s1 = Some s2 /\ zacts s s2 /\ world s2 ≡ world s.
Proof.
  intros [G _] [A _]. destruct (acts_revert s s1 G A) as (s2 & E & A2 & Hw). exists s2. split; [done|]. split; [|done]. split; [done|].
  intros _ k. rewrite !facts_world by (done || by eapply acts_good). by apply w_facts_proper.
Qed.

Lemma Transfer_zacts a b x s : zgood s -> zacts s (Transfer a b x s).
Proof. intros G. eapply zacts_trans; [done|by apply SubBalance_zacts|]. apply AddBalance_zacts. by eapply zacts_good, SubBalance_zacts. Qed.

(** A result with at most [gas] left, reached from [s]; [T] is what a panic says:
    with [False] nothing panics, with [True] anything may. *)
Definition ran (T : Prop) (s : StateDB) (gas : Z) (r : option (bytes * Z * error * Vm)) : Prop :=
  match r with None => T | Some (_, g, _, vm) => 0 <= g <= gas /\ zacts s (vm_state vm) end.

(** Moreover an error leaves the world as it was. *)
Definition call_ok (T : Prop) (s : StateDB) (gas : Z) (r : option (bytes * Z * error * Vm)) : Prop :=
  match r with
  | None => T
  | Some (_, g, err, vm) => 0 <= g <= gas /\ zacts s (vm_state vm) /\ (failed err = true -> world (vm_state vm) ≡ world s)
  end.

Lemma call_ok_ran T s gas r : call_ok T s gas r -> ran T s gas r.
Proof. destruct r as [[[[? ?] ?] ?]|]; [|done]. by intros (? & ? & _). Qed.
End zone.

(** Nothing is said of the zero address. *)
Definition no_zone `{!Database} : Zone := {| zone := False; zone_db := fun h => match h with end |}.

(** ** Calls are atomic

    What is relied on of the interpreter and the precompiled contracts: they make no
    gas, a run reverts only to snapshots it has taken, and what panics entails
    [T].  Runs are relied on up to the depth limit: beyond it no call runs code. *)
Class EvmLaws `{!Keccak} `{!Database} `{!Zone} `{!EvmEnv} (T : Prop) := {
  run_sound : evm_depth <= CallCreateDepth -> forall c input ro vm, zgood (vm_state vm) -> 0 <= contract_Gas c ->
    (zone -> contract_self c = 0 -> contract_Code c = []) -> ran T (vm_state vm) (contract_Gas c) (interpreter_Run c input ro vm);
  required_gas : forall a p input, precompile a = Some p -> 0 <= RequiredGas p input;
  native_returns : forall a p input, precompile a = Some p -> is_Some (precompiled_Run p input) \/ T;
  withdraw_answers : forall input, is_Some (IsWithdawFailedTx withdraw_client input BlackContractAddr) \/ T
}.

Section atomic.
Context `{!Keccak} `{!Database} `{!Zone} `{!ElaLib} `{!Codec} `{!SpvLib} `{!EvmEnv} {T : Prop} `{!EvmLaws T}.

Lemma settle_ok s gas r :
  zgood s -> ran T (snd (Snapshot s)) gas r -> call_ok T s gas (x ← r; settle (nextRevisionId s) x).
Proof.
  intros Hs. destruct r as [[[[ret g] err] vm]|]; [|done]. intros [Hg Ha]. cbn [mbind option_bind]. unfold settle. destruct err as [e|].
  - destruct (zacts_revert s (vm_state vm) Hs Ha) as (s2 & E & Ha2 & Hw). rewrite E. cbn. split; [case_bool_decide; lia|done].
  - split; [done|]. split; [by apply zacts_snapshot|done].
Qed.

Lemma precompiled_ran a p input gas vm :
  precompile a = Some p -> 0 <= gas ->
  ran T (vm_state vm) gas ('(ret, gas, err) ← RunPrecompiledContract p input gas; Some (ret, gas, err, vm)).
Proof.
  intros Hp Hg. unfold RunPrecompiledContract. pose proof (required_gas a p input Hp). destruct (Z.ltb_spec gas (RequiredGas p input)).
  - split; [lia|apply zacts_refl].
  - destruct (native_returns a p input Hp) as [[[out err] ->]|HT]; [split; [lia|apply zacts_refl]|].
    destruct (precompiled_Run p input) as [[out err]|]; [split; [lia|apply zacts_refl]|done].
Qed.

Lemma ran_same s gas ret err vm : 0 <= gas -> vm_state vm = s -> ran T s gas (Some (ret, gas, err, vm)).
Proof. intros Hg <-. split; [lia|apply zacts_refl]. Qed.

Lemma ran_after s s1 gas r : zgood s -> zacts s s1 -> ran T s1 gas r -> ran T s gas r.
Proof. intros Hs Ha. destruct r as [[[[ret g] err] vm]|]; [|done]. intros [Hg Ha1]. split; [done|]. by eapply zacts_trans. Qed.

Lemma call_ok_same s gas ret err vm : 0 <= gas -> vm_state vm = s -> call_ok T s gas (Some (ret, gas, err, vm)).
Proof. intros Hg <-. split; [lia|]. split; [apply zacts_refl|done]. Qed.

Lemma burn_ran s gas p r : zgood s -> ran T s gas r -> ran T s gas (x ← r; Some (burn p x)).
Proof.
  intros Hs. destruct r as [[[[ret g] err] vm]|]; [|done]. intros [Hg Ha]. cbn [mbind option_bind]. unfold burn.
  destruct (_ && _); [|done]. split; [done|]. eapply zacts_trans; [done|exact Ha|]. apply SubBalance_zacts. by eapply zacts_good.
Qed.

Lemma minted_CanTransfer caller value l s :
  good s -> 0 <= GetBalance caller s -> CanTransfer caller value (AddBalance caller value (AddLog l s)) = true.
Proof.
  intros Hs Hb. unfold CanTransfer. rewrite AddBalance_balance by (by eapply acts_good, AddLog_acts).
  rewrite AddLog_balance, Z.eqb_refl by done. apply Z.leb_le. lia.
Qed.

Lemma minted_zacts caller value l s : zgood s -> zacts s (AddBalance caller value (AddLog l s)).
Proof. intros Hs. eapply zacts_trans; [done|by apply AddLog_zacts|]. apply AddBalance_zacts. by eapply zacts_good, AddLog_zacts. Qed.

Lemma withdraw_txid input txid :
  IsWithdawFailedTx withdraw_client input BlackContractAddr = Some (true, txid) -> txid = hash_String (take 32 input).
Proof.
  unfold IsWithdawFailedTx. destruct (zlen input <=? 32); [done|]. destruct withdraw_client as [c|]; [|done].
  destruct (TransactionByHash c _) as [[[to|]|]|]; try done. by intros [= _ <-].
Qed.

(** The plan of a call: the state is that of the snapshot, or value was minted to
    the caller, who can then pay. *)
Definition plan_ok (caller : Z) (s : StateDB) (plan : CallPlan + string) (vm : Vm) : Prop :=
  zacts s (vm_state vm) /\
  (vm_state vm = s \/ exists p, plan = inl p /\ (0 <= GetBalance caller s -> CanTransfer caller (plan_value p) (vm_state vm) = true)).

Lemma call_plan_ok caller addr input value recharge vm :
  zgood (vm_state vm) ->
  match call_plan caller addr input value recharge vm with None => T | Some (plan, vm1) => plan_ok caller (vm_state vm) plan vm1 end.
Proof.
  intros Hs. assert (Same : forall plan, plan_ok caller (vm_state vm) plan vm) by (intros plan; split; [apply zacts_refl|by left]).
  assert (Mint : forall p l vm1, vm_state vm1 = AddBalance caller (plan_value p) (AddLog l (vm_state vm)) -> plan_ok caller (vm_state vm) (inl p) vm1).
  { intros p l vm1 E. unfold plan_ok. rewrite E. split; [by apply minted_zacts|]. right. exists p. split; [done|]. apply minted_CanTransfer, Hs. }
  unfold call_plan. destruct (Z.eqb_spec addr 0) as [_|]; [|apply Same]. cbn [negb].
  destruct (IsWithdawFailedTx withdraw_client input BlackContractAddr) as [[isW txid]|] eqn:HW; [|by destruct (withdraw_answers input) as [[? W]|]; [congruence|]].
  cbn [mbind option_bind]. destruct isW.
  - unfold refund_withdrawal. destruct (_ && _); [|apply Same]. destruct (GetWithdrawTxValue txid) as [[from amount]|]; [|apply Same].
    unfold OnProcessFaildWithdrawTx. rewrite (withdraw_txid _ _ HW), strip_hash. cbn [mbind option_bind]. by eapply Mint.
  - destruct recharge as [r|]; [|apply Same]. destruct (deposit_hash input) as [h|]; [|apply Same].
    unfold credit_deposit. destruct (negb (bytes_Equal _ _)); [apply Same|]. destruct (_ && _); [by eapply Mint|apply Same].
Qed.

Section shallow.
Context (depth_ok : evm_depth <= CallCreateDepth).

Lemma run_code_ran a c input gas ro vm :
  zgood (vm_state vm) -> 0 <= gas -> contract_Gas c = gas -> (zone -> contract_self c = 0 -> contract_Code c = []) ->
  ran T (vm_state vm) gas (run_code a c input gas ro vm).
Proof.
  intros Hs Hg Hc Hz. unfold run_code. destruct (precompile a) as [p|] eqn:Hp; [by eapply precompiled_ran|].
  rewrite <- Hc in *. by apply run_sound.
Qed.

Lemma run_account_ran caller p gas vm :
  zgood (vm_state vm) -> 0 <= gas -> ran T (vm_state vm) gas (run_account caller p gas vm).
Proof.
  intros Hs Hg. unfold run_account. destruct (precompile (plan_addr p)) as [c|] eqn:Hp; [by eapply precompiled_ran|].
  destruct (zlen _ =? 0); [by apply ran_same|]. set (c := NewContract _ _ _ _ _ _ _). apply (run_sound depth_ok c); [done|done|].
  cbn. intros Hz ->. by apply (proj2 Hs Hz).
Qed.

(** The code runs on the account, with the value transferred. *)
Lemma execute_ran caller p gas s vm :
  zgood s -> 0 <= gas -> zacts (snd (Snapshot s)) (vm_state vm) ->
  call_ok T s gas
    (r ← run_account caller p gas
           (on_state (Transfer (ref_Address caller) (plan_to p) (plan_value p))
             (if Exist (plan_addr p) (vm_state vm) then vm else on_state (CreateAccount (plan_addr p)) vm));
     settle (nextRevisionId s) (burn p r)).
Proof.
  intros Hs Hg Ha. set (vm1 := if Exist _ _ then vm else _).
  assert (Hs1 : zgood (snd (Snapshot s))) by by apply zgood_Snapshot. pose proof (zacts_good _ _ Hs1 Ha) as Hs2.
  assert (Ha1 : zacts (snd (Snapshot s)) (vm_state vm1)).
  { unfold vm1. destruct (Exist _ _) eqn:Ee; [done|]. eapply zacts_trans; [done|exact Ha|]. apply CreateAccount_zacts; auto. }
  set (vm2 := on_state _ vm1).
  assert (Ha2 : zacts (snd (Snapshot s)) (vm_state vm2)).
  { eapply zacts_trans; [done|exact Ha1|]. apply Transfer_zacts. exact (zacts_good _ _ Hs1 Ha1). }
  pose proof (run_account_ran caller p gas vm2 (zacts_good _ _ Hs1 Ha2) Hg) as Hr.
  apply (ran_after _ _ _ _ Hs1 Ha2) in Hr. apply (burn_ran _ _ p _ Hs1) in Hr. apply (settle_ok s gas _ Hs) in Hr.
  destruct (run_account caller p gas vm2) as [x|]; exact Hr.
Qed.
End shallow.

(** A call: an error leaves the world as it was, of a caller without debts. *)
Lemma Call_outcome caller addr input gas value recharge vm :
  zgood (vm_state vm) -> 0 <= gas ->
  let r := Call caller addr input gas value recharge vm in
  ran T (vm_state vm) gas r /\ (0 <= GetBalance (ref_Address caller) (vm_state vm) -> call_ok T (vm_state vm) gas r).
Proof.
  intros Hs Hg r. unfold r, Call. destruct (Z.ltb_spec CallCreateDepth evm_depth) as [|Hd].
  { split; [by apply ran_same|intros _; by apply call_ok_same]. }
  cbn [Snapshot]. set (vm0 := vm <| vm_state := _ |>). assert (Hs0 : zgood (vm_state vm0)) by by apply zgood_Snapshot.
  pose proof (Snapshot_balance (vm_state vm) (ref_Address caller) (zgood_good _ Hs)) as Hb0. change (snd (Snapshot (vm_state vm))) with (vm_state vm0) in Hb0.
  pose proof (call_plan_ok (ref_Address caller) addr input value recharge vm0 Hs0) as Hplan.
  destruct (call_plan _ _ _ _ _ vm0) as [[plan vm1]|]; [|done]. destruct Hplan as [Ha Hp]. cbn [mbind option_bind].
  assert (Hstay : forall e, ran T (vm_state vm) gas (Some ([], gas, e, vm1))) by (intros e; split; [lia|by apply zacts_snapshot]).
  assert (Hsame : forall e, vm_state vm1 = vm_state vm0 -> call_ok T (vm_state vm) gas (Some ([], gas, e, vm1))).
  { intros e E. split; [lia|]. split; [by apply zacts_snapshot|]. intros _. by rewrite E. }
  destruct plan as [p|err].
  - unfold call_execute. destruct (_ && negb (CanTransfer _ _ _)) eqn:Ec.
    + split; [done|]. intros Hb. destruct Hp as [Hp|(p' & [= <-] & Hp)]; [by apply Hsame|]. rewrite Hp, andb_false_r in Ec; [done|]. by rewrite Hb0.
    + destruct (_ && IsEIP158 && _).
      * split; [done|]. intros _. split; [lia|]. split; [by apply zacts_snapshot|done].
      * pose proof (execute_ran Hd caller p gas (vm_state vm) vm1 Hs Hg Ha) as Hr. split; [by apply call_ok_ran|done].
  - split; [done|]. intros _. destruct Hp as [Hp|(p' & [=] & _)]. by apply Hsame.
Qed.

(** The calls that run code as the caller: not as the zero address, in the zone. *)
Lemma CallCode_ok caller addr input gas value vm :
  zgood (vm_state vm) -> 0 <= gas -> (zone -> ref_Address caller <> 0) -> call_ok T (vm_state vm) gas (CallCode caller addr input gas value vm).
Proof.
  intros Hs Hg Hz. unfold CallCode. destruct (Z.ltb_spec CallCreateDepth evm_depth) as [|Hd]; [by apply call_ok_same|].
  destruct (negb _); [by apply call_ok_same|]. cbn [Snapshot]. apply settle_ok; [done|]. apply run_code_ran; [done|by apply zgood_Snapshot|done|done|].
  cbn. intros Hzone E. by destruct (Hz Hzone).
Qed.

Lemma DelegateCall_ok self from v addr input gas vm :
  zgood (vm_state vm) -> 0 <= gas -> (zone -> self <> 0) ->
  call_ok T (vm_state vm) gas (DelegateCall (RunningContract self from v) addr input gas vm).
Proof.
  intros Hs Hg Hz. unfold DelegateCall. destruct (Z.ltb_spec CallCreateDepth evm_depth) as [|Hd]; [by apply call_ok_same|].
  cbn [Snapshot]. apply settle_ok; [done|]. pose proof (zgood_Snapshot _ Hs).
  destruct (isPrecompile addr); (apply run_code_ran; [done|done|done|done|]); cbn; intros Hzone E; by destruct (Hz Hzone).
Qed.

Lemma StaticCall_ok caller addr input gas vm :
  zgood (vm_state vm) -> 0 <= gas -> call_ok T (vm_state vm) gas (StaticCall caller addr input gas vm).
Proof.
  intros Hs Hg. unfold StaticCall. destruct (Z.ltb_spec CallCreateDepth evm_depth) as [|Hd]; [by apply call_ok_same|].
  cbn [Snapshot]. apply settle_ok; [done|]. pose proof (zgood_Snapshot _ Hs) as G1. set (s1 := snd (Snapshot (vm_state vm))) in *.
  pose proof (AddBalance_zacts addr 0 s1 G1) as A. pose proof (zacts_good _ _ G1 A) as G2.
  apply (ran_after _ _ _ _ G1 A). apply run_code_ran; [done|done|done|done|]. cbn. intros Hz ->. by apply (proj2 G2 Hz).
Qed.

(** *** Creation *)
Lemma deploy_ran s address gas r :
  zgood s -> (zone -> address <> 0) -> ran T s gas r -> ran T s gas (x ← r; Some (deploy address x)).
Proof.
  intros Hs Hz. destruct r as [[[[ret g] err] vm]|]; [|done]. intros [Hg Ha]. cbn [mbind option_bind]. unfold deploy.
  destruct (failed _); [done|]. assert (0 <= u64 (zlen ret * CreateDataGas)) by (unfold u64; div_lia).
  destruct (Z.ltb_spec g (u64 (zlen ret * CreateDataGas))); [done|]. split; [lia|]. eapply zacts_trans; [done|exact Ha|].
  apply SetCode_zacts; [by eapply zacts_good|done].
Qed.

Lemma settle_create_ran s gas r :
  zgood s -> ran T (snd (Snapshot s)) gas r -> ran T s gas (x ← r; settle_create (nextRevisionId s) x).
Proof.
  intros Hs Hr. pose proof (call_ok_ran _ _ _ _ (settle_ok s gas r Hs Hr)) as Ho. destruct r as [[[[ret g] err] vm]|]; [|done]. cbn [mbind option_bind] in *.
  unfold settle_create. destruct (_ || _); [done|]. destruct Hr as [Hg Ha]. split; [done|]. by apply zacts_snapshot.
Qed.

Definition drop_address (r : option (bytes * Z * Z * error * Vm)) : option (bytes * Z * error * Vm) :=
  '(ret, _, g, err, vm) ← r; Some (ret, g, err, vm).

(** The new account. *)
Lemma make_account caller address value s :
  zgood s -> (zone -> address <> 0) ->
  zacts s (Transfer caller address value (if IsEIP158 then SetNonce address 1 (CreateAccount address s) else CreateAccount address s)).
Proof.
  intros Hs Hz. assert (A1 : zacts s (CreateAccount address s)) by (apply CreateAccount_zacts; auto). pose proof (zacts_good _ _ Hs A1) as G1.
  assert (A2 : zacts s (if IsEIP158 then SetNonce address 1 (CreateAccount address s) else CreateAccount address s)).
  { destruct IsEIP158; [|done]. eapply zacts_trans; [done|exact A1|]. by apply SetNonce_zacts. }
  eapply zacts_trans; [done|exact A2|]. apply Transfer_zacts. exact (zacts_good _ _ Hs A2).
Qed.

(** In the zone the zero address has a nonce, so nothing is created there. *)
Lemma create_ran caller code hash gas value address vm :
  zgood (vm_state vm) -> 0 <= gas -> (zone -> ref_Address caller <> 0) ->
  ran T (vm_state vm) gas (drop_address (create caller code hash gas value address vm)).
Proof.
  intros Hs Hg Hz. unfold create, drop_address. destruct (Z.ltb_spec CallCreateDepth evm_depth) as [|Hd]; [by apply ran_same|]. destruct (negb _); [by apply ran_same|].
  destruct (_ <? _); [by apply ran_same|]. set (s1 := SetNonce _ _ _). assert (A1 : zacts (vm_state vm) s1) by by apply SetNonce_zacts.
  pose proof (zacts_good _ _ Hs A1) as G1. set (s2 := if IsBerlin then _ else s1).
  assert (A2 : zacts (vm_state vm) s2) by (unfold s2; destruct IsBerlin; [eapply zacts_trans; [done|exact A1|by apply AddAddress_zacts]|done]).
  pose proof (zacts_good _ _ Hs A2) as G2. destruct (_ || _) eqn:Ec; [by split; [lia|]|]. cbn [Snapshot].
  apply orb_false_iff in Ec as [Ec _]. apply negb_false_iff, Z.eqb_eq in Ec.
  assert (Ha : zone -> address <> 0) by (intros Hzone ->; destruct (proj2 G2 Hzone); lia).
  pose proof (zgood_Snapshot _ G2) as G2'. pose proof (make_account (ref_Address caller) address value _ G2' Ha) as A3.
  set (s3 := Transfer _ _ _ _) in *. set (c := NewContract _ _ _ _ _ _ _).
  pose proof (run_sound Hd c [] false (vm <| vm_state := s3 |>) (zacts_good _ _ G2' A3) Hg) as Hr. cbn [contract_self NewContract] in Hr.
  specialize (Hr (fun Hzone E => match Ha Hzone E with end)).
  apply (ran_after _ _ _ _ G2' A3), (deploy_ran _ address _ _ G2' Ha), (settle_create_ran _ _ _ G2) in Hr.
  apply (ran_after _ _ _ _ Hs A2) in Hr. unfold interpret. change s3 with (vm_state (vm <| vm_state := s3 |>)) in Hr.
  destruct (interpreter_Run c [] false _) as [x|]; [|done]. cbn [mbind option_bind] in Hr |- *.
  by destruct (settle_create _ _) as [[[[? ?] ?] ?]|].
Qed.
End atomic.

(** ** Deposits and refunds *)
Section cross.
Context `{!Keccak} `{!Database} `{!DatabaseLaws} `{!ElaLib} `{!Codec} `{!SpvLib} `{!EvmEnv}.

Lemma Transfer_acts a b x s : good s -> acts s (Transfer a b x s).
Proof. intros Hs. eapply acts_trans; [done|apply SubBalance_acts|apply AddBalance_acts]. Qed.

Lemma minted_acts caller value l s : good s -> acts s (AddBalance caller value (AddLog l s)).
Proof. intros Hs. eapply acts_trans; [done|apply AddLog_acts|apply AddBalance_acts]. Qed.

(** A call of an account without code only moves the value. *)
Lemma execute_codeless caller id gas p vm :
  good (vm_state vm) -> precompile (plan_addr p) = None -> GetCode (plan_addr p) (vm_state vm) = [] ->
  (plan_value p = 0 \/ CanTransfer (ref_Address caller) (plan_value p) (vm_state vm) = true) ->
  exists vm', call_execute caller id gas p vm = Some ([], gas, nil_err, vm') /\ vm_withdraw vm' = vm_withdraw vm /\
    acts (vm_state vm) (vm_state vm') /\ (forall a k, facts (vm_state vm') a k = facts (vm_state vm) a k) /\
    forall a, GetBalance a (vm_state vm') = GetBalance a (vm_state vm) -
      (if a =? ref_Address caller then plan_value p else 0) +
      (if (a =? plan_to p) && negb (bool_decide (Address_Hex (plan_to p) = BlackContractAddr)) then plan_value p else 0).
Proof.
  intros Hs Hp Hc Ht. unfold call_execute.
  replace (negb (plan_value p =? 0) && negb (CanTransfer _ _ _)) with false
    by (destruct Ht as [-> | ->]; [done|by rewrite andb_false_r]).
  destruct (_ && IsEIP158 && _) eqn:E0.
  { apply andb_true_iff in E0 as [_ E0]. apply Z.eqb_eq in E0. exists vm. split_and!; [done|done|apply acts_refl|done|].
    intros a. rewrite E0. repeat case_match; lia. }
  set (vm1 := if Exist _ _ then vm else _).
  assert (HV : vm_withdraw vm1 = vm_withdraw vm /\ acts (vm_state vm) (vm_state vm1) /\
    (forall a k, facts (vm_state vm1) a k = facts (vm_state vm) a k) /\ forall a, GetBalance a (vm_state vm1) = GetBalance a (vm_state vm)).
  { unfold vm1. destruct (Exist (plan_addr p) (vm_state vm)) eqn:Ee; [by split_and!; try apply acts_refl|]. cbn.
    split_and!; [done|apply CreateAccount_acts|intros a k; by apply CreateAccount_facts|intros a; by apply CreateAccount_balance]. }
  destruct HV as (W1 & A1 & F1 & B1). assert (G1 : good (vm_state vm1)) by by eapply acts_good.
  set (vm2 := on_state _ vm1).
  assert (G2 : good (vm_state vm2)) by (eapply acts_good; [exact G1|by apply Transfer_acts]).
  assert (F2 : forall a k, facts (vm_state vm2) a k = facts (vm_state vm) a k) by (intros a k; cbn; by rewrite Transfer_facts, F1).
  assert (A2 : acts (vm_state vm) (vm_state vm2)) by (eapply acts_trans; [done|exact A1|by apply Transfer_acts]).
  assert (B2 : forall a, GetBalance a (vm_state vm2) = GetBalance a (vm_state vm) -
    (if a =? ref_Address caller then plan_value p else 0) + (if a =? plan_to p then plan_value p else 0))
    by (intros a; cbn; by rewrite Transfer_balance, B1).
  assert (Hc2 : GetCode (plan_addr p) (vm_state vm2) = []).
  { rewrite <- Hc. pose proof (F2 (plan_addr p) zero_hash) as E. by injection E. }
  unfold run_account. rewrite Hp, Hc2. cbn [zlen length Z.of_nat Z.eqb mbind option_bind]. unfold burn.
  destruct (bool_decide _) eqn:Eb; cbn [andb negb failed settle].
  - eexists. split; [done|]. cbn. split_and!; [done|by eapply acts_trans, SubBalance_acts|intros a k; by rewrite SubBalance_facts, F2|].
    intros a. rewrite SubBalance_balance, B2 by done. rewrite andb_false_r. repeat case_match; lia.
  - eexists. split; [done|]. split_and!; [done..|]. intros a. rewrite B2, andb_true_r. done.
Qed.

(** A caller's funds after the value was minted to it. *)
Lemma minted_balance caller value l s a :
  good s -> GetBalance a (AddBalance caller value (AddLog l s)) = GetBalance a s + if a =? caller then value else 0.
Proof. intros Hs. rewrite AddBalance_balance by (by eapply acts_good, AddLog_acts). by rewrite AddLog_balance. Qed.

Lemma minted_facts caller value l s a k : good s -> facts (AddBalance caller value (AddLog l s)) a k = facts s a k.
Proof. intros Hs. rewrite AddBalance_facts by (by eapply acts_good, AddLog_acts). by apply AddLog_facts. Qed.

Lemma GetState_facts s s' a k : facts s' a k = facts s a k -> GetState a k s' = GetState a k s.
Proof. intros E. by injection E. Qed.

Lemma GetCode_facts s s' a : (forall k, facts s' a k = facts s a k) -> GetCode a s' = GetCode a s.
Proof. intros E. specialize (E zero_hash). by injection E. Qed.

(** a deposit's output reaches its recipient in full.  [Call] on the zero
    address with the data of a deposit that is not marked as executed, for an
    output with a recipient other than the zero address and without code, gives
    the recipient the output's value less its fee; no other balance changes, the
    sender's included, no gas is used, and no nonce, storage or code changes: in
    particular the deposit is not marked, which is left to [ApplyTransaction]. *)
Theorem Call_credits_deposit caller r input h t gas value vm :
  good (vm_state vm) -> evm_depth <= CallCreateDepth -> 0 <= GetBalance (ref_Address caller) (vm_state vm) ->
  IsWithdawFailedTx withdraw_client input BlackContractAddr = Some (false, t) -> deposit_hash input = Some h ->
  GetState 0 (HexToHash h) (vm_state vm) = zero_hash -> TargetAddress r <> 0 -> Fee r <= TargetAmount r ->
  precompile (TargetAddress r) = None -> GetCode (TargetAddress r) (vm_state vm) = [] ->
  Address_Hex (TargetAddress r) <> BlackContractAddr ->
  exists vm', Call caller 0 input gas value (Some r) vm = Some ([], gas, nil_err, vm') /\
    (forall a, GetBalance a (vm_state vm') =
       GetBalance a (vm_state vm) + if a =? TargetAddress r then TargetAmount r - Fee r else 0) /\
    (forall a k, facts (vm_state vm') a k = facts (vm_state vm) a k).
Proof.
  intros Hs Hd Hb HW Hh Hm Ht Hf Hp Hc Hbl. unfold Call. rewrite (proj2 (Z.ltb_ge _ _) Hd). cbn [Snapshot].
  set (vm0 := vm <| vm_state := _ |>). assert (G0 : good (vm_state vm0)) by by apply good_Snapshot.
  pose proof (Snapshot_facts (vm_state vm) : forall a k, _ -> _) as F0. pose proof (Snapshot_balance (vm_state vm)) as B0.
  unfold call_plan. cbn [Z.eqb negb]. rewrite HW. cbn [mbind option_bind]. rewrite Hh. unfold credit_deposit.
  rewrite (GetState_facts (vm_state vm) (vm_state vm0)) by (by apply F0). rewrite Hm.
  rewrite (proj2 (bytes_Equal_spec zero_hash zero_hash) eq_refl). cbn [negb].
  rewrite (proj2 (Z.eqb_neq _ _) Ht), (proj2 (Z.leb_le _ _) Hf). cbn [negb andb]. set (v := TargetAmount r - Fee r).
  set (l := event 0 _). set (vm1 := on_state _ vm0). assert (G1 : good (vm_state vm1)) by (by eapply acts_good, minted_acts).
  assert (F1 : forall a k, facts (vm_state vm1) a k = facts (vm_state vm) a k).
  { intros a k. unfold vm1. cbn -[AddLog Snapshot]. rewrite minted_facts by done. by apply F0. }
  assert (B1 : forall a, GetBalance a (vm_state vm1) = GetBalance a (vm_state vm) + if a =? ref_Address caller then v else 0).
  { intros a. unfold vm1. cbn -[AddLog Snapshot]. rewrite minted_balance by done. by rewrite B0. }
  destruct (execute_codeless caller (nextRevisionId (vm_state vm)) gas {| plan_addr := TargetAddress r; plan_to := TargetAddress r;
    plan_value := v; plan_input := TargetData r |} vm1) as (vm' & E & _ & _ & F & B); cbn [plan_addr plan_to plan_value].
  - done.
  - done.
  - rewrite (GetCode_facts (vm_state vm) (vm_state vm1)); auto.
  - right. apply minted_CanTransfer; [done|]. rewrite B0 by done. done.
  - exists vm'. split; [exact E|]. split; [|intros a k; by rewrite F, F1]. intros a. rewrite B, B1. cbn [plan_to plan_value].
    rewrite bool_decide_eq_false_2 by done. cbn [negb]. rewrite andb_true_r. repeat case_match; lia.
Qed.

(** Calls of the zero address with the same input, as a contract can make them. *)
Fixpoint repeat_call (n : nat) (caller : ContractRef) (input : bytes) (gas : Z) (vm : Vm) : option Vm :=
  match n with
  | O => Some vm
  | S n => '(_, _, err, vm) ← Call caller 0 input gas 0 None vm;
           if failed err then None else repeat_call n caller input gas vm
  end.

(** What a refund needs. *)
Record refundable (caller : ContractRef) (input : bytes) (txid from : string) (amount : Z) : Prop := {
  rf_withdraw : IsWithdawFailedTx withdraw_client input BlackContractAddr = Some (true, txid);
  rf_signed : forall w, VerifySignatures withdraw_client withdraw_arbiters input w = true;
  rf_value : GetWithdrawTxValue txid = inl (from, amount);
  rf_amount : 0 <= amount;
  rf_code : precompile 0 = None;
  rf_black : Address_Hex (HexToAddress from) <> BlackContractAddr
}.

Lemma refund_once caller input txid from amount gas vm :
  refundable caller input txid from amount -> evm_depth <= CallCreateDepth -> good (vm_state vm) ->
  0 <= GetBalance (ref_Address caller) (vm_state vm) -> GetState 0 (HexToHash txid) (vm_state vm) = zero_hash ->
  GetCode 0 (vm_state vm) = [] ->
  exists vm', Call caller 0 input gas 0 None vm = Some ([], gas, nil_err, vm') /\ good (vm_state vm') /\
    (forall a, GetBalance a (vm_state vm') = GetBalance a (vm_state vm) + if a =? HexToAddress from then amount else 0) /\
    (forall a k, facts (vm_state vm') a k = facts (vm_state vm) a k).
Proof.
  intros [HW Hv Ev Ha Hp Hbl] Hd Hs Hb Hm Hc. unfold Call. rewrite (proj2 (Z.ltb_ge _ _) Hd). cbn [Snapshot].
  set (vm0 := vm <| vm_state := _ |>). assert (G0 : good (vm_state vm0)) by by apply good_Snapshot.
  pose proof (Snapshot_facts (vm_state vm) : forall a k, _ -> _) as F0. pose proof (Snapshot_balance (vm_state vm)) as B0.
  unfold call_plan. cbn [Z.eqb negb]. rewrite HW. cbn [mbind option_bind]. unfold refund_withdrawal.
  rewrite (GetState_facts (vm_state vm) (vm_state vm0)) by (by apply F0). rewrite Hm, Hv.
  rewrite (proj2 (bytes_Equal_spec zero_hash zero_hash) eq_refl), Ev. cbn [andb].
  unfold OnProcessFaildWithdrawTx. rewrite (withdraw_txid _ _ HW), strip_hash. cbn [mbind option_bind].
  set (l := event _ _). set (w := if 0 <? _ then _ else vm_withdraw vm0).
  set (vm1 := {| vm_state := _; vm_withdraw := w |}). assert (G1 : good (vm_state vm1)) by (by eapply acts_good, minted_acts).
  assert (F1 : forall a k, facts (vm_state vm1) a k = facts (vm_state vm) a k).
  { intros a k. unfold vm1. cbn -[AddLog Snapshot]. rewrite minted_facts by done. by apply F0. }
  assert (B1 : forall a, GetBalance a (vm_state vm1) = GetBalance a (vm_state vm) + if a =? ref_Address caller then amount else 0).
  { intros a. unfold vm1. cbn -[AddLog Snapshot]. rewrite minted_balance by done. by rewrite B0. }
  destruct (execute_codeless caller (nextRevisionId (vm_state vm)) gas {| plan_addr := 0; plan_to := HexToAddress from;
    plan_value := amount; plan_input := input |} vm1) as (vm' & E & _ & A & F & B); cbn [plan_addr plan_to plan_value].
  - done.
  - done.
  - rewrite (GetCode_facts (vm_state vm) (vm_state vm1)); auto.
  - right. unfold CanTransfer. rewrite B1, Z.eqb_refl. apply Z.leb_le. lia.
  - exists vm'. split; [exact E|]. split; [by eapply acts_good|]. split; [|intros a k; by rewrite F, F1].
    intros a. rewrite B, B1. cbn [plan_to plan_value]. rewrite bool_decide_eq_false_2 by done. cbn [negb]. rewrite andb_true_r.
    repeat case_match; lia.
Qed.

(** C39: a refund executed by a call is not marked, so it can be repeated.  With the
    signed data of a failed withdrawal that is not yet marked as refunded, any
    number [n] of calls of the zero address (which a contract can make in one
    transaction) all succeed, and each pays the withdrawn amount to the
    withdrawal's sender again. *)
Theorem refund_repeats n caller input txid from amount gas vm :
  refundable caller input txid from amount -> evm_depth <= CallCreateDepth -> good (vm_state vm) ->
  0 <= GetBalance (ref_Address caller) (vm_state vm) -> GetState 0 (HexToHash txid) (vm_state vm) = zero_hash ->
  GetCode 0 (vm_state vm) = [] ->
  exists vm', repeat_call n caller input gas vm = Some vm' /\
    GetBalance (HexToAddress from) (vm_state vm') = GetBalance (HexToAddress from) (vm_state vm) + Z.of_nat n * amount.
Proof.
  intros Hr Hd. revert vm. induction n as [|n IH]; intros vm Hs Hb Hm Hc; [exists vm; split; [done|lia]|].
  destruct (refund_once caller input txid from amount gas vm) as (vm1 & E & G & B & F); [done..|].
  destruct (IH vm1) as (vm' & E' & B').
  - done.
  - rewrite B. pose proof (rf_amount _ _ _ _ _ Hr). case_match; lia.
  - by rewrite (GetState_facts (vm_state vm)).
  - by rewrite (GetCode_facts (vm_state vm)).
  - exists vm'. cbn [repeat_call]. rewrite E. cbn [mbind option_bind failed]. split; [done|].
    rewrite B', B, Z.eqb_refl. lia.
Qed.
End cross.

(** ** Marks

    An executed deposit or refund is marked in the storage of the zero address,
    whose nonce keeps the account. *)
Section marks.
Context `{!Keccak} `{!Database} `{!DatabaseLaws}.

Definition marked (k h : bytes) (s : StateDB) : Prop :=
  GetState 0 k s = h /\ 0 < GetNonce 0 s /\ HasSuicided 0 s = false.

Lemma facts_object s b k : good s -> view_facts k (w_object b (world s)) = facts s b k.
Proof. intros Hs. by rewrite w_facts_object, facts_world. Qed.

Lemma SetNonce_facts b n s a k :
  good s -> facts (SetNonce b n s) a k = (if a =? b then n else GetNonce a s, GetState a k s, GetCode a s, HasSuicided a s).
Proof.
  intros Hs. rewrite facts_world by (by eapply acts_good, SetNonce_acts).
  destruct (SetNonce_spec b n s (good_state s Hs)) as [_ Hw]. rewrite (w_facts_proper _ _ a k Hw). unfold w_update. rewrite w_facts_set.
  destruct (Z.eqb_spec a b) as [->|].
  - cbn [from_option]. pose proof (facts_object s b k Hs) as E.
    unfold facts, view_facts in E. injection E as _ E2 E3 E4. by rewrite <- E2, <- E3, <- E4.
  - by rewrite <- facts_world.
Qed.

Lemma facts_marked s s' k h : facts s' 0 k = facts s 0 k -> marked k h s -> marked k h s'.
Proof. intros F. injection F as E1 E2 _ E4. unfold marked. by rewrite E1, E2, E4. Qed.

Lemma AddAddress_facts b s a k : good s -> facts (AddAddressToAccessList b s) a k = facts s a k.
Proof.
  intros Hs. rewrite !facts_world by (done || by eapply acts_good, AddAddress_acts).
  unfold AddAddressToAccessList. destruct (AddAddress b (state_accessList s)) as [[] al]; reflexivity.
Qed.
End marks.

(** ** A concrete machine *)
Module ToyEvm.
#[local] Existing Instance toy_keccak.
#[local] Existing Instance ToyState.db.
#[local] Existing Instance ToyWithdraw.lib.
#[local] Existing Instance ToyCodec.codec.
#[local] Existing Instance ToySpv.lib.

Definition black : string := Address_Hex 77.

Definition client : Client := {|
  StorageAt := fun _ => inl (replicate 32 0);
  ReceiptStatus := fun _ => inl 1;
  TransactionByHash := fun _ => inl (Some (Some black));
  Withdraw.EstimateGas := fun _ _ => inl 21000;
  SuggestGasPrice := inl 0;
  SendPublicTransaction := fun _ _ _ _ => nil_err
|}.

(** Code adds 5 to its account's balance for 10 gas, and reverts on the input
    [1]; there is one precompiled contract, at address 4. *)
#[export] Instance env : EvmEnv := {|
  precompile := fun a => if a =? 4 then Some {| RequiredGas := fun b => zlen b; precompiled_Run := fun b => Some (b, nil_err) |} else None;
  interpreter_Run := fun c input ro vm =>
    Some ([], Z.max 0 (contract_Gas c - 10), if bool_decide (input = [1]) then New ErrExecutionReverted else nil_err,
          on_state (AddBalance (contract_self c) 5) vm);
  IsHomestead := true; IsEIP158 := true; IsBerlin := true; IsLondon := true;
  BlackContractAddr := black; evm_BlockNumber := 5; evm_depth := 0;
  withdraw_client := Some client; withdraw_arbiters := inl (ToyWithdraw.arbiters, 4);
  GetWithdrawTxValue := fun _ => inl (Address_Hex 9, 30);
  GetRefundEventHash := replicate 32 3
|}.

#[export] Instance db_laws : DatabaseLaws.
Proof. by split. Qed.

Lemma start_good : good ToyState.start.
Proof. eexists. split; [apply sim_fresh_state, ToyState.start_fresh|]. by split; [|constructor]. Qed.

Definition machine : Vm := {| vm_state := ToyState.start; vm_withdraw := ToyWithdraw.empty |}.

(** A contract at address 8. *)
Definition deployed : Vm := machine <| vm_state := SetCode 8 [96; 1] ToyState.start |>.

Lemma deployed_good : good (vm_state deployed).
Proof. eapply acts_good; [exact start_good|apply SetCode_acts]. Qed.

Definition deposit : RechargeData := {| TargetAddress := 9; TargetAmount := 1000; Fee := 10; TargetData := [] |}.

(** The signed refund of the withdrawal [ToyWithdraw.txid]. *)
Definition refund_input : bytes :=
  ToyWithdraw.txid ++ concat (Hex2Bytes <$> (ToyWithdraw.signed <$> [[2; 1]; [2; 3]; [2; 4]])).

Lemma refund_signed w : VerifySignatures (Some client) (inl (ToyWithdraw.arbiters, 4)) refund_input w = true.
Proof.
  unfold VerifySignatures. replace (zlen refund_input <=? 32) with false by by vm_compute. cbn [StorageAt client].
  replace (negb (bytes_Equal _ _)) with false by by vm_compute. replace (negb (_ =? 0)) with false by by vm_compute.
  replace (zlen _ <=? 0) with false by by vm_compute. destruct (_ <=? _); [done|]. by vm_compute.
Qed.

Lemma refund_refundable : refundable (AccountRef 7) refund_input (hash_String ToyWithdraw.txid) (Address_Hex 9) 30.
Proof. split; [by vm_compute|exact refund_signed|done|lia|done|by vm_compute]. Qed.
End ToyEvm.

#[local] Existing Instance toy_keccak.
#[local] Existing Instance ToyState.db.
#[local] Existing Instance ToyWithdraw.lib.
#[local] Existing Instance ToyCodec.codec.
#[local] Existing Instance ToySpv.lib.
#[local] Existing Instance ToyEvm.env.
#[local] Existing Instance ToyEvm.db_laws.

Lemma Call_credits_deposit_witness :
  exists vm, Call (AccountRef 7) 0 (replicate 32 171) 100 0 (Some ToyEvm.deposit) ToyEvm.machine = Some ([], 100, nil_err, vm) /\
    GetBalance 9 (vm_state vm) = 990 /\ GetBalance 7 (vm_state vm) = 100.
Proof.
  destruct (Call_credits_deposit (AccountRef 7) ToyEvm.deposit (replicate 32 171) (hash_String (replicate 32 171)) EmptyString 100 0
    ToyEvm.machine ToyEvm.start_good) as (vm & E & B & _); [done|by vm_compute|by vm_compute|by vm_compute|by vm_compute|done|done|
    done|by vm_compute|by vm_compute|].
  exists vm. split; [exact E|]. rewrite !B. by vm_compute.
Defined.

Lemma refund_repeats_witness :
  exists vm, repeat_call 3 (AccountRef 7) ToyEvm.refund_input 100 ToyEvm.machine = Some vm /\ GetBalance 9 (vm_state vm) = 90.
Proof.
  destruct (refund_repeats 3 (AccountRef 7) ToyEvm.refund_input (hash_String ToyWithdraw.txid) (Address_Hex 9) 30 100 ToyEvm.machine
    ToyEvm.refund_refundable) as (vm & E & B); [done|exact ToyEvm.start_good|by vm_compute|by vm_compute|by vm_compute|].
  exists vm. split; [exact E|]. assert (Ha : HexToAddress (Address_Hex 9) = 9) by by vm_compute. rewrite Ha in B.
  rewrite B. by vm_compute.
Defined.
