(* ===== verification/EvmMachine.v ===== *)
(** * [core/vm]: the state of a running contract

    The machine of the byte-code interpreter: 256-bit words, the stack, the memory
    ([memory.go]), the analysis of jump destinations ([analysis.go], [contract.go])
    and the sizes of memory the operations ask for ([common.go],
    [memory_table.go]).  A [Frame] is what one run of the interpreter works on.

    Words are those of the package [uint256], a parameter with its documented
    arithmetic.  [None] is a panic. *)
From Stdlib Require Import ZifyBool.
From S2P Require Import Prelude Rlp Header Common AccessList StateDB StateSpec StateRefine Withdraw Evm.

(** ** The package [uint256] *)
Definition word (x : Z) : Prop := 0 <= x < 2 ^ 256.

(** The value of a word as a signed integer, and back. *)
Definition signed (x : Z) : Z := if x <? 2 ^ 255 then x else x - 2 ^ 256.
Definition unsigned (x : Z) : Z := x mod 2 ^ 256.

Class Uint256 := {
  u_Add : Z -> Z -> Z; u_Sub : Z -> Z -> Z; u_Mul : Z -> Z -> Z; u_Div : Z -> Z -> Z; u_SDiv : Z -> Z -> Z;
  u_Mod : Z -> Z -> Z; u_SMod : Z -> Z -> Z; u_Exp : Z -> Z -> Z; u_ExtendSign : Z -> Z -> Z;
  u_AddMod : Z -> Z -> Z -> Z; u_MulMod : Z -> Z -> Z -> Z;
  u_Not : Z -> Z; u_And : Z -> Z -> Z; u_Or : Z -> Z -> Z; u_Xor : Z -> Z -> Z;
  u_Byte : Z -> Z -> Z; u_Lsh : Z -> Z -> Z; u_Rsh : Z -> Z -> Z; u_SRsh : Z -> Z -> Z;
  u_Lt : Z -> Z -> bool; u_Gt : Z -> Z -> bool; u_Slt : Z -> Z -> bool; u_Sgt : Z -> Z -> bool; u_Eq : Z -> Z -> bool;
  u_IsZero : Z -> bool; u_Sign : Z -> Z; u_BitLen : Z -> Z;
  u_IsUint64 : Z -> bool; u_Uint64 : Z -> Z;
  u_Bytes32 : Z -> bytes; u_Bytes20 : Z -> Z; u_SetBytes : bytes -> Z; u_FromBig : Z -> Z
}.

(** What its documentation says.  [Bytes20] is the address in the low 160 bits. *)
Class Uint256Laws `{!Uint256} := {
  u_arith : forall x y, word x -> word y ->
    u_Add x y = unsigned (x + y) /\ u_Sub x y = unsigned (x - y) /\ u_Mul x y = unsigned (x * y) /\
    u_Div x y = (if y =? 0 then 0 else x / y) /\ u_Mod x y = (if y =? 0 then 0 else x mod y) /\
    u_SDiv x y = (if y =? 0 then 0 else unsigned (Z.quot (signed x) (signed y))) /\
    u_SMod x y = (if y =? 0 then 0 else unsigned (Z.rem (signed x) (signed y))) /\
    u_Exp x y = unsigned (x ^ y);
  u_ExtendSign_law : forall x b, word x -> word b ->
    u_ExtendSign x b = (if b <? 31 then let n := 8 * (b + 1) in
      unsigned (if Z.testbit x (n - 1) then x mod 2 ^ n - 2 ^ n else x mod 2 ^ n) else x);
  u_modular : forall x y m, word x -> word y -> word m ->
    u_AddMod x y m = (if m =? 0 then 0 else (x + y) mod m) /\ u_MulMod x y m = (if m =? 0 then 0 else (x * y) mod m);
  u_bitwise : forall x y, word x -> word y ->
    u_Not x = 2 ^ 256 - 1 - x /\ u_And x y = Z.land x y /\ u_Or x y = Z.lor x y /\ u_Xor x y = Z.lxor x y;
  u_Byte_law : forall x n, word x -> word n -> u_Byte x n = if n <? 32 then Z.shiftr x (8 * (31 - n)) mod 256 else 0;
  u_shifts : forall x n, word x -> 0 <= n ->
    u_Lsh x n = unsigned (Z.shiftl x n) /\ u_Rsh x n = Z.shiftr x n /\ u_SRsh x n = unsigned (Z.shiftr (signed x) n);
  u_compare : forall x y, word x -> word y ->
    u_Lt x y = (x <? y) /\ u_Gt x y = (y <? x) /\ u_Slt x y = (signed x <? signed y) /\ u_Sgt x y = (signed y <? signed x) /\
    u_Eq x y = (x =? y);
  u_tests : forall x, word x ->
    u_IsZero x = (x =? 0) /\ u_Sign x = Z.sgn (signed x) /\ u_BitLen x = (if x =? 0 then 0 else Z.log2 x + 1) /\
    u_IsUint64 x = (x <? 2 ^ 64) /\ u_Uint64 x = u64 x;
  u_Bytes_law : forall x, word x -> u_Bytes32 x = be 32 x /\ u_Bytes20 x = x mod 2 ^ 160;
  u_SetBytes_law : forall b, wf_bytes b -> u_SetBytes b = shift_or (drop (length b - 32) b);
  u_SetBytes_word : forall b, word (u_SetBytes b);
  u_FromBig_law : forall x, u_FromBig x = unsigned x
}.

(** ** The stack, the top first *)
Notation Stack := (list Z) (only parsing).

Definition Back (n : nat) (st : Stack) : option Z := st !! n.

Definition dup (n : nat) (st : Stack) : option Stack := x ← st !! (n - 1)%nat; Some (x :: st).

Definition swap (n : nat) (st : Stack) : option Stack :=
  x ← st !! 0%nat; y ← st !! (n - 1)%nat; Some (<[ 0%nat := y ]> (<[ (n - 1)%nat := x ]> st)).

(** ** The memory *)
Record Memory := { store : bytes; lastGasCost : Z }.
#[export] Instance Memory_eta : Eta Memory := fun m => {| store := store m; lastGasCost := lastGasCost m |}.

Definition NewMemory : Memory := {| store := []; lastGasCost := 0 |}.

Definition Len (m : Memory) : Z := zlen (store m).

(** [copy(dst[off:], src)], where [src] fits. *)
Definition copy_at (off : Z) (src dst : bytes) : bytes :=
  take (Z.to_nat off) dst ++ src ++ drop (Z.to_nat off + length src) dst.

Definition mem_Set (offset size : Z) (value : bytes) (m : Memory) : option Memory :=
  if 0 <? size then
    let e := u64 (offset + size) in
    if Len m <? e then None
    else if e <? offset then None
    else Some (m <| store := copy_at offset (take (Z.to_nat size) value) (store m) |>)
  else Some m.

Definition mem_Set32 `{!Uint256} (offset val : Z) (m : Memory) : option Memory :=
  if Len m <? u64 (offset + 32) then None
  else if Len m <? offset then None
  else Some (m <| store := copy_at offset (take (Z.to_nat (Len m - offset)) (u_Bytes32 val)) (store m) |>).

Definition Resize (size : Z) (m : Memory) : Memory :=
  if Len m <? size then m <| store := store m ++ replicate (Z.to_nat (size - Len m)) 0 |> else m.

(** [GetPtr] and [GetCopy], which differ in the sharing of the bytes only.  A
    slice beyond the length is taken as a panic, also within the capacity. *)
Definition GetPtr (offset size : Z) (m : Memory) : option bytes :=
  if size =? 0 then Some []
  else if offset <? Len m then
    if (offset <? 0) || (size <? 0) || (Len m <? offset + size) then None
    else Some (take (Z.to_nat size) (drop (Z.to_nat offset) (store m)))
  else Some [].

(** ** Sizes and slices ([common.go]) *)

(** The size and whether it overflowed. *)
Definition calcMemSize64WithUint `{!Uint256} (off length64 : Z) : Z * bool :=
  if length64 =? 0 then (0, false)
  else if negb (u_IsUint64 off) then (0, true)
  else let offset64 := u_Uint64 off in let val := u64 (offset64 + length64) in (val, val <? offset64).

Definition calcMemSize64 `{!Uint256} (off l : Z) : Z * bool :=
  if negb (u_IsUint64 l) then (0, true) else calcMemSize64WithUint off (u_Uint64 l).

Definition RightPadBytes (slice : bytes) (l : Z) : bytes :=
  if l <=? zlen slice then slice else slice ++ replicate (Z.to_nat (l - zlen slice)) 0.

(** [start + size] overflows for a [size] beyond [2 ^ 63] only, as the length of
    [data] fits an [int]. *)
Definition getData (data : bytes) (start size : Z) : option bytes :=
  let length := zlen data in
  let start := if length <? start then length else start in
  let e := if size <? 2 ^ 63 then start + size else u64 (start + size) in
  let e := if length <? e then length else e in
  if e <? start then None
  else Some (RightPadBytes (take (Z.to_nat (e - start)) (drop (Z.to_nat start) data)) (i64 size)).

Definition MaxUint64 : Z := 2 ^ 64 - 1.

Definition toWordSize (size : Z) : Z := if MaxUint64 - 31 <? size then MaxUint64 / 32 + 1 else (size + 31) / 32.

(** [common/math]: the result and whether it overflowed. *)
Definition SafeAdd (x y : Z) : Z * bool := (u64 (x + y), MaxUint64 - x <? y).
Definition SafeMul (x y : Z) : Z * bool := if (x =? 0) || (y =? 0) then (0, false) else (u64 (x * y), MaxUint64 / x <? y).

(** [Uint64WithOverflow] *)
Definition Uint64WithOverflow `{!Uint256} (x : Z) : Z * bool := (u_Uint64 x, negb (u_IsUint64 x)).

(** ** Jump destinations ([analysis.go]) *)
Notation bitvec := bytes (only parsing).

(** [bits[i] |= m] *)
Definition or_byte (i : Z) (m : Z) (bits : bitvec) : option bitvec :=
  b ← bits !! Z.to_nat i; Some (<[ Z.to_nat i := Z.lor b m ]> bits).

Definition bit_set (pos : Z) (bits : bitvec) : option bitvec := or_byte (pos / 8) (Z.shiftr 128 (pos mod 8)) bits.

Definition bit_set8 (pos : Z) (bits : bitvec) : option bitvec :=
  bits ← or_byte (pos / 8) (Z.shiftr 255 (pos mod 8)) bits;
  or_byte (pos / 8 + 1) (255 - Z.shiftr 255 (pos mod 8)) bits.

Definition codeSegment (pos : Z) (bits : bitvec) : option bool :=
  b ← bits !! Z.to_nat (pos / 8); Some (Z.land b (Z.shiftr 128 (pos mod 8)) =? 0).

Fixpoint set_ones (n : nat) (pos : Z) (bits : bitvec) : option bitvec :=
  match n with O => Some bits | S n => bits ← bit_set pos bits; set_ones n (pos + 1) bits end.

Fixpoint set_eights (n : nat) (pos : Z) (bits : bitvec) : option bitvec :=
  match n with O => Some bits | S n => bits ← bit_set8 pos bits; set_eights n (pos + 8) bits end.

(** The two inner loops: the eights of [numbits], then the rest. *)
Definition set_bits (numbits pos : Z) (bits : bitvec) : option bitvec :=
  bits ← set_eights (Z.to_nat (numbits / 8)) pos bits;
  set_ones (Z.to_nat (numbits mod 8)) (pos + 8 * (numbits / 8)) bits.

Definition PUSH1 : Z := 96.
Definition PUSH32 : Z := 127.
Definition JUMPDEST : Z := 91.

(** The loop from [pc]; every round advances it, so [length code] rounds are
    enough. *)
Fixpoint bitmap_loop (fuel : nat) (code : bytes) (pc : Z) (bits : bitvec) : option bitvec :=
  match code !! Z.to_nat pc with
  | None => Some bits
  | Some op =>
      match fuel with
      | O => None
      | S fuel =>
          if (PUSH1 <=? op) && (op <=? PUSH32) then
            let numbits := op - PUSH1 + 1 in
            bits ← set_bits numbits (pc + 1) bits;
            bitmap_loop fuel code (pc + 1 + numbits) bits
          else bitmap_loop fuel code (pc + 1) bits
      end
  end.

Definition codeBitmap (code : bytes) : option bitvec :=
  bitmap_loop (length code) code 0 (replicate (length code / 8 + 1 + 4) 0).

(** ** A running contract *)
Record Frame := {
  pc : Z; stack : Stack; mem : Memory; contract : Contract; Input : bytes;
  analysis : option bitvec; jumpdests : gmap bytes bitvec; internalCallTable : list (Z * Z);
  returnData : bytes; callGasTemp : Z; machine : Vm
}.

#[export] Instance Frame_eta : Eta Frame := fun f => {|
  pc := pc f; stack := stack f; mem := mem f; contract := contract f; Input := Input f; analysis := analysis f;
  jumpdests := jumpdests f; internalCallTable := internalCallTable f; returnData := returnData f; callGasTemp := callGasTemp f;
  machine := machine f
|}.

(** Effects on a frame: [None] is a panic. *)
Definition M (A : Type) := Frame -> option (A * Frame).
Definition retM {A} (a : A) : M A := fun f => Some (a, f).
Definition bindM {A B} (m : M A) (k : A -> M B) : M B := fun f => match m f with None => None | Some (a, f) => k a f end.
Notation "'let*' x := m 'in' k" := (bindM m (fun x => k)) (at level 200, x pattern, m at level 100, right associativity).
Notation "m ;;; k" := (bindM m (fun _ => k)) (at level 100, right associativity).

Definition gets {A} (p : Frame -> A) : M A := fun f => Some (p f, f).
Definition modify (g : Frame -> Frame) : M unit := fun f => Some (tt, g f).
Definition lift {A} (o : Frame -> option A) : M A := fun f => match o f with None => None | Some a => Some (a, f) end.

Definition pop : M Z := fun f => match stack f with [] => None | x :: st => Some (x, f <| stack := st |>) end.
Definition peek : M Z := lift (fun f => Back 0 (stack f)).
(** Writing through the pointer that [peek] returned. *)
Definition set_top (x : Z) : M unit := let* _ := pop in modify (fun f => f <| stack := x :: stack f |>).
Definition push (x : Z) : M unit := modify (fun f => f <| stack := x :: stack f |>).
Definition back (n : nat) : M Z := lift (fun f => Back n (stack f)).

Definition on_mem (g : Memory -> option Memory) : M unit :=
  fun f => match g (mem f) with None => None | Some m => Some (tt, f <| mem := m |>) end.
Definition load (offset size : Z) : M bytes := lift (fun f => GetPtr (i64 offset) (i64 size) (mem f)).

(** Reading and changing the state. *)
Definition ask {A} (q : StateDB -> A) : M A := gets (fun f => q (vm_state (machine f))).
Definition tell (g : StateDB -> StateDB) : M unit := modify (fun f => f <| machine := on_state g (machine f) |>).
Definition try (g : StateDB -> option StateDB) : M unit :=
  fun f => match g (vm_state (machine f)) with None => None | Some s => Some (tt, f <| machine := on_state (fun _ => s) (machine f) |>) end.

Definition self : M Z := gets (fun f => contract_self (contract f)).
Definition gas_left : M Z := gets (fun f => contract_Gas (contract f)).

(** [contract.UseGas] *)
Definition use_gas (gas : Z) : M bool :=
  fun f => let (ok, c) := UseGas gas (contract f) in Some (ok, f <| contract := c |>).
(** [contract.Gas += gas] *)
Definition return_gas (gas : Z) : M unit :=
  modify (fun f => f <| contract := (contract f) <| contract_Gas := u64 (contract_Gas (contract f) + gas) |> |>).

(** ** [contract.go] *)

(** An [OpCode] is a byte. *)
Definition GetOp (n : Z) (c : Contract) : Z := u8 (default 0 (contract_Code c !! Z.to_nat n)).

(** The analysis of the code, taken from [jumpdests] if the code has a hash.  The
    map is shared with the callers' in the source; here each run starts with an
    empty one. *)
Definition analyse : M bitvec :=
  let* c := gets contract in
  let hash := contract_CodeHash c in
  if bytes_Equal hash zero_hash then lift (fun _ => codeBitmap (contract_Code c))
  else
    let* cached := gets (fun f => jumpdests f !! hash) in
    match cached with
    | Some bits => retM bits
    | None =>
        let* bits := lift (fun _ => codeBitmap (contract_Code c)) in
        modify (fun f => f <| jumpdests := <[ hash := bits ]> (jumpdests f) |>);;; retM bits
    end.

Definition isCode (udest : Z) : M bool :=
  let* a := gets analysis in
  match a with
  | Some bits => lift (fun _ => codeSegment udest bits)
  | None =>
      let* bits := analyse in
      modify (fun f => f <| analysis := Some bits |>);;; lift (fun _ => codeSegment udest bits)
  end.

Definition validJumpdest `{!Uint256} (dest : Z) : M bool :=
  let (udest, overflow) := Uint64WithOverflow dest in
  let* code := gets (fun f => contract_Code (contract f)) in
  if overflow || (zlen code <=? udest) then retM false
  else if negb (default 0 (code !! Z.to_nat udest) =? JUMPDEST) then retM false
  else isCode udest.

(** [intercall.go] *)
Fixpoint OpInterCall (callAddress gasUsed : Z) (t : list (Z * Z)) : list (Z * Z) :=
  match t with
  | [] => [(callAddress, gasUsed)]
  | (account, gasCost) :: t =>
      if account =? callAddress then (account, u64 (gasCost + gasUsed)) :: t else (account, gasCost) :: OpInterCall callAddress gasUsed t
  end.

(** ** Which bytes of a code are data

    Read from the front, a push is followed by its operand; [skip] bytes of an
    operand are still to come. *)
Definition push_size (op : Z) : nat := if (PUSH1 <=? op) && (op <=? PUSH32) then Z.to_nat (op - PUSH1 + 1) else 0.

Fixpoint data_bytes (skip : nat) (code : bytes) : list bool :=
  match code with
  | [] => []
  | op :: code => match skip with S skip => true :: data_bytes skip code | O => false :: data_bytes (push_size op) code end
  end.

Section bitmap.

(** The bit of a position. *)
Definition bit_at (bits : bitvec) (q : Z) : bool := Z.testbit (default 0 (bits !! Z.to_nat (q / 8))) (7 - q mod 8).

Lemma codeSegment_bit q bits :
  0 <= q -> q / 8 < zlen bits -> codeSegment q bits = Some (negb (bit_at bits q)).
Proof.
  intros Hq Hl. unfold codeSegment, bit_at. destruct (lookup_lt_is_Some_2 bits (Z.to_nat (q / 8))) as [b Hb]; [unfold zlen in Hl; div_lia|].
  rewrite Hb. cbn [mbind option_bind default from_option id]. f_equal. rewrite Z.shiftr_div_pow2 by div_lia. pose proof (Z.mod_pos_bound q 8 ltac:(lia)) as Hm.
  assert (E : 128 / 2 ^ (q mod 8) = 2 ^ (7 - q mod 8)).
  { change 128 with (2 ^ 7). rewrite <- Z.pow_sub_r by lia. done. }
  rewrite E. destruct (Z.testbit b (7 - q mod 8)) eqn:Et; cbn [negb].
  - apply Z.eqb_neq. intros H0. apply (f_equal (fun z => Z.testbit z (7 - q mod 8))) in H0.
    rewrite Z.land_spec, Et, Z.pow2_bits_true, Z.bits_0 in H0 by lia. done.
  - apply Z.eqb_eq. apply Z.bits_inj'. intros n Hn. rewrite Z.land_spec, Z.bits_0.
    destruct (Z.eq_dec n (7 - q mod 8)) as [->|Hne]; [by rewrite Et|]. rewrite Z.pow2_bits_false by lia. apply andb_false_r.
Qed.

Lemma or_byte_spec i m bits :
  0 <= i < zlen bits -> exists bits', or_byte i m bits = Some bits' /\ zlen bits' = zlen bits /\
    forall q, 0 <= q -> bit_at bits' q = bit_at bits q || ((q / 8 =? i) && Z.testbit m (7 - q mod 8)).
Proof.
  intros Hi. unfold or_byte. destruct (lookup_lt_is_Some_2 bits (Z.to_nat i)) as [b Hb]; [unfold zlen in Hi; lia|].
  rewrite Hb. cbn [mbind option_bind]. eexists. split; [done|]. split; [unfold zlen; by rewrite length_insert|].
  intros q Hq. unfold bit_at. destruct (Z.eqb_spec (q / 8) i) as [E|Hne].
  - rewrite E, list_lookup_insert_eq, Hb by (unfold zlen in Hi; lia). apply Z.lor_spec.
  - rewrite list_lookup_insert_ne, orb_false_r by div_lia. done.
Qed.

(** [set] and [set8] mark one and eight positions. *)
Definition marks (bits bits' : bitvec) (pos n : Z) : Prop :=
  zlen bits' = zlen bits /\ forall q, 0 <= q -> bit_at bits' q = bit_at bits q || ((pos <=? q) && (q <? pos + n)).

Lemma marks_trans bits bits1 bits2 pos n1 n2 :
  0 <= n1 -> 0 <= n2 -> marks bits bits1 pos n1 -> marks bits1 bits2 (pos + n1) n2 -> marks bits bits2 pos (n1 + n2).
Proof.
  intros H1 H2 [L1 M1] [L2 M2]. split; [congruence|]. intros q Hq. rewrite M2, M1, <- orb_assoc by done. f_equal.
  lia.
Qed.

Lemma eight_cases (P : Z -> Prop) : P 0 -> P 1 -> P 2 -> P 3 -> P 4 -> P 5 -> P 6 -> P 7 -> forall x, 0 <= x < 8 -> P x.
Proof. intros. assert (E : x = 0 \/ x = 1 \/ x = 2 \/ x = 3 \/ x = 4 \/ x = 5 \/ x = 6 \/ x = 7) by lia. by destruct E as [->|[->|[->|[->|[->|[->|[->| ->]]]]]]]. Qed.

Lemma bit_set_spec pos bits : 0 <= pos -> pos / 8 < zlen bits -> exists bits', bit_set pos bits = Some bits' /\ marks bits bits' pos 1.
Proof.
  intros Hp Hl. unfold bit_set. destruct (or_byte_spec (pos / 8) (Z.shiftr 128 (pos mod 8)) bits) as (bits' & E & Hl' & Hb); [div_lia|].
  exists bits'. split; [done|]. split; [done|]. intros q Hq. rewrite Hb by done. f_equal.
  pose proof (Z.mod_pos_bound pos 8 ltac:(lia)) as Hm. pose proof (Z.mod_pos_bound q 8 ltac:(lia)) as Hm'.
  pose proof (Z.div_mod pos 8 ltac:(lia)) as Dp. pose proof (Z.div_mod q 8 ltac:(lia)) as Dq.
  assert (Et : Z.testbit (Z.shiftr 128 (pos mod 8)) (7 - q mod 8) = (q mod 8 =? pos mod 8)).
  { revert Hm. generalize (pos mod 8). apply eight_cases; (revert Hm'; generalize (q mod 8); apply eight_cases; reflexivity). }
  rewrite Et. lia.
Qed.

Lemma bit_set8_spec pos bits :
  0 <= pos -> pos / 8 + 1 < zlen bits -> exists bits', bit_set8 pos bits = Some bits' /\ marks bits bits' pos 8.
Proof.
  intros Hp Hl. unfold bit_set8.
  destruct (or_byte_spec (pos / 8) (Z.shiftr 255 (pos mod 8)) bits) as (bits1 & E1 & Hl1 & Hb1); [div_lia|]. rewrite E1. cbn [mbind option_bind].
  destruct (or_byte_spec (pos / 8 + 1) (255 - Z.shiftr 255 (pos mod 8)) bits1) as (bits2 & E2 & Hl2 & Hb2); [div_lia|].
  exists bits2. split; [done|]. split; [congruence|]. intros q Hq. rewrite Hb2, Hb1, <- orb_assoc by done. f_equal.
  pose proof (Z.mod_pos_bound pos 8 ltac:(lia)) as Hm. pose proof (Z.mod_pos_bound q 8 ltac:(lia)) as Hm'.
  pose proof (Z.div_mod pos 8 ltac:(lia)) as Dp. pose proof (Z.div_mod q 8 ltac:(lia)) as Dq.
  assert (Et1 : Z.testbit (Z.shiftr 255 (pos mod 8)) (7 - q mod 8) = (pos mod 8 <=? q mod 8)).
  { revert Hm. generalize (pos mod 8). apply eight_cases; (revert Hm'; generalize (q mod 8); apply eight_cases; reflexivity). }
  assert (Et2 : Z.testbit (255 - Z.shiftr 255 (pos mod 8)) (7 - q mod 8) = (q mod 8 <? pos mod 8)).
  { revert Hm. generalize (pos mod 8). apply eight_cases; (revert Hm'; generalize (q mod 8); apply eight_cases; reflexivity). }
  rewrite Et1, Et2. lia.
Qed.

Lemma set_ones_spec n pos bits :
  0 <= pos -> pos + Z.of_nat n <= 8 * zlen bits -> exists bits', set_ones n pos bits = Some bits' /\ marks bits bits' pos (Z.of_nat n).
Proof.
  revert pos bits. induction n as [|n IH]; intros pos bits Hp Hl.
  - exists bits. split; [done|]. split; [done|]. lia.
  - destruct (bit_set_spec pos bits Hp) as (bits1 & E1 & M1); [div_lia|]. cbn [set_ones]. rewrite E1. cbn [mbind option_bind].
    destruct (IH (pos + 1) bits1) as (bits2 & E2 & M2); [lia|destruct M1; lia|]. exists bits2. split; [done|].
    replace (Z.of_nat (S n)) with (1 + Z.of_nat n) by lia. eapply marks_trans; [| |exact M1|exact M2]; lia.
Qed.

Lemma set_eights_spec n pos bits :
  0 <= pos -> pos + 8 * Z.of_nat n < 8 * zlen bits ->
  exists bits', set_eights n pos bits = Some bits' /\ marks bits bits' pos (8 * Z.of_nat n).
Proof.
  revert pos bits. induction n as [|n IH]; intros pos bits Hp Hl.
  - exists bits. split; [done|]. split; [done|]. lia.
  - destruct (bit_set8_spec pos bits Hp) as (bits1 & E1 & M1); [div_lia|]. cbn [set_eights]. rewrite E1. cbn [mbind option_bind].
    destruct (IH (pos + 8) bits1) as (bits2 & E2 & M2); [lia|destruct M1; lia|]. exists bits2. split; [done|].
    replace (8 * Z.of_nat (S n)) with (8 + 8 * Z.of_nat n) by lia. eapply marks_trans; [| |exact M1|exact M2]; lia.
Qed.

Lemma set_bits_spec n pos bits :
  0 <= n -> 0 <= pos -> pos + n < 8 * zlen bits -> exists bits', set_bits n pos bits = Some bits' /\ marks bits bits' pos n.
Proof.
  intros Hn Hp Hl. unfold set_bits. pose proof (Z.div_mod n 8 ltac:(lia)) as D. pose proof (Z.mod_pos_bound n 8 ltac:(lia)) as Dm.
  destruct (set_eights_spec (Z.to_nat (n / 8)) pos bits) as (bits1 & E1 & M1); [done|div_lia|]. rewrite E1. cbn [mbind option_bind].
  rewrite Z2Nat.id in M1 by div_lia.
  destruct (set_ones_spec (Z.to_nat (n mod 8)) (pos + 8 * (n / 8)) bits1) as (bits2 & E2 & M2); [div_lia|destruct M1; lia|].
  exists bits2. split; [done|]. rewrite Z2Nat.id in M2 by lia. rewrite D. eapply marks_trans; [| |exact M1|exact M2]; div_lia.
Qed.

Lemma data_skip n code j :
  (j < length code)%nat -> data_bytes n code !! j = if (j <? n)%nat then Some true else data_bytes 0 (drop n code) !! (j - n)%nat.
Proof.
  revert n j. induction code as [|op code IH]; intros n j Hj; [by inversion Hj|]. destruct n as [|n].
  - cbn [drop]. by rewrite Nat.sub_0_r.
  - cbn [data_bytes drop]. destruct j as [|j]; [done|]. cbn [lookup list_lookup]. rewrite IH by (cbn in Hj; lia). done.
Qed.

Lemma data_from pc code op q :
  code !! pc = Some op -> (pc < q < length code)%nat ->
  data_bytes 0 (drop pc code) !! (q - pc)%nat =
  if (q - pc - 1 <? push_size op)%nat then Some true
  else data_bytes 0 (drop (pc + 1 + push_size op) code) !! (q - (pc + 1 + push_size op))%nat.
Proof.
  intros Hop Hq. rewrite (drop_S _ _ _ Hop). destruct (q - pc)%nat as [|j] eqn:E; [lia|]. cbn [data_bytes lookup list_lookup].
  rewrite data_skip by (rewrite length_drop; lia). rewrite drop_drop. replace (S j - 1)%nat with j by lia.
  destruct (j <? push_size op)%nat; [done|]. replace (S pc + push_size op)%nat with (pc + 1 + push_size op)%nat by lia. f_equal. lia.
Qed.

Lemma bitmap_loop_spec fuel code p bits :
  0 <= p -> (length code - Z.to_nat p <= fuel)%nat -> zlen bits = zlen code / 8 + 5 -> (forall q, p <= q -> bit_at bits q = false) ->
  exists bits', bitmap_loop fuel code p bits = Some bits' /\ zlen bits' = zlen bits /\
    (forall q, 0 <= q < p -> bit_at bits' q = bit_at bits q) /\
    (forall q, p <= q < zlen code -> bit_at bits' q = default false (data_bytes 0 (drop (Z.to_nat p) code) !! (Z.to_nat q - Z.to_nat p)%nat)).
Proof.
  revert p bits. induction fuel as [|fuel IH]; intros p bits Hp Hf Hl Hz.
  - exists bits. cbn [bitmap_loop]. rewrite lookup_ge_None_2 by lia. split; [done|]. split; [done|]. split; [done|]. unfold zlen. lia.
  - cbn [bitmap_loop]. destruct (code !! Z.to_nat p) as [op|] eqn:Hop.
    2:{ exists bits. split; [done|]. split; [done|]. split; [done|]. apply lookup_ge_None_1 in Hop. unfold zlen. lia. }
    pose proof (lookup_lt_Some _ _ _ Hop) as Hpl.
    assert (Hn : exists n bits1, n = push_size op /\ marks bits bits1 (p + 1) (Z.of_nat n) /\
      (if (PUSH1 <=? op) && (op <=? PUSH32) then
         bits ← set_bits (op - PUSH1 + 1) (p + 1) bits; bitmap_loop fuel code (p + 1 + (op - PUSH1 + 1)) bits
       else bitmap_loop fuel code (p + 1) bits) = bitmap_loop fuel code (p + 1 + Z.of_nat n) bits1).
    { unfold push_size. destruct ((PUSH1 <=? op) && (op <=? PUSH32)) eqn:Hpush.
      - unfold PUSH1, PUSH32 in *. destruct (set_bits_spec (op - 96 + 1) (p + 1) bits) as (bits1 & E1 & M1); [lia|lia|unfold zlen in *; div_lia|].
        exists (Z.to_nat (op - 96 + 1)), bits1. split; [done|]. rewrite Z2Nat.id by lia. split; [done|]. rewrite E1. done.
      - exists 0%nat, bits. split; [done|]. split; [split; [done|lia]|]. by rewrite Z.add_0_r. }
    destruct Hn as (n & bits1 & Hn & [L1 M1] & ->).
    destruct (IH (p + 1 + Z.of_nat n) bits1) as (bits' & E & Hl' & Hlow & Hhigh); [lia|lia|congruence| |].
    { intros q Hq. rewrite M1, Hz by lia. lia. }
    exists bits'. split; [done|]. split; [congruence|]. split.
    + intros q Hq. rewrite Hlow, M1 by lia. lia.
    + intros q Hq. destruct (Z.eq_dec q p) as [->|Hne].
      { rewrite Hlow, M1, Hz by lia. rewrite Nat.sub_diag, (drop_S _ _ _ Hop). cbn. lia. }
      rewrite (data_from _ _ _ _ Hop) by (unfold zlen in Hq; lia). rewrite <- Hn. destruct (Nat.ltb_spec (Z.to_nat q - Z.to_nat p - 1) n) as [Hc|Hc].
      * rewrite Hlow, M1, Hz by lia. cbn. lia.
      * rewrite Hhigh by lia. by replace (Z.to_nat (p + 1 + Z.of_nat n)) with (Z.to_nat p + 1 + n)%nat by lia.
Qed.

(** The bitmap is made, and a position of the code is data as read from the front. *)
Lemma codeBitmap_data code :
  exists bits, codeBitmap code = Some bits /\
    forall q, 0 <= q < zlen code -> codeSegment q bits = Some (negb (default false (data_bytes 0 code !! Z.to_nat q))).
Proof.
  unfold codeBitmap. assert (Hz : forall n q, bit_at (replicate n 0) q = false).
  { intros n q. unfold bit_at. destruct (_ !! _) as [b|] eqn:E; cbn [default from_option id]; [apply lookup_replicate in E as [-> _]|]; apply Z.bits_0. }
  destruct (bitmap_loop_spec (length code) code 0 (replicate (length code / 8 + 1 + 4) 0)) as (bits & E & Hl & _ & Hb); [lia|lia| |done|].
  { unfold zlen. rewrite length_replicate. pose proof (Nat2Z.inj_div (length code) 8). lia. }
  exists bits. split; [exact E|]. intros q Hq. rewrite codeSegment_bit; [|lia|].
  - rewrite Hb by lia. cbn [Z.to_nat drop]. by rewrite Nat.sub_0_r.
  - rewrite Hl. unfold zlen in *. rewrite length_replicate. pose proof (Nat2Z.inj_div (length code) 8). div_lia.
Qed.
End bitmap.

(** ** Jump destinations *)

(** A position of the code that is an instruction and a [JUMPDEST]. *)
Definition jump_target (code : bytes) (dest : Z) : bool :=
  (dest <? zlen code) && (default 0 (code !! Z.to_nat dest) =? JUMPDEST) && negb (default false (data_bytes 0 code !! Z.to_nat dest)).

(** The analyses kept in the frame are of its code. *)
Record caches_ok (f : Frame) : Prop := {
  analysis_ok : forall bits, analysis f = Some bits -> codeBitmap (contract_Code (contract f)) = Some bits;
  jumpdests_ok : forall bits, jumpdests f !! contract_CodeHash (contract f) = Some bits -> codeBitmap (contract_Code (contract f)) = Some bits
}.

(** Nothing but the analyses differs. *)
Definition recached (f f' : Frame) : Prop := f' = f <| analysis := analysis f' |> <| jumpdests := jumpdests f' |> /\ caches_ok f'.

Lemma analyse_spec f :
  caches_ok f -> exists bits f', analyse f = Some (bits, f') /\ codeBitmap (contract_Code (contract f)) = Some bits /\ recached f f'.
Proof.
  intros [Ha Hj]. destruct (codeBitmap_data (contract_Code (contract f))) as (bits & E & _).
  unfold analyse, bindM, gets, lift. cbv beta iota zeta. destruct (bytes_Equal _ _).
  - rewrite E. exists bits, f. split; [done|]. split; [done|]. split; [by destruct f|by split].
  - destruct (jumpdests f !! contract_CodeHash (contract f)) as [bits'|] eqn:Ej.
    + exists bits', f. split; [done|]. split; [by apply Hj|]. split; [by destruct f|split; [done|]]. by rewrite Ej.
    + rewrite E. eexists bits, _. split; [reflexivity|]. split; [done|]. split; [by destruct f|]. destruct f. split; cbn in *; [done|].
      intros b. rewrite lookup_insert_eq. by intros [= <-].
Qed.

Lemma isCode_spec q f :
  caches_ok f -> 0 <= q < zlen (contract_Code (contract f)) ->
  exists f', isCode q f = Some (negb (default false (data_bytes 0 (contract_Code (contract f)) !! Z.to_nat q)), f') /\ recached f f'.
Proof.
  intros Hc Hq. destruct (codeBitmap_data (contract_Code (contract f))) as (bits & E & Hs). specialize (Hs q Hq).
  unfold isCode, bindM at 1, gets. cbv beta iota. destruct (analysis f) as [bits'|] eqn:Ea.
  - apply (analysis_ok f Hc) in Ea. rewrite E in Ea. injection Ea as <-. unfold lift. rewrite Hs.
    exists f. split; [done|]. by split; [destruct f|].
  - destruct (analyse_spec f Hc) as (bits' & f1 & E1 & Eb & Hf1 & Hc1). rewrite E in Eb. injection Eb as <-.
    unfold bindM, lift, modify. rewrite E1. cbv beta iota. rewrite Hs. eexists. split; [reflexivity|].
    assert (Ec : contract f1 = contract f) by (rewrite Hf1; by destruct f). split.
    + rewrite Hf1. by destruct f.
    + destruct Hc1 as [Ha1 Hj1]. rewrite Ec in *. destruct f1. split; cbn in *; [|by rewrite Ec]. rewrite Ec. by intros b [= <-].
Qed.

Section jumps.
Context `{!Uint256} `{!Uint256Laws}.

(** Positions beyond 64 bits are rejected at once. *)
Lemma validJumpdest_total (dest : Z) (f : Frame) :
  word dest -> caches_ok f ->
  exists f', validJumpdest dest f = Some ((dest <? 2 ^ 64) && jump_target (contract_Code (contract f)) dest, f') /\ recached f f'.
Proof.
  intros Hw Hc. unfold validJumpdest, Uint64WithOverflow, jump_target. destruct (u_tests dest Hw) as (_ & _ & _ & -> & ->).
  unfold bindM at 1, gets. cbv beta iota. assert (Hsame : recached f f) by (by split; [destruct f|]).
  destruct (Z.ltb_spec dest (2 ^ 64)) as [H64|H64]; [|by exists f].
  unfold u64. rewrite Z.mod_small by (unfold word in Hw; lia). cbn [negb orb andb].
  destruct (Z.ltb_spec dest (zlen (contract_Code (contract f)))) as [Hl|Hl].
  - replace (_ <=? dest) with false by lia. destruct (Z.eqb_spec (default 0 (contract_Code (contract f) !! Z.to_nat dest)) JUMPDEST); cbn [negb andb].
    + apply isCode_spec; [done|]. unfold word in Hw. lia.
    + by exists f.
  - replace (_ <=? dest) with true by lia. by exists f.
Qed.

(** the check of jump destinations agrees with reading the code from its
    start.  With analyses in the frame that belong to its code, the check does not
    panic; it accepts a word exactly if it is a position of the code that holds
    [JUMPDEST] and is not part of the operand of a push; and it changes nothing but
    the analyses it keeps, which still belong to the code.  The length of a code
    fits an [int]. *)
Theorem validJumpdest_spec (dest : Z) (f : Frame) :
  word dest -> caches_ok f -> zlen (contract_Code (contract f)) < 2 ^ 63 ->
  exists f', validJumpdest dest f = Some (jump_target (contract_Code (contract f)) dest, f') /\ recached f f'.
Proof.
  intros Hw Hc Hl. destruct (validJumpdest_total dest f Hw Hc) as (f' & E & Hr). exists f'. split; [|done]. rewrite E. do 2 f_equal.
  unfold jump_target. lia.
Qed.
End jumps.

(** ** The package [uint256] on integers *)
Module ToyUint256.
#[export] Instance lib : Uint256 := {|
  u_Add x y := unsigned (x + y); u_Sub x y := unsigned (x - y); u_Mul x y := unsigned (x * y);
  u_Div x y := if y =? 0 then 0 else x / y; u_Mod x y := if y =? 0 then 0 else x mod y;
  u_SDiv x y := if y =? 0 then 0 else unsigned (Z.quot (signed x) (signed y));
  u_SMod x y := if y =? 0 then 0 else unsigned (Z.rem (signed x) (signed y));
  u_Exp x y := unsigned (x ^ y);
  u_ExtendSign x b :=
    if b <? 31 then let n := 8 * (b + 1) in unsigned (if Z.testbit x (n - 1) then x mod 2 ^ n - 2 ^ n else x mod 2 ^ n) else x;
  u_AddMod x y m := if m =? 0 then 0 else (x + y) mod m; u_MulMod x y m := if m =? 0 then 0 else (x * y) mod m;
  u_Not x := 2 ^ 256 - 1 - x; u_And := Z.land; u_Or := Z.lor; u_Xor := Z.lxor;
  u_Byte x n := if n <? 32 then Z.shiftr x (8 * (31 - n)) mod 256 else 0;
  u_Lsh x n := unsigned (Z.shiftl x n); u_Rsh := Z.shiftr; u_SRsh x n := unsigned (Z.shiftr (signed x) n);
  u_Lt := Z.ltb; u_Gt x y := y <? x; u_Slt x y := signed x <? signed y; u_Sgt x y := signed y <? signed x; u_Eq := Z.eqb;
  u_IsZero x := x =? 0; u_Sign x := Z.sgn (signed x); u_BitLen x := if x =? 0 then 0 else Z.log2 x + 1;
  u_IsUint64 x := x <? 2 ^ 64; u_Uint64 := u64; u_Bytes32 := be 32; u_Bytes20 x := x mod 2 ^ 160;
  u_SetBytes b := unsigned (shift_or (drop (length b - 32) b)); u_FromBig := unsigned
|}.

#[export] Instance laws : Uint256Laws.
Proof.
  split; try (intros; by split_and!); try done.
  - intros b Hb. cbn [u_SetBytes lib]. unfold unsigned. apply Z.mod_small.
    destruct (shift_or_bound (drop (length b - 32) b)) as [H0 H1]; [by apply Forall_drop|]. split; [done|].
    eapply Z.lt_le_trans; [exact H1|]. apply Z.pow_le_mono_r; [lia|]. unfold zlen. rewrite length_drop. lia.
  - intros b. apply Z.mod_pos_bound. lia.
Qed.
End ToyUint256.

#[local] Existing Instance ToyUint256.lib.
#[local] Existing Instance ToyUint256.laws.

(** A push of the byte 91, a [JUMPDEST]: the operand is not a destination. *)
Module ToyJump.
Definition frame : Frame := {|
  pc := 0; stack := []; mem := NewMemory;
  contract := {| CallerAddress := 7; contract_self := 8; contract_value := 0; contract_Gas := 100; contract_Code := [96; 91; 91];
                 contract_CodeHash := zero_hash; CodeAddr := 8 |};
  Input := []; analysis := None; jumpdests := ∅; internalCallTable := []; returnData := []; callGasTemp := 0;
  machine := ToyEvm.machine |}.
Lemma frame_ok : caches_ok frame.
Proof. by split. Qed.
End ToyJump.

Lemma validJumpdest_spec_witness :
  exists f1 f2, validJumpdest 1 ToyJump.frame = Some (false, f1) /\ validJumpdest 2 ToyJump.frame = Some (true, f2) /\ recached ToyJump.frame f2.
Proof.
  destruct (validJumpdest_spec 1 ToyJump.frame ltac:(unfold word; lia) ToyJump.frame_ok ltac:(by vm_compute)) as (f1 & E1 & _).
  destruct (validJumpdest_spec 2 ToyJump.frame ltac:(unfold word; lia) ToyJump.frame_ok ltac:(by vm_compute)) as (f2 & E2 & R2).
  exists f1, f2. split; [exact E1|]. split; [exact E2|exact R2].
Defined.
