(* ===== verification/Abi.v ===== *)
(** * [accounts/abi]: the contract ABI

    The encoding of typed values as the arguments of a contract call ([type.go],
    [pack.go], [argument.go]) and its decoding ([unpack.go]).  A value carries its
    Go kind; Go's reflection on struct fields is positional here.  Decoding works
    on bytes that anyone may have sent: [None] is a panic, [inr] an error. *)
From S2P Require Import Prelude Rlp Common Header EvmMachine.

(** ** Types and values *)
Inductive Ty :=
  | IntTy (size : Z) | UintTy (size : Z) | BoolTy | StringTy | SliceTy (elem : Ty) | ArrayTy (size : Z) (elem : Ty)
  | TupleTy (elems : list Ty) | AddressTy | FixedBytesTy (size : Z) | BytesTy | HashTy | FunctionTy.

(** The Go kind of a number: a sized integer or a [big.Int]. *)
Inductive NumKind := KInt (bits : Z) | KUint (bits : Z) | KBig.

Inductive Val :=
  | VNum (k : NumKind) (x : Z) | VBool (b : bool) | VString (s : bytes) | VBytes (b : bytes)
  | VByteArray (b : bytes) | VList (l : list Val) | VStruct (fields : list Val).

#[export] Instance NumKind_eq_dec : EqDecision NumKind.
Proof. solve_decision. Defined.

Definition requiresLengthPrefix (t : Ty) : bool := match t with StringTy | BytesTy | SliceTy _ => true | _ => false end.

Fixpoint isDynamicType (t : Ty) : bool :=
  match t with
  | TupleTy elems => existsb isDynamicType elems
  | StringTy | BytesTy | SliceTy _ => true
  | ArrayTy _ elem => isDynamicType elem
  | _ => false
  end.

Fixpoint getTypeSize (t : Ty) : Z :=
  match t with
  | ArrayTy size elem =>
      if isDynamicType elem then 32
      else match elem with ArrayTy _ _ | TupleTy _ => size * getTypeSize elem | _ => size * 32 end
  | TupleTy elems => if isDynamicType t then 32 else foldr Z.add 0 (getTypeSize <$> elems)
  | _ => 32
  end.

(** ** Packing *)

(** [reflectIntType] *)
Definition num_kind (unsigned : bool) (size : Z) : NumKind :=
  if (size =? 8) || (size =? 16) || (size =? 32) || (size =? 64) then (if unsigned then KUint size else KInt size) else KBig.

(** [U256], of an integer of any kind. *)
Definition packNum (x : Z) : bytes := be 32 (unsigned x).

Definition LeftPadBytes (b : bytes) (l : Z) : bytes := if l <=? zlen b then b else replicate (Z.to_nat (l - zlen b)) 0 ++ b.

Definition packBytesSlice (b : bytes) (l : Z) : bytes := packNum l ++ RightPadBytes b ((l + 31) / 32 * 32).

(** The types whose Go kind is that of the value. *)
Definition packElement (t : Ty) (v : Val) : option bytes :=
  match t, v with
  | IntTy size, VNum k x => if bool_decide (k = num_kind false size) then Some (packNum x) else None
  | UintTy size, VNum k x => if bool_decide (k = num_kind true size) then Some (packNum x) else None
  | StringTy, VString s => Some (packBytesSlice s (zlen s))
  | AddressTy, VByteArray b => Some (LeftPadBytes b 32)
  | BoolTy, VBool b => Some (be 32 (if b then 1 else 0))
  | BytesTy, VBytes b => Some (packBytesSlice b (zlen b))
  | FixedBytesTy size, VByteArray b => if zlen b =? size then Some (RightPadBytes b 32) else None
  | FunctionTy, VByteArray b => Some (RightPadBytes b 32)
  | _, _ => None
  end.

(** Heads and tails: the packed values of dynamic types go to the tail, with their
    offset in the head. *)
Fixpoint join (offset : Z) (l : list (bool * bytes)) : bytes * bytes :=
  match l with
  | [] => ([], [])
  | (dynamic, val) :: l =>
      if dynamic : bool then let (ret, tail) := join (offset + zlen val) l in (packNum offset ++ ret, val ++ tail)
      else let (ret, tail) := join offset l in (val ++ ret, tail)
  end.

Definition joined (offset : Z) (l : list (bool * bytes)) : bytes := let (ret, tail) := join offset l in ret ++ tail.

Definition head_size (ts : list Ty) : Z := foldr Z.add 0 (getTypeSize <$> ts).

(** The error of a value that does not have the type is not told from others. *)
Fixpoint pack (t : Ty) (v : Val) : option bytes :=
  let elements elem l :=
    vals ← mapM (pack elem) l;
    let offset := if isDynamicType elem then getTypeSize elem * zlen l else 0 in
    Some (joined offset ((fun val => (isDynamicType elem, val)) <$> vals)) in
  match t, v with
  | SliceTy elem, VList l => b ← elements elem l; Some (packNum (zlen l) ++ b)
  | ArrayTy size elem, VList l => if zlen l =? size then elements elem l else None
  | TupleTy elems, VStruct fields =>
      let fix go ts vs :=
        match ts, vs with
        | [], [] => Some []
        | t :: ts, v :: vs => val ← pack t v; rest ← go ts vs; Some ((isDynamicType t, val) :: rest)
        | _, _ => None
        end in
      vals ← go elems fields; Some (joined (head_size elems) vals)
  | _, _ => packElement t v
  end.

Record Argument := { arg_Type : Ty; arg_Indexed : bool }.

(** The values of a list of types. *)
Fixpoint pack_all (ts : list Ty) (vs : list Val) : option (list (bool * bytes)) :=
  match ts, vs with
  | [], [] => Some []
  | t :: ts, v :: vs => val ← pack t v; rest ← pack_all ts vs; Some ((isDynamicType t, val) :: rest)
  | _, _ => None
  end.

Definition Pack (args : list Argument) (vs : list Val) : option bytes :=
  vals ← pack_all (arg_Type <$> args) vs; Some (joined (head_size (arg_Type <$> args)) vals).

(** ** Unpacking *)
Definition Res (A : Type) : Type := option (A + string).
Definition ret {A} (a : A) : Res A := Some (inl a).
Definition err {A} (e : string) : Res A := Some (inr e).
Definition bindR {A B} (m : Res A) (k : A -> Res B) : Res B :=
  match m with None => None | Some (inr e) => Some (inr e) | Some (inl a) => k a end.
Notation "'let?' x := m 'in' k" := (bindR m (fun x => k)) (at level 200, x pattern, m at level 100, right associativity).

(** [b[i:j]], of a slice whose capacity is its length. *)
Definition slice (b : bytes) (i j : Z) : Res bytes :=
  if (0 <=? i) && (i <=? j) && (j <=? zlen b) then ret (take (Z.to_nat (j - i)) (drop (Z.to_nat i) b)) else None.

Definition last_bytes (n : nat) (b : bytes) : bytes := drop (length b - n) b.

(** [intN(x)] *)
Definition to_signed (bits x : Z) : Z := if x <? 2 ^ (bits - 1) then x else x - 2 ^ bits.

Definition ReadInteger (unsigned : bool) (size : Z) (b : bytes) : Val :=
  match num_kind unsigned size with
  | KUint n => VNum (KUint n) (shift_or (last_bytes (Z.to_nat (n / 8)) b))
  | KInt n => VNum (KInt n) (to_signed n (shift_or (last_bytes (Z.to_nat (n / 8)) b)))
  | KBig =>
      let x := shift_or b in
      VNum KBig (if negb unsigned && Z.testbit x 255 then - (2 ^ 256 - 1 - x + 1) else x)
  end.

Definition errBadBool : string := "abi: improperly encoded boolean value".

Definition readBool (word : bytes) : Res Val :=
  if negb (forallb (Z.eqb 0) (take 31 word)) then err errBadBool
  else match word !! 31%nat with
  | None => None
  | Some b => if b =? 0 then ret (VBool false) else if b =? 1 then ret (VBool true) else err errBadBool
  end.

Definition readFunctionType (word : bytes) : Res Val :=
  if negb (shift_or (take 8 (drop 24 word)) =? 0) then err "abi: got improperly encoded function type" else ret (VByteArray (take 24 word)).

(** The start and the length of the value that an offset points to. *)
Definition lengthPrefixPointsTo (index : Z) (output : bytes) : Res (Z * Z) :=
  let? word := slice output index (index + 32) in
  let bigOffsetEnd := shift_or word + 32 in
  if zlen output <? bigOffsetEnd then err "abi: cannot marshal in to go slice: offset would go over slice boundary"
  else if 2 ^ 63 <=? bigOffsetEnd then err "abi offset larger than int64"
  else
    let? lengthWord := slice output (bigOffsetEnd - 32) bigOffsetEnd in
    let length := shift_or lengthWord in
    let totalSize := bigOffsetEnd + length in
    if 2 ^ 63 <=? totalSize then err "abi: length larger than int64"
    else if zlen output <? totalSize then err "abi: cannot marshal in to go type: length insufficient"
    else ret (bigOffsetEnd, length).

Definition tuplePointsTo (index : Z) (output : bytes) : Res Z :=
  let? word := slice output index (index + 32) in
  let offset := shift_or word in
  if zlen output <? offset then err "abi: cannot marshal in to go slice: offset would go over slice boundary"
  else if 2 ^ 63 <=? offset then err "abi offset larger than int64"
  else ret offset.

(** [forEachUnpack], from position 0: the elements from position [i] on. *)
Fixpoint each_element (read : Z -> Res Val) (elemSize i : Z) (n : nat) : Res (list Val) :=
  match n with
  | O => ret []
  | S n => let? v := read i in let? l := each_element read elemSize (i + elemSize) n in ret (v :: l)
  end.

Definition forEachUnpack (read : Z -> Res Val) (elemSize : Z) (output : bytes) (size : Z) : Res Val :=
  if size <? 0 then err "cannot marshal input to array, size is negative"
  else if zlen output <? 32 * size then err "abi: cannot marshal in to go array: offset would go over slice boundary"
  else let? l := each_element read elemSize 0 (Z.to_nat size) in ret (VList l).

(** The words a static array or tuple takes beyond the first. *)
Definition virtual_args (t : Ty) : Z :=
  match t with ArrayTy _ _ | TupleTy _ => if negb (isDynamicType t) then getTypeSize t / 32 - 1 else 0 | _ => 0 end.

(** [word[0:t.Size]] of [ReadFixedBytes] may go beyond the word, up to the capacity
    of the data. *)
Fixpoint toGoType (t : Ty) (index : Z) (output : bytes) : Res Val :=
  let elements elem b size := forEachUnpack (fun i => toGoType elem i b) (getTypeSize elem) b size in
  let fix fields (ts : list Ty) (n virtualArgs : Z) (b : bytes) : Res (list Val) :=
    match ts with
    | [] => ret []
    | t :: ts =>
        let? v := toGoType t ((n + virtualArgs) * 32) b in
        let? l := fields ts (n + 1) (virtualArgs + virtual_args t) b in ret (v :: l)
    end in
  if zlen output <? index + 32 then err "abi: cannot marshal in to go type: length insufficient"
  else
    let? word := slice output index (index + 32) in
    match t with
    | TupleTy elems =>
        let? b := (if isDynamicType t then let? begin := tuplePointsTo index output in slice output begin (zlen output)
                   else slice output index (zlen output)) in
        let? l := fields elems 0 0 b in ret (VStruct l)
    | SliceTy elem =>
        let? (begin, length) := lengthPrefixPointsTo index output in
        let? b := slice output begin (zlen output) in elements elem b length
    | ArrayTy size elem =>
        if isDynamicType elem then
          let offset := shift_or (last_bytes 8 word) in
          if zlen output <? offset then err "abi: toGoType offset greater than output length"
          else let? b := slice output offset (zlen output) in elements elem b size
        else let? b := slice output index (zlen output) in elements elem b size
    | StringTy =>
        let? (begin, length) := lengthPrefixPointsTo index output in
        let? b := slice output begin (begin + length) in ret (VString b)
    | BytesTy =>
        let? (begin, length) := lengthPrefixPointsTo index output in
        let? b := slice output begin (begin + length) in ret (VBytes b)
    | IntTy size => ret (ReadInteger false size word)
    | UintTy size => ret (ReadInteger true size word)
    | BoolTy => readBool word
    | AddressTy => ret (VByteArray (last_bytes 20 word))
    | HashTy => ret (VByteArray word)
    | FixedBytesTy size => let? b := slice output index (index + size) in ret (VByteArray b)
    | FunctionTy => readFunctionType word
    end.

Fixpoint unpack_all (ts : list Ty) (n virtualArgs : Z) (b : bytes) : Res (list Val) :=
  match ts with
  | [] => ret []
  | t :: ts =>
      let? v := toGoType t ((n + virtualArgs) * 32) b in
      let? l := unpack_all ts (n + 1) (virtualArgs + virtual_args t) b in ret (v :: l)
  end.

Definition NonIndexed (args : list Argument) : list Argument := filter (fun a => arg_Indexed a = false) args.

Definition UnpackValues (args : list Argument) (data : bytes) : Res (list Val) := unpack_all (arg_Type <$> NonIndexed args) 0 0 data.

Definition Unpack (args : list Argument) (data : bytes) : Res (list Val) :=
  if zlen data =? 0 then
    if negb (zlen (NonIndexed args) =? 0) then err "abi: attempting to unmarshall an empty string while arguments are expected" else ret []
  else UnpackValues args data.

(** ** [abi.go]: methods and events *)

(** [None] is the nil list of arguments. *)
Record Method := { m_ID : bytes; m_Inputs : list Argument; m_Outputs : option (list Argument) }.
Record Event := { ev_ID : bytes; ev_Inputs : option (list Argument) }.

Record ABI := { Constructor : Method; Methods : gmap string Method; Events : gmap string Event }.

Definition abi_Pack (abi : ABI) (name : string) (args : list Val) : option bytes :=
  if bool_decide (name = EmptyString) then Pack (m_Inputs (Constructor abi)) args
  else method ← Methods abi !! name; arguments ← Pack (m_Inputs method) args; Some (m_ID method ++ arguments).

Definition getArguments (abi : ABI) (name : string) (data : bytes) : Res (list Argument) :=
  let? args := match Methods abi !! name with
               | Some method => if negb (zlen data mod 32 =? 0) then err "abi: improperly formatted output" else ret (m_Outputs method)
               | None => ret None
               end in
  let args := match Events abi !! name with Some event => ev_Inputs event | None => args end in
  match args with None => err "abi: could not locate named method or event" | Some args => ret args end.

Definition abi_Unpack (abi : ABI) (name : string) (data : bytes) : Res (list Val) :=
  let? args := getArguments abi name data in Unpack args data.

(** The first method of the map's iteration order: any of those with the id. *)
Definition MethodById (abi : ABI) (sigdata : bytes) (method : Method) : Prop :=
  4 <= zlen sigdata /\ exists name, Methods abi !! name = Some method /\ m_ID method = take 4 sigdata.

Section Selector.
Context (Keccak256 : bytes -> bytes).

Definition revertSelector : bytes := take 4 (Keccak256 (string_bytes "Error(string)")).

Definition UnpackRevert (data : bytes) : Res bytes :=
  if zlen data <? 4 then err "invalid data for unpacking"
  else if negb (bool_decide (take 4 data = revertSelector)) then err "invalid data for unpacking"
  else
    let? unpacked := Unpack [{| arg_Type := StringTy; arg_Indexed := false |}] (drop 4 data) in
    match unpacked with VString s :: _ => ret s | _ => None end.
End Selector.

(** ** [topics.go]: indexed values *)
Inductive Rule :=
  | RHash (h : bytes) | RAddress (a : bytes) | RBig (x : Z) | RBool (b : bool) | RInt (size : nat) (x : Z) | RUint (x : Z)
  | RString (s : bytes) | RBytes (b : bytes) | RByteArray (b : bytes) | RUnsupported.

Fixpoint set_bytes (topic : bytes) (rule : Z) (i n : nat) : bytes :=
  match n with O => topic | S n => set_bytes (<[(31 - i)%nat := Z.shiftr rule (Z.of_nat i * 8) mod 256]> topic) rule (S i) n end.

Definition genIntType (rule : Z) (size : nat) : bytes := set_bytes (replicate 32 (if rule <? 0 then 255 else 0)) rule 0 size.

(** [copy(topic[HashLength-len(blob):], blob)]: the slice panics for a longer blob. *)
Definition copy_right (blob : bytes) : Res bytes := if 32 <? zlen blob then None else ret (replicate (32 - length blob) 0 ++ blob).

Section Topics.
Context (Keccak256 : bytes -> bytes).

Definition make_topic (rule : Rule) : Res bytes :=
  match rule with
  | RHash h => ret h
  | RAddress a => ret (replicate 12 0 ++ a)
  | RBig x => copy_right (big_Bytes (Z.abs x))
  | RBool b => ret (if b then replicate 31 0 ++ [1] else replicate 32 0)
  | RInt size x => ret (genIntType x size)
  | RUint x => copy_right (big_Bytes x)
  | RString b | RBytes b => ret (Keccak256 b)
  | RByteArray b => if 32 <? zlen b then None else ret (b ++ replicate (32 - length b) 0)
  | RUnsupported => err "unsupported indexed type"
  end.

Fixpoint make_filter (filter : list Rule) : Res (list bytes) :=
  match filter with
  | [] => ret []
  | rule :: filter => let? topic := make_topic rule in let? l := make_filter filter in ret (topic :: l)
  end.

Fixpoint MakeTopics (query : list (list Rule)) : Res (list (list bytes)) :=
  match query with
  | [] => ret []
  | filter :: query => let? l := make_filter filter in let? ls := MakeTopics query in ret (l :: ls)
  end.
End Topics.

Definition parse_topic (t : Ty) (topic : bytes) : Res Val :=
  match t with
  | TupleTy _ => err "tuple type in topic reconstruction"
  | StringTy | BytesTy | SliceTy _ | ArrayTy _ _ => ret (VByteArray topic)
  | FunctionTy =>
      if negb (shift_or (take 8 topic) =? 0) then err "bind: got improperly encoded function type" else ret (VByteArray (drop 8 topic))
  | _ => toGoType t 0 topic
  end.

(** The values handed to the setter, in order. *)
Fixpoint parse_fields (fields : list Argument) (topics : list bytes) : Res (list Val) :=
  match fields, topics with
  | arg :: fields, topic :: topics =>
      if negb (arg_Indexed arg) then err "non-indexed field in topic reconstruction"
      else let? reconstr := parse_topic (arg_Type arg) topic in let? l := parse_fields fields topics in ret (reconstr :: l)
  | _, _ => ret []
  end.

Definition parseTopicWithSetter (fields : list Argument) (topics : list bytes) : Res (list Val) :=
  if negb (zlen fields =? zlen topics) then err "topic/field count mismatch" else parse_fields fields topics.

(** ** Types that make sense *)

(** Fixed bytes of at most a word, as Solidity has them ([NewType] also accepts
    longer ones), and no negative sizes. *)
Fixpoint sane (t : Ty) : bool :=
  match t with
  | SliceTy e => sane e
  | ArrayTy n e => (0 <=? n) && sane e
  | TupleTy l => forallb sane l
  | FixedBytesTy n => (0 <=? n) && (n <=? 32)
  | _ => true
  end.

(** Moreover the sizes stay below [2^58] words, so that Go's [int] holds them
    ([32*size] in [forEachUnpack], the products of [getTypeSize]). *)
Fixpoint decodable (t : Ty) : bool :=
  match t with
  | SliceTy e => decodable e
  | ArrayTy n e => (0 <=? n) && (n <? 2 ^ 58) && (getTypeSize (ArrayTy n e) <? 2 ^ 62) && decodable e
  | TupleTy l => (head_size l <? 2 ^ 62) && forallb decodable l
  | FixedBytesTy n => (0 <=? n) && (n <=? 32)
  | _ => true
  end.

(** Of a sane type: no value is encoded as nothing. *)
Fixpoint sized (t : Ty) : bool :=
  (isDynamicType t || (0 <? getTypeSize t)) &&
  match t with SliceTy e | ArrayTy _ e => sized e | TupleTy l => forallb sized l | _ => true end.

Definition in_range (unsigned : bool) (k : NumKind) (x : Z) : bool :=
  match k with
  | KUint n => (0 <=? x) && (x <? 2 ^ n)
  | KInt n => (- 2 ^ (n - 1) <=? x) && (x <? 2 ^ (n - 1))
  | KBig => if unsigned then (0 <=? x) && (x <? 2 ^ 256) else (- 2 ^ 255 <=? x) && (x <? 2 ^ 255)
  end.

(** The values of a type, within its range. *)
Fixpoint has_type (t : Ty) (v : Val) : bool :=
  match t, v with
  | IntTy s, VNum k x => bool_decide (k = num_kind false s) && in_range false k x
  | UintTy s, VNum k x => bool_decide (k = num_kind true s) && in_range true k x
  | BoolTy, VBool _ | StringTy, VString _ | BytesTy, VBytes _ => true
  | AddressTy, VByteArray b => zlen b =? 20
  | FixedBytesTy n, VByteArray b => zlen b =? n
  | FunctionTy, VByteArray b => zlen b =? 24
  | SliceTy e, VList l => forallb (has_type e) l
  | ArrayTy n e, VList l => (zlen l =? n) && forallb (has_type e) l
  | TupleTy ts, VStruct vs =>
      (fix go ts vs := match ts, vs with [], [] => true | t :: ts, v :: vs => has_type t v && go ts vs | _, _ => false end) ts vs
  | _, _ => false
  end.

(** Induction with the elements of tuples. *)
Lemma Ty_ind' (P : Ty -> Prop) :
  (forall t, match t with SliceTy e | ArrayTy _ e => P e | TupleTy l => Forall P l | _ => True end -> P t) -> forall t, P t.
Proof.
  intros H. fix IH 1. intros t. apply H. destruct t; try exact I; [apply IH|apply IH|]. induction elems; constructor; [apply IH|done].
Qed.

Lemma scalar_size size e : isDynamicType e = false -> getTypeSize (ArrayTy size e) = size * getTypeSize e.
Proof. intros Hd. cbn [getTypeSize]. rewrite Hd. by destruct e. Qed.

Lemma tuple_size l : isDynamicType (TupleTy l) = false -> getTypeSize (TupleTy l) = head_size l.
Proof. intros Hd. unfold head_size. by cbn [getTypeSize]; rewrite Hd. Qed.

(** Sizes are whole words. *)
Lemma size_words t : sane t = true -> exists k, 0 <= k /\ getTypeSize t = 32 * k.
Proof.
  induction t as [t IH] using Ty_ind'. intros Hs. destruct (isDynamicType t) eqn:Ed.
  { exists 1. split; [done|]. destruct t; try done; cbn [getTypeSize]; first [by rewrite Ed|cbn in Ed; by rewrite Ed]. }
  destruct t; try (by exists 1).
  - cbn in Hs. apply andb_true_iff in Hs as [Hn Hs]. destruct (IH Hs) as (k & Hk & E). exists (size * k). rewrite scalar_size, E by done. lia.
  - rewrite tuple_size by done. clear Ed. unfold head_size. cbn in Hs. induction elems as [|t l IHl]; [by exists 0|]. cbn in Hs. apply andb_true_iff in Hs as [Ht Hs].
    apply Forall_cons_1 in IH as [IHt IH]. destruct (IHt Ht) as (k & Hk & E), (IHl IH Hs) as (k' & Hk' & E'). exists (k + k'). cbn. rewrite E. cbn in E'. lia.
Qed.

Lemma size_pos t : sane t = true -> sized t = true -> 32 <= getTypeSize t.
Proof.
  intros Hs Hz. destruct (size_words t Hs) as (k & Hk & E). destruct t; cbn [sized] in Hz; apply andb_true_iff in Hz as [Hz _];
    apply orb_true_iff in Hz as [Hz|Hz]; rewrite ?Z.ltb_lt in Hz; try lia; try done; cbn [getTypeSize]; first [by rewrite Hz|cbn in Hz; by rewrite Hz].
Qed.

(** ** Malformed data is refused

    [ok m]: no panic. *)
Definition ok {A} (m : Res A) : Prop := m <> None.

Lemma ok_bind {A B} (m : Res A) (k : A -> Res B) : ok m -> (forall a, m = ret a -> ok (k a)) -> ok (bindR m k).
Proof. intros Hm Hk. destruct m as [[a|e]|]; [by apply Hk|done|by destruct Hm]. Qed.

Lemma ok_slice b i j : 0 <= i <= j -> j <= zlen b -> ok (slice b i j).
Proof. intros Hi Hj. unfold slice. rewrite (proj2 (Z.leb_le 0 i)), (proj2 (Z.leb_le i j)), (proj2 (Z.leb_le j _)) by lia. done. Qed.

Lemma slice_len b i j w : slice b i j = ret w -> zlen w = j - i /\ 0 <= i <= j /\ j <= zlen b.
Proof.
  unfold slice. destruct (Z.leb_spec 0 i), (Z.leb_spec i j), (Z.leb_spec j (zlen b)); try done. intros [= <-]. unfold zlen in *.
  rewrite length_take, length_drop. lia.
Qed.

(** The first bytes of a word. *)
Lemma slice_prefix b i w n : slice b i (i + 32) = ret w -> 0 <= n <= 32 -> slice b i (i + n) = slice w 0 n.
Proof.
  intros Hw Hn. pose proof (slice_len _ _ _ _ Hw) as (Hl & Hi & Hb). revert Hw. unfold slice.
  rewrite (proj2 (Z.leb_le 0 i)), (proj2 (Z.leb_le i (i + 32))), (proj2 (Z.leb_le (i + 32) _)), (proj2 (Z.leb_le i (i + n))), (proj2 (Z.leb_le (i + n) _)),
    (proj2 (Z.leb_le 0 n)), (proj2 (Z.leb_le n _)) by lia. cbn [andb].
  intros Hw. apply (inj Some), (inj inl) in Hw as <-. unfold ret. do 2 f_equal. change (Z.to_nat 0) with 0%nat. rewrite drop_0, take_take. f_equal. lia.
Qed.

Lemma ok_if {A} (b : bool) e (m : Res A) : (b = false -> ok m) -> ok (if b then err e else m).
Proof. destruct b; [done|auto]. Qed.

Lemma slice_wf b i j w : wf_bytes b -> slice b i j = ret w -> wf_bytes w.
Proof. unfold slice. destruct (_ && _); [|done]. intros Hb [= <-]. by apply Forall_take, Forall_drop. Qed.

Lemma ok_prefix index output :
  wf_bytes output -> 0 <= index -> index + 32 <= zlen output -> ok (lengthPrefixPointsTo index output).
Proof.
  intros Hwf Hi Hl. unfold lengthPrefixPointsTo. apply ok_bind; [apply ok_slice; lia|]. intros w Hw. apply ok_if. intros H1. apply ok_if. intros H2.
  apply Z.ltb_ge in H1. pose proof (shift_or_bound w (slice_wf _ _ _ _ Hwf Hw)). apply ok_bind; [apply ok_slice; lia|]. intros lw _. apply ok_if. intros _. by apply ok_if.
Qed.

(** Where a length prefix points to is within the data. *)
Lemma prefix_bounds index output begin length :
  wf_bytes output -> lengthPrefixPointsTo index output = ret (begin, length) -> 0 <= begin /\ 0 <= length /\ begin + length <= zlen output.
Proof.
  intros Hwf. unfold lengthPrefixPointsTo. destruct (slice output index (index + 32)) as [[w|]|] eqn:Ew; try done. cbn [bindR].
  pose proof (shift_or_bound w (slice_wf _ _ _ _ Hwf Ew)) as Hw. cbv zeta. destruct (_ <? _); [done|]. destruct (_ <=? _); [done|].
  destruct (slice output (shift_or w + 32 - 32) _) as [[lw|]|] eqn:El; try done. cbn [bindR]. pose proof (shift_or_bound lw (slice_wf _ _ _ _ Hwf El)). destruct (_ <=? _); [done|].
  destruct (Z.ltb_spec (zlen output) (shift_or w + 32 + shift_or lw)); [done|]. intros [= <- <-]. lia.
Qed.

Lemma ok_each read elemSize i n :
  0 <= elemSize -> 0 <= i -> (forall i, 0 <= i -> ok (read i)) -> ok (each_element read elemSize i n).
Proof.
  intros Hs Hi Hr. revert i Hi. induction n as [|n IH]; intros i Hi; [done|]. cbn. apply ok_bind; [by apply Hr|]. intros v _.
  apply ok_bind; [apply IH; lia|done].
Qed.

Lemma ok_forEach read elemSize b size : 0 <= elemSize -> (forall i, 0 <= i -> ok (read i)) -> ok (forEachUnpack read elemSize b size).
Proof. intros Hs Hr. unfold forEachUnpack. apply ok_if. intros _. apply ok_if. intros _. apply ok_bind; [by apply ok_each|done]. Qed.

(** The fields of a tuple are read as the arguments. *)
Lemma toGoType_tuple ts index output :
  toGoType (TupleTy ts) index output =
  (if zlen output <? index + 32 then err "abi: cannot marshal in to go type: length insufficient"
   else
     let? word := slice output index (index + 32) in
     let? b := (if isDynamicType (TupleTy ts) then let? begin := tuplePointsTo index output in slice output begin (zlen output)
                else slice output index (zlen output)) in
     let? l := unpack_all ts 0 0 b in ret (VStruct l)).
Proof.
  done.
Qed.

Lemma pack_tuple ts vs : pack (TupleTy ts) (VStruct vs) = (vals ← pack_all ts vs; Some (joined (head_size ts) vals)).
Proof.
  done.
Qed.

Lemma virtual_size t : sane t = true -> (virtual_args t + 1) * 32 = getTypeSize t.
Proof.
  intros Hs. destruct (size_words t Hs) as (k & Hk & E). unfold virtual_args. destruct t; try (cbn; lia); destruct (isDynamicType _) eqn:Ed; cbn [negb];
    try (rewrite E; div_lia); cbn [getTypeSize]; first [rewrite Ed; lia|cbn in Ed; rewrite Ed; lia].
Qed.

Lemma ok_fields ts n va b :
  Forall (fun t => sane t = true -> forall index output, wf_bytes output -> 0 <= index -> ok (toGoType t index output)) ts -> wf_bytes b ->
  forallb sane ts = true -> 0 <= n + va -> ok (unpack_all ts n va b).
Proof.
  intros Hts Hwf. revert n va. induction Hts as [|t ts Ht _ IH]; intros n va Hs Hn; [done|]. cbn in Hs. apply andb_true_iff in Hs as [Hst Hs].
  cbn [unpack_all]. apply ok_bind; [apply Ht; [done|done|lia]|]. intros v _. apply ok_bind; [|done]. apply IH; [done|].
  pose proof (virtual_size t Hst). destruct (size_words t Hst) as (k & Hk & E). lia.
Qed.

Lemma toGoType_ok t : sane t = true -> forall index output, wf_bytes output -> 0 <= index -> ok (toGoType t index output).
Proof.
  induction t as [t IH] using Ty_ind'. intros Hs index output Hwf Hi.
  assert (Htail : forall i, 0 <= i <= zlen output -> ok (slice output i (zlen output))) by (intros i Hx; apply ok_slice; lia).
  assert (Helems : forall e i size, sane e = true -> (sane e = true -> forall index output, wf_bytes output -> 0 <= index -> ok (toGoType e index output)) -> 0 <= i <= zlen output ->
    ok (let? b := slice output i (zlen output) in forEachUnpack (fun i => toGoType e i b) (getTypeSize e) b size)).
  { intros e i size He IHe Hx. apply ok_bind; [by apply Htail|]. intros b Hb. destruct (size_words e He) as (k & Hk & E). apply ok_forEach; [lia|].
    intros j Hj. apply IHe; [done|by eapply slice_wf|done]. }
  assert (Hprefix : forall A (k : Z -> Z -> Res A), index + 32 <= zlen output ->
    (forall begin length, 0 <= begin -> 0 <= length -> begin + length <= zlen output -> ok (k begin length)) ->
    ok (let? (begin, length) := lengthPrefixPointsTo index output in k begin length)).
  { intros A k Hl Hk. apply ok_bind; [by apply ok_prefix|]. intros [begin len] E. apply prefix_bounds in E as (? & ? & ?); [|done]. by apply Hk. }
  destruct t; [..|rewrite toGoType_tuple| | | | |]; cbn [toGoType]; apply ok_if; intros Hl; apply Z.ltb_ge in Hl;
    (apply ok_bind; [apply ok_slice; lia|]); intros w Hw; pose proof (slice_len _ _ _ _ Hw) as [Hwl _]; pose proof (slice_wf _ _ _ _ Hwf Hw) as Hww; try done.
  - unfold readBool. destruct (negb _); [done|]. destruct (lookup_lt_is_Some_2 w 31) as [x ->]; [unfold zlen in Hwl; lia|]. by repeat case_match.
  - apply Hprefix; [done|]. intros begin len ? ? ?. apply ok_bind; [apply ok_slice; lia|done].
  - apply Hprefix; [done|]. intros begin len ? ? ?. apply Helems; [done|done|lia].
  - cbn in Hs. apply andb_true_iff in Hs as [_ Hs]. destruct (isDynamicType t); [|apply Helems; [done|done|lia]]. apply ok_if. intros Ho. apply Z.ltb_ge in Ho.
    apply Helems; [done|done|]. pose proof (shift_or_bound (last_bytes 8 w)) as Hb. unfold last_bytes in *. specialize (Hb (Forall_drop _ _ _ Hww)). lia.
  - apply ok_bind.
    + destruct (isDynamicType _); [|apply Htail; lia]. apply ok_bind.
      * unfold tuplePointsTo. rewrite Hw. cbn [bindR ret]. apply ok_if. intros _. by apply ok_if.
      * intros begin Hb. unfold tuplePointsTo in Hb. rewrite Hw in Hb. cbn [bindR ret] in Hb. pose proof (shift_or_bound w Hww).
        destruct (Z.ltb_spec (zlen output) (shift_or w)); [done|]. destruct (_ <=? _); [done|]. injection Hb as <-. apply Htail. lia.
    + intros b Hb. apply ok_bind; [|done]. apply ok_fields; [done| |done|done]. revert Hb. destruct (isDynamicType (TupleTy elems)); [|by apply slice_wf].
      destruct (tuplePointsTo _ _) as [[x|]|]; try done. by apply slice_wf.
  - cbn in Hs. apply andb_true_iff in Hs as [Hn1 Hn2]. apply Z.leb_le in Hn1, Hn2. apply ok_bind; [apply ok_slice; lia|done].
  - apply Hprefix; [done|]. intros begin len ? ? ?. apply ok_bind; [apply ok_slice; lia|done].
  - unfold readFunctionType. by destruct (negb _).
Qed.

(** ** Round trip *)

(** [e] stands at position [i] of [b]. *)
Definition found (b : bytes) (i : Z) (e : bytes) : Prop := exists p q, b = p ++ e ++ q /\ zlen p = i.

Lemma found_slice b i e : found b i e -> slice b i (i + zlen e) = ret e.
Proof.
  intros (p & q & -> & <-). pose proof (zlen_nonneg p). pose proof (zlen_nonneg e). pose proof (zlen_nonneg q). unfold slice. rewrite !zlen_app.
  rewrite (proj2 (Z.leb_le 0 _)), (proj2 (Z.leb_le (zlen p) _)), (proj2 (Z.leb_le _ (_ + (_ + _)))) by lia. cbn [andb].
  replace (zlen p + zlen e - zlen p) with (zlen e) by lia. unfold zlen. by rewrite !Nat2Z.id, drop_app_length, take_app_length.
Qed.

Lemma found_tail b i e : found b i e -> exists q, slice b i (zlen b) = ret (e ++ q).
Proof.
  intros (p & q & -> & <-). exists q. pose proof (found_slice (p ++ (e ++ q) ++ []) (zlen p) (e ++ q)) as Hf. rewrite app_nil_r in Hf.
  rewrite zlen_app. apply Hf. exists p, []. by rewrite app_nil_r.
Qed.

Lemma found_le b i e : found b i e -> 0 <= i /\ i + zlen e <= zlen b.
Proof. intros (p & q & -> & <-). rewrite !zlen_app. pose proof (zlen_nonneg p). pose proof (zlen_nonneg q). lia. Qed.

Lemma found_l b i e f : found b i (e ++ f) -> found b i e.
Proof. intros (p & q & -> & <-). exists p, (f ++ q). by rewrite <- app_assoc. Qed.

Lemma found_r b i e f : found b i (e ++ f) -> found b (i + zlen e) f.
Proof. intros (p & q & -> & <-). exists (p ++ e), q. rewrite zlen_app. by rewrite <- !app_assoc. Qed.

Lemma zlen_packNum x : zlen (packNum x) = 32.
Proof. unfold packNum, zlen. by rewrite be_length. Qed.

Lemma read_packNum x : 0 <= x < 2 ^ 63 -> shift_or (packNum x) = x.
Proof. intros Hx. unfold packNum, unsigned. rewrite Z.mod_small by lia. rewrite shift_or_be by lia. apply Z.mod_small. lia. Qed.

(** The last bytes of an integer are its value modulo their range. *)
Lemma drop_be n k x : drop n (be (n + k) x) = be k x.
Proof.
  induction n as [|n IH]; [done|]. cbn. apply IH.
Qed.

Lemma last_packNum k x : (k <= 32)%nat -> last_bytes k (packNum x) = be k (x mod 2 ^ (8 * Z.of_nat k)).
Proof.
  intros Hk. unfold last_bytes, packNum. rewrite be_length. replace (be 32) with (be (32 - k + k)) by (f_equal; lia). rewrite drop_be.
  rewrite (be_mod k k) by lia. f_equal. unfold unsigned.
  apply Z.mod_mod_divide. exists (2 ^ (256 - 8 * Z.of_nat k)). rewrite <- Z.pow_add_r by lia. f_equal. lia.
Qed.

Lemma last_packNum_value k x : (k <= 32)%nat -> shift_or (last_bytes k (packNum x)) = x mod 2 ^ (8 * Z.of_nat k).
Proof.
  intros Hk. pose proof (Z.mod_pos_bound x (2 ^ (8 * Z.of_nat k))). rewrite last_packNum by done. rewrite shift_or_be by lia. apply Zmod_mod.
Qed.

(** ** Numbers *)
Lemma num_kind_cases u size :
  num_kind u size = KBig \/ exists n, num_kind u size = (if u then KUint n else KInt n) /\ (n = 8 \/ n = 16 \/ n = 32 \/ n = 64).
Proof.
  unfold num_kind. destruct (_ || _) eqn:E; [right|by left]. exists size. split; [done|]. rewrite !orb_true_iff, !Z.eqb_eq in E. naive_solver.
Qed.

Lemma to_signed_mod n x : 0 < n -> - 2 ^ (n - 1) <= x < 2 ^ (n - 1) -> to_signed n (x mod 2 ^ n) = x.
Proof.
  intros Hn Hx. unfold to_signed. assert (2 ^ n = 2 * 2 ^ (n - 1)) as E by (rewrite <- Z.pow_succ_r by lia; f_equal; lia). rewrite E.
  destruct (Z_lt_dec x 0).
  - replace (x mod _) with (x + 2 * 2 ^ (n - 1)) by (apply (Z.mod_unique _ _ (-1)); lia). destruct (Z.ltb_spec (x + 2 * 2 ^ (n - 1)) (2 ^ (n - 1))); lia.
  - rewrite Z.mod_small by lia. destruct (Z.ltb_spec x (2 ^ (n - 1))); lia.
Qed.

Lemma read_number u size x : in_range u (num_kind u size) x = true -> ReadInteger u size (packNum x) = VNum (num_kind u size) x.
Proof.
  intros Hr. unfold ReadInteger. destruct (num_kind_cases u size) as [E|(n & E & Hn)]; rewrite E in *; cbn [in_range] in Hr.
  - f_equal. unfold packNum. assert (0 <= unsigned x < 2 ^ 256) by (apply Z.mod_pos_bound; lia). rewrite shift_or_be by lia. change (8 * Z.of_nat 32) with 256.
    rewrite Z.mod_small by lia. unfold unsigned in *. destruct u; cbn [negb andb]; apply andb_true_iff in Hr as [H1 H2]; apply Z.leb_le in H1; apply Z.ltb_lt in H2; [by apply Z.mod_small|].
    rewrite Z.testbit_eqb by lia. pose proof (to_signed_mod 256 x ltac:(lia) ltac:(lia)) as Hs. unfold to_signed in Hs. change (256 - 1) with 255 in Hs.
    destruct (Z.ltb_spec (x mod 2 ^ 256) (2 ^ 255)).
    + rewrite Z.div_small by lia. cbn. done.
    + replace (x mod 2 ^ 256 / 2 ^ 255) with 1 by (apply (Z.div_unique _ _ _ (x mod 2 ^ 256 - 2 ^ 255)); lia). change (1 mod 2 =? 1) with true. cbv beta iota. lia.
  - assert (exists k, (k <= 8)%nat /\ Z.to_nat (n / 8) = k /\ n = 8 * Z.of_nat k /\ 0 < n) as (k & Hk & Ek & En & Hp).
    { destruct Hn as [-> | [-> | [-> | ->]]]; [exists 1%nat|exists 2%nat|exists 4%nat|exists 8%nat]; (split; [lia|done]). }
    destruct u; f_equal; rewrite Ek, last_packNum_value, <- En by lia; apply andb_true_iff in Hr as [H1 H2]; apply Z.leb_le in H1; apply Z.ltb_lt in H2.
    + by apply Z.mod_small.
    + by apply to_signed_mod.
Qed.

(** ** Heads and tails *)

(** Where the head of a value stands: the value, or the offset of the value. *)
Definition placed (dynamic : bool) (enc b : bytes) (i : Z) : Prop :=
  if dynamic then exists off, found b i (packNum off) /\ found b off enc else found b i enc.

(** An encoding that is read back wherever it is placed. *)
Definition reads (t : Ty) (v : Val) (enc : bytes) : Prop :=
  (isDynamicType t = false -> zlen enc = getTypeSize t) /\
  (forall b i, zlen b < 2 ^ 63 -> placed (isDynamicType t) enc b i -> toGoType t i b = ret v).

Lemma dynamic_size t : isDynamicType t = true -> getTypeSize t = 32.
Proof. intros Hd. destruct t; try done; cbn [getTypeSize]; first [by rewrite Hd|cbn in Hd; by rewrite Hd]. Qed.

Inductive all_read : list Ty -> list Val -> list (bool * bytes) -> Prop :=
  | all_read_nil : all_read [] [] []
  | all_read_cons t v e ts vs l : sane t = true -> reads t v e -> all_read ts vs l -> all_read (t :: ts) (v :: vs) ((isDynamicType t, e) :: l).

Lemma join_head_size ts vs l off : all_read ts vs l -> zlen (join off l).1 = head_size ts.
Proof.
  intros Ha. revert off. induction Ha as [|t v e ts vs l Hs [He _] _ IH]; intros off; [done|]. unfold head_size in *. cbn [join fmap list_fmap foldr].
  destruct (isDynamicType t) eqn:Ed; [specialize (IH (off + zlen e))|specialize (IH off)]; destruct (join _ l) as [heads tail]; cbn [fst] in *; rewrite zlen_app, IH.
  - by rewrite zlen_packNum, dynamic_size.
  - by rewrite He.
Qed.

Lemma read_all ts vs l n va pre mid post off :
  all_read ts vs l -> zlen pre = (n + va) * 32 ->
  zlen (pre ++ (join off l).1 ++ mid) = off -> zlen (pre ++ (join off l).1 ++ mid ++ (join off l).2 ++ post) < 2 ^ 63 ->
  unpack_all ts n va (pre ++ (join off l).1 ++ mid ++ (join off l).2 ++ post) = ret vs.
Proof.
  intros Ha. revert n va pre mid off. induction Ha as [|t v e ts vs l Hs [He Hr] _ IH]; intros n va pre mid off Hp Ho Hb; [done|].
  cbn [join unpack_all] in *. pose proof (virtual_size t Hs) as Hv. destruct (isDynamicType t) eqn:Ed.
  - specialize (IH (n + 1) (va + virtual_args t) (pre ++ packNum off) (mid ++ e) (off + zlen e)). destruct (join (off + zlen e) l) as [heads tail]. cbn [fst snd] in *.
    rewrite <- !app_assoc in *. rewrite !zlen_app, zlen_packNum in *. rewrite (dynamic_size t Ed) in Hv.
    rewrite Hr; [|rewrite !zlen_app, zlen_packNum; lia|].
    + cbn [bindR ret]. rewrite IH; [done|lia|lia|lia].
    + exists off. split; [by eexists pre, _|]. exists (pre ++ packNum off ++ heads ++ mid), (tail ++ post). rewrite !zlen_app, zlen_packNum, <- !app_assoc. split; [done|lia].
  - specialize (IH (n + 1) (va + virtual_args t) (pre ++ e) mid off). destruct (join off l) as [heads tail]. cbn [fst snd] in *.
    rewrite <- !app_assoc in *. rewrite !zlen_app in *. specialize (He eq_refl).
    rewrite Hr; [|rewrite !zlen_app; lia|by eexists pre, _]. cbn [bindR ret]. rewrite IH; [done|lia|lia|lia].
Qed.

Lemma read_joined ts vs l post :
  all_read ts vs l -> zlen (joined (head_size ts) l ++ post) < 2 ^ 63 -> unpack_all ts 0 0 (joined (head_size ts) l ++ post) = ret vs.
Proof.
  intros Ha. pose proof (join_head_size _ _ _ (head_size ts) Ha) as Hh. pose proof (read_all ts vs l 0 0 [] [] post (head_size ts) Ha eq_refl) as Hr. unfold joined.
  destruct (join (head_size ts) l) as [heads tail]. cbn [fst snd app] in *. rewrite <- app_assoc, app_nil_r in *. intros Hb. by apply Hr.
Qed.

(** Without dynamic values the offset does not matter. *)
Lemma joined_static off off' l : Forall (fun x => x.1 = false) l -> joined off l = joined off' l.
Proof.
  intros Hl. unfold joined. assert (join off l = join off' l) as ->; [|done]. induction Hl as [|[d e] l Hd _ IH]; [done|]. cbn in *. by rewrite Hd, IH.
Qed.

(** The elements of an array are the fields of a tuple of as many elements. *)
Lemma each_is_tuple e n k va b :
  sane e = true -> each_element (fun i => toGoType e i b) (getTypeSize e) ((k + va) * 32) n = unpack_all (replicate n e) k va b.
Proof.
  intros Hs. revert k va. induction n as [|n IH]; intros k va; [done|]. cbn. destruct (toGoType e _ b) as [[v|]|]; try done. cbn [bindR].
  rewrite <- IH. do 2 f_equal. rewrite <- (virtual_size e Hs). lia.
Qed.

Lemma mapM_pack_all e l vals : mapM (pack e) l = Some vals -> pack_all (replicate (length l) e) l = Some ((fun val => (isDynamicType e, val)) <$> vals).
Proof.
  revert vals. induction l as [|v l IH]; intros vals; [by intros [= <-]|]. cbn. destruct (pack e v) as [x|]; [|done]. cbn. destruct (mapM _ l) as [xs|]; [|done].
  intros [= <-]. by rewrite (IH xs).
Qed.

Lemma head_size_replicate n e : head_size (replicate n e) = Z.of_nat n * getTypeSize e.
Proof. unfold head_size. induction n as [|n IH]; [done|]. cbn [replicate fmap list_fmap foldr] in *. rewrite IH. lia. Qed.

Lemma read_elements e l vals post :
  sane e = true -> 32 <= getTypeSize e -> all_read (replicate (length l) e) l ((fun val => (isDynamicType e, val)) <$> vals) ->
  let enc := joined (if isDynamicType e then getTypeSize e * zlen l else 0) ((fun val => (isDynamicType e, val)) <$> vals) in
  32 * zlen l <= zlen enc /\ (isDynamicType e = false -> zlen enc = zlen l * getTypeSize e) /\
  (zlen (enc ++ post) < 2 ^ 63 -> forEachUnpack (fun i => toGoType e i (enc ++ post)) (getTypeSize e) (enc ++ post) (zlen l) = ret (VList l)).
Proof.
  intros Hs Hz Ha. cbv zeta.
  replace (joined (if isDynamicType e then getTypeSize e * zlen l else 0) ((fun val => (isDynamicType e, val)) <$> vals))
    with (joined (head_size (replicate (length l) e)) ((fun val => (isDynamicType e, val)) <$> vals)).
  2: { destruct (isDynamicType e); [f_equal; rewrite head_size_replicate; unfold zlen; lia|]. apply joined_static, Forall_fmap, Forall_true. done. }
  pose proof (read_joined _ _ _ post Ha) as Hr. pose proof (join_head_size _ _ _ (head_size (replicate (length l) e)) Ha) as Hh.
  rewrite head_size_replicate in Hh at 2. fold (zlen l) in Hh. set (enc := joined _ _) in *.
  assert (zlen l * getTypeSize e <= zlen enc) as Hle.
  { subst enc. unfold joined. destruct (join _ _) as [heads tail]. cbn [fst] in Hh. rewrite zlen_app, Hh. pose proof (zlen_nonneg tail). lia. }
  assert (isDynamicType e = false -> zlen enc = zlen l * getTypeSize e) as Hst.
  { intros Hd. subst enc. unfold joined. assert (forall off, (join off ((fun val => (isDynamicType e, val)) <$> vals)).2 = []) as Ht.
    { rewrite Hd. clear. induction vals as [|v vals IH]; intros off; [done|]. cbn. specialize (IH off). by destruct (join off _). }
    specialize (Ht (head_size (replicate (length l) e))). destruct (join _ _) as [heads tail]. cbn [fst snd] in *. rewrite Ht, app_nil_r. done. }
  split; [unfold zlen in *; nia|]. split; [done|]. intros Hb. specialize (Hr Hb). unfold forEachUnpack. rewrite (proj2 (Z.ltb_ge _ 0)) by apply zlen_nonneg.
  rewrite (proj2 (Z.ltb_ge _ _)) by (rewrite zlen_app; pose proof (zlen_nonneg post); unfold zlen in *; nia).
  change 0 with ((0 + 0) * 32). rewrite each_is_tuple by done. unfold zlen at 1. by rewrite Nat2Z.id, Hr.
Qed.

Lemma read_prefix b i n payload :
  zlen b < 2 ^ 63 -> placed true (packNum n ++ payload) b i -> 0 <= n <= zlen payload ->
  exists begin, lengthPrefixPointsTo i b = ret (begin, n) /\ found b begin payload.
Proof.
  intros Hb (off & Ho & Hp) Hn. exists (off + 32). pose proof (found_slice _ _ _ Ho) as Hs. rewrite zlen_packNum in Hs. unfold lengthPrefixPointsTo. rewrite Hs. cbn [bindR ret].
  pose proof (found_le _ _ _ Hp) as [H0 Hl]. rewrite zlen_app, zlen_packNum in Hl. rewrite read_packNum by lia. pose proof (found_slice _ _ _ (found_l _ _ _ _ Hp)) as Hf.
  rewrite zlen_packNum in Hf. cbv zeta. rewrite (proj2 (Z.ltb_ge _ _)), (proj2 (Z.leb_gt _ _)) by lia. replace (off + 32 - 32) with off by lia. rewrite Hf. cbn [bindR ret].
  rewrite read_packNum by lia. rewrite (proj2 (Z.ltb_ge _ _)), (proj2 (Z.leb_gt _ _)) by lia. split; [done|]. apply found_r in Hp. by rewrite zlen_packNum in Hp.
Qed.

(** The head of a value has a word to look at. *)
Lemma placed_word d enc b i : (d = false -> 32 <= zlen enc) -> placed d enc b i -> i + 32 <= zlen b /\ exists w, slice b i (i + 32) = ret w /\ zlen w = 32 /\ found b i w.
Proof.
  intros Hd Hp. assert (exists w, zlen w = 32 /\ found b i w) as (w & Hw & Hf).
  { destruct d; [destruct Hp as (off & Ho & _); exists (packNum off); split; [apply zlen_packNum|done]|]. specialize (Hd eq_refl). cbn in Hp.
    exists (take 32 enc). split; [unfold zlen in *; rewrite length_take; lia|]. rewrite <- (take_drop 32 enc) in Hp. by eapply found_l. }
  pose proof (found_le _ _ _ Hf). pose proof (found_slice _ _ _ Hf) as Hs. rewrite Hw in *. split; [lia|]. by exists w.
Qed.

(** ** Values are read back *)
Lemma right_pad s l : zlen s <= l -> RightPadBytes s l = s ++ replicate (Z.to_nat (l - zlen s)) 0.
Proof.
  intros Hl. unfold RightPadBytes. destruct (Z.leb_spec l (zlen s)); [|done]. replace (Z.to_nat (l - zlen s)) with 0%nat by lia. by rewrite app_nil_r.
Qed.

Lemma zlen_replicate {A} n (x : A) : zlen (replicate n x) = Z.of_nat n.
Proof. unfold zlen. by rewrite length_replicate. Qed.

(** Values of one word. *)
Lemma reads_word t v w :
  isDynamicType t = false -> getTypeSize t = 32 -> zlen w = 32 ->
  (forall b i, (zlen b <? i + 32) = false -> slice b i (i + 32) = ret w -> toGoType t i b = ret v) -> reads t v w.
Proof.
  intros Hd Hz Hw Hr. split; [by rewrite Hw|]. rewrite Hd. intros b i Hb Hp. cbn in Hp. pose proof (found_slice _ _ _ Hp) as Hs. pose proof (found_le _ _ _ Hp).
  rewrite Hw in *. apply Hr; [apply Z.ltb_ge; lia|done].
Qed.

(** Strings and byte slices. *)
Lemma reads_bytes (t : Ty) (v : Val) s :
  isDynamicType t = true ->
  (forall b i, toGoType t i b = (if zlen b <? i + 32 then err "abi: cannot marshal in to go type: length insufficient" else
    let? word := slice b i (i + 32) in let? (begin, length) := lengthPrefixPointsTo i b in let? x := slice b begin (begin + length) in
    ret (match t with StringTy => VString x | _ => VBytes x end))) ->
  v = (match t with StringTy => VString s | _ => VBytes s end) -> reads t v (packBytesSlice s (zlen s)).
Proof.
  intros Hd Ht ->. split; [by rewrite Hd|]. rewrite Hd. intros b i Hb Hp. destruct (placed_word true _ b i ltac:(done) Hp) as (Hi & w & Hw & _ & _).
  rewrite Ht, (proj2 (Z.ltb_ge _ _)), Hw by lia. cbn [bindR ret]. unfold packBytesSlice in Hp. pose proof (zlen_nonneg s).
  rewrite right_pad in Hp by div_lia. destruct (read_prefix _ _ (zlen s) _ Hb Hp) as (begin & -> & Hf).
  { rewrite zlen_app. pose proof (zlen_nonneg (replicate (Z.to_nat ((zlen s + 31) / 32 * 32 - zlen s)) 0)). lia. }
  cbn [bindR ret]. by rewrite (found_slice _ _ _ (found_l _ _ _ _ Hf)).
Qed.

Lemma read_fixed n x rest : zlen x = n -> slice (x ++ rest) 0 n = ret x.
Proof. intros <-. apply (found_slice (x ++ rest) 0 x). by exists [], rest. Qed.

Lemma read_scalar t v :
  sane t = true -> has_type t v = true -> match t with SliceTy _ | ArrayTy _ _ | TupleTy _ => False | _ => True end ->
  exists enc, pack t v = Some enc /\ reads t v enc.
Proof.
  intros Hs Hv Hk. destruct t as [sz|sz| | |t|n t|l| |sz| | |]; destruct v as [k x|x|s|x|x|x|x]; try done; cbn [has_type] in Hv; rewrite ?andb_true_iff, ?bool_decide_eq_true in Hv.
  - destruct Hv as [-> Hr]. exists (packNum x). cbn [pack packElement]. rewrite bool_decide_eq_true_2 by done. split; [done|]. apply reads_word; [done|done|apply zlen_packNum|].
    intros b i Hi Hw. cbn [toGoType]. rewrite Hi, Hw. cbn [bindR ret]. by rewrite read_number.
  - destruct Hv as [-> Hr]. exists (packNum x). cbn [pack packElement]. rewrite bool_decide_eq_true_2 by done. split; [done|]. apply reads_word; [done|done|apply zlen_packNum|].
    intros b i Hi Hw. cbn [toGoType]. rewrite Hi, Hw. cbn [bindR ret]. by rewrite read_number.
  - eexists. split; [done|]. apply reads_word; [done|done|by destruct x|]. intros b i Hi Hw. cbn [toGoType]. rewrite Hi, Hw. by destruct x.
  - eexists. split; [done|]. by apply reads_bytes.
  - apply Z.eqb_eq in Hv. eexists. split; [done|]. unfold LeftPadBytes. rewrite Hv. cbv beta iota delta [Z.leb Z.compare Pos.compare Pos.compare_cont]. apply reads_word; [done|done|rewrite zlen_app, Hv; done|].
    intros b i Hi Hw. cbn [toGoType]. rewrite Hi, Hw. cbn [bindR ret]. do 2 f_equal. unfold zlen in Hv. unfold last_bytes. rewrite length_app, length_replicate.
    by replace (_ + _ - 20)%nat with (Z.to_nat (32 - 20)) by lia.
  - apply Z.eqb_eq in Hv. cbn [sane] in Hs. apply andb_true_iff in Hs as [Hs1 Hs2]. apply Z.leb_le in Hs1, Hs2. exists (RightPadBytes x 32). cbn [pack packElement]. rewrite (proj2 (Z.eqb_eq _ _) Hv).
    split; [done|]. rewrite right_pad by lia. apply reads_word; [done|done|rewrite zlen_app, zlen_replicate; lia|]. intros b i Hi Hw. cbn [toGoType]. rewrite Hi, Hw. cbn [bindR ret].
    rewrite (slice_prefix _ _ _ _ Hw) by lia. by rewrite read_fixed.
  - eexists. split; [done|]. by apply reads_bytes.
  - apply Z.eqb_eq in Hv. eexists. split; [done|]. rewrite right_pad by lia. rewrite Hv. apply reads_word; [done|done|rewrite zlen_app, Hv; done|].
    intros b i Hi Hw. cbn [toGoType]. rewrite Hi, Hw. cbn [bindR ret]. unfold readFunctionType. unfold zlen in Hv. rewrite (drop_app_length' x) by lia. by rewrite (take_app_length' x) by lia.
Qed.

Fixpoint have_types (ts : list Ty) (vs : list Val) : bool :=
  match ts, vs with [], [] => true | t :: ts, v :: vs => has_type t v && have_types ts vs | _, _ => false end.

Definition packs (t : Ty) : Prop := sane t = true -> sized t = true -> forall v, has_type t v = true -> exists enc, pack t v = Some enc /\ reads t v enc.

Lemma pack_all_reads ts vs :
  Forall packs ts -> forallb sane ts = true -> forallb sized ts = true -> have_types ts vs = true -> exists l, pack_all ts vs = Some l /\ all_read ts vs l.
Proof.
  intros Hts. revert vs. induction Hts as [|t ts Ht _ IH]; intros [|v vs]; try done; [exists []; by repeat constructor|]. cbn. rewrite !andb_true_iff.
  intros [Hs Hs'] [Hz Hz'] [Hv Hv']. destruct (Ht Hs Hz v Hv) as (e & -> & He), (IH vs Hs' Hz' Hv') as (l & -> & Hl). eexists. split; [done|]. by constructor.
Qed.

Lemma elements_read e l :
  packs e -> sane e = true -> sized e = true -> forallb (has_type e) l = true ->
  exists vals, mapM (pack e) l = Some vals /\ all_read (replicate (length l) e) l ((fun val => (isDynamicType e, val)) <$> vals).
Proof.
  intros He Hs Hz. induction l as [|v l IH]; intros Hl; [exists []; by repeat constructor|]. cbn in Hl. apply andb_true_iff in Hl as [Hv Hl].
  destruct (He Hs Hz v Hv) as (x & Hx & Hr), (IH Hl) as (vals & Hm & Ha). exists (x :: vals). cbn. rewrite Hx, Hm. split; [done|]. by constructor.
Qed.

Lemma tuple_found ts l b i :
  found b i (joined (head_size ts) l) -> zlen b < 2 ^ 63 -> forall vs, all_read ts vs l ->
  (let? b := slice b i (zlen b) in let? l := unpack_all ts 0 0 b in ret (VStruct l)) = ret (VStruct vs).
Proof.
  intros Hf Hb vs Ha. destruct (found_tail _ _ _ Hf) as [q Hq]. rewrite Hq. cbn [bindR ret]. apply slice_len in Hq as (Hq & ? & ?). rewrite (read_joined _ _ _ _ Ha) by lia. done.
Qed.


Lemma packs_tuple ts : Forall packs ts -> packs (TupleTy ts).
Proof.
  intros Hts Hs Hz [| | | | | |vs] Hv; try done. cbn [sized] in Hz. apply andb_true_iff in Hz as [Hz0 Hz].
  destruct (pack_all_reads ts vs Hts Hs Hz Hv) as (l & Hl & Ha). exists (joined (head_size ts) l). rewrite pack_tuple, Hl. split; [done|].
  pose proof (join_head_size _ _ _ (head_size ts) Ha) as Hh.
  assert (isDynamicType (TupleTy ts) = false -> zlen (joined (head_size ts) l) = getTypeSize (TupleTy ts)) as Hst.
  { intros Hd. rewrite tuple_size by done. unfold joined. enough (forall off, (join off l).2 = []) as Ht.
    { specialize (Ht (head_size ts)). destruct (join _ l). cbn [fst snd] in *. by rewrite Ht, app_nil_r. }
    cbn in Hd. clear -Ha Hd. induction Ha as [|t v e ts vs l _ _ _ IH]; intros off; [done|]. cbn in *. apply orb_false_iff in Hd as [Hd Hd']. specialize (IH Hd' off).
    rewrite Hd. by destruct (join off l). }
  split; [done|]. intros b i Hb Hp. rewrite toGoType_tuple.
  assert (isDynamicType (TupleTy ts) = false -> 32 <= zlen (joined (head_size ts) l)) as Hp32 by (intros Hd; rewrite Hst by done; apply size_pos; [done|]; by cbn [sized]; rewrite Hz0).
  destruct (placed_word _ _ _ _ Hp32 Hp) as (Hi & w & Hw & _ & _).
  rewrite (proj2 (Z.ltb_ge _ _)), Hw by lia. cbn [bindR ret]. destruct (isDynamicType (TupleTy ts)); [|by apply (tuple_found ts l)].
  destruct Hp as (off & Ho & Hf). unfold tuplePointsTo. pose proof (found_slice _ _ _ Ho) as Hs'. rewrite zlen_packNum in Hs'. rewrite Hs'. cbn [bindR ret].
  pose proof (found_le _ _ _ Hf). pose proof (zlen_nonneg (joined (head_size ts) l)). rewrite read_packNum by lia. rewrite (proj2 (Z.ltb_ge _ _)), (proj2 (Z.leb_gt _ _)) by lia.
  by apply (tuple_found ts l).
Qed.

Lemma packs_slice e : packs e -> packs (SliceTy e).
Proof.
  intros He Hs Hz [| | | | |l|] Hv; try done. cbn [sane sized has_type] in *. apply andb_true_iff in Hz as [_ Hz].
  destruct (elements_read e l He Hs Hz Hv) as (vals & Hm & Ha). eexists. split; [cbn [pack]; by rewrite Hm|]. split; [done|].
  intros b i Hb Hp. destruct (placed_word true _ b i ltac:(done) Hp) as (Hi & w & Hw & _ & _). cbn [toGoType]. rewrite (proj2 (Z.ltb_ge _ _)), Hw by lia. cbn [bindR ret].
  pose proof (size_pos e Hs Hz) as Hz'. destruct (read_elements e l vals [] Hs Hz' Ha) as (Hl & _ & _).
  pose proof (zlen_nonneg l). destruct (read_prefix _ _ (zlen l) _ Hb Hp) as (begin & -> & Hf); [lia|]. cbn [bindR ret].
  destruct (found_tail _ _ _ Hf) as [q Hq]. rewrite Hq. cbn [bindR ret]. apply slice_len in Hq as (Hq & ? & ?).
  destruct (read_elements e l vals q Hs Hz' Ha) as (_ & _ & Hr). apply Hr. lia.
Qed.

Lemma packs_array n e : packs e -> packs (ArrayTy n e).
Proof.
  intros He Hs Hz [| | | | |l|] Hv; try done. pose proof (size_pos _ Hs Hz) as Hp32. cbn [sane sized has_type] in *. apply andb_true_iff in Hz as [_ Hz]. apply andb_true_iff in Hs as [Hn Hs].
  apply andb_true_iff in Hv as [Hln Hv]. destruct (elements_read e l He Hs Hz Hv) as (vals & Hm & Ha). eexists. split; [cbn [pack]; by rewrite Hln, Hm|].
  apply Z.eqb_eq in Hln. subst n. pose proof (size_pos e Hs Hz) as Hz'. pose proof (read_elements e l vals) as Hr.
  set (enc := joined _ _) in *. destruct (Hr [] Hs Hz' Ha) as (Hl & Hst & _).
  assert (isDynamicType e = false -> zlen enc = getTypeSize (ArrayTy (zlen l) e)) as Hst' by (intros Hd; rewrite scalar_size, Hst by done; lia).
  split; [done|]. intros b i Hb Hp. cbn [isDynamicType] in Hp. destruct (placed_word _ _ b i ltac:(intros Hd; rewrite Hst' by done; done) Hp) as (Hi & w & Hw & _ & Hfw).
  assert (forall j, found b j enc -> (let? b := slice b j (zlen b) in forEachUnpack (fun i => toGoType e i b) (getTypeSize e) b (zlen l)) = ret (VList l)) as Hread.
  { intros j Hf. destruct (found_tail _ _ _ Hf) as [q Hq]. rewrite Hq. cbn [bindR ret]. apply slice_len in Hq as (Hq & ? & ?). apply Hr; [done|done|done|lia]. }
  cbn [toGoType]. rewrite (proj2 (Z.ltb_ge _ _)), Hw by lia. cbn [bindR ret]. destruct (isDynamicType e); [|by apply Hread].
  destruct Hp as (off & Ho & Hf). pose proof (found_slice _ _ _ Ho) as Hs'. rewrite zlen_packNum, Hw in Hs'. injection Hs' as ->.
  pose proof (found_le _ _ _ Hf). pose proof (zlen_nonneg enc). rewrite last_packNum_value by lia. change (8 * Z.of_nat 8) with 64. rewrite Z.mod_small by lia.
  rewrite (proj2 (Z.ltb_ge _ _)) by lia. by apply Hread.
Qed.

Lemma packs_all t : packs t.
Proof.
  induction t as [t IH] using Ty_ind'. destruct t; try (intros Hs _ v Hv; by apply read_scalar); [by apply packs_slice|by apply packs_array|by apply packs_tuple].
Qed.

Lemma all_non_indexed args : forallb (fun a => negb (arg_Indexed a)) args = true -> NonIndexed args = args.
Proof.
  intros Ha. unfold NonIndexed. induction args as [|a args IH]; [done|]. cbn in Ha. apply andb_true_iff in Ha as [Ha1 Ha]. apply negb_true_iff in Ha1.
  rewrite filter_cons_True, IH by done. done.
Qed.

(** ** Topics *)
Lemma be_0 n : be n 0 = replicate n 0.
Proof. induction n as [|n IH]; [done|]. cbn [be replicate]. by rewrite Z.shiftr_0_l, IH. Qed.

Lemma be_255 n k x : 0 <= k -> 2 ^ (8 * (Z.of_nat n + k)) - 2 ^ (8 * k) <= x < 2 ^ (8 * (Z.of_nat n + k)) -> be n (x / 2 ^ (8 * k)) = replicate n 255.
Proof.
  intros Hk Hx. assert (x / 2 ^ (8 * k) = 2 ^ (8 * Z.of_nat n) - 1) as ->.
  { symmetry. apply (Z.div_unique _ _ _ (x - (2 ^ (8 * Z.of_nat n) - 1) * 2 ^ (8 * k))); [|lia]. left.
    replace (8 * (Z.of_nat n + k)) with (8 * Z.of_nat n + 8 * k) in Hx by lia. rewrite Z.pow_add_r in Hx by lia. nia. }
  clear. induction n as [|n IH]; [done|]. cbn [be replicate]. f_equal.
  - rewrite Z.shiftr_div_pow2 by lia. replace (8 * Z.of_nat (S n)) with (8 * Z.of_nat n + 8) by lia. rewrite Z.pow_add_r by lia. change (2 ^ 8) with 256.
    replace ((2 ^ (8 * Z.of_nat n) * 256 - 1) / 2 ^ (8 * Z.of_nat n)) with 255; [done|]. apply (Z.div_unique _ _ _ (2 ^ (8 * Z.of_nat n) - 1)); [left|]; lia.
  - rewrite (be_mod n n) by lia. rewrite <- IH. f_equal. symmetry. apply (Z.mod_unique _ _ 255); [left; lia|].
    replace (8 * Z.of_nat (S n)) with (8 * Z.of_nat n + 8) by lia. rewrite Z.pow_add_r by lia. lia.
Qed.

Lemma be_split a n x : be (a + n) x = be a (x / 2 ^ (8 * Z.of_nat n)) ++ be n x.
Proof.
  induction a as [|a IH]; [done|]. cbn [be Nat.add app]. rewrite IH. f_equal. f_equal. rewrite <- Z.shiftr_div_pow2 by lia. rewrite Z.shiftr_shiftr by lia. f_equal. lia.
Qed.

(** The loop of [genIntType] sets the low bytes. *)
Lemma set_bytes_spec topic x i n :
  length topic = 32%nat -> (i + n <= 32)%nat -> set_bytes (take (32 - i) topic ++ be i x) x i n = take (32 - (i + n)) topic ++ be (i + n) x.
Proof.
  intros Ht. revert i. induction n as [|n IH]; intros i Hi; [by rewrite Nat.add_0_r|]. cbn [set_bytes]. rewrite <- Nat.add_succ_comm. rewrite <- IH by lia. f_equal.
  destruct (lookup_lt_is_Some_2 topic (31 - i)) as [y Hy]; [lia|]. replace (32 - i)%nat with (S (31 - i)) by lia. rewrite (take_S_r _ _ y Hy).
  replace (32 - S i)%nat with (31 - i)%nat by lia. rewrite <- app_assoc. rewrite insert_app_r_alt by (rewrite length_take; lia).
  rewrite length_take, Ht. replace (31 - i - _)%nat with 0%nat by lia. cbn. do 4 f_equal. lia.
Qed.

(** The topic of a signed integer is its encoding. *)
Lemma genIntType_spec x n : (n <= 32)%nat -> - 2 ^ (8 * Z.of_nat n) <= x < 2 ^ (8 * Z.of_nat n) -> genIntType x n = packNum x.
Proof.
  intros Hn Hx. unfold genIntType. pose proof (set_bytes_spec (replicate 32 (if x <? 0 then 255 else 0)) x 0 n (length_replicate _ _) ltac:(lia)) as Hs.
  rewrite take_ge, app_nil_r in Hs by (rewrite length_replicate; lia). rewrite Hs. cbn [Nat.add]. rewrite take_replicate, Nat.min_l by lia. unfold packNum.
  assert (2 ^ (8 * Z.of_nat n) <= 2 ^ 256) by (apply Z.pow_le_mono_r; lia).
  replace (be 32) with (be (32 - n + n)) by (f_equal; lia). rewrite be_split. f_equal.
  - unfold unsigned. destruct (Z.ltb_spec x 0).
    + rewrite be_255; [done|lia|]. replace (8 * (Z.of_nat (32 - n) + Z.of_nat n)) with 256 by lia.
      replace (x mod 2 ^ 256) with (x + 2 ^ 256); [lia|]. apply (Z.mod_unique _ _ (-1)); lia.
    + rewrite Z.mod_small by lia. rewrite Z.div_small by lia. by rewrite be_0.
  - unfold unsigned. by rewrite (be_mod n 32 x) by lia.
Qed.

Lemma copy_right_spec x : 0 <= x < 2 ^ 256 -> copy_right (big_Bytes x) = ret (packNum x).
Proof.
  intros Hx. pose proof (zlen_big_Bytes x 32 ltac:(lia) ltac:(lia)) as Hl. unfold copy_right. rewrite (proj2 (Z.ltb_ge _ _)) by lia. unfold packNum, unsigned.
  rewrite Z.mod_small by lia. do 2 f_equal. unfold zlen, big_Bytes in *. destruct (Z.eqb_spec x 0) as [->|]; [by rewrite be_0, app_nil_r|]. rewrite be_length in *.
  pose proof (be_size_lt x ltac:(lia)). replace (be 32) with (be (32 - be_size x + be_size x)) by (f_equal; lia). by rewrite be_split, Z.div_small, be_0 by lia.
Qed.

(** The rule that asks for a value. *)
Definition rule_of (t : Ty) (v : Val) : Rule :=
  match v with
  | VNum (KInt n) x => RInt (Z.to_nat (n / 8)) x
  | VNum (KUint _) x => RUint x
  | VNum KBig x => RBig x
  | VBool b => RBool b
  | VByteArray b => match t with AddressTy => RAddress b | _ => RByteArray b end
  | _ => RUnsupported
  end.

Definition negative_big (v : Val) : bool := match v with VNum KBig x => x <? 0 | _ => false end.

Definition value_type (t : Ty) : bool := match t with IntTy _ | UintTy _ | BoolTy | AddressTy | FixedBytesTy _ => true | _ => false end.

(** The topic of a number is its encoding, but for the negative ones without a
    sized Go type. *)
Lemma number_topic Keccak256 u size x :
  in_range u (num_kind u size) x = true -> negative_big (VNum (num_kind u size) x) = false -> make_topic Keccak256 (rule_of (IntTy size) (VNum (num_kind u size) x)) = ret (packNum x).
Proof.
  intros Hr Hneg. destruct (num_kind_cases u size) as [E|(n & E & Hn)]; rewrite E in *; cbn [in_range negative_big rule_of] in *.
  - apply Z.ltb_ge in Hneg. cbn [make_topic]. rewrite Z.abs_eq by lia. apply copy_right_spec. destruct u; apply andb_true_iff in Hr as [H1 H2]; apply Z.leb_le in H1; apply Z.ltb_lt in H2; lia.
  - destruct u; apply andb_true_iff in Hr as [H1 H2]; apply Z.leb_le in H1; apply Z.ltb_lt in H2; cbn [make_topic].
    + apply copy_right_spec. destruct Hn as [-> | [-> | [-> | ->]]]; lia.
    + assert (8 * Z.of_nat (Z.to_nat (n / 8)) = n /\ (Z.to_nat (n / 8) <= 32)%nat /\ 0 <= n) as (En & Hk & Hp) by (destruct Hn as [-> | [-> | [-> | ->]]]; (split; [done|split; [|done]]); apply Nat.leb_le; done).
      pose proof (Z.pow_le_mono_r 2 (n - 1) n). rewrite genIntType_spec; [done|done|]. rewrite En. lia.
Qed.

(** An indexed value is found by the topic of the rule that asks for it, and read
    back from it. *)
Lemma topic_roundtrip Keccak256 t v :
  sane t = true -> value_type t = true -> has_type t v = true -> negative_big v = false ->
  exists topic, make_topic Keccak256 (rule_of t v) = ret topic /\ pack t v = Some topic /\ parse_topic t topic = ret v.
Proof.
  intros Hs Ht Hv Hn. destruct (read_scalar t v Hs Hv ltac:(by destruct t)) as (enc & Hp & He). exists enc.
  assert (isDynamicType t = false /\ getTypeSize t = 32 /\ (forall b, parse_topic t b = toGoType t 0 b)) as (Hd & Hz & Hparse) by (by destruct t).
  destruct He as [Hl Hr]. specialize (Hl Hd). rewrite Hz in Hl. assert (parse_topic t enc = ret v) as Hread.
  { rewrite Hparse. apply Hr; [lia|]. rewrite Hd. exists [], []. by rewrite app_nil_r. }
  split_and!; [|done..]. clear Hr Hread Hparse Hd. destruct t as [sz|sz| | |t|n t|l| |sz| | |]; destruct v as [k x|x|s|x|x|x|x]; try done;
    cbn [has_type] in Hv; rewrite ?andb_true_iff, ?bool_decide_eq_true in Hv; cbn [pack packElement] in Hp.
  - destruct Hv as [-> Hv]. rewrite bool_decide_eq_true_2 in Hp by done. injection Hp as <-. by apply number_topic.
  - destruct Hv as [-> Hv]. rewrite bool_decide_eq_true_2 in Hp by done. injection Hp as <-. by apply number_topic.
  - injection Hp as <-. by destruct x.
  - apply Z.eqb_eq in Hv. injection Hp as <-. unfold LeftPadBytes. by rewrite Hv.
  - rewrite Hv in Hp. apply Z.eqb_eq in Hv. injection Hp as <-. cbn [sane] in Hs. apply andb_true_iff in Hs as [Hs1 Hs2]. apply Z.leb_le in Hs1, Hs2.
    cbn [rule_of make_topic]. rewrite (proj2 (Z.ltb_ge _ _)) by lia. rewrite right_pad by lia. do 4 f_equal. unfold zlen in *. lia.
Qed.

(** A negative [big.Int] gets the topic of its absolute value. *)
Lemma topic_of_negative Keccak256 x : - 2 ^ 255 <= x < 0 -> make_topic Keccak256 (RBig x) = ret (packNum (- x)).
Proof. intros Hx. cbn [make_topic]. rewrite copy_right_spec by lia. do 2 f_equal. lia. Qed.

Lemma decodable_sane t : decodable t = true -> sane t = true.
Proof.
  induction t as [t IH] using Ty_ind'. destruct t; try done; cbn [decodable sane]; rewrite ?andb_true_iff.
  - naive_solver.
  - intros [_ Hl]. induction IH as [|t l Ht _ IHl]; [done|]. cbn in *. apply andb_true_iff in Hl as [Hd Hl]. by rewrite Ht, IHl.
Qed.

Lemma decodable_all_sane l : forallb decodable l = true -> forallb sane l = true.
Proof. rewrite !forallb_forall. intros Hd t Ht. by apply decodable_sane, Hd. Qed.

Lemma non_indexed_sane args : forallb sane (arg_Type <$> args) = true -> forallb sane (arg_Type <$> NonIndexed args) = true.
Proof.
  intros Hs. unfold NonIndexed. induction args as [|a args IH]; [done|]. cbn in Hs. apply andb_true_iff in Hs as [Ha Hs]. destruct (decide (arg_Indexed a = false)).
  - rewrite filter_cons_True by done. cbn. by rewrite Ha, IH.
  - rewrite filter_cons_False by done. by apply IH.
Qed.

(** Fixed bytes beyond a word and beyond the data. *)
Lemma long_fixed_bytes_panic n rest data :
  32 <= zlen data < n -> Unpack ({| arg_Type := FixedBytesTy n; arg_Indexed := false |} :: rest) data = None.
Proof.
  intros Hn. unfold Unpack, UnpackValues, NonIndexed. rewrite (proj2 (Z.eqb_neq _ 0)) by lia. rewrite filter_cons_True by done.
  cbn [fmap list_fmap arg_Type unpack_all]. cbn [toGoType]. rewrite (proj2 (Z.ltb_ge _ _)) by (cbn; lia).
  change ((0 + 0) * 32) with 0. unfold slice at 1. rewrite (proj2 (Z.leb_le 0 0)), (proj2 (Z.leb_le 0 _)), (proj2 (Z.leb_le _ (zlen data))) by lia.
  cbn [andb bindR ret]. unfold slice. rewrite (proj2 (Z.leb_gt (0 + n) _)) by lia. by rewrite andb_false_r.
Qed.

(** ** Properties *)

(** C23: whatever the bytes, decoding them as the arguments of a contract call or
    the values of a log ends with values or with an error and never reads out of
    the bounds of the data, for types of fixed bytes of at most 32 bytes and of
    sizes that Go's [int] holds.  The bound on fixed bytes is needed: [NewType]
    also accepts [bytes33] and longer, and decoding those panics when the data are
    a word or more but end before the value does (the capacity of the data being
    their length). *)
Theorem unpack_never_panics args data :
  wf_bytes data ->
  (forallb decodable (arg_Type <$> args) = true -> Unpack args data <> None) /\
  (forall n rest, args = {| arg_Type := FixedBytesTy n; arg_Indexed := false |} :: rest -> 32 <= zlen data < n -> Unpack args data = None).
Proof.
  intros Hwf. split.
  - intros Hd. unfold Unpack. destruct (zlen data =? 0); [by destruct (negb _)|]. apply ok_fields; [|done| |done].
    + apply Forall_true. intros t Hst index output. by apply toGoType_ok.
    + apply non_indexed_sane, decodable_all_sane, Hd.
  - intros n rest -> Hn. by apply long_fixed_bytes_panic.
Qed.

(** C24: values within the range of their types, nested as they may be, are packed,
    and unpacking the bytes gives the values back; the types are without empty
    arrays and tuples, whose absence from the data the decoder takes for an error. *)
Theorem abi_roundtrip args vs :
  let ts := arg_Type <$> args in
  forallb sane ts = true -> forallb sized ts = true -> forallb (fun a => negb (arg_Indexed a)) args = true -> have_types ts vs = true ->
  exists data, Pack args vs = Some data /\ (zlen data < 2 ^ 63 -> Unpack args data = ret vs).
Proof.
  intros ts Hs Hz Hi Hv. destruct (pack_all_reads ts vs) as (l & Hl & Ha); [apply Forall_true; apply packs_all|done..|].
  exists (joined (head_size ts) l). unfold Pack. fold ts. rewrite Hl. split; [done|]. intros Hb. unfold Unpack, UnpackValues. rewrite all_non_indexed by done. fold ts.
  pose proof (read_joined _ _ _ [] Ha) as Hr. rewrite app_nil_r in Hr. specialize (Hr Hb).
  pose proof (join_head_size _ _ _ (head_size ts) Ha) as Hh. destruct args as [|a args]; [by inversion Ha; subst|].
  rewrite (proj2 (Z.eqb_neq _ 0)); [done|]. unfold joined. destruct (join _ l) as [heads tail]. cbn [fst] in Hh. rewrite zlen_app, Hh. pose proof (zlen_nonneg tail).
  cbn in Hs, Hz. apply andb_true_iff in Hs as [Hs1 Hs]. apply andb_true_iff in Hz as [Hz1 _]. pose proof (size_pos _ Hs1 Hz1).
  assert (0 <= head_size (arg_Type <$> args)); [|unfold ts, head_size in *; cbn [fmap list_fmap foldr] in *; lia].
  clear -Hs. unfold head_size. induction args as [|a args IH]; [done|]. cbn in Hs. apply andb_true_iff in Hs as [Ha Hs]. cbn [fmap list_fmap foldr].
  destruct (size_words _ Ha) as (k & ? & ->). specialize (IH Hs). cbn in IH. lia.
Qed.

(** [f(uint8, (int256, string)[], bytes3[2])] *)
Definition sample_args : list Argument :=
  (fun t => {| arg_Type := t; arg_Indexed := false |}) <$> [UintTy 8; SliceTy (TupleTy [IntTy 256; StringTy]); ArrayTy 2 (FixedBytesTy 3)].

Definition sample_vals : list Val :=
  [VNum (KUint 8) 7; VList [VStruct [VNum KBig (-5); VString [104; 105]]; VStruct [VNum KBig (2 ^ 200); VString []]]; VList [VByteArray [1; 2; 3]; VByteArray [4; 5; 6]]].

Lemma unpack_never_panics_witness :
  Unpack sample_args (replicate 64 255) <> None /\ Unpack [{| arg_Type := FixedBytesTy 33; arg_Indexed := false |}] (replicate 32 255) = None.
Proof.
  split.
  - apply (unpack_never_panics sample_args (replicate 64 255)); [apply Forall_replicate; split; lia|reflexivity].
  - refine (proj2 (unpack_never_panics _ (replicate 32 255) _) 33 [] eq_refl _); [apply Forall_replicate; split; lia|split; reflexivity || done].
Defined.

Lemma abi_roundtrip_witness : exists data, Pack sample_args sample_vals = Some data /\ Unpack sample_args data = ret sample_vals.
Proof.
  destruct (abi_roundtrip sample_args sample_vals) as (data & Hp & Hu); [reflexivity..|]. exists data. split; [exact Hp|]. apply Hu. vm_compute in Hp. injection Hp as <-. reflexivity.
Defined.
