(* ===== verification/Blake2b.v ===== *)
(** * [crypto/blake2b]: the compression function of BLAKE2b

    [fGeneric] with its unrolled rounds, and the compression function of RFC 7693
    as the reference.  The code mixes the four columns, and then the four diagonals,
    in parallel and reads the message words through a table permuted to match. *)
From S2P Require Import Prelude.

(** ** The code *)

(** [bits.RotateLeft64] *)
Definition RotateLeft64 (x k : Z) : Z :=
  let s := k mod 64 in Z.lor (u64 (Z.shiftl x s)) (Z.shiftr x (64 - s)).

Definition iv : list Z :=
  [0x6a09e667f3bcc908; 0xbb67ae8584caa73b; 0x3c6ef372fe94f82b; 0xa54ff53a5f1d36f1;
   0x510e527fade682d1; 0x9b05688c2b3e6c1f; 0x1f83d9abfb41bd6b; 0x5be0cd19137e2179].

Definition precomputed : list (list nat) :=
  [[0; 2; 4; 6; 1; 3; 5; 7; 8; 10; 12; 14; 9; 11; 13; 15];
   [14; 4; 9; 13; 10; 8; 15; 6; 1; 0; 11; 5; 12; 2; 7; 3];
   [11; 12; 5; 15; 8; 0; 2; 13; 10; 3; 7; 9; 14; 6; 1; 4];
   [7; 3; 13; 11; 9; 1; 12; 14; 2; 5; 4; 15; 6; 10; 0; 8];
   [9; 5; 2; 10; 0; 7; 4; 15; 14; 11; 6; 3; 1; 12; 8; 13];
   [2; 6; 0; 8; 12; 10; 11; 3; 4; 7; 15; 1; 13; 5; 14; 9];
   [12; 1; 14; 4; 5; 15; 13; 10; 0; 6; 9; 8; 7; 3; 2; 11];
   [13; 7; 12; 3; 11; 14; 1; 9; 5; 15; 8; 2; 0; 4; 6; 10];
   [6; 14; 11; 0; 15; 9; 3; 8; 12; 13; 1; 10; 2; 7; 4; 5];
   [10; 8; 7; 1; 2; 4; 6; 5; 15; 9; 3; 13; 11; 14; 12; 0]]%nat.

(** The seven assignments that are repeated for each four variables. *)
Definition mix (a b c d x r1 r2 : Z) : Z * Z * Z * Z :=
  let a := u64 (a + x) in
  let a := u64 (a + b) in
  let d := Z.lxor d a in
  let d := RotateLeft64 d r1 in
  let c := u64 (c + d) in
  let b := Z.lxor b c in
  let b := RotateLeft64 b r2 in
  (a, b, c, d).

(** The variables [v0] to [v15]. *)
Inductive Vars := V (v0 v1 v2 v3 v4 v5 v6 v7 v8 v9 v10 v11 v12 v13 v14 v15 : Z).

Definition blake_round (m : list Z) (s : list nat) (v : Vars) : Vars :=
  let x i := nth (nth i s 0%nat) m 0 in
  let 'V v0 v1 v2 v3 v4 v5 v6 v7 v8 v9 v10 v11 v12 v13 v14 v15 := v in
  let '(v0, v4, v8, v12) := mix v0 v4 v8 v12 (x 0%nat) (-32) (-24) in
  let '(v1, v5, v9, v13) := mix v1 v5 v9 v13 (x 1%nat) (-32) (-24) in
  let '(v2, v6, v10, v14) := mix v2 v6 v10 v14 (x 2%nat) (-32) (-24) in
  let '(v3, v7, v11, v15) := mix v3 v7 v11 v15 (x 3%nat) (-32) (-24) in
  let '(v0, v4, v8, v12) := mix v0 v4 v8 v12 (x 4%nat) (-16) (-63) in
  let '(v1, v5, v9, v13) := mix v1 v5 v9 v13 (x 5%nat) (-16) (-63) in
  let '(v2, v6, v10, v14) := mix v2 v6 v10 v14 (x 6%nat) (-16) (-63) in
  let '(v3, v7, v11, v15) := mix v3 v7 v11 v15 (x 7%nat) (-16) (-63) in
  let '(v0, v5, v10, v15) := mix v0 v5 v10 v15 (x 8%nat) (-32) (-24) in
  let '(v1, v6, v11, v12) := mix v1 v6 v11 v12 (x 9%nat) (-32) (-24) in
  let '(v2, v7, v8, v13) := mix v2 v7 v8 v13 (x 10%nat) (-32) (-24) in
  let '(v3, v4, v9, v14) := mix v3 v4 v9 v14 (x 11%nat) (-32) (-24) in
  let '(v0, v5, v10, v15) := mix v0 v5 v10 v15 (x 12%nat) (-16) (-63) in
  let '(v1, v6, v11, v12) := mix v1 v6 v11 v12 (x 13%nat) (-16) (-63) in
  let '(v2, v7, v8, v13) := mix v2 v7 v8 v13 (x 14%nat) (-16) (-63) in
  let '(v3, v4, v9, v14) := mix v3 v4 v9 v14 (x 15%nat) (-16) (-63) in
  V v0 v1 v2 v3 v4 v5 v6 v7 v8 v9 v10 v11 v12 v13 v14 v15.

(** Rounds [i] to [i + n - 1] of a loop. *)
Fixpoint loop {A} (f : nat -> A -> A) (n i : nat) (v : A) : A := match n with O => v | S n => loop f n (S i) (f i v) end.

Definition blake_rounds (m : list Z) (n : nat) (v : Vars) : Vars := loop (fun i => blake_round m (nth (i mod 10) precomputed [])) n 0 v.

Definition fGeneric (h m : list Z) (c0 c1 flag : Z) (rounds : nat) : list Z :=
  let h_ i := nth i h 0 in
  let iv_ i := nth i iv 0 in
  let 'V v0 v1 v2 v3 v4 v5 v6 v7 v8 v9 v10 v11 v12 v13 v14 v15 :=
    blake_rounds m rounds
      (V (h_ 0%nat) (h_ 1%nat) (h_ 2%nat) (h_ 3%nat) (h_ 4%nat) (h_ 5%nat) (h_ 6%nat) (h_ 7%nat) (iv_ 0%nat) (iv_ 1%nat) (iv_ 2%nat) (iv_ 3%nat)
         (Z.lxor (iv_ 4%nat) c0) (Z.lxor (iv_ 5%nat) c1) (Z.lxor (iv_ 6%nat) flag) (iv_ 7%nat)) in
  [Z.lxor (h_ 0%nat) (Z.lxor v0 v8); Z.lxor (h_ 1%nat) (Z.lxor v1 v9); Z.lxor (h_ 2%nat) (Z.lxor v2 v10); Z.lxor (h_ 3%nat) (Z.lxor v3 v11);
   Z.lxor (h_ 4%nat) (Z.lxor v4 v12); Z.lxor (h_ 5%nat) (Z.lxor v5 v13); Z.lxor (h_ 6%nat) (Z.lxor v6 v14); Z.lxor (h_ 7%nat) (Z.lxor v7 v15)].

Definition F (h m c : list Z) (final : bool) (rounds : Z) : list Z :=
  fGeneric h m (nth 0 c 0) (nth 1 c 0) (if final then 0xFFFFFFFFFFFFFFFF else 0) (Z.to_nat rounds).

(** ** RFC 7693 *)
Definition ror (x r : Z) : Z := Z.lxor (Z.shiftr x r) (Z.shiftl x (64 - r) mod 2 ^ 64).

Definition SIGMA : list (list nat) :=
  [[0; 1; 2; 3; 4; 5; 6; 7; 8; 9; 10; 11; 12; 13; 14; 15];
   [14; 10; 4; 8; 9; 15; 13; 6; 1; 12; 0; 2; 11; 7; 5; 3];
   [11; 8; 12; 0; 5; 2; 15; 13; 10; 14; 3; 6; 7; 1; 9; 4];
   [7; 9; 3; 1; 13; 12; 11; 14; 2; 6; 5; 10; 4; 0; 15; 8];
   [9; 0; 5; 7; 2; 4; 10; 15; 14; 1; 11; 12; 6; 8; 3; 13];
   [2; 12; 6; 10; 0; 11; 8; 3; 4; 13; 7; 5; 15; 14; 1; 9];
   [12; 5; 1; 15; 14; 13; 4; 10; 0; 7; 6; 3; 9; 2; 8; 11];
   [13; 11; 7; 14; 12; 1; 3; 9; 5; 0; 15; 4; 8; 6; 2; 10];
   [6; 15; 14; 9; 11; 3; 0; 8; 12; 2; 13; 7; 1; 4; 10; 5];
   [10; 2; 8; 4; 7; 6; 1; 5; 15; 11; 9; 14; 3; 12; 13; 0]]%nat.

(** The mixing function [G], on a vector of sixteen words. *)
Definition G (a b c d : nat) (x y : Z) (v : list Z) : list Z :=
  let w v i := nth i v 0 in
  let v := <[a := (w v a + w v b + x) mod 2 ^ 64]> v in
  let v := <[d := ror (Z.lxor (w v d) (w v a)) 32]> v in
  let v := <[c := (w v c + w v d) mod 2 ^ 64]> v in
  let v := <[b := ror (Z.lxor (w v b) (w v c)) 24]> v in
  let v := <[a := (w v a + w v b + y) mod 2 ^ 64]> v in
  let v := <[d := ror (Z.lxor (w v d) (w v a)) 16]> v in
  let v := <[c := (w v c + w v d) mod 2 ^ 64]> v in
  <[b := ror (Z.lxor (w v b) (w v c)) 63]> v.

Definition rfc_round (m : list Z) (s : list nat) (v : list Z) : list Z :=
  let x i := nth (nth i s 0%nat) m 0 in
  let v := G 0 4 8 12 (x 0%nat) (x 1%nat) v in
  let v := G 1 5 9 13 (x 2%nat) (x 3%nat) v in
  let v := G 2 6 10 14 (x 4%nat) (x 5%nat) v in
  let v := G 3 7 11 15 (x 6%nat) (x 7%nat) v in
  let v := G 0 5 10 15 (x 8%nat) (x 9%nat) v in
  let v := G 1 6 11 12 (x 10%nat) (x 11%nat) v in
  let v := G 2 7 8 13 (x 12%nat) (x 13%nat) v in
  G 3 4 9 14 (x 14%nat) (x 15%nat) v.

Definition rfc_rounds (m : list Z) (n : nat) (v : list Z) : list Z := loop (fun i => rfc_round m (nth (i mod 10) SIGMA [])) n 0 v.

(** The compression function, with the number of rounds as in EIP-152. *)
Definition rfc_F (h m : list Z) (t0 t1 : Z) (final : bool) (rounds : nat) : list Z :=
  let v := h ++ iv in
  let v := <[12%nat := Z.lxor (nth 12 v 0) t0]> v in
  let v := <[13%nat := Z.lxor (nth 13 v 0) t1]> v in
  let v := if final then <[14%nat := Z.lxor (nth 14 v 0) (2 ^ 64 - 1)]> v else v in
  let v := rfc_rounds m rounds v in
  (fun i => Z.lxor (Z.lxor (nth i h 0) (nth i v 0)) (nth (i + 8) v 0)) <$> seq 0 8.

(** ** Equivalence *)
Lemma u64_bit x n : is_u64 x -> 64 <= n -> Z.testbit x n = false.
Proof.
  intros [H1 H2] Hn. destruct (Z.eq_dec x 0) as [->|]; [apply Z.bits_0|]. apply Z.bits_above_log2; [done|].
  apply Z.log2_lt_pow2; [lia|]. eapply Z.lt_le_trans; [exact H2|]. apply Z.pow_le_mono_r; lia.
Qed.

Lemma u64_bits x : (forall n, 64 <= n -> Z.testbit x n = false) -> is_u64 x.
Proof.
  intros Hb. enough (x mod 2 ^ 64 = x) as <- by (apply Z.mod_pos_bound; lia). apply Z.bits_inj'. intros n Hn.
  destruct (Z.lt_ge_cases n 64); [by rewrite Z.mod_pow2_bits_low by lia|]. by rewrite Z.mod_pow2_bits_high, Hb by lia.
Qed.

Lemma lxor_u64 x y : is_u64 x -> is_u64 y -> is_u64 (Z.lxor x y).
Proof. intros Hx Hy. apply u64_bits. intros n Hn. by rewrite Z.lxor_spec, !u64_bit by done. Qed.

Lemma ror_u64 x r : is_u64 x -> 0 <= r -> is_u64 (ror x r).
Proof.
  intros Hx Hr. apply lxor_u64; [|apply Z.mod_pos_bound; lia]. apply u64_bits. intros n Hn. rewrite Z.shiftr_spec by lia. apply u64_bit; [done|lia].
Qed.

(** A rotation to the left by [-r] is one to the right by [r]. *)
Lemma RotateLeft64_ror x r : is_u64 x -> 0 < r < 64 -> RotateLeft64 x (- r) = ror x r.
Proof.
  intros Hx Hr. unfold RotateLeft64, ror, u64. replace (- r mod 64) with (64 - r) by (apply (Z.mod_unique _ _ (-1)); lia). replace (64 - (64 - r)) with r by lia.
  apply Z.bits_inj'. intros n Hn. rewrite Z.lor_spec, Z.lxor_spec. destruct (Z.lt_ge_cases n 64).
  - rewrite !Z.mod_pow2_bits_low, Z.shiftl_spec, Z.shiftr_spec by lia. destruct (Z.lt_ge_cases n (64 - r)).
    + rewrite (Z.testbit_neg_r x (n - (64 - r))) by lia. by rewrite xorb_false_r.
    + rewrite (u64_bit x (n + r)) by (done || lia). by rewrite orb_false_r, xorb_false_l.
  - rewrite !Z.mod_pow2_bits_high, Z.shiftr_spec by lia. by rewrite xorb_false_r.
Qed.

(** One half of [G] on four words. *)
Definition half (a b c d x r1 r2 : Z) : Z * Z * Z * Z :=
  let a := (a + b + x) mod 2 ^ 64 in
  let d := ror (Z.lxor d a) r1 in
  let c := (c + d) mod 2 ^ 64 in
  (a, ror (Z.lxor b c) r2, c, d).

Lemma mix_half a b c d x r1 r2 : is_u64 b -> is_u64 d -> 0 < r1 < 64 -> 0 < r2 < 64 -> mix a b c d x (- r1) (- r2) = half a b c d x r1 r2.
Proof.
  intros Hb Hd H1 H2. unfold mix, half. assert (u64 (u64 (a + x) + b) = (a + b + x) mod 2 ^ 64) as ->.
  { unfold u64. rewrite Zplus_mod_idemp_l. f_equal. lia. }
  rewrite RotateLeft64_ror by first [done|apply lxor_u64; [done|apply Z.mod_pos_bound; lia]]. cbv zeta. unfold u64.
  rewrite RotateLeft64_ror by first [done|apply lxor_u64; [done|apply Z.mod_pos_bound; lia]]. done.
Qed.

Lemma half_u64 a b c d x r1 r2 :
  is_u64 b -> is_u64 d -> 0 <= r1 -> 0 <= r2 -> exists a' b' c' d', half a b c d x r1 r2 = (a', b', c', d') /\ is_u64 a' /\ is_u64 b' /\ is_u64 c' /\ is_u64 d'.
Proof.
  intros Hb Hd H1 H2. eexists _, _, _, _. split; [done|]. assert (forall y, is_u64 (y mod 2 ^ 64)) as Hm by (intros y; apply Z.mod_pos_bound; lia).
  assert (is_u64 (ror (Z.lxor d ((a + b + x) mod 2 ^ 64)) r1)) by (apply ror_u64; [by apply lxor_u64|done]).
  refine (conj (Hm _) (conj _ (conj (Hm _) _))); [|done]. apply ror_u64; [by apply lxor_u64|done].
Qed.

Definition words (v : Vars) : list Z :=
  let 'V v0 v1 v2 v3 v4 v5 v6 v7 v8 v9 v10 v11 v12 v13 v14 v15 := v in [v0; v1; v2; v3; v4; v5; v6; v7; v8; v9; v10; v11; v12; v13; v14; v15].

(** One step of the unrolled code, in the goal of a proof. *)
Ltac mix_step :=
  match goal with
  | |- context [mix ?a ?b ?c ?d ?x ?r1 ?r2] =>
      let r1' := eval compute in (- r1) in let r2' := eval compute in (- r2) in
      change (mix a b c d x r1 r2) with (mix a b c d x (- r1') (- r2')); rewrite (mix_half a b c d x r1' r2') by (done || lia);
      let E := fresh "E" in
      destruct (half_u64 a b c d x r1' r2') as (? & ? & ? & ? & E & ? & ? & ? & ?); [done|done|lia|lia|]; rewrite E; cbv beta iota
  end.

(** The words of the message in the order of the unrolled code. *)
Definition interleave (s : list nat) : list nat := (fun i => nth i s 0%nat) <$> [0; 2; 4; 6; 1; 3; 5; 7; 8; 10; 12; 14; 9; 11; 13; 15]%nat.

Lemma precomputed_interleaved i : (i < 10)%nat -> nth i precomputed [] = interleave (nth i SIGMA []).
Proof. intros Hi. do 10 (destruct i as [|i]; [reflexivity|]). lia. Qed.

(** A half of [G] on a vector. *)
Definition G_half (a b c d : nat) (x r1 r2 : Z) (v : list Z) : list Z :=
  let w v i := nth i v 0 in
  let v := <[a := (w v a + w v b + x) mod 2 ^ 64]> v in
  let v := <[d := ror (Z.lxor (w v d) (w v a)) r1]> v in
  let v := <[c := (w v c + w v d) mod 2 ^ 64]> v in
  <[b := ror (Z.lxor (w v b) (w v c)) r2]> v.

Lemma G_halves a b c d x y v : G a b c d x y v = G_half a b c d y 16 63 (G_half a b c d x 32 24 v).
Proof. done. Qed.

Lemma nth_insert_eq (v : list Z) i y : (i < length v)%nat -> nth i (<[i := y]> v) 0 = y.
Proof. intros Hi. by rewrite nth_lookup, list_lookup_insert_eq. Qed.

Lemma nth_insert_ne (v : list Z) i j y : i <> j -> nth i (<[j := y]> v) 0 = nth i v 0.
Proof. intros Hi. by rewrite !nth_lookup, list_lookup_insert_ne. Qed.

Lemma G_half_spec a b c d x r1 r2 v a' b' c' d' :
  half (nth a v 0) (nth b v 0) (nth c v 0) (nth d v 0) x r1 r2 = (a', b', c', d') -> NoDup [a; b; c; d] -> Forall (fun i => (i < length v)%nat) [a; b; c; d] ->
  G_half a b c d x r1 r2 v = <[b := b']> (<[c := c']> (<[d := d']> (<[a := a']> v))).
Proof.
  unfold half. intros [= <- <- <- <-]. rewrite !NoDup_cons, !Forall_cons, !not_elem_of_cons. intros ((?&?&?&_)&(?&?&_)&(?&_)&_) (?&?&?&?&_). unfold G_half.
  repeat first [rewrite nth_insert_eq by (rewrite ?length_insert; done)|rewrite nth_insert_ne by done]. done.
Qed.

Ltac G_half_step :=
  match goal with
  | |- context [G_half ?a ?b ?c ?d ?x ?r1 ?r2 (?h :: ?t)] =>
      erewrite (G_half_spec a b c d x r1 r2 (h :: t)); [|cbn [nth]; eassumption|by apply (bool_decide_unpack _)|repeat constructor; cbn; lia]; cbn [insert list_insert]
  end.

(** A round of the code is a round of the reference. *)
Lemma blake_round_rfc m s v : Forall is_u64 (words v) -> words (blake_round m (interleave s) v) = rfc_round m s (words v) /\ Forall is_u64 (words (blake_round m (interleave s) v)).
Proof.
  destruct v as [v0 v1 v2 v3 v4 v5 v6 v7 v8 v9 v10 v11 v12 v13 v14 v15]. cbn [words]. rewrite !Forall_cons. intros (?&?&?&?&?&?&?&?&?&?&?&?&?&?&?&?&_).
  unfold blake_round, rfc_round. cbn [interleave fmap list_fmap nth]. do 16 mix_step. split; [|cbn [words]; repeat (apply Forall_cons; split; [assumption|]); by apply Forall_nil].
  rewrite !G_halves. cbn [words].
  do 16 G_half_step. done.
Qed.

Lemma loop_rel {A B} (R : A -> B -> Prop) f g n i a b : (forall i a b, R a b -> R (f i a) (g i b)) -> R a b -> R (loop f n i a) (loop g n i b).
Proof. intros Hf. revert i a b. induction n as [|n IH]; intros i a b Hr; [exact Hr|]. apply IH, Hf, Hr. Qed.

Lemma blake_rounds_rfc m n v : Forall is_u64 (words v) -> words (blake_rounds m n v) = rfc_rounds m n (words v).
Proof.
  intros Hv. enough (words (blake_rounds m n v) = rfc_rounds m n (words v) /\ Forall is_u64 (words (blake_rounds m n v))) by tauto. unfold blake_rounds, rfc_rounds.
  apply (loop_rel (fun v l => words v = l /\ Forall is_u64 (words v))); [|done]. clear. intros i v l [<- Hv].
  rewrite precomputed_interleaved by (apply Nat.mod_upper_bound; lia). by apply blake_round_rfc.
Qed.

(** ** Property *)

(** C26: the compression function of the blake2F contract is that of RFC 7693, for
    any number of rounds: the unrolled rounds, which mix the columns in parallel and
    read the message through their own table, compute the mixing function [G] on the
    columns and diagonals with the permutations of the standard. *)
Theorem F_is_rfc7693 h m t0 t1 final rounds :
  length h = 8%nat -> Forall is_u64 h -> is_u64 t0 -> is_u64 t1 -> F h m [t0; t1] final rounds = rfc_F h m t0 t1 final (Z.to_nat rounds).
Proof.
  intros Hl Hh H0 H1. destruct h as [|h0 [|h1 [|h2 [|h3 [|h4 [|h5 [|h6 [|h7 [|]]]]]]]]]; try done. unfold F, fGeneric, rfc_F. cbn [nth].
  set (v := V _ _ _ _ _ _ _ _ _ _ _ _ _ _ _ _). assert (Forall is_u64 (words v)) as Hv.
  { rewrite !Forall_cons in Hh. destruct Hh as (?&?&?&?&?&?&?&?&_). unfold v. cbn [words iv nth]. assert (is_u64 (if final then 0xFFFFFFFFFFFFFFFF else 0)) by (by destruct final).
    repeat (apply Forall_cons; split; [first [assumption|apply lxor_u64; [done|assumption]|done]|]). by apply Forall_nil. }
  pose proof (blake_rounds_rfc m (Z.to_nat rounds) v Hv) as Hr.
  replace (if final then _ else _) with (words v) by (by destruct final; cbn [words v nth app iv insert list_insert]; rewrite ?Z.lxor_0_r).
  rewrite <- Hr. destruct (blake_rounds _ _ _). cbn. by rewrite !Z.lxor_assoc.
Qed.

(** The last block of the message "abc". *)
Definition abc_h : list Z :=
  [0x6a09e667f2bdc948; 0xbb67ae8584caa73b; 0x3c6ef372fe94f82b; 0xa54ff53a5f1d36f1; 0x510e527fade682d1; 0x9b05688c2b3e6c1f; 0x1f83d9abfb41bd6b; 0x5be0cd19137e2179].

Definition abc_m : list Z := 0x636261 :: replicate 15 0.

Lemma F_is_rfc7693_witness : nth 0 (F abc_h abc_m [3; 0] true 12) 0 = 0x0d4d1c983fa580ba /\ F abc_h abc_m [3; 0] true 12 = rfc_F abc_h abc_m 3 0 true 12.
Proof.
  split; [vm_compute; reflexivity|]. apply (F_is_rfc7693 abc_h abc_m 3 0 true 12); [reflexivity| |split; lia|split; lia]. unfold abc_h. repeat constructor; lia.
Defined.
