(* ===== verification/PledgeBill.v ===== *)
(** * [pledgeBill]: pledge bills of the main chain

    A transaction of the main chain that turns a vote into a token (an NFT) is
    recorded in the database of the SPV service, under its hash, together with the
    version of its payload; the pledge contracts of the EVM read the records.
    [payload.CreateNFT] and the ids of tokens are of the main chain's library. *)
From S2P Require Import Prelude Rlp Common.

Record CreateNFT := {
  ReferKey : bytes; StakeAddress : string; GenesisBlockHash : bytes; StartHeight : Z; EndHeight : Z; Votes : Z; VoteRights : Z; TargetOwnerKey : bytes
}.

#[export] Instance CreateNFT_eta : Eta CreateNFT := fun p => {|
  ReferKey := ReferKey p; StakeAddress := StakeAddress p; GenesisBlockHash := GenesisBlockHash p; StartHeight := StartHeight p;
  EndHeight := EndHeight p; Votes := Votes p; VoteRights := VoteRights p; TargetOwnerKey := TargetOwnerKey p
|}.

Record NftTx := { PayloadVersion : Z; PayloadData : bytes; nft_Hash : bytes; IsCreateNFTTX : bool }.

Class NftLib := {
  nft_Deserialize : bytes -> Z -> CreateNFT + string;
  GetNFTID : bytes -> bytes -> bytes;
  Uint256FromHexString : string -> bytes + string;
  Uint256_String : bytes -> string
}.

Definition ErrNotFound : string := "leveldb: not found".

Definition getTxKey (key : string) : string := "elaPledgeTx_" +:+ key.
Definition getTxVersionKey (key : string) : string := "ela_PledgeTx_Version_" +:+ key.

Section pledge.
Context `{!NftLib}.

Definition getData (key : string) (db : gmap bytes bytes) : bytes + string :=
  match db !! string_bytes key with Some v => inl v | None => inr ErrNotFound end.

Definition putData (key : string) (value : bytes) (db : gmap bytes bytes) : gmap bytes bytes := <[ string_bytes key := value ]> db.

Definition putTxPayLoadVersion (key : string) (version : Z) (db : gmap bytes bytes) : gmap bytes bytes := putData key [version] db.

(** [value[0]] panics on an empty value. *)
Definition getPayloadVerion (key : string) (db : gmap bytes bytes) : option (Z * error) :=
  match getData key db with
  | inr err => Some (0, New err)
  | inl value => match value with [] => None | v :: _ => Some (v, nil_err) end
  end.

(** [genesis]: the hash of the first block, as the client of the local chain gives
    it. *)
Definition ProcessPledgedBill (genesis : string + string) (elaTx : NftTx) (db : gmap bytes bytes) : gmap bytes bytes :=
  match nft_Deserialize (PayloadData elaTx) (PayloadVersion elaTx) with
  | inr _ => db
  | inl createNft =>
      match genesis with
      | inr _ => db
      | inl genesis =>
          if negb (bool_decide (Uint256_String (GenesisBlockHash createNft) = genesis)) then db
          else
            let key := getTxKey (Uint256_String (nft_Hash elaTx)) in
            match getData key db with
            | inl (_ :: _) => db
            | inl [] | inr _ =>
                let db := putData key (PayloadData elaTx) db in
                putTxPayLoadVersion (getTxVersionKey (Uint256_String (nft_Hash elaTx))) (PayloadVersion elaTx) db
            end
      end
  end.

(** The receipt for the SPV service is given in any case. *)
Definition Notify (genesis : string + string) (tx : NftTx) (db : gmap bytes bytes) : gmap bytes bytes * bool :=
  if negb (IsCreateNFTTX tx) then (db, false) else (ProcessPledgedBill genesis tx db, true).

Definition GetBPosNftPayloadVersion (txHash : string) (db : gmap bytes bytes) : option (Z * error) :=
  txHash ← strip0x txHash; getPayloadVerion (getTxVersionKey txHash) db.

(** A payload that cannot be read is returned with the error all the same. *)
Definition GetCreateNFTPayload (txHash : string) (db : gmap bytes bytes) : option ((CreateNFT * Z) + string) :=
  txHash ← strip0x txHash;
  v ← GetBPosNftPayloadVersion txHash db;
  match getData (getTxKey txHash) db with
  | inr err => Some (inr ("GetCreateNFTPayload getData error" +:+ err +:+ "hash " +:+ txHash))
  | inl data => match nft_Deserialize data (fst v) with inr err => Some (inr err) | inl p => Some (inl (p, fst v)) end
  end.

(** The stake address, the token and the error. *)
Definition GetPledgeBillData (txHash : string) (db : gmap bytes bytes) : option (string * Z * error) :=
  txHash ← strip0x txHash;
  r ← GetCreateNFTPayload txHash db;
  match r with
  | inr err => Some (EmptyString, 0, New err)
  | inl (p, _) =>
      match Uint256FromHexString txHash with
      | inr err => Some (StakeAddress p, 0, New err)
      | inl elaHash => Some (StakeAddress p, shift_or (GetNFTID (ReferKey p) elaHash), nil_err)
      end
  end.

(** [err.Error()] is called before [err] is compared with nil: a key that is found
    panics. *)
Definition GetIndexByKey (Key : string) (db : gmap bytes bytes) : option (Z * error) :=
  match getData Key db with inl _ => None | inr err => if bool_decide (err = ErrNotFound) then Some (0, nil_err) else Some (0, New err) end.

Definition EncodeUnTransactionNumber (number : Z) : bytes := be 8 number.
End pledge.

(** ** Records are kept *)
Section records.
Context `{!NftLib}.

Lemma app_inj_l (p a b : string) : p +:+ a = p +:+ b -> a = b.
Proof. induction p as [|c p IH]; [done|]. cbn. intros [= E]. by apply IH. Qed.

(** The keys of payloads and of versions do not meet. *)
Lemma pledge_keys_apart a b : string_bytes (getTxKey a) <> string_bytes (getTxVersionKey b).
Proof. intros E. apply string_bytes_inj in E. discriminate E. Qed.

Lemma getTxKey_inj a b : string_bytes (getTxKey a) = string_bytes (getTxKey b) -> a = b.
Proof. intros E. apply string_bytes_inj in E. by apply app_inj_l in E. Qed.

(** A record is never replaced, whatever is notified later. *)
Lemma record_kept genesis tx db key value :
  db !! string_bytes (getTxKey key) = Some value -> value <> [] -> fst (Notify genesis tx db) !! string_bytes (getTxKey key) = Some value.
Proof.
  intros Hk Hv. unfold Notify. destruct (negb (IsCreateNFTTX tx)); [done|]. cbn [fst]. unfold ProcessPledgedBill. destruct (nft_Deserialize _ _) as [p|]; [|done].
  destruct genesis as [g|]; [|done]. destruct (negb _); [done|]. unfold getData.
  destruct (decide (key = Uint256_String (nft_Hash tx))) as [->|Hne]; [rewrite Hk; by destruct value|].
  assert (forall v w, (putTxPayLoadVersion (getTxVersionKey (Uint256_String (nft_Hash tx))) v (putData (getTxKey (Uint256_String (nft_Hash tx))) w db)) !! string_bytes (getTxKey key) = Some value) as Hput.
  { intros v w. unfold putTxPayLoadVersion, putData. rewrite lookup_insert_ne by (intros E; by apply (pledge_keys_apart key (Uint256_String (nft_Hash tx)))).
    rewrite lookup_insert_ne by (intros E; by apply Hne, eq_sym, getTxKey_inj). done. }
  repeat case_match; try done; apply Hput.
Qed.

Definition notify_all (genesis : string + string) (txs : list NftTx) (db : gmap bytes bytes) : gmap bytes bytes :=
  foldl (fun db tx => fst (Notify genesis tx db)) db txs.

Lemma records_kept genesis txs db key value :
  db !! string_bytes (getTxKey key) = Some value -> value <> [] -> notify_all genesis txs db !! string_bytes (getTxKey key) = Some value.
Proof. revert db. induction txs as [|tx txs IH]; intros db Hk Hv; [done|]. cbn. apply IH; [|done]. by apply record_kept. Qed.

(** What was recorded first for a hash is what the contracts read, also after later
    notifications of the same hash. *)
Lemma recorded_is_read genesis tx db nft h :
  IsCreateNFTTX tx = true -> nft_Deserialize (PayloadData tx) (PayloadVersion tx) = inl nft -> genesis = inl (Uint256_String (GenesisBlockHash nft)) ->
  h = Uint256_String (nft_Hash tx) -> strip0x h = Some h -> db !! string_bytes (getTxKey h) = None ->
  GetCreateNFTPayload h (fst (Notify genesis tx db)) = Some (inl (nft, PayloadVersion tx)).
Proof.
  intros Ht Hd -> -> Hs Hn. set (h := Uint256_String (nft_Hash tx)) in *. unfold Notify. rewrite Ht. cbn [negb fst]. unfold ProcessPledgedBill. rewrite Hd.
  rewrite bool_decide_eq_true_2 by done. cbn [negb]. fold h. unfold getData at 1. rewrite Hn.
  unfold GetCreateNFTPayload, GetBPosNftPayloadVersion, getPayloadVerion. rewrite Hs. cbn [mbind option_bind]. rewrite Hs. cbn [mbind option_bind].
  unfold getData, putTxPayLoadVersion, putData. rewrite lookup_insert_eq. cbn [mbind option_bind fst].
  rewrite lookup_insert_ne by (intros E; by apply (pledge_keys_apart h h)). rewrite lookup_insert_eq. by rewrite Hd.
Qed.
End records.
