(* ===== verification/EvmGas.v ===== *)
(** * [core/vm/gas.go], [gas_table.go], [operations_acl.go]: the cost of operations

    A gas function prices an operation before it is executed.  It may change the
    frame: the cost already paid for memory, the gas given to a call, the refund
    counter and the access list. *)
From S2P Require Import Prelude Rlp Header Common AccessList StateDB StateSpec StateRefine Withdraw Evm EvmMachine.

(** ** [params/protocol_params.go] *)
Definition CallValueTransferGas : Z := 9000.
Definition CallNewAccountGas : Z := 25000.
Definition QuadCoeffDiv : Z := 512.
Definition LogDataGas : Z := 8.
Definition CallStipend : Z := 2300.
Definition Keccak256Gas : Z := 30.
Definition Keccak256WordGas : Z := 6.
Definition InitCodeWordGas : Z := 2.
Definition SstoreSetGas : Z := 20000.
Definition SstoreResetGas : Z := 5000.
Definition SstoreClearGas : Z := 5000.
Definition SstoreRefundGas : Z := 15000.
Definition NetSstoreNoopGas : Z := 200.
Definition NetSstoreInitGas : Z := 20000.
Definition NetSstoreCleanGas : Z := 5000.
Definition NetSstoreDirtyGas : Z := 200.
Definition NetSstoreClearRefund : Z := 15000.
Definition NetSstoreResetRefund : Z := 4800.
Definition NetSstoreResetClearRefund : Z := 19800.
Definition SstoreSentryGasEIP2200 : Z := 2300.
Definition SstoreSetGasEIP2200 : Z := 20000.
Definition SstoreResetGasEIP2200 : Z := 5000.
Definition SstoreClearsScheduleRefundEIP2200 : Z := 15000.
Definition ColdAccountAccessCostEIP2929 : Z := 2600.
Definition ColdSloadCostEIP2929 : Z := 2100.
Definition WarmStorageReadCostEIP2929 : Z := 100.
Definition TxAccessListStorageKeyGas : Z := 1900.
Definition JumpdestGas : Z := 1.
Definition ExpGas : Z := 10.
Definition LogGas : Z := 375.
Definition CopyGas : Z := 3.
Definition StackLimit : Z := 1024.
Definition LogTopicGas : Z := 375.
Definition CreateGas : Z := 32000.
Definition Create2Gas : Z := 32000.
Definition SelfdestructRefundGas : Z := 24000.
Definition MemoryGas : Z := 3.
Definition CallGasFrontier : Z := 40.
Definition CallGasEIP150 : Z := 700.
Definition BalanceGasFrontier : Z := 20.
Definition BalanceGasEIP150 : Z := 400.
Definition BalanceGasEIP1884 : Z := 700.
Definition ExtcodeSizeGasFrontier : Z := 20.
Definition ExtcodeSizeGasEIP150 : Z := 700.
Definition SloadGasFrontier : Z := 50.
Definition SloadGasEIP150 : Z := 200.
Definition SloadGasEIP1884 : Z := 800.
Definition SloadGasEIP2200 : Z := 800.
Definition ExtcodeHashGasConstantinople : Z := 400.
Definition ExtcodeHashGasEIP1884 : Z := 700.
Definition SelfdestructGasEIP150 : Z := 5000.
Definition ExpByteFrontier : Z := 10.
Definition ExpByteEIP158 : Z := 50.
Definition ExtcodeCopyBaseFrontier : Z := 20.
Definition ExtcodeCopyBaseEIP150 : Z := 700.
Definition CreateBySelfdestructGas : Z := 25000.
Definition SstoreClearsScheduleRefundEIP3529 : Z := SstoreResetGasEIP2200 - ColdSloadCostEIP2929 + TxAccessListStorageKeyGas.
Definition MaxInitCodeSize : Z := 2 * MaxCodeSize.

Definition GasQuickStep : Z := 2.
Definition GasFastestStep : Z := 3.
Definition GasFastStep : Z := 5.
Definition GasMidStep : Z := 8.
Definition GasSlowStep : Z := 10.
Definition GasExtStep : Z := 20.

Definition ErrGasUintOverflow : string := "gas uint64 overflow".
Definition ErrSentry : string := "not enough gas for reentrancy sentry".

(** The rules of the block that the interpreter tests, those of [EvmEnv] apart. *)
Class Rules := {
  IsEIP150 : bool; IsByzantium : bool; IsConstantinople : bool; IsPetersburg : bool; IsIstanbul : bool; IsMerge : bool;
  IsShanghai : bool
}.

(** ** Memory sizes ([memory_table.go]) *)
Section sizes.
Context `{!Uint256}.

Definition mem_size (o l : nat) : M (Z * bool) :=
  let* off := back o in let* len := back l in retM (calcMemSize64 off len).
Definition mem_size_uint (o : nat) (l : Z) : M (Z * bool) := let* off := back o in retM (calcMemSize64WithUint off l).

(** The larger of two areas. *)
Definition mem_size2 (o1 l1 o2 l2 : nat) : M (Z * bool) :=
  let* (x, overflow) := mem_size o1 l1 in
  if overflow : bool then retM (0, true)
  else
    let* (y, overflow) := mem_size o2 l2 in
    if overflow : bool then retM (0, true) else retM (if y <? x then x else y, false).

Definition memoryKeccak256 : M (Z * bool) := mem_size 0 1.
Definition memoryCallDataCopy : M (Z * bool) := mem_size 0 2.
Definition memoryReturnDataCopy : M (Z * bool) := mem_size 0 2.
Definition memoryCodeCopy : M (Z * bool) := mem_size 0 2.
Definition memoryExtCodeCopy : M (Z * bool) := mem_size 1 3.
Definition memoryMLoad : M (Z * bool) := mem_size_uint 0 32.
Definition memoryMStore8 : M (Z * bool) := mem_size_uint 0 1.
Definition memoryMStore : M (Z * bool) := mem_size_uint 0 32.
Definition memoryCreate : M (Z * bool) := mem_size 1 2.
Definition memoryCreate2 : M (Z * bool) := mem_size 1 2.
Definition memoryCall : M (Z * bool) := mem_size2 5 6 3 4.
Definition memoryDelegateCall : M (Z * bool) := mem_size2 4 5 2 3.
Definition memoryStaticCall : M (Z * bool) := mem_size2 4 5 2 3.
Definition memoryReturn : M (Z * bool) := mem_size 0 1.
Definition memoryRevert : M (Z * bool) := mem_size 0 1.
Definition memoryLog : M (Z * bool) := mem_size 0 1.
End sizes.

(** ** Gas functions: the cost or an error *)
Definition Cost := M (Z + string).
Definition cost (gas : Z) : Cost := retM (inl gas).
Definition fail (e : string) : Cost := retM (inr e).
Definition thenC (m : Cost) (k : Z -> Cost) : Cost :=
  bindM m (fun r => match r with inl gas => k gas | inr e => fail e end).
Notation "'cost*' g := m 'in' k" := (thenC m (fun g => k)) (at level 200, g name, m at level 100, right associativity).
Definition gasFunc := Z -> Cost.

(** A result that may have overflowed. *)
Definition checked (r : Z * bool) : Cost := let (x, overflow) := r in if overflow : bool then fail ErrGasUintOverflow else cost x.

Definition memoryGasCost (newMemSize : Z) : Cost :=
  if newMemSize =? 0 then cost 0
  else if 137438953440 <? newMemSize then fail ErrGasUintOverflow
  else
    let newMemSizeWords := toWordSize newMemSize in
    let newMemSize := u64 (newMemSizeWords * 32) in
    let* m := gets mem in
    if Len m <? newMemSize then
      let square := u64 (newMemSizeWords * newMemSizeWords) in
      let linCoef := u64 (newMemSizeWords * MemoryGas) in
      let quadCoef := square / QuadCoeffDiv in
      let newTotalFee := u64 (linCoef + quadCoef) in
      modify (fun f => f <| mem := (mem f) <| lastGasCost := newTotalFee |> |>);;;
      cost (u64 (newTotalFee - lastGasCost m))
    else cost 0.

Section gas.
Context `{!Uint256} `{!Keccak} `{!Database} `{!EvmEnv} `{!Rules}.

Definition callGas (isEip150 : bool) (availableGas base callCost : Z) : Z + string :=
  let gas := u64 (u64 (availableGas - base) - u64 (availableGas - base) / 64) in
  if isEip150 && (negb (u_IsUint64 callCost) || (gas <? u_Uint64 callCost)) then inl gas
  else if negb (u_IsUint64 callCost) then inr ErrGasUintOverflow
  else inl (u_Uint64 callCost).

Definition memoryCopierGas (stackpos : nat) : gasFunc := fun memorySize =>
  cost* gas := memoryGasCost memorySize in
  let* words := back stackpos in
  cost* words := checked (Uint64WithOverflow words) in
  cost* words := checked (SafeMul (toWordSize words) CopyGas) in
  checked (SafeAdd gas words).

Definition gasCallDataCopy : gasFunc := memoryCopierGas 2.
Definition gasCodeCopy : gasFunc := memoryCopierGas 2.
Definition gasExtCodeCopy : gasFunc := memoryCopierGas 3.
Definition gasReturnDataCopy : gasFunc := memoryCopierGas 2.

(** The tests on the values of a storage slot: [x] is the slot, [y] the new value. *)
Definition slot_of (x : Z) (s : Z) (q : Z -> bytes -> StateDB -> bytes) : M bytes := ask (q s (u_Bytes32 x)).

Definition is_zero_hash (h : bytes) : bool := bytes_Equal h zero_hash.

(** The refunds of a slot that was changed before: recreated, deleted or reset. *)
Definition refund_changed (original current value : bytes) (clear : Z) : M unit :=
  if negb (is_zero_hash original) then
    if is_zero_hash current then try (SubRefund clear)
    else if is_zero_hash value then tell (AddRefund clear) else retM tt
  else retM tt.

Definition refund_reset (original value : bytes) (reset_clear reset : Z) : M unit :=
  if bytes_Equal original value then tell (AddRefund (if is_zero_hash original then reset_clear else reset)) else retM tt.

Definition gasSStore : gasFunc := fun _ =>
  let* y := back 1 in let* x := back 0 in
  let* s := self in
  let* current := slot_of x s GetState in
  if IsPetersburg || negb IsConstantinople then
    if is_zero_hash current && negb (u_Sign y =? 0) then cost SstoreSetGas
    else if negb (is_zero_hash current) && (u_Sign y =? 0) then tell (AddRefund SstoreRefundGas);;; cost SstoreClearGas
    else cost SstoreResetGas
  else
    let value := u_Bytes32 y in
    if bytes_Equal current value then cost NetSstoreNoopGas
    else
      let* original := slot_of x s GetCommittedState in
      if bytes_Equal original current then
        if is_zero_hash original then cost NetSstoreInitGas
        else (if is_zero_hash value then tell (AddRefund NetSstoreClearRefund) else retM tt);;; cost NetSstoreCleanGas
      else
        refund_changed original current value NetSstoreClearRefund;;;
        refund_reset original value NetSstoreResetClearRefund NetSstoreResetRefund;;;
        cost NetSstoreDirtyGas.

Definition gasSStoreEIP2200 : gasFunc := fun _ =>
  let* g := gas_left in
  if g <=? SstoreSentryGasEIP2200 then fail ErrSentry
  else
    let* y := back 1 in let* x := back 0 in
    let* s := self in
    let* current := slot_of x s GetState in
    let value := u_Bytes32 y in
    if bytes_Equal current value then cost SloadGasEIP2200
    else
      let* original := slot_of x s GetCommittedState in
      if bytes_Equal original current then
        if is_zero_hash original then cost SstoreSetGasEIP2200
        else (if is_zero_hash value then tell (AddRefund SstoreClearsScheduleRefundEIP2200) else retM tt);;; cost SstoreResetGasEIP2200
      else
        refund_changed original current value SstoreClearsScheduleRefundEIP2200;;;
        refund_reset original value (SstoreSetGasEIP2200 - SloadGasEIP2200) (SstoreResetGasEIP2200 - SloadGasEIP2200);;;
        cost SloadGasEIP2200.

Definition makeGasLog (n : Z) : gasFunc := fun memorySize =>
  let* size := back 1 in
  cost* requestedSize := checked (Uint64WithOverflow size) in
  cost* gas := memoryGasCost memorySize in
  cost* gas := checked (SafeAdd gas LogGas) in
  cost* gas := checked (SafeAdd gas (u64 (n * LogTopicGas))) in
  cost* memorySizeGas := checked (SafeMul requestedSize LogDataGas) in
  checked (SafeAdd gas memorySizeGas).

(** The cost of hashing the words of the operand at [pos]. *)
Definition word_gas (pos : nat) : gasFunc := fun memorySize =>
  cost* gas := memoryGasCost memorySize in
  let* size := back pos in
  cost* wordGas := checked (Uint64WithOverflow size) in
  cost* wordGas := checked (SafeMul (toWordSize wordGas) Keccak256WordGas) in
  checked (SafeAdd gas wordGas).

Definition gasKeccak256 : gasFunc := word_gas 1.

Definition pureMemoryGascost : gasFunc := memoryGasCost.
Definition gasReturn : gasFunc := pureMemoryGascost.
Definition gasRevert : gasFunc := pureMemoryGascost.
Definition gasMLoad : gasFunc := pureMemoryGascost.
Definition gasMStore8 : gasFunc := pureMemoryGascost.
Definition gasMStore : gasFunc := pureMemoryGascost.
Definition gasCreate : gasFunc := pureMemoryGascost.
Definition gasCreate2 : gasFunc := word_gas 2.

Definition init_code_gas (perWord : Z) : gasFunc := fun memorySize =>
  cost* gas := memoryGasCost memorySize in
  let* size := back 2 in
  let (size, overflow) := Uint64WithOverflow size in
  if overflow || (MaxInitCodeSize <? size) then fail ErrGasUintOverflow
  else checked (SafeAdd gas (perWord * ((size + 31) / 32))).

Definition gasCreateEip3860 : gasFunc := init_code_gas InitCodeWordGas.
Definition gasCreate2Eip3860 : gasFunc := init_code_gas (InitCodeWordGas + Keccak256WordGas).

Definition exp_gas (perByte : Z) : gasFunc := fun _ =>
  let* e := back 1 in
  let expByteLen := (u_BitLen e + 7) / 8 in
  checked (SafeAdd (u64 (expByteLen * perByte)) ExpGas).

Definition gasExpFrontier : gasFunc := exp_gas ExpByteFrontier.
Definition gasExpEIP158 : gasFunc := exp_gas ExpByteEIP158.

(** The gas passed on to the called contract is added to the cost. *)
Definition call_share (gas : Z) : Cost :=
  let* g := gas_left in
  let* requested := back 0 in
  match callGas IsEIP150 g gas requested with
  | inr e => fail e
  | inl temp => modify (fun f => f <| callGasTemp := temp |>);;; checked (SafeAdd gas temp)
  end.

Definition gasCall : gasFunc := fun memorySize =>
  let* value := back 2 in
  let* addr := back 1 in
  let transfersValue := negb (u_IsZero value) in
  let address := u_Bytes20 addr in
  let* isEmpty := ask (Empty address) in
  let* exists_ := ask (Exist address) in
  let gas := if IsEIP158 then (if transfersValue && isEmpty then CallNewAccountGas else 0)
             else (if negb exists_ then CallNewAccountGas else 0) in
  let gas := if transfersValue then gas + CallValueTransferGas else gas in
  cost* memoryGas := memoryGasCost memorySize in
  cost* gas := checked (SafeAdd gas memoryGas) in
  call_share gas.

Definition gasCallCode : gasFunc := fun memorySize =>
  cost* memoryGas := memoryGasCost memorySize in
  let* value := back 2 in
  cost* gas := checked (SafeAdd (if negb (u_Sign value =? 0) then CallValueTransferGas else 0) memoryGas) in
  call_share gas.

Definition gasDelegateCall : gasFunc := fun memorySize => cost* gas := memoryGasCost memorySize in call_share gas.
Definition gasStaticCall : gasFunc := fun memorySize => cost* gas := memoryGasCost memorySize in call_share gas.

Definition gasSelfdestruct : gasFunc := fun _ =>
  let* x := back 0 in
  let* s := self in
  let address := u_Bytes20 x in
  let* isEmpty := ask (Empty address) in
  let* exists_ := ask (Exist address) in
  let* balance := ask (GetBalance s) in
  let* suicided := ask (HasSuicided s) in
  let gas := if IsEIP150 then
               SelfdestructGasEIP150 +
               (if IsEIP158 then (if isEmpty && negb (Z.sgn balance =? 0) then CreateBySelfdestructGas else 0)
                else (if negb exists_ then CreateBySelfdestructGas else 0))
             else 0 in
  (if negb suicided then tell (AddRefund SelfdestructRefundGas) else retM tt);;;
  cost gas.

(** ** [operations_acl.go] *)
Definition makeGasSStoreFunc (clearingRefund : Z) : gasFunc := fun _ =>
  let* g := gas_left in
  if g <=? SstoreSentryGasEIP2200 then fail ErrSentry
  else
    let* y := back 1 in let* x := peek in
    let* s := self in
    let slot := u_Bytes32 x in
    let* current := slot_of x s GetState in
    let* present := ask (SlotInAccessList s slot) in
    match present with
    | None => lift (fun _ => None)
    | Some (addrPresent, slotPresent) =>
        (if negb slotPresent then try (AddSlotToAccessList s slot);;; (if negb addrPresent then lift (fun _ => None) else retM tt)
         else retM tt);;;
        let c := if negb slotPresent then ColdSloadCostEIP2929 else 0 in
        let value := u_Bytes32 y in
        if bytes_Equal current value then cost (c + WarmStorageReadCostEIP2929)
        else
          let* original := slot_of x s GetCommittedState in
          if bytes_Equal original current then
            if is_zero_hash original then cost (c + SstoreSetGasEIP2200)
            else
              (if is_zero_hash value then tell (AddRefund clearingRefund) else retM tt);;;
              cost (c + (SstoreResetGasEIP2200 - ColdSloadCostEIP2929))
          else
            refund_changed original current value clearingRefund;;;
            refund_reset original value (SstoreSetGasEIP2200 - WarmStorageReadCostEIP2929)
              ((SstoreResetGasEIP2200 - ColdSloadCostEIP2929) - WarmStorageReadCostEIP2929);;;
            cost (c + WarmStorageReadCostEIP2929)
    end.

Definition gasSLoadEIP2929 : gasFunc := fun _ =>
  let* loc := peek in
  let* s := self in
  let slot := u_Bytes32 loc in
  let* present := ask (SlotInAccessList s slot) in
  match present with
  | None => lift (fun _ => None)
  | Some (_, slotPresent) =>
      if negb slotPresent then try (AddSlotToAccessList s slot);;; cost ColdSloadCostEIP2929
      else cost WarmStorageReadCostEIP2929
  end.

(** Whether the address was warm; it is afterwards. *)
Definition access_address (addr : Z) : M bool :=
  let* warm := ask (AddressInAccessList addr) in
  (if negb warm then tell (AddAddressToAccessList addr) else retM tt);;; retM warm.

Definition gasExtCodeCopyEIP2929 : gasFunc := fun memorySize =>
  cost* gas := gasExtCodeCopy memorySize in
  let* a := peek in
  let* warm := access_address (u_Bytes20 a) in
  if negb warm then checked (SafeAdd gas (ColdAccountAccessCostEIP2929 - WarmStorageReadCostEIP2929)) else cost gas.

Definition gasEip2929AccountCheck : gasFunc := fun _ =>
  let* a := peek in
  let* warm := access_address (u_Bytes20 a) in
  cost (if negb warm then ColdAccountAccessCostEIP2929 - WarmStorageReadCostEIP2929 else 0).

Definition makeCallVariantGasCallEIP2929 (oldCalculator : gasFunc) : gasFunc := fun memorySize =>
  let* a := back 1 in
  let* warmAccess := access_address (u_Bytes20 a) in
  let coldCost := ColdAccountAccessCostEIP2929 - WarmStorageReadCostEIP2929 in
  let* paid := (if negb warmAccess then use_gas coldCost else retM true) in
  if negb paid then fail ErrOutOfGas
  else if warmAccess : bool then oldCalculator memorySize
  else
    cost* gas := oldCalculator memorySize in
    return_gas coldCost;;; cost (u64 (gas + coldCost)).

Definition gasCallEIP2929 : gasFunc := makeCallVariantGasCallEIP2929 gasCall.
Definition gasDelegateCallEIP2929 : gasFunc := makeCallVariantGasCallEIP2929 gasDelegateCall.
Definition gasStaticCallEIP2929 : gasFunc := makeCallVariantGasCallEIP2929 gasStaticCall.
Definition gasCallCodeEIP2929 : gasFunc := makeCallVariantGasCallEIP2929 gasCallCode.

Definition makeSelfdestructGasFn (refundsEnabled : bool) : gasFunc := fun _ =>
  let* x := peek in
  let* s := self in
  let address := u_Bytes20 x in
  let* warm := access_address address in
  let* isEmpty := ask (Empty address) in
  let* balance := ask (GetBalance s) in
  let* suicided := ask (HasSuicided s) in
  let gas := if negb warm then ColdAccountAccessCostEIP2929 else 0 in
  let gas := if isEmpty && negb (Z.sgn balance =? 0) then gas + CreateBySelfdestructGas else gas in
  (if refundsEnabled && negb suicided then tell (AddRefund SelfdestructRefundGas) else retM tt);;;
  cost gas.

Definition gasSelfdestructEIP2929 : gasFunc := makeSelfdestructGasFn true.
Definition gasSelfdestructEIP3529 : gasFunc := makeSelfdestructGasFn false.
Definition gasSStoreEIP2929 : gasFunc := makeGasSStoreFunc SstoreClearsScheduleRefundEIP2200.
Definition gasSStoreEIP3529 : gasFunc := makeGasSStoreFunc SstoreClearsScheduleRefundEIP3529.
End gas.
