(* ===== verification/Precompiled.v ===== *)
(** * [core/vm/contracts.go]: the precompiled contracts

    The price and the result of each native contract, and the sets of contracts of
    the forks.  Hashes, elliptic curves and the main chain's signature checks are
    parameters, as are the arbiters and the headers of the SPV service; [blake2F],
    [bigModExp], and the records of pledge bills are the definitions of this
    development.  [None] is a panic of the contract. *)
From Stdlib Require Zpow_facts.
From S2P Require Import Prelude Ela Rlp Common Header StateDB Withdraw SmallCross Evm EvmMachine EvmGas Abi Blake2b PledgeBill.

(** ** Prices *)
Definition EcrecoverGas : Z := 3000.
Definition Sha256BaseGas : Z := 60.
Definition Sha256PerWordGas : Z := 12.
Definition Ripemd160BaseGas : Z := 600.
Definition Ripemd160PerWordGas : Z := 120.
Definition IdentityBaseGas : Z := 15.
Definition IdentityPerWordGas : Z := 3.
Definition Bn256AddGasByzantium : Z := 500.
Definition Bn256AddGasIstanbul : Z := 150.
Definition Bn256ScalarMulGasByzantium : Z := 40000.
Definition Bn256ScalarMulGasIstanbul : Z := 6000.
Definition Bn256PairingBaseGasByzantium : Z := 100000.
Definition Bn256PairingBaseGasIstanbul : Z := 45000.
Definition Bn256PairingPerPointGasByzantium : Z := 80000.
Definition Bn256PairingPerPointGasIstanbul : Z := 34000.
Definition ArbitersBaseGas : Z := 1000.
Definition P256VerifyBaseGas : Z := 1000.
Definition PbkVerifySignature : Z := 1000.
Definition PledgeBillVerifyGas : Z := 1000.
Definition GetPledgeBillTokenID : Z := 0.
Definition GetPledgeBillTokenDetail : Z := 0.
Definition Bls12381G1AddGas : Z := 600.
Definition Bls12381G1MulGas : Z := 12000.
Definition Bls12381G2AddGas : Z := 4500.
Definition Bls12381G2MulGas : Z := 55000.
Definition Bls12381PairingBaseGas : Z := 115000.
Definition Bls12381PairingPerPairGas : Z := 23000.
Definition Bls12381MapG1Gas : Z := 5500.
Definition Bls12381MapG2Gas : Z := 110000.
Definition GetMainChainBlock : Z := 1000.
Definition GetMainChainBlockLatestHeight : Z := 0.

Definition Bls12381MultiExpDiscountTable : list Z :=
  [1200; 888; 764; 641; 594; 547; 500; 453; 438; 423; 408; 394; 379; 364; 349; 334; 330; 326; 322; 318; 314; 310; 306; 302; 298; 294; 289; 285; 281; 277; 273; 269;
   268; 266; 265; 263; 262; 260; 259; 257; 256; 254; 253; 251; 250; 248; 247; 245; 244; 242; 241; 239; 238; 236; 235; 233; 232; 231; 229; 228; 226; 225; 223; 222;
   221; 220; 219; 219; 218; 217; 216; 216; 215; 214; 213; 213; 212; 211; 211; 210; 209; 208; 208; 207; 206; 205; 205; 204; 203; 202; 202; 201; 200; 199; 199; 198;
   197; 196; 196; 195; 194; 193; 193; 192; 191; 191; 190; 189; 188; 188; 187; 186; 185; 185; 184; 183; 182; 182; 181; 180; 179; 179; 178; 177; 176; 176; 175; 174].

(** ** What the contracts use of other code *)

(** The main chain's contract of an account: its code and the prefix of its
    address. *)
Record ElaContract := { ec_Code : bytes; ec_Prefix : Z }.

Record ElaHeader := { eh_Previous : bytes; eh_Bits : Z; eh_MerkleRoot : bytes; eh_Hash : bytes; eh_Height : Z }.

(** A group of a pairing-friendly curve. *)
Record Group := {
  point : Type;
  g_Decode : bytes -> point + string;
  g_Add : point -> point -> point;
  g_MulScalar : point -> Z -> point;
  g_MultiExp : list point -> list Z -> point;
  g_InCorrectSubgroup : point -> bool;
  g_MapToCurve : bytes -> point + string;
  g_Encode : point -> bytes
}.

Class Libs `{!ElaLib} := {
  sha256_Sum256 : bytes -> bytes;
  ripemd160_Sum : bytes -> bytes;
  (** secp256k1: recovery of the public key of a signature, and its short form *)
  Ecrecover : bytes -> bytes -> bytes + string;
  SigToPub : bytes -> bytes -> bytes + string;
  CompressPubkey : bytes -> bytes;
  (** the curves bn256 and BLS12-381 *)
  bn_G1 : Group; bn_G2 : Group; bn_PairingCheck : list (point bn_G1) -> list (point bn_G2) -> bool;
  bls_G1 : Group; bls_G2 : Group; bls_Check : list (point bls_G1 * point bls_G2) -> bool;
  (** the main chain's library *)
  VerifyDigest : PublicKey -> bytes -> bytes -> error;
  CreateStandardRedeemScript : PublicKey -> bytes + string;
  CreateStakeContractByCode : bytes -> ElaContract + string;
  CreateMultiSigContract : Z -> list PublicKey -> ElaContract + string;
  ToAddress : ElaContract -> string * error;
  CheckMultiSigSignatures : bytes -> bytes -> bytes -> error;
  PrefixDPoSV2 : Z;
  CreateNFTVersion : Z
}.

(** What the contracts see of the SPV service. *)
Record Spv := {
  spv_Arbiters : (list string * Z) + string;
  spv_Header : Z -> ElaHeader + string;
  spv_Best : ElaHeader + string;
  spv_db : gmap bytes bytes
}.

Definition secp256k1N : Z := 0xfffffffffffffffffffffffffffffffebaaedce6af48a03bbfd25e8cd0364141.

Definition secp256k1halfN : Z := secp256k1N / 2.

Definition ValidateSignatureValues (v r s : Z) (homestead : bool) : bool :=
  if (r <? 1) || (s <? 1) then false
  else if homestead && (secp256k1halfN <? s) then false
  else (r <? secp256k1N) && (s <? secp256k1N) && ((v =? 0) || (v =? 1)).

Definition allZero (b : bytes) : bool := forallb (Z.eqb 0) b.

Definition false32Byte : bytes := replicate 32 0.
Definition true32Byte : bytes := replicate 31 0 ++ [1].

(** The bytes [i] to [j] of a slice. *)
Definition part (i j : nat) (b : bytes) : bytes := take (j - i) (drop i b).

Definition Out : Type := option (bytes * error).
Definition give (b : bytes) : Out := Some (b, nil_err).
Definition refuse (e : string) : Out := Some ([], New e).

(** ** Hashes and copies *)
Section contracts.
Context `{!Keccak} `{!ElaLib} `{!Libs} `{!NftLib}.

Definition ecrecover_Run (input : bytes) : Out :=
  let input := RightPadBytes input 128 in
  let r := shift_or (part 64 96 input) in
  let s := shift_or (part 96 128 input) in
  v ← input !! 63%nat;
  let v := u8 (v - 27) in
  if negb (allZero (part 32 63 input)) || negb (ValidateSignatureValues v r s false) then give []
  else match Ecrecover (part 0 32 input) (part 64 128 input ++ [v]) with
       | inr _ => give []
       | inl pubKey => give (LeftPadBytes (drop 12 (be 32 (Keccak256 (drop 1 pubKey)))) 32)
       end.

(** [uint64(len(input)+31)/32*perWord + base] *)
Definition per_word (perWord base : Z) (input : bytes) : Z := u64 ((zlen input + 31) / 32 * perWord + base).

Definition sha256_Gas : bytes -> Z := per_word Sha256PerWordGas Sha256BaseGas.
Definition sha256_Run (input : bytes) : Out := give (sha256_Sum256 input).
Definition ripemd160_Gas : bytes -> Z := per_word Ripemd160PerWordGas Ripemd160BaseGas.
Definition ripemd160_Run (input : bytes) : Out := give (LeftPadBytes (ripemd160_Sum input) 32).
Definition dataCopy_Gas : bytes -> Z := per_word IdentityPerWordGas IdentityBaseGas.
Definition dataCopy_Run (input : bytes) : Out := give input.

(** ** Modular exponentiation *)
Definition modexpMultComplexity (x : Z) : Z :=
  if x <=? 64 then x * x
  else if x <=? 1024 then x * x / 4 + (96 * x - 3072)
  else x * x / 16 + (480 * x - 199680).

(** [getData] of sizes that cannot overflow. *)
Definition data_at (input : bytes) (start size : Z) : bytes := default [] (EvmMachine.getData input start size).

Definition bitlen (x : Z) : Z := if x =? 0 then 0 else Z.log2 x + 1.

(** The operands, after the three lengths. *)
Definition operands (input : bytes) : bytes := if 96 <? zlen input then drop 96 input else [].

Definition adjusted_length (input : bytes) (baseLen expLen : Z) : Z :=
  let input := operands input in
  let expHead :=
    if zlen input <=? baseLen then 0
    else if 32 <? expLen then shift_or (data_at input (u64 baseLen) 32)
    else shift_or (data_at input (u64 baseLen) (u64 expLen)) in
  let msb := if 0 <? bitlen expHead then bitlen expHead - 1 else 0 in
  (if 32 <? expLen then 8 * (expLen - 32) else 0) + msb.

Definition bigModExp_Gas (eip2565 : bool) (input : bytes) : Z :=
  let baseLen := shift_or (data_at input 0 32) in
  let expLen := shift_or (data_at input 32 32) in
  let modLen := shift_or (data_at input 64 32) in
  let adjExpLen := adjusted_length input baseLen expLen in
  let gas := Z.max modLen baseLen in
  if eip2565 then
    let gas := (gas + 7) / 8 in
    let gas := gas * gas * Z.max adjExpLen 1 / 3 in
    if 64 <? bitlen gas then MaxUint64 else if u64 gas <? 200 then 200 else u64 gas
  else
    let gas := modexpMultComplexity gas * Z.max adjExpLen 1 / 20 in
    if 64 <? bitlen gas then MaxUint64 else u64 gas.

Definition bigModExp_Run (input : bytes) : Out :=
  let baseLen := u64 (shift_or (data_at input 0 32)) in
  let expLen := u64 (shift_or (data_at input 32 32)) in
  let modLen := u64 (shift_or (data_at input 64 32)) in
  let input := operands input in
  if (baseLen =? 0) && (modLen =? 0) then give []
  else
    base ← EvmMachine.getData input 0 baseLen;
    exp ← EvmMachine.getData input baseLen expLen;
    mod_ ← EvmMachine.getData input (u64 (baseLen + expLen)) modLen;
    if bitlen (shift_or mod_) =? 0 then give (LeftPadBytes [] (i64 modLen))
    else give (LeftPadBytes (big_Bytes (Zpow_facts.Zpow_mod (shift_or base) (shift_or exp) (shift_or mod_))) (i64 modLen)).

(** ** The curve bn256 *)
Definition newCurvePoint (blob : bytes) : point bn_G1 + string := g_Decode bn_G1 blob.
Definition newTwistPoint (blob : bytes) : point bn_G2 + string := g_Decode bn_G2 blob.

Definition runBn256Add (input : bytes) : Out :=
  match newCurvePoint (data_at input 0 64) with
  | inr err => refuse err
  | inl x => match newCurvePoint (data_at input 64 64) with inr err => refuse err | inl y => give (g_Encode bn_G1 (g_Add bn_G1 x y)) end
  end.

Definition runBn256ScalarMul (input : bytes) : Out :=
  match newCurvePoint (data_at input 0 64) with
  | inr err => refuse err
  | inl p => give (g_Encode bn_G1 (g_MulScalar bn_G1 p (shift_or (data_at input 64 32))))
  end.

Definition errBadPairingInput : string := "bad elliptic curve pairing size".

(** The pairs of [n] pieces of 192 bytes. *)
Fixpoint bn_pairs (n : nat) (input : bytes) : (list (point bn_G1) * list (point bn_G2)) + string :=
  match n with
  | O => inl ([], [])
  | S n =>
      match newCurvePoint (part 0 64 input) with
      | inr err => inr err
      | inl c => match newTwistPoint (part 64 192 input) with
                 | inr err => inr err
                 | inl t => match bn_pairs n (drop 192 input) with inr err => inr err | inl (cs, ts) => inl (c :: cs, t :: ts) end
                 end
      end
  end.

Definition runBn256Pairing (input : bytes) : Out :=
  if 0 <? zlen input mod 192 then refuse errBadPairingInput
  else match bn_pairs (Z.to_nat (zlen input / 192)) input with
       | inr err => refuse err
       | inl (cs, ts) => give (if bn_PairingCheck cs ts then true32Byte else false32Byte)
       end.

Definition pairing_Gas (base perPoint : Z) (input : bytes) : Z := u64 (base + zlen input / 192 * perPoint).

(** ** BLAKE2b *)
Definition blake2FInputLength : Z := 213.

Definition blake2F_Gas (input : bytes) : Z := if negb (zlen input =? blake2FInputLength) then 0 else u32 (shift_or (part 0 4 input)).

(** [binary.LittleEndian.Uint64] of each eight bytes from [start]. *)
Definition le_words (input : bytes) (start n : nat) : list Z :=
  (fun i => shift_or (reverse (part (start + i * 8) (start + i * 8 + 8) input))) <$> seq 0 n.

Definition blake2F_Run (input : bytes) : Out :=
  if negb (zlen input =? blake2FInputLength) then refuse "invalid input length"
  else
    flag ← input !! 212%nat;
    if negb (flag =? 0) && negb (flag =? 1) then refuse "invalid final flag"
    else
      let rounds := u32 (shift_or (part 0 4 input)) in
      let h := F (le_words input 4 8) (le_words input 68 16) (le_words input 196 2) (flag =? 1) rounds in
      give (concat ((fun w => reverse (be 8 w)) <$> h)).

(** ** The main chain: arbiters, signatures *)
Definition arbiters_Run (spv : Spv) (input : bytes) : Out :=
  match spv_Arbiters spv with
  | inr _ => refuse "getting arbiters failed"
  | inl (arbiters, _) => give (concat ((fun pubkey => LeftPadBytes (be 32 (Keccak256 (Hex2Bytes pubkey))) 32) <$> arbiters))
  end.

Definition errP256VerifyInvalidPublicKey : string := "invalid public key".

Definition verdict (err : error) : Out := give (match err with None => true32Byte | Some _ => false32Byte end).

Definition p256Verify_Run (input : bytes) : Out :=
  if negb (zlen input =? 193) then refuse "invalid input length"
  else
    let pubkey := data_at input 32 33 in
    let data := data_at input 65 64 in
    let sig := data_at input 129 64 in
    match DecodePoint pubkey with
    | inr _ => refuse errP256VerifyInvalidPublicKey
    | inl publicKey => verdict (Verify publicKey data sig)
    end.

(** [accounts.TextHash] *)
Definition TextHash (data : bytes) : bytes :=
  be 32 (Keccak256 ([25] ++ string_bytes "Ethereum Signed Message:" ++ [10] ++ string_bytes (pretty (zlen data)) ++ data)).

(** The bytes of the caller's memory that the input is a part of are changed when the
    signature was not padded: the last component is the input afterwards. *)
Definition pbkVerifySignature_run (input : bytes) : (bytes * error) * bytes :=
  let pubkey := data_at input 32 33 in
  let digest := data_at input 65 32 in
  let sig := data_at input 97 65 in
  let digest := TextHash digest in
  let v := nth 64 sig 0 in
  let sig' := if 27 <=? v then <[64%nat := v - 27]> sig else sig in
  let input' := if 162 <=? zlen input then <[161%nat := nth 64 sig' 0]> input else input in
  let out :=
    match SigToPub digest sig' with
    | inr err => (false32Byte, New err)
    | inl signerPuk => (if bool_decide (CompressPubkey signerPuk = pubkey) then true32Byte else false32Byte, nil_err)
    end in
  (out, input').

Definition pbkVerifySignature_Run (input : bytes) : Out := Some (fst (pbkVerifySignature_run input)).

Definition p256VerifyDigest_Run (input : bytes) : Out :=
  let pubkey := data_at input 0 33 in
  let digest := data_at input 33 32 in
  let sig := data_at input 65 64 in
  match DecodePoint pubkey with
  | inr _ => Some (false32Byte, New errP256VerifyInvalidPublicKey)
  | inl publicKey => verdict (VerifyDigest publicKey digest sig)
  end.

(** ** Pledge bills *)
Definition getParameterBySignature (signature : bytes) : bytes := u8 (zlen signature) :: signature.

Definition hash_name (elaHash : bytes) : string := hash_String (BytesToHash elaHash).

Definition checkStandardSignature (db : gmap bytes bytes) (pubKey : PublicKey) (elaHash toAddress signature : bytes) : option error :=
  match Verify pubKey (elaHash ++ toAddress) signature with
  | Some err => Some (Some err)
  | None =>
      match CreateStandardRedeemScript pubKey with
      | inr err => Some (New err)
      | inl redeemScript =>
          match CreateStakeContractByCode redeemScript with
          | inr err => Some (New err)
          | inl ct =>
              let (stakeAddress, _) := ToAddress ct in
              r ← GetPledgeBillData (hash_name elaHash) db;
              let '(sAddress, _, err) := r in
              match err with
              | Some err => Some (Some err)
              | None => Some (if bool_decide (sAddress = stakeAddress) then nil_err else New "stakeAddress is not correct")
              end
          end
      end
  end.

(** The error of [GetPledgeBillData] is not looked at. *)
Definition checkMultiSignatures (db : gmap bytes bytes) (m : Z) (publickeys : list PublicKey) (signatures elaHash toAddress : bytes) : option error :=
  match CreateMultiSigContract m publickeys with
  | inr err => Some (New err)
  | inl ct =>
      match CheckMultiSigSignatures (ec_Code ct) signatures (elaHash ++ toAddress) with
      | Some err => Some (Some err)
      | None =>
          match ToAddress {| ec_Code := ec_Code ct; ec_Prefix := PrefixDPoSV2 |} with
          | (_, Some err) => Some (Some err)
          | (stakeAddress, None) =>
              r ← GetPledgeBillData (hash_name elaHash) db;
              Some (if bool_decide (fst (fst r) = stakeAddress) then nil_err else New "stakeAddress is not correct")
          end
      end
  end.

(** The keys [i] to [i + k - 1], and where the last one starts. *)
Fixpoint pledge_keys (input : bytes) (k : nat) (i p : Z) : option (list PublicKey * Z) :=
  match k with
  | O => Some ([], p)
  | S k =>
      let p := u64 (180 + i * 33) in
      match DecodePoint (data_at input p 33) with
      | inr _ => None
      | inl pbk => '(keys, p) ← pledge_keys input k (i + 1) p; Some (pbk :: keys, p)
      end
  end.

Fixpoint pledge_signatures (input : bytes) (k : nat) (p i : Z) : bytes :=
  match k with O => [] | S k => getParameterBySignature (data_at input (u64 (p + i * 64)) 64) ++ pledge_signatures input k p (i + 1) end.

Definition pledge_verdict (err : option error) : Out :=
  e ← err; Some (match e with None => (true32Byte, nil_err) | Some err => (false32Byte, New err) end).

Definition pledgeBillVerify_Run (spv : Spv) (input : bytes) : Out :=
  let elaHash := data_at input 32 32 in
  let toAddress := data_at input 64 20 in
  let n := shift_or (data_at input 84 32) in
  let m := shift_or (data_at input 116 32) in
  let sigCount := shift_or (data_at input 148 32) in
  match pledge_keys input (Z.to_nat (i64 n)) 0 0 with
  | None => Some (false32Byte, New "publicKey decode error")
  | Some (publickeys, p) =>
      let p := u64 (p + 33) in
      if i64 n =? 1 then
        pubKey ← publickeys !! 0%nat;
        pledge_verdict (checkStandardSignature (spv_db spv) pubKey elaHash toAddress (data_at input p 64))
      else if (1 <? u64 m) && (1 <? u64 n) then
        let signatures := pledge_signatures input (Z.to_nat (i64 sigCount)) p 0 in
        if n <? m then Some (false32Byte, New "n is smaller than m")
        else pledge_verdict (checkMultiSignatures (spv_db spv) (i64 m) publickeys signatures elaHash toAddress)
      else Some (false32Byte, New "error signature params")
  end.

Definition pledgeBillTokenID_Run (spv : Spv) (input : bytes) : Out :=
  r ← GetPledgeBillData (hash_name (data_at input 32 32)) (spv_db spv);
  let '(_, tokenID, err) := r in
  match err with Some err => Some (false32Byte, New err) | None => give (big_Bytes tokenID) end.

(** The arguments of a packed result. *)
Definition outputs (ts : list Ty) : list Argument := (fun t => {| arg_Type := t; arg_Indexed := false |}) <$> ts.

Definition packed (ts : list Ty) (vs : list Val) : Out :=
  match Pack (outputs ts) vs with Some ret => give ret | None => refuse "abi: cannot use argument" end.

Definition detail_types : list Ty := [FixedBytesTy 32; StringTy; FixedBytesTy 32; UintTy 32; UintTy 32; IntTy 64; IntTy 64; BytesTy].

Definition detail_values (p : CreateNFT) : list Val :=
  [VByteArray (ReferKey p); VString (string_bytes (StakeAddress p)); VByteArray (GenesisBlockHash p); VNum (KUint 32) (StartHeight p); VNum (KUint 32) (EndHeight p);
   VNum (KInt 64) (Votes p); VNum (KInt 64) (VoteRights p); VBytes (TargetOwnerKey p)].

(** The first version of the payload has no votes. *)
Definition version_fields (version : Z) (p : CreateNFT) : CreateNFT :=
  if version =? CreateNFTVersion then p <| StartHeight := 0 |> <| EndHeight := 0 |> <| Votes := 0 |> <| VoteRights := 0 |> <| TargetOwnerKey := [] |> else p.

Definition pledgeBillTokenDetail_Run (spv : Spv) (input : bytes) : Out :=
  r ← GetCreateNFTPayload (hash_name (data_at input 32 32)) (spv_db spv);
  match r with
  | inr err => Some (false32Byte, New err)
  | inl (nftPayload, payloadVersion) => packed detail_types (detail_values (version_fields payloadVersion nftPayload))
  end.

Definition pledgeBillPayloadVersion_Run (spv : Spv) (input : bytes) : Out :=
  '(v, err) ← GetBPosNftPayloadVersion (hash_name (data_at input 32 32)) (spv_db spv); Some (LeftPadBytes (big_Bytes v) 32, err).

(** ** Headers of the main chain *)
Definition header_types : list Ty := [FixedBytesTy 32; UintTy 32; FixedBytesTy 32; FixedBytesTy 32; UintTy 32].

Definition getMainChainBlockByHeight_Run (spv : Spv) (input : bytes) : Out :=
  let height := shift_or (data_at input 32 32) in
  match spv_Header spv (u32 (u64 height)) with
  | inr err => refuse err
  | inl h => packed header_types [VByteArray (eh_Previous h); VNum (KUint 32) (eh_Bits h); VByteArray (eh_MerkleRoot h); VByteArray (eh_Hash h); VNum (KUint 32) (eh_Height h)]
  end.

Definition getMainChainLatestHeight_Run (spv : Spv) (input : bytes) : Out :=
  match spv_Best spv with inr err => refuse err | inl head => packed [UintTy 32] [VNum (KUint 32) (eh_Height head)] end.

(** ** The curve BLS12-381 *)
Definition errBLS12381InvalidInputLength : string := "invalid input length".
Definition errBLS12381InvalidFieldElementTopBytes : string := "invalid field element top bytes".
Definition errBLS12381G1PointSubgroup : string := "g1 point is not on correct subgroup".
Definition errBLS12381G2PointSubgroup : string := "g2 point is not on correct subgroup".

(** The contracts of the two groups differ in the size [n] of a point. *)
Definition bls_Add (g : Group) (n : nat) (input : bytes) : Out :=
  if negb (zlen input =? 2 * Z.of_nat n) then refuse errBLS12381InvalidInputLength
  else match g_Decode g (take n input) with
       | inr err => refuse err
       | inl p0 => match g_Decode g (drop n input) with inr err => refuse err | inl p1 => give (g_Encode g (g_Add g p0 p1)) end
       end.

Definition bls_Mul (g : Group) (n : nat) (input : bytes) : Out :=
  if negb (zlen input =? Z.of_nat n + 32) then refuse errBLS12381InvalidInputLength
  else match g_Decode g (take n input) with
       | inr err => refuse err
       | inl p0 => give (g_Encode g (g_MulScalar g p0 (shift_or (drop n input))))
       end.

Fixpoint bls_terms (g : Group) (n k : nat) (input : bytes) : (list (point g) * list Z) + string :=
  match k with
  | O => inl ([], [])
  | S k =>
      match g_Decode g (take n input) with
      | inr err => inr err
      | inl p =>
          match bls_terms g n k (drop (n + 32) input) with
          | inr err => inr err
          | inl (points, scalars) => inl (p :: points, shift_or (part n (n + 32) input) :: scalars)
          end
      end
  end.

Definition bls_MultiExp (g : Group) (n : nat) (input : bytes) : Out :=
  let size := Z.of_nat n + 32 in
  if (zlen input =? 0) || negb (zlen input mod size =? 0) then refuse errBLS12381InvalidInputLength
  else match bls_terms g n (Z.to_nat (zlen input / size)) input with
       | inr err => refuse err
       | inl (points, scalars) => give (g_Encode g (g_MultiExp g points scalars))
       end.

Definition bls_MultiExp_Gas (size mulGas : Z) (input : bytes) : Z :=
  let k := zlen input / size in
  if k =? 0 then 0
  else
    let dLen := zlen Bls12381MultiExpDiscountTable in
    let discount := nth (Z.to_nat ((if k <? dLen then k else dLen) - 1)) Bls12381MultiExpDiscountTable 0 in
    u64 (k * mulGas * discount) / 1000.

Definition bls12381Pairing_Gas (input : bytes) : Z := u64 (Bls12381PairingBaseGas + zlen input / 384 * Bls12381PairingPerPairGas).

Fixpoint bls_pairs (k : nat) (input : bytes) : list (point bls_G1 * point bls_G2) + string :=
  match k with
  | O => inl []
  | S k =>
      match g_Decode bls_G1 (part 0 128 input) with
      | inr err => inr err
      | inl p1 =>
          match g_Decode bls_G2 (part 128 384 input) with
          | inr err => inr err
          | inl p2 =>
              if negb (g_InCorrectSubgroup bls_G1 p1) then inr errBLS12381G1PointSubgroup
              else if negb (g_InCorrectSubgroup bls_G2 p2) then inr errBLS12381G2PointSubgroup
              else match bls_pairs k (drop 384 input) with inr err => inr err | inl l => inl ((p1, p2) :: l) end
          end
      end
  end.

Definition bls12381Pairing_Run (input : bytes) : Out :=
  if (zlen input =? 0) || negb (zlen input mod 384 =? 0) then refuse errBLS12381InvalidInputLength
  else match bls_pairs (Z.to_nat (zlen input / 384)) input with
       | inr err => refuse err
       | inl l => give (replicate 31 0 ++ [if bls_Check l then 1 else 0])
       end.

Definition decodeBLS12381FieldElement (input : bytes) : bytes + string :=
  if negb (zlen input =? 64) then inr "invalid field element length"
  else if negb (forallb (Z.eqb 0) (take 16 input)) then inr errBLS12381InvalidFieldElementTopBytes
  else inl (drop 16 input).

Definition bls12381MapG1_Run (input : bytes) : Out :=
  if negb (zlen input =? 64) then refuse errBLS12381InvalidInputLength
  else match decodeBLS12381FieldElement input with
       | inr err => refuse err
       | inl fe => match g_MapToCurve bls_G1 fe with inr err => refuse err | inl r => give (g_Encode bls_G1 r) end
       end.

Definition bls12381MapG2_Run (input : bytes) : Out :=
  if negb (zlen input =? 128) then refuse errBLS12381InvalidInputLength
  else match decodeBLS12381FieldElement (take 64 input) with
       | inr err => refuse err
       | inl c0 =>
           match decodeBLS12381FieldElement (drop 64 input) with
           | inr err => refuse err
           | inl c1 => match g_MapToCurve bls_G2 (c1 ++ c0) with inr err => refuse err | inl r => give (g_Encode bls_G2 r) end
           end
       end.

(** ** The sets of contracts *)
Definition ArbiterAddress : Z := 1000.
Definition P256VerifyAddress : Z := 1001.
Definition SignatureVerifyByPbk : Z := 1002.
Definition PledgeBillVerify : Z := 1003.
Definition PledgeBillTokenID : Z := 1004.
Definition PledgeBillTokenDetail : Z := 1005.
Definition PledgeBillTokenVersion : Z := 1006.
Definition GetMainChainBlockByHeight : Z := 1007.
Definition GetMainChainLatestHeight : Z := 1008.
Definition P256VerifyDigest : Z := 1009.

Definition native (gas : bytes -> Z) (run : bytes -> Out) : PrecompiledContract := {| RequiredGas := gas; precompiled_Run := run |}.

Definition always (gas : Z) : bytes -> Z := fun _ => gas.

Definition homestead_list : list (Z * PrecompiledContract) :=
  [(1, native (always EcrecoverGas) ecrecover_Run); (2, native sha256_Gas sha256_Run); (3, native ripemd160_Gas ripemd160_Run); (4, native dataCopy_Gas dataCopy_Run)].

Definition modexp (eip2565 : bool) : PrecompiledContract := native (bigModExp_Gas eip2565) bigModExp_Run.

Definition istanbul_curve : list (Z * PrecompiledContract) :=
  [(6, native (always Bn256AddGasIstanbul) runBn256Add); (7, native (always Bn256ScalarMulGasIstanbul) runBn256ScalarMul);
   (8, native (pairing_Gas Bn256PairingBaseGasIstanbul Bn256PairingPerPointGasIstanbul) runBn256Pairing); (9, native blake2F_Gas blake2F_Run)].

(** The contracts of this chain, in all sets but the first. *)
Definition esc_list (spv : Spv) : list (Z * PrecompiledContract) :=
  [(ArbiterAddress, native (always ArbitersBaseGas) (arbiters_Run spv)); (P256VerifyAddress, native (always P256VerifyBaseGas) p256Verify_Run);
   (SignatureVerifyByPbk, native (always PbkVerifySignature) pbkVerifySignature_Run); (PledgeBillVerify, native (always PledgeBillVerifyGas) (pledgeBillVerify_Run spv));
   (PledgeBillTokenID, native (always GetPledgeBillTokenID) (pledgeBillTokenID_Run spv))].

Definition detail_list (spv : Spv) : list (Z * PrecompiledContract) :=
  [(PledgeBillTokenDetail, native (always GetPledgeBillTokenDetail) (pledgeBillTokenDetail_Run spv));
   (PledgeBillTokenVersion, native (always GetPledgeBillTokenID) (pledgeBillPayloadVersion_Run spv))].

Definition header_list (spv : Spv) : list (Z * PrecompiledContract) :=
  [(GetMainChainBlockByHeight, native (always GetMainChainBlock) (getMainChainBlockByHeight_Run spv));
   (GetMainChainLatestHeight, native (always GetMainChainBlockLatestHeight) (getMainChainLatestHeight_Run spv));
   (P256VerifyDigest, native (always PbkVerifySignature) p256VerifyDigest_Run)].

Definition PrecompiledContractsHomestead : list (Z * PrecompiledContract) := homestead_list.

Definition PrecompiledContractsByzantium (spv : Spv) : list (Z * PrecompiledContract) :=
  homestead_list ++ [(5, modexp false); (6, native (always Bn256AddGasByzantium) runBn256Add); (7, native (always Bn256ScalarMulGasByzantium) runBn256ScalarMul);
    (8, native (pairing_Gas Bn256PairingBaseGasByzantium Bn256PairingPerPointGasByzantium) runBn256Pairing)] ++ esc_list spv.

Definition PrecompiledContractsIstanbul (spv : Spv) : list (Z * PrecompiledContract) :=
  homestead_list ++ [(5, modexp false)] ++ istanbul_curve ++ esc_list spv ++ detail_list spv.

Definition PrecompiledContractsBLS (spv : Spv) : list (Z * PrecompiledContract) :=
  [(10, native (always Bls12381G1AddGas) (bls_Add bls_G1 128)); (11, native (always Bls12381G1MulGas) (bls_Mul bls_G1 128));
   (12, native (bls_MultiExp_Gas 160 Bls12381G1MulGas) (bls_MultiExp bls_G1 128)); (13, native (always Bls12381G2AddGas) (bls_Add bls_G2 256));
   (14, native (always Bls12381G2MulGas) (bls_Mul bls_G2 256)); (15, native (bls_MultiExp_Gas 288 Bls12381G2MulGas) (bls_MultiExp bls_G2 256));
   (16, native bls12381Pairing_Gas bls12381Pairing_Run); (17, native (always Bls12381MapG1Gas) bls12381MapG1_Run); (18, native (always Bls12381MapG2Gas) bls12381MapG2_Run)]
  ++ esc_list spv ++ detail_list spv.

Definition PrecompiledContractsBerlin (spv : Spv) : list (Z * PrecompiledContract) :=
  homestead_list ++ [(5, modexp true)] ++ istanbul_curve ++ esc_list spv ++ header_list spv.

Definition PrecompiledContractsShangHai (spv : Spv) : list (Z * PrecompiledContract) :=
  homestead_list ++ [(5, modexp true)] ++ istanbul_curve ++ esc_list spv ++ detail_list spv ++ header_list spv.

(** The set of the rules of a block. *)
Definition precompiles (IsShanghai IsBerlin IsIstanbul IsByzantium : bool) (spv : Spv) : list (Z * PrecompiledContract) :=
  if IsShanghai then PrecompiledContractsShangHai spv else if IsBerlin then PrecompiledContractsBerlin spv
  else if IsIstanbul then PrecompiledContractsIstanbul spv else if IsByzantium then PrecompiledContractsByzantium spv else PrecompiledContractsHomestead.

Definition esc_precompile (IsShanghai IsBerlin IsIstanbul IsByzantium : bool) (spv : Spv) (addr : Z) : option PrecompiledContract :=
  (list_to_map (precompiles IsShanghai IsBerlin IsIstanbul IsByzantium spv) : gmap Z PrecompiledContract) !! addr.

(** The keys of the set, which Go collects in any order. *)
Definition ActivePrecompiles (IsShanghai IsBerlin IsIstanbul IsByzantium : bool) (spv : Spv) : list Z :=
  fst <$> precompiles IsShanghai IsBerlin IsIstanbul IsByzantium spv.
End contracts.

(** ** Prices are machine integers *)
Create HintDb gas.

Section prices.
Context `{!Keccak} `{!ElaLib} `{!Libs} `{!NftLib}.

Lemma bigModExp_Gas_u64 eip2565 input : is_u64 (bigModExp_Gas eip2565 input).
Proof.
  unfold bigModExp_Gas. cbv zeta. repeat case_match; try apply u64_range; unfold MaxUint64, is_u64; lia.
Qed.

Lemma bls_MultiExp_Gas_u64 size mulGas input : is_u64 (bls_MultiExp_Gas size mulGas input).
Proof.
  unfold bls_MultiExp_Gas. case_match; [split; lia|]. cbv zeta. set (x := u64 _). pose proof (u64_range (zlen input / size * mulGas * nth (Z.to_nat ((if zlen input / size <? zlen Bls12381MultiExpDiscountTable then zlen input / size else zlen Bls12381MultiExpDiscountTable) - 1)) Bls12381MultiExpDiscountTable 0)) as Hx.
  fold x in Hx. unfold is_u64 in *. div_lia.
Qed.

Lemma blake2F_Gas_u64 input : is_u64 (blake2F_Gas input).
Proof. unfold blake2F_Gas, u32, is_u64. case_match; [lia|]. pose proof (Z.mod_pos_bound (shift_or (part 0 4 input)) (2 ^ 32)). lia. Qed.

Definition priced (l : list (Z * PrecompiledContract)) : Prop := Forall (fun x => forall input, is_u64 (RequiredGas (snd x) input)) l.

#[local] Hint Resolve u64_range bigModExp_Gas_u64 blake2F_Gas_u64 : gas.
#[local] Hint Extern 1 (is_u64 _) => split; by vm_compute : gas.

Ltac priced_list := repeat apply Forall_cons_2; try apply Forall_nil_2; intros input; cbn [snd RequiredGas native always modexp];
  unfold sha256_Gas, ripemd160_Gas, dataCopy_Gas, per_word, pairing_Gas; auto with gas.

Lemma homestead_priced : priced homestead_list.
Proof. priced_list. Qed.

Lemma istanbul_priced : priced istanbul_curve.
Proof. priced_list. Qed.

Lemma esc_priced spv : priced (esc_list spv).
Proof. priced_list. Qed.

Lemma detail_priced spv : priced (detail_list spv).
Proof. priced_list. Qed.

Lemma header_priced spv : priced (header_list spv).
Proof. priced_list. Qed.

Lemma modexp_priced eip2565 : priced [(5, modexp eip2565)].
Proof. priced_list. Qed.

Lemma precompiles_priced IsShanghai IsBerlin IsIstanbul IsByzantium spv : priced (precompiles IsShanghai IsBerlin IsIstanbul IsByzantium spv).
Proof.
  pose proof homestead_priced as Hh. pose proof istanbul_priced. pose proof (esc_priced spv). pose proof (detail_priced spv). pose proof (header_priced spv).
  pose proof (modexp_priced true). pose proof (modexp_priced false).
  assert (priced (PrecompiledContractsByzantium spv)) by (apply Forall_app; split; [done|]; apply Forall_app; split; [priced_list|done]).
  destruct IsShanghai, IsBerlin, IsIstanbul, IsByzantium; cbn [precompiles]; first [assumption|exact Hh|repeat (apply Forall_app; split); auto].
Qed.

Lemma precompile_gas IsShanghai IsBerlin IsIstanbul IsByzantium spv addr p input :
  esc_precompile IsShanghai IsBerlin IsIstanbul IsByzantium spv addr = Some p -> is_u64 (RequiredGas p input).
Proof.
  unfold esc_precompile. intros Hp. apply elem_of_list_to_map_2 in Hp. pose proof (precompiles_priced IsShanghai IsBerlin IsIstanbul IsByzantium spv) as Hl.
  unfold priced in Hl. rewrite Forall_forall in Hl. apply (Hl _ Hp).
Qed.

(** The addresses that are warm from the start are those of the contracts. *)
Lemma active_is_precompiled IsShanghai IsBerlin IsIstanbul IsByzantium spv addr :
  addr ∈ ActivePrecompiles IsShanghai IsBerlin IsIstanbul IsByzantium spv <-> is_Some (esc_precompile IsShanghai IsBerlin IsIstanbul IsByzantium spv addr).
Proof.
  unfold ActivePrecompiles, esc_precompile. rewrite <- (not_eq_None_Some (_ !! addr)), <- not_elem_of_list_to_map. split; [tauto|].
  intros Hn. destruct (decide (addr ∈ (precompiles IsShanghai IsBerlin IsIstanbul IsByzantium spv).*1)); tauto.
Qed.
End prices.

(** ** Modular exponentiation *)

(** The [n] bytes from [s] on, where missing bytes are zeros. *)
Definition padded (b : bytes) (s n : Z) : bytes := take (Z.to_nat n) (drop (Z.to_nat s) b ++ replicate (Z.to_nat n) 0).

Lemma right_pad_take d n : 0 <= n -> RightPadBytes (take (Z.to_nat n) d) n = take (Z.to_nat n) (d ++ replicate (Z.to_nat n) 0).
Proof.
  intros Hn. rewrite take_app, take_replicate. replace ((Z.to_nat n - length d) `min` Z.to_nat n)%nat with (Z.to_nat n - length d)%nat by lia.
  rewrite right_pad by (unfold zlen; rewrite length_take; lia). f_equal. f_equal. unfold zlen. rewrite length_take. lia.
Qed.

Lemma getData_padded b s n : 0 <= s -> 0 <= n < 2 ^ 63 -> EvmMachine.getData b s n = Some (padded b s n).
Proof.
  intros Hs Hn. unfold EvmMachine.getData, padded. cbv zeta. rewrite (proj2 (Z.ltb_lt n _)) by lia. assert (i64 n = n) as -> by (apply i64_id; unfold is_i64; lia).
  pose proof (zlen_nonneg b). set (st := if zlen b <? s then zlen b else s). assert (drop (Z.to_nat st) b = drop (Z.to_nat s) b /\ 0 <= st <= zlen b) as [Ed Hst].
  { unfold st. destruct (Z.ltb_spec (zlen b) s); [|split; [done|lia]]. split; [|lia]. unfold zlen in *. by rewrite !drop_ge by lia. }
  set (e := if zlen b <? st + n then zlen b else st + n). assert (e = Z.min (zlen b) (st + n)) as -> by (unfold e; destruct (Z.ltb_spec (zlen b) (st + n)); lia).
  rewrite (proj2 (Z.ltb_ge _ _)) by lia. rewrite <- Ed, <- right_pad_take by lia. do 2 f_equal. destruct (Z.le_ge_cases (st + n) (zlen b)).
  - f_equal. lia.
  - unfold zlen in *. rewrite !take_ge by (rewrite length_drop; lia). done.
Qed.

Lemma zlen_padded b s n : 0 <= n -> zlen (padded b s n) = n.
Proof. intros Hn. unfold padded, zlen. rewrite length_take, length_app, length_replicate. lia. Qed.

Lemma padded_wf b s n : wf_bytes b -> wf_bytes (padded b s n).
Proof. intros Hb. apply Forall_take, Forall_app. split; [by apply Forall_drop|]. apply Forall_replicate. split; lia. Qed.

Lemma data_at_padded b s n : 0 <= s -> 0 <= n < 2 ^ 63 -> data_at b s n = padded b s n.
Proof. intros Hs Hn. unfold data_at. by rewrite getData_padded. Qed.

(** A number padded to a length is its big-endian form. *)
Lemma left_pad_big x n : 0 <= n -> 0 <= x < 2 ^ (8 * n) -> LeftPadBytes (big_Bytes x) n = be (Z.to_nat n) x.
Proof.
  intros Hn Hx. pose proof (zlen_big_Bytes x n Hx Hn) as Hl. unfold LeftPadBytes.
  assert (be (Z.to_nat n) x = replicate (Z.to_nat (n - zlen (big_Bytes x))) 0 ++ big_Bytes x) as ->.
  { unfold zlen, big_Bytes in *. destruct (Z.eqb_spec x 0) as [->|]; [rewrite be_0, app_nil_r; f_equal; cbn; lia|]. rewrite be_length in *.
    pose proof (be_size_lt x ltac:(lia)). replace (be (Z.to_nat n)) with (be (Z.to_nat (n - Z.of_nat (be_size x)) + be_size x)) by (f_equal; lia).
    by rewrite be_split, Z.div_small, be_0 by lia. }
  destruct (Z.leb_spec n (zlen (big_Bytes x))); [|done]. by replace (Z.to_nat (n - zlen (big_Bytes x))) with 0%nat by lia.
Qed.

Definition len_base (input : bytes) : Z := shift_or (padded input 0 32).
Definition len_exp (input : bytes) : Z := shift_or (padded input 32 32).
Definition len_mod (input : bytes) : Z := shift_or (padded input 64 32).

(** The result as EIP-198 defines it: the three numbers that follow the lengths, with
    zeros for the bytes that are missing. *)
Definition modexp_spec (input : bytes) : bytes :=
  let rest := drop 96 input in
  let base := shift_or (padded rest 0 (len_base input)) in
  let exp := shift_or (padded rest (len_base input) (len_exp input)) in
  let modulus := shift_or (padded rest (len_base input + len_exp input) (len_mod input)) in
  be (Z.to_nat (len_mod input)) (if modulus =? 0 then 0 else base ^ exp mod modulus).

Lemma bitlen_le x k : 0 <= x -> 0 <= k -> bitlen x <= k -> x < 2 ^ k.
Proof.
  unfold bitlen. intros Hx Hk Hb. destruct (Z.eqb_spec x 0) as [->|]; [lia|]. apply Z.log2_lt_pow2; lia.
Qed.

Lemma adjusted_bound input bl el : 8 * (el - 32) <= Z.max (adjusted_length input bl el) 1.
Proof.
  unfold adjusted_length. cbv zeta. set (h := if zlen (operands input) <=? bl then 0 else _). destruct (Z.ltb_spec 0 (bitlen h)), (Z.ltb_spec 32 el); lia.
Qed.

(** A price below the largest integer is the price computed. *)
Lemma capped v g : 0 <= v -> (if 64 <? bitlen v then MaxUint64 else u64 v) <= g -> g < 2 ^ 61 -> v < 2 ^ 61.
Proof.
  intros Hv. destruct (Z.ltb_spec 64 (bitlen v)); [unfold MaxUint64; lia|]. assert (v < 2 ^ 64) by (apply bitlen_le; lia). rewrite u64_id by (split; lia). lia.
Qed.

Lemma complexity_bounds x : 1 <= x -> 1 <= modexpMultComplexity x /\ (x <= 1024 \/ x * x < 16 * (modexpMultComplexity x + 1)).
Proof.
  intros Hx. unfold modexpMultComplexity. destruct (Z.leb_spec x 64); [nia|]. destruct (Z.leb_spec x 1024).
  - pose proof (Z.div_pos (x * x) 4 ltac:(nia) ltac:(lia)). lia.
  - pose proof (Z.mul_div_le (x * x) 16 ltac:(lia)). pose proof (Z.mul_succ_div_gt (x * x) 16 ltac:(lia)). nia.
Qed.

(** Whoever can pay gives lengths that fit the machine. *)
Lemma modexp_lengths eip2565 input g :
  wf_bytes input -> bigModExp_Gas eip2565 input <= g -> g < 2 ^ 61 ->
  0 <= len_base input /\ 0 <= len_exp input /\ 0 <= len_mod input /\
  ((len_base input = 0 /\ len_mod input = 0) \/ (len_base input < 2 ^ 37 /\ len_mod input < 2 ^ 37 /\ len_exp input < 2 ^ 63)).
Proof.
  intros Hwf Hg Hmax. assert (forall s, 0 <= shift_or (padded input s 32)) as Hpos by (intros s; by apply shift_or_bound, padded_wf).
  refine (conj (Hpos _) (conj (Hpos _) (conj (Hpos _) _))). unfold bigModExp_Gas in Hg. rewrite !data_at_padded in Hg by lia. fold (len_base input) (len_exp input) (len_mod input) in Hg.
  pose proof (Hpos 0) as Hb. pose proof (Hpos 64) as Hm. fold (len_base input) in Hb. fold (len_mod input) in Hm. clear Hpos.
  destruct (Z.eq_dec (Z.max (len_mod input) (len_base input)) 0); [left; lia|right]. set (X := Z.max (len_mod input) (len_base input)) in *.
  pose proof (adjusted_bound input (len_base input) (len_exp input)) as HA. set (A := Z.max (adjusted_length _ _ _) 1) in *. assert (1 <= A) by (unfold A; lia).
  enough (X < 2 ^ 37 /\ A < 20 * 2 ^ 61 + 20) by lia. assert (1 <= X) by lia. clearbody X A. destruct eip2565; cbv zeta in Hg.
  - set (q := (X + 7) / 8) in *. assert (1 <= q /\ X <= 8 * q) as [Hq Hx] by (unfold q; div_lia). clearbody q.
    assert (q * q * A / 3 < 2 ^ 61) as Hv.
    { eapply capped with (g := g); [apply Z.div_pos; nia| |done]. destruct (64 <? _); [done|]. destruct (Z.ltb_spec (u64 (q * q * A / 3)) 200); lia. }
    pose proof (Z.mul_succ_div_gt (q * q * A) 3 ltac:(lia)). assert (q * q * A < 3 * 2 ^ 61 + 3) by lia. nia.
  - destruct (complexity_bounds X) as [Hc Hx]; [done|]. set (c := modexpMultComplexity X) in *. clearbody c.
    assert (c * A / 20 < 2 ^ 61) as Hv by (eapply capped with (g := g); [apply Z.div_pos; nia|done|done]).
    pose proof (Z.mul_succ_div_gt (c * A) 20 ltac:(lia)). assert (c * A < 20 * 2 ^ 61 + 20) by lia. nia.
Qed.

Lemma operands_drop input : operands input = drop 96 input.
Proof. unfold operands, zlen. destruct (Z.ltb_spec 96 (Z.of_nat (length input))); [done|]. by rewrite drop_ge by lia. Qed.

(** C25: the modular exponentiation contract computes what EIP-198 says: for any
    input and any amount of gas below [2 ^ 61] that pays its price, under the old and
    the new pricing, the run does not panic and returns base to the exponent modulo
    the modulus, in exactly as many bytes as the modulus has, zero for the modulus
    zero, with missing bytes of the input read as zeros. *)
Theorem bigModExp_correct eip2565 input g :
  wf_bytes input -> bigModExp_Gas eip2565 input <= g -> g < 2 ^ 61 -> bigModExp_Run input = Some (modexp_spec input, nil_err).
Proof.
  intros Hwf Hg Hmax. destruct (modexp_lengths _ _ _ Hwf Hg Hmax) as (Hb & He & Hm & Hl). unfold bigModExp_Run, modexp_spec.
  rewrite !data_at_padded by lia. fold (len_base input) (len_exp input) (len_mod input). rewrite operands_drop.
  destruct Hl as [[-> ->]|(Hb' & Hm' & He')]; [done|]. cbv zeta.
  rewrite (u64_id (len_base input)), (u64_id (len_exp input)), (u64_id (len_mod input)), (u64_id (len_base input + len_exp input)) by (split; lia).
  destruct (Z.eqb_spec (len_base input) 0), (Z.eqb_spec (len_mod input) 0) as [E|]; cbn [andb]; try (by rewrite e, E);
    rewrite !getData_padded by lia; cbn [mbind option_bind]; rewrite i64_id by (unfold is_i64; lia); set (M := shift_or (padded _ (_ + _) _));
    (assert (0 <= M < 2 ^ (8 * len_mod input)) as HM by (unfold M; pose proof (shift_or_bound _ (padded_wf (drop 96 input) (len_base input + len_exp input) (len_mod input) ltac:(by apply Forall_drop))) as HM; by rewrite zlen_padded in HM));
    unfold bitlen; destruct (Z.eqb_spec M 0) as [EM|EM]; try (rewrite <- left_pad_big by lia; done).
  all: destruct (Z.eqb_spec (Z.log2 M + 1) 0); [pose proof (Z.log2_nonneg M); lia|]; rewrite Zpow_facts.Zpow_mod_correct by done;
    pose proof (Z.mod_pos_bound (shift_or (padded (drop 96 input) 0 (len_base input)) ^ shift_or (padded (drop 96 input) (len_base input) (len_exp input))) M ltac:(lia));
    unfold give; do 2 f_equal; apply left_pad_big; lia.
Qed.

(** 3 ^ 5 modulo 7, with lengths 1, 1 and 2. *)
Definition sample_modexp : bytes := be 32 1 ++ be 32 1 ++ be 32 2 ++ [3; 5; 0; 7].

Lemma bigModExp_correct_witness : bigModExp_Run sample_modexp = Some ([0; 5], nil_err) /\ bigModExp_Run sample_modexp = Some (modexp_spec sample_modexp, nil_err).
Proof.
  split; [vm_compute; reflexivity|]. apply (bigModExp_correct true sample_modexp 1000); [|vm_compute; congruence|reflexivity].
  unfold sample_modexp. repeat (apply Forall_app; split); try apply be_wf. repeat constructor; lia.
Defined.

(** ** Pledge bills *)
Section pledges.
Context `{!Keccak} `{!ElaLib} `{!Libs} `{!NftLib}.

(** The owner of the vote that the bill stands for has signed the hash of the bill
    and the address it goes to: the key of a standard account, or enough keys of an
    account with several, whose stake address is the recorded one. *)
Definition owner_signed (db : gmap bytes bytes) (elaHash toAddress : bytes) : Prop :=
  exists address token err, GetPledgeBillData (hash_name elaHash) db = Some (address, token, err) /\
  ((exists key sig script ct, Verify key (elaHash ++ toAddress) sig = nil_err /\ CreateStandardRedeemScript key = inl script /\
      CreateStakeContractByCode script = inl ct /\ fst (ToAddress ct) = address) \/
   (exists m keys sigs ct, 1 < u64 m /\ CreateMultiSigContract (i64 m) keys = inl ct /\
      CheckMultiSigSignatures (ec_Code ct) sigs (elaHash ++ toAddress) = nil_err /\ ToAddress {| ec_Code := ec_Code ct; ec_Prefix := PrefixDPoSV2 |} = (address, nil_err))).

Lemma true_verdict err out : pledge_verdict err = Some (out, nil_err) -> err = Some nil_err.
Proof. unfold pledge_verdict. by destruct err as [[|]|]. Qed.

Lemma standard_signed db key elaHash to sig : checkStandardSignature db key elaHash to sig = Some nil_err -> owner_signed db elaHash to.
Proof.
  unfold checkStandardSignature. destruct (Verify _ _ _) eqn:Hv; [done|]. destruct (CreateStandardRedeemScript key) as [script|] eqn:Hs; [|done].
  destruct (CreateStakeContractByCode script) as [ct|] eqn:Hc; [|done]. destruct (ToAddress ct) as [a e] eqn:Ha.
  destruct (GetPledgeBillData _ db) as [[[address token] err]|] eqn:Hg; [|done]. cbn. destruct err; [done|]. destruct (bool_decide _) eqn:Hb; [|done]. intros _.
  apply bool_decide_eq_true in Hb. exists address, token, None. split; [done|]. left. exists key, sig, script, ct. by rewrite Ha.
Qed.

Lemma multi_signed db m keys sigs elaHash to : 1 < u64 m -> checkMultiSignatures db (i64 m) keys sigs elaHash to = Some nil_err -> owner_signed db elaHash to.
Proof.
  intros Hm. unfold checkMultiSignatures. destruct (CreateMultiSigContract _ _) as [ct|] eqn:Hc; [|done]. destruct (CheckMultiSigSignatures _ _ _) eqn:Hs; [done|].
  destruct (ToAddress _) as [a [|]] eqn:Ha; [done|]. destruct (GetPledgeBillData _ db) as [[[address token] err]|] eqn:Hg; [|done]. cbn.
  destruct (bool_decide _) eqn:Hb; [|done]. intros _. apply bool_decide_eq_true in Hb. subst a. exists address, token, err. split; [done|]. right. by exists m, keys, sigs, ct.
Qed.

(** the contract that releases a pledge bill says yes only if the owner of the
    recorded stake address has signed the hash of the bill together with the receiver
    that the input names: with the one key, or with as many of the keys as the account
    asks for. *)
Theorem pledge_needs_owner spv input :
  pledgeBillVerify_Run spv input = Some (true32Byte, nil_err) -> owner_signed (spv_db spv) (data_at input 32 32) (data_at input 64 20).
Proof.
  unfold pledgeBillVerify_Run. cbv zeta. destruct (pledge_keys _ _ _ _) as [[keys p]|]; [|done]. destruct (i64 _ =? 1).
  - destruct (keys !! 0%nat); [|done]. cbn [mbind option_bind]. intros Hv. by apply true_verdict, standard_signed in Hv.
  - destruct (_ && _) eqn:Hm; [|done]. destruct (shift_or (data_at input 84 32) <? shift_or (data_at input 116 32)); [done|]. intros Hv. apply andb_true_iff in Hm as [Hm _]. apply Z.ltb_lt in Hm.
    apply true_verdict in Hv. by apply multi_signed in Hv.
Qed.

(** The loop over the signatures runs as often as the input says, whatever the length
    of the input. *)
Lemma pledge_signatures_length input k p i : zlen (pledge_signatures input k p i) = 65 * Z.of_nat k.
Proof.
  revert i. induction k as [|k IH]; intros i; [done|]. cbn [pledge_signatures]. rewrite zlen_app, IH. unfold getParameterBySignature. rewrite zlen_cons.
  rewrite data_at_padded, zlen_padded by (try lia; apply u64_range). lia.
Qed.

(** the id of a token is returned without leading zeros: a token whose id has a
    leading zero byte gives fewer than the 32 bytes that a caller decodes. *)
Theorem token_id_unpadded spv input address token :
  GetPledgeBillData (hash_name (data_at input 32 32)) (spv_db spv) = Some (address, token, nil_err) -> 0 <= token < 2 ^ 248 ->
  exists out, pledgeBillTokenID_Run spv input = Some (out, nil_err) /\ shift_or out = token /\ zlen out < 32.
Proof.
  intros Hg Ht. unfold pledgeBillTokenID_Run. rewrite Hg. exists (big_Bytes token). split; [done|]. split; [apply shift_or_big_Bytes; lia|].
  pose proof (zlen_big_Bytes token 31 ltac:(lia) ltac:(lia)). lia.
Qed.

(** The input of the signature check is left with another recovery id than the caller
    put there. *)
Lemma pbk_changes_input input : 162 <= zlen input -> 27 <= nth 161 input 0 -> snd (pbkVerifySignature_run input) <> input.
Proof.
  intros Hl Hv. unfold pbkVerifySignature_run. cbn [snd]. rewrite data_at_padded by lia. rewrite (proj2 (Z.leb_le 162 _)) by lia.
  assert (nth 64 (padded input 97 65) 0 = nth 161 input 0) as ->.
  { unfold padded. rewrite !nth_lookup, lookup_take_lt, lookup_app_l, lookup_drop by (rewrite ?length_drop; unfold zlen in *; lia). done. }
  rewrite (proj2 (Z.leb_le 27 _)) by lia. rewrite !nth_lookup, list_lookup_insert_eq by (pose proof (zlen_padded input 97 65); unfold zlen in *; lia). cbn [default].
  intros E. apply (f_equal (fun l => nth 161 l 0)) in E. rewrite !nth_lookup, list_lookup_insert_eq in E by (unfold zlen in *; lia).
  change (default 0 (input !! 161%nat) - 27 = default 0 (input !! 161%nat)) in E. lia.
Qed.
End pledges.

(** ** A small world

    One bill is recorded, for the vote of a key; the address of a contract is its
    code. *)
Module World.
Definition no_group : Group := {|
  point := bytes; g_Decode := inl; g_Add := fun a _ => a; g_MulScalar := fun p _ => p; g_MultiExp := fun _ _ => []; g_InCorrectSubgroup := fun _ => true;
  g_MapToCurve := inl; g_Encode := fun p => p
|}.

#[export] Instance keccak : Keccak := shift_or.

(** A signature is the key and what it fits of the message. *)
#[export] Instance ela : ElaLib := {|
  PublicKey := bytes;
  DecodePoint := fun b => if forallb (Z.eqb 0) b then inr "invalid key" else inl b;
  Verify := fun pk d s => if bool_decide (s = take 64 (pk ++ d)) then nil_err else New "invalid signature";
  proposal_Hash := @proposal_Hash Toy.lib; proposal_Data := @proposal_Data Toy.lib; vote_Hash := @vote_Hash Toy.lib; vote_Data := @vote_Data Toy.lib;
  resetView_SerializeUnsigned := @resetView_SerializeUnsigned Toy.lib; Int64ToTime := @Int64ToTime Toy.lib
|}.

#[export] Instance libs : @Libs ela := {|
  sha256_Sum256 := fun b => b; ripemd160_Sum := fun b => b; Ecrecover := fun _ s => inl s; SigToPub := fun _ s => inl s; CompressPubkey := fun b => b;
  bn_G1 := no_group; bn_G2 := no_group; bn_PairingCheck := fun _ _ => true; bls_G1 := no_group; bls_G2 := no_group; bls_Check := fun _ => true;
  VerifyDigest := fun _ _ _ => nil_err; CreateStandardRedeemScript := fun key => inl key; CreateStakeContractByCode := fun code => inl {| ec_Code := code; ec_Prefix := 63 |};
  CreateMultiSigContract := fun _ keys => inl {| ec_Code := concat keys; ec_Prefix := 18 |}; ToAddress := fun c => (hex_encode (ec_Code c), nil_err);
  CheckMultiSigSignatures := fun _ _ _ => nil_err; PrefixDPoSV2 := 63; CreateNFTVersion := 0
|}.

(** The payload of a bill is the key of the vote. *)
#[export] Instance nft : NftLib := {|
  nft_Deserialize := fun data _ => inl {| ReferKey := data; StakeAddress := hex_encode data; GenesisBlockHash := []; StartHeight := 0; EndHeight := 0; Votes := 0;
                                          VoteRights := 0; TargetOwnerKey := [] |};
  GetNFTID := fun _ _ => replicate 31 0 ++ [7]; Uint256FromHexString := fun s => inl (Hex2Bytes s); Uint256_String := hex_encode
|}.

Definition key : bytes := replicate 33 2.
Definition hash : bytes := replicate 32 9.
Definition to : bytes := replicate 20 5.

Definition spv : Spv := {|
  spv_Arbiters := inl ([], 0); spv_Header := fun _ => inr "none"; spv_Best := inr "none";
  spv_db := ProcessPledgedBill (inl EmptyString) {| PayloadVersion := 1; PayloadData := key; nft_Hash := hash; IsCreateNFTTX := true |} ∅
|}.

Definition input : bytes := replicate 32 0 ++ hash ++ to ++ be 32 1 ++ be 32 1 ++ be 32 1 ++ key ++ take 64 (key ++ hash ++ to).
End World.

Import World.

Lemma pledge_needs_owner_witness :
  data_at World.input 32 32 = World.hash /\ data_at World.input 64 20 = World.to /\
  owner_signed (spv_db World.spv) (data_at World.input 32 32) (data_at World.input 64 20).
Proof.
  split; [vm_compute; reflexivity|]. split; [vm_compute; reflexivity|]. apply (pledge_needs_owner World.spv World.input). vm_compute. reflexivity.
Defined.

Lemma token_id_unpadded_witness : exists out, pledgeBillTokenID_Run World.spv World.input = Some (out, nil_err) /\ shift_or out = 7 /\ zlen out < 32.
Proof. apply (token_id_unpadded World.spv World.input (hex_encode World.key) 7); [vm_compute; reflexivity|lia]. Defined.
