(* ===== verification/EvmInstr.v ===== *)
(** * [core/vm/instructions.go], [eips.go]: the operations of the machine

    An operation works on the frame of the running contract and returns bytes and
    an error; [errStopToken] ends the run.  Calls and creations go back to [Evm].
    Tracing is not modelled. *)
From S2P Require Import Prelude Ela Messages Rlp Header Common AccessList StateDB StateSpec StateRefine Withdraw SmallCross Recharge Evm EvmMachine EvmGas.

Definition ErrInvalidJump : string := "invalid jump destination".
Definition ErrWriteProtection : string := "write protection".
Definition ErrReturnDataOutOfBounds : string := "return data out of bounds".
Definition errStopToken : string := "stop token".
Definition ErrInvalidOpCode : string := "invalid opcode".

(** The context of the block and the message; [evm_abort] is the flag that
    [Cancel] sets, as read when the frame is as given. *)
Class BlockEnv := {
  evm_Origin : Z; evm_GasPrice : Z; evm_Coinbase : Z; evm_GasLimit : Z; evm_Time : Z; evm_Difficulty : Z;
  evm_BaseFee : option Z; evm_Random : option bytes; evm_GetHash : Z -> bytes;
  (** [GetChainIDByHeight(BlockNumber)] *)
  evm_ChainID : Z;
  EnablePreimageRecording : bool;
  evm_abort : Frame -> bool
}.

Definition executionFunc := M (bytes * error).
Definition next_op : executionFunc := retM ([], nil_err).
Definition stop_with (e : string) : executionFunc := retM ([], New e).

Section instructions.
Context `{!Uint256} `{!Keccak} `{!Database} `{!ElaLib} `{!Codec} `{!SpvLib} `{!EvmEnv} `{!Rules} `{!BlockEnv}.
(** [interpreter.readOnly] *)
Context (readOnly : bool).

(** ** Arithmetic and comparison *)
Definition unary (g : Z -> Z) : executionFunc := let* x := peek in set_top (g x);;; next_op.
Definition binary (g : Z -> Z -> Z) : executionFunc := let* x := pop in let* y := peek in set_top (g x y);;; next_op.
Definition test (b : bool) : Z := if b then 1 else 0.

Definition opAdd : executionFunc := binary u_Add.
Definition opSub : executionFunc := binary u_Sub.
Definition opMul : executionFunc := binary u_Mul.
Definition opDiv : executionFunc := binary u_Div.
Definition opSdiv : executionFunc := binary u_SDiv.
Definition opMod : executionFunc := binary u_Mod.
Definition opSmod : executionFunc := binary u_SMod.
Definition opExp : executionFunc := binary u_Exp.
Definition opSignExtend : executionFunc := binary (fun back num => u_ExtendSign num back).
Definition opNot : executionFunc := unary u_Not.
Definition opLt : executionFunc := binary (fun x y => test (u_Lt x y)).
Definition opGt : executionFunc := binary (fun x y => test (u_Gt x y)).
Definition opSlt : executionFunc := binary (fun x y => test (u_Slt x y)).
Definition opSgt : executionFunc := binary (fun x y => test (u_Sgt x y)).
Definition opEq : executionFunc := binary (fun x y => test (u_Eq x y)).
Definition opIszero : executionFunc := unary (fun x => test (u_IsZero x)).
Definition opAnd : executionFunc := binary u_And.
Definition opOr : executionFunc := binary u_Or.
Definition opXor : executionFunc := binary u_Xor.
Definition opByte : executionFunc := binary (fun th val => u_Byte val th).

Definition opAddmod : executionFunc :=
  let* x := pop in let* y := pop in let* z := peek in
  set_top (if u_IsZero z then 0 else u_AddMod x y z);;; next_op.

Definition opMulmod : executionFunc :=
  let* x := pop in let* y := pop in let* z := peek in set_top (u_MulMod x y z);;; next_op.

Definition opSHL : executionFunc := binary (fun shift value => if shift <? 256 then u_Lsh value (u_Uint64 shift) else 0).
Definition opSHR : executionFunc := binary (fun shift value => if shift <? 256 then u_Rsh value (u_Uint64 shift) else 0).
Definition opSAR : executionFunc := binary (fun shift value =>
  if 256 <? shift then (if 0 <=? u_Sign value then 0 else 2 ^ 256 - 1) else u_SRsh value (u_Uint64 shift)).

(** ** The contract, the block and the accounts *)
Definition pushes (q : Frame -> Z) : executionFunc := let* x := gets q in push x;;; next_op.

Definition opKeccak256 : executionFunc :=
  let* offset := pop in let* size := peek in
  let* data := load (u_Uint64 offset) (u_Uint64 size) in
  let hash := Keccak256Hash data in
  (if EnablePreimageRecording then tell (AddPreimage hash data) else retM tt);;;
  set_top (u_SetBytes hash);;; next_op.

Definition opAddress : executionFunc := pushes (fun f => u_SetBytes (address_bytes (contract_self (contract f)))).

Definition opBalance : executionFunc :=
  let* slot := peek in let* b := ask (GetBalance (u_Bytes20 slot)) in set_top (u_FromBig b);;; next_op.

Definition opOrigin : executionFunc := pushes (fun _ => u_SetBytes (address_bytes evm_Origin)).
Definition opCaller : executionFunc := pushes (fun f => u_SetBytes (address_bytes (CallerAddress (contract f)))).
Definition opCallValue : executionFunc := pushes (fun f => u_FromBig (contract_value (contract f))).

Definition opCallDataLoad : executionFunc :=
  let* x := peek in
  let (offset, overflow) := Uint64WithOverflow x in
  if negb overflow then let* data := lift (fun f => getData (Input f) offset 32) in set_top (u_SetBytes data);;; next_op
  else set_top 0;;; next_op.

Definition opCallDataSize : executionFunc := pushes (fun f => u64 (zlen (Input f))).

(** [getData] of [data] into the memory; an offset that overflows is beyond the data. *)
Definition copy_data (data : Frame -> bytes) (memOffset dataOffset length : Z) : executionFunc :=
  let (offset, overflow) := Uint64WithOverflow dataOffset in
  let offset := if overflow then MaxUint64 else offset in
  let* slice := lift (fun f => getData (data f) offset (u_Uint64 length)) in
  on_mem (mem_Set (u_Uint64 memOffset) (u_Uint64 length) slice);;; next_op.

Definition opCallDataCopy : executionFunc :=
  let* memOffset := pop in let* dataOffset := pop in let* length := pop in copy_data Input memOffset dataOffset length.

Definition opReturnDataSize : executionFunc := pushes (fun f => u64 (zlen (returnData f))).

Definition opReturnDataCopy : executionFunc :=
  let* memOffset := pop in let* dataOffset := pop in let* length := pop in
  let (offset64, overflow) := Uint64WithOverflow dataOffset in
  if overflow : bool then stop_with ErrReturnDataOutOfBounds
  else
    let (end64, overflow) := Uint64WithOverflow (u_Add dataOffset length) in
    let* data := gets returnData in
    if overflow || (zlen data <? end64) then stop_with ErrReturnDataOutOfBounds
    else if end64 <? offset64 then lift (fun _ => None)
    else
      on_mem (mem_Set (u_Uint64 memOffset) (u_Uint64 length) (take (Z.to_nat (end64 - offset64)) (drop (Z.to_nat offset64) data)));;;
      next_op.

Definition opExtCodeSize : executionFunc :=
  let* slot := peek in let* n := ask (GetCodeSize (u_Bytes20 slot)) in set_top (u64 n);;; next_op.

Definition opCodeSize : executionFunc := pushes (fun f => u64 (zlen (contract_Code (contract f)))).

Definition opCodeCopy : executionFunc :=
  let* memOffset := pop in let* codeOffset := pop in let* length := pop in
  copy_data (fun f => contract_Code (contract f)) memOffset codeOffset length.

Definition opExtCodeCopy : executionFunc :=
  let* a := pop in let* memOffset := pop in let* codeOffset := pop in let* length := pop in
  copy_data (fun f => GetCode (u_Bytes20 a) (vm_state (machine f))) memOffset codeOffset length.

Definition opExtCodeHash : executionFunc :=
  let* slot := peek in
  let address := u_Bytes20 slot in
  let* isEmpty := ask (Empty address) in
  let* hash := ask (GetCodeHash address) in
  set_top (if isEmpty then 0 else u_SetBytes hash);;; next_op.

Definition opGasprice : executionFunc := pushes (fun _ => u_FromBig evm_GasPrice).

Definition opBlockhash : executionFunc :=
  let* num := peek in
  let (num64, overflow) := Uint64WithOverflow num in
  if overflow : bool then set_top 0;;; next_op
  else
    let upper := u64 evm_BlockNumber in
    let lower := if upper <? 257 then 0 else upper - 256 in
    set_top (if (lower <=? num64) && (num64 <? upper) then u_SetBytes (evm_GetHash num64) else 0);;; next_op.

Definition opCoinbase : executionFunc := pushes (fun _ => u_SetBytes (address_bytes evm_Coinbase)).
Definition opTimestamp : executionFunc := pushes (fun _ => u_FromBig evm_Time).
Definition opNumber : executionFunc := pushes (fun _ => u_FromBig evm_BlockNumber).
Definition opDifficulty : executionFunc := pushes (fun _ => u_FromBig evm_Difficulty).
Definition opRandom : executionFunc := pushes (fun _ => match evm_Random with None => 0 | Some r => u_SetBytes r end).
Definition opGasLimit : executionFunc := pushes (fun _ => u64 evm_GasLimit).

(** ** Stack, memory, storage and jumps *)
Definition opPop : executionFunc := let* _ := pop in next_op.

Definition opMload : executionFunc :=
  let* v := peek in let* data := load (u_Uint64 v) 32 in set_top (u_SetBytes data);;; next_op.

Definition opMstore : executionFunc :=
  let* mStart := pop in let* val := pop in on_mem (mem_Set32 (u_Uint64 mStart) val);;; next_op.

Definition opMstore8 : executionFunc :=
  let* off := pop in let* val := pop in
  let i := Z.to_nat (u_Uint64 off) in
  on_mem (fun m => _ ← store m !! i; Some (m <| store := <[ i := u8 (u_Uint64 val) ]> (store m) |>));;; next_op.

Definition opSload : executionFunc :=
  let* loc := peek in let* s := self in
  let* val := ask (GetState s (u_Bytes32 loc)) in set_top (u_SetBytes val);;; next_op.

Definition opSstore : executionFunc :=
  if readOnly then stop_with ErrWriteProtection
  else
    let* loc := pop in let* val := pop in let* s := self in
    tell (SetState s (u_Bytes32 loc) (u_Bytes32 val));;; next_op.

(** [*pc = pos.Uint64() - 1]; the loop adds one. *)
Definition jump_to (pos : Z) : executionFunc :=
  let* ok := validJumpdest pos in
  if negb ok then stop_with ErrInvalidJump
  else modify (fun f => f <| pc := u64 (u_Uint64 pos - 1) |>);;; next_op.

Definition opJump : executionFunc :=
  let* aborted := gets evm_abort in
  if aborted : bool then stop_with errStopToken else let* pos := pop in jump_to pos.

Definition opJumpi : executionFunc :=
  let* aborted := gets evm_abort in
  if aborted : bool then stop_with errStopToken
  else let* pos := pop in let* cond := pop in if negb (u_IsZero cond) then jump_to pos else next_op.

Definition opJumpdest : executionFunc := next_op.
Definition opPc : executionFunc := pushes (fun f => u64 (pc f)).
Definition opMsize : executionFunc := pushes (fun f => u64 (Len (mem f))).
Definition opGas : executionFunc := pushes (fun f => u64 (contract_Gas (contract f))).

(** ** Creation and calls *)
Definition contract_ref (c : Contract) : ContractRef := RunningContract (contract_self c) (CallerAddress c) (contract_value c).

(** A call of [Evm] on behalf of the contract. *)
Definition with_evm {A} (g : ContractRef -> Vm -> option (A * Vm)) : M A :=
  fun f => match g (contract_ref (contract f)) (machine f) with None => None | Some (a, vm) => Some (a, f <| machine := vm |>) end.

(** The end of a creation: the address or zero on the stack, the gas back. *)
Definition finish_create (stackvalue : Z) (res : bytes) (returnGas : Z) (suberr : error) : executionFunc :=
  push stackvalue;;;
  return_gas returnGas;;;
  let data := if bool_decide (suberr = New ErrExecutionReverted) then res else [] in
  modify (fun f => f <| returnData := data |>);;; retM (data, nil_err).

Definition opCreate : executionFunc :=
  if readOnly then stop_with ErrWriteProtection
  else
    let* value := pop in let* offset := pop in let* size := pop in
    let* input := load (u_Uint64 offset) (u_Uint64 size) in
    let* gas := gas_left in
    let gas := if IsEIP150 then gas - gas / 64 else gas in
    let* _ := use_gas gas in
    let* (res, addr, returnGas, suberr) := with_evm (fun caller vm => Create caller input gas value vm) in
    let stackvalue :=
      if (IsHomestead && bool_decide (suberr = New ErrCodeStoreOutOfGas)) ||
         (failed suberr && negb (bool_decide (suberr = New ErrCodeStoreOutOfGas)))
      then 0 else u_SetBytes (address_bytes addr) in
    finish_create stackvalue res returnGas suberr.

Definition opCreate2 : executionFunc :=
  if readOnly then stop_with ErrWriteProtection
  else
    let* endowment := pop in let* offset := pop in let* size := pop in let* salt := pop in
    let* input := load (u_Uint64 offset) (u_Uint64 size) in
    let* gas := gas_left in
    let gas := gas - gas / 64 in
    let* _ := use_gas gas in
    let* (res, addr, returnGas, suberr) := with_evm (fun caller vm => Create2 caller input gas endowment (u_Bytes32 salt) vm) in
    finish_create (if failed suberr then 0 else u_SetBytes (address_bytes addr)) res returnGas suberr.

(** The end of a call: its success on the stack, the returned bytes in the memory,
    the gas back. *)
Definition finish_call (retOffset retSize : Z) (ret : bytes) (returnGas : Z) (err : error) : M unit :=
  push (test (negb (failed err)));;;
  (if negb (failed err) || bool_decide (err = New ErrExecutionReverted)
   then on_mem (mem_Set (u_Uint64 retOffset) (u_Uint64 retSize) ret) else retM tt);;;
  return_gas returnGas;;;
  modify (fun f => f <| returnData := ret |>).

Definition count_call (toAddr returnGas : Z) : M unit :=
  modify (fun f => f <| internalCallTable := OpInterCall toAddr returnGas (internalCallTable f) |>).

Definition opCall : executionFunc :=
  let* _ := pop in
  let* gas := gets callGasTemp in
  let* addr := pop in let* value := pop in let* inOffset := pop in let* inSize := pop in let* retOffset := pop in let* retSize := pop in
  let* args := load (u_Uint64 inOffset) (u_Uint64 inSize) in
  if readOnly && negb (u_IsZero value) then stop_with ErrWriteProtection
  else
    let gas := if negb (u_IsZero value) then u64 (gas + CallStipend) else gas in
    let* (ret, returnGas, err) := with_evm (fun caller vm => Call caller (u_Bytes20 addr) args gas value None vm) in
    finish_call retOffset retSize ret returnGas err;;;
    retM (ret, nil_err).

Definition opCallCode : executionFunc :=
  let* _ := pop in
  let* gas := gets callGasTemp in
  let* addr := pop in let* value := pop in let* inOffset := pop in let* inSize := pop in let* retOffset := pop in let* retSize := pop in
  let toAddr := u_Bytes20 addr in
  let* args := load (u_Uint64 inOffset) (u_Uint64 inSize) in
  let gas := if negb (u_IsZero value) then u64 (gas + CallStipend) else gas in
  let* (ret, returnGas, err) := with_evm (fun caller vm => CallCode caller toAddr args gas value vm) in
  finish_call retOffset retSize ret returnGas err;;;
  count_call toAddr returnGas;;;
  retM (ret, nil_err).

(** The calls that carry no value. *)
Definition plain_call (call : ContractRef -> Z -> bytes -> Z -> Vm -> option (bytes * Z * error * Vm)) : executionFunc :=
  let* _ := pop in
  let* gas := gets callGasTemp in
  let* addr := pop in let* inOffset := pop in let* inSize := pop in let* retOffset := pop in let* retSize := pop in
  let toAddr := u_Bytes20 addr in
  let* args := load (u_Uint64 inOffset) (u_Uint64 inSize) in
  let* (ret, returnGas, err) := with_evm (fun caller vm => call caller toAddr args gas vm) in
  finish_call retOffset retSize ret returnGas err;;;
  count_call toAddr returnGas;;;
  retM (ret, nil_err).

Definition opDelegateCall : executionFunc := plain_call DelegateCall.
Definition opStaticCall : executionFunc := plain_call StaticCall.

Definition opReturn : executionFunc :=
  let* offset := pop in let* size := pop in
  let* ret := load (u_Uint64 offset) (u_Uint64 size) in retM (ret, New errStopToken).

Definition opRevert : executionFunc :=
  let* offset := pop in let* size := pop in
  let* ret := load (u_Uint64 offset) (u_Uint64 size) in
  modify (fun f => f <| returnData := ret |>);;; retM (ret, New ErrExecutionReverted).

Definition opUndefined : executionFunc :=
  let* _ := lift (fun f => contract_Code (contract f) !! Z.to_nat (pc f)) in stop_with ErrInvalidOpCode.

Definition opStop : executionFunc := stop_with errStopToken.

Definition opSelfdestruct : executionFunc :=
  if readOnly then stop_with ErrWriteProtection
  else
    let* beneficiary := pop in let* s := self in
    let* balance := ask (GetBalance s) in
    tell (AddBalance (u_Bytes20 beneficiary) balance);;;
    tell (fun st => snd (Suicide s st));;;
    stop_with errStopToken.

Fixpoint pop_topics (n : nat) : M (list bytes) :=
  match n with O => retM [] | S n => let* x := pop in let* l := pop_topics n in retM (u_Bytes32 x :: l) end.

Definition makeLog (size : nat) : executionFunc :=
  if readOnly then stop_with ErrWriteProtection
  else
    let* mStart := pop in let* mSize := pop in
    let* topics := pop_topics size in
    let* d := load (u_Uint64 mStart) (u_Uint64 mSize) in
    let* s := self in
    tell (AddLog {| log_Address := s; log_Topics := topics; log_Data := d; log_BlockNumber := u64 evm_BlockNumber;
                    log_TxHash := zero_hash; log_TxIndex := 0; log_BlockHash := zero_hash; log_Index := 0 |});;; next_op.

Definition advance (n : Z) : M unit := modify (fun f => f <| pc := u64 (pc f + n) |>).

Definition opPush1 : executionFunc :=
  advance 1;;;
  let* x := gets (fun f => default 0 (contract_Code (contract f) !! Z.to_nat (pc f))) in
  push (u64 x);;; next_op.

(** The next position in the code fits an [int]. *)
Definition makePush (size pushByteSize : Z) : executionFunc :=
  let* code := gets (fun f => contract_Code (contract f)) in
  let* p := gets pc in
  let codeLen := zlen code in
  let next := p + 1 in
  let startMin := if next <? codeLen then next else codeLen in
  let endMin := if startMin + pushByteSize <? codeLen then startMin + pushByteSize else codeLen in
  if (startMin <? 0) || (endMin <? startMin) then lift (fun _ => None)
  else
    push (u_SetBytes (RightPadBytes (take (Z.to_nat (endMin - startMin)) (drop (Z.to_nat startMin) code)) pushByteSize));;;
    advance size;;; next_op.

Definition makeDup (size : nat) : executionFunc :=
  let* st := lift (fun f => dup size (stack f)) in modify (fun f => f <| stack := st |>);;; next_op.

Definition makeSwap (size : nat) : executionFunc :=
  let* st := lift (fun f => swap (S size) (stack f)) in modify (fun f => f <| stack := st |>);;; next_op.

(** ** [eips.go] *)
Definition opSelfBalance : executionFunc :=
  let* s := self in let* b := ask (GetBalance s) in push (u_FromBig b);;; next_op.

Definition opChainID : executionFunc := pushes (fun _ => u_FromBig evm_ChainID).

Definition opTload : executionFunc :=
  let* loc := peek in let* s := self in
  let* val := ask (GetTransientState s (u_Bytes32 loc)) in set_top (u_SetBytes val);;; next_op.

Definition opTstore : executionFunc :=
  if readOnly then stop_with ErrWriteProtection
  else
    let* loc := pop in let* val := pop in let* s := self in
    try (SetTransientState s (u_Bytes32 loc) (u_Bytes32 val));;; next_op.

Definition opBaseFee : executionFunc := pushes (fun _ => match evm_BaseFee with None => 0 | Some b => u_FromBig b end).
Definition opPush0 : executionFunc := pushes (fun _ => 0).
End instructions.
