(* ===== verification/EvmTable.v ===== *)
(** * [core/vm/jump_table.go], [eips.go], [stack_table.go]: the instruction sets

    The table of a fork gives for each op-code its function, its costs and the
    bounds on the stack.  Each set extends the one of the fork before it. *)
From S2P Require Import Prelude Ela Messages Rlp Header Common AccessList StateDB StateSpec StateRefine Withdraw SmallCross Recharge Evm EvmMachine EvmGas EvmInstr.

(** ** [opcodes.go] *)
Definition STOP : Z := 0.
Definition ADD : Z := 1.
Definition MUL : Z := 2.
Definition SUB : Z := 3.
Definition DIV : Z := 4.
Definition SDIV : Z := 5.
Definition MOD : Z := 6.
Definition SMOD : Z := 7.
Definition ADDMOD : Z := 8.
Definition MULMOD : Z := 9.
Definition EXP : Z := 10.
Definition SIGNEXTEND : Z := 11.
Definition LT : Z := 16.
Definition GT : Z := 17.
Definition SLT : Z := 18.
Definition SGT : Z := 19.
Definition EQ : Z := 20.
Definition ISZERO : Z := 21.
Definition AND : Z := 22.
Definition OR : Z := 23.
Definition XOR : Z := 24.
Definition NOT : Z := 25.
Definition BYTE : Z := 26.
Definition SHL : Z := 27.
Definition SHR : Z := 28.
Definition SAR : Z := 29.
Definition KECCAK256 : Z := 32.
Definition ADDRESS : Z := 48.
Definition BALANCE : Z := 49.
Definition ORIGIN : Z := 50.
Definition CALLER : Z := 51.
Definition CALLVALUE : Z := 52.
Definition CALLDATALOAD : Z := 53.
Definition CALLDATASIZE : Z := 54.
Definition CALLDATACOPY : Z := 55.
Definition CODESIZE : Z := 56.
Definition CODECOPY : Z := 57.
Definition GASPRICE : Z := 58.
Definition EXTCODESIZE : Z := 59.
Definition EXTCODECOPY : Z := 60.
Definition RETURNDATASIZE : Z := 61.
Definition RETURNDATACOPY : Z := 62.
Definition EXTCODEHASH : Z := 63.
Definition BLOCKHASH : Z := 64.
Definition COINBASE : Z := 65.
Definition TIMESTAMP : Z := 66.
Definition NUMBER : Z := 67.
Definition DIFFICULTY : Z := 68.
Definition PREVRANDAO : Z := 68.
Definition GASLIMIT : Z := 69.
Definition CHAINID : Z := 70.
Definition SELFBALANCE : Z := 71.
Definition BASEFEE : Z := 72.
Definition POP : Z := 80.
Definition MLOAD : Z := 81.
Definition MSTORE : Z := 82.
Definition MSTORE8 : Z := 83.
Definition SLOAD : Z := 84.
Definition SSTORE : Z := 85.
Definition JUMP : Z := 86.
Definition JUMPI : Z := 87.
Definition PC : Z := 88.
Definition MSIZE : Z := 89.
Definition GAS : Z := 90.
Definition PUSH0 : Z := 95.
Definition DUP1 : Z := 128.
Definition SWAP1 : Z := 144.
Definition LOG0 : Z := 160.
Definition TLOAD : Z := 179.
Definition TSTORE : Z := 180.
Definition CREATE : Z := 240.
Definition CALL : Z := 241.
Definition CALLCODE : Z := 242.
Definition RETURN : Z := 243.
Definition DELEGATECALL : Z := 244.
Definition CREATE2 : Z := 245.
Definition STATICCALL : Z := 250.
Definition REVERT : Z := 253.
Definition SELFDESTRUCT : Z := 255.

(** ** [stack_table.go] *)
Definition maxStack (pop push : Z) : Z := StackLimit + pop - push.
Definition minStack (pops push : Z) : Z := pops.
Definition minSwapStack (n : Z) : Z := minStack n n.
Definition maxSwapStack (n : Z) : Z := maxStack n n.
Definition minDupStack (n : Z) : Z := minStack n (n + 1).
Definition maxDupStack (n : Z) : Z := maxStack n (n + 1).

Record operation := op_ {
  execute : executionFunc; constantGas : Z; dynamicGas : option gasFunc; min_stack : Z; max_stack : Z;
  memorySize : option (M (Z * bool))
}.

#[export] Instance operation_eta : Eta operation := fun o => {|
  execute := execute o; constantGas := constantGas o; dynamicGas := dynamicGas o; min_stack := min_stack o;
  max_stack := max_stack o; memorySize := memorySize o
|}.

(** 256 operations. *)
Definition JumpTable := list operation.

Definition set_op (i : Z) (o : operation) (jt : JumpTable) : JumpTable := <[ Z.to_nat i := o ]> jt.
Definition change_op (i : Z) (g : operation -> operation) (jt : JumpTable) : JumpTable := alter g (Z.to_nat i) jt.
Definition reprice (i gas : Z) : JumpTable -> JumpTable := change_op i (fun o => o <| constantGas := gas |>).
Definition meter (i : Z) (g : gasFunc) : JumpTable -> JumpTable := change_op i (fun o => o <| dynamicGas := Some g |>).

(** Panics for an operation with a memory size and no dynamic gas. *)
Definition op_valid (o : operation) : bool := match memorySize o, dynamicGas o with Some _, None => false | _, _ => true end.
Definition validate (jt : JumpTable) : option JumpTable := if forallb op_valid jt then Some jt else None.

Section tables.
Context `{!Uint256} `{!Keccak} `{!Database} `{!ElaLib} `{!Codec} `{!SpvLib} `{!EvmEnv} `{!Rules} `{!BlockEnv}.
Context (readOnly : bool).

Definition undefined_op : operation := op_ opUndefined 0 None 0 (maxStack 0 0) None.

(** The families of op-codes, by their number. *)
Definition push_ops : list (Z * operation) :=
  (fun n => (PUSH1 + n - 1, op_ (makePush n n) GasFastestStep None (minStack 0 1) (maxStack 0 1) None)) <$> seqZ 2 31.
Definition dup_ops : list (Z * operation) :=
  (fun n => (DUP1 + n - 1, op_ (makeDup (Z.to_nat n)) GasFastestStep None (minDupStack n) (maxDupStack n) None)) <$> seqZ 1 16.
Definition swap_ops : list (Z * operation) :=
  (fun n => (SWAP1 + n - 1, op_ (makeSwap (Z.to_nat n)) GasFastestStep None (minSwapStack (n + 1)) (maxSwapStack (n + 1)) None)) <$> seqZ 1 16.
Definition log_ops : list (Z * operation) :=
  (fun n => (LOG0 + n, op_ (makeLog readOnly (Z.to_nat n)) 0 (Some (makeGasLog n)) (minStack (n + 2) 0) (maxStack (n + 2) 0)
     (Some memoryLog))) <$> seqZ 0 5.

Definition arithmetic_ops : list (Z * operation) :=
  [(STOP, op_ opStop 0 None (minStack 0 0) (maxStack 0 0) None);
   (ADD, op_ opAdd GasFastestStep None (minStack 2 1) (maxStack 2 1) None);
   (MUL, op_ opMul GasFastStep None (minStack 2 1) (maxStack 2 1) None);
   (SUB, op_ opSub GasFastestStep None (minStack 2 1) (maxStack 2 1) None);
   (DIV, op_ opDiv GasFastStep None (minStack 2 1) (maxStack 2 1) None);
   (SDIV, op_ opSdiv GasFastStep None (minStack 2 1) (maxStack 2 1) None);
   (MOD, op_ opMod GasFastStep None (minStack 2 1) (maxStack 2 1) None);
   (SMOD, op_ opSmod GasFastStep None (minStack 2 1) (maxStack 2 1) None);
   (ADDMOD, op_ opAddmod GasMidStep None (minStack 3 1) (maxStack 3 1) None);
   (MULMOD, op_ opMulmod GasMidStep None (minStack 3 1) (maxStack 3 1) None);
   (EXP, op_ opExp 0 (Some gasExpFrontier) (minStack 2 1) (maxStack 2 1) None);
   (SIGNEXTEND, op_ opSignExtend GasFastStep None (minStack 2 1) (maxStack 2 1) None)].

Definition comparison_ops : list (Z * operation) :=
  [(LT, op_ opLt GasFastestStep None (minStack 2 1) (maxStack 2 1) None);
   (GT, op_ opGt GasFastestStep None (minStack 2 1) (maxStack 2 1) None);
   (SLT, op_ opSlt GasFastestStep None (minStack 2 1) (maxStack 2 1) None);
   (SGT, op_ opSgt GasFastestStep None (minStack 2 1) (maxStack 2 1) None);
   (EQ, op_ opEq GasFastestStep None (minStack 2 1) (maxStack 2 1) None);
   (ISZERO, op_ opIszero GasFastestStep None (minStack 1 1) (maxStack 1 1) None);
   (AND, op_ opAnd GasFastestStep None (minStack 2 1) (maxStack 2 1) None);
   (XOR, op_ opXor GasFastestStep None (minStack 2 1) (maxStack 2 1) None);
   (OR, op_ opOr GasFastestStep None (minStack 2 1) (maxStack 2 1) None);
   (NOT, op_ opNot GasFastestStep None (minStack 1 1) (maxStack 1 1) None);
   (BYTE, op_ opByte GasFastestStep None (minStack 2 1) (maxStack 2 1) None)].

Definition environment_ops : list (Z * operation) :=
  [(KECCAK256, op_ opKeccak256 Keccak256Gas (Some gasKeccak256) (minStack 2 1) (maxStack 2 1) (Some memoryKeccak256));
   (ADDRESS, op_ opAddress GasQuickStep None (minStack 0 1) (maxStack 0 1) None);
   (BALANCE, op_ opBalance BalanceGasFrontier None (minStack 1 1) (maxStack 1 1) None);
   (ORIGIN, op_ opOrigin GasQuickStep None (minStack 0 1) (maxStack 0 1) None);
   (CALLER, op_ opCaller GasQuickStep None (minStack 0 1) (maxStack 0 1) None);
   (CALLVALUE, op_ opCallValue GasQuickStep None (minStack 0 1) (maxStack 0 1) None);
   (CALLDATALOAD, op_ opCallDataLoad GasFastestStep None (minStack 1 1) (maxStack 1 1) None);
   (CALLDATASIZE, op_ opCallDataSize GasQuickStep None (minStack 0 1) (maxStack 0 1) None);
   (CALLDATACOPY, op_ opCallDataCopy GasFastestStep (Some gasCallDataCopy) (minStack 3 0) (maxStack 3 0) (Some memoryCallDataCopy));
   (CODESIZE, op_ opCodeSize GasQuickStep None (minStack 0 1) (maxStack 0 1) None);
   (CODECOPY, op_ opCodeCopy GasFastestStep (Some gasCodeCopy) (minStack 3 0) (maxStack 3 0) (Some memoryCodeCopy));
   (GASPRICE, op_ opGasprice GasQuickStep None (minStack 0 1) (maxStack 0 1) None);
   (EXTCODESIZE, op_ opExtCodeSize ExtcodeSizeGasFrontier None (minStack 1 1) (maxStack 1 1) None);
   (EXTCODECOPY, op_ opExtCodeCopy ExtcodeCopyBaseFrontier (Some gasExtCodeCopy) (minStack 4 0) (maxStack 4 0) (Some memoryExtCodeCopy))].

Definition block_ops : list (Z * operation) :=
  [(BLOCKHASH, op_ opBlockhash GasExtStep None (minStack 1 1) (maxStack 1 1) None);
   (COINBASE, op_ opCoinbase GasQuickStep None (minStack 0 1) (maxStack 0 1) None);
   (TIMESTAMP, op_ opTimestamp GasQuickStep None (minStack 0 1) (maxStack 0 1) None);
   (NUMBER, op_ opNumber GasQuickStep None (minStack 0 1) (maxStack 0 1) None);
   (DIFFICULTY, op_ opDifficulty GasQuickStep None (minStack 0 1) (maxStack 0 1) None);
   (GASLIMIT, op_ opGasLimit GasQuickStep None (minStack 0 1) (maxStack 0 1) None)].

Definition storage_ops : list (Z * operation) :=
  [(POP, op_ opPop GasQuickStep None (minStack 1 0) (maxStack 1 0) None);
   (MLOAD, op_ opMload GasFastestStep (Some gasMLoad) (minStack 1 1) (maxStack 1 1) (Some memoryMLoad));
   (MSTORE, op_ opMstore GasFastestStep (Some gasMStore) (minStack 2 0) (maxStack 2 0) (Some memoryMStore));
   (MSTORE8, op_ opMstore8 GasFastestStep (Some gasMStore8) (minStack 2 0) (maxStack 2 0) (Some memoryMStore8));
   (SLOAD, op_ opSload SloadGasFrontier None (minStack 1 1) (maxStack 1 1) None);
   (SSTORE, op_ (opSstore readOnly) 0 (Some gasSStore) (minStack 2 0) (maxStack 2 0) None);
   (JUMP, op_ opJump GasMidStep None (minStack 1 0) (maxStack 1 0) None);
   (JUMPI, op_ opJumpi GasSlowStep None (minStack 2 0) (maxStack 2 0) None);
   (PC, op_ opPc GasQuickStep None (minStack 0 1) (maxStack 0 1) None);
   (MSIZE, op_ opMsize GasQuickStep None (minStack 0 1) (maxStack 0 1) None);
   (GAS, op_ opGas GasQuickStep None (minStack 0 1) (maxStack 0 1) None);
   (JUMPDEST, op_ opJumpdest JumpdestGas None (minStack 0 0) (maxStack 0 0) None);
   (PUSH1, op_ opPush1 GasFastestStep None (minStack 0 1) (maxStack 0 1) None)].

Definition system_ops : list (Z * operation) :=
  [(CREATE, op_ (opCreate readOnly) CreateGas (Some gasCreate) (minStack 3 1) (maxStack 3 1) (Some memoryCreate));
   (CALL, op_ (opCall readOnly) CallGasFrontier (Some gasCall) (minStack 7 1) (maxStack 7 1) (Some memoryCall));
   (CALLCODE, op_ opCallCode CallGasFrontier (Some gasCallCode) (minStack 7 1) (maxStack 7 1) (Some memoryCall));
   (RETURN, op_ opReturn 0 (Some gasReturn) (minStack 2 0) (maxStack 2 0) (Some memoryReturn));
   (SELFDESTRUCT, op_ (opSelfdestruct readOnly) 0 (Some gasSelfdestruct) (minStack 1 0) (maxStack 1 0) None)].

Definition frontier_ops : list (Z * operation) :=
  arithmetic_ops ++ comparison_ops ++ environment_ops ++ block_ops ++ storage_ops ++ push_ops ++ dup_ops ++ swap_ops ++ log_ops ++ system_ops.

Definition set_ops (l : list (Z * operation)) (jt : JumpTable) : JumpTable := foldr (fun x => set_op x.1 x.2) jt l.

Definition newFrontierInstructionSet : option JumpTable := validate (set_ops frontier_ops (replicate 256 undefined_op)).

Definition newHomesteadInstructionSet : option JumpTable :=
  jt ← newFrontierInstructionSet;
  validate (set_op DELEGATECALL (op_ opDelegateCall CallGasFrontier (Some gasDelegateCall) (minStack 6 1) (maxStack 6 1)
    (Some memoryDelegateCall)) jt).

Definition newTangerineWhistleInstructionSet : option JumpTable :=
  jt ← newHomesteadInstructionSet;
  validate (reprice DELEGATECALL CallGasEIP150 (reprice CALLCODE CallGasEIP150 (reprice CALL CallGasEIP150
    (reprice EXTCODECOPY ExtcodeCopyBaseEIP150 (reprice SLOAD SloadGasEIP150 (reprice EXTCODESIZE ExtcodeSizeGasEIP150
    (reprice BALANCE BalanceGasEIP150 jt))))))).

Definition newSpuriousDragonInstructionSet : option JumpTable :=
  jt ← newTangerineWhistleInstructionSet; validate (meter EXP gasExpEIP158 jt).

Definition byzantium_ops : list (Z * operation) :=
  [(STATICCALL, op_ opStaticCall CallGasEIP150 (Some gasStaticCall) (minStack 6 1) (maxStack 6 1) (Some memoryStaticCall));
   (RETURNDATASIZE, op_ opReturnDataSize GasQuickStep None (minStack 0 1) (maxStack 0 1) None);
   (RETURNDATACOPY, op_ opReturnDataCopy GasFastestStep (Some gasReturnDataCopy) (minStack 3 0) (maxStack 3 0) (Some memoryReturnDataCopy));
   (REVERT, op_ opRevert 0 (Some gasRevert) (minStack 2 0) (maxStack 2 0) (Some memoryRevert))].

Definition newByzantiumInstructionSet : option JumpTable :=
  jt ← newSpuriousDragonInstructionSet; validate (set_ops byzantium_ops jt).

Definition constantinople_ops : list (Z * operation) :=
  [(SHL, op_ opSHL GasFastestStep None (minStack 2 1) (maxStack 2 1) None);
   (SHR, op_ opSHR GasFastestStep None (minStack 2 1) (maxStack 2 1) None);
   (SAR, op_ opSAR GasFastestStep None (minStack 2 1) (maxStack 2 1) None);
   (EXTCODEHASH, op_ opExtCodeHash ExtcodeHashGasConstantinople None (minStack 1 1) (maxStack 1 1) None);
   (CREATE2, op_ (opCreate2 readOnly) Create2Gas (Some gasCreate2) (minStack 4 1) (maxStack 4 1) (Some memoryCreate2))].

Definition newConstantinopleInstructionSet : option JumpTable :=
  jt ← newByzantiumInstructionSet; validate (set_ops constantinople_ops jt).

(** ** [eips.go] *)
Definition enable1344 : JumpTable -> JumpTable :=
  set_op CHAINID (op_ opChainID GasQuickStep None (minStack 0 1) (maxStack 0 1) None).

Definition enable1884 (jt : JumpTable) : JumpTable :=
  set_op SELFBALANCE (op_ opSelfBalance GasFastStep None (minStack 0 1) (maxStack 0 1) None)
    (reprice EXTCODEHASH ExtcodeHashGasEIP1884 (reprice BALANCE BalanceGasEIP1884 (reprice SLOAD SloadGasEIP1884 jt))).

Definition enable2200 (jt : JumpTable) : JumpTable := meter SSTORE gasSStoreEIP2200 (reprice SLOAD SloadGasEIP2200 jt).

(** A constant cost and a gas function. *)
Definition access (i gas : Z) (g : gasFunc) (jt : JumpTable) : JumpTable := meter i g (reprice i gas jt).

Definition enable2929 (jt : JumpTable) : JumpTable :=
  access SELFDESTRUCT SelfdestructGasEIP150 gasSelfdestructEIP2929
  (access DELEGATECALL WarmStorageReadCostEIP2929 gasDelegateCallEIP2929
  (access STATICCALL WarmStorageReadCostEIP2929 gasStaticCallEIP2929
  (access CALLCODE WarmStorageReadCostEIP2929 gasCallCodeEIP2929
  (access CALL WarmStorageReadCostEIP2929 gasCallEIP2929
  (access BALANCE WarmStorageReadCostEIP2929 gasEip2929AccountCheck
  (access EXTCODEHASH WarmStorageReadCostEIP2929 gasEip2929AccountCheck
  (access EXTCODESIZE WarmStorageReadCostEIP2929 gasEip2929AccountCheck
  (access EXTCODECOPY WarmStorageReadCostEIP2929 gasExtCodeCopyEIP2929
  (access SLOAD 0 gasSLoadEIP2929
  (meter SSTORE gasSStoreEIP2929 jt)))))))))).

Definition enable3529 (jt : JumpTable) : JumpTable := meter SELFDESTRUCT gasSelfdestructEIP3529 (meter SSTORE gasSStoreEIP3529 jt).

Definition enable3198 : JumpTable -> JumpTable :=
  set_op BASEFEE (op_ opBaseFee GasQuickStep None (minStack 0 1) (maxStack 0 1) None).

Definition enable1153 (jt : JumpTable) : JumpTable :=
  set_op TSTORE (op_ (opTstore readOnly) WarmStorageReadCostEIP2929 None (minStack 2 0) (maxStack 2 0) None)
    (set_op TLOAD (op_ opTload WarmStorageReadCostEIP2929 None (minStack 1 1) (maxStack 1 1) None) jt).

Definition enable3855 : JumpTable -> JumpTable := set_op PUSH0 (op_ opPush0 GasQuickStep None (minStack 0 1) (maxStack 0 1) None).

Definition enable3860 (jt : JumpTable) : JumpTable := meter CREATE2 gasCreate2Eip3860 (meter CREATE gasCreateEip3860 jt).

(** ** The later sets *)
Definition newIstanbulInstructionSet : option JumpTable :=
  jt ← newConstantinopleInstructionSet; validate (enable2200 (enable1884 (enable1344 jt))).
Definition newBerlinInstructionSet : option JumpTable := jt ← newIstanbulInstructionSet; validate (enable2929 jt).
Definition newLondonInstructionSet : option JumpTable := jt ← newBerlinInstructionSet; validate (enable3198 (enable3529 jt)).
Definition newMergeInstructionSet : option JumpTable :=
  jt ← newLondonInstructionSet;
  validate (set_op PREVRANDAO (op_ opRandom GasQuickStep None (minStack 0 1) (maxStack 0 1) None) jt).
Definition newShanghaiInstructionSet : option JumpTable := jt ← newMergeInstructionSet; validate (enable3860 (enable3855 jt)).

(** [NewEVMInterpreter]: the set of the block's rules. *)
Definition fork_table : option JumpTable :=
  if IsShanghai then newShanghaiInstructionSet
  else if IsMerge then newMergeInstructionSet
  else if IsLondon then newLondonInstructionSet
  else if IsBerlin then newBerlinInstructionSet
  else if IsIstanbul then newIstanbulInstructionSet
  else if IsConstantinople then newConstantinopleInstructionSet
  else if IsByzantium then newByzantiumInstructionSet
  else if IsEIP158 then newSpuriousDragonInstructionSet
  else if IsEIP150 then newTangerineWhistleInstructionSet
  else if IsHomestead then newHomesteadInstructionSet
  else newFrontierInstructionSet.

(** [EnableEIP]: the table with the change, if it is known. *)
Definition EnableEIP (eipNum : Z) (jt : JumpTable) : option JumpTable :=
  if eipNum =? 3855 then Some (enable3855 jt) else if eipNum =? 3860 then Some (enable3860 jt)
  else if eipNum =? 3529 then Some (enable3529 jt) else if eipNum =? 3198 then Some (enable3198 jt)
  else if eipNum =? 2929 then Some (enable2929 jt) else if eipNum =? 2200 then Some (enable2200 jt)
  else if eipNum =? 1884 then Some (enable1884 jt) else if eipNum =? 1344 then Some (enable1344 jt)
  else if eipNum =? 1153 then Some (enable1153 jt) else None.

(** The loop over [cfg.ExtraEips].  An unknown number is removed by moving the
    rest of the array [eips] forward while the loop goes on over it; [n] is the
    length of the list that is left. *)
Fixpoint enable_eips (rounds i : nat) (eips : list Z) (n : nat) (jt : JumpTable) : option JumpTable :=
  match rounds with
  | O => Some jt
  | S rounds =>
      eip ← eips !! i;
      match EnableEIP eip jt with
      | Some jt => enable_eips rounds (S i) eips n jt
      | None =>
          if (n <? S i)%nat then None
          else enable_eips rounds (S i) (take i eips ++ take (n - S i) (drop (S i) eips) ++ drop (n - 1) eips) (n - 1) jt
      end
  end.

Definition NewEVMInterpreter (ExtraEips : list Z) : option JumpTable :=
  jt ← fork_table; enable_eips (length ExtraEips) 0 ExtraEips (length ExtraEips) jt.
End tables.
