(* ===== verification/Interpreter.v ===== *)
(** * [core/vm/interpreter.go]: the loop of the interpreter

    [Run] executes the code of a contract operation by operation: it checks the
    stack, charges the constant and the dynamic cost, expands the memory and
    executes, until an operation ends the run.  [evm] closes the knot: its calls
    run this interpreter one level deeper.

    A round of the loop that goes on costs gas, so the loop is given more rounds
    than there is gas.  The depth of calls is bounded by [CallCreateDepth]. *)
From S2P Require Import Prelude Ela Messages Rlp Header Common AccessList StateDB StateSpec StateRefine Withdraw SmallCross Recharge Evm EvmMachine EvmGas EvmInstr EvmTable.

(** The numbers in the messages are left out. *)
Definition ErrStackUnderflow : string := "stack underflow".
Definition ErrStackOverflow : string := "stack limit reached".

(** At most [2 ^ n] rounds of [step]. *)
Fixpoint rounds {A R} (n : nat) (step : A -> option (A + R)) (a : A) : option (A + R) :=
  match n with
  | O => step a
  | S n => match rounds n step a with Some (inl a) => rounds n step a | r => r end
  end.

(** A round of the loop: the result if the run ends. *)
Definition Round := M (option (bytes * error)).
Definition ends (ret : bytes) (e : string) : Round := retM (Some (ret, New e)).

(** The memory size an operation asks for, in bytes of whole words. *)
Definition memory_size (o : operation) : Cost :=
  match memorySize o with
  | None => cost 0
  | Some size =>
      let* (memSize, overflow) := size in
      if overflow : bool then fail ErrGasUintOverflow else checked (SafeMul (toWordSize memSize) 32)
  end.

(** The dynamic cost and the expansion of the memory: the error, if any. *)
Definition charge (o : operation) : M error :=
  match dynamicGas o with
  | None => retM nil_err
  | Some gas =>
      let* size := memory_size o in
      match size with
      | inr e => retM (New e)
      | inl size =>
          let* dynamicCost := gas size in
          match dynamicCost with
          | inr _ => retM (New ErrOutOfGas)
          | inl dynamicCost =>
              let* paid := use_gas dynamicCost in
              if negb paid then retM (New ErrOutOfGas)
              else modify (fun f => if 0 <? size then f <| mem := Resize size (mem f) |> else f);;; retM nil_err
          end
      end
  end.

Definition exec_round (o : operation) : Round :=
  let* (res, err) := execute o in
  match err with
  | Some _ => retM (Some (res, err))
  | None => modify (fun f => f <| pc := u64 (pc f + 1) |>);;; retM None
  end.

Definition round (jt : JumpTable) : Round :=
  let* o := lift (fun f => jt !! Z.to_nat (GetOp (pc f) (contract f))) in
  let* sLen := gets (fun f => zlen (stack f)) in
  if sLen <? min_stack o then ends [] ErrStackUnderflow
  else if max_stack o <? sLen then ends [] ErrStackOverflow
  else
    let* paid := use_gas (constantGas o) in
    if negb paid then ends [] ErrOutOfGas
    else
      let* err := charge o in
      match err with Some e => ends [] e | None => exec_round o end.

Definition round_step (jt : JumpTable) (f : Frame) : option (Frame + bytes * error * Frame) :=
  match round jt f with
  | None => None
  | Some (None, f) => Some (inl f)
  | Some (Some (ret, err), f) => Some (inr (ret, err, f))
  end.

Definition new_frame (c : Contract) (input : bytes) (vm : Vm) : Frame := {|
  pc := 0; stack := []; mem := NewMemory; contract := c; Input := input; analysis := None; jumpdests := ∅;
  internalCallTable := []; returnData := []; callGasTemp := 0; machine := vm
|}.

(** The stop token is no error. *)
Definition clear_stop (err : error) : error := if bool_decide (err = New errStopToken) then nil_err else err.

Definition Run (jt : JumpTable) (c : Contract) (input : bytes) (vm : Vm) : option (bytes * Z * error * Vm) :=
  if zlen (contract_Code c) =? 0 then Some ([], contract_Gas c, nil_err, vm)
  else
    match rounds (Z.to_nat (Z.log2 (contract_Gas c) + 1)) (round_step jt) (new_frame c input vm) with
    | Some (inr (ret, err, f)) => Some (ret, contract_Gas (contract f), clear_stop err, machine f)
    | _ => None
    end.

(** ** The machine

    [evm n depth readOnly]: the machine at a depth of calls, whose interpreter is
    read-only or not; [n] bounds the further depth. *)
Section knot.
Context `{!Uint256} `{!Keccak} `{!Database} `{!ElaLib} `{!Codec} `{!SpvLib} `{!Rules} `{!BlockEnv}.
(** The rules, the configuration and the precompiled contracts; its interpreter is
    not used. *)
Context (base : EvmEnv) (ExtraEips : list Z).

Definition with_run (run : Contract -> bytes -> bool -> Vm -> option (bytes * Z * error * Vm)) (depth : Z) : EvmEnv := {|
  precompile := @precompile base; interpreter_Run := run;
  IsHomestead := @IsHomestead base; IsEIP158 := @IsEIP158 base; IsBerlin := @IsBerlin base; IsLondon := @IsLondon base;
  BlackContractAddr := @BlackContractAddr base; evm_BlockNumber := @evm_BlockNumber base; evm_depth := depth;
  withdraw_client := @withdraw_client base; withdraw_arbiters := @withdraw_arbiters base;
  GetWithdrawTxValue := @GetWithdrawTxValue base; GetRefundEventHash := @GetRefundEventHash base
|}.

(** [Run] increments the depth, and a read-only run stays read-only in its calls. *)
Fixpoint evm (n : nat) (depth : Z) (inReadOnly : bool) : EvmEnv :=
  with_run (fun c input ro vm =>
    match n with
    | O => None
    | S n =>
        let readOnly := inReadOnly || ro in
        jt ← @NewEVMInterpreter _ _ _ _ _ _ (evm n (depth + 1) readOnly) _ _ readOnly ExtraEips;
        Run jt c input vm
    end) depth.

(** The machine of a transaction. *)
Definition new_EVM : EvmEnv := evm 1026 0 false.
End knot.
