(* ===== verification/EvmSound.v ===== *)
(** * The operations of the machine are sound

    What the loop of the interpreter relies on of an operation: with the stack it
    asks for and the memory it has paid for it does not panic, it takes and leaves
    the announced number of words, and it gives back no more gas than was charged.
    [T] says whether panics are to be excluded ([False]) or not ([True]). *)
From S2P Require Import Prelude Ela Messages Rlp Header Common AccessList StateDB StateSpec StateRefine Withdraw SmallCross Recharge Evm EvmMachine EvmGas EvmInstr EvmTable.

(** ** Reasoning about effects *)
Section wp.
Context (T : Prop).

Definition wp {A} (m : M A) (Q : A -> Frame -> Prop) (f : Frame) : Prop := match m f with None => T | Some (a, f) => Q a f end.

Lemma wp_bind {A B} (m : M A) (k : A -> M B) Q f : wp m (fun a => wp (k a) Q) f -> wp (bindM m k) Q f.
Proof. unfold wp, bindM. by destruct (m f) as [[a f']|]. Qed.
Lemma wp_mono {A} (m : M A) (Q R : A -> Frame -> Prop) f : wp m Q f -> (forall a f, Q a f -> R a f) -> wp m R f.
Proof. unfold wp. destruct (m f) as [[a f']|]; auto. Qed.
Lemma wp_thenC m k Q f : wp m (fun r f => match r with inl g => wp (k g) Q f | inr e => Q (inr e) f end) f -> wp (thenC m k) Q f.
Proof. intros H. apply wp_bind. eapply wp_mono; [exact H|]. by intros [g|e] f'. Qed.

Lemma wp_ret {A} (a : A) Q f : Q a f -> wp (retM a) Q f.
Proof. done. Qed.
Lemma wp_gets {A} (p : Frame -> A) Q f : Q (p f) f -> wp (gets p) Q f.
Proof. done. Qed.
Lemma wp_modify g Q f : Q tt (g f) -> wp (modify g) Q f.
Proof. done. Qed.
Lemma wp_lift {A} (o : Frame -> option A) a Q f : o f = Some a -> Q a f -> wp (lift o) Q f.
Proof. intros E H. unfold wp, lift. by rewrite E. Qed.
Lemma wp_panic {A} (Q : A -> Frame -> Prop) f : T -> wp (lift (fun _ => None)) Q f.
Proof. done. Qed.
Lemma wp_pop x st Q f : stack f = x :: st -> Q x (f <| stack := st |>) -> wp pop Q f.
Proof. intros E H. unfold wp, pop. by rewrite E. Qed.
Lemma wp_peek x st Q f : stack f = x :: st -> Q x f -> wp peek Q f.
Proof. intros E H. unfold peek. apply (wp_lift _ x); [by rewrite E|done]. Qed.
Lemma wp_set_top y x st Q f : stack f = x :: st -> Q tt (f <| stack := y :: st |>) -> wp (set_top y) Q f.
Proof. intros E H. unfold set_top, wp, bindM, pop, modify. rewrite E. by destruct f. Qed.
Lemma wp_back n x Q f : stack f !! n = Some x -> Q x f -> wp (back n) Q f.
Proof. intros E H. unfold back. by apply (wp_lift _ x). Qed.
Lemma wp_on_mem g m Q f : g (mem f) = Some m -> Q tt (f <| mem := m |>) -> wp (on_mem g) Q f.
Proof. intros E H. unfold wp, on_mem. by rewrite E. Qed.
Lemma wp_try g s Q f : g (vm_state (machine f)) = Some s -> Q tt (f <| machine := on_state (fun _ => s) (machine f) |>) -> wp (try g) Q f.
Proof. intros E H. unfold wp, try. by rewrite E. Qed.
Lemma wp_use_gas g Q f :
  (contract_Gas (contract f) < g -> Q false f) ->
  (g <= contract_Gas (contract f) -> Q true (f <| contract := (contract f) <| contract_Gas := contract_Gas (contract f) - g |> |>)) ->
  wp (use_gas g) Q f.
Proof.
  intros H1 H2. unfold wp, use_gas, UseGas. destruct (Z.ltb_spec (contract_Gas (contract f)) g) as [Hg|Hg]; [|by apply H2].
  assert (E : f <| contract := contract f |> = f) by by destruct f. rewrite E. by apply H1.
Qed.
End wp.

(** [wp_step] runs one effect. *)
Ltac wp_step :=
  match goal with
  | |- wp _ (bindM _ _) _ _ => apply wp_bind
  | |- wp _ (thenC _ _) _ _ => apply wp_thenC
  | |- wp _ (cost _) _ _ => apply wp_ret
  | |- wp _ (fail _) _ _ => apply wp_ret
  | |- wp _ (retM _) _ _ => apply wp_ret
  | |- wp _ next_op _ _ => apply wp_ret
  | |- wp _ (stop_with _) _ _ => apply wp_ret
  | |- wp _ (gets _) _ _ => apply wp_gets
  | |- wp _ self _ _ => apply wp_gets
  | |- wp _ gas_left _ _ => apply wp_gets
  | |- wp _ (ask _) _ _ => apply wp_gets
  | |- wp _ (modify _) _ _ => apply wp_modify
  | |- wp _ (tell _) _ _ => apply wp_modify
  | |- wp _ (push _) _ _ => apply wp_modify
  | |- wp _ (return_gas _) _ _ => apply wp_modify
  | |- wp _ pop _ _ => eapply wp_pop; [reflexivity|]
  | |- wp _ peek _ _ => eapply wp_peek; [reflexivity|]
  | |- wp _ (set_top _) _ _ => eapply wp_set_top; [reflexivity|]
  | |- wp _ (back _) _ _ => eapply wp_back; [reflexivity|]
  end.

(** ** The memory and its price *)
Definition mem_limit : Z := 137438953440.
Definition fee (w : Z) : Z := 3 * w + w * w / 512.

(** Whole words, paid for. *)
Record mem_ok (m : Memory) : Prop := {
  mem_words : Len m mod 32 = 0;
  mem_small : Len m <= mem_limit;
  mem_paid : lastGasCost m = fee (Len m / 32)
}.

Lemma Len_nonneg m : 0 <= Len m.
Proof. unfold Len, zlen. lia. Qed.

Lemma fee_mono a b : 0 <= a <= b -> 0 <= fee a <= fee b.
Proof. intros H. unfold fee. assert (a * a <= b * b) by nia. assert (0 <= a * a) by nia. split; div_lia. Qed.

Lemma fee_small w : 0 <= w <= mem_limit / 32 -> fee w < 2 ^ 56.
Proof. intros H. unfold fee, mem_limit in *. assert (w <= 4294967295) by div_lia. assert (w * w <= 4294967295 * 4294967295) by nia. div_lia. Qed.

(** The frame after the memory has been paid for up to [size]. *)
Definition paid (size : Z) (f : Frame) : Frame :=
  f <| mem := (mem f) <| lastGasCost := fee (Z.max (Len (mem f)) size / 32) |> |>.

Lemma paid_zero f : mem_ok (mem f) -> paid 0 f = f.
Proof.
  intros [_ _ Hp]. unfold paid. pose proof (Len_nonneg (mem f)). rewrite Z.max_l, <- Hp by lia. by destruct f as [? ? []].
Qed.

Lemma toWordSize_exact size : 0 <= size <= mem_limit -> size mod 32 = 0 -> toWordSize size = size / 32.
Proof. intros H Hm. unfold toWordSize, MaxUint64, mem_limit in *. destruct (Z.ltb_spec (2 ^ 64 - 1 - 31) size); div_lia. Qed.

Section cost.
Context (T : Prop).

Lemma wp_memoryGasCost size Q f :
  mem_ok (mem f) -> 0 <= size -> size mod 32 = 0 ->
  (forall e, Q (inr e) f) ->
  (forall g, size <= mem_limit -> 0 <= g < 2 ^ 56 -> g = fee (Z.max (Len (mem f)) size / 32) - fee (Len (mem f) / 32) -> Q (inl g) (paid size f)) ->
  wp T (memoryGasCost size) Q f.
Proof.
  intros Hok Hs Hm He Hg. pose proof (Len_nonneg (mem f)) as Hl. unfold memoryGasCost.
  assert (H0 : size <= Len (mem f) -> paid size f = f).
  { intros Hc. rewrite <- (paid_zero f Hok) at 2. unfold paid. by rewrite !Z.max_l by lia. }
  assert (Hno : size <= mem_limit -> size <= Len (mem f) -> Q (inl 0) f).
  { intros Hsm Hc. rewrite <- (H0 Hc). apply Hg; [done|lia|]. rewrite Z.max_l by lia. by rewrite Z.sub_diag. }
  destruct (Z.eqb_spec size 0) as [->|Hne]; [apply wp_ret, Hno; unfold mem_limit; lia|].
  destruct (Z.ltb_spec 137438953440 size) as [Hb|Hb]; [by apply wp_ret|]. fold mem_limit in Hb.
  rewrite (toWordSize_exact size) by done. apply wp_bind, wp_gets.
  assert (E : size / 32 * 32 = size) by div_lia. rewrite E. unfold u64 at 1. rewrite Z.mod_small by (unfold mem_limit in Hb; lia).
  destruct (Z.ltb_spec (Len (mem f)) size) as [Hc|Hc]; [|by apply wp_ret, Hno]. repeat wp_step.
  set (w := size / 32) in *. assert (Hw : 0 <= w <= mem_limit / 32) by (subst w; div_lia). pose proof (fee_small w Hw) as Hfs.
  assert (Hw' : w <= 4294967295) by (unfold mem_limit in Hw; div_lia). assert (Hsq : w * w <= 4294967295 * 4294967295) by nia.
  assert (Et : u64 (u64 (w * MemoryGas) + u64 (w * w) / QuadCoeffDiv) = fee w).
  { unfold u64, MemoryGas, QuadCoeffDiv. rewrite (Z.mod_small (w * 3)), (Z.mod_small (w * w)) by nia.
    replace (w * 3 + w * w / 512) with (fee w) by (unfold fee; lia). apply Z.mod_small. unfold fee in *. div_lia. }
  rewrite Et. assert (Hf : paid size f = f <| mem := (mem f) <| lastGasCost := fee w |> |>) by (unfold paid; by rewrite Z.max_r by lia).
  rewrite <- Hf. assert (Hfee : 0 <= fee (Len (mem f) / 32) <= fee w) by (apply fee_mono; subst w; div_lia).
  rewrite (mem_paid _ Hok). unfold u64. rewrite Z.mod_small by lia. apply Hg; [done|lia|]. by rewrite Z.max_r by lia.
Qed.

Lemma wp_checked r Q f : (forall e, Q (inr e) f) -> (snd r = false -> Q (inl (fst r)) f) -> wp T (checked r) Q f.
Proof. intros He Hg. destruct r as [x []]; [apply He|by apply Hg]. Qed.

Lemma wp_SafeAdd x y Q f :
  0 <= x -> 0 <= y -> (forall e, Q (inr e) f) -> (x + y < 2 ^ 64 -> Q (inl (x + y)) f) -> wp T (checked (SafeAdd x y)) Q f.
Proof.
  intros Hx Hy He Hg. apply wp_checked; [done|]. cbn [SafeAdd fst snd]. intros Ho. unfold MaxUint64 in Ho. apply Z.ltb_ge in Ho.
  unfold u64. rewrite Z.mod_small by lia. apply Hg. lia.
Qed.

Lemma wp_SafeMul x y Q f :
  0 <= x -> 0 <= y -> (forall e, Q (inr e) f) -> (x * y < 2 ^ 64 -> Q (inl (x * y)) f) -> wp T (checked (SafeMul x y)) Q f.
Proof.
  intros Hx Hy He Hg. unfold SafeMul. destruct (Z.eqb_spec x 0) as [->|Hx0]; [by apply Hg|]. destruct (Z.eqb_spec y 0) as [->|Hy0].
  { rewrite Z.mul_0_r in Hg. by apply Hg. }
  cbn [orb]. apply wp_checked; [done|]. cbn [fst snd]. intros Ho. unfold MaxUint64 in Ho. apply Z.ltb_ge in Ho.
  assert (x * y <= 2 ^ 64 - 1). { etrans; [apply Z.mul_le_mono_nonneg_l; [done|exact Ho]|]. apply Z.mul_div_le. lia. }
  unfold u64. rewrite Z.mod_small by nia. apply Hg. lia.
Qed.
End cost.

(** ** Frames *)
Section frames.
Context `{!Keccak} `{!Database} `{!Zone}.

Record inv (f : Frame) : Prop := {
  inv_gas : 0 <= contract_Gas (contract f);
  inv_words : Forall word (stack f);
  inv_mem : mem_ok (mem f);
  inv_good : zgood (vm_state (machine f));
  inv_caches : caches_ok f;
  inv_pc : 0 <= pc f;
  inv_temp : 0 <= callGasTemp f;
  inv_self : zone -> contract_self (contract f) <> 0
}.

(** The run may end here: the state was acted on, and no gas was made. *)
Definition ended (f f' : Frame) : Prop :=
  zacts (vm_state (machine f)) (vm_state (machine f')) /\ 0 <= contract_Gas (contract f') <= contract_Gas (contract f).

(** What a gas function changes. *)
Record priced (f : Frame) (size : Z) (f' : Frame) : Prop := {
  pr_frame : f' = paid size f <| contract := contract f' |> <| callGasTemp := callGasTemp f' |> <| machine := machine f' |>;
  pr_contract : contract f' = (contract f) <| contract_Gas := contract_Gas (contract f') |>;
  pr_gas : 0 <= contract_Gas (contract f') <= contract_Gas (contract f);
  pr_size : size <= mem_limit;
  pr_temp : 0 <= callGasTemp f';
  pr_acts : zacts (vm_state (machine f)) (vm_state (machine f'))
}.

Lemma priced_stack f size f' : priced f size f' -> stack f' = stack f.
Proof. intros Hp. rewrite (pr_frame _ _ _ Hp). by destruct f. Qed.

Lemma priced_self f size f' : priced f size f' -> contract_self (contract f') = contract_self (contract f).
Proof. intros Hp. rewrite (pr_contract _ _ _ Hp). done. Qed.

Lemma priced_ended f size f' : priced f size f' -> ended f f'.
Proof. intros Hp. split; apply Hp. Qed.

Lemma priced_paid f size : inv f -> size <= mem_limit -> priced f size (paid size f).
Proof.
  intros Hi Hs. split; try done; try apply zacts_refl.
  - by destruct f as [? ? ? []].
  - destruct Hi, f; cbn in *; lia.
  - apply Hi.
Qed.

Lemma priced_refl f : inv f -> priced f 0 f.
Proof.
  intros Hi. pose proof (priced_paid f 0 Hi) as Hp. rewrite paid_zero in Hp by apply Hi. apply Hp. unfold mem_limit. lia.
Qed.

Lemma priced_good f size f' : inv f -> priced f size f' -> zgood (vm_state (machine f')).
Proof. intros Hi Hp. eapply zacts_good; [apply Hi|apply Hp]. Qed.

Lemma priced_temp f size f' t : 0 <= t -> priced f size f' -> priced f size (f' <| callGasTemp := t |>).
Proof. intros Ht [Hf Hc Hg Hs Hp Ha]. split; try done. rewrite Hf. by destruct f. Qed.

Lemma priced_state f size f' vm :
  inv f -> priced f size f' -> zacts (vm_state (machine f')) (vm_state vm) -> priced f size (f' <| machine := vm |>).
Proof.
  intros Hi Hp Ha. pose proof (zacts_trans _ _ _ (inv_good f Hi) (pr_acts _ _ _ Hp) Ha) as Ha'. destruct Hp as [Hf Hc Hg Hs Hp _].
  split; try done. rewrite Hf. by destruct f.
Qed.

Lemma priced_gas f size f' g :
  priced f size f' -> 0 <= g <= contract_Gas (contract f) -> priced f size (f' <| contract := (contract f') <| contract_Gas := g |> |>).
Proof.
  intros [Hf Hc Hg Hs Hp Ha] Hg'. split; try done.
  - rewrite Hf. by destruct f.
  - cbn. rewrite Hc. by destruct (contract f).
Qed.
End frames.
#[export] Hint Resolve priced_ended : evm.

(** ** Gas functions *)

(** Operations that go on, that always end the run, and that call: the last get
    the gas [callGasTemp], and a stipend if the word at the index is not zero. *)
Inductive kind := Plain | Halt | Calls (value : option nat).

Definition stipend (value : option nat) (f : Frame) : Z :=
  match value with Some i => if default 0 (stack f !! i) =? 0 then 0 else CallStipend | None => 0 end.

Definition bonus (k : kind) (f : Frame) : Z := match k with Calls value => callGasTemp f + stipend value f | _ => 0 end.

Section gas_functions.
Context `{!Uint256} `{!Uint256Laws} `{!Keccak} `{!Database} `{!Zone} `{!EvmEnv} `{!Rules} (T : Prop).

(** With [pops] words on the stack, a cost of at least [d] and what the operation
    gives back; [has_mem] if a memory size is asked for. *)
Definition gas_ok (has_mem : bool) (pops : nat) (k : kind) (d : Z) (g : gasFunc) : Prop := forall size f,
  inv f -> (pops <= length (stack f))%nat -> 0 <= size -> size mod 32 = 0 -> (has_mem = false -> size = 0) ->
  wp T (g size) (fun r f' => match r with inr _ => ended f f' | inl c => 0 <= c /\ priced f size f' /\ d + bonus k f' <= c end) f.

Lemma stack_at f n : inv f -> (n < length (stack f))%nat -> exists x, stack f !! n = Some x /\ word x.
Proof.
  intros Hi Hn. destruct (lookup_lt_is_Some_2 _ _ Hn) as [x Hx]. exists x. split; [done|]. eapply Forall_lookup_1; [apply Hi|exact Hx].
Qed.

Lemma stack_priced f n f' size : inv f -> priced f size f' -> (n < length (stack f))%nat -> exists x, stack f' !! n = Some x /\ word x.
Proof. intros Hi Hp. rewrite (priced_stack _ _ _ Hp). by apply stack_at. Qed.

Lemma wp_operand x Q f :
  word x -> (forall e, Q (inr e) f) -> (0 <= x < 2 ^ 64 -> Q (inl x) f) -> wp T (checked (Uint64WithOverflow x)) Q f.
Proof.
  intros Hw He Hg. unfold Uint64WithOverflow. destruct (u_tests x Hw) as (_ & _ & _ & -> & ->). apply wp_checked; [done|]. cbn [fst snd].
  intros Ho. apply negb_false_iff, Z.ltb_lt in Ho. unfold word in Hw. unfold u64. rewrite Z.mod_small by lia. apply Hg. lia.
Qed.

Lemma toWordSize_nonneg x : 0 <= x -> 0 <= toWordSize x.
Proof. intros Hx. unfold toWordSize, MaxUint64. destruct (_ <? _); div_lia. Qed.

(** After the memory has been paid for. *)
Lemma wp_memory size Q f :
  inv f -> 0 <= size -> size mod 32 = 0 -> (forall e, Q (inr e) f) ->
  (forall g f', 0 <= g < 2 ^ 56 -> priced f size f' -> Q (inl g) f') -> wp T (memoryGasCost size) Q f.
Proof.
  intros Hi Hs Hm He Hg. apply wp_memoryGasCost; [apply Hi|done|done|done|]. intros g Hl Hb _. apply Hg; [done|]. by apply priced_paid.
Qed.

Lemma ended_refl f : inv f -> ended f f.
Proof. intros Hi. split; [apply zacts_refl|]. split; [apply Hi|done]. Qed.
#[local] Hint Resolve ended_refl priced_refl : evm.

Lemma memoryCopierGas_ok n : gas_ok true (S n) Plain 0 (memoryCopierGas n).
Proof.
  intros size f Hi Hl Hs Hm _. unfold memoryCopierGas. wp_step. apply wp_memory; auto with evm. intros g f1 Hg Hp.
  destruct (stack_priced f n f1 size Hi Hp) as (x & Hx & Hw); [lia|]. wp_step. eapply wp_back; [exact Hx|]. wp_step.
  apply wp_operand; eauto with evm. intros Hx64. wp_step. apply wp_SafeMul; [apply toWordSize_nonneg; lia|done|eauto with evm|]. intros _.
  pose proof (toWordSize_nonneg x ltac:(lia)). unfold CopyGas. apply wp_SafeAdd; [lia|lia|eauto with evm|]. intros _. cbn. split; [lia|]. split; [done|lia].
Qed.

Lemma pureMemory_ok pops : gas_ok true pops Plain 0 pureMemoryGascost.
Proof.
  intros size f Hi Hl Hs Hm _. unfold pureMemoryGascost. apply wp_memory; auto with evm. intros g f1 Hg Hp. cbn. split; [lia|]. split; [done|lia].
Qed.

Lemma halt_ok has_mem pops d g : d <= 0 -> gas_ok has_mem pops Plain 0 g -> gas_ok has_mem pops Halt d g.
Proof.
  intros Hd Hg size f Hi Hl Hs Hm Hz. eapply wp_mono; [by apply Hg|]. intros [c|e] f'; [|done]. cbn. intros (? & ? & ?). split; [done|]. split; [done|lia].
Qed.

Lemma word_gas_ok n : gas_ok true (S n) Plain 0 (word_gas n).
Proof.
  intros size f Hi Hl Hs Hm _. unfold word_gas. wp_step. apply wp_memory; auto with evm. intros g f1 Hg Hp.
  destruct (stack_priced f n f1 size Hi Hp) as (x & Hx & Hw); [lia|]. wp_step. eapply wp_back; [exact Hx|]. wp_step.
  apply wp_operand; eauto with evm. intros Hx64. wp_step. apply wp_SafeMul; [apply toWordSize_nonneg; lia|done|eauto with evm|]. intros _.
  pose proof (toWordSize_nonneg x ltac:(lia)). unfold Keccak256WordGas. apply wp_SafeAdd; [lia|lia|eauto with evm|]. intros _. cbn. split; [lia|]. split; [done|lia].
Qed.

Lemma init_code_gas_ok n : 0 <= n -> gas_ok true 3 Plain 0 (init_code_gas n).
Proof.
  intros Hn size f Hi Hl Hs Hm _. unfold init_code_gas. wp_step. apply wp_memory; auto with evm. intros g f1 Hg Hp.
  destruct (stack_priced f 2 f1 size Hi Hp) as (x & Hx & Hw); [lia|]. wp_step. eapply wp_back; [exact Hx|].
  unfold Uint64WithOverflow. destruct (u_tests x Hw) as (_ & _ & _ & -> & ->). destruct (_ || _); [wp_step; by eauto with evm|].
  assert (0 <= u64 x) by (unfold u64; div_lia). apply wp_SafeAdd; [lia|apply Z.mul_nonneg_nonneg; [lia|div_lia]|eauto with evm|].
  intros _. cbn. split; [|split; [done|]]; assert (0 <= n * ((u64 x + 31) / 32)) by (apply Z.mul_nonneg_nonneg; [lia|div_lia]); lia.
Qed.

Lemma makeGasLog_ok n pops : 0 <= n -> (2 <= pops)%nat -> gas_ok true pops Plain 1 (makeGasLog n).
Proof.
  intros Hn Hpops size f Hi Hl Hs Hm _. unfold makeGasLog. destruct (stack_at f 1 Hi) as (x & Hx & Hw); [lia|]. wp_step.
  eapply wp_back; [exact Hx|]. wp_step. apply wp_operand; eauto with evm. intros Hx64. wp_step. apply wp_memory; auto with evm. intros g f1 Hg Hp.
  assert (Ht : 0 <= u64 (n * LogTopicGas)) by (unfold u64; div_lia). unfold LogGas, LogDataGas.
  repeat (wp_step; first [apply wp_SafeAdd|apply wp_SafeMul]; [lia|lia|eauto with evm|intros _]).
  apply wp_SafeAdd; [lia|lia|eauto with evm|]. intros _. cbn. split; [lia|]. split; [done|lia].
Qed.

Lemma exp_gas_ok n pops : 0 <= n -> (2 <= pops)%nat -> gas_ok false pops Plain 1 (exp_gas n).
Proof.
  intros Hn Hpops size f Hi Hl Hs Hm Hz. rewrite (Hz eq_refl). unfold exp_gas. destruct (stack_at f 1 Hi) as (x & Hx & Hw); [lia|]. wp_step.
  eapply wp_back; [exact Hx|]. apply wp_SafeAdd; [unfold u64; div_lia|done|eauto with evm|]. intros _. unfold ExpGas.
  assert (0 <= u64 ((u_BitLen x + 7) / 8 * n)) by (unfold u64; div_lia). cbn. split; [lia|]. split; [auto with evm|lia].
Qed.

(** *** Gas functions that change the state *)
Lemma AddRefund_zacts g s : zgood s -> zacts s (AddRefund g s).
Proof. intros G. by apply (zacts_op (OAddRefund g)). Qed.

(** A change of the state keeps the rest of the frame. *)
Definition same_price (f1 f2 : Frame) : Prop := contract f2 = contract f1 /\ callGasTemp f2 = callGasTemp f1.

Lemma wp_tell f size g Q f1 :
  inv f -> priced f size f1 -> (zgood (vm_state (machine f1)) -> zacts (vm_state (machine f1)) (g (vm_state (machine f1)))) ->
  (forall f2, priced f size f2 -> same_price f1 f2 -> Q tt f2) -> wp T (tell g) Q f1.
Proof. intros Hi Hp Ha HQ. apply wp_modify, HQ; [apply priced_state; [done|done|]; by eapply Ha, priced_good|by destruct f1]. Qed.

Lemma wp_try_state f size g Q f1 :
  inv f -> priced f size f1 -> (forall s, zgood (vm_state (machine f1)) -> g (vm_state (machine f1)) = Some s -> zacts (vm_state (machine f1)) s) ->
  (g (vm_state (machine f1)) = None -> T) ->
  (forall f2, priced f size f2 -> same_price f1 f2 -> Q tt f2) -> wp T (try g) Q f1.
Proof.
  intros Hi Hp Ha HT HQ. unfold wp, try. destruct (g (vm_state (machine f1))) as [s|] eqn:E; [|by apply HT].
  apply HQ; [|by destruct f1]. apply priced_state; [done|done|]. apply Ha; [by eapply priced_good|done].
Qed.

Lemma wp_if_tell f size (b : bool) g Q f1 :
  inv f -> priced f size f1 -> (forall s, zgood s -> zacts s (g s)) -> (forall f2, priced f size f2 -> same_price f1 f2 -> Q tt f2) ->
  wp T (if b then tell g else retM tt) Q f1.
Proof. intros Hi Hp Ha HQ. destruct b; [apply (wp_tell f size); auto|]. by apply wp_ret, HQ. Qed.

Lemma wp_refund_changed f size original current value clear Q f1 :
  T -> inv f -> priced f size f1 -> (forall f2, priced f size f2 -> same_price f1 f2 -> Q tt f2) ->
  wp T (refund_changed original current value clear) Q f1.
Proof.
  intros HT Hi Hp HQ. unfold refund_changed. destruct (is_zero_hash original); cbn [negb]; [by apply wp_ret, HQ|].
  destruct (is_zero_hash current); [|apply (wp_if_tell f size); auto using AddRefund_zacts].
  apply (wp_try_state f size); auto. intros s G E. by apply (zacts_op (OSubRefund clear)).
Qed.

Lemma wp_refund_reset f size original value a b Q f1 :
  inv f -> priced f size f1 -> (forall f2, priced f size f2 -> same_price f1 f2 -> Q tt f2) ->
  wp T (refund_reset original value a b) Q f1.
Proof. intros Hi Hp HQ. unfold refund_reset. apply (wp_if_tell f size); auto using AddRefund_zacts. Qed.

Lemma wp_access f size addr Q f1 :
  inv f -> priced f size f1 -> (forall b f2, priced f size f2 -> same_price f1 f2 -> Q b f2) -> wp T (access_address addr) Q f1.
Proof.
  intros Hi Hp HQ. unfold access_address. repeat wp_step. apply (wp_if_tell f size); auto using AddAddress_zacts.
  intros f2 Hp2 E2. wp_step. by apply HQ.
Qed.

(** The legacy rules of [SSTORE] never take back a refund. *)
Definition legacy_sstore : bool := IsPetersburg || negb IsConstantinople.

Lemma gasSStore_ok : (legacy_sstore = true \/ T) -> gas_ok false 2 Plain 1 gasSStore.
Proof.
  intros HL size f Hi Hl Hs Hm Hz. rewrite (Hz eq_refl). unfold gasSStore, slot_of. destruct (stack_at f 1 Hi) as (y & Hy & Hwy); [lia|].
  destruct (stack_at f 0 Hi) as (x & Hx & Hwx); [lia|]. wp_step. eapply wp_back; [exact Hy|]. wp_step. eapply wp_back; [exact Hx|].
  repeat wp_step. fold legacy_sstore. pose proof (priced_refl f Hi) as Hp. destruct legacy_sstore eqn:EL.
  - destruct (_ && _); [wp_step; by auto with lia|]. destruct (_ && _); [|wp_step; by auto with lia]. wp_step.
    apply (wp_tell f 0); auto using AddRefund_zacts. intros f2 Hp2 _. wp_step. split; [done|]. by split.
  - destruct HL as [HL|HT]; [done|]. destruct (bytes_Equal _ _); [wp_step; by auto with lia|]. repeat wp_step. destruct (bytes_Equal _ _).
    + destruct (is_zero_hash _); [wp_step; by auto with lia|]. wp_step. apply (wp_if_tell f 0); auto using AddRefund_zacts. intros f2 Hp2 _. wp_step. by auto with lia.
    + wp_step. apply (wp_refund_changed f 0); auto. intros f2 Hp2 _. wp_step. apply (wp_refund_reset f 0); auto. intros f3 Hp3 _. wp_step. by auto with lia.
Qed.

Lemma gasSStoreEIP2200_ok : T -> gas_ok false 2 Plain 1 gasSStoreEIP2200.
Proof.
  intros HT size f Hi Hl Hs Hm Hz. rewrite (Hz eq_refl). unfold gasSStoreEIP2200, slot_of. destruct (stack_at f 1 Hi) as (y & Hy & Hwy); [lia|].
  destruct (stack_at f 0 Hi) as (x & Hx & Hwx); [lia|]. repeat wp_step. destruct (_ <=? _); [wp_step; by auto with evm|].
  wp_step. eapply wp_back; [exact Hy|]. wp_step. eapply wp_back; [exact Hx|]. repeat wp_step. pose proof (priced_refl f Hi) as Hp.
  destruct (bytes_Equal _ _); [wp_step; by auto with lia|]. repeat wp_step. destruct (bytes_Equal _ _).
  - destruct (is_zero_hash _); [wp_step; by auto with lia|]. wp_step. apply (wp_if_tell f 0); auto using AddRefund_zacts. intros f2 Hp2 _. wp_step. by auto with lia.
  - wp_step. apply (wp_refund_changed f 0); auto. intros f2 Hp2 _. wp_step. apply (wp_refund_reset f 0); auto. intros f3 Hp3 _. wp_step. by auto with lia.
Qed.

Lemma makeGasSStoreFunc_ok r : T -> gas_ok false 2 Plain 1 (makeGasSStoreFunc r).
Proof.
  intros HT size f Hi Hl Hs Hm Hz. rewrite (Hz eq_refl). unfold makeGasSStoreFunc, slot_of. destruct (stack_at f 1 Hi) as (y & Hy & Hwy); [lia|].
  destruct (stack_at f 0 Hi) as (x & Hx & Hwx); [lia|]. repeat wp_step. destruct (_ <=? _); [wp_step; by auto with evm|].
  wp_step. eapply wp_back; [exact Hy|]. wp_step. unfold peek. eapply wp_lift; [exact Hx|]. repeat wp_step. pose proof (priced_refl f Hi) as Hp.
  destruct (SlotInAccessList _ _ _) as [[ap sp]|]; [|by apply wp_panic]. wp_step.
  assert (Hrest : forall f1 c, priced f 0 f1 -> 0 <= c -> wp T (retM (inl (c + WarmStorageReadCostEIP2929) : Z + string))
    (fun r f' => match r with inr _ => ended f f' | inl c => 0 <= c /\ priced f 0 f' /\ 1 + bonus Plain f' <= c end) f1).
  { intros f1 c Hp1 Hc. wp_step. unfold WarmStorageReadCostEIP2929. cbn. split; [lia|]. split; [done|lia]. }
  assert (Hc : 0 <= if negb sp then ColdSloadCostEIP2929 else 0) by (by destruct sp). set (c := if negb sp then _ else _) in *. clearbody c.
  match goal with |- wp _ _ ?Q f => assert (HQ : forall f1, priced f 0 f1 -> Q tt f1) end.
  { intros f1 Hp1. destruct (bytes_Equal _ _); [by apply Hrest|]. repeat wp_step. destruct (bytes_Equal _ _).
    - destruct (is_zero_hash _); [wp_step; cbn; unfold SstoreSetGasEIP2200; by auto with lia|]. wp_step. apply (wp_if_tell f 0); auto using AddRefund_zacts.
      intros f2 Hp2 _. wp_step. unfold SstoreResetGasEIP2200, ColdSloadCostEIP2929. cbn. split; [lia|]. split; [done|lia].
    - wp_step. apply (wp_refund_changed f 0); auto. intros f2 Hp2 _. wp_step. apply (wp_refund_reset f 0); auto. intros f3 Hp3 _. by apply Hrest. }
  destruct sp; cbn [negb]; [by apply wp_ret, HQ|]. wp_step. apply (wp_try_state f 0); auto; [intros s G E; by apply (zacts_op (OAddSlot (contract_self (contract f)) (u_Bytes32 x)))|].
  intros f2 Hp2 _. destruct ap; cbn [negb]; [by apply wp_ret, HQ|by apply wp_panic].
Qed.

Lemma good_access s : zgood s -> access_wf (state_accessList s).
Proof. intros ((S & HS & _) & _). apply (sim_ok _ _ HS). Qed.

Lemma gasSLoadEIP2929_ok : gas_ok false 1 Plain 1 gasSLoadEIP2929.
Proof.
  intros size f Hi Hl Hs Hm Hz. rewrite (Hz eq_refl). unfold gasSLoadEIP2929. destruct (stack_at f 0 Hi) as (x & Hx & Hw); [lia|].
  wp_step. unfold peek. eapply wp_lift; [exact Hx|]. repeat wp_step. pose proof (priced_refl f Hi) as Hp. pose proof (good_access _ (inv_good f Hi)) as Hal.
  destruct (Contains_total _ (contract_self (contract f)) (u_Bytes32 x) Hal) as [[ap sp] E]. unfold SlotInAccessList. rewrite E.
  destruct sp; cbn [negb]; [wp_step; by auto with lia|]. wp_step. apply (wp_try_state f 0); auto.
  - intros s G Es. by apply (zacts_op (OAddSlot (contract_self (contract f)) (u_Bytes32 x))).
  - intros En. exfalso. destruct (AddSlot_spec _ (contract_self (contract f)) (u_Bytes32 x) Hal) as (a & b & al & E' & _).
    unfold AddSlotToAccessList in En. by rewrite E' in En.
  - intros f2 Hp2 _. wp_step. by auto with lia.
Qed.

Lemma gasExtCodeCopyEIP2929_ok : gas_ok true 4 Plain 0 gasExtCodeCopyEIP2929.
Proof.
  intros size f Hi Hl Hs Hm Hz. unfold gasExtCodeCopyEIP2929. wp_step. eapply wp_mono; [apply (memoryCopierGas_ok 3); auto|].
  intros [g|e] f1; [|done]. intros (Hg & Hp & _). destruct (stack_priced f 0 f1 size Hi Hp) as (x & Hx & Hw); [lia|].
  wp_step. unfold peek. eapply wp_lift; [exact Hx|]. wp_step. apply (wp_access f size); auto. intros b f2 Hp2 _.
  destruct b; cbn [negb]; [wp_step; cbn; split; [lia|]; split; [done|lia]|].
  apply wp_SafeAdd; [lia|by vm_compute|eauto with evm|]. intros _. unfold ColdAccountAccessCostEIP2929, WarmStorageReadCostEIP2929.
  cbn. split; [lia|]. split; [done|lia].
Qed.

Lemma gasEip2929AccountCheck_ok : gas_ok false 1 Plain 0 gasEip2929AccountCheck.
Proof.
  intros size f Hi Hl Hs Hm Hz. rewrite (Hz eq_refl). unfold gasEip2929AccountCheck. destruct (stack_at f 0 Hi) as (x & Hx & Hw); [lia|].
  wp_step. unfold peek. eapply wp_lift; [exact Hx|]. wp_step. apply (wp_access f 0); auto using priced_refl. intros b f2 Hp2 _.
  wp_step. by destruct b.
Qed.

Lemma gasSelfdestruct_ok : gas_ok false 1 Halt 0 gasSelfdestruct.
Proof.
  intros size f Hi Hl Hs Hm Hz. rewrite (Hz eq_refl). unfold gasSelfdestruct. destruct (stack_at f 0 Hi) as (x & Hx & Hw); [lia|].
  wp_step. eapply wp_back; [exact Hx|]. repeat wp_step. apply (wp_if_tell f 0); auto using priced_refl, AddRefund_zacts.
  intros f2 Hp2 _. wp_step. unfold SelfdestructGasEIP150, CreateBySelfdestructGas. cbn [bonus].
  destruct IsEIP150; [|by auto with lia]. destruct IsEIP158; (destruct (_ && _) || destruct (negb _)); (split; [lia|]; split; [done|lia]).
Qed.

Lemma makeSelfdestructGasFn_ok b : gas_ok false 1 Halt 0 (makeSelfdestructGasFn b).
Proof.
  intros size f Hi Hl Hs Hm Hz. rewrite (Hz eq_refl). unfold makeSelfdestructGasFn. destruct (stack_at f 0 Hi) as (x & Hx & Hw); [lia|].
  wp_step. unfold peek. eapply wp_lift; [exact Hx|]. repeat wp_step. apply (wp_access f 0); auto using priced_refl. intros w f2 Hp2 _.
  repeat wp_step. apply (wp_if_tell f 0); auto using AddRefund_zacts. intros f3 Hp3 _. wp_step.
  unfold ColdAccountAccessCostEIP2929, CreateBySelfdestructGas. cbn [bonus].
  destruct (_ && negb (Z.sgn _ =? 0)), w; cbn [negb]; (split; [lia|]; split; [done|lia]).
Qed.

(** *** Calls *)

(** The gas of a call is part of its cost, which stays clear of the overflow. *)
Lemma callGas_spec availableGas base x :
  word x -> match callGas IsEIP150 availableGas base x with
            | inr _ => True
            | inl t => 0 <= t /\ (IsEIP150 = true -> t <= 2 ^ 64 - 2 ^ 58)
            end.
Proof.
  intros Hw. unfold callGas. destruct (u_tests x Hw) as (_ & _ & _ & -> & ->). set (a := u64 (availableGas - base)).
  assert (Ha : 0 <= a < 2 ^ 64) by (unfold a, u64; div_lia). assert (Eg : u64 (a - a / 64) = a - a / 64) by (unfold u64; rewrite Z.mod_small; div_lia).
  rewrite Eg. destruct (IsEIP150 && _) eqn:Ec; [split; [div_lia|intros _; div_lia]|].
  destruct (Z.ltb_spec x (2 ^ 64)) as [Hx|Hx]; cbn [negb]; [|done]. unfold word in Hw. assert (E : u64 x = x) by (unfold u64; rewrite Z.mod_small; lia).
  rewrite E in *. split; [lia|]. intros H150. rewrite H150 in Ec. cbn [negb orb andb] in Ec. apply Z.ltb_ge in Ec. div_lia.
Qed.

(** As [gas_ok], with a bound on the cost. *)
Definition call_gas_ok (value : option nat) (g : gasFunc) : Prop := forall size f,
  inv f -> (6 <= length (stack f))%nat -> 0 <= size -> size mod 32 = 0 ->
  wp T (g size) (fun r f' => match r with
    | inr _ => ended f f'
    | inl c => priced f size f' /\ bonus (Calls value) f' <= c /\ 0 <= c /\ (IsEIP150 = true -> c < 2 ^ 64 - 2 ^ 57)
    end) f.

Lemma wp_call_share value f size gas Q f1 :
  inv f -> (1 <= length (stack f))%nat -> priced f size f1 -> 0 <= gas < 2 ^ 56 + 2 ^ 16 -> stipend value f1 <= gas -> (forall e f2, ended f f2 -> Q (inr e) f2) ->
  (forall c f2, priced f size f2 -> bonus (Calls value) f2 <= c -> 0 <= c -> (IsEIP150 = true -> c < 2 ^ 64 - 2 ^ 57) -> Q (inl c) f2) ->
  wp T (call_share gas) Q f1.
Proof.
  intros Hi Hl Hp Hg Hst He HQ. unfold call_share. repeat wp_step. destruct (stack_priced f 0 f1 size Hi Hp) as (x & Hx & Hw); [lia|].
  eapply wp_back; [exact Hx|]. pose proof (callGas_spec (contract_Gas (contract f1)) gas x Hw) as Hc.
  destruct (callGas _ _ _ _) as [t|e]; [|wp_step; by eauto with evm]. destruct Hc as [Ht Hb]. repeat wp_step.
  pose proof (priced_temp f size f1 t Ht Hp) as Hp2. apply wp_SafeAdd; [lia|done|eauto with evm|]. intros _. apply HQ; [done| |lia|].
  - unfold bonus. assert (E : stipend value (f1 <| callGasTemp := t |>) = stipend value f1) by by destruct f1. rewrite E.
    change (callGasTemp (f1 <| callGasTemp := t |>)) with t. lia.
  - intros H150. specialize (Hb H150). lia.
Qed.

Lemma gasDelegateCall_ok : call_gas_ok None gasDelegateCall.
Proof.
  intros size f Hi Hl Hs Hm. unfold gasDelegateCall. wp_step. apply wp_memory; eauto with evm. intros g f1 Hg Hp.
  apply (wp_call_share None f size); auto; try lia. cbn. lia.
Qed.

Lemma gasStaticCall_ok : call_gas_ok None gasStaticCall.
Proof. apply gasDelegateCall_ok. Qed.

Lemma stipend_le f f1 size x :
  priced f size f1 -> stack f !! 2%nat = Some x -> stipend (Some 2%nat) f1 = if x =? 0 then 0 else CallStipend.
Proof. intros Hp Hx. unfold stipend. by rewrite (priced_stack _ _ _ Hp), Hx. Qed.

Lemma gasCallCode_ok : call_gas_ok (Some 2%nat) gasCallCode.
Proof.
  intros size f Hi Hl Hs Hm. unfold gasCallCode. wp_step. apply wp_memory; eauto with evm. intros g f1 Hg Hp.
  destruct (stack_at f 2 Hi) as (x & Hx & Hw); [lia|]. wp_step. eapply wp_back; [by rewrite (priced_stack _ _ _ Hp)|].
  destruct (u_tests x Hw) as (_ & -> & _). assert (Ex : (Z.sgn (signed x) =? 0) = (x =? 0)).
  { unfold signed, word in *. apply eq_true_iff_eq. rewrite !Z.eqb_eq. destruct (Z.ltb_spec x (2 ^ 255)); lia. }
  rewrite Ex. wp_step. unfold CallValueTransferGas. apply wp_SafeAdd; [destruct (x =? 0); done|lia|eauto with evm|]. intros _.
  apply (wp_call_share (Some 2%nat) f size); eauto with lia; try (destruct (x =? 0); cbn [negb]; lia).
  rewrite (stipend_le _ _ _ _ Hp Hx). unfold CallStipend. destruct (x =? 0); cbn [negb]; lia.
Qed.

Lemma gasCall_ok : call_gas_ok (Some 2%nat) gasCall.
Proof.
  intros size f Hi Hl Hs Hm. unfold gasCall. destruct (stack_at f 2 Hi) as (x & Hx & Hw); [lia|]. destruct (stack_at f 1 Hi) as (a & Ha & _); [lia|].
  wp_step. eapply wp_back; [exact Hx|]. wp_step. eapply wp_back; [exact Ha|]. repeat wp_step. apply wp_memory; eauto with evm. intros g f1 Hg Hp.
  destruct (u_tests x Hw) as (-> & _). unfold CallNewAccountGas, CallValueTransferGas.
  match goal with |- context [SafeAdd ?b g] => assert (Hb : 0 <= b <= 34000 /\ (if x =? 0 then 0 else CallStipend) <= b) end.
  { unfold CallStipend. destruct (x =? 0); cbn [negb andb]; repeat case_match; lia. }
  wp_step. destruct Hb as [Hb1 Hb2]. apply wp_SafeAdd; [lia|lia|eauto with evm|]. intros _.
  apply (wp_call_share (Some 2%nat) f size); eauto with lia. rewrite (stipend_le _ _ _ _ Hp Hx). lia.
Qed.

Lemma inv_priced f f' : inv f -> priced f 0 f' -> inv f'.
Proof.
  intros Hi Hp. pose proof (priced_good f 0 f' Hi Hp) as Hgood. destruct Hp as [Hf Hc Hg _ Ht _]. rewrite paid_zero in Hf by apply Hi.
  destruct Hi as [G W Me Go Ca Pc Te Se]. split; try done.
  - lia.
  - rewrite Hf. by destruct f.
  - rewrite Hf. by destruct f.
  - destruct Ca as [C1 C2]. rewrite Hf. split; cbn; rewrite Hc; [apply C1|apply C2].
  - rewrite Hf. by destruct f.
  - rewrite Hc. exact Se.
Qed.

Lemma priced_trans f f1 size f2 : inv f -> priced f 0 f1 -> priced f1 size f2 -> priced f size f2.
Proof.
  intros Hi Hp1 Hp2. pose proof (zacts_trans _ _ _ (inv_good f Hi) (pr_acts _ _ _ Hp1) (pr_acts _ _ _ Hp2)) as Ha.
  destruct Hp1 as [F1 C1 G1 _ T1 _], Hp2 as [F2 C2 G2 S2 T2 _]. rewrite paid_zero in F1 by apply Hi. split; try done; [| |lia].
  - rewrite F2, F1. by destruct f.
  - rewrite C2, C1. by destruct (contract f).
Qed.

Lemma ended_trans f f1 f2 : inv f -> priced f 0 f1 -> ended f1 f2 -> ended f f2.
Proof.
  intros Hi Hp [Ha Hg]. split; [|pose proof (pr_gas _ _ _ Hp); lia]. eapply zacts_trans; [apply Hi|apply Hp|done].
Qed.

Lemma call_gas value pops g : (6 <= pops)%nat -> call_gas_ok value g -> gas_ok true pops (Calls value) 0 g.
Proof.
  intros Hpops Hg size f Hi Hl Hs Hm _. eapply wp_mono; [apply Hg; auto; lia|]. intros [c|e] f'; [|done]. intros (Hp & Hb & Hc & _).
  split; [done|]. split; [done|lia].
Qed.

Lemma makeCallVariant_ok value pops g :
  IsEIP150 = true -> (6 <= pops)%nat -> call_gas_ok value g -> gas_ok true pops (Calls value) 0 (makeCallVariantGasCallEIP2929 g).
Proof.
  intros H150 Hpops Hg size f Hi Hl Hs Hm _. unfold makeCallVariantGasCallEIP2929. destruct (stack_at f 1 Hi) as (a & Ha & _); [lia|].
  wp_step. eapply wp_back; [exact Ha|]. wp_step. apply (wp_access f 0); auto using priced_refl. intros w f1 Hp1 _.
  set (cold := ColdAccountAccessCostEIP2929 - WarmStorageReadCostEIP2929). assert (Hcold : cold = 2500) by done. clearbody cold.
  assert (Hold : forall f1, priced f 0 f1 -> wp T (g size) (fun r f2 => match r with inr _ => ended f f2
    | inl c => priced f1 size f2 /\ bonus (Calls value) f2 <= c /\ 0 <= c < 2 ^ 64 - 2 ^ 57 end) f1).
  { intros f2 Hp2. eapply wp_mono; [apply Hg; [by eapply inv_priced|by rewrite (priced_stack _ _ _ Hp2); lia|done|done]|].
    intros [c|e] f3; [intros (? & ? & ? & Hb); specialize (Hb H150); by split_and!|]. by apply ended_trans. }
  wp_step. destruct w; cbn [negb].
  - wp_step. eapply wp_mono; [by apply Hold|]. intros [c|e] f2; [|done]. intros (Hp2 & Hb & Hc). split; [lia|]. split; [by eapply priced_trans|lia].
  - apply wp_use_gas; intros Hgas; cbn [negb]; [wp_step; by eauto with evm|]. pose proof (pr_gas _ _ _ Hp1) as Hg1.
    pose proof (priced_gas f 0 f1 (contract_Gas (contract f1) - cold) Hp1 ltac:(lia)) as Hp2. set (f2 := f1 <| contract := _ |>) in *.
    wp_step. eapply wp_mono; [by apply Hold|]. intros [c|e] f3; [|done]. intros (Hp3 & Hb & Hc). repeat wp_step.
    pose proof (priced_trans _ _ _ _ Hi Hp2 Hp3) as Hp. pose proof (pr_gas _ _ _ Hp3) as Hg3. assert (E2 : contract_Gas (contract f2) = contract_Gas (contract f1) - cold) by by destruct f1.
    assert (Eu : u64 (c + cold) = c + cold) by (unfold u64; rewrite Z.mod_small; lia). rewrite Eu. split; [lia|].
    assert (Hu : 0 <= u64 (contract_Gas (contract f3) + cold) <= contract_Gas (contract f3) + cold).
    { unfold u64. pose proof (Z.mod_pos_bound (contract_Gas (contract f3) + cold) (2 ^ 64) ltac:(lia)).
      pose proof (Z.mod_le (contract_Gas (contract f3) + cold) (2 ^ 64)). lia. }
    split; [apply priced_gas; [done|lia]|]. assert (Eb : forall c', bonus (Calls value) (f3 <| contract := c' |>) = bonus (Calls value) f3) by by destruct f3.
    rewrite Eb. lia.
Qed.
End gas_functions.
