(* ===== verification/EvmExec.v ===== *)
(** * The execution of operations is sound

    What an operation takes from and leaves on the stack, the areas of memory it
    touches, and that it acts on the state through its methods only. *)
From S2P Require Import Prelude Ela Messages Rlp Header Common AccessList StateDB StateSpec StateRefine Withdraw SmallCross Recharge Evm EvmMachine EvmGas EvmInstr EvmTable EvmSound.

(** ** Words *)
Section words.
Context `{!Uint256} `{!Uint256Laws}.

Lemma unsigned_word x : word (unsigned x).
Proof. apply Z.mod_pos_bound. lia. Qed.

Lemma u64_word x : word (u64 x).
Proof. unfold word, u64. pose proof (Z.mod_pos_bound x (2 ^ 64) ltac:(lia)). lia. Qed.

Lemma word_0 : word 0.
Proof. unfold word. lia. Qed.

Lemma test_word b : word (test b).
Proof. unfold word. destruct b; cbn; lia. Qed.

Lemma word_bits x : 0 <= x -> (forall n, 256 <= n -> Z.testbit x n = false) -> word x.
Proof.
  intros Hx Hb. split; [done|]. destruct (Z.lt_ge_cases x (2 ^ 256)) as [|Hge]; [done|]. exfalso.
  assert (0 < x) by lia. assert (Hlog : 256 <= Z.log2 x) by (apply Z.log2_le_pow2; lia). specialize (Hb _ Hlog). rewrite Z.bit_log2 in Hb by lia. done.
Qed.

Lemma bits_word x n : word x -> 256 <= n -> Z.testbit x n = false.
Proof. intros [Hx0 Hx1] Hn. apply Z.bits_above_log2; [done|]. destruct (Z.eq_dec x 0) as [->|]; [cbn; lia|]. apply Z.log2_lt_pow2 in Hx1; lia. Qed.

Lemma bitwise_word x y : word x -> word y -> word (Z.land x y) /\ word (Z.lor x y) /\ word (Z.lxor x y).
Proof.
  intros Hx Hy. assert (0 <= x /\ 0 <= y) as [? ?] by (destruct Hx, Hy; lia).
  split_and!; apply word_bits; try (rewrite ?Z.land_nonneg, ?Z.lor_nonneg, ?Z.lxor_nonneg; tauto); intros n Hn;
    rewrite ?Z.land_spec, ?Z.lor_spec, ?Z.lxor_spec, (bits_word x), (bits_word y) by done; done.
Qed.

Lemma arith_word x y :
  word x -> word y -> word (u_Add x y) /\ word (u_Sub x y) /\ word (u_Mul x y) /\ word (u_Div x y) /\ word (u_Mod x y) /\
  word (u_SDiv x y) /\ word (u_SMod x y) /\ word (u_Exp x y).
Proof.
  intros Hx Hy. destruct (u_arith x y Hx Hy) as (-> & -> & -> & -> & -> & -> & -> & ->).
  destruct (Z.eqb_spec y 0); split_and!; try apply unsigned_word; try apply word_0; unfold word in *.
  - split; [apply Z.div_pos; lia|]. eapply Z.le_lt_trans; [|apply Hx]. apply Z.div_le_upper_bound; nia.
  - pose proof (Z.mod_pos_bound x y). lia.
Qed.

Lemma ExtendSign_word x b : word x -> word b -> word (u_ExtendSign x b).
Proof. intros Hx Hb. rewrite u_ExtendSign_law by done. destruct (b <? 31); [apply unsigned_word|done]. Qed.

Lemma modular_word x y m : word x -> word y -> word m -> word (u_AddMod x y m) /\ word (u_MulMod x y m).
Proof.
  intros Hx Hy Hm. destruct (u_modular x y m Hx Hy Hm) as (-> & ->). destruct (Z.eqb_spec m 0); [by split; apply word_0|].
  unfold word in *. split; (split; [apply Z.mod_pos_bound; lia|]; pose proof (Z.mod_pos_bound (x + y) m); pose proof (Z.mod_pos_bound (x * y) m); lia).
Qed.

Lemma logic_word x y : word x -> word y -> word (u_Not x) /\ word (u_And x y) /\ word (u_Or x y) /\ word (u_Xor x y).
Proof.
  intros Hx Hy. destruct (u_bitwise x y Hx Hy) as (-> & -> & -> & ->). destruct (bitwise_word x y Hx Hy) as (? & ? & ?).
  split_and!; [|done..]. unfold word in *. lia.
Qed.

Lemma Byte_word x n : word x -> word n -> word (u_Byte x n).
Proof.
  intros Hx Hn. rewrite u_Byte_law by done. destruct (n <? 32); [|apply word_0]. pose proof (Z.mod_pos_bound (Z.shiftr x (8 * (31 - n))) 256). unfold word. lia.
Qed.

Lemma shift_word x n : word x -> 0 <= n -> word (u_Lsh x n) /\ word (u_Rsh x n) /\ word (u_SRsh x n).
Proof.
  intros Hx Hn. destruct (u_shifts x n Hx Hn) as (-> & -> & ->). split_and!; try apply unsigned_word. unfold word in *.
  rewrite Z.shiftr_div_pow2 by done. assert (0 < 2 ^ n) by (apply Z.pow_pos_nonneg; lia).
  split; [apply Z.div_pos; lia|]. eapply Z.le_lt_trans; [|apply Hx]. apply Z.div_le_upper_bound; nia.
Qed.

Lemma Uint64_eq x : word x -> u_Uint64 x = u64 x.
Proof. intros Hx. by destruct (u_tests x Hx) as (_ & _ & _ & _ & ->). Qed.

Lemma Uint64_small x : 0 <= x < 2 ^ 64 -> u_Uint64 x = x.
Proof. intros Hx. rewrite Uint64_eq by (unfold word; lia). unfold u64. apply Z.mod_small. lia. Qed.
End words.
#[export] Hint Resolve unsigned_word u64_word word_0 test_word ExtendSign_word Byte_word u_SetBytes_word : evm.

(** ** Areas of memory *)

(** The offset at an index of the stack; the length at an index, or a constant. *)
Notation need := (nat * (nat + Z))%type.

Definition area_fits (nd : need) (st : list Z) (L : Z) : Prop :=
  exists off len, st !! nd.1 = Some off /\ match nd.2 with inl i => st !! i = Some len | inr n => len = n end /\
    0 <= len < 2 ^ 64 /\ (len = 0 \/ off + len <= L).

Lemma area_mono nd st L L' : L <= L' -> area_fits nd st L -> area_fits nd st L'.
Proof. intros HL (off & len & ? & ? & ? & Hf). exists off, len. do 3 (split; [done|]). destruct Hf; [by left|right; lia]. Qed.

Section areas.
Context `{!Uint256} `{!Uint256Laws} (T : Prop).

(** A size function: it asks for at least the areas. *)
Definition size_ok `{!Keccak} `{!Database} `{!Zone} (nds : list need) (pops : nat) (ms : M (Z * bool)) : Prop := forall f,
  inv f -> (pops <= length (stack f))%nat ->
  exists n o, ms f = Some ((n, o), f) /\ (o = false -> 0 <= n < 2 ^ 64 /\ Forall (fun nd => area_fits nd (stack f) n) nds).

Lemma calc_spec off len :
  word off -> 0 <= len < 2 ^ 64 -> exists n o, calcMemSize64WithUint off len = (n, o) /\
    (o = false -> 0 <= n < 2 ^ 64 /\ (len = 0 \/ off + len <= n)).
Proof.
  intros Ho Hl. unfold calcMemSize64WithUint. destruct (Z.eqb_spec len 0) as [->|Hne]; [eexists _, _; split; [done|]; by auto with lia|].
  destruct (u_tests off Ho) as (_ & _ & _ & -> & ->). destruct (Z.ltb_spec off (2 ^ 64)) as [H64|H64]; cbn [negb]; [|by eexists _, _].
  eexists _, _. split; [done|]. intros Hov. unfold word in Ho. unfold u64 in *. rewrite (Z.mod_small off) in * by lia. apply Z.ltb_ge in Hov.
  pose proof (Z.mod_pos_bound (off + len) (2 ^ 64) ltac:(lia)). split; [done|]. right.
  destruct (Z.lt_ge_cases (off + len) (2 ^ 64)); [rewrite Z.mod_small in *; lia|].
  assert (E : (off + len) mod 2 ^ 64 = off + len - 2 ^ 64) by (symmetry; apply (Z.mod_unique _ _ 1); lia). lia.
Qed.

Section sizes.
Context `{!Keccak} `{!Database} `{!Zone}.

Lemma mem_size_ok o l pops : (o < pops)%nat -> (l < pops)%nat -> size_ok [(o, inl l)] pops (mem_size o l).
Proof.
  intros Ho Hl f Hi Hp. destruct (stack_at f o Hi) as (off & Eo & Wo); [lia|]. destruct (stack_at f l Hi) as (len & El & Wl); [lia|].
  unfold mem_size, bindM, back, lift, Back, retM. rewrite Eo, El. unfold calcMemSize64. destruct (u_tests len Wl) as (_ & _ & _ & -> & _).
  destruct (Z.ltb_spec len (2 ^ 64)) as [H64|H64]; cbn [negb]; [|by eexists _, _]. assert (Hlen : 0 <= len < 2 ^ 64) by (unfold word in Wl; lia).
  rewrite Uint64_small by done. destruct (calc_spec off len Wo Hlen) as (n & ov & E & Hn). rewrite E. exists n, ov. split; [done|].
  intros Hov. destruct (Hn Hov) as [Hb Hf]. split; [done|]. repeat constructor. exists off, len. done.
Qed.

Lemma mem_size_uint_ok o n pops : (o < pops)%nat -> 0 <= n < 2 ^ 64 -> size_ok [(o, inr n)] pops (mem_size_uint o n).
Proof.
  intros Ho Hn f Hi Hp. destruct (stack_at f o Hi) as (off & Eo & Wo); [lia|]. unfold mem_size_uint, bindM, back, lift, Back, retM.
  rewrite Eo. destruct (calc_spec off n Wo Hn) as (m & ov & E & Hm). rewrite E. exists m, ov. split; [done|].
  intros Hov. destruct (Hm Hov) as [Hb Hf]. split; [done|]. repeat constructor. exists off, n. done.
Qed.

Lemma mem_size2_ok o1 l1 o2 l2 pops :
  (o1 < pops)%nat -> (l1 < pops)%nat -> (o2 < pops)%nat -> (l2 < pops)%nat ->
  size_ok [(o1, inl l1); (o2, inl l2)] pops (mem_size2 o1 l1 o2 l2).
Proof.
  intros H1' H2' H3' H4' f Hi Hp. destruct (mem_size_ok o1 l1 pops H1' H2' f Hi Hp) as (x & ox & Ex & Hx).
  destruct (mem_size_ok o2 l2 pops H3' H4' f Hi Hp) as (y & oy & Ey & Hy). unfold mem_size2, bindM. rewrite Ex. destruct ox; [by eexists _, _|].
  rewrite Ey. destruct oy; [by eexists _, _|]. destruct (Hx eq_refl) as [Bx Fx], (Hy eq_refl) as [By Fy].
  apply Forall_cons_1 in Fx as [Fx _]. apply Forall_cons_1 in Fy as [Fy _].
  eexists _, _. split; [done|]. intros _. split; [destruct (y <? x); lia|].
  repeat constructor; (eapply area_mono; [|done]); destruct (Z.ltb_spec y x); lia.
Qed.
End sizes.

(** *** Reading and writing an area *)
Lemma i64_small x : 0 <= x < 2 ^ 63 -> i64 x = x.
Proof. intros Hx. unfold i64. rewrite Z.mod_small by lia. lia. Qed.

Lemma wp_load_area off len Q f :
  mem_ok (mem f) -> word off -> 0 <= len -> (len = 0 \/ off + len <= Len (mem f)) -> (forall b, Q b f) -> wp T (load (u_Uint64 off) len) Q f.
Proof.
  intros Hm Ho Hl Hf HQ. unfold load. pose proof (mem_small _ Hm) as Hs. unfold mem_limit in Hs. pose proof (Len_nonneg (mem f)).
  assert (E : exists b, GetPtr (i64 (u_Uint64 off)) (i64 len) (mem f) = Some b).
  { unfold GetPtr. destruct Hf as [->|Hf]; [by eexists|]. unfold word in Ho. rewrite Uint64_small by lia. rewrite !i64_small by lia.
    destruct (Z.eqb_spec len 0); [by eexists|]. destruct (Z.ltb_spec off (Len (mem f))); [|by eexists].
    replace ((off <? 0) || (len <? 0) || (Len (mem f) <? off + len)) with false; [by eexists|].
    symmetry. rewrite !orb_false_iff, !Z.ltb_ge. lia. }
  destruct E as [b E]. eapply wp_lift; [exact E|apply HQ].
Qed.

Lemma copy_at_length off src dst : 0 <= off -> off + zlen src <= zlen dst -> zlen (copy_at off src dst) = zlen dst.
Proof. intros Ho Hl. unfold copy_at, zlen in *. rewrite !length_app, length_take, length_drop. lia. Qed.

Lemma mem_ok_store m st : zlen st = Len m -> mem_ok m -> mem_ok (m <| store := st |>).
Proof. intros E [? ? ?]. destruct m. unfold Len in *. cbn in *. split; unfold Len; cbn; rewrite E; done. Qed.

Lemma mem_Set_area off len value m :
  mem_ok m -> word off -> 0 <= len < 2 ^ 64 -> (len = 0 \/ off + len <= Len m) ->
  exists m', mem_Set (u_Uint64 off) len value m = Some m' /\ mem_ok m' /\ Len m' = Len m.
Proof.
  intros Hm Ho Hl Hf. unfold mem_Set. destruct (Z.ltb_spec 0 len) as [Hpos|Hz]; [|by exists m]. destruct Hf as [->|Hf]; [lia|].
  pose proof (mem_small _ Hm) as Hs. unfold mem_limit in Hs. unfold word in Ho. rewrite Uint64_small by lia. unfold u64. rewrite Z.mod_small by lia.
  destruct (Z.ltb_spec (Len m) (off + len)); [lia|]. destruct (Z.ltb_spec (off + len) off); [lia|].
  assert (E : zlen (copy_at off (take (Z.to_nat len) value) (store m)) = Len m).
  { apply copy_at_length; [lia|]. unfold Len, zlen in *. rewrite length_take. lia. }
  eexists. split; [done|]. split; [by apply mem_ok_store|by destruct m].
Qed.

Lemma mem_Set32_area off val m :
  mem_ok m -> word off -> word val -> off + 32 <= Len m -> exists m', mem_Set32 (u_Uint64 off) val m = Some m' /\ mem_ok m' /\ Len m' = Len m.
Proof.
  intros Hm Ho Hv Hf. unfold mem_Set32. pose proof (mem_small _ Hm) as Hs. unfold mem_limit in Hs. unfold word in Ho. rewrite Uint64_small by lia.
  unfold u64. rewrite Z.mod_small by lia. destruct (Z.ltb_spec (Len m) (off + 32)); [lia|]. destruct (Z.ltb_spec (Len m) off); [lia|].
  assert (E : zlen (copy_at off (take (Z.to_nat (Len m - off)) (u_Bytes32 val)) (store m)) = Len m).
  { apply copy_at_length; [lia|]. unfold Len, zlen in *. rewrite length_take. lia. }
  eexists. split; [done|]. split; [by apply mem_ok_store|by destruct m].
Qed.

Lemma getData_total data start size : 0 <= start -> 0 <= size < 2 ^ 63 -> exists b, getData data start size = Some b.
Proof.
  intros Hs Hz. unfold getData. pose proof (zlen_nonneg data). destruct (Z.ltb_spec size (2 ^ 63)); [|lia].
  destruct (Z.ltb_spec (zlen data) start).
  - destruct (Z.ltb_spec (zlen data) (zlen data + size)); [rewrite Z.ltb_irrefl; by eexists|]. replace (_ <? _) with false by (symmetry; apply Z.ltb_ge; lia). by eexists.
  - destruct (Z.ltb_spec (zlen data) (start + size)); replace (_ <? _) with false by (symmetry; apply Z.ltb_ge; lia); by eexists.
Qed.
End areas.

(** ** What calls promise

    At most the gas they were given is left, and the state was acted on. *)
Class CallLaws `{!Keccak} `{!Database} `{!Zone} `{!ElaLib} `{!Codec} `{!SpvLib} `{!EvmEnv} (T : Prop) := {
  Call_out : forall caller addr input gas value vm, zgood (vm_state vm) -> 0 <= gas ->
    ran T (vm_state vm) gas (Call caller addr input gas value None vm);
  CallCode_out : forall caller addr input gas value vm, zgood (vm_state vm) -> 0 <= gas -> (zone -> ref_Address caller <> 0) ->
    ran T (vm_state vm) gas (CallCode caller addr input gas value vm);
  DelegateCall_out : forall self from v addr input gas vm, zgood (vm_state vm) -> 0 <= gas -> (zone -> self <> 0) ->
    ran T (vm_state vm) gas (DelegateCall (RunningContract self from v) addr input gas vm);
  StaticCall_out : forall caller addr input gas vm, zgood (vm_state vm) -> 0 <= gas ->
    ran T (vm_state vm) gas (StaticCall caller addr input gas vm);
  Create_out : forall caller code gas value vm, zgood (vm_state vm) -> 0 <= gas -> (zone -> ref_Address caller <> 0) ->
    ran T (vm_state vm) gas (drop_address (Create caller code gas value vm));
  Create2_out : forall caller code gas value salt vm, zgood (vm_state vm) -> 0 <= gas -> (zone -> ref_Address caller <> 0) ->
    ran T (vm_state vm) gas (drop_address (Create2 caller code gas value salt vm))
}.

(** ** Execution *)
Record sig := { sig_pops : nat; sig_pushes : nat; sig_needs : list need; sig_kind : kind }.

Section exec.
Context `{!Uint256} `{!Uint256Laws} `{!Keccak} `{!Database} `{!Zone} `{!ElaLib} `{!Codec} `{!SpvLib} `{!EvmEnv} `{!Rules} `{!BlockEnv}.
Context (T : Prop) `{!CallLaws T} (readOnly : bool).

(** The run goes on. *)
Record goes_on (sg : sig) (f f' : Frame) : Prop := {
  on_inv : inv f';
  on_stack : (length (stack f') + sig_pops sg = length (stack f) + sig_pushes sg)%nat;
  on_contract : contract f' = (contract f) <| contract_Gas := contract_Gas (contract f') |>;
  on_gas : contract_Gas (contract f') <= contract_Gas (contract f) + bonus (sig_kind sg) f;
  on_acts : zacts (vm_state (machine f)) (vm_state (machine f'))
}.

Definition post (sg : sig) (f : Frame) (r : bytes * error) (f' : Frame) : Prop :=
  match snd r with Some _ => ended f f' | None => sig_kind sg <> Halt /\ goes_on sg f f' end.

Definition exec_ok (sg : sig) (ex : executionFunc) : Prop := forall f,
  inv f -> (sig_pops sg <= length (stack f))%nat -> Forall (fun nd => area_fits nd (stack f) (Len (mem f))) (sig_needs sg) ->
  wp T ex (post sg f) f.

Lemma cached_goes_on sg f f' :
  inv f -> contract f' = contract f -> caches_ok f' ->
  Forall word (stack f') -> (length (stack f') + sig_pops sg = length (stack f) + sig_pushes sg)%nat ->
  mem_ok (mem f') -> zacts (vm_state (machine f)) (vm_state (machine f')) -> 0 <= pc f' -> 0 <= callGasTemp f' -> 0 <= bonus (sig_kind sg) f ->
  goes_on sg f f'.
Proof.
  intros Hi Ec Hc Hw Hl Hm Hact Hpc Ht Hb. pose proof (zacts_good _ _ (inv_good f Hi) Hact) as Hg. pose proof (inv_gas f Hi). split; try done.
  - split; try done; rewrite Ec; [done|apply (inv_self f Hi)].
  - rewrite Ec. by destruct (contract f).
  - rewrite Ec. lia.
Qed.

(** Same contract, same analyses. *)
Lemma plain_goes_on sg f f' :
  inv f -> (contract f' = contract f /\ analysis f' = analysis f /\ jumpdests f' = jumpdests f) ->
  Forall word (stack f') -> (length (stack f') + sig_pops sg = length (stack f) + sig_pushes sg)%nat ->
  mem_ok (mem f') -> zacts (vm_state (machine f)) (vm_state (machine f')) -> 0 <= pc f' -> 0 <= callGasTemp f' -> 0 <= bonus (sig_kind sg) f ->
  goes_on sg f f'.
Proof.
  intros Hi (Ec & Ea & Ej) Hw Hl Hm Hact Hpc Ht Hb. apply cached_goes_on; try done.
  destruct (inv_caches f Hi) as [C1 C2]. split; rewrite Ec; [rewrite Ea|rewrite Ej]; done.
Qed.

Lemma ended_plain f f' :
  inv f -> contract f' = contract f -> zacts (vm_state (machine f)) (vm_state (machine f')) -> ended f f'.
Proof. intros Hi Ec Ha. split; [done|]. rewrite Ec. split; [apply Hi|done]. Qed.
End exec.

(** [operands] takes the frame apart, with the words an operation pops. *)
Tactic Notation "operands" int_or_var(n) :=
  let f := fresh "f" in
  intros f Hi Hl Hd; pose proof (inv_words _ Hi) as HW; pose proof (inv_mem _ Hi) as HM; pose proof (inv_pc _ Hi) as HP; pose proof (inv_temp _ Hi) as HT'; pose proof (inv_good _ Hi) as HG'; pose proof (inv_self _ Hi) as HS';
  destruct f as [p st m c inp an jd ict rd temp vm]; cbn [stack sig_pops mem pc callGasTemp sig_needs] in *;
  do n (destruct st as [|? st]; [exfalso; cbn in Hl; lia|]);
  repeat match goal with H : Forall word (_ :: _) |- _ => apply Forall_cons_1 in H as [? H] end.

(** [go_on] closes the end of an operation that changes the stack only. *)
Ltac go_on :=
  split; [done|]; apply plain_goes_on; cbn; auto using zacts_refl with evm; try lia; try (repeat apply Forall_cons_2; auto with evm).

(** [areas] names the areas of memory. *)
Ltac areas :=
  repeat match goal with
  | H : Forall (fun nd => area_fits nd _ _) (_ :: _) |- _ =>
      let off := fresh "off" in let len := fresh "len" in let Hf := fresh "Hf" in let Hlen := fresh "Hlen" in
      apply Forall_cons_1 in H as [(off & len & ? & ? & Hlen & Hf) H]; cbn in * |-; simplify_eq
  end.

Section exec_lemmas.
Context `{!Uint256} `{!Uint256Laws} `{!Keccak} `{!Database} `{!Zone} `{!ElaLib} `{!Codec} `{!SpvLib} `{!EvmEnv} `{!Rules} `{!BlockEnv}.
Context (T : Prop) `{!CallLaws T} (readOnly : bool).
#[local] Notation exec_ok := (exec_ok T).
#[local] Notation S21 := {| sig_pops := 2; sig_pushes := 1; sig_needs := []; sig_kind := Plain |}.
#[local] Notation S11 := {| sig_pops := 1; sig_pushes := 1; sig_needs := []; sig_kind := Plain |}.
#[local] Notation S01 := {| sig_pops := 0; sig_pushes := 1; sig_needs := []; sig_kind := Plain |}.
#[local] Notation S31 := {| sig_pops := 3; sig_pushes := 1; sig_needs := []; sig_kind := Plain |}.

Lemma unary_ok g : (forall x, word x -> word (g x)) -> exec_ok S11 (unary g).
Proof. intros Hg. operands 1. unfold unary. repeat wp_step. go_on. Qed.

Lemma binary_ok g : (forall x y, word x -> word y -> word (g x y)) -> exec_ok S21 (binary g).
Proof. intros Hg. operands 2. unfold binary. repeat wp_step. go_on. Qed.

Lemma pushes_ok q : (forall f, inv f -> word (q f)) -> exec_ok S01 (pushes q).
Proof. intros Hq. operands 0. unfold pushes. repeat wp_step. go_on. Qed.

Lemma opAddmod_ok : exec_ok S31 opAddmod.
Proof.
  operands 3. unfold opAddmod. repeat wp_step. go_on. destruct (u_IsZero _); auto with evm. by apply modular_word.
Qed.

Lemma opMulmod_ok : exec_ok S31 opMulmod.
Proof. operands 3. unfold opMulmod. repeat wp_step. go_on. by apply modular_word. Qed.

(** *** Memory and state *)
#[local] Notation Sig n m nds k := {| sig_pops := n; sig_pushes := m; sig_needs := nds; sig_kind := k |}.

Lemma opKeccak256_ok : exec_ok (Sig 2 1 [(0%nat, inl 1%nat)] Plain) opKeccak256.
Proof.
  operands 2. areas. unfold opKeccak256. repeat wp_step. rewrite (Uint64_small len) by done. apply wp_load_area; auto; [lia|]. intros b.
  wp_step. destruct EnablePreimageRecording; repeat wp_step; go_on. by apply (zacts_op (OAddPreimage (Keccak256Hash b) b)).
Qed.

Lemma opBalance_ok : exec_ok S11 opBalance.
Proof. operands 1. unfold opBalance. repeat wp_step. go_on. by rewrite u_FromBig_law; auto with evm. Qed.

Lemma opCallDataLoad_ok : exec_ok S11 opCallDataLoad.
Proof.
  operands 1. unfold opCallDataLoad. wp_step. wp_step. unfold Uint64WithOverflow. rewrite Uint64_eq by done. destruct (negb (negb _)); repeat wp_step; [|go_on].
  destruct (getData_total inp (u64 z) 32) as [b E]; [unfold u64; div_lia|lia|]. eapply wp_lift; [exact E|]. repeat wp_step. go_on.
Qed.

Lemma copy_data_ok sg data memOffset dataOffset length f0 p st m c inp an jd ict rd temp vm :
  let f := Build_Frame p st m c inp an jd ict rd temp vm in
  inv f0 -> contract f0 = c -> analysis f0 = an -> jumpdests f0 = jd -> machine f0 = vm -> mem_ok m -> Forall word st -> 0 <= p -> 0 <= temp ->
  (Datatypes.length st + sig_pops sg = Datatypes.length (stack f0) + sig_pushes sg)%nat -> sig_kind sg = Plain ->
  word memOffset -> word dataOffset -> 0 <= length < 2 ^ 64 -> (length = 0 \/ memOffset + length <= Len m) ->
  wp T (copy_data data memOffset dataOffset length) (post sg f0) f.
Proof.
  intros f Hi0 E1 E2 E3 E4 Hm Hst Hp Ht Hlen Hk Wm Wd Hl Hf. unfold copy_data, Uint64WithOverflow. rewrite (Uint64_eq dataOffset) by done.
  rewrite (Uint64_small length) by done. pose proof (mem_small _ Hm) as Hs. unfold mem_limit in Hs.
  assert (Hoff : 0 <= if negb (u_IsUint64 dataOffset) then MaxUint64 else u64 dataOffset).
  { destruct (negb _); [unfold MaxUint64; lia|unfold u64; div_lia]. }
  destruct (getData_total (data f) _ length Hoff) as [b E]; [unfold word in Wm; lia|]. wp_step. eapply wp_lift; [exact E|]. wp_step.
  destruct (mem_Set_area memOffset length b m Hm Wm Hl Hf) as (m' & Em & Hm' & _). eapply wp_on_mem; [exact Em|]. wp_step.
  unfold post. cbn [snd]. split; [by rewrite Hk|]. apply plain_goes_on; auto; subst vm; [apply zacts_refl|by rewrite Hk].
Qed.

Lemma opCallDataCopy_ok : exec_ok (Sig 3 0 [(0%nat, inl 2%nat)] Plain) opCallDataCopy.
Proof. operands 3. areas. unfold opCallDataCopy. repeat wp_step. apply copy_data_ok; auto; cbn; lia. Qed.

Lemma opCodeCopy_ok : exec_ok (Sig 3 0 [(0%nat, inl 2%nat)] Plain) opCodeCopy.
Proof. operands 3. areas. unfold opCodeCopy. repeat wp_step. apply copy_data_ok; auto; cbn; lia. Qed.

Lemma opExtCodeCopy_ok : exec_ok (Sig 4 0 [(1%nat, inl 3%nat)] Plain) opExtCodeCopy.
Proof. operands 4. areas. unfold opExtCodeCopy. repeat wp_step. apply copy_data_ok; auto; cbn; lia. Qed.

Lemma opReturnDataCopy_ok : exec_ok (Sig 3 0 [(0%nat, inl 2%nat)] Plain) opReturnDataCopy.
Proof.
  operands 3. areas. unfold opReturnDataCopy, Uint64WithOverflow. repeat wp_step. match goal with W : word z0 |- _ => pose proof W as Wd end.
  destruct (u_tests z0 Wd) as (_ & _ & _ & -> & ->). destruct (Z.ltb_spec z0 (2 ^ 64)) as [H64|H64]; cbn [negb].
  2:{ wp_step. by apply ended_plain; auto using zacts_refl. }
  assert (Hd0 : 0 <= z0) by (unfold word in Wd; lia). destruct (u_arith z0 len) as (Ea & _); [done|unfold word; lia|]. rewrite Ea.
  assert (Eu : unsigned (z0 + len) = z0 + len) by (unfold unsigned; rewrite Z.mod_small; lia). rewrite Eu.
  destruct (u_tests (z0 + len)) as (_ & _ & _ & -> & ->); [unfold word; lia|]. wp_step. wp_step.
  destruct (negb _ || _) eqn:Ho; [wp_step; by apply ended_plain; auto using zacts_refl|]. apply orb_false_iff in Ho as [Ho _]. apply negb_false_iff, Z.ltb_lt in Ho.
  assert (E1 : u64 (z0 + len) = z0 + len) by (unfold u64; rewrite Z.mod_small; lia). assert (E2 : u64 z0 = z0) by (unfold u64; rewrite Z.mod_small; lia).
  rewrite E1, E2. destruct (Z.ltb_spec (z0 + len) z0); [lia|]. wp_step. rewrite (Uint64_small len) by done.
  destruct (mem_Set_area off len (take (Z.to_nat (z0 + len - z0)) (drop (Z.to_nat z0) rd)) m) as (m' & Em & Hm' & _); auto.
  eapply wp_on_mem; [exact Em|]. wp_step. go_on.
Qed.

Lemma opExtCodeSize_ok : exec_ok S11 opExtCodeSize.
Proof. operands 1. unfold opExtCodeSize. repeat wp_step. go_on. Qed.

Lemma opExtCodeHash_ok : exec_ok S11 opExtCodeHash.
Proof. operands 1. unfold opExtCodeHash. repeat wp_step. go_on. destruct (Empty _ _); auto with evm. Qed.

Lemma opBlockhash_ok : exec_ok S11 opBlockhash.
Proof.
  operands 1. unfold opBlockhash, Uint64WithOverflow. repeat wp_step. destruct (negb _); repeat wp_step; go_on. destruct (_ && _); auto with evm.
Qed.

Lemma opPop_ok : exec_ok (Sig 1 0 [] Plain) opPop.
Proof. operands 1. unfold opPop. repeat wp_step. go_on. Qed.

Lemma opMload_ok : exec_ok (Sig 1 1 [(0%nat, inr 32)] Plain) opMload.
Proof. operands 1. areas. unfold opMload. repeat wp_step. apply wp_load_area; auto; [lia|]. intros b. repeat wp_step. go_on. Qed.

Lemma opMstore_ok : exec_ok (Sig 2 0 [(0%nat, inr 32)] Plain) opMstore.
Proof.
  operands 2. areas. unfold opMstore. repeat wp_step. destruct (mem_Set32_area off z0 m) as (m' & E & Hm' & _); auto; [lia|].
  eapply wp_on_mem; [exact E|]. wp_step. go_on.
Qed.

Lemma opMstore8_ok : exec_ok (Sig 2 0 [(0%nat, inr 1)] Plain) opMstore8.
Proof.
  operands 2. areas. unfold opMstore8. repeat wp_step. pose proof (mem_small _ HM) as Hs. unfold mem_limit in Hs.
  match goal with W : word off |- _ => unfold word in W end. rewrite (Uint64_small off) by lia.
  destruct (lookup_lt_is_Some_2 (store m) (Z.to_nat off)) as [b Eb]; [unfold Len, zlen in *; lia|].
  eapply wp_on_mem; [cbn; by rewrite Eb|]. wp_step. go_on. apply mem_ok_store; [|done]. unfold Len, zlen. by rewrite length_insert.
Qed.

Lemma opSload_ok : exec_ok S11 opSload.
Proof. operands 1. unfold opSload. repeat wp_step. go_on. Qed.

(** An operation that is refused in read-only mode. *)
Lemma protected_ok sg ex : exec_ok sg ex -> exec_ok sg (if readOnly then stop_with ErrWriteProtection else ex).
Proof. intros Hex f Hi Hl Hd. destruct readOnly; [wp_step; by apply ended_plain; auto using zacts_refl|by apply Hex]. Qed.

Lemma opSstore_ok : exec_ok (Sig 2 0 [] Plain) (opSstore readOnly).
Proof. apply protected_ok. operands 2. repeat wp_step. go_on. by apply (zacts_op (OSetState (contract_self c) (u_Bytes32 z) (u_Bytes32 z0))). Qed.

Lemma opSelfBalance_ok : exec_ok S01 opSelfBalance.
Proof. operands 0. unfold opSelfBalance. repeat wp_step. go_on. by rewrite u_FromBig_law; auto with evm. Qed.

Lemma opTload_ok : exec_ok S11 opTload.
Proof. operands 1. unfold opTload. repeat wp_step. go_on. Qed.

Lemma opTstore_ok : T -> exec_ok (Sig 2 0 [] Plain) (opTstore readOnly).
Proof.
  intros HT. apply protected_ok. operands 2. repeat wp_step.
  destruct (SetTransientState (contract_self c) (u_Bytes32 z) (u_Bytes32 z0) (vm_state vm)) as [s|] eqn:E; [|unfold wp, try; cbn; by rewrite E].
  eapply wp_try; [exact E|]. wp_step. go_on. by apply (zacts_op (OSetTransientState c.(contract_self) (u_Bytes32 z) (u_Bytes32 z0))).
Qed.

(** *** Jumps and constants *)
Lemma jump_to_ok sg dest f0 p st m c inp an jd ict rd temp vm :
  let f := Build_Frame p st m c inp an jd ict rd temp vm in
  inv f0 -> contract f0 = c -> analysis f0 = an -> jumpdests f0 = jd -> machine f0 = vm -> mem_ok m -> Forall word st -> 0 <= temp ->
  (length st + sig_pops sg = length (stack f0) + sig_pushes sg)%nat -> sig_kind sg = Plain -> word dest ->
  wp T (jump_to dest) (post sg f0) f.
Proof.
  intros f Hi0 E1 E2 E3 E4 Hm Hst Ht Hlen Hk Wd. assert (Hc : caches_ok f).
  { destruct (inv_caches f0 Hi0) as [C1 C2]. subst. by split. }
  unfold jump_to. wp_step. destruct (validJumpdest_total dest f Wd Hc) as (f1 & E & Hf1 & Hc1). unfold wp at 1. rewrite E.
  assert (Hsame : contract f1 = c /\ machine f1 = vm /\ stack f1 = st /\ mem f1 = m /\ callGasTemp f1 = temp) by (rewrite Hf1; done).
  destruct Hsame as (Ec & Ev & Es & Em & Et). destruct (_ && _); cbn [negb].
  - repeat wp_step. unfold post. cbn [snd]. split; [by rewrite Hk|]. apply cached_goes_on; try done; cbn; rewrite ?Ec, ?Ev, ?Es, ?Em, ?Et; try done.
    all: first [by destruct Hc1 as [C1 C2]; cbn in C1, C2; rewrite <- Ec in *; split|rewrite E4; apply zacts_refl|unfold u64; div_lia|by rewrite Hk].
  - wp_step. apply ended_plain; [done|by rewrite Ec|]. rewrite Ev, E4. apply zacts_refl.
Qed.

Lemma opJump_ok : exec_ok (Sig 1 0 [] Plain) opJump.
Proof.
  operands 1. unfold opJump. repeat wp_step. destruct (evm_abort _); repeat wp_step; [by apply ended_plain; auto using zacts_refl|].
  apply jump_to_ok; auto. cbn. lia.
Qed.

Lemma opJumpi_ok : exec_ok (Sig 2 0 [] Plain) opJumpi.
Proof.
  operands 2. unfold opJumpi. repeat wp_step. destruct (evm_abort _); repeat wp_step; [by apply ended_plain; auto using zacts_refl|].
  destruct (negb _); [|wp_step; go_on]. apply jump_to_ok; auto. cbn. lia.
Qed.

Lemma opJumpdest_ok : exec_ok (Sig 0 0 [] Plain) opJumpdest.
Proof. operands 0. unfold opJumpdest. wp_step. go_on. Qed.

Lemma code_byte_word (c : Contract) i : word (u64 (default 0 (contract_Code c !! i))).
Proof. apply u64_word. Qed.

Lemma opPush1_ok : exec_ok S01 opPush1.
Proof. operands 0. unfold opPush1, advance. repeat wp_step. go_on. unfold u64. div_lia. Qed.

Lemma makePush_ok size n : 0 <= n -> exec_ok S01 (makePush size n).
Proof.
  intros Hn. operands 0. unfold makePush. repeat wp_step. cbn [contract pc]. pose proof (zlen_nonneg (contract_Code c)) as Hz.
  destruct (_ || _) eqn:Eo.
  - exfalso. apply orb_true_iff in Eo. rewrite !Z.ltb_lt in Eo. repeat case_match; bools; lia.
  - unfold advance. repeat wp_step. go_on. unfold u64. div_lia.
Qed.

Lemma makeDup_ok n : (1 <= n)%nat -> exec_ok (Sig n (S n) [] Plain) (makeDup n).
Proof.
  intros Hn. operands 0. unfold makeDup, dup. destruct (lookup_lt_is_Some_2 st (n - 1)) as [x Ex]; [lia|]. wp_step.
  eapply wp_lift; [cbn; by rewrite Ex|]. repeat wp_step. go_on. by eapply Forall_lookup_1.
Qed.

Lemma makeSwap_ok n : (1 <= n)%nat -> exec_ok (Sig (S n) (S n) [] Plain) (makeSwap n).
Proof.
  intros Hn. operands 0. unfold makeSwap, swap. destruct (lookup_lt_is_Some_2 st 0) as [x Ex]; [lia|].
  destruct (lookup_lt_is_Some_2 st (S n - 1)) as [y Ey]; [lia|]. wp_step. eapply wp_lift; [cbn [stack]; rewrite Ex, Ey; reflexivity|]. repeat wp_step. go_on.
  - apply Forall_insert; [apply Forall_insert; [done|]|]; by eapply Forall_lookup_1.
  - rewrite !length_insert. lia.
Qed.

(** *** Ends of a run *)
Lemma opStop_ok sg : exec_ok sg opStop.
Proof. intros f Hi _ _. unfold opStop. wp_step. by apply ended_plain; auto using zacts_refl. Qed.

Lemma opReturn_ok : exec_ok (Sig 2 0 [(0%nat, inl 1%nat)] Halt) opReturn.
Proof.
  operands 2. areas. unfold opReturn. repeat wp_step. rewrite (Uint64_small len) by done. apply wp_load_area; auto; [lia|]. intros b. wp_step.
  by apply ended_plain; auto using zacts_refl.
Qed.

Lemma opRevert_ok : exec_ok (Sig 2 0 [(0%nat, inl 1%nat)] Halt) opRevert.
Proof.
  operands 2. areas. unfold opRevert. repeat wp_step. rewrite (Uint64_small len) by done. apply wp_load_area; auto; [lia|]. intros b. repeat wp_step.
  by apply ended_plain; auto using zacts_refl.
Qed.

Lemma opSelfdestruct_ok : exec_ok (Sig 1 0 [] Halt) (opSelfdestruct readOnly).
Proof.
  apply protected_ok. operands 1. repeat wp_step. apply ended_plain; auto. cbn. set (s1 := AddBalance _ _ _).
  assert (A : zacts (vm_state vm) s1) by by apply AddBalance_zacts. eapply zacts_trans; [exact HG'|exact A|].
  apply (zacts_op (OSuicide (contract_self c))); [exact (zacts_good _ _ HG' A)|done|exact HS'|done].
Qed.

(** *** Logs *)
Lemma wp_pop_topics n Q f :
  (n <= length (stack f))%nat -> (forall l st, stack f = l ++ st -> length l = n -> forall ts, Q ts (f <| stack := st |>)) -> wp T (pop_topics n) Q f.
Proof.
  revert Q f. induction n as [|n IH]; intros Q f Hl HQ; cbn [pop_topics].
  - apply wp_ret. specialize (HQ [] (stack f) eq_refl eq_refl []). by destruct f.
  - destruct (stack f) as [|x st] eqn:Es; [cbn in Hl; lia|]. wp_step. eapply wp_pop; [exact Es|]. wp_step. apply IH; [destruct f; cbn in *; lia|].
    intros l st' El Hll ts. wp_step. assert (E : st = l ++ st') by by destruct f. specialize (HQ (x :: l) st' ltac:(by rewrite E) ltac:(cbn; lia) (u_Bytes32 x :: ts)).
    by destruct f.
Qed.

Lemma makeLog_ok n : exec_ok (Sig (n + 2) 0 [(0%nat, inl 1%nat)] Plain) (makeLog readOnly n).
Proof.
  apply protected_ok. operands 2. areas. repeat wp_step. apply wp_pop_topics; [cbn in *; lia|]. intros l st' El Hll ts. cbn in El. subst st.
  repeat wp_step. rewrite (Uint64_small len) by done. apply wp_load_area; auto; [lia|]. intros b. repeat wp_step. apply Forall_app in HW as [_ HW].
  go_on; [rewrite length_app; lia|]. by apply AddLog_zacts.
Qed.

(** *** Creation and calls *)
Lemma gas_goes_on sg f f' :
  inv f -> contract f' = (contract f) <| contract_Gas := contract_Gas (contract f') |> -> (analysis f' = analysis f /\ jumpdests f' = jumpdests f) ->
  0 <= contract_Gas (contract f') <= contract_Gas (contract f) + bonus (sig_kind sg) f ->
  Forall word (stack f') -> (length (stack f') + sig_pops sg = length (stack f) + sig_pushes sg)%nat ->
  mem_ok (mem f') -> zacts (vm_state (machine f)) (vm_state (machine f')) -> 0 <= pc f' -> 0 <= callGasTemp f' -> goes_on sg f f'.
Proof.
  intros Hi Ec (Ea & Ej) Hg Hw Hl Hm Hact Hpc Ht. pose proof (zacts_good _ _ (inv_good f Hi) Hact) as Hgd. split; try done; [|lia].
  split; try done; [lia| |rewrite Ec; apply (inv_self f Hi)]. destruct (inv_caches f Hi) as [C1 C2]. by split; rewrite Ec; cbn; [rewrite Ea|rewrite Ej].
Qed.

Lemma wp_with_evm g gas Q f :
  ran T (vm_state (machine f)) gas (g (contract_ref (contract f)) (machine f)) ->
  (forall ret rg err vm, 0 <= rg <= gas -> zacts (vm_state (machine f)) (vm_state vm) -> Q (ret, rg, err) (f <| machine := vm |>)) ->
  wp T (with_evm g) Q f.
Proof.
  intros Ho HQ. unfold wp, with_evm. destruct (g _ _) as [[[[ret rg] err] vm]|]; [|done]. destruct Ho. by apply HQ.
Qed.

Lemma wp_with_create g gas Q f :
  ran T (vm_state (machine f)) gas (drop_address (g (contract_ref (contract f)) (machine f))) ->
  (forall ret a rg err vm, 0 <= rg <= gas -> zacts (vm_state (machine f)) (vm_state vm) -> Q (ret, a, rg, err) (f <| machine := vm |>)) ->
  wp T (with_evm g) Q f.
Proof.
  intros Ho HQ. unfold wp, with_evm. destruct (g _ _) as [[[[[ret a] rg] err] vm]|]; [|done]. destruct Ho. by apply HQ.
Qed.

Lemma u64_le x : 0 <= x -> 0 <= u64 x <= x.
Proof. intros Hx. unfold u64. split; [div_lia|]. by apply Z.mod_le. Qed.

Lemma finish_call_ok sg retOffset retSize ret rg err Q f0 p st m c inp an jd ict rd temp vm :
  let f := Build_Frame p st m c inp an jd ict rd temp vm in
  inv f0 -> contract f0 = c -> analysis f0 = an -> jumpdests f0 = jd -> mem_ok m -> Forall word st -> 0 <= p -> 0 <= temp ->
  zacts (vm_state (machine f0)) (vm_state vm) -> (S (length st) + sig_pops sg = length (stack f0) + sig_pushes sg)%nat ->
  word retOffset -> 0 <= retSize < 2 ^ 64 -> (retSize = 0 \/ retOffset + retSize <= Len m) ->
  0 <= rg <= bonus (sig_kind sg) f0 -> (forall f', goes_on sg f0 f' -> Q tt f') ->
  wp T (finish_call retOffset retSize ret rg err) Q f.
Proof.
  intros f Hi E1 E2 E3 Hm Hst Hp Ht Ha Hl Wo Hs Hf Hrg HQ. pose proof (inv_gas f0 Hi) as Hgas. unfold finish_call. repeat wp_step.
  assert (Hend : forall m', mem_ok m' -> wp T (return_gas rg;;; modify (fun f => f <| returnData := ret |>)) Q
      (Build_Frame p (test (negb (failed err)) :: st) m' c inp an jd ict rd temp vm)).
  { intros m' Hm'. repeat wp_step. apply HQ, gas_goes_on; cbn; try done; rewrite ?E1 in *; try lia.
    all: first [split; congruence|by apply Forall_cons_2; auto with evm|pose proof (u64_le (contract_Gas c + rg)); lia]. }
  destruct (_ || _); [|repeat wp_step; by apply Hend].
  destruct (mem_Set_area retOffset retSize ret m) as (m' & Em & Hm' & _); [done..|]. rewrite (Uint64_small retSize) by done.
  eapply wp_on_mem; [exact Em|]. by apply Hend.
Qed.

Lemma goes_on_count sg f f' t : goes_on sg f f' -> goes_on sg f (f' <| internalCallTable := t |>).
Proof. intros [[? ? ? ? [? ?] ? ? ?] ? ? ? ?]. destruct f'. split; [split; [done..|by split|done|done|done]|done..]. Qed.

Lemma call_value_ok value g (b : bool) : word value -> b = u_IsZero value -> 0 <= g ->
  0 <= (if negb b then u64 (g + CallStipend) else g) <= g + (if value =? 0 then 0 else CallStipend).
Proof.
  intros Hv -> Hg. destruct (u_tests value Hv) as (-> & _). destruct (value =? 0); cbn [negb]; [lia|]. apply u64_le. unfold CallStipend. lia.
Qed.

Lemma opCall_ok : exec_ok (Sig 7 1 [(5%nat, inl 6%nat); (3%nat, inl 4%nat)] (Calls (Some 2%nat))) (opCall readOnly).
Proof.
  operands 7. areas. unfold opCall. repeat wp_step. rewrite (Uint64_small len0) by done. apply wp_load_area; auto; [lia|]. intros args.
  destruct (_ && _); [wp_step; by apply ended_plain; auto using zacts_refl|]. wp_step.
  pose proof (call_value_ok z1 temp _ ltac:(done) eq_refl HT') as Hg. cbn [callGasTemp].
  eapply wp_with_evm; [cbv beta; apply Call_out; [exact (inv_good _ Hi)|exact (proj1 Hg)]|]. intros ret rg err vm' Hrg Ha. wp_step. cbn in Hrg, Ha. eapply finish_call_ok.
  all: try done; cbn; try lia.
Qed.

Lemma opCallCode_ok : exec_ok (Sig 7 1 [(5%nat, inl 6%nat); (3%nat, inl 4%nat)] (Calls (Some 2%nat))) opCallCode.
Proof.
  operands 7. areas. unfold opCallCode. repeat wp_step. rewrite (Uint64_small len0) by done. apply wp_load_area; auto; [lia|]. intros args. wp_step.
  pose proof (call_value_ok z1 temp _ ltac:(done) eq_refl HT') as Hg. cbn [callGasTemp].
  eapply wp_with_evm; [cbv beta; apply CallCode_out; [exact HG'|exact (proj1 Hg)|exact HS']|]. intros ret rg err vm' Hrg Ha. wp_step. cbn in Hrg, Ha. eapply finish_call_ok.
  all: cycle -1. { intros f' Hf'. unfold count_call. repeat wp_step. split; [done|]. by apply goes_on_count. }
  all: try done; cbn; try lia.
Qed.

Lemma plain_call_ok call :
  (forall self from v addr input gas vm, zgood (vm_state vm) -> 0 <= gas -> (zone -> self <> 0) -> ran T (vm_state vm) gas (call (RunningContract self from v) addr input gas vm)) ->
  exec_ok (Sig 6 1 [(4%nat, inl 5%nat); (2%nat, inl 3%nat)] (Calls None)) (plain_call call).
Proof.
  intros Hcall. operands 6. areas. unfold plain_call. repeat wp_step. rewrite (Uint64_small len0) by done. apply wp_load_area; auto; [lia|]. intros args. wp_step.
  eapply wp_with_evm; [cbv beta; apply Hcall; [exact HG'|exact HT'|exact HS']|]. intros ret rg err vm' Hrg Ha. wp_step. cbn in Hrg, Ha. eapply finish_call_ok.
  all: cycle -1. { intros f' Hf'. unfold count_call. repeat wp_step. split; [done|]. by apply goes_on_count. }
  all: try done; cbn; try lia.
Qed.

Lemma opDelegateCall_ok : exec_ok (Sig 6 1 [(4%nat, inl 5%nat); (2%nat, inl 3%nat)] (Calls None)) opDelegateCall.
Proof. apply plain_call_ok. intros. by apply DelegateCall_out. Qed.

Lemma opStaticCall_ok : exec_ok (Sig 6 1 [(4%nat, inl 5%nat); (2%nat, inl 3%nat)] (Calls None)) opStaticCall.
Proof. apply plain_call_ok. intros. by apply StaticCall_out. Qed.

Lemma finish_create_ok sg v res rg err f0 p st m c inp an jd ict rd temp vm :
  let f := Build_Frame p st m c inp an jd ict rd temp vm in
  inv f0 -> c = (contract f0) <| contract_Gas := contract_Gas c |> -> analysis f0 = an -> jumpdests f0 = jd -> mem_ok m -> Forall word st -> 0 <= p ->
  0 <= temp -> zacts (vm_state (machine f0)) (vm_state vm) -> (S (length st) + sig_pops sg = length (stack f0) + sig_pushes sg)%nat -> sig_kind sg = Plain ->
  word v -> 0 <= contract_Gas c -> 0 <= rg -> contract_Gas c + rg <= contract_Gas (contract f0) ->
  wp T (finish_create v res rg err) (post sg f0) f.
Proof.
  intros f Hi E1 E2 E3 Hm Hst Hp Ht Ha Hl Hk Wv Hc Hrg Hg. unfold finish_create. repeat wp_step. split; [by rewrite Hk|].
  apply gas_goes_on; cbn; try done; try lia; [f_equal; by rewrite E1| |by apply Forall_cons_2]. rewrite Hk. cbn.
  pose proof (u64_le (contract_Gas c + rg)). lia.
Qed.

Lemma opCreate_ok : exec_ok (Sig 3 1 [(1%nat, inl 2%nat)] Plain) (opCreate readOnly).
Proof.
  apply protected_ok. operands 3. areas. repeat wp_step. rewrite (Uint64_small len) by done. apply wp_load_area; auto; [lia|]. intros code. repeat wp_step.
  pose proof (inv_gas _ Hi) as Hgas. cbn in Hgas |- *. set (g := if IsEIP150 then _ else _). assert (Hg : 0 <= g <= contract_Gas c) by (subst g; destruct IsEIP150; div_lia).
  apply wp_use_gas; [cbn; lia|]. intros _. wp_step. eapply wp_with_create; [cbv beta; apply Create_out; [exact HG'|lia|exact HS']|].
  intros ret a rg err vm' Hrg Ha. apply finish_create_ok; auto; cbn; try lia; try done. destruct (_ || _); auto with evm.
Qed.

Lemma opCreate2_ok : exec_ok (Sig 4 1 [(1%nat, inl 2%nat)] Plain) (opCreate2 readOnly).
Proof.
  apply protected_ok. operands 4. areas. repeat wp_step. rewrite (Uint64_small len) by done. apply wp_load_area; auto; [lia|]. intros code. repeat wp_step.
  pose proof (inv_gas _ Hi) as Hgas. cbn in Hgas |- *. set (g := _ - _ / 64). assert (Hg : 0 <= g <= contract_Gas c) by (subst g; div_lia).
  apply wp_use_gas; [cbn; lia|]. intros _. wp_step. eapply wp_with_create; [cbv beta; apply Create2_out; [exact HG'|lia|exact HS']|].
  intros ret a rg err vm' Hrg Ha. apply finish_create_ok; auto; cbn; try lia; try done. destruct (failed _); auto with evm.
Qed.
End exec_lemmas.
