(* ===== verification/EvmCalls.v ===== *)
(** * Calls over a sound interpreter

    What calls and creations promise to the operations that make them
    ([CallLaws]), from what runs of the interpreter promise ([EvmLaws]). *)
From S2P Require Import Prelude Ela Messages Rlp Header Common AccessList StateDB StateSpec StateRefine Withdraw SmallCross Recharge Evm EvmMachine EvmGas EvmInstr EvmTable EvmSound EvmExec.

Section calls.
Context `{!Keccak} `{!Database} `{!Zone} `{!ElaLib} `{!Codec} `{!SpvLib} `{!EvmEnv} (T : Prop) `{!EvmLaws T}.

Lemma calls_sound : CallLaws T.
Proof.
  split.
  - intros. by apply (Call_outcome (T := T)).
  - intros. by apply call_ok_ran, CallCode_ok.
  - intros. by apply call_ok_ran, DelegateCall_ok.
  - intros. by apply call_ok_ran, StaticCall_ok.
  - intros. by apply create_ran.
  - intros. by apply create_ran.
Qed.
End calls.
