(* ===== verification/EvmOps.v ===== *)
(** * The instruction sets are sound

    Every operation of the set of a fork agrees with the signature of its op-code:
    the stack it takes and leaves, the memory it touches and pays for, and a cost
    of at least one unit unless it ends the run. *)
From S2P Require Import Prelude Ela Messages Rlp Header Common AccessList StateDB StateSpec StateRefine Withdraw SmallCross Recharge Evm EvmMachine EvmGas EvmInstr EvmTable EvmSound EvmExec.

#[local] Notation Sig n m nds k := {| sig_pops := n; sig_pushes := m; sig_needs := nds; sig_kind := k |}.

(** The signature of an op-code. *)
Definition sig_of (i : Z) : sig :=
  if (128 <=? i) && (i <=? 143) then Sig (Z.to_nat (i - 127)) (S (Z.to_nat (i - 127))) [] Plain
  else if (144 <=? i) && (i <=? 159) then Sig (S (Z.to_nat (i - 143))) (S (Z.to_nat (i - 143))) [] Plain
  else if (160 <=? i) && (i <=? 164) then Sig (Z.to_nat (i - 160) + 2) 0 [(0%nat, inl 1%nat)] Plain
  else match i with
  | 0 => Sig 0 0 [] Halt
  | 1 | 2 | 3 | 4 | 5 | 6 | 7 | 10 | 11 | 16 | 17 | 18 | 19 | 20 | 22 | 23 | 24 | 26 | 27 | 28 | 29 => Sig 2 1 [] Plain
  | 8 | 9 => Sig 3 1 [] Plain
  | 21 | 25 | 49 | 53 | 59 | 63 | 64 | 84 | 179 => Sig 1 1 [] Plain
  | 32 => Sig 2 1 [(0%nat, inl 1%nat)] Plain
  | 55 | 57 | 62 => Sig 3 0 [(0%nat, inl 2%nat)] Plain
  | 60 => Sig 4 0 [(1%nat, inl 3%nat)] Plain
  | 80 | 86 => Sig 1 0 [] Plain
  | 81 => Sig 1 1 [(0%nat, inr 32)] Plain
  | 82 => Sig 2 0 [(0%nat, inr 32)] Plain
  | 83 => Sig 2 0 [(0%nat, inr 1)] Plain
  | 85 | 87 | 180 => Sig 2 0 [] Plain
  | 91 => Sig 0 0 [] Plain
  | 240 => Sig 3 1 [(1%nat, inl 2%nat)] Plain
  | 241 | 242 => Sig 7 1 [(5%nat, inl 6%nat); (3%nat, inl 4%nat)] (Calls (Some 2%nat))
  | 243 | 253 => Sig 2 0 [(0%nat, inl 1%nat)] Halt
  | 244 | 250 => Sig 6 1 [(4%nat, inl 5%nat); (2%nat, inl 3%nat)] (Calls None)
  | 245 => Sig 4 1 [(1%nat, inl 2%nat)] Plain
  | 255 => Sig 1 0 [] Halt
  | _ => Sig 0 1 [] Plain
  end.

Definition has_needs (sg : sig) : bool := match sig_needs sg with [] => false | _ => true end.

Create HintDb ops.
#[local] Hint Constants Opaque : ops.
#[local] Hint Resolve opKeccak256_ok opBalance_ok opCallDataLoad_ok opCallDataCopy_ok opCodeCopy_ok opExtCodeCopy_ok opReturnDataCopy_ok
  opExtCodeSize_ok opExtCodeHash_ok opBlockhash_ok opPop_ok opMload_ok opMstore_ok opMstore8_ok opSload_ok opSstore_ok opSelfBalance_ok
  opAddmod_ok opMulmod_ok opJump_ok opJumpi_ok opJumpdest_ok opPush1_ok opStop_ok opReturn_ok opRevert_ok opSelfdestruct_ok opCreate_ok
  opCreate2_ok opCall_ok opCallCode_ok opDelegateCall_ok opStaticCall_ok opTload_ok : ops.

Section ops.
Context `{!Uint256} `{!Uint256Laws} `{!Keccak} `{!Database} `{!Zone} `{!ElaLib} `{!Codec} `{!SpvLib} `{!EvmEnv} `{!Rules} `{!BlockEnv}.
Context (T : Prop) `{!CallLaws T} (readOnly : bool).

Lemma gas_ok_more has_mem p q k d g : (p <= q)%nat -> gas_ok T has_mem p k d g -> gas_ok T has_mem q k d g.
Proof. intros Hpq Hg size f Hi Hl. apply Hg; [done|lia]. Qed.

(** The constant and the dynamic cost. *)
Definition cost_ok (sg : sig) (c : Z) (dyn : option gasFunc) : Prop :=
  0 <= c /\
  match dyn with
  | None => sig_needs sg = [] /\ match sig_kind sg with Plain => 1 <= c | Halt => True | Calls _ => False end
  | Some g => exists d, 0 <= d /\ gas_ok T (has_needs sg) (sig_pops sg) (sig_kind sg) d g /\ (sig_kind sg <> Halt -> 1 <= c + d)
  end.

Record op_ok (sg : sig) (o : operation) : Prop := {
  ok_exec : exec_ok T sg (execute o);
  ok_min : min_stack o = Z.of_nat (sig_pops sg);
  ok_max : max_stack o = StackLimit + Z.of_nat (sig_pops sg) - Z.of_nat (sig_pushes sg);
  ok_size : match memorySize o with None => sig_needs sg = [] | Some ms => has_needs sg = true /\ size_ok (sig_needs sg) (sig_pops sg) ms end;
  ok_cost : cost_ok sg (constantGas o) (dynamicGas o);
  (** Creations have a constant cost. *)
  ok_create : sig_needs sg = [(1%nat, inl 2%nat)] -> 1 <= constantGas o
}.

(** ** Tables

    The op-codes of [D] are defined. *)
Definition table_ok (D : list Z) (jt : JumpTable) : Prop :=
  length jt = 256%nat /\
  forall i o, jt !! i = Some o -> if bool_decide (Z.of_nat i ∈ D) then op_ok (sig_of (Z.of_nat i)) o else o = undefined_op.

Lemma undefined_table : table_ok [] (replicate 256 undefined_op).
Proof.
  split; [by rewrite length_replicate|]. intros i o Ho. apply lookup_replicate_1 in Ho as [-> _].
  rewrite bool_decide_eq_false_2; [done|apply not_elem_of_nil].
Qed.

Lemma set_op_ok D i o jt : 0 <= i -> op_ok (sig_of i) o -> table_ok D jt -> table_ok (i :: D) (set_op i o jt).
Proof.
  intros Hi Ho [Hl Hjt]. split; [unfold set_op, JumpTable; by rewrite length_insert|]. intros j o' Hj. unfold set_op, JumpTable in *.
  destruct (decide (j = Z.to_nat i)) as [->|Hne].
  - rewrite list_lookup_insert_eq in Hj by (apply lookup_lt_Some in Hj; by rewrite length_insert in Hj). injection Hj as <-.
    rewrite Z2Nat.id by done. rewrite bool_decide_eq_true_2; [done|by left].
  - rewrite list_lookup_insert_ne in Hj by done. specialize (Hjt j o' Hj). assert (Z.of_nat j <> i) by lia.
    rewrite (bool_decide_ext _ (Z.of_nat j ∈ D)); [done|]. rewrite elem_of_cons. tauto.
Qed.

Lemma set_ops_ok D l jt :
  Forall (fun x => 0 <= x.1 /\ op_ok (sig_of x.1) x.2) l -> table_ok D jt -> table_ok (l.*1 ++ D) (set_ops l jt).
Proof. intros Hl Hjt. induction Hl as [|[i o] l [Hi Ho] _ IH]; [done|]. by apply set_op_ok. Qed.

Lemma change_op_ok D i g jt :
  0 <= i -> i ∈ D -> (forall o, op_ok (sig_of i) o -> op_ok (sig_of i) (g o)) -> table_ok D jt -> table_ok D (change_op i g jt).
Proof.
  intros Hi HD Hg [Hl Hjt]. split; [unfold change_op, JumpTable; by rewrite length_alter|]. intros j o Hj. unfold change_op, JumpTable in *.
  destruct (decide (j = Z.to_nat i)) as [->|Hne].
  - rewrite list_lookup_alter_eq in Hj. destruct (jt !! Z.to_nat i) as [o'|] eqn:E; [|done]. injection Hj as <-.
    specialize (Hjt _ _ E). rewrite Z2Nat.id in * by done. rewrite bool_decide_eq_true_2 in * by done. by apply Hg.
  - rewrite list_lookup_alter_ne in Hj by done. by apply Hjt.
Qed.

Lemma reprice_ok D i gas jt : 0 <= i -> i ∈ D -> 1 <= gas -> table_ok D jt -> table_ok D (reprice i gas jt).
Proof.
  intros Hi HD Hg. apply change_op_ok; [done|done|]. intros o [He Hm Hx Hs [Hc Hd] _]. split; try done. split; [cbn; lia|]. cbn.
  destruct (dynamicGas o) as [g|].
  - destruct Hd as (d & ? & ? & ?). exists d. split; [done|]. split; [done|lia].
  - split; [tauto|]. destruct Hd as [_ Hd]. by destruct (sig_kind _).
Qed.

(** A new gas function, on top of any constant cost. *)
Lemma meter_ok D i d g jt :
  0 <= i -> i ∈ D -> 0 <= d -> gas_ok T (has_needs (sig_of i)) (sig_pops (sig_of i)) (sig_kind (sig_of i)) d g ->
  (sig_kind (sig_of i) = Halt \/ 1 <= d \/ sig_needs (sig_of i) = [(1%nat, inl 2%nat)]) -> table_ok D jt -> table_ok D (meter i g jt).
Proof.
  intros Hi HD Hd Hg Hk. apply change_op_ok; [done|done|]. intros o [He Hm Hx Hs [Hc _] Hcr]. split; try done. split; [done|].
  exists d. split; [done|]. split; [done|]. intros Hh. cbn. destruct Hk as [Hk|[Hk|Hk]]; [done|lia|]. specialize (Hcr Hk). lia.
Qed.

Lemma access_ok D i d c g jt :
  0 <= i -> i ∈ D -> 0 <= d -> 0 <= c -> gas_ok T (has_needs (sig_of i)) (sig_pops (sig_of i)) (sig_kind (sig_of i)) d g ->
  (sig_kind (sig_of i) <> Halt -> 1 <= c + d) -> sig_needs (sig_of i) <> [(1%nat, inl 2%nat)] -> table_ok D jt -> table_ok D (access i c g jt).
Proof.
  intros Hi HD Hd Hc Hg Hk Hcr [Hl Hjt]. split; [unfold access, meter, reprice, change_op, JumpTable; by rewrite !length_alter|]. intros j o Hj.
  unfold access, meter, reprice, change_op, JumpTable in *. destruct (decide (j = Z.to_nat i)) as [->|Hne].
  - rewrite !list_lookup_alter_eq in Hj. destruct (jt !! Z.to_nat i) as [o'|] eqn:E; [|done]. injection Hj as <-.
    specialize (Hjt _ _ E). rewrite Z2Nat.id in * by done. rewrite bool_decide_eq_true_2 in * by done.
    destruct Hjt as [He Hm Hx Hs _ _]. split; try done. split; [done|]. by exists d.
  - rewrite !list_lookup_alter_ne in Hj by done. by apply Hjt.
Qed.

Lemma validate_ok D jt : table_ok D jt -> validate jt = Some jt.
Proof.
  intros [_ Hjt]. unfold validate. replace (forallb op_valid jt) with true; [done|]. symmetry. apply forallb_forall. intros o Ho.
  apply list_elem_of_In, list_elem_of_lookup in Ho as [i Ho]. specialize (Hjt i o Ho). case_bool_decide as Hd; [|by rewrite Hjt].
  destruct Hjt as [_ _ _ Hs [_ Hc] _]. unfold op_valid. destruct (memorySize o) as [ms|], (dynamicGas o) as [g|]; try done.
  destruct Hs as [Hs _], Hc as [Hc _]. unfold has_needs in Hs. by rewrite Hc in Hs.
Qed.

(** ** The operations *)

Lemma shift_words x y : word x -> word y ->
  word (if x <? 256 then u_Lsh y (u_Uint64 x) else 0) /\ word (if x <? 256 then u_Rsh y (u_Uint64 x) else 0) /\
  word (if 256 <? x then (if 0 <=? u_Sign y then 0 else 2 ^ 256 - 1) else u_SRsh y (u_Uint64 x)).
Proof.
  intros Hx Hy. assert (Hn : 0 <= u_Uint64 x) by (rewrite Uint64_eq by done; unfold u64; div_lia).
  destruct (shift_word y (u_Uint64 x) Hy Hn) as (? & ? & ?). split_and!; repeat case_match; auto with evm. done.
Qed.

(** [op_word] shows that an operation pushes a word. *)
Ltac op_word :=
  intros; cbv beta; first
    [by apply shift_words|by auto with evm|by apply arith_word|by apply logic_word|by eapply logic_word, word_0|rewrite u_FromBig_law; by auto with evm|by repeat case_match; rewrite ?u_FromBig_law; auto with evm].

(** [op_exec] finds the lemma about the execution of an operation. *)
Ltac op_exec :=
  cbn [execute];
  lazymatch goal with
  | |- EvmExec.exec_ok _ _ (makePush _ _) => apply makePush_ok; lia
  | |- EvmExec.exec_ok _ _ (makeDup _) => apply makeDup_ok; lia
  | |- EvmExec.exec_ok _ _ (makeSwap _) => apply makeSwap_ok; lia
  | |- EvmExec.exec_ok _ _ (makeLog _ ?n) => apply (makeLog_ok T readOnly n)
  | _ => first [ solve [eauto with ops nocore]
               | apply binary_ok; op_word | apply unary_ok; op_word | apply pushes_ok; op_word ]
  end.

(** [op_size] finds the lemma about a memory size, [op_free] shows a constant cost. *)
Ltac op_size := first [reflexivity | split; [reflexivity|]; first [apply mem_size_ok; cbn; lia|apply mem_size_uint_ok; cbn; lia|apply mem_size2_ok; cbn; lia]].
Ltac op_free := split; [by vm_compute|]; split; [reflexivity|first [exact I|by vm_compute]].

(** [op_meter] finds the lemma about a gas function. *)
Ltac op_meter :=
  split; [by vm_compute|];
  first
    [ exists 0; split; [done|]; split; [|by vm_compute];
      first [ apply memoryCopierGas_ok | apply pureMemory_ok | apply halt_ok; [done|apply pureMemory_ok] | eapply gas_ok_more, word_gas_ok; cbn; lia | apply gasSelfdestruct_ok
            | apply call_gas; [cbn; lia|]; first [apply gasCall_ok|apply gasCallCode_ok|apply gasDelegateCall_ok|apply gasStaticCall_ok] ]
    | exists 1; split; [done|]; split; [|by vm_compute]; first [ apply exp_gas_ok; [by vm_compute|cbn; lia] | apply makeGasLog_ok; [by vm_compute|cbn; lia] ] ].

Ltac op_entry :=
  match goal with |- op_ok (sig_of ?i) _ => let sg := eval vm_compute in (sig_of i) in change (sig_of i) with sg end;
  split; [op_exec|reflexivity|reflexivity|op_size|first [op_free|op_meter]|by vm_compute].

(** [op_entries] goes through a list of them. *)
Ltac op_entries := repeat (apply Forall_cons_2; [split; [by vm_compute|cbn [fst snd]; try op_entry]|]); try apply Forall_nil_2.

Ltac op_family :=
  apply Forall_fmap; match goal with |- Forall _ (seqZ ?a ?n) => let l := eval vm_compute in (seqZ a n) in change (seqZ a n) with l end;
  cbn [compose]; op_entries.

(** The rules of [SSTORE] that take back refunds may panic. *)
Context (sstore_ok : legacy_sstore = true \/ T).

Lemma frontier_ops_ok : Forall (fun x => 0 <= x.1 /\ op_ok (sig_of x.1) x.2) (frontier_ops readOnly).
Proof.
  unfold frontier_ops. rewrite !Forall_app.
  split; [unfold arithmetic_ops; op_entries|]. split; [unfold comparison_ops; op_entries|]. split; [unfold environment_ops; op_entries|].
  split; [unfold block_ops; op_entries|]. split; [|do 4 (split; [op_family|]); unfold system_ops; op_entries]. unfold storage_ops. op_entries.
  split; [apply opSstore_ok|reflexivity|reflexivity|op_size| |done]. split; [done|]. exists 1. split; [done|]. split; [by apply gasSStore_ok|done].
Qed.

(** ** The sets *)
Definition set_is (D : list Z) (set : option JumpTable) : Prop := exists jt, set = Some jt /\ table_ok D jt.

Lemma set_next D D' g set :
  (forall jt, table_ok D jt -> table_ok D' (g jt)) -> set_is D set -> set_is D' (jt ← set; validate (g jt)).
Proof. intros Hg (jt & -> & Hjt). exists (g jt). cbn [mbind option_bind]. specialize (Hg jt Hjt). by rewrite (validate_ok _ _ Hg). Qed.

Ltac in_table := apply (bool_decide_unpack _); vm_compute; exact I.
Ltac repriced := repeat (apply reprice_ok; [done|in_table|by vm_compute|]).

Definition frontier_codes : list Z := (frontier_ops readOnly).*1 ++ [].
Definition homestead_codes : list Z := DELEGATECALL :: frontier_codes.
Definition byzantium_codes : list Z := byzantium_ops.*1 ++ homestead_codes.
Definition constantinople_codes : list Z := (constantinople_ops readOnly).*1 ++ byzantium_codes.
Definition istanbul_codes : list Z := SELFBALANCE :: CHAINID :: constantinople_codes.
Definition london_codes : list Z := BASEFEE :: istanbul_codes.
Definition merge_codes : list Z := PREVRANDAO :: london_codes.
Definition shanghai_codes : list Z := PUSH0 :: merge_codes.

Lemma frontier_set : set_is frontier_codes (newFrontierInstructionSet readOnly).
Proof.
  pose proof (set_ops_ok _ _ _ frontier_ops_ok undefined_table) as H'. eexists. split; [by apply (validate_ok frontier_codes)|done].
Qed.

Lemma homestead_set : set_is homestead_codes (newHomesteadInstructionSet readOnly).
Proof. eapply set_next, frontier_set. intros jt Hjt. apply set_op_ok; [done| |done]. op_entry. Qed.

Lemma tangerine_set : set_is homestead_codes (newTangerineWhistleInstructionSet readOnly).
Proof. eapply set_next, homestead_set. intros jt Hjt. by repriced. Qed.

Lemma spurious_set : set_is homestead_codes (newSpuriousDragonInstructionSet readOnly).
Proof.
  eapply set_next, tangerine_set. intros jt Hjt. apply (meter_ok _ _ 1); [done|in_table|done| |by right; left|done]. apply exp_gas_ok; [done|cbn; lia].
Qed.

Lemma byzantium_set : set_is byzantium_codes (newByzantiumInstructionSet readOnly).
Proof. eapply set_next, spurious_set. intros jt Hjt. apply set_ops_ok; [|done]. unfold byzantium_ops. op_entries. Qed.

Lemma constantinople_set : set_is constantinople_codes (newConstantinopleInstructionSet readOnly).
Proof.
  eapply set_next, byzantium_set. intros jt Hjt. apply set_ops_ok; [|done]. unfold constantinople_ops. op_entries.
Qed.

(** From Istanbul on, [SSTORE] takes back refunds; from Berlin on, calls are
    priced for the gas rules of EIP-150. *)
Section late.
Context (panics : T) (eip150 : IsEIP150 = true).

Ltac metered d lem := apply (meter_ok _ _ d); [done|in_table|done|apply lem; done|first [by left|by right; left|by right; right]|].
Ltac accessed d lem := apply (access_ok _ _ d); [done|in_table|done|by vm_compute|apply lem; cbn; (done || lia)|by vm_compute|by vm_compute|].

Lemma istanbul_set : set_is istanbul_codes (newIstanbulInstructionSet readOnly).
Proof.
  eapply set_next, constantinople_set. intros jt Hjt. unfold enable2200, enable1884, enable1344. metered 1 gasSStoreEIP2200_ok. repriced.
  apply set_op_ok; [done|op_entry|]. repriced. apply set_op_ok; [done|op_entry|done].
Qed.

Lemma call_variants :
  gas_ok T true 7 (Calls (Some 2%nat)) 0 gasCallEIP2929 /\ gas_ok T true 7 (Calls (Some 2%nat)) 0 gasCallCodeEIP2929 /\
  gas_ok T true 6 (Calls None) 0 gasDelegateCallEIP2929 /\ gas_ok T true 6 (Calls None) 0 gasStaticCallEIP2929.
Proof.
  split_and!; apply makeCallVariant_ok; try done; try lia; auto using gasCall_ok, gasCallCode_ok, gasDelegateCall_ok, gasStaticCall_ok.
Qed.

Lemma berlin_set : set_is istanbul_codes (newBerlinInstructionSet readOnly).
Proof.
  eapply set_next, istanbul_set. intros jt Hjt. destruct call_variants as (? & ? & ? & ?). unfold enable2929.
  accessed 0 makeSelfdestructGasFn_ok. do 4 (apply (access_ok _ _ 0); [done|in_table|done|by vm_compute|assumption|by vm_compute|by vm_compute|]).
  do 3 accessed 0 gasEip2929AccountCheck_ok. accessed 0 gasExtCodeCopyEIP2929_ok. accessed 1 gasSLoadEIP2929_ok. metered 1 makeGasSStoreFunc_ok. done.
Qed.

Lemma london_set : set_is london_codes (newLondonInstructionSet readOnly).
Proof.
  eapply set_next, berlin_set. intros jt Hjt. unfold enable3198, enable3529. apply set_op_ok; [done|op_entry|].
  metered 0 makeSelfdestructGasFn_ok. metered 1 makeGasSStoreFunc_ok. done.
Qed.

Lemma merge_set : set_is merge_codes (newMergeInstructionSet readOnly).
Proof. eapply set_next, london_set. intros jt Hjt. apply set_op_ok; [done|op_entry|done]. Qed.

Lemma shanghai_set : set_is shanghai_codes (newShanghaiInstructionSet readOnly).
Proof.
  eapply set_next, merge_set. intros jt Hjt. unfold enable3860, enable3855.
  do 2 (apply (meter_ok _ _ 0); [done|in_table|done|by apply (gas_ok_more _ 3); [cbn; lia|apply init_code_gas_ok]|by right; right|]).
  apply set_op_ok; [done|op_entry|done].
Qed.
End late.
End ops.
