(* ===== verification/InterpreterSound.v ===== *)
(** * Runs of the interpreter are sound

    A round of the loop keeps the frame well formed, charges for what it does and,
    unless the run ends, leaves less gas.  So a run ends, with at most the gas it
    was given, and acts on the state through its methods only: what [Evm] relies on
    of the interpreter, which is discharged here for the machine itself. *)
From S2P Require Import Prelude Ela Messages Rlp Header Common AccessList StateDB StateSpec StateRefine Withdraw SmallCross Recharge Evm EvmMachine EvmGas EvmInstr EvmTable Interpreter EvmSound EvmExec EvmCalls EvmOps.

(** ** Rules

    The gas of calls under Berlin relies on EIP-150, which came before it. *)
Section rules.
Context `{!EvmEnv} `{!Rules}.

Definition berlin_on : bool := IsShanghai || IsMerge || IsLondon || IsBerlin.
Definition rules_ok : Prop := berlin_on = true -> IsEIP150 = true.

(** No rule takes back a refund. *)
Definition no_take_back : bool := legacy_sstore && negb (berlin_on || IsIstanbul).
End rules.

Section rounds.
Context `{!Uint256} `{!Uint256Laws} `{!Keccak} `{!Database} `{!Zone} `{!ElaLib} `{!Codec} `{!SpvLib} `{!EvmEnv} `{!Rules} `{!BlockEnv}.
Context (T : Prop) `{!CallLaws T} (readOnly : bool).

Lemma fork_table_ok :
  rules_ok -> (no_take_back = true \/ T) -> exists D jt, fork_table readOnly = Some jt /\ table_ok T D jt /\ 0 ∈ D.
Proof.
  intros HR HT. assert (Hleg : legacy_sstore = true \/ T).
  { destruct HT as [HT|]; [left|by right]. unfold no_take_back in HT. by apply andb_true_iff in HT as [HT _]. }
  assert (Hsome : forall D set, 0 ∈ D -> set_is T D set -> exists D jt, set = Some jt /\ table_ok T D jt /\ 0 ∈ D).
  { intros D set HD (jt & ? & ?). by exists D, jt. }
  assert (Hlate : berlin_on || IsIstanbul = true -> T).
  { destruct HT as [HT|]; [|done]. unfold no_take_back in HT. apply andb_true_iff in HT as [_ HT]. intros E. by rewrite E in HT. }
  unfold fork_table. unfold rules_ok, berlin_on in *.
  assert (HD0 : 0 ∈ frontier_codes readOnly) by (apply (bool_decide_unpack _); vm_compute; exact I).
  assert (HD1 : 0 ∈ homestead_codes readOnly) by by right.
  assert (HD2 : 0 ∈ byzantium_codes readOnly) by (apply elem_of_app; by right).
  assert (HD3 : 0 ∈ constantinople_codes readOnly) by (apply elem_of_app; by right).
  assert (HD4 : 0 ∈ istanbul_codes readOnly) by (by do 2 right).
  assert (HD5 : 0 ∈ london_codes readOnly) by by right. assert (HD6 : 0 ∈ merge_codes readOnly) by by right.
  assert (HD7 : 0 ∈ shanghai_codes readOnly) by by right.
  destruct IsShanghai; [by eapply Hsome, shanghai_set; auto|]. destruct IsMerge; [by eapply Hsome, merge_set; auto|].
  destruct IsLondon; [by eapply Hsome, london_set; auto|]. destruct IsBerlin; [by eapply Hsome, berlin_set; auto|].
  destruct IsIstanbul; [by eapply Hsome, istanbul_set; auto|]. destruct IsConstantinople; [by eapply Hsome, constantinople_set; auto|].
  destruct IsByzantium; [by eapply Hsome, byzantium_set; auto|]. destruct IsEIP158; [by eapply Hsome, spurious_set; auto|].
  destruct IsEIP150; [by eapply Hsome, tangerine_set; auto|]. destruct IsHomestead; [by eapply Hsome, homestead_set; auto|].
  by eapply Hsome, frontier_set; auto.
Qed.

(** ** A round *)

(** Only the gas differs. *)
Lemma inv_gas_change f g :
  inv f -> 0 <= g -> inv (f <| contract := (contract f) <| contract_Gas := g |> |>).
Proof. intros [? ? ? ? [C1 C2] ? ? ?] Hg. split; try done. Qed.

(** The memory in whole words. *)
Lemma wp_memory_size sg o Q f :
  op_ok T sg o -> inv f -> (sig_pops sg <= length (stack f))%nat -> (forall e, Q (inr e) f) ->
  (forall size, 0 <= size -> size mod 32 = 0 -> (has_needs sg = false -> size = 0) ->
     (forall m, size <= Len m -> Forall (fun nd => area_fits nd (stack f) (Len m)) (sig_needs sg)) -> Q (inl size) f) ->
  wp T (memory_size o) Q f.
Proof.
  intros Ho Hi Hl He HQ. unfold memory_size. pose proof (ok_size _ _ _ Ho) as Hs. destruct (memorySize o) as [ms|].
  2:{ apply wp_ret, HQ; [done|done|done|]. intros m _. by rewrite Hs. }
  destruct Hs as [Hn Hs]. destruct (Hs f Hi Hl) as (n & ov & E & Hov). wp_step. unfold wp at 1. rewrite E. destruct ov; [by apply wp_ret|].
  destruct (Hov eq_refl) as [Hb Hf]. assert (Hw : 0 <= toWordSize n /\ n <= toWordSize n * 32).
  { unfold toWordSize, MaxUint64. destruct (Z.ltb_spec (2 ^ 64 - 1 - 31) n); div_lia. }
  apply wp_SafeMul; [lia|lia|done|]. intros H64. apply HQ; [lia|by rewrite Z.mod_mul|by rewrite Hn|].
  intros m Hm. eapply Forall_impl; [exact Hf|]. intros nd. apply area_mono. lia.
Qed.

Lemma Resize_ok f size f' :
  inv f -> 0 <= size -> size mod 32 = 0 -> priced f size f' ->
  let m := if 0 <? size then Resize size (mem f') else mem f' in mem_ok m /\ size <= Len m.
Proof.
  intros Hi Hs Hm Hp m. pose proof (pr_frame _ _ _ Hp) as Hf. pose proof (Len_nonneg (mem f)) as Hl. pose proof (pr_size _ _ _ Hp) as Hsz.
  assert (Em : mem f' = (mem f) <| lastGasCost := fee (Z.max (Len (mem f)) size / 32) |>) by (rewrite Hf; by destruct f).
  assert (El : Len (mem f') = Len (mem f)) by by rewrite Em.
  assert (EL : Len m = Z.max (Len (mem f)) size /\ lastGasCost m = fee (Z.max (Len (mem f)) size / 32)).
  { unfold m. destruct (Z.ltb_spec 0 size); [|rewrite El, Em; cbn; split; [lia|done]]. unfold Resize. rewrite El.
    destruct (Z.ltb_spec (Len (mem f)) size); [|rewrite El, Em; cbn; split; [lia|done]]. rewrite Em. split; [|done].
    unfold Len, zlen in *. cbn. rewrite length_app, length_replicate. lia. }
  destruct EL as [EL EG]. destruct (inv_mem f Hi) as [M1 M2 _]. split; [|lia]. split; rewrite EL.
  - destruct (Z.max_spec (Len (mem f)) size) as [[_ ->]|[_ ->]]; done.
  - lia.
  - done.
Qed.

(** What an operation that goes on has been charged for. *)
Definition charged (sg : sig) (c : Z) (f f' : Frame) : Prop :=
  inv f' /\ stack f' = stack f /\ pc f' = pc f /\ contract f' = (contract f) <| contract_Gas := contract_Gas (contract f') |> /\
  zacts (vm_state (machine f)) (vm_state (machine f')) /\
  Forall (fun nd => area_fits nd (stack f') (Len (mem f'))) (sig_needs sg) /\
  exists d, 0 <= d /\ (sig_kind sg <> Halt -> 1 <= c + d) /\ contract_Gas (contract f') + d + bonus (sig_kind sg) f' <= contract_Gas (contract f).

Lemma charge_ok sg o f :
  op_ok T sg o -> inv f -> (sig_pops sg <= length (stack f))%nat ->
  wp T (charge o) (fun r f' => match r with Some _ => ended f f' | None => charged sg (constantGas o) f f' end) f.
Proof.
  intros Ho Hi Hl. unfold charge. destruct (ok_cost _ _ _ Ho) as [Hc Hd]. destruct (dynamicGas o) as [g|].
  2:{ apply wp_ret. destruct Hd as [Hn Hk]. split; [done|]. split; [done|]. split; [done|]. split; [by destruct (contract f)|]. split; [apply zacts_refl|].
      split; [by rewrite Hn|]. exists 0. split; [done|]. destruct (sig_kind sg); cbn; try done; split; try lia; done. }
  destruct Hd as (d & Hd0 & Hg & Hk). wp_step. apply (wp_memory_size sg); [done|done|done|intros e; wp_step; by apply ended_refl|].
  intros size Hs Hm Hz Hf. wp_step. eapply wp_mono; [by apply Hg|]. intros [c|e] f1; [|intros He; by wp_step]. intros (Hc0 & Hp & Hb). wp_step.
  apply wp_use_gas; intros Hgas; cbn [negb]; [wp_step; by eapply priced_ended|]. repeat wp_step.
  pose proof (Resize_ok f size f1 Hi Hs Hm Hp) as [Hmo Hml]. pose proof (priced_good _ _ _ Hi Hp) as Hgood. pose proof (priced_stack _ _ _ Hp) as Est.
  destruct Hp as [Ef Ec Hgs _ Htm Ha]. set (f2 := f1 <| contract := _ |>).
  set (m := if 0 <? size then Resize size (mem f1) else mem f1) in *.
  assert (Efin : (if 0 <? size then f2 <| mem := Resize size (mem f2) |> else f2) = f2 <| mem := m |>).
  { unfold m. destruct (0 <? size); [done|]. by destruct f1. }
  rewrite Efin. clear Efin. assert (Epc : pc f1 = pc f) by (rewrite Ef; by destruct f).
  assert (Ecaches : analysis f1 = analysis f /\ jumpdests f1 = jumpdests f) by (rewrite Ef; by destruct f).
  split; [|split; [done|split; [done|split; [|split; [done|split]]]]].
  - destruct (inv_caches f Hi) as [C1 C2]. destruct Ecaches as [Ea Ej]. split; cbn; try done; [lia|rewrite Est; apply Hi| |rewrite Epc; apply Hi|rewrite Ec; exact (inv_self f Hi)].
    by split; cbn; rewrite Ec; cbn; [rewrite Ea|rewrite Ej].
  - cbn. rewrite Ec. by destruct (contract f).
  - cbn. rewrite Est. by apply Hf.
  - exists d. split; [done|]. split; [done|]. assert (Eb : bonus (sig_kind sg) (f2 <| mem := m |>) = bonus (sig_kind sg) f1) by by destruct f1.
    rewrite Eb. unfold f2. cbn. lia.
Qed.

(** The frame after a round. *)
Record advanced (f f' : Frame) : Prop := {
  adv_inv : inv f';
  adv_stack : zlen (stack f') <= StackLimit;
  adv_contract : contract f' = (contract f) <| contract_Gas := contract_Gas (contract f') |>;
  adv_gas : contract_Gas (contract f') < contract_Gas (contract f);
  adv_acts : zacts (vm_state (machine f)) (vm_state (machine f'))
}.

Definition round_post (f : Frame) (r : option (bytes * error)) (f' : Frame) : Prop :=
  match r with Some _ => ended f f' | None => advanced f f' end.

Lemma GetOp_byte n c : 0 <= GetOp n c < 256.
Proof. unfold GetOp, u8. div_lia. Qed.

(** An undefined op-code ends the run. *)
Lemma undefined_ok f : inv f -> GetOp (pc f) (contract f) <> 0 -> wp T (exec_round undefined_op) (round_post f) f.
Proof.
  intros Hi Hop. unfold exec_round, undefined_op, opUndefined. cbn [execute]. do 2 wp_step. unfold GetOp in Hop.
  destruct (contract_Code (contract f) !! Z.to_nat (pc f)) as [b|] eqn:E; [|by cbn in Hop]. eapply wp_lift; [exact E|]. repeat wp_step. by apply ended_refl.
Qed.

Lemma ended_after f f1 f2 :
  inv f -> zacts (vm_state (machine f)) (vm_state (machine f1)) -> contract_Gas (contract f1) <= contract_Gas (contract f) -> ended f1 f2 -> ended f f2.
Proof. intros Hi Ha Hg [Ha2 Hg2]. split; [|lia]. eapply zacts_trans; [apply Hi|done|done]. Qed.

(** The execution, after the constant cost [c] and the charge. *)
Lemma exec_round_ok sg o f f1 f2 :
  op_ok T sg o -> inv f -> f1 = f <| contract := (contract f) <| contract_Gas := contract_Gas (contract f) - constantGas o |> |> -> charged sg (constantGas o) f1 f2 ->
  Z.of_nat (sig_pops sg) <= zlen (stack f) -> zlen (stack f) <= max_stack o -> wp T (exec_round o) (round_post f) f2.
Proof.
  intros Ho Hi E1 (Hi2 & Est & _ & Ec & Ha & Hf & d & Hd & Hk & Hg) Hmin Hmax. pose proof (proj1 (ok_cost _ _ _ Ho)) as Hc.
  assert (Est' : stack f2 = stack f) by (rewrite Est, E1; by destruct f). unfold zlen in *.
  assert (Hg1 : contract_Gas (contract f1) = contract_Gas (contract f) - constantGas o) by (rewrite E1; by destruct f).
  assert (Ha' : zacts (vm_state (machine f)) (vm_state (machine f2))) by (rewrite E1 in Ha; by destruct f). pose proof (inv_gas _ Hi2) as Hg2.
  unfold exec_round. wp_step. eapply wp_mono; [apply (ok_exec _ _ _ Ho); [done|rewrite Est'; lia|done]|].
  assert (Hb : 0 <= bonus (sig_kind sg) f2).
  { unfold bonus, stipend, CallStipend. pose proof (inv_temp _ Hi2). destruct (sig_kind sg) as [| |[i|]]; repeat case_match; lia. }
  intros [res [e|]] f3 Hpost; unfold post in Hpost; cbn [snd] in Hpost.
  - wp_step. eapply ended_after; [done|exact Ha'|lia|exact Hpost].
  - destruct Hpost as [Hnh [Hi3 Hl3 Hc3 Hg3 Ha3]]. specialize (Hk Hnh). repeat wp_step. pose proof (ok_max _ _ _ Ho) as Hm.
    split; [|unfold zlen; cbn; unfold StackLimit in *; rewrite Est' in Hl3; lia| |cbn; lia|eapply zacts_trans; [apply Hi|exact Ha'|exact Ha3]].
    + destruct Hi3 as [? ? ? ? [? ?] ? ? ?]. split; try done. cbn. unfold u64. div_lia.
    + cbn. rewrite Hc3, Ec, E1. by destruct f as [? ? ? []].
Qed.

(** A round from a well-formed frame. *)
Lemma round_ok D jt f : table_ok T D jt -> 0 ∈ D -> inv f -> wp T (round jt) (round_post f) f.
Proof.
  intros [Hlen Htab] HD Hi. unfold round. pose proof (GetOp_byte (pc f) (contract f)) as Hop.
  destruct (lookup_lt_is_Some_2 jt (Z.to_nat (GetOp (pc f) (contract f)))) as [o Eo]; [rewrite Hlen; lia|]. specialize (Htab _ _ Eo). rewrite Z2Nat.id in Htab by lia.
  wp_step. eapply wp_lift; [exact Eo|]. repeat wp_step. assert (Hend : ended f f) by by apply ended_refl. unfold ends.
  destruct (Z.ltb_spec (zlen (stack f)) (min_stack o)) as [|Hmin]; [by wp_step|]. destruct (Z.ltb_spec (max_stack o) (zlen (stack f))) as [|Hmax]; [by wp_step|].
  wp_step. apply wp_use_gas; intros Hc; cbn [negb]; [by wp_step|]. pose proof (inv_gas f Hi) as Hg.
  case_bool_decide as HDo.
  - set (f1 := f <| contract := _ |>). assert (Hi1 : inv f1) by (apply inv_gas_change; [done|lia]). pose proof (proj1 (ok_cost _ _ _ Htab)) as Hc0.
    rewrite (ok_min _ _ _ Htab) in Hmin. wp_step. eapply wp_mono; [apply (charge_ok _ _ _ Htab Hi1); unfold zlen in Hmin; cbn; lia|].
    intros [e|] f2 Hch; [|by eapply exec_round_ok]. wp_step. eapply ended_after; [done| | |exact Hch]; [apply zacts_refl|cbn; lia].
  - subst o. wp_step. unfold charge. cbn [dynamicGas undefined_op]. apply wp_ret. cbv beta iota. cbn [constantGas undefined_op].
    rewrite Z.sub_0_r. assert (Ef : f <| contract := (contract f) <| contract_Gas := contract_Gas (contract f) |> |> = f) by by destruct f as [? ? ? []].
    rewrite Ef. apply undefined_ok; [done|]. intros E0. apply HDo. by rewrite E0.
Qed.
End rounds.

(** ** The loop *)
Lemma rounds_spec {A R} (T : Prop) (step : A -> option (A + R)) (P : A -> Prop) (Q : R -> Prop) (m : A -> Z) :
  (forall a, P a -> match step a with None => T | Some (inl a') => P a' /\ m a' < m a | Some (inr r) => Q r end) ->
  forall n a, P a -> match rounds n step a with None => T | Some (inl a') => P a' /\ m a' + 2 ^ Z.of_nat n <= m a | Some (inr r) => Q r end.
Proof.
  intros Hstep n. induction n as [|n IH]; intros a Ha; cbn [rounds].
  - specialize (Hstep a Ha). destruct (step a) as [[a'|r]|]; [|done..]. destruct Hstep. split; [done|]. cbn. lia.
  - pose proof (IH a Ha) as H1. destruct (rounds n step a) as [[a1|r]|]; [|done..]. destruct H1 as [P1 M1]. specialize (IH a1 P1).
    destruct (rounds n step a1) as [[a2|r]|]; [|done..]. destruct IH as [P2 M2]. split; [done|]. rewrite Nat2Z.inj_succ, Z.pow_succ_r by lia. lia.
Qed.

Section runs.
Context `{!Uint256} `{!Uint256Laws} `{!Keccak} `{!Database} `{!Zone} `{!ElaLib} `{!Codec} `{!SpvLib} `{!EvmEnv} `{!Rules} `{!BlockEnv}.
Context (T : Prop) `{!CallLaws T}.

Record running (f0 f : Frame) : Prop := {
  run_inv : inv f;
  run_stack : zlen (stack f) <= StackLimit;
  run_gas : contract_Gas (contract f) <= contract_Gas (contract f0);
  run_acts : zacts (vm_state (machine f0)) (vm_state (machine f))
}.

Lemma running_step D jt f0 f :
  table_ok T D jt -> 0 ∈ D -> inv f0 -> running f0 f ->
  match round_step jt f with
  | None => T
  | Some (inl f') => running f0 f' /\ contract_Gas (contract f') < contract_Gas (contract f)
  | Some (inr (_, _, f')) => ended f0 f'
  end.
Proof.
  intros Ht HD Hi0 [Hi Hs Hg Ha]. pose proof (round_ok T D jt f Ht HD Hi) as Hr. unfold round_step. unfold wp in Hr.
  destruct (round jt f) as [[[[ret err]|] f']|]; [|destruct Hr as [Hi' Hs' _ Hg' Ha']|done].
  - by eapply ended_after.
  - split; [|done]. split; [done|done|lia|]. eapply zacts_trans; [apply Hi0|done|done].
Qed.

Lemma new_frame_running c input vm :
  zgood (vm_state vm) -> 0 <= contract_Gas c -> (zone -> contract_self c <> 0) -> running (new_frame c input vm) (new_frame c input vm).
Proof.
  intros Hs Hg Hz. split; [|done|done|apply zacts_refl]. by split.
Qed.

(** The rounds suffice: the loop ends or panics. *)
Lemma loop_ends D jt c input vm :
  table_ok T D jt -> 0 ∈ D -> zgood (vm_state vm) -> 0 <= contract_Gas c -> (zone -> contract_self c <> 0) ->
  match rounds (Z.to_nat (Z.log2 (contract_Gas c) + 1)) (round_step jt) (new_frame c input vm) with
  | None => T
  | Some (inl _) => False
  | Some (inr (_, _, f)) => ended (new_frame c input vm) f
  end.
Proof.
  intros Ht HD Hs Hg Hz. pose proof (new_frame_running c input vm Hs Hg Hz) as H0'. set (f0 := new_frame c input vm) in *. pose proof (Z.log2_nonneg (contract_Gas c)) as Hlog.
  pose proof (rounds_spec T (round_step jt) (running f0) (fun r => ended f0 (snd r)) (fun f => contract_Gas (contract f))) as HR.
  specialize (HR ltac:(intros f Hf; pose proof (running_step D jt f0 f Ht HD (run_inv _ _ H0') Hf) as HS; by destruct (round_step jt f) as [[?|[[? ?] ?]]|])).
  specialize (HR (Z.to_nat (Z.log2 (contract_Gas c) + 1)) f0 H0'). destruct (rounds _ _ _) as [[f|[[? ?] ?]]|]; [|done..].
  destruct HR as [[Hi _ _ _] Hm]. pose proof (inv_gas _ Hi). change (contract_Gas (contract f0)) with (contract_Gas c) in Hm.
  rewrite Z2Nat.id in Hm by lia. destruct (Z.eq_dec (contract_Gas c) 0) as [E|]; [rewrite E in Hm; cbn in Hm; lia|].
  pose proof (Z.log2_spec (contract_Gas c)) as [_ Hl]; [lia|]. unfold Z.succ in Hl. lia.
Qed.

Lemma Run_out D jt c input vm :
  table_ok T D jt -> 0 ∈ D -> zgood (vm_state vm) -> 0 <= contract_Gas c -> (zone -> contract_self c = 0 -> contract_Code c = []) ->
  ran T (vm_state vm) (contract_Gas c) (Run jt c input vm).
Proof.
  intros Ht HD Hs Hg Hz. unfold Run. destruct (Z.eqb_spec (zlen (contract_Code c)) 0) as [|Hne]; [by apply ran_same|].
  pose proof (loop_ends D jt c input vm Ht HD Hs Hg ltac:(intros Hzone E; by rewrite (Hz Hzone E) in Hne)) as HL.
  destruct (rounds _ _ _) as [[f|[[ret err] f]]|]; [done| |done]. by destruct HL.
Qed.
End runs.

(** ** The machine *)

(** What excludes panics: no rule takes back a refund; the transaction that the
    client of the main chain returns for a failed withdrawal has a recipient (of a
    contract creation it has none, and [tx.To().String()] panics); and the native
    contracts return. *)
Definition quiet `{!Keccak} `{!Rules} (base : EvmEnv) : Prop :=
  @no_take_back base _ = true /\ (forall input, is_Some (IsWithdawFailedTx (@withdraw_client base) input (@BlackContractAddr base))) /\
  forall a p input, @precompile base a = Some p -> is_Some (precompiled_Run p input).

Section machine.
Context `{!Uint256} `{!Uint256Laws} `{!Keccak} `{!Database} `{!ElaLib} `{!Codec} `{!SpvLib} `{!Rules} `{!BlockEnv}.
Context (base : EvmEnv).
Context (required_gas : forall a p input, @precompile base a = Some p -> 0 <= RequiredGas p input).
Context (rules : @rules_ok base _).

Section depths.
Context `{!Zone} (T : Prop) (no_panic : @no_take_back base _ = true \/ T).
Context (answers : forall input, is_Some (IsWithdawFailedTx (@withdraw_client base) input (@BlackContractAddr base)) \/ T).
Context (natives : forall a p input, @precompile base a = Some p -> is_Some (precompiled_Run p input) \/ T).

(** The laws of the machine at a depth, from what its runs promise. *)
Lemma depth_laws n depth inReadOnly :
  let E := evm base [] n depth inReadOnly in
  (@evm_depth E <= CallCreateDepth -> forall c input ro vm, zgood (vm_state vm) -> 0 <= contract_Gas c ->
    (zone -> contract_self c = 0 -> contract_Code c = []) -> ran T (vm_state vm) (contract_Gas c) (@interpreter_Run E c input ro vm)) ->
  @EvmLaws _ _ _ E T.
Proof. intros E Hrun. split; [exact Hrun| | |]; unfold E; destruct n; done. Qed.

(** The machine one level deeper, and its table, given what its runs promise. *)
Lemma deeper_table n depth inReadOnly readOnly :
  let E := evm base [] n depth inReadOnly in
  @EvmLaws _ _ _ E T ->
  @CallLaws _ _ _ _ _ _ E T /\ exists D jt, @NewEVMInterpreter _ _ _ _ _ _ E _ _ readOnly [] = Some jt /\ table_ok T D jt /\ 0 ∈ D.
Proof.
  intros E HL. assert (Hcalls : @CallLaws _ _ _ _ _ _ E T) by by apply calls_sound.
  split; [done|]. destruct (fork_table_ok T readOnly) as (D & jt & Ejt & Ht & HD).
  - unfold E. destruct n; exact rules.
  - unfold E. destruct n; exact no_panic.
  - exists D, jt. unfold NewEVMInterpreter. by rewrite Ejt.
Qed.

(** Enough depth is left for every call that the limit allows. *)
Lemma evm_runs n depth inReadOnly :
  CallCreateDepth + 2 <= depth + Z.of_nat n -> depth <= CallCreateDepth ->
  forall c input ro vm, zgood (vm_state vm) -> 0 <= contract_Gas c -> (zone -> contract_self c = 0 -> contract_Code c = []) ->
    ran T (vm_state vm) (contract_Gas c) (@interpreter_Run (evm base [] n depth inReadOnly) c input ro vm).
Proof.
  revert depth inReadOnly. induction n as [|n IH]; intros depth inReadOnly Hn Hd c input ro vm Hs Hg Hz; [lia|]. cbn [evm with_run interpreter_Run].
  destruct (deeper_table n (depth + 1) (inReadOnly || ro) (inReadOnly || ro)) as (Hcalls & D & jt & -> & Ht & HD).
  - apply depth_laws. intros Hdep. apply IH; [lia|]. by destruct n.
  - cbn [mbind option_bind]. by eapply Run_out.
Qed.

(** So the machine at every depth provides what [Evm] relies on, and its table
    what a round relies on. *)
Lemma machine_laws n depth inReadOnly :
  CallCreateDepth + 2 <= depth + Z.of_nat n -> @EvmLaws _ _ _ (evm base [] n depth inReadOnly) T.
Proof. intros Hn. apply depth_laws. intros Hdep. apply evm_runs; [done|]. by destruct n. Qed.

Lemma machine_table n depth inReadOnly readOnly :
  CallCreateDepth + 2 <= depth + Z.of_nat n ->
  @CallLaws _ _ _ _ _ _ (evm base [] n depth inReadOnly) T /\
  exists D jt, @NewEVMInterpreter _ _ _ _ _ _ (evm base [] n depth inReadOnly) _ _ readOnly [] = Some jt /\
    table_ok T D jt /\ 0 ∈ D.
Proof. intros Hn. by apply deeper_table, machine_laws. Qed.
End depths.

(** Panics contradict [quiet]. *)
Lemma quiet_rules : @no_take_back base _ = true \/ ~ quiet base.
Proof. destruct (@no_take_back base _) eqn:E; [by left|right]. unfold quiet. rewrite E. by intros [? _]. Qed.

Lemma quiet_answers input : is_Some (IsWithdawFailedTx (@withdraw_client base) input (@BlackContractAddr base)) \/ ~ quiet base.
Proof.
  destruct (IsWithdawFailedTx _ input _) eqn:E; [by left|right]. intros (_ & Hq & _). destruct (Hq input). congruence.
Qed.

Lemma quiet_natives a p input : @precompile base a = Some p -> is_Some (precompiled_Run p input) \/ ~ quiet base.
Proof.
  intros Hp. destruct (precompiled_Run p input) eqn:E; [by left|right]. intros (_ & _ & Hq). destruct (Hq a p input Hp). congruence.
Qed.

(** The theorems on the machine say nothing of the zero address. *)
#[local] Existing Instance no_zone.

Lemma plain_good s : good s -> zgood s.
Proof. by split. Qed.

(** C15: every round of the interpreter keeps its frame well formed, on the table of
    every fork and at every depth.  From a frame with non-negative gas, words on the
    stack, a memory of whole words that is paid for and a consistent state, a round
    either goes on, with such a frame again, at most 1024 words on the stack, the
    same contract and strictly less gas; or ends the run, with no more gas than
    before; in both cases the state was changed through its methods only.  It
    panics only under the rules that take back refunds, when a native contract
    panics, or when the client of the main chain answers a refund with a contract
    creation, a transaction without recipient.  Berlin's rules come with EIP-150's. *)
Theorem round_keeps_frame n depth inReadOnly readOnly :
  CallCreateDepth + 2 <= depth + Z.of_nat n ->
  exists jt, @NewEVMInterpreter _ _ _ _ _ _ (evm base [] n depth inReadOnly) _ _ readOnly [] = Some jt /\
    forall f, inv f ->
      match round jt f with
      | None => ~ quiet base
      | Some (None, f') => advanced f f'
      | Some (Some _, f') => ended f f'
      end.
Proof.
  intros Hn. destruct (machine_table (~ quiet base) quiet_rules quiet_answers quiet_natives n depth inReadOnly readOnly Hn) as (Hcalls & D & jt & E & Ht & HD).
  exists jt. split; [exact E|]. intros f Hi. pose proof (round_ok _ D jt f Ht HD Hi) as Hr. unfold wp in Hr. by destruct (round jt f) as [[[r|] f']|].
Qed.

(** C16: the loop of the interpreter ends, on the table of every fork: the gas
    bounds the number of rounds, so within them the run has ended or panicked. *)
Theorem loop_terminates n depth inReadOnly readOnly :
  CallCreateDepth + 2 <= depth + Z.of_nat n ->
  exists jt, @NewEVMInterpreter _ _ _ _ _ _ (evm base [] n depth inReadOnly) _ _ readOnly [] = Some jt /\
    forall c input vm f, good (vm_state vm) -> 0 <= contract_Gas c ->
      rounds (Z.to_nat (Z.log2 (contract_Gas c) + 1)) (round_step jt) (new_frame c input vm) <> Some (inl f).
Proof.
  intros Hn. destruct (machine_table True (or_intror I) (fun _ => or_intror I) (fun _ _ _ _ => or_intror I) n depth inReadOnly readOnly Hn) as (Hcalls & D & jt & E & Ht & HD).
  exists jt. split; [exact E|]. intros c input vm f Hs%plain_good Hg Ef. pose proof (loop_ends True D jt c input vm Ht HD Hs Hg ltac:(done)) as HL. by rewrite Ef in HL.
Qed.

(** C17: calls of the machine are atomic, and return but for the panics of C15:
    nothing is assumed of the interpreter, which is the modelled one, on the table
    of the block's fork, with calls nested to the depth limit.  For a caller
    without debts [Call], [CallCode], [DelegateCall] (of a running contract) and
    [StaticCall] leave at most the gas they were given, change the state through
    its methods only, and an error leaves every account, log, refund and
    access-list entry as it was; they panic only under the rules that take back
    refunds, when a native contract does, or when the client answers a refund with
    a contract creation.  Berlin's rules come with EIP-150's. *)
Theorem machine_calls_atomic caller addr input gas value recharge vm :
  good (vm_state vm) -> 0 <= gas -> 0 <= GetBalance (ref_Address caller) (vm_state vm) ->
  let T := ~ quiet base in
  call_ok T (vm_state vm) gas (@Call _ _ _ _ _ (new_EVM base []) caller addr input gas value recharge vm) /\
  call_ok T (vm_state vm) gas (@CallCode _ _ (new_EVM base []) caller addr input gas value vm) /\
  (forall self from v, caller = RunningContract self from v ->
     call_ok T (vm_state vm) gas (@DelegateCall _ _ (new_EVM base []) caller addr input gas vm)) /\
  call_ok T (vm_state vm) gas (@StaticCall _ _ (new_EVM base []) caller addr input gas vm).
Proof.
  intros Hs%plain_good Hg Hb T. pose proof (machine_laws T quiet_rules quiet_answers quiet_natives 1026 0 false ltac:(done)) as HL.
  change (evm base [] 1026 0 false) with (new_EVM base []) in HL. split_and!.
  - by apply (Call_outcome (T := T)).
  - by apply CallCode_ok.
  - intros self from v ->. by apply DelegateCall_ok.
  - by apply StaticCall_ok.
Qed.
End machine.

(** ** Calls of the zero address in a static call *)
Definition mints (receiver amount : Z) `{!Keccak} `{!Database} (s s' : StateDB) : Prop :=
  forall a, GetBalance a s' = GetBalance a s + if a =? receiver then amount else 0.

Section static.
Context `{!Uint256} `{!Uint256Laws} `{!Keccak} `{!Database} `{!DatabaseLaws} `{!ElaLib} `{!Codec} `{!SpvLib} `{!EvmEnv} `{!Rules} `{!BlockEnv}.

(** a read-only run can mint.  Inside a static call the [CALL] operation is
    refused only when it carries value, so a call without value of the zero address
    with the signed data of a failed withdrawal still pays the withdrawn amount to
    the withdrawal's sender. *)
Theorem static_call_refunds g addr off len ret st input txid from amount f :
  stack f = g :: addr :: 0 :: off :: len :: ret :: 0 :: st -> u_Bytes20 addr = 0 ->
  GetPtr (i64 (u_Uint64 off)) (i64 (u_Uint64 len)) (mem f) = Some input ->
  refundable (contract_ref (contract f)) input txid from amount -> evm_depth <= CallCreateDepth ->
  good (vm_state (machine f)) -> 0 <= GetBalance (contract_self (contract f)) (vm_state (machine f)) ->
  GetState 0 (HexToHash txid) (vm_state (machine f)) = zero_hash -> GetCode 0 (vm_state (machine f)) = [] ->
  exists f', opCall true f = Some (([], nil_err), f') /\ mints (HexToAddress from) amount (vm_state (machine f)) (vm_state (machine f')).
Proof.
  intros Est Ea Em Hr Hd Hs Hb Hm Hc.
  destruct (refund_once (contract_ref (contract f)) input txid from amount (callGasTemp f) (machine f) Hr Hd Hs Hb Hm Hc) as (vm' & E & _ & B & _).
  assert (HW : wp False (opCall true) (fun r f' => r = ([], nil_err) /\ machine f' = vm') f).
  { destruct (u_tests 0 word_0) as (Ez & _). assert (E0 : u_Uint64 0 = 0) by by apply Uint64_small.
    unfold opCall. destruct f as [p st0 m c inp an jd ict rd temp vm]; cbn in *. subst st0. repeat wp_step. eapply wp_lift; [exact Em|].
    rewrite Ez. cbn [andb negb Z.eqb]. wp_step. unfold wp at 1, with_evm. cbn. rewrite Ea, E. unfold finish_call. repeat wp_step.
    cbn [failed negb orb]. rewrite E0. eapply wp_on_mem; [done|]. repeat wp_step. done. }
  unfold wp in HW. destruct (opCall true f) as [[r f']|]; [|done]. destruct HW as [-> Hv]. exists f'. split; [done|]. rewrite Hv. exact B.
Qed.
End static.

(** ** A concrete machine *)
Module ToyMachine.
#[export] Existing Instance toy_keccak.
#[export] Existing Instance ToyState.db.
#[export] Existing Instance ToyWithdraw.lib.
#[export] Existing Instance ToyCodec.codec.
#[export] Existing Instance ToySpv.lib.
#[export] Existing Instance ToyUint256.lib.
#[export] Existing Instance ToyUint256.laws.
#[export] Existing Instance ToyEvm.db_laws.

(** The rules of Byzantium. *)
#[export] Instance rules : Rules := {|
  IsEIP150 := true; IsByzantium := true; IsConstantinople := false; IsPetersburg := false; IsIstanbul := false; IsMerge := false;
  IsShanghai := false
|}.

#[export] Instance block : BlockEnv := {|
  evm_Origin := 7; evm_GasPrice := 1; evm_Coinbase := 3; evm_GasLimit := 8000000; evm_Time := 100; evm_Difficulty := 1;
  evm_BaseFee := None; evm_Random := None; evm_GetHash := fun _ => zero_hash; evm_ChainID := 20; EnablePreimageRecording := false;
  evm_abort := fun _ => false
|}.

Definition base : EvmEnv := {|
  precompile := @precompile ToyEvm.env; interpreter_Run := @interpreter_Run ToyEvm.env;
  IsHomestead := true; IsEIP158 := true; IsBerlin := false; IsLondon := false;
  BlackContractAddr := @BlackContractAddr ToyEvm.env; evm_BlockNumber := 5; evm_depth := 0;
  withdraw_client := @withdraw_client ToyEvm.env; withdraw_arbiters := @withdraw_arbiters ToyEvm.env;
  GetWithdrawTxValue := @GetWithdrawTxValue ToyEvm.env; GetRefundEventHash := @GetRefundEventHash ToyEvm.env
|}.

Lemma gas_ok a p input : @precompile base a = Some p -> 0 <= RequiredGas p input.
Proof. cbn. destruct (a =? 4); [|done]. intros [= <-]. apply zlen_nonneg. Qed.

Lemma rules_fine : @rules_ok base rules.
Proof. done. Qed.

Lemma base_quiet : quiet base.
Proof.
  split; [done|]. split; [intros input; unfold IsWithdawFailedTx; cbn; by destruct (_ <=? _)|].
  intros a p input. cbn. destruct (a =? 4); [|done]. intros [= <-]. by eexists.
Qed.

(** Code run as the account 8. *)
Definition contract (code : bytes) : Contract := {|
  CallerAddress := 7; contract_self := 8; contract_value := 0; contract_Gas := 100000; contract_Code := code;
  contract_CodeHash := zero_hash; CodeAddr := 8
|}.

(** [PUSH1 1; PUSH1 2; ADD]; an endless loop; a revert. *)
Definition adds : Frame := new_frame (contract [96; 1; 96; 2; 1]) [] ToyEvm.machine.
Definition loops : Contract := contract [91; 96; 0; 86].
Definition reverting : Vm := ToyEvm.machine <| vm_state := SetCode 8 [96; 0; 96; 0; 253] ToyState.start |>.

#[local] Existing Instance no_zone.
Lemma adds_inv : inv adds.
Proof. split; try done. split; [apply ToyEvm.start_good|done]. Qed.

(** A frame whose memory holds a signed refund. *)
Definition refunding : Frame :=
  adds <| stack := [0; 0; 0; 0; zlen ToyEvm.refund_input; 0; 0] |> <| mem := {| store := ToyEvm.refund_input; lastGasCost := 0 |} |>.
End ToyMachine.

Section witnesses.
Import ToyMachine.
#[local] Existing Instance no_zone.

Lemma round_keeps_frame_witness :
  exists jt f', @NewEVMInterpreter _ _ _ _ _ _ (evm base [] 1026 0 false) _ _ false [] = Some jt /\
    round jt adds = Some (None, f') /\ stack f' = [1] /\ advanced adds f'.
Proof.
  destruct (round_keeps_frame base gas_ok rules_fine 1026 0 false false ltac:(done)) as (jt & E & Hr). specialize (Hr adds adds_inv).
  assert (Ec : (r ← (jt ← @NewEVMInterpreter _ _ _ _ _ _ (evm base [] 1026 0 false) _ _ false []; round jt adds); Some (fst r, stack (snd r))) = Some (None, [1]))
    by (vm_compute; reflexivity).
  rewrite E in Ec. cbn [mbind option_bind] in Ec. destruct (round jt adds) as [[[r|] f']|] eqn:Er; [discriminate Ec| |discriminate Ec].
  exists jt, f'. split; [exact E|]. split; [exact Er|]. split; [|exact Hr]. cbn [fst snd mbind option_bind] in Ec. injection Ec as Ec. exact Ec.
Defined.

Lemma loop_terminates_witness :
  exists jt, @NewEVMInterpreter _ _ _ _ _ _ (evm base [] 1026 0 false) _ _ false [] = Some jt /\
    rounds (Z.to_nat (Z.log2 100000 + 1)) (round_step jt) (new_frame loops [] ToyEvm.machine) <> Some (inl adds).
Proof.
  destruct (loop_terminates base gas_ok rules_fine 1026 0 false false ltac:(done)) as (jt & E & Hr). exists jt. split; [exact E|].
  exact (Hr loops [] ToyEvm.machine adds ToyEvm.start_good ltac:(done)).
Defined.

Lemma reverting_good : good (vm_state reverting).
Proof. eapply acts_good; [exact ToyEvm.start_good|apply SetCode_acts]. Qed.

(** The value sent with the call comes back; six units of gas are gone. *)
Lemma machine_calls_atomic_witness :
  quiet base /\ exists vm, @Call _ _ _ _ _ (new_EVM base []) (AccountRef 7) 8 [] 100 25 None reverting = Some ([], 94, New ErrExecutionReverted, vm) /\
    world (vm_state vm) ≡ world (vm_state reverting).
Proof.
  split; [exact base_quiet|]. destruct (machine_calls_atomic base gas_ok rules_fine (AccountRef 7) 8 [] 100 25 None reverting reverting_good ltac:(lia) ltac:(by vm_compute)) as (Hc & _).
  assert (E' : (fun x => fst x) <$> @Call _ _ _ _ _ (new_EVM base []) (AccountRef 7) 8 [] 100 25 None reverting =
    Some ([], 94, New ErrExecutionReverted)) by (vm_compute; reflexivity).
  destruct (@Call _ _ _ _ _ (new_EVM base []) (AccountRef 7) 8 [] 100 25 None reverting) as [[[[ret g] err] vm]|]; [|discriminate E'].
  injection E' as -> -> ->. destruct Hc as (_ & _ & Hw). exists vm. split; [reflexivity|exact (Hw eq_refl)].
Defined.

#[local] Existing Instance base.
Lemma static_call_refunds_witness :
  exists f', opCall true refunding = Some (([], nil_err), f') /\ GetBalance 9 (vm_state (machine f')) = 30.
Proof.
  destruct (static_call_refunds 0 0 0 (zlen ToyEvm.refund_input) 0 [] ToyEvm.refund_input (hash_String ToyWithdraw.txid) (Address_Hex 9) 30 refunding)
    as (f' & E & M).
  - reflexivity.
  - reflexivity.
  - by vm_compute.
  - destruct ToyEvm.refund_refundable. by split.
  - done.
  - exact ToyEvm.start_good.
  - by vm_compute.
  - by vm_compute.
  - by vm_compute.
  - exists f'. split; [exact E|]. rewrite M. assert (Ha : HexToAddress (Address_Hex 9) = 9) by by vm_compute. rewrite Ha. by vm_compute.
Defined.
End witnesses.
