(* ===== verification/Transition.v ===== *)
(** * [core/state_transition.go], [core/state_processor.go], [core/gaspool.go]

    Executing a transaction: buying gas, the intrinsic gas, the call or creation,
    the refund and the fee; and around it the chain's cross-chain transactions to
    the zero address.  A deposit credits its recipients and pays its sender with
    the deposit's fees; a refund returns a failed withdrawal.  Both lend the
    sender [PassBalance] for the gas while they run, which a deferred function
    takes back.  [ApplyTransaction] marks an executed deposit or refund in the
    storage of the zero address.

    Signature recovery, the decoding of main-chain transactions, the bridge's
    method ids, hard-fork changes of the state, the engine's rewards and bloom
    filters are parameters or left out; [None] is a panic. *)
From S2P Require Import Prelude Ela Messages Rlp Header Common AccessList StateDB StateSpec StateRefine Withdraw SmallCross Recharge Evm.

(** ** The gas pool *)
Definition MaxUint64 : Z := 2 ^ 64 - 1.

Definition ErrGasLimitReached : string := "gas limit reached".

Definition AddGas (amount gp : Z) : option Z := if MaxUint64 - amount <? gp then None else Some (gp + amount).
Definition SubGas (amount gp : Z) : Z + string := if gp <? amount then inr ErrGasLimitReached else inl (gp - amount).

(** ** Messages and results *)
Record Message := {
  m_From : Z; m_To : option Z; m_GasPrice : Z; m_Gas : Z; m_Value : Z; m_Nonce : Z; m_CheckNonce : bool;
  m_Data : bytes; m_AccessList : list (Z * list bytes)
}.

Record ExecutionResult := { UsedGas : Z; result_Err : error; ReturnData : bytes }.

Definition no_result : ExecutionResult := {| UsedGas := 0; result_Err := nil_err; ReturnData := [] |}.

Record StateTransition := { st_gp : Z; st_gas : Z; initialGas : Z; st_vm : Vm; st_spv : Spv }.

#[export] Instance StateTransition_eta : Eta StateTransition := fun st => {|
  st_gp := st_gp st; st_gas := st_gas st; initialGas := initialGas st; st_vm := st_vm st; st_spv := st_spv st
|}.

Definition st_state (st : StateTransition) : StateDB := vm_state (st_vm st).
Definition on_db (f : StateDB -> StateDB) (st : StateTransition) : StateTransition := st <| st_vm := on_state f (st_vm st) |>.
Definition gasUsed (st : StateTransition) : Z := u64 (initialGas st - st_gas st).

Definition ErrInsufficientBalanceForGas : string := "insufficient balance to pay for gas".
Definition ErrNonceTooHigh : string := "nonce too high".
Definition ErrNonceTooLow : string := "nonce too low".
Definition ErrIntrinsicGas : string := "intrinsic gas too low".
Definition ErrElaToEthAddress : string := "Ethereum address is incorrect ".
Definition ErrRefunded : string := "all ready refund withdraw amount".
Definition ErrSmallCrossTxVerify : string := "small cross chain transaction verify signature error".

Definition TxGas : Z := 21000.
Definition TxGasContractCreation : Z := 53000.
Definition TxDataZeroGas : Z := 4.
Definition TxDataNonZeroGasFrontier : Z := 68.
Definition TxDataNonZeroGasEIP2028 : Z := 16.

(** ** Environment *)
Class TransitionEnv := {
  PassBalance : Z;
  BridgeContractAddr : string;
  DeveloperContract : list string;
  IsdeveloperSplitfeeTime : bool;
  Coinbase : Z;
  IsIstanbul : bool; IsShanghai : bool; IsByzantium : bool;
  ActivePrecompiles : list Z;
  (** the ids of the bridge's methods *)
  setArbiterList_ID : bytes + string;
  setManualArbiter_ID : bytes + string;
  (** the main chain's [elatx.GetTransactionByBytes] and [Deserialize] *)
  GetTransactionByBytes : bytes -> error;
  Deserialize : bytes -> ElaTx + string;
  (** the table of small deposits and the sender of recharge transactions *)
  transition_small : SmallTxs;
  transition_signer : Z
}.

(** *** What the first part of [TransitionDb] leaves for the rest *)

(** The deferred function, if any. *)
Inductive Deferred := NoDeferred | DeferRefund | DeferRecharge (recharges : list RechargeData) (totalFee : Z) | DeferBlack.

Record Prologue := { pro_deferred : Deferred; pro_recharges : list RechargeData; pro_refund : bool; pro_black : Z }.

#[export] Instance Prologue_eta : Eta Prologue := fun p => {|
  pro_deferred := pro_deferred p; pro_recharges := pro_recharges p; pro_refund := pro_refund p; pro_black := pro_black p
|}.

Definition plain : Prologue := {| pro_deferred := NoDeferred; pro_recharges := []; pro_refund := false; pro_black := 0 |}.

Section transition.
Context `{!Keccak} `{!Database} `{!ElaLib} `{!Codec} `{!SpvLib} `{!EvmEnv} `{!TransitionEnv} `{!RangeOrder}.

Definition count_nonzero (data : bytes) : Z := foldr (fun b n => if b =? 0 then n else n + 1) 0 data.

Definition IntrinsicGas (data : bytes) (contractCreation isEIP155 isEIP2028 : bool) : Z + string :=
  let gas := if contractCreation && isEIP155 then TxGasContractCreation else TxGas in
  let '(rawTxid, _, _, _) := IsSmallCrossTxByData data in
  if bool_decide (rawTxid <> EmptyString) then inl gas
  else if 0 <? zlen data then
    let nz := count_nonzero data in
    let nonZeroGas := if isEIP2028 then TxDataNonZeroGasEIP2028 else TxDataNonZeroGasFrontier in
    if (MaxUint64 - gas) / nonZeroGas <? nz then inr ErrOutOfGas
    else
      let gas := u64 (gas + nz * nonZeroGas) in
      let z := zlen data - nz in
      if (MaxUint64 - gas) / TxDataZeroGas <? z then inr ErrOutOfGas
      else inl (u64 (gas + z * TxDataZeroGas))
  else inl gas.

Definition useGas (amount : Z) (st : StateTransition) : StateTransition + string :=
  if st_gas st <? amount then inr ErrIntrinsicGas else inl (st <| st_gas := st_gas st - amount |>).

Definition buyGas (msg : Message) (st : StateTransition) : StateTransition + string :=
  let mgval := m_Gas msg * m_GasPrice msg in
  if GetBalance (m_From msg) (st_state st) <? mgval then inr ErrInsufficientBalanceForGas
  else match SubGas (m_Gas msg) (st_gp st) with
  | inr err => inr err
  | inl gp =>
      inl (on_db (SubBalance (m_From msg) mgval)
             (st <| st_gp := gp |> <| st_gas := u64 (st_gas st + m_Gas msg) |> <| initialGas := m_Gas msg |>))
  end.

Definition preCheck (msg : Message) (st : StateTransition) : StateTransition + string :=
  let nonce := GetNonce (m_From msg) (st_state st) in
  if m_CheckNonce msg && (nonce <? m_Nonce msg) then inr ErrNonceTooHigh
  else if m_CheckNonce msg && (m_Nonce msg <? nonce) then inr ErrNonceTooLow
  else buyGas msg st.

(** Whether it is a small deposit, whether it verified, its id and the error. *)
Definition dealSmallCrossTx (msg : Message) (st : StateTransition) : option (bool * bool * string * error * StateTransition) :=
  let '(rawTxid, rawTx, signatures, height) := IsSmallCrossTxByData (m_Data msg) in
  if bool_decide (rawTxid = EmptyString) then Some (false, false, rawTxid, New "is not small cross transaction", st)
  else
    '(verifyed, err) ← VerifySmallCrossTx rawTxid rawTx signatures height (st_spv st);
    if failed err || negb verifyed then Some (true, verifyed, rawTxid, err, st)
    else
      let (buff, err) := hex_DecodeString rawTx in
      if failed err then Some (true, false, rawTxid, err, st)
      else let err := GetTransactionByBytes buff in
      if failed err then Some (true, verifyed, rawTxid, err, st)
      else match Deserialize buff with
      | inr err => Some (true, false, rawTxid, New err, st)
      | inl txn =>
          spv ← NotifySmallCrossTx transition_small transition_signer txn (st_spv st);
          Some (true, verifyed, rawTxid, nil_err, st <| st_spv := spv |>)
      end.

(** ** The cross-chain part of [TransitionDb] *)

Definition lend (msg : Message) : StateTransition -> StateTransition := on_db (AddBalance (m_From msg) PassBalance).

(** The deposit named by [txhash]. *)
Definition recharge_prologue (msg : Message) (txhash : string) (st : StateTransition)
    : option ((Prologue + string) * StateTransition) :=
  '(err, spv) ← TrySetRechargeDataFromSpvService transition_small transition_signer txhash (st_spv st);
  let st := st <| st_spv := spv |> in
  '(recharges, totalFee, err) ← (if failed err then Some ([], 0, err) else GetRechargeDataByTxhash txhash spv);
  if failed err || (zlen recharges <=? 0) then Some (inr ErrElaToEthAddress, st)
  else if negb (bytes_Equal (GetState 0 (HexToHash txhash) (st_state st)) zero_hash) then Some (inr ErrMainTxHashPresence, st)
  else if existsb (fun r => (TargetAddress r =? 0) || (TargetAmount r <? Fee r)) recharges
  then Some (inr ErrElaToEthAddress, st)
  else Some (inl {| pro_deferred := DeferRecharge recharges totalFee; pro_recharges := recharges; pro_refund := false;
                    pro_black := 0 |}, lend msg st).

Definition prologue (msg : Message) (st : StateTransition) : option ((Prologue + string) * StateTransition) :=
  match m_To msg with
  | Some to =>
      if negb (to =? 0) then Some (inl plain, st)
      else
        '(isWithdrawTx, txhash) ← IsWithdawFailedTx withdraw_client (m_Data msg) BlackContractAddr;
        if (isWithdrawTx : bool) then
          if negb (bytes_Equal (GetState 0 (HexToHash txhash) (st_state st)) zero_hash) then Some (inr ErrRefunded, st)
          else Some (inl {| pro_deferred := DeferRefund; pro_recharges := []; pro_refund := true; pro_black := 0 |}, lend msg st)
        else if zlen (m_Data msg) =? 32 then recharge_prologue msg (hash_String (m_Data msg)) st
        else if 32 <? zlen (m_Data msg) then
          '(isSmall, verified, rawTxID, err, st) ← dealSmallCrossTx msg st;
          if negb isSmall then Some (inl plain, st)
          else match (err : error) with
          | Some err => Some (inr err, st)
          | None => if negb verified then Some (inr ErrSmallCrossTxVerify, st) else recharge_prologue msg rawTxID st
          end
        else Some (inl plain, st)
  | None =>
      let black := CreateAddress (m_From msg) (GetNonce (m_From msg) (st_state st)) in
      if bool_decide (Address_Hex black = BlackContractAddr)
      then Some (inl {| pro_deferred := DeferBlack; pro_recharges := []; pro_refund := false; pro_black := black |}, lend msg st)
      else Some (inl (plain <| pro_black := black |>), st)
  end.

(** ** The execution *)

(** The bridge's methods that are free of charge. *)
Definition has_id (msg : Message) (id : bytes + string) : bool :=
  match id with inl id => bool_decide (take (length id) (m_Data msg) = id) | inr _ => false end.
Definition isSetArbiterListMethod (msg : Message) : bool := has_id msg setArbiterList_ID.
Definition isSetManualArbiterMethod (msg : Message) : bool := has_id msg setManualArbiter_ID.

Definition IsBridgeContract (msg : Message) (st : StateTransition) : bool :=
  bool_decide (BridgeContractAddr <> EmptyString) && negb (HexToAddress BridgeContractAddr =? 0) &&
  (0 <? GetCodeSize (HexToAddress BridgeContractAddr) (st_state st)) &&
  (isSetArbiterListMethod msg || isSetManualArbiterMethod msg).

(** Give [gas] more back, pay for what remains and return it to the pool. *)
Definition return_gas (msg : Message) (refund : Z) (st : StateTransition) : option StateTransition :=
  let gas := u64 (st_gas st + refund) in
  gp ← AddGas gas (st_gp st);
  Some (on_db (AddBalance (m_From msg) (gas * m_GasPrice msg)) (st <| st_gas := gas |> <| st_gp := gp |>)).

Definition refundGas (msg : Message) (st : StateTransition) : option StateTransition :=
  let refund := gasUsed st / 2 in
  return_gas msg (if GetRefund (st_state st) <? refund then GetRefund (st_state st) else refund) st.

Definition refundBridgeGas (msg : Message) (st : StateTransition) : option StateTransition :=
  return_gas msg (gasUsed st) st.

(** Half of the miner's fee in equal shares to the developers' contracts. *)
Definition split_fee (minerFee : Z) (st : StateTransition) : Z * StateTransition :=
  let num := zlen DeveloperContract in
  if (0 <? num) && IsdeveloperSplitfeeTime then
    let subFee := minerFee * 50 / 100 / num in
    foldl (fun '(minerFee, st) account => (minerFee - subFee, on_db (AddBalance (HexToAddress account) subFee) st))
      (minerFee, st) DeveloperContract
  else (minerFee, st).

Definition pay_fee (msg : Message) (free : bool) (st : StateTransition) : StateTransition :=
  let fee := gasUsed st * m_GasPrice msg in
  if free then on_db (AddBalance (m_From msg) fee) st
  else let (minerFee, st) := split_fee fee st in on_db (AddBalance Coinbase minerFee) st.

Definition set_vm (r : bytes * Z * error * Vm) (st : StateTransition) : bytes * error * StateTransition :=
  let '(ret, gas, vmerr, vm) := r in (ret, vmerr, st <| st_gas := gas |> <| st_vm := vm |>).

(** The calls for the outputs of a deposit; the last one's result counts. *)
Fixpoint call_recharges (msg : Message) (recharges : list RechargeData) (ret : bytes) (vmerr : error) (st : StateTransition)
    : option (bytes * error * StateTransition) :=
  match recharges with
  | [] => Some (ret, vmerr, st)
  | recharge :: recharges =>
      r ← Call (AccountRef (m_From msg)) (default 0 (m_To msg)) (m_Data msg) (st_gas st) (m_Value msg) (Some recharge) (st_vm st);
      let '(ret, vmerr, st) := set_vm r st in
      call_recharges msg recharges ret vmerr st
  end.

Definition call_message (msg : Message) (recharges : list RechargeData) (st : StateTransition)
    : option (bytes * error * StateTransition) :=
  let from := m_From msg in
  match m_To msg with
  | None =>
      '(ret, _, gas, vmerr, vm) ← Create (AccountRef from) (m_Data msg) (st_gas st) (m_Value msg) (st_vm st);
      Some (set_vm (ret, gas, vmerr, vm) st)
  | Some to =>
      let st := on_db (SetNonce from (u64 (GetNonce from (st_state st) + 1))) st in
      match recharges with
      | [] =>
          r ← Call (AccountRef from) to (m_Data msg) (st_gas st) (m_Value msg) None (st_vm st);
          Some (set_vm r st)
      | _ => call_recharges msg recharges [] nil_err st
      end
  end.

(** From [preCheck] to the end: the result, the error and the error of the
    virtual machine. *)
Definition execute (msg : Message) (p : Prologue) (st : StateTransition)
    : option (ExecutionResult * error * error * StateTransition) :=
  let contractCreation := bool_decide (m_To msg = None) in
  match preCheck msg st with
  | inr err => Some (no_result, New err, nil_err, st)
  | inl st =>
      match IntrinsicGas (m_Data msg) contractCreation IsHomestead IsIstanbul with
      | inr err => Some (no_result, New err, nil_err, st)
      | inl gas =>
          match useGas gas st with
          | inr err => Some (no_result, New err, nil_err, st)
          | inl st =>
              s ← (if IsBerlin then PrepareAccessList IsBerlin IsShanghai (m_From msg) Coinbase (m_To msg) ActivePrecompiles
                                      (m_AccessList msg) (st_state st)
                   else Some (st_state st));
              '(ret, vmerr, st) ← call_message msg (pro_recharges p) (on_db (fun _ => s) st);
              if bool_decide (vmerr = New ErrWithdawrefundCallFailed)
              then Some ({| UsedGas := 0; result_Err := vmerr; ReturnData := ret |}, vmerr, vmerr, st)
              else
                st ← (if IsBridgeContract msg st && negb (failed vmerr) then refundBridgeGas msg st else refundGas msg st);
                let free := (contractCreation && bool_decide (Address_Hex (pro_black p) = BlackContractAddr)) || pro_refund p in
                let st := pay_fee msg free st in
                Some ({| UsedGas := gasUsed st; result_Err := vmerr; ReturnData := ret |}, nil_err, vmerr, st)
          end
      end
  end.

(** ** The deferred functions *)
Definition or_gas_limit (err : error) : error := match err with None => New ErrGasLimitReached | Some _ => err end.

Definition revert_state (snapshot : Z) (st : StateTransition) : option StateTransition :=
  s ← RevertToSnapshot snapshot (st_state st); Some (on_db (fun _ => s) st).

Definition take_back (msg : Message) : StateTransition -> StateTransition := on_db (SubBalance (m_From msg) PassBalance).

Definition refund_deferred (msg : Message) (snapshot : Z) (err vmerr : error) (result : ExecutionResult) (st : StateTransition)
    : option (ExecutionResult * error * StateTransition) :=
  let usedFee := gasUsed st * m_GasPrice msg in
  let nowBalance := GetBalance (m_From msg) (st_state st) in
  if (nowBalance <? usedFee) || failed vmerr then
    st ← revert_state snapshot st;
    Some ({| UsedGas := 0; result_Err := or_gas_limit err; ReturnData := [] |}, or_gas_limit err, st)
  else if nowBalance <? PassBalance then
    st ← revert_state snapshot st; Some (no_result, or_gas_limit err, st)
  else Some (result, err, take_back msg st).

(** The second half of the check of the outputs, a [uint64] below zero, never
    holds. *)
Definition recharge_deferred (msg : Message) (recharges : list RechargeData) (totalFee : Z) (snapshot : Z) (err : error)
    (result : ExecutionResult) (st : StateTransition) : option (ExecutionResult * error * StateTransition) :=
  let ethfee := gasUsed st * m_GasPrice msg in
  if existsb (fun r => (Fee r <=? 0) || (u64 (GetBalance (TargetAddress r) (st_state st)) <? 0)) recharges then
    st ← revert_state snapshot st; Some (no_result, or_gas_limit err, st)
  else
    let st := on_db (AddBalance (m_From msg) totalFee) st in
    if (GetBalance (m_From msg) (st_state st) <? PassBalance) || (totalFee <? ethfee) then
      st ← revert_state snapshot st; Some (no_result, or_gas_limit err, st)
    else Some (result, err, take_back msg st).

Definition black_deferred (msg : Message) (snapshot : Z) (err : error) (result : ExecutionResult) (st : StateTransition)
    : option (ExecutionResult * error * StateTransition) :=
  if GetBalance (m_From msg) (st_state st) <? PassBalance then
    st ← revert_state snapshot st; Some (no_result, or_gas_limit err, st)
  else Some (result, err, take_back msg st).

Definition run_deferred (msg : Message) (d : Deferred) (snapshot : Z) (r : ExecutionResult * error * error * StateTransition)
    : option (ExecutionResult * error * StateTransition) :=
  let '(result, err, vmerr, st) := r in
  match d with
  | NoDeferred => Some (result, err, st)
  | DeferRefund => refund_deferred msg snapshot err vmerr result st
  | DeferRecharge recharges totalFee => recharge_deferred msg recharges totalFee snapshot err result st
  | DeferBlack => black_deferred msg snapshot err result st
  end.

Definition TransitionDb (msg : Message) (st : StateTransition) : option (ExecutionResult * error * StateTransition) :=
  let (snapshot, s) := Snapshot (st_state st) in
  '(p, st) ← prologue msg (on_db (fun _ => s) st);
  match p with
  | inr err => Some (no_result, New err, st)
  | inl p => r ← execute msg p st; run_deferred msg (pro_deferred p) snapshot r
  end.

Definition ApplyMessage (msg : Message) (gp : Z) (vm : Vm) (spv : Spv) : option (ExecutionResult * error * StateTransition) :=
  TransitionDb msg {| st_gp := gp; st_gas := 0; initialGas := 0; st_vm := vm; st_spv := spv |}.

(** ** [ApplyTransaction] *)

(** A transaction: its hash, its fields and the sender recovered from its
    signature. *)
Record Transaction := {
  tx_Hash : bytes; AccountNonce : Z; Price : Z; GasLimit : Z; Recipient : option Z; Amount : Z; Payload : bytes;
  Sender : Z + string
}.

Definition AsMessage (tx : Transaction) : Message + string :=
  match Sender tx with
  | inr err => inr err
  | inl from => inl {| m_From := from; m_To := Recipient tx; m_GasPrice := Price tx; m_Gas := GasLimit tx; m_Value := Amount tx;
                       m_Nonce := AccountNonce tx; m_CheckNonce := true; m_Data := Payload tx; m_AccessList := [] |}
  end.

Record Receipt := {
  PostState : bytes; receipt_Failed : bool; CumulativeGasUsed : Z; receipt_TxHash : bytes; receipt_GasUsed : Z;
  ContractAddress : option Z; receipt_Logs : list Log; receipt_BlockHash : bytes; receipt_BlockNumber : Z; TransactionIndex : Z
}.

(** [statedb.SetState(blackAddr, key, txhash)] and the nonce that keeps the
    account. *)
Definition set_mark (key txhash : bytes) (s : StateDB) : StateDB :=
  let s := SetState 0 key txhash s in SetNonce 0 (u64 (GetNonce 0 s + 1)) s.

Definition mark_transaction (tx : Transaction) (st : StateTransition) : option (error * StateTransition) :=
  match Recipient tx with
  | Some to =>
      if negb (to =? 0) then Some (nil_err, st)
      else
        '(iswithdraw, txHash) ← IsWithdawFailedTx withdraw_client (Payload tx) BlackContractAddr;
        if (iswithdraw : bool) then Some (nil_err, on_db (set_mark (HexToHash txHash) (tx_Hash tx)) st)
        else if zlen (Payload tx) =? 32 then
          let txHash := hash_String (Payload tx) in
          '(e, spv) ← TrySetRechargeDataFromSpvService transition_small transition_signer txHash (st_spv st);
          let st := st <| st_spv := spv |> in
          if failed e then Some (e, st)
          else
            '(fee, addr, output) ← FindOutputFeeAndaddressByTxHash txHash spv;
            if (0 <? fee) && (0 <? output) && negb (addr =? 0)
            then Some (nil_err, on_db (set_mark (HexToHash txHash) (tx_Hash tx)) st)
            else Some (nil_err, st)
        else
          let '(txHash, _, _, _) := IsSmallCrossTxByData (Payload tx) in
          if bool_decide (txHash <> EmptyString) then Some (nil_err, on_db (set_mark (HexToHash txHash) (tx_Hash tx)) st)
          else Some (nil_err, st)
  | None => Some (nil_err, st)
  end.

(** [IntermediateRoot] writes the tries: a parameter. *)
Definition ApplyTransaction (IntermediateRoot : bool -> StateDB -> bytes * StateDB) (tx : Transaction) (gp usedGas : Z)
    (vm : Vm) (spv : Spv) : option ((Receipt + string) * Z * StateTransition) :=
  let fail := fun err st => Some (inr err, usedGas, st) in
  match AsMessage tx with
  | inr err => fail err {| st_gp := gp; st_gas := 0; initialGas := 0; st_vm := vm; st_spv := spv |}
  | inl msg =>
      '(result, err, st) ← ApplyMessage msg gp vm spv;
      match (err : error) with
      | Some err => fail err st
      | None =>
          '(err, st) ← mark_transaction tx st;
          match (err : error) with
          | Some err => fail err st
          | None =>
              let (root, s) := if IsByzantium then ([], Finalise true (st_state st)) else IntermediateRoot IsEIP158 (st_state st) in
              let st := on_db (fun _ => s) st in
              let usedGas := u64 (usedGas + UsedGas result) in
              Some (inl {| PostState := root; receipt_Failed := failed (result_Err result); CumulativeGasUsed := usedGas;
                           receipt_TxHash := tx_Hash tx; receipt_GasUsed := UsedGas result;
                           ContractAddress := if bool_decide (m_To msg = None) then Some (CreateAddress (m_From msg) (AccountNonce tx)) else None;
                           receipt_Logs := GetLogs (tx_Hash tx) s; receipt_BlockHash := bhash s;
                           receipt_BlockNumber := evm_BlockNumber; TransactionIndex := u64 (txIndex s) |},
                    usedGas, st)
          end
      end
  end.
End transition.

(** ** Preparing the access list

    [PrepareAccessList] replaces the access list and transient storage without a
    journal entry.  As long as the journal has no entry about them, reverting
    still gives the earlier accounts. *)
Section prepare.
Context `{!Keccak} `{!Database} `{!DatabaseLaws}.

Definition plain_entry (e : journalEntry) : bool :=
  match e with
  | accessListAddAccountChange _ | accessListAddSlotChange _ _ | transientStorageChange _ _ _ => false
  | _ => true
  end.

Definition plain_journal (s : StateDB) : Prop := Forall (fun e => plain_entry e = true) (entries (state_journal s)).

Definition replaced (al : accessList) (t : option (Z -> bytes -> bytes)) (w : World) : World :=
  w <| w_access := al |> <| w_transient := t |>.

#[export] Instance replaced_proper al t : Proper ((≡) ==> (≡)) (replaced al t).
Proof. intros w w' (Ha & _ & E). split; [done|]. split; [done|].
  injection E as E1 E2 E3 E4 E5 E6 E7 _. cbn. congruence. Qed.

Lemma wundo_replaced al t e w : plain_entry e = true -> wundo e (replaced al t w) = replaced al t <$> wundo e w.
Proof.
  intros He. destruct e; try done; cbn -[u64 zlen]; unfold w_modify; cbn -[u64 zlen];
    try (by destruct (w_account w account)). by case_match.
Qed.

Lemma wundo_all_replaced al t es w :
  Forall (fun e => plain_entry e = true) es -> wundo_all es (replaced al t w) = replaced al t <$> wundo_all es w.
Proof.
  intros HF. revert w. induction HF as [|e es He _ IH]; intros w; [done|]. cbn. rewrite wundo_replaced by done.
  destruct (wundo e w); [apply IH|done].
Qed.

Lemma replaced_saved al t s s' r c :
  plain_journal s -> access_wf al -> state_journal s' = state_journal s -> world s' = replaced al t (world s) ->
  saved_by s r c -> saved_by s' r (c.1, replaced al t c.2).
Proof.
  intros Hp Hal Hj Hw (S1 & S2 & S3 & S4). split; [done|]. rewrite Hj, Hw. split; [done|]. split.
  - destruct S3 as [T1 T2 T3]. by split.
  - cbn. rewrite wundo_all_replaced by (apply Forall_reverse; by apply Forall_drop).
    destruct (wundo_all _ (world s)) as [w|]; [|inversion S4]. apply Some_equiv_inj in S4. cbn. by rewrite S4.
Qed.

Lemma replaced_good al t s s' :
  good s -> plain_journal s -> access_wf al -> s' = s <| state_accessList := al |> <| state_transient := t |> ->
  good s' /\ forall a k, facts s' a k = facts s a k /\ GetBalance a s' = GetBalance a s.
Proof.
  intros (S & HS & Hok) Hp Hal ->. set (s' := s <| state_accessList := al |> <| state_transient := t |>).
  set (f := replaced al (w_transient (world s'))). assert (Hw : world s' = f (world s)) by done.
  assert (G : good s').
  { exists {| cur := f (cur S); saved := prod_map id f <$> saved S; next := next S |}.
    split; [|destruct Hok as [O1 O2]; split; [done|]; cbn; apply Forall_fmap; by eapply Forall_impl].
    destruct HS as [S1 S2 S3 S4 S5 S6 S7]. split; try done.
    - by destruct S1; split.
    - rewrite Hw. destruct S2 as [T1 T2 T3]. by split.
    - rewrite Hw. cbn. by rewrite S3.
    - cbn. apply Forall2_fmap_r. eapply Forall2_impl; [exact S5|]. intros r c. by apply replaced_saved. }
  split; [exact G|]. intros a k. assert (Gs : good s) by by exists S; split. split.
  - rewrite !facts_world by done. by rewrite Hw.
  - rewrite !GetBalance_world by done. by rewrite Hw.
Qed.

Lemma add_addresses_wf l al : access_wf al -> access_wf (add_addresses l al).
Proof. revert al. induction l as [|a l IH]; intros al Hal; [done|]. cbn. by apply IH, AddAddress_wf. Qed.

Lemma add_slots_wf a ks al : access_wf al -> exists al', add_slots a ks al = Some al' /\ access_wf al'.
Proof.
  revert al. induction ks as [|k ks IH]; intros al Hal; [by exists al|]. cbn.
  destruct (AddSlot_spec al a k Hal) as (ac & sc & al1 & -> & Hal1 & _). by apply IH.
Qed.

Lemma add_tuples_wf l al : access_wf al -> exists al', add_tuples l al = Some al' /\ access_wf al'.
Proof.
  revert al. induction l as [|[a ks] l IH]; intros al Hal; [by exists al|]. cbn.
  destruct (add_slots_wf a ks (snd (AddAddress a al))) as (al1 & -> & Hal1); [by apply AddAddress_wf|]. by apply IH.
Qed.

Lemma newAccessList_wf : access_wf newAccessList.
Proof. split; cbn; [|done|constructor]. intros a i. by rewrite lookup_empty. Qed.

Lemma PrepareAccessList_ok sh from coinbase dst pre tuples s :
  good s -> plain_journal s -> exists s', PrepareAccessList true sh from coinbase dst pre tuples s = Some s' /\ good s' /\
    forall a k, facts s' a k = facts s a k /\ GetBalance a s' = GetBalance a s.
Proof.
  intros Hs Hp. unfold PrepareAccessList. set (l := add_addresses _ newAccessList).
  destruct (add_tuples_wf tuples l) as (al & E & Hal); [apply add_addresses_wf, newAccessList_wf|]. rewrite E. cbn [mbind option_bind].
  eexists. split; [done|]. eapply replaced_good; [done|done| |reflexivity]. destruct sh; [by apply AddAddress_wf|done].
Qed.

Lemma append_plain e s : plain_entry e = true -> plain_journal s -> plain_journal (journal_append e s).
Proof. intros He Hs. unfold plain_journal. cbn. rewrite append_entries. apply Forall_app. split; [done|]. by constructor. Qed.

Lemma getDeleted_journal a s : state_journal (snd (getDeletedStateObject a s)) = state_journal s.
Proof. unfold getDeletedStateObject. destruct (stateObjects s !! a); [done|]. by destruct (trie s !! a). Qed.

Lemma GetOrNew_plain a s : plain_journal s -> plain_journal (snd (GetOrNewStateObject a s)).
Proof.
  intros Hs. unfold GetOrNewStateObject, getStateObject. pose proof (getDeleted_journal a s) as E.
  destruct (getDeletedStateObject a s) as [o s1]. cbn in E. assert (Hs1 : plain_journal s1) by (unfold plain_journal; by rewrite E).
  destruct (match o with Some o => _ | None => None end); [done|]. unfold createObject. pose proof (getDeleted_journal a s1) as E1.
  destruct (getDeletedStateObject a s1) as [[p|] s2]; cbn in E1; cbn [snd];
    apply append_plain; try done; unfold plain_journal; cbn; by rewrite E1.
Qed.

Lemma obj_SetBalance_plain x o s : plain_journal s -> plain_journal (obj_SetBalance x o s).
Proof. intros Hs. by apply (append_plain (balanceChange (address o) (acc_Balance (data o))) s). Qed.

Lemma AddBalance_plain a x s : plain_journal s -> plain_journal (AddBalance a x s).
Proof.
  intros Hs%(GetOrNew_plain a). unfold AddBalance. destruct (GetOrNewStateObject a s) as [o s1]. cbn [snd] in Hs. unfold obj_AddBalance.
  destruct (x =? 0); [|by apply obj_SetBalance_plain]. destruct (empty o); [|done]. unfold obj_touch.
  apply (append_plain (touchChange (address o))) in Hs; [|done]. by destruct (address o =? ripemd).
Qed.

Lemma SubBalance_plain a x s : plain_journal s -> plain_journal (SubBalance a x s).
Proof.
  intros Hs%(GetOrNew_plain a). unfold SubBalance. destruct (GetOrNewStateObject a s) as [o s1]. cbn [snd] in Hs. unfold obj_SubBalance.
  destruct (x =? 0); [done|by apply obj_SetBalance_plain].
Qed.
End prepare.

(** ** Gas and marks through a transition *)
Section through.
Context `{!Keccak} `{!Database} `{!DatabaseLaws} `{!ElaLib} `{!Codec} `{!SpvLib} `{!Zone} `{!EvmEnv} `{!EvmLaws True} `{!TransitionEnv} `{!RangeOrder}.

(** From [st] to [st'] the state stays well formed and, in the zone, the zero
    address is kept, its marks included. *)
Definition goes (st st' : StateTransition) : Prop :=
  zgood (st_state st') /\ (zone -> forall k, facts (st_state st') 0 k = facts (st_state st) 0 k).

Lemma goes_trans st1 st2 st3 : goes st1 st2 -> goes st2 st3 -> goes st1 st3.
Proof. intros [_ K1] [G2 K2]. split; [done|]. intros Hz k. by rewrite K2, K1. Qed.

Lemma goes_same st st' : zgood (st_state st) -> st_state st' = st_state st -> goes st st'.
Proof. intros G E. split; by rewrite E. Qed.

Lemma zacts_goes st st' : zgood (st_state st) -> zacts (st_state st) (st_state st') -> goes st st'.
Proof. intros G A. split; [by eapply zacts_good|apply A]. Qed.

Lemma AddBalance_goes a x st st' : zgood (st_state st) -> st_state st' = AddBalance a x (st_state st) -> goes st st'.
Proof. intros G E. apply zacts_goes; [done|]. rewrite E. by apply AddBalance_zacts. Qed.

Lemma SubBalance_goes a x st st' : zgood (st_state st) -> st_state st' = SubBalance a x (st_state st) -> goes st st'.
Proof. intros G E. apply zacts_goes; [done|]. rewrite E. by apply SubBalance_zacts. Qed.

Definition same_gas (st st' : StateTransition) : Prop :=
  st_gp st' = st_gp st /\ st_gas st' = st_gas st /\ initialGas st' = initialGas st.

(** The first part changes at most the sender's balance. *)
Lemma recharge_prologue_state msg h st p st' :
  recharge_prologue msg h st = Some (inl p, st') ->
  same_gas st st' /\ st_state st' = AddBalance (m_From msg) PassBalance (st_state st).
Proof.
  unfold recharge_prologue. intros E. apply bind_Some in E as ([e spv] & _ & E). apply bind_Some in E as ([[rs fee] err] & _ & E).
  destruct (failed err || _); [done|]. destruct (negb _); [done|]. destruct (existsb _ _); [done|]. by injection E as <- <-.
Qed.

Lemma dealSmall_state msg st a b h e st' :
  dealSmallCrossTx msg st = Some (a, b, h, e, st') -> same_gas st st' /\ st_state st' = st_state st.
Proof.
  unfold dealSmallCrossTx. destruct (IsSmallCrossTxByData _) as [[[rawTxid rawTx] sigs] height].
  destruct (bool_decide _); [by intros [= <- <- <- <- <-]|]. intros E. apply bind_Some in E as ([v err] & _ & E).
  destruct (failed err || _); [by injection E as <- <- <- <- <-|]. destruct (hex_DecodeString rawTx) as [buff er].
  destruct (failed er); [by injection E as <- <- <- <- <-|]. destruct (failed (GetTransactionByBytes buff)); [by injection E as <- <- <- <- <-|].
  destruct (Deserialize buff); [|by injection E as <- <- <- <- <-].
  apply bind_Some in E as (spv & _ & E). by injection E as <- <- <- <- <-.
Qed.

Lemma prologue_state msg st p st' :
  prologue msg st = Some (inl p, st') ->
  same_gas st st' /\ (st_state st' = st_state st \/ st_state st' = AddBalance (m_From msg) PassBalance (st_state st)) /\
  (m_To msg = Some 0 -> is_Some (IsWithdawFailedTx withdraw_client (m_Data msg) BlackContractAddr)).
Proof.
  unfold prologue. destruct (m_To msg) as [to|].
  2:{ destruct (bool_decide _); intros [= <- <-]; (split; [done|]); (split; [|done]); [by right|by left]. }
  destruct (Z.eqb_spec to 0) as [->|Hne]; cbn [negb]; [|intros [= <- <-]; split_and!; [done..|by left|congruence]].
  intros E. apply bind_Some in E as ([isW h] & EW & E). rewrite EW.
  assert (HW : Some 0 = Some 0 -> is_Some (Some (isW, h))) by done. destruct isW.
  { destruct (negb _); [done|]. injection E as <- <-. split_and!; [done..|by right|done]. }
  destruct (zlen (m_Data msg) =? 32); 
    [apply recharge_prologue_state in E as [? ?]; split; [done|]; split; [by right|done]|].
  destruct (32 <? _); [|injection E as <- <-; split_and!; [done..|by left|done]].
  apply bind_Some in E as ([[[[a b] h'] e] st1] & Ed & E). apply dealSmall_state in Ed as [G1 E1].
  destruct a; cbn [negb] in E; [|injection E as <- <-; split_and!; [apply G1..|by left|done]].
  destruct e; [done|]. destruct b; [|done]. cbn [negb] in E. apply recharge_prologue_state in E as [G2 E2].
  split; [|split; [right; by rewrite E2, E1|done]]. destruct G1 as (? & ? & ?), G2 as (? & ? & ?). unfold same_gas. split_and!; congruence.
Qed.

Lemma preCheck_state msg st st' :
  preCheck msg st = inl st' ->
  st_state st' = SubBalance (m_From msg) (m_Gas msg * m_GasPrice msg) (st_state st) /\ m_Gas msg <= st_gp st /\
  st_gp st' = st_gp st - m_Gas msg /\ st_gas st' = u64 (st_gas st + m_Gas msg) /\ initialGas st' = m_Gas msg /\ st_spv st' = st_spv st /\
  (m_CheckNonce msg = true -> GetNonce (m_From msg) (st_state st) = m_Nonce msg).
Proof.
  unfold preCheck, buyGas, SubGas. intros E. destruct (m_CheckNonce msg && _) eqn:E1; [done|]. destruct (m_CheckNonce msg && _) eqn:E2 in E; [done|].
  destruct (_ <? _ * _); [done|]. destruct (Z.ltb_spec (st_gp st) (m_Gas msg)); [done|]. injection E as <-. split_and!; [done..|].
  intros Hc. rewrite Hc in E1, E2. cbn [andb] in E1, E2. apply Z.ltb_ge in E1, E2. lia.
Qed.

(** The message's call keeps the zero address and makes no gas. *)
Definition called (st : StateTransition) (r : option (bytes * error * StateTransition)) : Prop :=
  forall ret vmerr st', r = Some (ret, vmerr, st') -> goes st st' /\ 0 <= st_gas st' <= st_gas st /\
    st_gp st' = st_gp st /\ initialGas st' = initialGas st /\ st_spv st' = st_spv st.

Lemma called_trans st st1 r : goes st st1 -> same_gas st st1 -> st_spv st1 = st_spv st -> called st1 r -> called st r.
Proof.
  intros G1 (E1 & E2 & E3) E4 HC ret vmerr st' E. destruct (HC ret vmerr st' E) as (G & Hb & F1 & F2 & F3).
  split; [by eapply goes_trans|]. split; [lia|]. split_and!; congruence.
Qed.

Lemma call_called caller to data value recharge st :
  zgood (st_state st) -> 0 <= st_gas st -> called st (r ← Call caller to data (st_gas st) value recharge (st_vm st); Some (set_vm r st)).
Proof.
  intros Hs Hg ret vmerr st' E. apply bind_Some in E as ([[[ret1 g] err] vm] & E & E'). injection E' as <- <- <-.
  destruct (Call_outcome (T := True) caller to data (st_gas st) value recharge (st_vm st) Hs Hg) as [Hr _]. rewrite E in Hr.
  destruct Hr as [Hb A]. split; [by apply zacts_goes|done].
Qed.

Lemma call_recharges_called msg rs ret vmerr st :
  zgood (st_state st) -> 0 <= st_gas st -> called st (call_recharges msg rs ret vmerr st).
Proof.
  revert ret vmerr st. induction rs as [|r rs IH]; intros ret vmerr st Hs Hg; cbn [call_recharges].
  - intros ? ? ? [= <- <- <-]. split; [by apply goes_same|]. by split; [lia|].
  - intros ret2 vmerr2 st2 E. apply bind_Some in E as (x & Ex & E). pose proof (call_called (AccountRef (m_From msg)) (default 0 (m_To msg)) (m_Data msg) (m_Value msg) (Some r) st Hs Hg) as HC.
    rewrite Ex in HC. cbn [mbind option_bind] in HC. destruct (set_vm x st) as [[ret1 vmerr1] st1] eqn:E1.
    destruct (HC _ _ _ eq_refl) as (G1 & Hb & F1 & F2 & F3). destruct (IH ret1 vmerr1 st1 (proj1 G1) (proj1 Hb) _ _ _ E) as (G2 & Hb2 & H1' & H2' & H3').
    split; [by eapply goes_trans|]. split; [lia|]. split_and!; congruence.
Qed.

Lemma call_message_called msg rs st :
  zgood (st_state st) -> 0 <= st_gas st -> m_From msg <> 0 -> called st (call_message msg rs st).
Proof.
  intros Hs Hg Hf. unfold call_message. destruct (m_To msg) as [to|] eqn:Eto.
  - set (st1 := on_db _ st). assert (G1 : goes st st1) by (apply zacts_goes; [done|]; by apply SetNonce_zacts).
    apply (called_trans st st1); [done|done|done|]. destruct rs as [|r rs]; [apply call_called; [apply G1|done]|].
    apply call_recharges_called; [apply G1|done].
  - intros ret vmerr st' E. apply bind_Some in E as ([[[[ret1 a] g] err] vm] & E & E'). unfold Create in E.
    pose proof (create_ran (T := True) (AccountRef (m_From msg)) (m_Data msg) zero_hash (st_gas st) (m_Value msg)
      (CreateAddress (m_From msg) (GetNonce (m_From msg) (st_state st))) (st_vm st) Hs Hg (fun _ => Hf)) as Hr.
    unfold ref_Address in *. unfold st_state in *. rewrite E in Hr. destruct Hr as [Hb A]. injection E' as <- <- <-.
    split; [by apply zacts_goes|done].
Qed.

(** *** Gas *)
Lemma count_nonzero_bounds data : 0 <= count_nonzero data <= zlen data.
Proof. induction data as [|b data IH]; [done|]. rewrite zlen_cons. cbn [count_nonzero foldr]. fold (count_nonzero data). case_match; lia. Qed.

(** The intrinsic gas without the limits of [uint64]. *)
Definition intrinsic (data : bytes) (contractCreation isEIP155 isEIP2028 : bool) : Z :=
  (if contractCreation && isEIP155 then TxGasContractCreation else TxGas) +
  count_nonzero data * (if isEIP2028 then TxDataNonZeroGasEIP2028 else TxDataNonZeroGasFrontier) +
  (zlen data - count_nonzero data) * TxDataZeroGas.

Lemma mul_fits a b c : 0 < b -> 0 <= c -> (a / b <? c) = (a <? c * b).
Proof.
  intros Hb Hc. destruct (Z.ltb_spec (a / b) c), (Z.ltb_spec a (c * b)); try done; exfalso.
  - assert (a / b * b + b <= c * b) by nia. pose proof (Z.mul_div_le a b Hb). pose proof (Z.mod_pos_bound a b Hb).
    pose proof (Z.div_mod a b ltac:(lia)). nia.
  - pose proof (Z.mul_div_le a b Hb). nia.
Qed.

Lemma IntrinsicGas_exact data cc e155 e2028 :
  (IsSmallCrossTxByData data).1.1.1 = EmptyString ->
  IntrinsicGas data cc e155 e2028 =
  if intrinsic data cc e155 e2028 <=? MaxUint64 then inl (intrinsic data cc e155 e2028) else inr ErrOutOfGas.
Proof.
  intros Hsm. unfold IntrinsicGas, intrinsic. destruct (IsSmallCrossTxByData data) as [[[rawTxid ?] ?] ?]. cbn in Hsm. subst rawTxid.
  cbn [bool_decide]. rewrite bool_decide_eq_false_2 by naive_solver. pose proof (count_nonzero_bounds data) as Hc.
  set (nz := count_nonzero data) in *. set (base := if cc && e155 then _ else TxGas).
  assert (Hbase : 0 <= base <= 53000) by (unfold base, TxGas, TxGasContractCreation; destruct (cc && e155); lia).
  set (ng := if e2028 then _ else _). assert (Hng : 0 < ng <= 68)
    by (unfold ng, TxDataNonZeroGasEIP2028, TxDataNonZeroGasFrontier; destruct e2028; lia).
  destruct (Z.ltb_spec 0 (zlen data)) as [Hl|Hl].
  2:{ replace nz with 0 by lia. replace (zlen data) with 0 by lia. replace (base + 0 * ng + (0 - 0) * TxDataZeroGas) with base by lia.
      rewrite (proj2 (Z.leb_le _ _)); [done|]. unfold MaxUint64. lia. }
  rewrite mul_fits by lia. destruct (Z.ltb_spec (MaxUint64 - base) (nz * ng)).
  { rewrite (proj2 (Z.leb_gt _ _)); [done|]. unfold TxDataZeroGas. nia. }
  rewrite (u64_small (base + nz * ng)) by (unfold is_u64, MaxUint64 in *; nia). rewrite mul_fits by (unfold TxDataZeroGas; lia).
  unfold TxDataZeroGas in *. destruct (Z.ltb_spec (MaxUint64 - (base + nz * ng)) ((zlen data - nz) * 4)).
  - rewrite (proj2 (Z.leb_gt _ _)); [done|]. lia.
  - rewrite u64_small by (unfold is_u64, MaxUint64 in *; nia). rewrite (proj2 (Z.leb_le _ _)); [done|]. lia.
Qed.

Lemma IntrinsicGas_nonneg data cc e155 e2028 gas : IntrinsicGas data cc e155 e2028 = inl gas -> TxGas <= gas.
Proof.
  intros E. destruct (decide ((IsSmallCrossTxByData data).1.1.1 = EmptyString)) as [Hsm|Hsm].
  - rewrite IntrinsicGas_exact in E by done. case_match; [|done]. injection E as <-. unfold intrinsic.
    pose proof (count_nonzero_bounds data). unfold TxGas, TxGasContractCreation, TxDataNonZeroGasEIP2028, TxDataNonZeroGasFrontier, TxDataZeroGas.
    destruct (cc && e155), e2028; lia.
  - unfold IntrinsicGas in E. destruct (IsSmallCrossTxByData data) as [[[rawTxid ?] ?] ?]. cbn in Hsm.
    rewrite bool_decide_eq_true_2 in E by done. injection E as <-. unfold TxGas, TxGasContractCreation. destruct (cc && e155); lia.
Qed.

Lemma return_gas_ok msg r st :
  zgood (st_state st) -> 0 <= st_gas st -> 0 <= r -> st_gas st + r <= initialGas st <= MaxUint64 ->
  0 <= st_gp st -> st_gp st + initialGas st <= MaxUint64 ->
  exists st', return_gas msg r st = Some st' /\ goes st st' /\ st_gas st' = st_gas st + r /\
    st_gp st' = st_gp st + st_gas st + r /\ initialGas st' = initialGas st /\ st_spv st' = st_spv st.
Proof.
  intros Hs Hg Hr Hi Hp Hpi. unfold return_gas, AddGas. rewrite u64_small by (unfold is_u64, MaxUint64 in *; lia).
  rewrite (proj2 (Z.ltb_ge _ _)) by lia. cbn [mbind option_bind]. eexists. split; [done|].
  split; [by eapply AddBalance_goes|]. split_and!; [done|cbn; lia|done|done].
Qed.

Lemma gasUsed_exact st : 0 <= st_gas st <= initialGas st -> initialGas st <= MaxUint64 -> gasUsed st = initialGas st - st_gas st.
Proof. intros Hg Hi. unfold gasUsed. apply u64_small. unfold is_u64, MaxUint64 in *. lia. Qed.

(** Refunds do not exceed the gas used; but for the bridge's free methods, they
    are at most half of it. *)
Lemma refund_ok msg (free : bool) st :
  zgood (st_state st) -> 0 <= st_gas st <= initialGas st -> initialGas st <= MaxUint64 -> 0 <= st_gp st ->
  st_gp st + initialGas st <= MaxUint64 ->
  exists st' r, (if free then refundBridgeGas msg st else refundGas msg st) = Some st' /\ goes st st' /\
    st_gas st' = st_gas st + r /\ 0 <= r <= initialGas st - st_gas st /\ (free = false -> 2 * r <= initialGas st - st_gas st) /\
    st_gp st' = st_gp st + st_gas st' /\ initialGas st' = initialGas st /\ st_spv st' = st_spv st.
Proof.
  intros Hs Hg Hi Hp Hpi. pose proof (gasUsed_exact st Hg Hi) as Eu. pose proof (good_refund _ (zgood_good _ Hs)) as Hrf. unfold is_u64 in Hrf.
  set (r := if free then gasUsed st else if GetRefund (st_state st) <? gasUsed st / 2 then GetRefund (st_state st) else gasUsed st / 2).
  assert (Hr : 0 <= r <= initialGas st - st_gas st /\ (free = false -> 2 * r <= initialGas st - st_gas st)).
  { unfold r. rewrite Eu. destruct free; [split; [lia|done]|]. pose proof (Z.mul_div_le (initialGas st - st_gas st) 2 ltac:(lia)).
    destruct (Z.ltb_spec (GetRefund (st_state st)) ((initialGas st - st_gas st) / 2)); split; intros; try lia.
    split; [apply Z.div_pos; lia|]. lia. }
  destruct Hr as [Hr Hr2]. destruct (return_gas_ok msg r st Hs) as (st' & E & G & E1 & E2 & E3 & E4); [lia..|].
  exists st', r. split; [by destruct free|]. split_and!; try done; lia.
Qed.

Lemma split_fee_goes fee st : zgood (st_state st) -> goes st (split_fee fee st).2 /\ same_gas st (split_fee fee st).2 /\
  st_spv (split_fee fee st).2 = st_spv st.
Proof.
  intros Hs. unfold split_fee. destruct (_ && _); [|split; [by apply goes_same|done]].
  set (x := fee * 50 / 100 / zlen DeveloperContract). clearbody x. revert fee st Hs.
  induction DeveloperContract as [|a l IH]; intros fee st Hs; [split; [by apply goes_same|done]|]. cbn [foldl].
  set (st1 := on_db _ st). assert (G1 : goes st st1) by (by eapply AddBalance_goes).
  destruct (IH (fee - x) st1) as (G2 & (S1 & S2 & S3) & S4); [apply G1|]. split; [by eapply goes_trans|].
  unfold same_gas. by rewrite S1, S2, S3, S4.
Qed.

Lemma pay_fee_goes msg free st : zgood (st_state st) -> goes st (pay_fee msg free st) /\ same_gas st (pay_fee msg free st) /\
  st_spv (pay_fee msg free st) = st_spv st.
Proof.
  intros Hs. unfold pay_fee. destruct free; [split; [by eapply AddBalance_goes|done]|].
  pose proof (split_fee_goes (gasUsed st * m_GasPrice msg) st Hs) as (G & S & E). destruct (split_fee _ st) as [m st1]. cbn [snd] in *.
  split; [eapply goes_trans; [exact G|]; eapply AddBalance_goes; [apply G|reflexivity]|]. done.
Qed.

(** *** The execution *)

(** A message with a gas limit, from an account other than the zero address. *)
Record sent (msg : Message) : Prop := { sent_gas : 0 <= m_Gas msg; sent_from : m_From msg <> 0 }.

(** What an execution without error leaves: the gas used, at most the message's,
    has left the pool. *)
Definition executed (msg : Message) (st : StateTransition) (result : ExecutionResult) (st' : StateTransition) : Prop :=
  goes st st' /\ UsedGas result = gasUsed st' /\ (0 <= UsedGas result <= m_Gas msg /\ m_Gas msg <= st_gp st) /\
  st_gp st' = st_gp st - UsedGas result /\ st_spv st' = st_spv st.

(** The access list is prepared on a state whose journal is plain. *)
Lemma prepared_goes msg st :
  zgood (st_state st) -> plain_journal (st_state st) ->
  exists s, (if IsBerlin then PrepareAccessList IsBerlin IsShanghai (m_From msg) Coinbase (m_To msg) ActivePrecompiles
                                (m_AccessList msg) (st_state st) else Some (st_state st)) = Some s /\
    goes st (on_db (fun _ => s) st).
Proof.
  intros [Hs Hz] Hp. destruct IsBerlin; [|exists (st_state st); split; [done|]; by apply goes_same].
  destruct (PrepareAccessList_ok IsShanghai (m_From msg) Coinbase (m_To msg) ActivePrecompiles (m_AccessList msg) (st_state st) Hs Hp)
    as (s & E & G & F). exists s. split; [done|]. assert (F0 : forall k, facts s 0 k = facts (st_state st) 0 k) by (intros k; apply F).
  split; [|done]. split; [done|]. intros Hzone. eapply guarded_facts, Hz, Hzone. exact F0.
Qed.

(** The call and what follows it. *)
Lemma finish_ok msg (free : bool) ret vmerr st :
  zgood (st_state st) -> 0 <= st_gas st <= initialGas st -> initialGas st <= MaxUint64 -> 0 <= st_gp st ->
  st_gp st + initialGas st <= MaxUint64 ->
  exists st1, (if IsBridgeContract msg st && negb (failed vmerr) then refundBridgeGas msg st else refundGas msg st) = Some st1 /\
    let st' := pay_fee msg free st1 in
    goes st st' /\ 0 <= gasUsed st' <= initialGas st - st_gas st /\ st_gp st' = st_gp st + initialGas st - gasUsed st' /\
    initialGas st' = initialGas st /\ st_spv st' = st_spv st /\
    UsedGas {| UsedGas := gasUsed st'; result_Err := vmerr; ReturnData := ret |} = gasUsed st'.
Proof.
  intros Hs Hg Hi Hp Hpi. destruct (refund_ok msg (IsBridgeContract msg st && negb (failed vmerr)) st Hs Hg Hi Hp Hpi)
    as (st1 & r & E & G1 & Eg & Hr & _ & Egp & Ei & Esp). exists st1. split; [exact E|].
  destruct (pay_fee_goes msg free st1) as (G2 & (S1 & S2 & S3) & S4); [apply G1|].
  assert (Eu : gasUsed (pay_fee msg free st1) = initialGas st - st_gas st - r).
  { rewrite gasUsed_exact; rewrite ?S2, ?S3; lia. }
  cbn zeta. split; [by eapply goes_trans|]. rewrite Eu, S1, S3, S4. split_and!; try done; try lia; congruence.
Qed.

Lemma execute_ok msg p st result vmerr st' :
  zgood (st_state st) -> plain_journal (st_state st) -> st_gas st = 0 -> sent msg -> 0 <= st_gp st <= MaxUint64 ->
  execute msg p st = Some (result, None, vmerr, st') -> executed msg st result st'.
Proof.
  intros Hs Hp Hg0 [Hg Hfr] Hgp. unfold execute.
  destruct (preCheck msg st) as [st1|e] eqn:Ep; [|done].
  apply preCheck_state in Ep as (Es1 & Hle & Egp1 & Eg1 & Ei1 & Esp1 & _).
  assert (G1 : goes st st1) by (by eapply SubBalance_goes).
  destruct (IntrinsicGas (m_Data msg) _ IsHomestead IsIstanbul) as [ig|e] eqn:Ei; [|done].
  apply IntrinsicGas_nonneg in Ei. unfold useGas. rewrite Hg0, Z.add_0_l, u64_small in Eg1 by (unfold is_u64, MaxUint64 in *; lia).
  destruct (Z.ltb_spec (st_gas st1) ig); [done|]. set (st2 := st1 <| st_gas := _ |>).
  destruct (prepared_goes msg st2) as (s & -> & G2); [apply G1| |].
  { change (st_state st2) with (st_state st1). rewrite Es1. by apply SubBalance_plain. }
  cbn [mbind option_bind]. set (st3 := on_db _ st2) in *. unfold TxGas in Ei. intros E. apply bind_Some in E as ([[ret vmerr4] st4] & Ec & E).
  destruct (call_message_called msg (pro_recharges p) st3 (proj1 G2) ltac:(cbn; lia) Hfr _ _ _ Ec) as (G4 & Hb & E1 & E2 & E3).
  destruct (bool_decide (vmerr4 = New ErrWithdawrefundCallFailed)) eqn:Ev.
  { apply bool_decide_eq_true in Ev. subst vmerr4. done. }
  assert (G14 : goes st st4) by (eapply goes_trans; [exact G1|]; eapply goes_trans; [exact G2|exact G4]).
  cbn in Hb, E1, E2, E3. set (free := (_ && _) || pro_refund p) in E.
  destruct (finish_ok msg free ret vmerr4 st4) as (st5 & E5 & G5 & Hu & Egp5 & Ei5 & Esp5 & _); [apply G14|lia..|]. rewrite E5 in E.
  cbn [mbind option_bind] in E. injection E as <- <- <-. split; [by eapply goes_trans|]. cbn [UsedGas].
  rewrite E2, Ei1, E1, Egp1 in *. split_and!; [done|lia|lia|done|lia|]. rewrite Esp5, E3. exact Esp1.
Qed.

(** *** The deferred functions on success *)
Lemma or_gas_limit_failed err : or_gas_limit err <> None.
Proof. by destruct err. Qed.

Definition paid (d : Deferred) : Prop :=
  match d with DeferRecharge recharges _ => Forall (fun r => 0 < Fee r) recharges | _ => True end.

Lemma run_deferred_no_error msg d snapshot result err vmerr st r' st' :
  run_deferred msg d snapshot (result, err, vmerr, st) = Some (r', None, st') -> err = None.
Proof.
  assert (HR : forall x st1, (st ← revert_state snapshot st1; Some (x, or_gas_limit err, st)) <> Some (r', None, st')).
  { intros x st1 E. apply bind_Some in E as (st2 & _ & E). injection E as _ E _. by apply or_gas_limit_failed in E. }
  destruct d as [| |rs fee|]; cbn [run_deferred]; unfold refund_deferred, recharge_deferred, black_deferred; intros E;
    repeat (case_match; try (by apply HR in E)); by injection E.
Qed.

Lemma run_deferred_success msg d snapshot result err vmerr st r' st' :
  zgood (st_state st) -> run_deferred msg d snapshot (result, err, vmerr, st) = Some (r', None, st') ->
  err = None /\ r' = result /\ goes st st' /\ same_gas st st' /\ st_spv st' = st_spv st /\ paid d.
Proof.
  intros Hs. assert (HR : forall x st1, (st ← revert_state snapshot st1; Some (x, or_gas_limit err, st)) <> Some (r', None, st')).
  { intros x st1 E. apply bind_Some in E as (st2 & _ & E). injection E as _ E _. by apply or_gas_limit_failed in E. }
  assert (HT : forall st1, goes st st1 -> goes st (take_back msg st1)).
  { intros st1 G. eapply goes_trans; [exact G|]. eapply SubBalance_goes; [apply G|reflexivity]. }
  destruct d as [| |rs fee|]; cbn [run_deferred].
  - intros [= -> -> ->]. by split_and!.
  - unfold refund_deferred. destruct (_ || _); [intros E; by apply HR in E|]. destruct (_ <? _); [intros E; by apply HR in E|].
    intros [= -> -> <-]. split_and!; try done. by apply HT, goes_same.
  - unfold recharge_deferred. destruct (existsb _ rs) eqn:Er; [intros E; by apply HR in E|].
    destruct (_ || _); [intros E; by apply HR in E|]. intros [= -> -> <-]. split_and!; try done.
    + apply HT. by eapply AddBalance_goes.
    + cbn. apply Forall_forall. intros r Hr. apply not_true_iff_false in Er. rewrite existsb_exists in Er.
      destruct (Z.leb_spec (Fee r) 0); [|done]. destruct Er. exists r. split; [by apply list_elem_of_In|].
      by rewrite (proj2 (Z.leb_le _ _)).
  - unfold black_deferred. destruct (_ <? _); [intros E; by apply HR in E|]. intros [= -> -> <-]. split_and!; try done. by apply HT, goes_same.
Qed.

(** *** The transition on success *)
Lemma Snapshot_plain s : plain_journal s -> plain_journal (snd (Snapshot s)).
Proof. done. Qed.

Lemma TransitionDb_success msg st result st' :
  zgood (st_state st) -> plain_journal (st_state st) -> st_gas st = 0 -> sent msg -> 0 <= st_gp st <= MaxUint64 ->
  TransitionDb msg st = Some (result, None, st') ->
  goes st st' /\ (0 <= UsedGas result <= m_Gas msg /\ m_Gas msg <= st_gp st) /\ st_gp st' = st_gp st - UsedGas result /\
  exists p st1, prologue msg (on_db (fun _ => snd (Snapshot (st_state st))) st) = Some (inl p, st1) /\
    st_spv st' = st_spv st1 /\ paid (pro_deferred p).
Proof.
  intros Hs Hp Hg0 Hg Hgp E. unfold TransitionDb in E. cbn [Snapshot] in E. set (st0 := on_db _ st) in E.
  assert (G0 : goes st st0).
  { split; [by apply zgood_Snapshot|]. intros _. by apply Snapshot_zfacts, zgood_good. }
  apply bind_Some in E as ([p st1] & Ep & E). destruct p as [p|e]; [|done].
  pose proof (prologue_state _ _ _ _ Ep) as ((S1 & S2 & S3) & Hst & HW).
  assert (G1 : goes st0 st1).
  { destruct Hst as [Hst|Hst]; [apply goes_same; [apply G0|done]|]. eapply AddBalance_goes; [apply G0|done]. }
  assert (Hp1 : plain_journal (st_state st1)).
  { destruct Hst as [-> | ->]; [by apply Snapshot_plain|]. by apply AddBalance_plain, Snapshot_plain. }
  apply bind_Some in E as ([[[result1 err1] vmerr] st2] & Ee & E).
  pose proof (run_deferred_no_error _ _ _ _ _ _ _ _ _ E) as ->.
  destruct (execute_ok msg p st1 result1 vmerr st2) as (G2 & _ & Hu & Egp & Esp); [apply G1|done|by rewrite S2|done|by rewrite S1|done|].
  destruct (run_deferred_success _ _ _ _ _ _ _ _ _ (proj1 G2) E) as (_ & -> & G3 & (T1 & T2 & T3) & Esp3 & Hpaid).
  split; [by eapply goes_trans, goes_trans, goes_trans|]. change (st_gp st0) with (st_gp st) in S1. rewrite S1 in Hu. split; [done|]. split; [rewrite T1, Egp, S1; done|].
  exists p, st1. split; [exact Ep|]. split; [congruence|done].
Qed.

(** the intrinsic gas is computed without overflow.  [IntrinsicGas] equals the
    formula over unbounded integers, the base cost and the cost of the non-zero
    and zero bytes, and is out of gas exactly when that exceeds 64 bits; the data
    of a small deposit is free. *)
Theorem IntrinsicGas_formula (data : bytes) (contractCreation isEIP155 isEIP2028 : bool) :
  let gas := intrinsic data contractCreation isEIP155 isEIP2028 in
  IntrinsicGas data contractCreation isEIP155 isEIP2028 =
  if bool_decide ((IsSmallCrossTxByData data).1.1.1 = EmptyString)
  then if gas <=? MaxUint64 then inl gas else inr ErrOutOfGas
  else inl (if contractCreation && isEIP155 then TxGasContractCreation else TxGas).
Proof.
  cbn zeta. case_bool_decide as Hsm; [by apply IntrinsicGas_exact|]. unfold IntrinsicGas.
  destruct (IsSmallCrossTxByData data) as [[[rawTxid ?] ?] ?]. cbn in Hsm. by rewrite bool_decide_eq_true_2.
Qed.
End through.
