(* ===== verification/Process.v ===== *)
(** * [core/state_processor.go]

    A block's transactions, one after the other: each is prepared and applied, its
    deposit or refund is marked as executed in the storage of the zero address,
    and the state is finalised.  The properties, for the modelled interpreter: no
    two transactions execute the same deposit or refund, in a block and across
    blocks; what a block's transactions use of the gas is what the pool loses.

    The engine's [Finalize], the changes of the DAO fork and the writing of tries
    are parameters; [None] is a panic. *)
From S2P Require Import Prelude Ela Messages Rlp Header Common AccessList StateDB StateSpec StateRefine Withdraw SmallCross Recharge Evm EvmMachine EvmGas EvmInstr Interpreter InterpreterSound Transition.

(** ** Processing a block *)
Section process.
Context `{!Keccak} `{!Database} `{!ElaLib} `{!Codec} `{!SpvLib} `{!TransitionEnv} `{!RangeOrder}.
(** The virtual machine's environment of each transaction. *)
Variable NewEVM : Transaction -> EvmEnv.
Variable IntermediateRoot : bool -> StateDB -> bytes * StateDB.

Record Processed := {
  p_receipts : list Receipt; p_logs : list Log; p_usedGas : Z; p_gp : Z; p_vm : Vm; p_spv : Spv
}.

#[export] Instance Processed_eta : Eta Processed := fun p => {|
  p_receipts := p_receipts p; p_logs := p_logs p; p_usedGas := p_usedGas p; p_gp := p_gp p; p_vm := p_vm p; p_spv := p_spv p
|}.

Fixpoint process_txs (blockHash : bytes) (i : Z) (txs : list Transaction) (p : Processed) : option (Processed + string) :=
  match txs with
  | [] => Some (inl p)
  | tx :: txs =>
      let vm := on_state (Prepare (tx_Hash tx) blockHash i) (p_vm p) in
      '(r, usedGas, st) ← @ApplyTransaction _ _ _ _ _ (NewEVM tx) _ _ IntermediateRoot tx (p_gp p) (p_usedGas p) vm (p_spv p);
      match (r : Receipt + string) with
      | inr err => Some (inr err)
      | inl receipt =>
          process_txs blockHash (i + 1) txs
            {| p_receipts := p_receipts p ++ [receipt]; p_logs := p_logs p ++ receipt_Logs receipt; p_usedGas := usedGas;
               p_gp := st_gp st; p_vm := st_vm st; p_spv := st_spv st |}
      end
  end.

(** The receipts, the logs, the gas used and the state. *)
Definition Process (ApplyDAOHardFork Finalize : StateDB -> StateDB) (blockHash : bytes) (GasLimit : Z) (txs : list Transaction)
    (vm : Vm) (spv : Spv) : option (Processed + string) :=
  gp ← AddGas GasLimit 0;
  r ← process_txs blockHash 0 txs
        {| p_receipts := []; p_logs := []; p_usedGas := 0; p_gp := gp; p_vm := on_state ApplyDAOHardFork vm; p_spv := spv |};
  match r with
  | inr err => Some (inr err)
  | inl p => Some (inl (p <| p_vm := on_state Finalize (p_vm p) |>))
  end.
End process.

(** ** Marks *)
Section marking.
Context `{!Keccak} `{!Database} `{!DatabaseLaws} `{!ElaLib} `{!Codec} `{!SpvLib} `{!EvmEnv} `{!TransitionEnv} `{!RangeOrder}.

(** The key under which a transaction's deposit or refund is marked. *)
Definition cross_key (to : option Z) (data : bytes) : option bytes :=
  if bool_decide (to = Some 0) then
    match IsWithdawFailedTx withdraw_client data BlackContractAddr with
    | None => None
    | Some (true, txid) => Some (HexToHash txid)
    | Some (false, _) =>
        if zlen data =? 32 then Some (HexToHash (hash_String data))
        else
          let '(txHash, _, _, _) := IsSmallCrossTxByData data in
          if bool_decide (txHash <> EmptyString) then Some (HexToHash txHash) else None
    end
  else None.

Lemma recharge_prologue_unmarked msg h st p st' :
  recharge_prologue msg h st = Some (inl p, st') -> GetState 0 (HexToHash h) (st_state st) = zero_hash.
Proof.
  unfold recharge_prologue. intros E. apply bind_Some in E as ([e spv] & _ & E). apply bind_Some in E as ([[rs fee] err] & _ & E).
  destruct (failed err || _); [done|]. destruct (negb _) eqn:Em; [done|]. apply negb_false_iff, bytes_Equal_spec in Em. exact Em.
Qed.

Lemma prologue_unmarked msg st p st' k :
  prologue msg st = Some (inl p, st') -> cross_key (m_To msg) (m_Data msg) = Some k -> GetState 0 k (st_state st) = zero_hash.
Proof.
  unfold prologue, cross_key. intros E Ek. case_bool_decide as Eto; [|done]. rewrite Eto in E. cbn [Z.eqb negb] in E.
  destruct (IsWithdawFailedTx _ _ _) as [[isW h]|]; [|done]. cbn [mbind option_bind] in E. destruct isW.
  { injection Ek as <-. destruct (negb _) eqn:Em; [done|]. by apply negb_false_iff, bytes_Equal_spec in Em. }
  destruct (zlen (m_Data msg) =? 32); [injection Ek as <-; by eapply recharge_prologue_unmarked|].
  destruct (32 <? zlen (m_Data msg)) eqn:El.
  - unfold dealSmallCrossTx in E. pose proof (dealSmall_state msg st) as HS. unfold dealSmallCrossTx in HS.
    destruct (IsSmallCrossTxByData (m_Data msg)) as [[[rawTxid rawTx] sigs] height]. destruct (decide (rawTxid = EmptyString)) as [Hr|Hr];
      [by rewrite bool_decide_eq_false_2 in Ek by naive_solver|]. rewrite bool_decide_eq_true_2 in Ek by done. injection Ek as <-.
    rewrite bool_decide_eq_false_2 in E, HS by done.
    apply bind_Some in E as ([[[[a b] h'] e] st1] & Ed & E). destruct (HS _ _ _ _ _ Ed) as [_ Es].
    apply bind_Some in Ed as ([v err] & _ & Ed).
    assert (a = true /\ h' = rawTxid) as [-> ->].
    { destruct (failed err || _); [by injection Ed as <- _ <- _ _|]. destruct (hex_DecodeString rawTx) as [buff er].
      destruct (failed er); [by injection Ed as <- _ <- _ _|]. destruct (failed (GetTransactionByBytes buff)); [by injection Ed as <- _ <- _ _|].
      destruct (Deserialize buff); [|by injection Ed as <- _ <- _ _].
      apply bind_Some in Ed as (spv & _ & Ed). by injection Ed as <- _ <- _ _. }
    cbn [negb] in E. destruct e; [done|]. destruct (negb b); [done|]. apply recharge_prologue_unmarked in E. by rewrite <- Es.
  - unfold IsSmallCrossTxByData in Ek. apply Z.ltb_ge in El. rewrite (proj2 (Z.ltb_lt (zlen (m_Data msg)) 1024)) in Ek by lia.
    cbn [orb] in Ek. by rewrite bool_decide_eq_false_2 in Ek by naive_solver.
Qed.

(** What the first part found of a deposit named by its hash. *)
Lemma recharge_prologue_found msg h st p st' :
  recharge_prologue msg h st = Some (inl p, st') ->
  exists d ds fee, pro_deferred p = DeferRecharge (d :: ds) fee /\ GetRechargeDataByTxhash h (st_spv st') = Some (d :: ds, fee, nil_err) /\
    TargetAddress d <> 0 /\ Fee d <= TargetAmount d.
Proof.
  unfold recharge_prologue. intros E. apply bind_Some in E as ([e spv] & _ & E). apply bind_Some in E as ([[rs fee] err] & Er & E).
  destruct err as [er|]; [done|]. destruct e as [e|]; [done|]. cbn [failed orb] in *.
  destruct (zlen rs <=? 0) eqn:El; [done|]. destruct (negb _); [done|]. destruct (existsb _ rs) eqn:Ex; [done|].
  injection E as <- <-. destruct rs as [|d ds]; [done|]. cbn [existsb] in Ex. apply orb_false_iff in Ex as [Ex _].
  apply orb_false_iff in Ex as [E1 E2]. exists d, ds, fee. split_and!; [done|exact Er|by apply Z.eqb_neq|by apply Z.ltb_ge].
Qed.
(** A deposit's hash is recorded for the first output. *)
Lemma deposit_recorded msg st p st1 s :
  wf_bytes (m_Data msg) -> zlen (m_Data msg) = 32 -> recharge_prologue msg (hash_String (m_Data msg)) st = Some (inl p, st1) ->
  paid (pro_deferred p) -> s = st_spv st1 ->
  TrySetRechargeDataFromSpvService transition_small transition_signer (hash_String (m_Data msg)) s = Some (nil_err, s) /\
  exists fee addr output, FindOutputFeeAndaddressByTxHash (hash_String (m_Data msg)) s = Some (fee, addr, output) /\
    (0 <? fee) && (0 <? output) && negb (addr =? 0) = true.
Proof.
  intros Hb Hl E Hp ->. apply recharge_prologue_found in E as (d & ds & total & Ed & Ef & Ht & Hle). rewrite Ed in Hp.
  apply Forall_cons_1 in Hp as [Hf _]. apply Find_first in Ef. split.
  - eapply TrySet_known; [apply strip_hash| |exact Ef|exact Hf]. apply strip_encode; [done|]. intros E0. by rewrite E0 in Hl.
  - eexists _, _, _. split; [exact Ef|]. rewrite !(proj2 (Z.ltb_lt _ _)) by lia. by rewrite (proj2 (Z.eqb_neq _ _)).
Qed.

(** After a message that succeeded, its deposit or refund is marked, and nothing
    else is. *)
Lemma mark_transaction_spec tx msg st p st1 st' :
  AsMessage tx = inl msg -> wf_bytes (Payload tx) -> prologue msg st = Some (inl p, st1) -> paid (pro_deferred p) ->
  st_spv st' = st_spv st1 ->
  exists st'', mark_transaction tx st' = Some (nil_err, st'') /\ st_gp st'' = st_gp st' /\
    st_state st'' = from_option (fun k => set_mark k (tx_Hash tx) (st_state st')) (st_state st') (cross_key (Recipient tx) (Payload tx)).
Proof.
  unfold AsMessage. destruct (Sender tx) as [from|]; [|done]. intros [= <-] Hb E Hp Hspv. unfold mark_transaction, cross_key.
  unfold prologue in E. cbn [m_To m_Data] in E. destruct (Recipient tx) as [dst|].
  2:{ rewrite bool_decide_eq_false_2 by done. by exists st'. }
  destruct (Z.eqb_spec dst 0) as [E0|Hne]; [rewrite E0 in *|]; cbn [negb] in *.
  2:{ rewrite bool_decide_eq_false_2 by congruence. by exists st'. }
  rewrite bool_decide_eq_true_2 by done. destruct (IsWithdawFailedTx _ _ _) as [[isW h]|]; [|done]. cbn [mbind option_bind] in *.
  destruct isW; [by eexists|]. destruct (Z.eqb_spec (zlen (Payload tx)) 32) as [El|].
  - match type of E with recharge_prologue ?msg _ _ = _ =>
      destruct (deposit_recorded msg _ _ _ (st_spv st') Hb El E Hp Hspv) as (E1 & fee & addr & output & E2 & E3) end.
    cbn [m_Data] in E1. rewrite E1. cbn [mbind option_bind failed].
    cbn [m_Data] in E2. rewrite E2. cbn [mbind option_bind]. rewrite E3. by eexists.
  - destruct (IsSmallCrossTxByData (Payload tx)) as [[[txHash ?] ?] ?]. case_bool_decide; by eexists.
Qed.

Lemma SetState_facts b k x s a k' :
  good s -> facts (SetState b k x s) a k' =
  (GetNonce a s, if (a =? b) && bytes_Equal k' k then x else GetState a k' s, GetCode a s, HasSuicided a s).
Proof.
  intros Hs. rewrite facts_world by (by eapply acts_good, SetState_acts).
  destruct (SetState_spec b k x s (good_state s Hs)) as [_ Hw]. rewrite (w_facts_proper _ _ a k' Hw). unfold w_update. rewrite w_facts_set.
  destruct (Z.eqb_spec a b) as [->|]; cbn [andb]; [|by rewrite <- facts_world].
  cbn [from_option]. pose proof (facts_object s b k' Hs) as E. unfold facts, view_facts in E |- *. injection E as E1 E2 E3 E4.
  by rewrite <- E1, <- E2, <- E3, <- E4.
Qed.

Lemma set_mark_facts k h s k' :
  good s -> 0 <= GetNonce 0 s < MaxUint64 ->
  facts (set_mark k h s) 0 k' =
  (GetNonce 0 s + 1, if bytes_Equal k' k then h else GetState 0 k' s, GetCode 0 s, HasSuicided 0 s).
Proof.
  intros Hs Hn. unfold set_mark. set (s1 := SetState 0 k h s). assert (G1 : good s1) by (by eapply acts_good, SetState_acts).
  rewrite SetNonce_facts by done. pose proof (SetState_facts 0 k h s 0 k' Hs) as E. change (SetState 0 k h s) with s1 in E. unfold facts in E. injection E as E1 E2 E3 E4.
  rewrite E1, E2, E3, E4. cbn [Z.eqb andb]. rewrite u64_small by (unfold is_u64, MaxUint64 in *; lia). done.
Qed.

Lemma set_mark_good k h s : good s -> good (set_mark k h s).
Proof. intros Hs. eapply acts_good; [|apply SetNonce_acts]. by eapply acts_good, SetState_acts. Qed.
End marking.

(** ** The end of a transaction *)
Section finalising.
Context `{!Keccak} `{!Database} `{!DatabaseLaws} `{!RangeOrder}.

Lemma Finalise_refund s : GetRefund (Finalise true s) = 0 \/ GetRefund (Finalise true s) = GetRefund s.
Proof.
  unfold Finalise, clearJournalAndRefund. match goal with |- context [foldl ?f s ?l] =>
    destruct (foldl_finalise_fields true l s) as (_ & E & _); set (s1 := foldl f s l) in * end.
  destruct (0 <? _); [by left|by right].
Qed.

Lemma fresh_good s : fresh s -> is_u64 (GetRefund s) -> good s.
Proof. intros Hs Hr. exists (spec_of s). split; [by apply sim_fresh_state|]. by split; [|constructor]. Qed.

Lemma Finalise_clean s : good s -> fresh (Finalise true s) /\ is_u64 (GetRefund (Finalise true s)).
Proof.
  intros Hs. pose proof (good_refund s Hs) as Hr. destruct Hs as (S & HS & _). split; [apply Finalise_fresh; [apply HS|eapply sim_ok, HS]|].
  destruct (Finalise_refund s) as [E|E]; rewrite E; [done|exact Hr].
Qed.

Lemma Finalise_good s : good s -> good (Finalise true s).
Proof. intros Hs. by apply fresh_good; apply Finalise_clean. Qed.

Lemma Finalise_plain s : plain_journal (Finalise true s).
Proof.
  unfold plain_journal, Finalise, clearJournalAndRefund. match goal with |- context [foldl ?f s ?l] => set (s1 := foldl f s l) end.
  destruct (Z.ltb_spec 0 (zlen (entries (state_journal s1)))) as [|Hl]; [constructor|].
  pose proof (zlen_nonneg (entries (state_journal s1))). cbn. rewrite (zlen_0_nil (entries (state_journal s1))) by lia. constructor.
Qed.

(** The zero address is removed only when it holds no mark. *)
Lemma Finalise_facts s k :
  good s -> HasSuicided 0 s = false ->
  facts (Finalise true s) 0 k = facts s 0 k \/
  (GetNonce 0 s = 0 /\ facts (Finalise true s) 0 k = (0, zero_hash, [], false)).
Proof.
  intros Hs Hd. assert (Hd' : exists x y z, facts s 0 k = (x, y, z, false)) by (unfold facts; rewrite Hd; eauto).
  assert (Hn : GetNonce 0 s = (w_facts (world s) 0 k).1.1.1) by (by rewrite <- facts_world).
  rewrite !facts_world in * by (done || by apply Finalise_good). rewrite Hn. clear Hn.
  pose proof (Finalise_account true s 0) as E. unfold w_facts in *. case_bool_decide.
  2:{ left. destruct E as [v v' (E & Hst & _)|]; [|done]. injection E as ? ? ? ? ? ?. cbn. unfold view_facts. by rewrite Hst; congruence. }
  destruct (w_account (world s) 0) as [v|]; cbn [mbind option_bind from_option] in *.
  2:{ left. apply None_equiv_eq in E. by rewrite E. }
  unfold settled in E. destruct Hd' as (x & y & z & Hv). unfold view_facts in Hv. injection Hv as Hx Hy Hz Hsu. rewrite Hsu in E. cbn [orb] in E.
  destruct (true && view_empty v) eqn:Ee.
  - right. apply andb_true_iff in Ee as [_ Ee]. unfold view_empty in Ee. apply andb_true_iff in Ee as [Ee _]. apply andb_true_iff in Ee as [Ee _].
    apply Z.eqb_eq in Ee. split; [done|]. apply None_equiv_eq in E. by rewrite E.
  - left. apply Some_equiv_eq in E as (v' & E & Ev & Hst & _). rewrite E. cbn. injection Ev as ? ? ? ? ? ?. unfold view_facts. cbn in *. by rewrite Hst; congruence.
Qed.

Lemma Finalise_marked s k h : good s -> marked k h s -> marked k h (Finalise true s).
Proof.
  intros Hs (M1 & M2 & M3). destruct (Finalise_facts s k Hs M3) as [E|[E _]]; [|lia]. unfold facts in E. injection E as E1 E2 E3 E4.
  unfold marked. by rewrite E1, E2, E4.
Qed.

Lemma Finalise_zero s : good s -> HasSuicided 0 s = false -> GetNonce 0 (Finalise true s) = GetNonce 0 s /\ HasSuicided 0 (Finalise true s) = false.
Proof.
  intros Hs Hd. destruct (Finalise_facts s zero_hash Hs Hd) as [E|[En E]]; unfold facts in E; injection E as E1 E2 E3 E4; split; congruence.
Qed.
End finalising.

(** ** A transaction *)

(** The state between transactions: well formed, without snapshots and without
    access lists in the journal. *)
Record clean `{!Keccak} `{!Database} (s : StateDB) : Prop := {
  clean_fresh : fresh s;
  clean_refund : is_u64 (GetRefund s);
  clean_plain : plain_journal s
}.

(** The zero address holds marks: it has a nonce, which the first mark gives it, no
    code, and is not destroyed. *)
Record held `{!Keccak} `{!Database} (s : StateDB) : Prop := {
  held_nonce : 0 < GetNonce 0 s;
  held_code : GetCode 0 s = [];
  held_alive : HasSuicided 0 s = false
}.

(** A signed transaction: fields in range.  No transaction hashes to zero and no
    key signs for the zero address. *)
Record tx_ok (tx : Transaction) : Prop := {
  ok_hash : tx_Hash tx <> zero_hash;
  ok_payload : wf_bytes (Payload tx);
  ok_gas : 0 <= GasLimit tx;
  ok_sender : Sender tx <> inl 0
}.

Section held.
Context `{!Keccak} `{!Database} `{!DatabaseLaws} `{!RangeOrder}.

Lemma held_facts s s' : (forall k, facts s' 0 k = facts s 0 k) -> held s -> held s'.
Proof. intros F [Hn Hc Hd]. specialize (F zero_hash). injection F as E1 _ E3 E4. split; congruence. Qed.

Lemma Finalise_held s : good s -> held s -> forall k, facts (Finalise true s) 0 k = facts s 0 k.
Proof. intros Hs [Hn _ Hd] k. destruct (Finalise_facts s k Hs Hd) as [E|[E _]]; [done|lia]. Qed.

(** The marking and what a block's transaction finalises. *)
Lemma mark_held o h s :
  good s -> held s -> GetNonce 0 s < MaxUint64 ->
  let s' := Finalise true (from_option (fun k => set_mark k h s) s o) in
  held s' /\ GetNonce 0 s' <= GetNonce 0 s + 1 /\ (forall k, o = Some k -> marked k h s') /\
  forall k x, o <> Some k -> marked k x s -> marked k x s'.
Proof.
  intros Hs Hh Hn s'. pose proof Hh as [H0' Hc Hd]. set (s1 := from_option _ s o) in s'.
  assert (G1 : good s1) by (unfold s1; destruct o; [by apply set_mark_good|done]).
  assert (F : forall k, facts s1 0 k = match o with
    | Some k0 => (GetNonce 0 s + 1, if bytes_Equal k k0 then h else GetState 0 k s, GetCode 0 s, HasSuicided 0 s)
    | None => facts s 0 k end) by (intros k; unfold s1; destruct o; [apply set_mark_facts; [done|lia]|done]).
  assert (HZ : held s1 /\ GetNonce 0 s1 <= GetNonce 0 s + 1).
  { specialize (F zero_hash). destruct o; [|split; [done|cbn; lia]]. injection F as F1 _ F3 F4. split; [|lia]. split; [lia|congruence|congruence]. }
  destruct HZ as [Hh1 Hn1]. pose proof (Finalise_held s1 G1 Hh1) as FF. fold s' in FF. split_and!.
  - by eapply held_facts.
  - specialize (FF zero_hash). injection FF as -> _ _ _. done.
  - intros k Ho. apply (facts_marked s1); [done|]. specialize (F k). clearbody s1. rewrite Ho in F. injection F as _ F _ _.
    split_and!; [|apply Hh1..]. by rewrite F, (proj2 (bytes_Equal_spec k k) eq_refl).
  - intros k x Ho (M1 & M2 & M3). apply (facts_marked s1); [done|]. specialize (F k). unfold facts in F.
    destruct o as [k0|]; [|by split_and!]. injection F as F1 F2 F3 F4. split_and!; [|apply Hh1..]. rewrite F2. destruct (bytes_Equal k k0) eqn:E; [|done].
    apply bytes_Equal_spec in E as ->. done.
Qed.
End held.

(** The zone where the marks are to be kept. *)
Definition marks_zone `{!Database} `{!DatabaseLaws} : Zone := {| zone := True; zone_db := fun _ => _ |}.

Section apply.
Context `{!Keccak} `{!Database} `{!DatabaseLaws} `{!ElaLib} `{!Codec} `{!SpvLib} `{!Zone} `{!EvmEnv} `{!EvmLaws True} `{!TransitionEnv} `{!RangeOrder}.

Lemma AsMessage_sent tx msg : tx_ok tx -> AsMessage tx = inl msg -> sent msg.
Proof.
  intros [_ _ Hg Hs]. unfold AsMessage. destruct (Sender tx); [|done]. intros [= <-]. split; try done. cbn. congruence.
Qed.

(** What an applied transaction does to the marks. *)
Record crosses (tx : Transaction) (s s' : StateDB) : Prop := {
  crosses_held : held s';
  crosses_nonce : GetNonce 0 s' <= GetNonce 0 s + 1;
  crosses_new : forall k, cross_key (Recipient tx) (Payload tx) = Some k -> GetState 0 k s = zero_hash /\ marked k (tx_Hash tx) s';
  crosses_marks : forall k h, h <> zero_hash -> marked k h s -> marked k h s'
}.

(** What an applied transaction leaves. *)
Record applied (tx : Transaction) (gp usedGas : Z) (s : StateDB) (receipt : Receipt) (usedGas' : Z) (st : StateTransition) : Prop := {
  applied_clean : clean (st_state st);
  applied_gas : 0 <= receipt_GasUsed receipt <= GasLimit tx /\ receipt_GasUsed receipt <= gp;
  applied_pool : st_gp st = gp - receipt_GasUsed receipt;
  applied_used : usedGas' = u64 (usedGas + receipt_GasUsed receipt) /\ CumulativeGasUsed receipt = usedGas';
  applied_hash : receipt_TxHash receipt = tx_Hash tx;
  applied_cross : zone -> crosses tx s (st_state st)
}.

Lemma held_zgood s : good s -> (zone -> held s) -> zgood s.
Proof. intros G Hh. split; [done|]. intros Hz. by destruct (Hh Hz). Qed.

Lemma mark_clean o h s : good s -> clean (Finalise true (from_option (fun k => set_mark k h s) s o)).
Proof.
  intros Hs. assert (G1 : good (from_option (fun k => set_mark k h s) s o)) by (destruct o; [by apply set_mark_good|done]).
  split; [by apply Finalise_clean..|apply Finalise_plain].
Qed.

Lemma ApplyTransaction_applied IR tx gp usedGas vm spv receipt usedGas' st :
  Transition.IsByzantium = true -> clean (vm_state vm) -> tx_ok tx -> 0 <= gp <= MaxUint64 ->
  (zone -> held (vm_state vm) /\ GetNonce 0 (vm_state vm) < MaxUint64) ->
  ApplyTransaction IR tx gp usedGas vm spv = Some (inl receipt, usedGas', st) ->
  applied tx gp usedGas (vm_state vm) receipt usedGas' st.
Proof.
  intros Hbyz [Hf Hr Hp] Htx Hgp Hh E. pose proof (fresh_good _ Hf Hr) as Hs. unfold ApplyTransaction in E. destruct (AsMessage tx) as [msg|] eqn:Em; [|done].
  apply bind_Some in E as ([[result err] st1] & Ea & E). destruct err; [done|].
  set (st0 := {| st_gp := gp; st_gas := 0; initialGas := 0; st_vm := vm; st_spv := spv |}) in *.
  destruct (TransitionDb_success msg st0 result st1 (held_zgood _ Hs (fun Hz => proj1 (Hh Hz))) Hp eq_refl (AsMessage_sent _ _ Htx Em) Hgp Ea)
    as ((G1 & K) & Hu & Egp & p & st2 & Epr & Espv & Hpaid).
  change (st_state st0) with (vm_state vm) in *. change (st_gp st0) with gp in *.
  destruct (mark_transaction_spec tx msg _ p st2 st1 Em (ok_payload _ Htx) Epr Hpaid Espv) as (st3 & E3 & Egp3 & Es3).
  rewrite E3 in E. cbn [mbind option_bind] in E. rewrite Hbyz in E. injection E as <- <- <-.
  assert (Emsg : m_To msg = Recipient tx /\ m_Data msg = Payload tx /\ m_Gas msg = GasLimit tx).
  { unfold AsMessage in Em. destruct (Sender tx); [|done]. by injection Em as <-. }
  destruct Emsg as (Et & Edt & Eg). rewrite Eg in Hu.
  assert (Hkey : forall k, cross_key (Recipient tx) (Payload tx) = Some k -> GetState 0 k (vm_state vm) = zero_hash).
  { intros k Hk. rewrite <- Et, <- Edt in Hk. rewrite <- (prologue_unmarked _ _ _ _ _ Epr Hk). symmetry.
    apply GetState_facts. exact (Snapshot_zfacts (vm_state vm) Hs k). }
  pose proof (zgood_good _ G1) as Gd. split; cbn.
  - rewrite Es3. by apply mark_clean.
  - change (st_gp st0) with gp in Hu. lia.
  - by rewrite Egp3, Egp.
  - done.
  - done.
  - intros Hz. specialize (K Hz). destruct (Hh Hz) as [H0' Hn]. assert (EN : GetNonce 0 (st_state st1) = GetNonce 0 (vm_state vm)) by (specialize (K zero_hash); by injection K).
    destruct (mark_held (cross_key (Recipient tx) (Payload tx)) (tx_Hash tx) (st_state st1) Gd (held_facts _ _ K H0')) as (B & Bn & Bk & Bm); [lia|].
    rewrite <- Es3 in *. split.
    + exact B.
    + change (st_state (on_db _ st3)) with (Finalise true (st_state st3)). lia.
    + intros k Hk. split; [by apply Hkey|by apply Bk].
    + intros k h Hx Hm. apply Bm; [|by apply (facts_marked (vm_state vm))]. intros Hk. apply Hkey in Hk. destruct Hm as [Hm _]. congruence.
Qed.
End apply.

(** ** A block *)
Section block.
Context `{!Keccak} `{!Database} `{!DatabaseLaws} `{!ElaLib} `{!Codec} `{!SpvLib} `{zn : !Zone} `{!TransitionEnv} `{!RangeOrder}.
Context (NewEVM : Transaction -> EvmEnv) (IR : bool -> StateDB -> bytes * StateDB).

(** The key of a transaction's deposit or refund. *)
Definition tx_key (tx : Transaction) : option bytes := @cross_key _ _ (NewEVM tx) (Recipient tx) (Payload tx).

(** The gas of receipts, and that each counts the gas up to its transaction. *)
Definition gas_sum (rs : list Receipt) : Z := foldr (fun r n => receipt_GasUsed r + n) 0 rs.
Fixpoint cumulative (used : Z) (rs : list Receipt) : Prop :=
  match rs with
  | [] => True
  | r :: rs => CumulativeGasUsed r = used + receipt_GasUsed r /\ cumulative (used + receipt_GasUsed r) rs
  end.

Definition receipt_of (tx : Transaction) (r : Receipt) : Prop :=
  receipt_TxHash r = tx_Hash tx /\ 0 <= receipt_GasUsed r <= GasLimit tx.

(** The deposits and refunds of transactions: each once, none that is marked
    before, all marked after, and no mark lost. *)
Record once (txs : list Transaction) (s s' : StateDB) : Prop := {
  once_held : held s';
  once_fresh : forall k h, k ∈ omap tx_key txs -> marked k h s -> h = zero_hash;
  once_each : NoDup (omap tx_key txs);
  once_marked : forall tx k, tx ∈ txs -> tx_key tx = Some k -> marked k (tx_Hash tx) s';
  once_marks : forall k h, h <> zero_hash -> marked k h s -> marked k h s'
}.

(** What a prefix of a block's transactions leaves. *)
Record progress (txs : list Transaction) (p p' : Processed) : Prop := {
  pg_clean : clean (vm_state (p_vm p'));
  pg_receipts : exists rs, p_receipts p' = p_receipts p ++ rs /\ Forall2 receipt_of txs rs /\ cumulative (p_usedGas p) rs /\
    p_usedGas p' = p_usedGas p + gas_sum rs /\ p_gp p' = p_gp p - gas_sum rs /\ 0 <= p_gp p';
  pg_once : zone -> once txs (vm_state (p_vm p)) (vm_state (p_vm p'))
}.

(** [Prepare] changes nothing that is looked at here. *)
Lemma Prepare_fresh th bh ti s : fresh s -> fresh (Prepare th bh ti s).
Proof. intros (A & B & C). split; [destruct A; by split|]. split; [destruct B; by split|done]. Qed.

Lemma Prepare_facts th bh ti s k : clean s -> facts (Prepare th bh ti s) 0 k = facts s 0 k.
Proof. intros [Hf Hr _]. by rewrite !facts_world by (apply fresh_good; by try apply Prepare_fresh). Qed.

Lemma Prepare_clean th bh ti s : clean s -> clean (Prepare th bh ti s).
Proof. intros [Hf Hr Hp]. split; [by apply Prepare_fresh|done|done]. Qed.

Lemma elem_of_keys k tx txs : k ∈ omap tx_key (tx :: txs) -> tx_key tx = Some k \/ k ∈ omap tx_key txs.
Proof.
  cbn [omap list_omap]. destruct (tx_key tx); [|by right]. intros [-> | ?]%elem_of_cons; [by left|by right].
Qed.

(** A transaction before others. *)
Lemma once_cons tx txs s s1 s' :
  tx_ok tx -> @crosses _ _ _ _ (NewEVM tx) tx s s1 -> once txs s1 s' -> once (tx :: txs) s s'.
Proof.
  intros Htx [A1 A2 A3 A4] [B1 B2 B3 B4 B5]. split.
  - done.
  - intros k h Hk Hm. destruct (decide (h = zero_hash)) as [|Hh]; [done|].
    apply elem_of_keys in Hk as [Hk|Hk]; [|by eapply B2, A4]. destruct (A3 k Hk) as [Ek _]. destruct Hm as [Ek' _]. congruence.
  - cbn [omap list_omap]. destruct (tx_key tx) as [k|] eqn:Ek; [|done]. constructor; [|done]. intros Hin.
    apply (ok_hash _ Htx). by eapply B2; [|apply A3].
  - intros tx' k Hin Hk. apply elem_of_cons in Hin as [-> | Hin]; [|by eapply B4]. apply B5; [apply Htx|]. by apply A3.
  - intros k h Hh Hm. apply B5; [done|]. by apply A4.
Qed.

Lemma once_before txs s0 s s' : (forall k, facts s0 0 k = facts s 0 k) -> once txs s0 s' -> once txs s s'.
Proof.
  intros F [B1 B2 B3 B4 B5]. assert (HM : forall k h, marked k h s -> marked k h s0) by (intros k h; by apply facts_marked).
  split; eauto.
Qed.

Context (evm_laws : forall tx, @EvmLaws _ _ _ (NewEVM tx) True).

Lemma process_txs_progress bh i txs p p' :
  Transition.IsByzantium = true -> clean (vm_state (p_vm p)) -> Forall tx_ok txs -> 0 <= p_gp p -> 0 <= p_usedGas p ->
  p_usedGas p + p_gp p <= MaxUint64 -> (zone -> held (vm_state (p_vm p)) /\ GetNonce 0 (vm_state (p_vm p)) + zlen txs <= MaxUint64) ->
  process_txs NewEVM IR bh i txs p = Some (inl p') -> progress txs p p'.
Proof.
  intros Hbyz Hb HF. revert i p Hb. induction HF as [|tx txs Htx HF IH]; intros i p Hb Hgp Hu Hsum Hh E; cbn [process_txs] in E.
  { injection E as <-. split; [done| |intros Hz; destruct (Hh Hz); split; [done|intros k h Hk; inversion Hk|constructor|intros tx k Hk; inversion Hk|done]].
    exists []. rewrite app_nil_r. cbn. split_and!; first [done|lia|constructor]. }
  apply bind_Some in E as ([[r used] st] & Ea & E). destruct r as [receipt|]; [|done]. rewrite zlen_cons in Hh. pose proof (zlen_nonneg txs).
  set (s := vm_state (p_vm p)) in *. pose proof (fun k => Prepare_facts (tx_Hash tx) bh i s k Hb) as HP.
  pose proof (Prepare_clean (tx_Hash tx) bh i s Hb) as Hb0. set (s0 := Prepare (tx_Hash tx) bh i s) in *.
  assert (HN : GetNonce 0 s0 = GetNonce 0 s) by (specialize (HP zero_hash); by injection HP).
  assert (Hh0 : zone -> held s0 /\ GetNonce 0 s0 < MaxUint64) by (intros Hz; destruct (Hh Hz); split; [by eapply held_facts|lia]).
  destruct (@ApplyTransaction_applied _ _ _ _ _ _ _ (NewEVM tx) (evm_laws tx) _ _ IR tx (p_gp p) (p_usedGas p)
    (on_state (Prepare (tx_Hash tx) bh i) (p_vm p)) (p_spv p) receipt used st Hbyz Hb0 Htx) as [A1 A3 A4 [A5 A6] A7 A8]; [lia|exact Hh0|exact Ea|].
  change (vm_state (on_state _ (p_vm p))) with s0 in A8.
  set (p1 := {| p_receipts := _; p_logs := _; p_usedGas := used; p_gp := _; p_vm := _; p_spv := _ |}) in E.
  rewrite u64_small in A5 by (unfold is_u64, MaxUint64 in *; lia).
  destruct (IH (i + 1) p1 A1) as [B1 (rs & R1 & R2 & R3 & R4 & R5 & R6) B3]; [cbn; lia|cbn; lia|cbn; lia| |exact E|].
  { intros Hz. destruct (A8 Hz), (Hh Hz). split; [done|]. cbn. change (vm_state (st_vm st)) with (st_state st). lia. }
  cbn in R1, R3, R4, R5, B3. change (vm_state (st_vm st)) with (st_state st) in *. split.
  - done.
  - exists (receipt :: rs). rewrite R1, <- app_assoc. split; [done|]. split; [constructor; [split; [done|lia]|done]|]. cbn [cumulative gas_sum foldr].
    fold (gas_sum rs). rewrite <- A5. split_and!; [congruence|done|lia|lia|done].
  - intros Hz. apply (once_before _ s0); [done|]. eapply once_cons; [done|by apply A8|by apply B3].
Qed.

Lemma Process_progress Finalize bh gasLimit txs vm spv p :
  Transition.IsByzantium = true -> clean (vm_state vm) -> Forall tx_ok txs -> 0 <= gasLimit <= MaxUint64 ->
  (zone -> held (vm_state vm) /\ GetNonce 0 (vm_state vm) + zlen txs <= MaxUint64) ->
  Process NewEVM IR id Finalize bh gasLimit txs vm spv = Some (inl p) ->
  exists p1, p = p1 <| p_vm := on_state Finalize (p_vm p1) |> /\
    progress txs {| p_receipts := []; p_logs := []; p_usedGas := 0; p_gp := gasLimit; p_vm := vm; p_spv := spv |} p1.
Proof.
  intros Hbyz Hb HF Hg Hn E. unfold Process, AddGas in E. rewrite (proj2 (Z.ltb_ge _ _)) in E by lia. cbn [mbind option_bind] in E.
  replace (on_state id vm) with vm in E by by destruct vm. rewrite Z.add_0_l in E.
  apply bind_Some in E as (r & Er & E). destruct r as [p1|]; [|done]. injection E as <-. exists p1. split; [done|].
  eapply process_txs_progress; [done|done|done|cbn; lia..|exact Hn|exact Er].
Qed.
End block.

(** ** A block on the modelled machine *)
Section machine.
Context `{!Uint256} `{!Uint256Laws} `{!Keccak} `{!Database} `{!DatabaseLaws} `{!ElaLib} `{!Codec} `{!SpvLib} `{!Rules} `{!TransitionEnv} `{!RangeOrder}.
(** The configuration of the virtual machine and its block context, of each
    transaction. *)
Context (base : Transaction -> EvmEnv) (context : Transaction -> BlockEnv) (IR : bool -> StateDB -> bytes * StateDB).
Context (required_gas : forall tx a p input, @precompile (base tx) a = Some p -> 0 <= RequiredGas p input).
Context (rules : forall tx, @rules_ok (base tx) _).

Definition machine_of (tx : Transaction) : EvmEnv := @new_EVM _ _ _ _ _ _ _ (context tx) (base tx) [].

Lemma machine_of_laws `{zn : !Zone} tx : @EvmLaws _ _ _ (machine_of tx) True.
Proof. apply machine_laws; [apply required_gas|apply rules|by right..|done]. Qed.

(** C18: no two transactions execute the same deposit or the same refund.  In a
    block that [StateProcessor.Process] accepts, no two transactions carry the same
    deposit or refund, none carries one that is marked as executed in the state the
    block starts from, and before the engine finalises the block each of them is
    marked with the hash of its transaction, while all earlier marks are still
    there: so later blocks refuse them.  This holds whatever the transactions'
    contracts do, run by the modelled interpreter with no extra EIPs; it is about
    transactions: a refund that a contract makes by calling the zero address is not
    marked.  The block is of Byzantium's rules or later, not that of the DAO fork,
    and starts from a state between transactions (well formed, without snapshots) in
    which the zero address has a nonce, which the first mark gives it, no code, and
    is not destroyed; no transaction hashes to zero or is signed by the zero
    address, the prices of native contracts are not negative, the zero address's
    nonce does not overflow, and Berlin's rules come with EIP-150's. *)
Theorem block_executes_once Finalize bh gasLimit txs vm spv p :
  Transition.IsByzantium = true -> clean (vm_state vm) -> held (vm_state vm) -> Forall tx_ok txs -> 0 <= gasLimit <= MaxUint64 ->
  GetNonce 0 (vm_state vm) + zlen txs <= MaxUint64 ->
  Process machine_of IR id Finalize bh gasLimit txs vm spv = Some (inl p) ->
  NoDup (omap (tx_key machine_of) txs) /\
  (forall k h, k ∈ omap (tx_key machine_of) txs -> marked k h (vm_state vm) -> h = zero_hash) /\
  exists s, vm_state (p_vm p) = Finalize s /\ clean s /\ held s /\
    (forall tx k, tx ∈ txs -> tx_key machine_of tx = Some k -> marked k (tx_Hash tx) s) /\
    (forall k h, h <> zero_hash -> marked k h (vm_state vm) -> marked k h s).
Proof.
  intros Hbyz Hb Hh HF Hg Hn E.
  destruct (Process_progress (zn := marks_zone) machine_of IR (machine_of_laws (zn := marks_zone)) Finalize bh gasLimit txs vm spv p Hbyz Hb HF Hg (fun _ => conj Hh Hn) E)
    as (p1 & -> & [B1 _ B3]). destruct (B3 I) as [C1 C2 C3 C4 C5].
  split; [done|]. split; [done|]. by exists (vm_state (p_vm p1)).
Qed.

(** C19: the gas of a block adds up.  A block that [StateProcessor.Process]
    accepts has one receipt per transaction, in order and with its hash; no
    transaction uses more gas than its limit; each receipt's cumulative gas is the
    gas used up to its transaction; and the gas used by the block is their sum, at
    most the block's gas limit, without wrapping around.  The contracts are run by
    the modelled interpreter with no extra EIPs, of which nothing is assumed; the
    block is of Byzantium's rules or later, not that of the DAO fork, and starts
    from a state between transactions (well formed, without snapshots); no
    transaction hashes to zero or is
    signed by the zero address, the prices of native contracts are not negative,
    and Berlin's rules come with EIP-150's. *)
Theorem block_gas Finalize bh gasLimit txs vm spv p :
  Transition.IsByzantium = true -> clean (vm_state vm) -> Forall tx_ok txs -> 0 <= gasLimit <= MaxUint64 ->
  Process machine_of IR id Finalize bh gasLimit txs vm spv = Some (inl p) ->
  Forall2 receipt_of txs (p_receipts p) /\ cumulative 0 (p_receipts p) /\ p_usedGas p = gas_sum (p_receipts p) /\
  p_usedGas p <= gasLimit /\ p_gp p = gasLimit - p_usedGas p.
Proof.
  intros Hbyz Hb HF Hg E.
  destruct (Process_progress (zn := no_zone) machine_of IR (machine_of_laws (zn := no_zone)) Finalize bh gasLimit txs vm spv p Hbyz Hb HF Hg ltac:(done) E)
    as (p1 & -> & [_ (rs & R1 & R2 & R3 & R4 & R5 & R6) _]).
  cbn -[gas_sum cumulative] in R1, R3, R4, R5 |- *. rewrite R1. split_and!; [done|done|lia|lia|lia].
Qed.
End machine.

(** ** A concrete block *)
Module ToyBlock.
Import ToyMachine.
#[local] Existing Instance list_range_order.

#[export] Instance env : TransitionEnv := {|
  PassBalance := 10 ^ 18; BridgeContractAddr := EmptyString; DeveloperContract := []; IsdeveloperSplitfeeTime := false; Coinbase := 12;
  Transition.IsIstanbul := false; Transition.IsShanghai := false; Transition.IsByzantium := true; ActivePrecompiles := [4];
  setArbiterList_ID := inr "no method"; setManualArbiter_ID := inr "no method";
  GetTransactionByBytes := fun _ => nil_err; Deserialize := fun _ => inr "not decoded"; transition_small := ToySpv.small; transition_signer := 7
|}.

(** Account 7 executes the deposit [ToySpv.hash] and sends 5 to the contract at
    address 8, which stores 5 at its slot 1. *)
Definition deposit : Transaction := {|
  tx_Hash := replicate 32 1; AccountNonce := 1; Price := 1; GasLimit := 30000; Recipient := Some 0; Amount := 0;
  Payload := replicate 32 171; Sender := inl 7 |}.
Definition payment : Transaction := {|
  tx_Hash := replicate 32 2; AccountNonce := 2; Price := 0; GasLimit := 60000; Recipient := Some 8; Amount := 5;
  Payload := []; Sender := inl 7 |}.

Definition start : Vm := ToyEvm.machine <| vm_state := Finalise true (SetCode 8 [96; 5; 96; 1; 85] (SetNonce 0 1 ToyState.start)) |>.
Definition root (b : bool) (s : StateDB) : bytes * StateDB := ([], s).
Definition machine_of : Transaction -> EvmEnv := Process.machine_of (fun _ => base) (fun _ => block).
Definition process (txs : list Transaction) : option (Processed + string) :=
  Process machine_of root id id (replicate 32 9) 100000 txs start ToySpv.ready.

Definition txs : list Transaction := [deposit; payment].

Lemma processed : exists p, process txs = Some (inl p) /\ p_usedGas p = 64182.
Proof.
  assert (E : (match process txs with Some (inl p) => Some (p_usedGas p) | _ => None end) = Some 64182) by by vm_compute.
  destruct (process txs) as [[p|]|]; [|done..]. injection E as E. by exists p.
Qed.

Lemma start_clean : clean (vm_state start).
Proof.
  assert (G : good (SetCode 8 [96; 5; 96; 1; 85] (SetNonce 0 1 ToyState.start))).
  { eapply acts_good, SetCode_acts. eapply acts_good, SetNonce_acts. exact ToyEvm.start_good. }
  split; [by apply Finalise_clean..|apply Finalise_plain].
Qed.

Lemma start_held : held (vm_state start).
Proof. by split; vm_compute. Qed.

Lemma txs_ok : Forall tx_ok txs.
Proof. repeat constructor; by vm_compute. Qed.

Lemma limit_ok : 0 <= 100000 <= MaxUint64.
Proof. unfold MaxUint64. lia. Qed.

Lemma nonce_ok : GetNonce 0 (vm_state start) + zlen txs <= MaxUint64.
Proof. replace (GetNonce 0 _) with 1 by by vm_compute. change (zlen txs) with 2. unfold MaxUint64. lia. Qed.
End ToyBlock.

Section witnesses.
Import ToyMachine.
#[local] Existing Instance ToyBlock.env.
#[local] Existing Instance list_range_order.

(** The deposit is marked with its transaction's hash. *)
Lemma block_executes_once_witness :
  exists p, ToyBlock.process ToyBlock.txs = Some (inl p) /\
    GetState 0 (HexToHash (hash_String (replicate 32 171))) (vm_state (p_vm p)) = replicate 32 1.
Proof.
  destruct ToyBlock.processed as (p & E & _).
  destruct (block_executes_once (fun _ => base) (fun _ => block) ToyBlock.root (fun _ => gas_ok) (fun _ => rules_fine) id (replicate 32 9) 100000
    ToyBlock.txs ToyBlock.start ToySpv.ready p) as (_ & _ & s & Es & _ & _ & Hm & _);
    [done|exact ToyBlock.start_clean|exact ToyBlock.start_held|exact ToyBlock.txs_ok|exact ToyBlock.limit_ok|exact ToyBlock.nonce_ok|exact E|].
  exists p. split; [exact E|]. rewrite Es. apply (Hm ToyBlock.deposit); [by left|by vm_compute].
Defined.

Lemma block_gas_witness :
  exists p, ToyBlock.process ToyBlock.txs = Some (inl p) /\ gas_sum (p_receipts p) = 64182 /\ p_gp p = 35818.
Proof.
  destruct ToyBlock.processed as (p & E & Eu).
  destruct (block_gas (fun _ => base) (fun _ => block) ToyBlock.root (fun _ => gas_ok) (fun _ => rules_fine) id (replicate 32 9) 100000
    ToyBlock.txs ToyBlock.start ToySpv.ready p) as (_ & _ & Es & _ & Eg);
    [done|exact ToyBlock.start_clean|exact ToyBlock.txs_ok|exact ToyBlock.limit_ok|exact E|].
  exists p. split; [exact E|]. rewrite Eu in Es, Eg. split; [exact (eq_sym Es)|exact Eg].
Defined.
End witnesses.
