(* ===== verification/TxList.v ===== *)
(** * [core/tx_list.go], [core/tx_noncer.go]: the lists of the transaction pool

    The transactions of an account by nonce, with an index of the nonces and a cache
    of the sorted list; the list of all transactions by price; and the nonces that
    follow the pool's transactions.

    [container/heap] and [sort] are of the Go library.  The index of nonces is kept
    as the sorted list of its elements: the heap's root is the least one, and what
    else the code does with it (sort, rebuild, remove a value) does not depend on the
    order of the rest.  Which of two equally bad transactions the price heap has at
    its root is unspecified, a parameter. *)
From S2P Require Import Prelude Ela Messages Rlp Header Common AccessList StateDB StateSpec StateRefine Withdraw SmallCross Recharge Evm Transition.

(** ** Transactions *)
Definition tx_Cost (tx : Transaction) : Z := Amount tx + Price tx * GasLimit tx.

Definition IsRechargeTx `{!Codec} `{!SpvLib} (tx : Transaction) : bool :=
  match Recipient tx with
  | None => false
  | Some to =>
      if to =? 0 then
        if zlen (Payload tx) =? 32 then true
        else let '(rawTxid, _, _, _) := IsSmallCrossTxByData (Payload tx) in bool_decide (rawTxid <> EmptyString)
      else false
  end.

(** ** [nonceHeap] *)
Fixpoint heap_Push (x : Z) (h : list Z) : list Z :=
  match h with [] => [x] | y :: h' => if x <=? y then x :: h else y :: heap_Push x h' end.

Definition heap_Init (h : list Z) : list Z := merge_sort Z.le h.

Fixpoint heap_Remove (x : Z) (h : list Z) : list Z :=
  match h with [] => [] | y :: h => if y =? x then h else y :: heap_Remove x h end.

(** ** [txSortedMap] *)
Record txSortedMap := { sm_items : gmap Z Transaction; sm_index : list Z; sm_cache : option (list Transaction) }.

#[export] Instance txSortedMap_eta : Eta txSortedMap := fun m => {| sm_items := sm_items m; sm_index := sm_index m; sm_cache := sm_cache m |}.

Definition newTxSortedMap : txSortedMap := {| sm_items := ∅; sm_index := []; sm_cache := None |}.

Definition sm_Get (nonce : Z) (m : txSortedMap) : option Transaction := sm_items m !! nonce.

Definition sm_Put (tx : Transaction) (m : txSortedMap) : txSortedMap :=
  let nonce := AccountNonce tx in
  let index := match sm_items m !! nonce with None => heap_Push nonce (sm_index m) | Some _ => sm_index m end in
  {| sm_items := <[ nonce := tx ]> (sm_items m); sm_index := index; sm_cache := None |}.

(** The nonces popped while they are below the threshold, and the rest. *)
Fixpoint pop_below (threshold : Z) (h : list Z) : list Z * list Z :=
  match h with
  | nonce :: h' => if nonce <? threshold then let (popped, rest) := pop_below threshold h' in (nonce :: popped, rest) else ([], h)
  | [] => ([], [])
  end.

(** The transactions of some nonces, in order; each nonce of the index has one. *)
Definition txs_at (items : gmap Z Transaction) (nonces : list Z) : list Transaction := omap (fun nonce => items !! nonce) nonces.

Definition drop_nonces (nonces : list Z) (items : gmap Z Transaction) : gmap Z Transaction := foldr delete items nonces.

Definition sm_Forward (threshold : Z) (m : txSortedMap) : list Transaction * txSortedMap :=
  let (popped, rest) := pop_below threshold (sm_index m) in
  let removed := txs_at (sm_items m) popped in
  (removed, {| sm_items := drop_nonces popped (sm_items m); sm_index := rest;
               sm_cache := match sm_cache m with None => None | Some c => Some (drop (length removed) c) end |}).

Section filter.
Context `{!Codec} `{!SpvLib} `{!RangeOrder}.

(** The loop of [Filter] assigns its own variable [filter]: from the first recharge
    transaction, or deployment of the black contract, on that the map's order brings
    up, only the gas is looked at.  [black]: the next contract of the account is the
    black one. *)
Definition next_filter (filter : Transaction -> bool) (gasLimit : Z) (black : bool) (tx : Transaction) : Transaction -> bool :=
  match Recipient tx with
  | Some _ => if IsRechargeTx tx then (fun tx => gasLimit <? GasLimit tx) else filter
  | None => if black then (fun tx => gasLimit <? GasLimit tx) else filter
  end.

Fixpoint filter_loop (filter : Transaction -> bool) (gasLimit : Z) (black : bool) (entries : list (Z * Transaction)) (items : gmap Z Transaction)
    : list Transaction * gmap Z Transaction :=
  match entries with
  | [] => ([], items)
  | (nonce, tx) :: entries =>
      let filter := next_filter filter gasLimit black tx in
      if filter tx then let (removed, items) := filter_loop filter gasLimit black entries (delete nonce items) in (tx :: removed, items)
      else filter_loop filter gasLimit black entries items
  end.

Definition sm_Filter (filter : Transaction -> bool) (gasLimit : Z) (black : bool) (m : txSortedMap) : list Transaction * txSortedMap :=
  let (removed, items) := filter_loop filter gasLimit black (range_map (sm_items m)) (sm_items m) in
  match removed with
  | [] => (removed, m <| sm_items := items |>)
  | _ => (removed, {| sm_items := items; sm_index := heap_Init (fst <$> range_map items); sm_cache := None |})
  end.

Definition sm_Cap (threshold : nat) (m : txSortedMap) : list Transaction * txSortedMap :=
  if (base.size (sm_items m) <=? threshold)%nat then ([], m)
  else
    let index := heap_Init (sm_index m) in
    let over := reverse (drop threshold (take (base.size (sm_items m)) index)) in
    let drops := txs_at (sm_items m) over in
    (drops, {| sm_items := drop_nonces over (sm_items m); sm_index := heap_Init (take threshold index);
               sm_cache := match sm_cache m with None => None | Some c => Some (take (length c - length drops) c) end |}).

Definition sm_Remove (nonce : Z) (m : txSortedMap) : bool * txSortedMap :=
  match sm_items m !! nonce with
  | None => (false, m)
  | Some _ => (true, {| sm_items := delete nonce (sm_items m); sm_index := heap_Remove nonce (sm_index m); sm_cache := None |})
  end.

(** The run of consecutive nonces from [next] on, and the rest. *)
Fixpoint pop_run (next : Z) (h : list Z) : list Z * list Z :=
  match h with
  | nonce :: h' => if nonce =? next then let (popped, rest) := pop_run (next + 1) h' in (nonce :: popped, rest) else ([], h)
  | [] => ([], [])
  end.

Definition sm_Ready (start : Z) (m : txSortedMap) : list Transaction * txSortedMap :=
  match sm_index m with
  | [] => ([], m)
  | first :: _ =>
      if start <? first then ([], m)
      else
        let (popped, rest) := pop_run first (sm_index m) in
        (txs_at (sm_items m) popped, {| sm_items := drop_nonces popped (sm_items m); sm_index := rest; sm_cache := None |})
  end.

Definition sm_Len (m : txSortedMap) : nat := base.size (sm_items m).

(** [types.TxByNonce] *)
Definition nonce_le (a b : Transaction) : Prop := AccountNonce a <= AccountNonce b.

#[export] Instance nonce_le_dec a b : Decision (nonce_le a b).
Proof. apply Z.le_dec. Defined.

Definition sm_Flatten (m : txSortedMap) : list Transaction * txSortedMap :=
  match sm_cache m with
  | Some c => (c, m)
  | None => let c := merge_sort nonce_le (snd <$> range_map (sm_items m)) in (c, m <| sm_cache := Some c |>)
  end.

(** ** [txList] *)
Record txList := { strict : bool; txs : txSortedMap; costcap : Z; gascap : Z }.

#[export] Instance txList_eta : Eta txList := fun l => {| strict := strict l; txs := txs l; costcap := costcap l; gascap := gascap l |}.

Definition newTxList (strict : bool) : txList := {| strict := strict; txs := newTxSortedMap; costcap := 0; gascap := 0 |}.

Definition Overlaps (tx : Transaction) (l : txList) : bool := match sm_Get (AccountNonce tx) (txs l) with Some _ => true | None => false end.

(** Whether the transaction was accepted, and what it replaced. *)
Definition tl_Add (tx : Transaction) (priceBump : Z) (l : txList) : (bool * option Transaction) * txList :=
  let old := sm_Get (AccountNonce tx) (txs l) in
  let better :=
    match old with
    | None => true
    | Some old => negb ((Price tx <=? Price old) || (Price tx <? Price old * i64 (100 + i64 priceBump) / 100))
    end in
  if negb better then ((false, None), l)
  else
    ((true, old), {| strict := strict l; txs := sm_Put tx (txs l); costcap := if costcap l <? tx_Cost tx then tx_Cost tx else costcap l;
                     gascap := if gascap l <? GasLimit tx then GasLimit tx else gascap l |}).

Definition on_txs {A} (f : txSortedMap -> A * txSortedMap) (l : txList) : A * txList := let (a, m) := f (txs l) in (a, l <| txs := m |>).

Definition tl_Forward (threshold : Z) : txList -> list Transaction * txList := on_txs (sm_Forward threshold).

Definition lowest_nonce (removed : list Transaction) : Z := foldl (fun lowest tx => if AccountNonce tx <? lowest then AccountNonce tx else lowest) MaxUint64 removed.

(** What costs too much, and what a strict list loses with it. *)
Definition tl_Filter (costLimit gasLimit : Z) (black : bool) (l : txList) : (list Transaction * list Transaction) * txList :=
  if (costcap l <=? costLimit) && (gascap l <=? gasLimit) then (([], []), l)
  else
    let l := l <| costcap := costLimit |> <| gascap := gasLimit |> in
    let (removed, l) := on_txs (sm_Filter (fun tx => (costLimit <? tx_Cost tx) || (gasLimit <? GasLimit tx)) gasLimit black) l in
    if strict l && (0 <? zlen removed) then
      let lowest := lowest_nonce removed in
      let (invalids, l) := on_txs (sm_Filter (fun tx => lowest <? AccountNonce tx) 0 false) l in ((removed, invalids), l)
    else ((removed, []), l).

Definition tl_Cap (threshold : nat) : txList -> list Transaction * txList := on_txs (sm_Cap threshold).

Definition tl_Remove (tx : Transaction) (l : txList) : (bool * list Transaction) * txList :=
  let nonce := AccountNonce tx in
  let (removed, l) := on_txs (sm_Remove nonce) l in
  if negb removed then ((false, []), l)
  else if strict l then let (invalids, l) := on_txs (sm_Filter (fun tx => nonce <? AccountNonce tx) 0 false) l in ((true, invalids), l)
  else ((true, []), l).

Definition tl_Ready (start : Z) : txList -> list Transaction * txList := on_txs (sm_Ready start).
Definition tl_Len (l : txList) : nat := sm_Len (txs l).
Definition tl_Empty (l : txList) : bool := (tl_Len l =? 0)%nat.
Definition tl_Flatten : txList -> list Transaction * txList := on_txs sm_Flatten.
End filter.

(** ** [txPricedList] *)

(** The heap of prices: [heap.Pop] takes its root away, a transaction that no other
    one is worse than. *)
Definition price_less (a b : Transaction) : bool :=
  if Price a <? Price b then true else if Price b <? Price a then false else AccountNonce b <? AccountNonce a.

Class PriceHeap := {
  heap_root : list Transaction -> option (Transaction * list Transaction);
  heap_root_nil : heap_root [] = None;
  heap_root_some : forall tx l, exists r rest, heap_root (tx :: l) = Some (r, rest) /\ tx :: l ≡ₚ r :: rest /\ Forall (fun t => price_less t r = false) rest
}.

Record txPricedList := { pl_items : list Transaction; pl_stales : Z }.

Definition newTxPricedList : txPricedList := {| pl_items := []; pl_stales := 0 |}.

Definition pl_Put (tx : Transaction) (l : txPricedList) : txPricedList := {| pl_items := pl_items l ++ [tx]; pl_stales := pl_stales l |}.

Section priced.
Context `{!RangeOrder} `{!PriceHeap}.
(** The lookup table of the pool and its local accounts. *)
Context (all : gmap bytes Transaction) (locals : gset Z).

Definition containsTx (tx : Transaction) : bool := match Sender tx with inl addr => bool_decide (addr ∈ locals) | inr _ => false end.

Definition pl_Removed (count : Z) (l : txPricedList) : txPricedList :=
  let stales := pl_stales l + count in
  if stales <=? zlen (pl_items l) / 4 then {| pl_items := pl_items l; pl_stales := stales |}
  else {| pl_items := snd <$> range_map all; pl_stales := 0 |}.

Definition is_stale (tx : Transaction) : bool := match all !! tx_Hash tx with None => true | Some _ => false end.

(** Pops while there are transactions, at most [n]: dropped, saved, the rest of the
    heap and the stale ones met. *)
Fixpoint cap_loop (n : nat) (threshold : Z) (items : list Transaction) (stales : Z) : list Transaction * list Transaction * list Transaction * Z :=
  match n with
  | O => ([], [], items, stales)
  | S n =>
      match heap_root items with
      | None => ([], [], items, stales)
      | Some (tx, items) =>
          if is_stale tx then cap_loop n threshold items (stales - 1)
          else if threshold <=? Price tx then ([], [tx], items, stales)
          else
            let '(dropped, save, items, stales) := cap_loop n threshold items stales in
            if containsTx tx then (dropped, tx :: save, items, stales) else (tx :: dropped, save, items, stales)
      end
  end.

Definition pl_Cap (threshold : Z) (l : txPricedList) : list Transaction * txPricedList :=
  let '(dropped, save, items, stales) := cap_loop (length (pl_items l)) threshold (pl_items l) (pl_stales l) in
  (dropped, {| pl_items := items ++ save; pl_stales := stales |}).

Fixpoint skip_stale (n : nat) (items : list Transaction) (stales : Z) : list Transaction * Z :=
  match n with
  | O => (items, stales)
  | S n => match heap_root items with
           | Some (tx, rest) => if is_stale tx then skip_stale n rest (stales - 1) else (items, stales)
           | None => (items, stales)
           end
  end.

Definition Underpriced (tx : Transaction) (l : txPricedList) : bool * txPricedList :=
  if containsTx tx then (false, l)
  else
    let (items, stales) := skip_stale (length (pl_items l)) (pl_items l) (pl_stales l) in
    let l := {| pl_items := items; pl_stales := stales |} in
    match heap_root items with None => (false, l) | Some (cheapest, _) => (Price tx <=? Price cheapest, l) end.

Fixpoint discard_loop (n : nat) (count : Z) (items : list Transaction) (stales : Z) : list Transaction * list Transaction * list Transaction * Z :=
  match n with
  | O => ([], [], items, stales)
  | S n =>
      if count <=? 0 then ([], [], items, stales)
      else match heap_root items with
      | None => ([], [], items, stales)
      | Some (tx, items) =>
          if is_stale tx then discard_loop n count items (stales - 1)
          else if containsTx tx then let '(dropped, save, items, stales) := discard_loop n count items stales in (dropped, tx :: save, items, stales)
          else let '(dropped, save, items, stales) := discard_loop n (count - 1) items stales in (tx :: dropped, save, items, stales)
      end
  end.

Definition Discard (count : Z) (l : txPricedList) : list Transaction * txPricedList :=
  let '(dropped, save, items, stales) := discard_loop (length (pl_items l)) count (pl_items l) (pl_stales l) in
  (dropped, {| pl_items := items ++ save; pl_stales := stales |}).
End priced.

(** ** [txNoncer] *)
Record txNoncer := { fallback : Z -> Z; nonces : gmap Z Z }.

#[export] Instance txNoncer_eta : Eta txNoncer := fun n => {| fallback := fallback n; nonces := nonces n |}.

(** [GetNonce] of a copy of the state. *)
Definition newTxNoncer (GetNonce : Z -> Z) : txNoncer := {| fallback := GetNonce; nonces := ∅ |}.

Definition noncer_get (addr : Z) (n : txNoncer) : Z * txNoncer :=
  match nonces n !! addr with
  | Some x => (x, n)
  | None => (fallback n addr, n <| nonces := <[ addr := fallback n addr ]> (nonces n) |>)
  end.

Definition noncer_set (addr nonce : Z) (n : txNoncer) : txNoncer := n <| nonces := <[ addr := nonce ]> (nonces n) |>.

Definition noncer_setIfLower (addr nonce : Z) (n : txNoncer) : txNoncer :=
  let (x, n) := noncer_get addr n in if x <=? nonce then n else noncer_set addr nonce n.

(** * The map of an account is the list of its transactions by nonce *)

(** ** Lists in the order of the nonces *)
Definition nonce_lt (a b : Transaction) : Prop := AccountNonce a < AccountNonce b.

#[export] Instance Z_lt_trans : Transitive Z.lt.
Proof. exact Z.lt_trans. Qed.

#[export] Instance nonce_le_trans : Transitive nonce_le.
Proof. unfold nonce_le. intros a b c. lia. Qed.

#[export] Instance nonce_le_total : Total nonce_le.
Proof. unfold nonce_le. intros a b. lia. Qed.

#[export] Instance nonce_lt_trans : Transitive nonce_lt.
Proof. unfold nonce_lt. intros a b c. lia. Qed.

Lemma sorted_ext {A} (f : A -> Z) (R : A -> A -> Prop) (l k : list A) :
  (forall a b, R a b -> f a < f b) -> StronglySorted R l -> StronglySorted R k -> (forall x, x ∈ l <-> x ∈ k) -> l = k.
Proof.
  intros HR Hl. revert k. induction Hl as [|x l Hl IH Hx]; intros k Hk Hin.
  - destruct k as [|y k]; [done|]. pose proof (proj2 (Hin y) (list_elem_of_here _ _)) as C. by apply elem_of_nil in C.
  - destruct Hk as [|y k Hk Hy]; [pose proof (proj1 (Hin x) (list_elem_of_here _ _)) as C; by apply elem_of_nil in C|].
    rewrite Forall_forall in Hx, Hy.
    assert (x = y) as <-.
    { pose proof (proj1 (Hin x) (list_elem_of_here _ _)) as C. pose proof (proj2 (Hin y) (list_elem_of_here _ _)) as C'.
      apply elem_of_cons in C as [C|C]; [done|]. apply elem_of_cons in C' as [C'|C']; [done|].
      specialize (HR _ _ (Hx _ C')) as H1. specialize (HR _ _ (Hy _ C)) as H2. lia. }
    f_equal. apply IH; [done|]. intros z. split; intros Hz.
    + pose proof (proj1 (Hin z) (list_elem_of_further _ _ _ Hz)) as C. apply elem_of_cons in C as [->|C]; [|done].
      specialize (HR _ _ (Hx _ Hz)). lia.
    + pose proof (proj2 (Hin z) (list_elem_of_further _ _ _ Hz)) as C. apply elem_of_cons in C as [->|C]; [|done].
      specialize (HR _ _ (Hy _ Hz)). lia.
Qed.

Lemma sorted_app_inv {A} (R : A -> A -> Prop) l k :
  StronglySorted R (l ++ k) -> StronglySorted R l /\ StronglySorted R k /\ Forall (fun x => Forall (R x) k) l.
Proof.
  induction l as [|x l IH]; cbn; intros H; [by repeat constructor|].
  apply StronglySorted_inv in H as [H Hx]. apply IH in H as (Hl & Hk & Hlk). apply Forall_app in Hx as [Hx1 Hx2].
  repeat split; auto. by constructor.
Qed.

Lemma sorted_lt_NoDup l : StronglySorted Z.lt l -> NoDup l.
Proof.
  induction 1 as [|x l _ IH Hx]; constructor; [|done]. intros C. rewrite Forall_forall in Hx. specialize (Hx _ C). lia.
Qed.

(** Sorting distinct nonces puts them in strict order. *)
Lemma sorted_strict {A} (f : A -> Z) l :
  StronglySorted (fun a b => f a <= f b) l -> NoDup (f <$> l) -> StronglySorted (fun a b => f a < f b) l.
Proof.
  induction 1 as [|x l Hs IH Hx]; cbn; intros Hnd; constructor; apply NoDup_cons in Hnd as [Hn Hnd]; [by apply IH|].
  apply Forall_forall. intros y Hy. rewrite Forall_forall in Hx. specialize (Hx _ Hy).
  assert (f x <> f y) by (intros E; apply Hn; rewrite E; by apply list_elem_of_fmap_2). lia.
Qed.

Lemma heap_Init_sorted l : NoDup l -> StronglySorted Z.lt (heap_Init l).
Proof.
  intros Hnd. unfold heap_Init. apply (sorted_strict id).
  - apply (StronglySorted_merge_sort Z.le); apply _.
  - by rewrite list_fmap_id, merge_sort_Permutation.
Qed.

Lemma heap_Init_elem x l : x ∈ heap_Init l <-> x ∈ l.
Proof. unfold heap_Init. by rewrite merge_sort_Permutation. Qed.

Lemma heap_Init_id l : StronglySorted Z.lt l -> heap_Init l = l.
Proof.
  intros Hs. eapply (sorted_ext id Z.lt); [done|by apply heap_Init_sorted, sorted_lt_NoDup|done|]. intros x. apply heap_Init_elem.
Qed.

Lemma heap_Push_elem x y l : x ∈ heap_Push y l <-> x = y \/ x ∈ l.
Proof. induction l as [|z l IH]; cbn; [set_solver|]. case_match; set_solver. Qed.

Lemma heap_Push_sorted x l : StronglySorted Z.lt l -> x ∉ l -> StronglySorted Z.lt (heap_Push x l).
Proof.
  induction 1 as [|y l Hs IH Hy]; cbn; intros Hx; [by repeat constructor|].
  apply not_elem_of_cons in Hx as [Hxy Hx]. case_match eqn:E; bools.
  - constructor; [by constructor|]. constructor; [lia|]. eapply Forall_impl; [done|]. cbn. lia.
  - constructor; [by apply IH|]. apply Forall_forall. intros z Hz. apply heap_Push_elem in Hz as [->|Hz]; [lia|].
    rewrite Forall_forall in Hy. by apply Hy.
Qed.

Lemma heap_Remove_spec x l : StronglySorted Z.lt l -> StronglySorted Z.lt (heap_Remove x l) /\ (forall y, y ∈ heap_Remove x l <-> y <> x /\ y ∈ l).
Proof.
  induction 1 as [|y l Hs [IHs IH] Hy]; cbn; [split; [constructor|set_solver]|]. rewrite Forall_forall in Hy.
  case_match eqn:E; bools; subst.
  - split; [done|]. intros z. rewrite elem_of_cons. split; [|naive_solver]. intros Hz. specialize (Hy _ Hz). split; [lia|auto].
  - split.
    + constructor; [done|]. apply Forall_forall. intros z Hz. apply IH in Hz as [_ Hz]. by apply Hy.
    + intros z. rewrite !elem_of_cons, IH. naive_solver.
Qed.

(** ** The transactions of some nonces *)
Lemma drop_nonces_lookup ns items n : drop_nonces ns items !! n = if decide (n ∈ ns) then None else items !! n.
Proof.
  unfold drop_nonces. induction ns as [|x ns IH]; cbn; [done|]. rewrite lookup_delete, IH.
  repeat case_decide; set_solver.
Qed.

Lemma txs_at_ext items items' ns : (forall n, n ∈ ns -> items !! n = items' !! n) -> txs_at items ns = txs_at items' ns.
Proof.
  unfold txs_at. induction ns as [|x ns IH]; cbn; intros H; [done|]. rewrite H by set_solver. rewrite IH by set_solver. done.
Qed.

Lemma txs_at_drop items ns ns' : (forall n, n ∈ ns -> n ∉ ns') -> txs_at (drop_nonces ns' items) ns = txs_at items ns.
Proof. intros H. apply txs_at_ext. intros n Hn. rewrite drop_nonces_lookup, decide_False by auto. done. Qed.

Lemma txs_at_app items ns ns' : txs_at items (ns ++ ns') = txs_at items ns ++ txs_at items ns'.
Proof. apply omap_app. Qed.

Lemma txs_at_reverse items ns : txs_at items (reverse ns) = reverse (txs_at items ns).
Proof.
  induction ns as [|n ns IH]; [done|]. rewrite reverse_cons, txs_at_app, IH. unfold txs_at. cbn -[reverse].
  destruct (items !! n); [by rewrite reverse_cons|by rewrite app_nil_r].
Qed.

(** ** The invariant *)
Definition keyed (items : gmap Z Transaction) : Prop := map_Forall (fun nonce tx => AccountNonce tx = nonce) items.

Definition indexed (items : gmap Z Transaction) (index : list Z) : Prop :=
  StronglySorted Z.lt index /\ forall nonce, nonce ∈ index <-> is_Some (items !! nonce).

Record sm_wf (m : txSortedMap) : Prop := {
  wf_keyed : keyed (sm_items m);
  wf_indexed : indexed (sm_items m) (sm_index m);
  wf_cache : forall c, sm_cache m = Some c -> c = txs_at (sm_items m) (sm_index m)
}.

(** What the map stands for: the account's transactions by nonce. *)
Definition sm_list (m : txSortedMap) : list Transaction := txs_at (sm_items m) (sm_index m).

Lemma txs_at_nonces items ns : keyed items -> (forall n, n ∈ ns -> is_Some (items !! n)) -> AccountNonce <$> txs_at items ns = ns.
Proof.
  intros Hk. unfold txs_at. induction ns as [|n ns IH]; cbn; intros H; [done|].
  destruct (H n ltac:(set_solver)) as [tx E]. rewrite E. cbn. rewrite IH by set_solver. by rewrite (Hk _ _ E).
Qed.

Lemma elem_of_txs_at items ns tx : keyed items -> tx ∈ txs_at items ns <-> AccountNonce tx ∈ ns /\ items !! AccountNonce tx = Some tx.
Proof.
  intros Hk. unfold txs_at. rewrite list_elem_of_omap. split.
  - intros (n & Hn & E). by rewrite (Hk _ _ E).
  - intros [H E]. eauto.
Qed.

Lemma sorted_fmap (l : list Transaction) : StronglySorted nonce_lt l <-> StronglySorted Z.lt (AccountNonce <$> l).
Proof.
  induction l as [|x l IH]; cbn; [split; constructor|]. split; intros H; apply StronglySorted_inv in H as [H Hx].
  - constructor; [by apply IH|]. by apply Forall_fmap.
  - rewrite Forall_fmap in Hx. constructor; [by apply IH|exact Hx].
Qed.

Section wf.
Context (m : txSortedMap) (Hm : sm_wf m).

Lemma sm_list_nonces : AccountNonce <$> sm_list m = sm_index m.
Proof. apply txs_at_nonces; [apply Hm|]. intros n. apply (wf_indexed _ Hm). Qed.

Lemma sm_list_length : length (sm_list m) = length (sm_index m).
Proof. by rewrite <- sm_list_nonces, length_fmap. Qed.

Lemma sm_list_sorted : StronglySorted nonce_lt (sm_list m).
Proof. apply sorted_fmap. rewrite sm_list_nonces. apply Hm. Qed.

Lemma elem_of_sm_list tx : tx ∈ sm_list m <-> sm_items m !! AccountNonce tx = Some tx.
Proof.
  unfold sm_list. rewrite elem_of_txs_at by apply Hm. split; [tauto|]. intros E. split; [|done].
  apply (wf_indexed _ Hm). eauto.
Qed.

Lemma index_size : length (sm_index m) = base.size (sm_items m).
Proof.
  rewrite <- (length_map_to_list (sm_items m)), <- (length_fmap fst). apply Permutation_length, NoDup_Permutation.
  - apply sorted_lt_NoDup, Hm.
  - apply NoDup_fst_map_to_list.
  - intros n. rewrite (proj2 (wf_indexed _ Hm)). rewrite list_elem_of_fmap. split.
    + intros [tx E]. exists (n, tx). split; [done|]. by apply elem_of_map_to_list.
    + intros ([n' tx] & -> & E). apply elem_of_map_to_list in E. eauto.
Qed.
End wf.

(** The list is the only one in order with the map's transactions. *)
Lemma sm_list_unique m l :
  sm_wf m -> StronglySorted nonce_lt l -> (forall tx, tx ∈ l <-> sm_items m !! AccountNonce tx = Some tx) -> sm_list m = l.
Proof.
  intros Hm Hl Hin. eapply (sorted_ext AccountNonce nonce_lt); [done|by apply sm_list_sorted|done|].
  intros tx. by rewrite elem_of_sm_list, Hin.
Qed.

Lemma keyed_sub items items' : keyed items -> (forall n tx, items' !! n = Some tx -> items !! n = Some tx) -> keyed items'.
Proof. intros H Hs n tx E. by apply H, Hs. Qed.

Lemma keyed_drop items ns : keyed items -> keyed (drop_nonces ns items).
Proof. intros H. eapply keyed_sub; [done|]. intros n tx. rewrite drop_nonces_lookup. by case_decide. Qed.

(** Dropping nonces at the front or at the back. *)
Lemma indexed_drop items dropped kept index :
  indexed items index -> (index = dropped ++ kept \/ index = kept ++ dropped) -> indexed (drop_nonces dropped items) kept /\ forall n, n ∈ kept -> n ∉ dropped.
Proof.
  intros [Hs Hi] Hsplit. assert (StronglySorted Z.lt kept /\ (forall n, n ∈ kept -> n ∉ dropped) /\ (forall n, n ∈ index <-> n ∈ kept \/ n ∈ dropped)) as (Hk & Hdis & Hin).
  { destruct Hsplit as [-> | ->]; pose proof (sorted_lt_NoDup _ Hs) as Hnd; apply sorted_app_inv in Hs as (? & ? & _); apply NoDup_app in Hnd as (_ & Hnd & _); set_solver. }
  split; [|done]. split; [done|]. intros n. rewrite drop_nonces_lookup. specialize (Hi n). specialize (Hin n). specialize (Hdis n). case_decide as Hd.
  - split; [naive_solver|]. by intros [? [=]].
  - rewrite <- Hi, Hin. naive_solver.
Qed.

(** ** The operations *)
Lemma newTxSortedMap_wf : sm_wf newTxSortedMap.
Proof.
  split; cbn; [apply map_Forall_empty| |done]. split; [constructor|]. intros n. rewrite lookup_empty.
  split; [by intros ?%elem_of_nil|by intros [? [=]]].
Qed.

Lemma sm_Put_wf tx m : sm_wf m -> sm_wf (sm_Put tx m).
Proof.
  intros Hm. pose proof (wf_indexed _ Hm) as [Hs Hi]. split; cbn; [apply map_Forall_insert_2; [done|apply Hm]| |done].
  split.
  - destruct (sm_items m !! AccountNonce tx) eqn:E; [done|]. apply heap_Push_sorted; [done|]. rewrite Hi, E. by intros [? [=]].
  - intros n. rewrite lookup_insert. destruct (sm_items m !! AccountNonce tx) eqn:E; [|rewrite heap_Push_elem]; rewrite Hi; case_decide; subst; naive_solver.
Qed.

Lemma sorted_app {A} (R : A -> A -> Prop) (l k : list A) :
  StronglySorted R l -> StronglySorted R k -> Forall (fun x => Forall (R x) k) l -> StronglySorted R (l ++ k).
Proof.
  induction 1 as [|x l Hl IH Hx]; cbn; intros Hk H; [done|]. apply Forall_cons in H as [H1 H2].
  constructor; [by apply IH|]. by apply Forall_app.
Qed.

Lemma sorted_filter {A} (R : A -> A -> Prop) P `{!forall x : A, Decision (P x)} (l : list A) : StronglySorted R l -> StronglySorted R (filter P l).
Proof.
  induction 1 as [|x l Hl IH Hx]; [constructor|]. rewrite filter_cons. case_decide; [|done]. constructor; [done|].
  apply Forall_forall. intros y Hy. apply list_elem_of_filter in Hy as [_ Hy]. rewrite Forall_forall in Hx. auto.
Qed.

(** The new transaction takes the place of the one with its nonce. *)
Lemma sm_Put_list tx m :
  sm_wf m ->
  sm_list (sm_Put tx m) = filter (fun t => AccountNonce t < AccountNonce tx) (sm_list m) ++ tx :: filter (fun t => AccountNonce tx < AccountNonce t) (sm_list m).
Proof.
  intros Hm. apply sm_list_unique; [by apply sm_Put_wf| |].
  - apply sorted_app; [apply sorted_filter, sm_list_sorted; done| |].
    + constructor; [apply sorted_filter, sm_list_sorted; done|]. apply Forall_forall. intros t [H _]%list_elem_of_filter. done.
    + apply Forall_forall. intros t [H _]%list_elem_of_filter. constructor; [done|]. apply Forall_forall. intros t' [H' _]%list_elem_of_filter.
      unfold nonce_lt. lia.
  - intros t. rewrite elem_of_app, elem_of_cons, !list_elem_of_filter, elem_of_sm_list by done. cbn. rewrite lookup_insert.
    case_decide as E; [|destruct (Z.lt_total (AccountNonce t) (AccountNonce tx)) as [|[|]]; naive_solver].
    split; [|naive_solver]. intros [[? _]|[->|[? _]]]; [lia|done|lia].
Qed.

Lemma pop_below_spec t h p r :
  StronglySorted Z.lt h -> pop_below t h = (p, r) -> h = p ++ r /\ Forall (fun n => n < t) p /\ Forall (fun n => t <= n) r.
Proof.
  intros Hs. revert p r. induction Hs as [|n h Hs IH Hn]; cbn; intros p r E; [by simplify_eq|].
  case_match eqn:Ht; bools.
  - destruct (pop_below t h) as [p' r'] eqn:E'. simplify_eq. destruct (IH _ _ eq_refl) as (-> & Hp & Hr). auto.
  - simplify_eq. repeat split; auto. constructor; [lia|]. eapply Forall_impl; [done|]. cbn. lia.
Qed.

(** Dropping the transactions at the front or at the back of the index. *)
Lemma sm_drop_wf m dropped kept cache :
  sm_wf m -> (sm_index m = dropped ++ kept \/ sm_index m = kept ++ dropped) -> (forall c, cache = Some c -> c = txs_at (sm_items m) kept) ->
  let m' := {| sm_items := drop_nonces dropped (sm_items m); sm_index := kept; sm_cache := cache |} in
  sm_wf m' /\ sm_list m' = txs_at (sm_items m) kept.
Proof.
  intros Hm Hsplit Hc m'. destruct (indexed_drop _ _ _ _ (wf_indexed _ Hm) Hsplit) as [Hi Hd].
  assert (sm_list m' = txs_at (sm_items m) kept) as Hl by (apply txs_at_drop; auto).
  split; [|done]. split; cbn; [by apply keyed_drop, Hm|done|]. intros c E. change (c = sm_list m'). rewrite Hl. by apply Hc.
Qed.

Lemma txs_at_length items ns : (forall n, n ∈ ns -> is_Some (items !! n)) -> length (txs_at items ns) = length ns.
Proof.
  unfold txs_at. induction ns as [|n ns IH]; cbn; intros H; [done|]. destruct (H n ltac:(set_solver)) as [tx ->]. cbn. rewrite IH by set_solver. done.
Qed.

Lemma cached_drop m p r c : sm_wf m -> sm_index m = p ++ r -> sm_cache m = Some c -> drop (length (txs_at (sm_items m) p)) c = txs_at (sm_items m) r.
Proof. intros Hm Hs E. rewrite (wf_cache _ Hm _ E), Hs, txs_at_app. by rewrite drop_app_length. Qed.

Lemma sm_Forward_spec t m removed m' :
  sm_wf m -> sm_Forward t m = (removed, m') ->
  sm_wf m' /\ sm_list m = removed ++ sm_list m' /\ Forall (fun tx => AccountNonce tx < t) removed /\ Forall (fun tx => t <= AccountNonce tx) (sm_list m').
Proof.
  unfold sm_Forward. intros Hm E. destruct (pop_below t (sm_index m)) as [p r] eqn:Ep. simplify_eq.
  destruct (pop_below_spec _ _ _ _ (proj1 (wf_indexed _ Hm)) Ep) as (Hpr & Hp & Hr).
  destruct (sm_drop_wf m p r (match sm_cache m with None => None | Some c => Some (drop (length (txs_at (sm_items m) p)) c) end) Hm (or_introl Hpr)) as [Hw Hl].
  { intros c. destruct (sm_cache m) eqn:Ec; intros [= <-]. by apply cached_drop. }
  split; [done|]. rewrite Hl. split; [by unfold sm_list; rewrite Hpr, txs_at_app|].
  rewrite Forall_forall in Hp. rewrite Forall_forall in Hr.
  split; apply Forall_forall; intros tx [? _]%elem_of_txs_at; auto; apply Hm.
Qed.

Lemma sm_Cap_spec t m removed m' :
  sm_wf m -> sm_Cap t m = (removed, m') -> sm_wf m' /\ sm_list m' = take t (sm_list m) /\ removed = reverse (drop t (sm_list m)).
Proof.
  unfold sm_Cap. intros Hm E. rewrite <- index_size in E by done. rewrite <- sm_list_length in E by done.
  case_match eqn:Ht.
  - simplify_eq. apply Nat.leb_le in Ht. split; [done|]. by rewrite take_ge, drop_ge by done.
  - apply Nat.leb_gt in Ht. rewrite sm_list_length in E by done.
    pose proof (proj1 (wf_indexed _ Hm)) as Hs.
    rewrite (heap_Init_id (sm_index m)), firstn_all, txs_at_reverse in E by done.
    rewrite heap_Init_id in E by (rewrite <- (take_drop t (sm_index m)) in Hs; by apply sorted_app_inv in Hs as (Hs & _ & _)). simplify_eq.
    pose proof (sm_drop_wf m (drop t (sm_index m)) (take t (sm_index m))) as Hdw.
    assert (drop_nonces (reverse (drop t (sm_index m))) (sm_items m) = drop_nonces (drop t (sm_index m)) (sm_items m)) as ->.
    { apply map_eq. intros n. rewrite !drop_nonces_lookup. repeat case_decide; set_solver. }
    assert (sm_list m = txs_at (sm_items m) (take t (sm_index m)) ++ txs_at (sm_items m) (drop t (sm_index m))) as Hlm by (by rewrite <- txs_at_app, take_drop).
    assert (length (txs_at (sm_items m) (take t (sm_index m))) = t) as Hlen.
    { rewrite txs_at_length; [rewrite length_take, <- sm_list_length by done; lia|].
      intros n Hn. apply (wf_indexed _ Hm). rewrite <- (take_drop t (sm_index m)). set_solver. }
    edestruct Hdw as [Hw Hl]; [done|right; symmetry; apply take_drop| |split; [exact Hw|]].
    + intros c. destruct (sm_cache m) as [c'|] eqn:Ec; intros [= <-]. rewrite (wf_cache _ Hm _ Ec). change (txs_at (sm_items m) (sm_index m)) with (sm_list m).
      rewrite Hlm, length_reverse, length_app, Nat.add_sub. apply take_app_length.
    + rewrite Hl, Hlm. by rewrite take_app_length', drop_app_length'.
Qed.

Lemma sm_Remove_spec nonce m ok m' :
  sm_wf m -> sm_Remove nonce m = (ok, m') ->
  sm_wf m' /\ sm_list m' = filter (fun tx => AccountNonce tx <> nonce) (sm_list m) /\ ok = bool_decide (nonce ∈ sm_index m) /\ sm_items m' = delete nonce (sm_items m).
Proof.
  unfold sm_Remove. intros Hm E. pose proof (wf_indexed _ Hm) as [Hs Hi]. specialize (Hi nonce) as Hn.
  destruct (sm_items m !! nonce) as [tx|] eqn:En; simplify_eq.
  - destruct (heap_Remove_spec nonce _ Hs) as [Hs' Hr].
    assert (sm_wf {| sm_items := delete nonce (sm_items m); sm_index := heap_Remove nonce (sm_index m); sm_cache := None |}) as Hw.
    { split; cbn; [eapply keyed_sub; [apply Hm|]; intros n t; rewrite lookup_delete_Some; tauto| |done]. split; [done|].
      intros n. rewrite Hr, Hi, lookup_delete. case_decide; naive_solver. }
    split; [done|]. split; [|split; [|done]; symmetry; apply bool_decide_eq_true, Hn; eauto].
    apply sm_list_unique; [done|apply sorted_filter, sm_list_sorted; done|]. intros t.
    rewrite list_elem_of_filter, elem_of_sm_list by done. cbn. rewrite lookup_delete_Some. naive_solver.
  - split; [done|]. split; [|split; [symmetry; apply bool_decide_eq_false; rewrite Hn; by intros [? [=]]|by rewrite delete_id]].
    apply sm_list_unique; [done|apply sorted_filter, sm_list_sorted; done|]. intros t. rewrite list_elem_of_filter, elem_of_sm_list by done.
    split; [tauto|]. intros E. split; [|done]. intros <-. congruence.
Qed.

Lemma pop_run_spec next h p r :
  pop_run next h = (p, r) -> h = p ++ r /\ p = seqZ next (zlen p) /\ hd_error r <> Some (next + zlen p).
Proof.
  revert next p r. induction h as [|n h IH]; cbn; intros next p r E; [by simplify_eq|].
  case_match eqn:En; bools.
  - destruct (pop_run (next + 1) h) as [p' r'] eqn:E'. simplify_eq. destruct (IH _ _ _ E') as (-> & Hp & Hr). split; [done|]. rewrite zlen_cons.
    split; [|by replace (next + (zlen p' + 1)) with (next + 1 + zlen p') by lia].
    rewrite seqZ_cons by (pose proof (zlen_nonneg p'); lia). f_equal. by replace (Z.succ next) with (next + 1) by lia; replace (Z.pred (zlen p' + 1)) with (zlen p') by lia.
  - simplify_eq. split; [done|]. split; [done|]. intros [= C]. unfold zlen in C. cbn in C. lia.
Qed.

(** The transactions that are ready: none when the first nonce is still ahead,
    otherwise the whole run of consecutive nonces at the front. *)
Definition ready_run (start : Z) (l removed rest : list Transaction) : Prop :=
  l = removed ++ rest /\
  match l with
  | [] => removed = []
  | first :: _ =>
      if start <? AccountNonce first then removed = []
      else AccountNonce <$> removed = seqZ (AccountNonce first) (zlen removed) /\ hd_error (AccountNonce <$> rest) <> Some (AccountNonce first + zlen removed)
  end.

Lemma sm_Ready_spec start m removed m' :
  sm_wf m -> sm_Ready start m = (removed, m') -> sm_wf m' /\ ready_run start (sm_list m) removed (sm_list m').
Proof.
  unfold sm_Ready, ready_run. intros Hm E. pose proof (sm_list_nonces _ Hm) as Hn.
  destruct (sm_index m) as [|n index] eqn:Ei; destruct (sm_list m) as [|first l] eqn:El; try done; cbn in Hn; simplify_eq; [by rewrite El|].
  case_match; simplify_eq; [by rewrite El|].
  destruct (pop_run _ _) as [p r] eqn:Ep. simplify_eq. apply pop_run_spec in Ep as (Hpr & Hp & Hr).
  destruct (sm_drop_wf m p r None Hm) as [Hw Hl]; [left; by rewrite Ei|done|]. split; [done|].
  assert (sm_list m = txs_at (sm_items m) p ++ txs_at (sm_items m) r) as Hlm by (unfold sm_list; by rewrite Ei, Hpr, txs_at_app).
  rewrite Hl, <- Hlm. split; [done|].
  assert (forall n, n ∈ p ++ r -> is_Some (sm_items m !! n)) as Hin by (intros n; rewrite <- Hpr, <- Ei; apply (wf_indexed _ Hm)).
  rewrite (txs_at_nonces (sm_items m) p), (txs_at_nonces (sm_items m) r) by (try apply Hm; intros; apply Hin; set_solver).
  replace (zlen (txs_at (sm_items m) p)) with (zlen p); [done|]. unfold zlen. rewrite txs_at_length; [done|]. intros; apply Hin; set_solver.
Qed.

Lemma range_map_keys `{!RangeOrder} (items : gmap Z Transaction) n : n ∈ fst <$> range_map items <-> is_Some (items !! n).
Proof.
  rewrite list_elem_of_fmap. split; [intros ([n' tx] & -> & E%elem_of_range_map); eauto|]. intros [tx E]. exists (n, tx). by rewrite elem_of_range_map.
Qed.

Lemma indexed_range `{!RangeOrder} (items : gmap Z Transaction) : indexed items (heap_Init (fst <$> range_map items)).
Proof.
  split; [apply heap_Init_sorted, NoDup_range_map_fst|]. intros n. by rewrite heap_Init_elem, range_map_keys.
Qed.

Lemma sm_Flatten_spec `{!RangeOrder} m l m' : sm_wf m -> sm_Flatten m = (l, m') -> sm_wf m' /\ l = sm_list m /\ sm_list m' = sm_list m /\ sm_items m' = sm_items m.
Proof.
  unfold sm_Flatten. intros Hm E. destruct (sm_cache m) as [c|] eqn:Ec; simplify_eq; [by rewrite (wf_cache _ Hm _ Ec)|].
  assert (merge_sort nonce_le (range_map (sm_items m)).*2 = sm_list m) as Hl.
  { symmetry. apply sm_list_unique; [done| |].
    - apply (sorted_strict AccountNonce).
      + apply (StronglySorted_merge_sort nonce_le).
      + rewrite merge_sort_Permutation, <- list_fmap_compose. rewrite (list_fmap_ext _ fst); [apply NoDup_range_map_fst|].
        intros i [n tx] E%list_elem_of_lookup_2%elem_of_range_map. apply (wf_keyed _ Hm _ _ E).
    - intros tx. rewrite merge_sort_Permutation, list_elem_of_fmap. split.
      + intros ([n t] & -> & E%elem_of_range_map). cbn. by rewrite (wf_keyed _ Hm _ _ E).
      + intros E. exists (AccountNonce tx, tx). by rewrite elem_of_range_map. }
  rewrite Hl. split; [|done]. split; cbn; [apply Hm..|]. by intros c [= <-].
Qed.

Section filter_facts.
Context `{!Codec} `{!SpvLib} `{!RangeOrder}.

(** Whatever the loop's variable becomes, what it returns is what it deletes. *)
Lemma filter_loop_split filter gasLimit black entries items removed items' :
  NoDup entries.*1 -> (forall n tx, (n, tx) ∈ entries -> items !! n = Some tx) ->
  filter_loop filter gasLimit black entries items = (removed, items') ->
  exists gone, removed = gone.*2 /\ gone `sublist_of` entries /\ items' = drop_nonces gone.*1 items.
Proof.
  revert filter items removed items'. induction entries as [|[n tx] entries IH]; cbn; intros filter items removed items' Hnd Hin E.
  { simplify_eq. exists []. repeat split. constructor. }
  apply NoDup_cons in Hnd as [Hn Hnd]. set (f := next_filter filter gasLimit black tx) in E.
  destruct (f tx).
  - destruct (filter_loop f gasLimit black entries (delete n items)) as [removed' items''] eqn:E'. simplify_eq.
    apply IH in E' as (gone & -> & Hs & ->); [|done|].
    + exists ((n, tx) :: gone). repeat split; [by constructor|]. change (drop_nonces gone.*1 (delete n items) = delete n (drop_nonces gone.*1 items)).
      apply map_eq. intros k. rewrite lookup_delete, !drop_nonces_lookup, lookup_delete. repeat case_decide; done.
    + intros k t Hk. rewrite lookup_delete_ne; [apply Hin; set_solver|]. intros ->. apply Hn. by apply (list_elem_of_fmap_2 fst _ (k, t)).
  - apply IH in E as (gone & -> & Hs & ->); [|done|intros; apply Hin; set_solver]. exists gone. repeat split. by constructor.
Qed.

Lemma sm_Filter_split filter gasLimit black m removed m' :
  sm_wf m -> sm_Filter filter gasLimit black m = (removed, m') ->
  sm_wf m' /\ removed ++ sm_list m' ≡ₚ sm_list m /\ sm_items m' = drop_nonces (AccountNonce <$> removed) (sm_items m).
Proof.
  unfold sm_Filter. intros Hm E. destruct (filter_loop _ _ _ _ _) as [r items] eqn:El.
  assert (forall n tx, (n, tx) ∈ range_map (sm_items m) -> sm_items m !! n = Some tx) as Hin by (intros n tx; by rewrite elem_of_range_map).
  apply filter_loop_split in El as (gone & -> & Hs & ->); [|apply NoDup_range_map_fst|done].
  assert (AccountNonce <$> gone.*2 = gone.*1) as Hg.
  { rewrite <- list_fmap_compose. apply list_fmap_ext. intros i [n tx] Hl%list_elem_of_lookup_2. apply (wf_keyed _ Hm). apply Hin. by eapply elem_of_sublist. }
  assert (removed = gone.*2 /\ sm_items m' = drop_nonces gone.*1 (sm_items m) /\ sm_wf m') as (-> & Hi & Hw).
  { destruct gone as [|g gone]; cbn [fmap list_fmap] in E; simplify_eq; [by destruct m|]. split; [done|]. split; [done|].
    split; cbn [sm_items sm_index sm_cache]; [by apply keyed_drop, Hm|apply indexed_range|done]. }
  rewrite Hg. split; [done|]. split; [|done].
  assert (NoDup gone.*1) as Hnd by (eapply sublist_NoDup; [|apply fmap_sublist, Hs]; apply NoDup_range_map_fst).
  apply NoDup_Permutation.
  - apply NoDup_app. split; [|split].
    + rewrite <- Hg in Hnd. by apply NoDup_fmap_1 in Hnd.
    + intros tx Ht C. apply elem_of_sm_list in C; [|done]. rewrite Hi, drop_nonces_lookup, <- Hg, decide_True in C by (by apply list_elem_of_fmap_2). done.
    + apply (NoDup_fmap_1 AccountNonce). rewrite sm_list_nonces by done. apply sorted_lt_NoDup, Hw.
  - apply (NoDup_fmap_1 AccountNonce). rewrite sm_list_nonces by done. apply sorted_lt_NoDup, Hm.
  - intros tx. rewrite elem_of_app, !elem_of_sm_list, Hi, drop_nonces_lookup by done. split.
    + intros [Ht|Ht]; [|by case_decide]. apply list_elem_of_fmap in Ht as ([n t] & -> & Ht). cbn. assert (sm_items m !! n = Some t) as Hk by (apply Hin; by eapply elem_of_sublist).
      by rewrite (wf_keyed _ Hm _ _ Hk).
    + intros Ht. case_decide as Hd; [|by right]. left. apply list_elem_of_fmap in Hd as ([n t] & En & Hd). cbn in En. subst n.
      assert (sm_items m !! AccountNonce tx = Some t) as Hk by (apply Hin; by eapply elem_of_sublist). rewrite Ht in Hk. simplify_eq. by apply (list_elem_of_fmap_2 snd _ (AccountNonce t, t)).
Qed.

(** Nothing in the account turns the filter into one of gas alone. *)
Definition plain_tx (black : bool) (tx : Transaction) : bool := match Recipient tx with Some _ => negb (IsRechargeTx tx) | None => negb black end.

Lemma filter_loop_plain filter gasLimit black entries items removed items' :
  (forall n tx, (n, tx) ∈ entries -> plain_tx black tx = true) -> filter_loop filter gasLimit black entries items = (removed, items') ->
  removed = base.filter (fun tx => filter tx = true) entries.*2.
Proof.
  revert items removed items'. induction entries as [|[n tx] entries IH]; cbn; intros items removed items' Hpl E; [by simplify_eq|].
  assert (forall n tx, (n, tx) ∈ entries -> plain_tx black tx = true) as H' by (intros n' t' Ht'; eapply Hpl, list_elem_of_further, Ht').
  specialize (Hpl n tx (list_elem_of_here _ _)). unfold plain_tx in Hpl.
  assert (next_filter filter gasLimit black tx = filter) as Hf by (unfold next_filter; destruct (Recipient tx); by rewrite (proj1 (negb_true_iff _) Hpl)).
  rewrite Hf in E. case_decide as Ht.
  - rewrite Ht in E. destruct (filter_loop _ _ _ _ _) as [r i] eqn:E'. simplify_eq. f_equal. by eapply IH.
  - rewrite (not_true_is_false _ Ht) in E. by eapply IH.
Qed.

Lemma sm_Filter_plain filter gasLimit black m removed m' :
  sm_wf m -> Forall (fun tx => plain_tx black tx = true) (sm_list m) -> sm_Filter filter gasLimit black m = (removed, m') ->
  sm_wf m' /\ removed ≡ₚ base.filter (fun tx => filter tx = true) (sm_list m) /\ sm_list m' = base.filter (fun tx => filter tx = false) (sm_list m).
Proof.
  intros Hm Hp E. destruct (sm_Filter_split _ _ _ _ _ _ Hm E) as (Hw & Hs & Hi). split; [done|].
  assert (forall tx, tx ∈ removed <-> tx ∈ base.filter (fun tx => filter tx = true) (sm_list m)) as Hr.
  { intros tx. unfold sm_Filter in E. destruct (filter_loop _ _ _ _ _) as [r items] eqn:El.
    apply filter_loop_plain in El; [|intros n t Ht%elem_of_range_map; rewrite Forall_forall in Hp; apply Hp, elem_of_sm_list; [done|]; by rewrite (wf_keyed _ Hm _ _ Ht)].
    assert (removed = r) as -> by (destruct r; by simplify_eq). subst r. rewrite !list_elem_of_filter, elem_of_sm_list, list_elem_of_fmap by done.
    split; intros [Hf Hx]; (split; [done|]).
    - destruct Hx as ([n t] & -> & Ht%elem_of_range_map). cbn. by rewrite (wf_keyed _ Hm _ _ Ht).
    - exists (AccountNonce tx, tx). by rewrite elem_of_range_map. }
  assert (NoDup (sm_list m)) as Hnd by (apply (NoDup_fmap_1 AccountNonce); rewrite sm_list_nonces by done; apply sorted_lt_NoDup, Hm).
  pose proof Hnd as Hnd'. rewrite <- Hs in Hnd'. apply NoDup_app in Hnd' as (Hn1 & Hd & _).
  split; [apply NoDup_Permutation; [done|by apply NoDup_filter|done]|].
  apply sm_list_unique; [done|apply sorted_filter, sm_list_sorted; done|]. intros tx. rewrite <- elem_of_sm_list by done.
  rewrite list_elem_of_filter, <- Hs, elem_of_app, Hr, list_elem_of_filter. split.
  - intros [Hf [[Hf' _]|Hx]]; [congruence|done].
  - intros Hx. split; [|by right]. apply not_true_is_false. intros Hf. apply (Hd tx); [|done]. apply Hr, list_elem_of_filter. split; [done|]. rewrite <- Hs. set_solver.
Qed.
(** Once only the gas is looked at, it stays so. *)
Lemma filter_loop_gas gasLimit black entries items removed items' :
  filter_loop (fun tx => gasLimit <? GasLimit tx) gasLimit black entries items = (removed, items') -> removed = base.filter (fun tx => gasLimit < GasLimit tx) entries.*2.
Proof.
  revert items removed items'. induction entries as [|[n tx] entries IH]; cbn; intros items removed items' E; [by simplify_eq|].
  assert (next_filter (fun tx => gasLimit <? GasLimit tx) gasLimit black tx = (fun tx => gasLimit <? GasLimit tx)) as Hf by (unfold next_filter; by repeat case_match).
  rewrite Hf in E. destruct (gasLimit <? GasLimit tx) eqn:Eg; bools.
  - destruct (filter_loop _ _ _ _ _) as [r i] eqn:E'. simplify_eq. rewrite decide_True by done. f_equal. by eapply IH.
  - rewrite decide_False by lia. by eapply IH.
Qed.

(** What [Filter] takes from some order of the transactions: up to the first that is
    not plain those that [filter] takes, from it on those with too much gas. *)
Definition filtered (filter : Transaction -> bool) (gasLimit : Z) (black : bool) (order removed : list Transaction) : Prop :=
  exists before after, order = before ++ after /\ Forall (fun tx => plain_tx black tx = true) before /\
    match after with [] => True | tx :: _ => plain_tx black tx = false end /\
    removed = base.filter (fun tx => filter tx = true) before ++ base.filter (fun tx => gasLimit < GasLimit tx) after.

Lemma filter_loop_filtered filter gasLimit black entries items removed items' :
  filter_loop filter gasLimit black entries items = (removed, items') -> filtered filter gasLimit black entries.*2 removed.
Proof.
  revert items removed items'. induction entries as [|[n tx] entries IH]; intros items removed items' E; [cbn in E; simplify_eq; by exists [], []|].
  destruct (plain_tx black tx) eqn:Ep.
  - assert (next_filter filter gasLimit black tx = filter) as Hf.
    { unfold next_filter. unfold plain_tx in Ep. destruct (Recipient tx); by rewrite (proj1 (negb_true_iff _) Ep). }
    cbn [filter_loop] in E. rewrite Hf in E.
    assert (exists r i, filter_loop filter gasLimit black entries i = (r, items') /\ removed = if filter tx then tx :: r else r) as (r & i & E' & ->).
    { destruct (filter tx); [|by eauto]. destruct (filter_loop _ _ _ _ _) as [r i] eqn:E'. simplify_eq. eauto. }
    destruct (IH _ _ _ E') as (before & after & Ho & Hp & Ha & ->). exists (tx :: before), after. cbn. rewrite Ho. split; [done|]. split; [by constructor|]. split; [done|].
    destruct (filter tx); [by rewrite decide_True|by rewrite decide_False].
  - exists [], ((n, tx) :: entries).*2. split; [done|]. split; [constructor|]. split; [done|]. cbn [base.filter list_filter app].
    apply (filter_loop_gas _ black _ items _ items'). rewrite <- E. cbn [filter_loop].
    assert (forall f, next_filter f gasLimit black tx = (fun tx => gasLimit <? GasLimit tx)) as Hf.
    { intros f. unfold next_filter. unfold plain_tx in Ep. destruct (Recipient tx); by rewrite (proj1 (negb_false_iff _) Ep). }
    by rewrite !Hf.
Qed.

Lemma sm_Filter_filtered filter gasLimit black m removed m' :
  sm_wf m -> sm_Filter filter gasLimit black m = (removed, m') -> exists order, order ≡ₚ sm_list m /\ filtered filter gasLimit black order removed.
Proof.
  unfold sm_Filter. intros Hm E. destruct (filter_loop _ _ _ _ _) as [r items] eqn:El. assert (removed = r) as -> by (destruct r; by simplify_eq).
  exists (range_map (sm_items m)).*2. split; [|by eapply filter_loop_filtered]. pose proof (sm_list_sorted _ Hm) as Hs.
  assert (AccountNonce <$> (range_map (sm_items m)).*2 = (range_map (sm_items m)).*1) as Hk.
  { rewrite <- list_fmap_compose. apply list_fmap_ext. intros i [n tx] Ht%list_elem_of_lookup_2%elem_of_range_map. apply (wf_keyed _ Hm _ _ Ht). }
  apply NoDup_Permutation.
  - apply (NoDup_fmap_1 AccountNonce). rewrite Hk. apply NoDup_range_map_fst.
  - apply (NoDup_fmap_1 AccountNonce). rewrite sm_list_nonces by done. apply sorted_lt_NoDup, Hm.
  - intros tx. rewrite elem_of_sm_list, list_elem_of_fmap by done. split.
    + intros ([n t] & -> & Ht%elem_of_range_map). cbn. by rewrite (wf_keyed _ Hm _ _ Ht).
    + intros Ht. exists (AccountNonce tx, tx). by rewrite elem_of_range_map.
Qed.
End filter_facts.

(** ** Sequences of operations refine a list in order *)
Inductive map_op :=
  | OpPut (tx : Transaction)
  | OpForward (threshold : Z)
  | OpFilter (filter : Transaction -> bool) (gasLimit : Z) (black : bool)
  | OpCap (threshold : nat)
  | OpRemove (nonce : Z)
  | OpReady (start : Z)
  | OpFlatten.

(** What an operation returns: nothing, transactions, or whether it found one. *)
Inductive map_out := OutNone | OutTxs (txs : list Transaction) | OutFound (ok : bool).

Definition out_with {A} (f : A -> map_out) (r : A * txSortedMap) : map_out * txSortedMap := (f r.1, r.2).

Section refinement.
Context `{!Codec} `{!SpvLib} `{!RangeOrder}.

Definition map_step (op : map_op) (m : txSortedMap) : map_out * txSortedMap :=
  match op with
  | OpPut tx => (OutNone, sm_Put tx m)
  | OpForward t => out_with OutTxs (sm_Forward t m)
  | OpFilter f g b => out_with OutTxs (sm_Filter f g b m)
  | OpCap t => out_with OutTxs (sm_Cap t m)
  | OpRemove n => out_with OutFound (sm_Remove n m)
  | OpReady s => out_with OutTxs (sm_Ready s m)
  | OpFlatten => out_with OutTxs (sm_Flatten m)
  end.

Fixpoint map_run (ops : list map_op) (m : txSortedMap) : list map_out * txSortedMap :=
  match ops with
  | [] => ([], m)
  | op :: ops => let (out, m) := map_step op m in let (outs, m) := map_run ops m in (out :: outs, m)
  end.

(** What each operation does to the transactions in the order of their nonces. *)
Definition list_step (op : map_op) (l : list Transaction) (out : map_out) (l' : list Transaction) : Prop :=
  match op, out with
  | OpPut tx, OutNone => l' = filter (fun t => AccountNonce t < AccountNonce tx) l ++ tx :: filter (fun t => AccountNonce tx < AccountNonce t) l
  | OpForward t, OutTxs txs => l = txs ++ l' /\ Forall (fun tx => AccountNonce tx < t) txs /\ Forall (fun tx => t <= AccountNonce tx) l'
  | OpFilter f g b, OutTxs txs =>
      txs ++ l' ≡ₚ l /\ (exists order, order ≡ₚ l /\ filtered f g b order txs) /\
      (Forall (fun tx => plain_tx b tx = true) l -> txs ≡ₚ filter (fun tx => f tx = true) l /\ l' = filter (fun tx => f tx = false) l)
  | OpCap t, OutTxs txs => l' = take t l /\ txs = reverse (drop t l)
  | OpRemove n, OutFound ok => l' = filter (fun tx => AccountNonce tx <> n) l /\ (ok = true <-> exists tx, tx ∈ l /\ AccountNonce tx = n)
  | OpReady s, OutTxs txs => ready_run s l txs l'
  | OpFlatten, OutTxs txs => txs = l /\ l' = l
  | _, _ => False
  end.

Inductive list_run : list map_op -> list Transaction -> list map_out -> list Transaction -> Prop :=
  | list_run_nil l : list_run [] l [] l
  | list_run_cons op ops l out l' outs l'' : list_step op l out l' -> list_run ops l' outs l'' -> list_run (op :: ops) l (out :: outs) l''.

Lemma map_step_refines op m out m' : sm_wf m -> map_step op m = (out, m') -> sm_wf m' /\ list_step op (sm_list m) out (sm_list m').
Proof.
  intros Hm. destruct op as [tx|t|f g b|t|n|s|]; cbn [map_step out_with]; intros E; injection E as <- <-.
  - split; [by apply sm_Put_wf|]. by apply sm_Put_list.
  - destruct (sm_Forward t m) as [l m'] eqn:E. destruct (sm_Forward_spec _ _ _ _ Hm E) as (? & ? & ? & ?). done.
  - destruct (sm_Filter f g b m) as [l m'] eqn:E. destruct (sm_Filter_split _ _ _ _ _ _ Hm E) as (? & ? & _). split; [done|]. split; [done|].
    split; [by eapply sm_Filter_filtered|]. intros Hp. destruct (sm_Filter_plain _ _ _ _ _ _ Hm Hp E) as (_ & ? & ?). done.
  - destruct (sm_Cap t m) as [l m'] eqn:E. destruct (sm_Cap_spec _ _ _ _ Hm E) as (? & ? & ?). done.
  - destruct (sm_Remove n m) as [ok m'] eqn:E. destruct (sm_Remove_spec _ _ _ _ Hm E) as (? & ? & -> & _). split; [done|]. split; [done|].
    cbn [fst]. rewrite bool_decide_eq_true, <- sm_list_nonces, list_elem_of_fmap by done. naive_solver.
  - destruct (sm_Ready s m) as [l m'] eqn:E. by apply sm_Ready_spec.
  - destruct (sm_Flatten m) as [l m'] eqn:E. destruct (sm_Flatten_spec _ _ _ Hm E) as (? & -> & ? & _). done.
Qed.

Lemma map_run_refines ops m outs m' : sm_wf m -> map_run ops m = (outs, m') -> sm_wf m' /\ list_run ops (sm_list m) outs (sm_list m').
Proof.
  revert m outs. induction ops as [|op ops IH]; cbn; intros m outs Hm E; [simplify_eq; split; [done|constructor]|].
  destruct (map_step op m) as [out m1] eqn:E1. destruct (map_run ops m1) as [outs1 m2] eqn:E2. simplify_eq.
  destruct (map_step_refines _ _ _ _ Hm E1) as [Hm1 Hs]. destruct (IH _ _ Hm1 E2) as [Hm2 Hr]. split; [done|]. by econstructor.
Qed.
End refinement.

(** C30: whatever sequence of operations is run on a new map of transactions, with
    whatever order Go's maps are iterated in, the index, the hash map and the cache of
    the sorted transactions stay in step with the plain list of the account's
    transactions in the order of their nonces: [Put], [Forward], [Cap], [Ready] and
    [Flatten] return and leave exactly what they should of that list, and [Remove] takes
    the transaction of the nonce and says whether there was one.  [Filter] returns what
    it takes out and leaves the rest.  When the list has no recharge transaction and no
    deployment of the black contract it takes exactly what its condition says;
    otherwise what it takes depends on the map's order: for some order of the list,
    those that its condition says up to the first such transaction and, from it on,
    those with more gas than the limit. *)
Theorem txSortedMap_refines_list `{!Codec} `{!SpvLib} `{!RangeOrder} ops outs m :
  map_run ops newTxSortedMap = (outs, m) ->
  list_run ops [] outs (sm_list m) /\ StronglySorted nonce_lt (sm_list m) /\ (sm_Flatten m).1 = sm_list m.
Proof.
  intros E. destruct (map_run_refines _ _ _ _ newTxSortedMap_wf E) as [Hm Hr]. split; [done|]. split; [by apply sm_list_sorted|].
  destruct (sm_Flatten m) as [l m'] eqn:Ef. by destruct (sm_Flatten_spec _ _ _ Hm Ef) as (_ & -> & _).
Qed.

(** ** The list of an account *)

(** The caps bound what the list holds: this is what lets [Filter] return at once. *)
Definition capped (l : txList) : Prop := Forall (fun tx => tx_Cost tx <= costcap l /\ GasLimit tx <= gascap l) (sm_list (txs l)).

Definition tl_list (l : txList) : list Transaction := sm_list (txs l).

Lemma newTxList_capped b : sm_wf (txs (newTxList b)) /\ capped (newTxList b) /\ tl_list (newTxList b) = [].
Proof. split; [apply newTxSortedMap_wf|]. split; [constructor|done]. Qed.

Section list_facts.
Context `{!Codec} `{!SpvLib} `{!RangeOrder}.

Lemma tl_Add_spec tx bump l ok old l' :
  sm_wf (txs l) -> tl_Add tx bump l = ((ok, old), l') ->
  if ok then sm_wf (txs l') /\ txs l' = sm_Put tx (txs l) /\ strict l' = strict l /\ old = sm_items (txs l) !! AccountNonce tx /\ (capped l -> capped l') /\
    (forall o, old = Some o -> Price o < Price tx /\ Price o * i64 (100 + i64 bump) / 100 <= Price tx)
  else l' = l /\ exists o, sm_items (txs l) !! AccountNonce tx = Some o /\ (Price tx <= Price o \/ Price tx < Price o * i64 (100 + i64 bump) / 100).
Proof.
  unfold tl_Add, sm_Get. intros Hl E. case_match eqn:Eb; simplify_eq.
  - split; [done|]. destruct (sm_items (txs l') !! AccountNonce tx) as [o|]; [|done]. exists o. split; [done|]. bools. destruct Eb; bools; lia.
  - split; [by apply sm_Put_wf|]. do 3 (split; [done|]). split.
    + unfold capped. cbn [txs costcap gascap]. rewrite sm_Put_list by done. rewrite !Forall_forall. intros Hc t Ht.
      assert (t = tx \/ t ∈ sm_list (txs l)) as Hin by (apply elem_of_app in Ht as [[_ ?]%list_elem_of_filter|[->|[_ ?]%list_elem_of_filter]%elem_of_cons]; auto).
      destruct Hin as [->|Hin]; [|specialize (Hc _ Hin)]; repeat case_match; bools; lia.
    + intros o Eo. rewrite Eo in Eb. bools. lia.
Qed.

Lemma tl_Filter_split cost gas black l removed invalids l' :
  sm_wf (txs l) -> tl_Filter cost gas black l = ((removed, invalids), l') ->
  sm_wf (txs l') /\ strict l' = strict l /\ removed ++ invalids ++ tl_list l' ≡ₚ tl_list l.
Proof.
  unfold tl_Filter, on_txs. intros Hl E. case_match; simplify_eq; [done|]. cbn -[sm_Filter] in E.
  destruct (sm_Filter _ gas black (txs l)) as [r m1] eqn:E1. destruct (sm_Filter_split _ _ _ _ _ _ Hl E1) as (Hm1 & Hp1 & _).
  cbn -[sm_Filter] in E. case_match; simplify_eq; [|done].
  destruct (sm_Filter _ 0 false m1) as [i m2] eqn:E2. destruct (sm_Filter_split _ _ _ _ _ _ Hm1 E2) as (Hm2 & Hp2 & _). simplify_eq.
  split; [done|]. split; [done|]. unfold tl_list. cbn. by rewrite Hp2.
Qed.

Lemma lowest_nonce_spec r :
  r <> [] -> Forall (fun t => is_u64 (AccountNonce t)) r -> Forall (fun t => lowest_nonce r <= AccountNonce t) r /\ lowest_nonce r ∈ AccountNonce <$> r.
Proof.
  intros Hne Hr. unfold lowest_nonce.
  assert (forall a, Forall (fun t => foldl (fun lowest tx => if AccountNonce tx <? lowest then AccountNonce tx else lowest) a r <= AccountNonce t) r /\
    let x := foldl (fun lowest tx => if AccountNonce tx <? lowest then AccountNonce tx else lowest) a r in x <= a /\ (x = a \/ x ∈ AccountNonce <$> r)) as Hg.
  { clear Hne. induction Hr as [|t r Ht Hr IH]; intros a; cbn; [repeat split; [constructor|lia|auto]|].
    destruct (IH (if AccountNonce t <? a then AccountNonce t else a)) as (Hx1 & Hx2 & Hx3). cbn in Hx2, Hx3.
    set (x := foldl _ _ r) in *. split; [|split].
    - constructor; [|done]. case_match; bools; lia.
    - case_match; bools; lia.
    - case_match; set_solver. }
  destruct (Hg MaxUint64) as (Hx1 & _ & Hx2). split; [done|]. destruct Hx2 as [Hx2|Hx2]; [|done]. rewrite Hx2 in Hx1 |- *.
  destruct r as [|t r]; [done|]. apply Forall_cons in Hx1 as [Hx1 _]. apply Forall_cons in Hr as [Hr _]. unfold is_u64, MaxUint64 in *.
  replace (2 ^ 64 - 1) with (AccountNonce t) by lia. set_solver.
Qed.

Definition too_much (cost gas : Z) (tx : Transaction) : Prop := cost < tx_Cost tx \/ gas < GasLimit tx.

#[export] Instance too_much_dec cost gas tx : Decision (too_much cost gas tx).
Proof. unfold too_much. apply _. Defined.

(** What stays: a strict list also loses what is behind a transaction it lost. *)
Definition stays (strict : bool) (cost gas : Z) (l : list Transaction) (tx : Transaction) : Prop :=
  if strict then Forall (fun t => too_much cost gas t -> AccountNonce tx < AccountNonce t) l else ~ too_much cost gas tx.

#[export] Instance stays_dec b cost gas l tx : Decision (stays b cost gas l tx).
Proof. unfold stays. destruct b; apply _. Defined.

Lemma stays_affordable b cost gas l tx : tx ∈ l -> stays b cost gas l tx -> ~ too_much cost gas tx.
Proof.
  unfold stays. intros Ht Hs. destruct b; [|done]. intros Hb. rewrite Forall_forall in Hs. specialize (Hs _ Ht Hb). lia.
Qed.

Lemma tl_list_NoDup l : sm_wf (txs l) -> NoDup (tl_list l).
Proof. intros Hl. apply (NoDup_fmap_1 AccountNonce). unfold tl_list. rewrite sm_list_nonces by done. apply sorted_lt_NoDup, Hl. Qed.

Lemma same_nonce m tx tx' : sm_wf m -> tx ∈ sm_list m -> tx' ∈ sm_list m -> AccountNonce tx = AccountNonce tx' -> tx = tx'.
Proof. intros Hm Ht Ht' E. apply elem_of_sm_list in Ht, Ht'; [|done..]. congruence. Qed.

(** Membership in what [Filter] removes and leaves on a map without recharge
    transactions, when it does not return at once. *)
Lemma tl_Filter_members cost gas black l removed invalids l' :
  sm_wf (txs l) -> Forall (fun tx => is_u64 (AccountNonce tx)) (tl_list l) ->
  Forall (fun tx => plain_tx black tx = true /\ plain_tx false tx = true) (tl_list l) ->
  (costcap l <=? cost) && (gascap l <=? gas) = false -> tl_Filter cost gas black l = ((removed, invalids), l') ->
  (forall tx, tx ∈ removed <-> tx ∈ tl_list l /\ too_much cost gas tx) /\
  (forall tx, tx ∈ tl_list l' <-> tx ∈ tl_list l /\ stays (strict l) cost gas (tl_list l) tx) /\ costcap l' = cost /\ gascap l' = gas.
Proof.
  unfold tl_Filter, on_txs, tl_list. intros Hl Hu Hp Eq E. rewrite Eq in E. cbn -[sm_Filter] in E.
  destruct (sm_Filter _ gas black (txs l)) as [r m1] eqn:E1.
  destruct (sm_Filter_plain _ _ _ _ _ _ Hl (Forall_impl _ _ _ Hp (fun _ => @proj1 _ _)) E1) as (Hm1 & Hr & Hl1).
  assert (forall tx, tx ∈ r <-> tx ∈ sm_list (txs l) /\ too_much cost gas tx) as Hin.
  { intros tx. rewrite Hr, list_elem_of_filter. unfold too_much. rewrite orb_true_iff, !Z.ltb_lt. tauto. }
  assert (forall tx, tx ∈ sm_list m1 <-> tx ∈ sm_list (txs l) /\ ~ too_much cost gas tx) as Hin1.
  { intros tx. rewrite Hl1, list_elem_of_filter. unfold too_much. rewrite orb_false_iff, !Z.ltb_ge. split; intros [? ?]; split; try done; lia. }
  cbn -[sm_Filter] in E. destruct (strict l && (0 <? zlen r)) eqn:Es; simplify_eq; bools.
  - destruct (sm_Filter _ 0 false m1) as [i m2] eqn:E2. simplify_eq. cbn.
    assert (removed <> []) as Hne by (intros ->; done).
    rewrite Forall_forall in Hu. rewrite Forall_forall in Hp.
    destruct (lowest_nonce_spec removed Hne) as [Hlow Hex]; [apply Forall_forall; intros t Ht; apply Hu; by apply Hin|].
    assert (Forall (fun tx => plain_tx false tx = true) (sm_list m1)) as Hp1 by (apply Forall_forall; intros t Ht; apply Hp; by apply Hin1).
    destruct (sm_Filter_plain _ _ _ _ _ _ Hm1 Hp1 E2) as (_ & _ & Hl2).
    split; [done|]. split; [|done]. intros tx. rewrite Hl2, list_elem_of_filter, Hin1, Z.ltb_ge. rewrite Forall_forall in Hlow.
    replace (strict l) with true by done. unfold stays. rewrite Forall_forall. split.
    + intros (Hn & Ht & Hb). split; [done|]. intros t Ht' Hb'. specialize (Hlow t (proj2 (Hin t) (conj Ht' Hb'))).
      assert (AccountNonce tx <> AccountNonce t) by (intros C; apply (same_nonce (txs l)) in C; naive_solver). lia.
    + intros (Ht & Hall). apply list_elem_of_fmap in Hex as (t & Et & Hex). apply Hin in Hex as [Ht' Hb']. specialize (Hall _ Ht' Hb') as Hlt.
      split; [lia|]. split; [done|]. intros Hb. specialize (Hall _ Ht Hb). lia.
  - cbn. split; [done|]. split; [|done]. intros tx. rewrite Hin1. unfold stays. destruct (strict l) eqn:Est; [|done].
    destruct Es as [Es|Es]; [done|]. bools. apply zlen_0_nil in Es. subst removed. rewrite Forall_forall. split.
    + intros [Ht Hb]. split; [done|]. intros t Ht' Hb'. pose proof (proj2 (Hin t) (conj Ht' Hb')) as C. by apply elem_of_nil in C.
    + intros [Ht Hall]. split; [done|]. intros Hb. specialize (Hall _ Ht Hb). lia.
Qed.

(** [Filter] on an account without recharge transactions. *)
Lemma tl_Filter_plain cost gas black l removed invalids l' :
  sm_wf (txs l) -> capped l -> Forall (fun tx => is_u64 (AccountNonce tx)) (tl_list l) ->
  Forall (fun tx => plain_tx black tx = true /\ plain_tx false tx = true) (tl_list l) -> tl_Filter cost gas black l = ((removed, invalids), l') ->
  removed ≡ₚ filter (too_much cost gas) (tl_list l) /\ capped l' /\ sm_wf (txs l') /\
  tl_list l' = filter (stays (strict l) cost gas (tl_list l)) (tl_list l).
Proof.
  intros Hl Hc Hu Hp E. destruct (tl_Filter_split _ _ _ _ _ _ _ Hl E) as (Hw & Hst & Hperm).
  assert ((forall tx, tx ∈ removed <-> tx ∈ tl_list l /\ too_much cost gas tx) /\
    (forall tx, tx ∈ tl_list l' <-> tx ∈ tl_list l /\ stays (strict l) cost gas (tl_list l) tx) /\ capped l') as (Hr & Hin & Hc').
  { destruct ((costcap l <=? cost) && (gascap l <=? gas)) eqn:Eq.
    - unfold tl_Filter in E. rewrite Eq in E. simplify_eq. bools. unfold capped in Hc. rewrite Forall_forall in Hc.
      assert (forall tx, tx ∈ tl_list l' -> ~ too_much cost gas tx) as Hno by (intros tx Ht; specialize (Hc _ Ht); unfold too_much; lia).
      split; [intros tx; split; [by intros ?%elem_of_nil|naive_solver]|]. split; [|by apply Forall_forall]. intros tx. split; [|tauto]. intros Ht. split; [done|].
      unfold stays. destruct (strict l'); [|by apply Hno]. apply Forall_forall. intros t Ht' Hb. by apply Hno in Hb.
    - destruct (tl_Filter_members _ _ _ _ _ _ _ Hl Hu Hp Eq E) as (Hr & Hin & Hcc & Hgc). split; [done|]. split; [done|].
      apply Forall_forall. intros tx Ht. change (tx ∈ tl_list l') in Ht. apply Hin in Ht as [Ht Hs]. pose proof (stays_affordable _ _ _ _ _ Ht Hs) as Hn.
      unfold too_much in Hn. lia. }
  pose proof (tl_list_NoDup _ Hl) as Hnd. pose proof Hnd as Hnd'. rewrite <- Hperm in Hnd'. apply NoDup_app in Hnd' as (Hndr & _ & _).
  split; [|split; [done|split; [done|]]].
  - apply NoDup_Permutation; [done|by apply NoDup_filter|]. intros tx. rewrite Hr, list_elem_of_filter. tauto.
  - apply sm_list_unique; [done|apply sorted_filter, sm_list_sorted; done|]. intros tx. rewrite list_elem_of_filter, <- elem_of_sm_list by done.
    change (sm_list (txs l')) with (tl_list l'). rewrite Hin. tauto.
Qed.
End list_facts.

(** The transactions in front of a first one that goes are a prefix. *)
Lemma filter_prefix {A} (R : A -> A -> Prop) P `{!forall x : A, Decision (P x)} (l : list A) :
  StronglySorted R l -> (forall a b, R a b -> P b -> P a) -> exists k, filter P l = take k l.
Proof.
  intros Hs HP. induction Hs as [|x l Hs [k IH] Hx]; [by exists 0%nat|]. rewrite filter_cons. case_decide as Hd.
  - exists (S k). cbn. by rewrite IH.
  - exists 0%nat. rewrite take_0. destruct (filter P l) as [|y l'] eqn:E; [done|]. exfalso. apply Hd.
    assert (y ∈ filter P l) as [Hy Hin]%list_elem_of_filter by (rewrite E; constructor). rewrite Forall_forall in Hx. eauto.
Qed.

Lemma take_seqZ k a n : take k (seqZ a n) = seqZ a (Z.min (Z.of_nat k) (Z.max 0 n)).
Proof.
  apply list_eq. intros i. destruct (decide (i < k)%nat).
  - rewrite lookup_take_lt by done. destruct (decide (Z.of_nat i < n)).
    + rewrite (proj2 (lookup_seqZ _ _ _ (a + Z.of_nat i))) by lia. symmetry. apply lookup_seqZ. lia.
    + rewrite !lookup_seqZ_ge by lia. done.
  - rewrite lookup_take_ge by lia. symmetry. apply lookup_seqZ_ge. lia.
Qed.

(** when an account has no recharge transaction (and does not deploy the black
    contract), [Filter] returns exactly the transactions that cost more than the
    balance or need more gas than the block has, the caps stay upper bounds although
    the scan is skipped when they allow, and a strict list without gaps is left
    without gaps, at the front of the old one. *)
Theorem tl_Filter_exact `{!Codec} `{!SpvLib} `{!RangeOrder} cost gas black l removed invalids l' first :
  sm_wf (txs l) -> capped l -> Forall (fun tx => is_u64 (AccountNonce tx)) (tl_list l) ->
  Forall (fun tx => plain_tx black tx = true /\ plain_tx false tx = true) (tl_list l) -> tl_Filter cost gas black l = ((removed, invalids), l') ->
  removed ≡ₚ filter (too_much cost gas) (tl_list l) /\ capped l' /\ Forall (fun tx => ~ too_much cost gas tx) (tl_list l') /\
  removed ++ invalids ++ tl_list l' ≡ₚ tl_list l /\
  (strict l = false -> invalids = []) /\
  (strict l = true -> AccountNonce <$> tl_list l = seqZ first (zlen (tl_list l)) -> AccountNonce <$> tl_list l' = seqZ first (zlen (tl_list l'))).
Proof.
  intros Hl Hc Hu Hp E. destruct (tl_Filter_plain _ _ _ _ _ _ _ Hl Hc Hu Hp E) as (Hr & Hc' & Hw & Hl').
  destruct (tl_Filter_split _ _ _ _ _ _ _ Hl E) as (_ & _ & Hperm). split; [done|]. split; [done|]. split; [|split; [done|split]].
  - rewrite Hl'. apply Forall_forall. intros tx [Hs Ht]%list_elem_of_filter. by eapply stays_affordable.
  - intros Hst. unfold tl_Filter, on_txs in E. case_match; [by simplify_eq|]. cbn -[sm_Filter] in E. destruct (sm_Filter _ _ _ _). cbn in E. rewrite Hst in E. cbn in E. by simplify_eq.
  - intros Hst Hseq. rewrite Hst in Hl'. destruct (filter_prefix nonce_lt (stays true cost gas (tl_list l)) (tl_list l)) as [k Hk].
    + by apply sm_list_sorted.
    + unfold stays, nonce_lt. intros a b Hab. rewrite !Forall_forall. intros Hb t Ht Hm. specialize (Hb _ Ht Hm). lia.
    + rewrite Hl', Hk, fmap_take, Hseq, take_seqZ. f_equal. unfold zlen. rewrite length_take. lia.
Qed.

(** * The list by price *)
Lemma price_less_trans a b c : price_less b a = false -> price_less c b = false -> price_less c a = false.
Proof. unfold price_less. repeat case_match; bools; lia. Qed.

Section priced_facts.
Context `{!PriceHeap} (all : gmap bytes Transaction) (locals : gset Z).

Definition live (tx : Transaction) : Prop := is_stale all tx = false.
Definition remote (tx : Transaction) : Prop := containsTx locals tx = false.

#[export] Instance live_dec tx : Decision (live tx).
Proof. unfold live. apply _. Defined.

Lemma heap_root_cases items :
  match heap_root items with
  | None => items = []
  | Some (r, rest) => items ≡ₚ r :: rest /\ Forall (fun t => price_less t r = false) rest
  end.
Proof.
  destruct items as [|tx l]; [by rewrite heap_root_nil|]. by destruct (heap_root_some tx l) as (r & rest & -> & ? & ?).
Qed.

(** What the loop of [Discard] drops is the worst of what is live and remote; what
    it saves is local. *)
Lemma discard_loop_spec n count items stales dropped save rest stales' :
  (length items <= n)%nat -> 0 <= count ->
  discard_loop all locals n count items stales = (dropped, save, rest, stales') ->
  filter live items ≡ₚ dropped ++ filter live (save ++ rest) /\
  Forall (fun tx => live tx /\ remote tx) dropped /\ Forall (fun tx => ~ remote tx) save /\ zlen dropped <= count /\
  Forall (fun d => Forall (fun t => price_less t d = false) rest) dropped /\
  (zlen dropped < count -> rest = []) /\ (forall t, t ∈ rest -> t ∈ items).
Proof.
  revert count items stales dropped save rest stales'. induction n as [|n IH]; intros count items stales dropped save rest stales' Hn Hc E; cbn in E.
  { simplify_eq. destruct rest; [|cbn in Hn; lia]. repeat split; try done; unfold zlen; cbn; lia. }
  destruct (count <=? 0) eqn:Ec; bools.
  { simplify_eq. repeat split; try done; unfold zlen; cbn; lia. }
  pose proof (heap_root_cases items) as Hr. destruct (heap_root items) as [[r rest0]|].
  2:{ simplify_eq. repeat split; try done; unfold zlen; cbn; lia. }
  destruct Hr as [Hp Hlow]. pose proof (Permutation_length Hp) as Hlen. cbn in Hlen.
  rewrite Hp, filter_cons. destruct (is_stale all r) eqn:Es.
  { rewrite decide_False by (unfold live; congruence). apply IH in E as (H1 & H2 & H3 & H4 & H5 & H6 & H7); [|lia..].
    repeat (split; [done|]). intros t Ht. rewrite Hp. right. auto. }
  rewrite decide_True by done. destruct (containsTx locals r) eqn:El.
  - destruct (discard_loop all locals n count rest0 stales) as [[[d s] i] st] eqn:Ed. simplify_eq.
    apply IH in Ed as (H1 & H2 & H3 & H4 & H5 & H6 & H7); [|lia..]. split; [|split; [done|split; [|split; [done|split; [done|split; [done|]]]]]].
    + rewrite <- app_comm_cons, filter_cons, decide_True by done. rewrite H1. by rewrite Permutation_middle.
    + constructor; [|done]. unfold remote. congruence.
    + intros t Ht. rewrite Hp. right. auto.
  - destruct (discard_loop all locals n (count - 1) rest0 stales) as [[[d s] i] st] eqn:Ed. simplify_eq.
    apply IH in Ed as (H1 & H2 & H3 & H4 & H5 & H6 & H7); [|lia..].
    rewrite zlen_cons. split; [by rewrite H1|]. split; [by constructor|]. split; [done|]. split; [lia|]. split; [|split; [intros; apply H6; lia|intros t Ht; rewrite Hp; right; auto]].
    constructor; [|done]. apply Forall_forall. intros t Ht. rewrite Forall_forall in Hlow. auto.
Qed.

(** The same of [Cap]: it stops at the first live transaction that is not below the
    threshold. *)
Lemma cap_loop_spec n threshold items stales dropped save rest stales' :
  (length items <= n)%nat -> cap_loop all locals n threshold items stales = (dropped, save, rest, stales') ->
  filter live items ≡ₚ dropped ++ filter live (save ++ rest) /\ Forall (fun tx => live tx /\ remote tx /\ Price tx < threshold) dropped /\
  Forall (fun tx => ~ remote tx \/ threshold <= Price tx) (save ++ rest).
Proof.
  revert items stales dropped save rest stales'. induction n as [|n IH]; intros items stales dropped save rest stales' Hn E; cbn in E.
  { simplify_eq. destruct rest; [|cbn in Hn; lia]. done. }
  pose proof (heap_root_cases items) as Hr. destruct (heap_root items) as [[r rest0]|]; [|by simplify_eq].
  destruct Hr as [Hp Hlow]. pose proof (Permutation_length Hp) as Hlen. cbn in Hlen.
  rewrite Hp, filter_cons. destruct (is_stale all r) eqn:Es.
  { rewrite decide_False by (unfold live; congruence). eapply IH; [lia|exact E]. }
  rewrite decide_True by done. destruct (threshold <=? Price r) eqn:Et; bools.
  { simplify_eq. cbn [app]. rewrite filter_cons, decide_True by done. split; [done|]. split; [done|]. constructor; [by right|].
    eapply Forall_impl; [done|]. intros t Ht. right. cbn in Ht. unfold price_less in Ht. repeat case_match; bools; lia. }
  destruct (cap_loop all locals n threshold rest0 stales) as [[[d s] i] st] eqn:Ed. apply IH in Ed as (H1 & H2 & H3); [|lia].
  destruct (containsTx locals r) eqn:El; simplify_eq.
  - rewrite <- app_comm_cons, filter_cons, decide_True by done. rewrite H1, Permutation_middle. split; [done|]. split; [done|].
    constructor; [left; unfold remote; congruence|done].
  - rewrite H1. split; [done|]. split; [by constructor|done].
Qed.

(** The cheapest live transaction decides whether a remote one is underpriced. *)
Lemma skip_stale_spec n items stales items' stales' :
  (length items <= n)%nat -> skip_stale all n items stales = (items', stales') ->
  filter live items ≡ₚ filter live items' /\
  match heap_root items' with Some (r, _) => live r /\ Forall (fun t => price_less t r = false) items' | None => filter live items = [] end.
Proof.
  revert items stales. induction n as [|n IH]; intros items stales Hn E; cbn in E.
  { simplify_eq. destruct items'; [|cbn in Hn; lia]. by rewrite heap_root_nil. }
  pose proof (heap_root_cases items) as Hr. destruct (heap_root items) as [[r rest]|] eqn:Er.
  - destruct Hr as [Hp Hlow]. pose proof (Permutation_length Hp) as Hlen. cbn in Hlen. destruct (is_stale all r) eqn:Es.
    + apply IH in E as [H1 H2]; [|lia]. assert (filter live items ≡ₚ filter live rest) as Hf by (rewrite Hp, filter_cons, decide_False by (unfold live; congruence); done).
      split; [by rewrite Hf|]. destruct (heap_root items') as [[r' ?]|]; [done|]. rewrite H2 in Hf. by apply Permutation_nil_r.
    + simplify_eq. rewrite Er. split; [done|]. split; [done|]. rewrite Hp. constructor; [|done]. unfold price_less. repeat case_match; bools; lia.
  - simplify_eq. by rewrite Er.
Qed.
End priced_facts.

(** making room in a full pool drops the worst transactions of remote accounts:
    only live ones of remote accounts go, no more than asked for and fewer only when
    no other is left, every remaining live transaction of a remote account is at
    least as good as every dropped one, and nothing else is lost. *)
Theorem Discard_drops_worst `{!PriceHeap} all locals count l dropped l' :
  0 <= count -> Discard all locals count l = (dropped, l') ->
  filter (live all) (pl_items l) ≡ₚ dropped ++ filter (live all) (pl_items l') /\
  Forall (fun tx => live all tx /\ remote locals tx) dropped /\ zlen dropped <= count /\
  (forall d t, d ∈ dropped -> t ∈ pl_items l' -> remote locals t -> price_less t d = false) /\
  (zlen dropped < count -> Forall (fun tx => ~ remote locals tx) (pl_items l')).
Proof.
  unfold Discard. intros Hc E. destruct (discard_loop _ _ _ _ _ _) as [[[d s] i] st] eqn:Ed. simplify_eq.
  apply discard_loop_spec in Ed as (H1 & H2 & H3 & H4 & H5 & H6 & _); [|lia..]. cbn.
  split; [by rewrite (Permutation_app_comm i s)|]. split; [done|]. split; [done|]. rewrite Forall_forall in H3, H5. split.
  - intros x t Hx [Ht|Ht]%elem_of_app Hr; [|by apply H3 in Ht]. specialize (H5 _ Hx). rewrite Forall_forall in H5. auto.
  - intros Hlt. rewrite (H6 Hlt). by apply Forall_forall.
Qed.

(** ** A price heap *)
Fixpoint pick_worst (r : Transaction) (l : list Transaction) : Transaction * list Transaction :=
  match l with
  | [] => (r, [])
  | x :: l => if price_less x r then let (m, rest) := pick_worst x l in (m, r :: rest) else let (m, rest) := pick_worst r l in (m, x :: rest)
  end.

Lemma pick_worst_spec r l m rest :
  pick_worst r l = (m, rest) -> r :: l ≡ₚ m :: rest /\ price_less r m = false /\ Forall (fun t => price_less t m = false) rest.
Proof.
  revert r m rest. induction l as [|x l IH]; cbn; intros r m rest E.
  { simplify_eq. split; [done|]. split; [|constructor]. unfold price_less. repeat case_match; bools; lia. }
  destruct (price_less x r) eqn:Ex.
  - destruct (pick_worst x l) as [m' rest'] eqn:E'. simplify_eq. apply IH in E' as (H1 & H2 & H3). rewrite H1. split; [by rewrite Permutation_swap|].
    assert (price_less r m = false) as Hr by (eapply price_less_trans; [exact H2|]; revert Ex; unfold price_less; repeat case_match; bools; lia).
    split; [done|]. by constructor.
  - destruct (pick_worst r l) as [m' rest'] eqn:E'. simplify_eq. apply IH in E' as (H1 & H2 & H3). rewrite Permutation_swap, H1.
    split; [by rewrite Permutation_swap|]. split; [done|]. constructor; [|done]. by eapply price_less_trans.
Qed.

#[export] Instance list_price_heap : PriceHeap.
Proof.
  refine {| heap_root := fun l => match l with [] => None | x :: l => Some (pick_worst x l) end |}; [done|].
  intros tx l. destruct (pick_worst tx l) as [m rest] eqn:E. exists m, rest. apply pick_worst_spec in E as (? & _ & ?). done.
Defined.

(** ** Examples *)
Module ToyTxs.
(** A transfer of account 7, and the recharge transaction of some deposit. *)
Definition transfer (nonce price value : Z) : Transaction :=
  {| tx_Hash := [nonce; price; value]; AccountNonce := nonce; Price := price; GasLimit := 21000; Recipient := Some 9; Amount := value; Payload := []; Sender := inl 7 |}.

Definition recharge (nonce : Z) : Transaction :=
  {| tx_Hash := [nonce; 0; 0]; AccountNonce := nonce; Price := 1; GasLimit := 21000; Recipient := Some 0; Amount := 0; Payload := replicate 32 5; Sender := inl 7 |}.

Definition backwards : RangeOrder.
Proof. refine {| range_order := fun K V l => reverse l |}. intros K V l. apply reverse_Permutation. Defined.

Definition of_txs (strict : bool) (l : list Transaction) : txList := foldl (fun l tx => (tl_Add tx 10 l).2) (newTxList strict) l.

Lemma of_txs_wf strict l : sm_wf (txs (of_txs strict l)) /\ capped (of_txs strict l).
Proof.
  unfold of_txs. assert (sm_wf (txs (newTxList strict)) /\ capped (newTxList strict)) as H by (destruct (newTxList_capped strict); tauto).
  revert H. generalize (newTxList strict). induction l as [|tx l IH]; [done|]. intros m [Hw Hc]. cbn [foldl]. apply IH.
  destruct (tl_Add tx 10 m) as [[ok old] m'] eqn:E. pose proof (tl_Add_spec _ _ _ _ _ _ Hw E) as Ha. cbn. destruct ok; [|by destruct Ha as [-> _]].
  destruct Ha as (? & _ & _ & _ & ? & _). auto.
Qed.
End ToyTxs.

Section examples.
#[local] Existing Instances ToyCodec.codec ToySpv.lib.

(** Removing the last transaction of a strict list takes along one in front of it
    when the account has a recharge transaction, in one of the orders of the map:
    the loop goes on with the filter of the recharge transaction. *)
Lemma Remove_takes_lower_nonce :
  let l := ToyTxs.of_txs true [ToyTxs.transfer 0 5 1; ToyTxs.recharge 1; ToyTxs.transfer 2 5 1] in
  AccountNonce <$> (@tl_Remove _ _ list_range_order (ToyTxs.transfer 2 5 1) l).1.2 = [1; 0] /\
  AccountNonce <$> (@tl_Remove _ _ ToyTxs.backwards (ToyTxs.transfer 2 5 1) l).1.2 = [1].
Proof. by vm_compute. Qed.

(** A transaction that the account cannot pay stays in the list, or not, by the
    order of the map. *)
Lemma Filter_depends_on_order :
  let l := ToyTxs.of_txs false [ToyTxs.transfer 0 5 1; ToyTxs.recharge 1] in
  AccountNonce <$> tl_list (@tl_Filter _ _ list_range_order 100 30000 false l).2 = [0; 1] /\
  AccountNonce <$> tl_list (@tl_Filter _ _ ToyTxs.backwards 100 30000 false l).2 = [1].
Proof. by vm_compute. Qed.

#[local] Existing Instance list_range_order.

Lemma txSortedMap_refines_list_witness :
  let ops := [OpPut (ToyTxs.transfer 2 5 1); OpPut (ToyTxs.transfer 0 5 1); OpFlatten; OpRemove 3; OpPut (ToyTxs.transfer 3 5 1); OpRemove 3;
              OpPut (ToyTxs.transfer 1 5 1); OpFilter (fun tx => 1 <? AccountNonce tx) 30000 false; OpReady 0] in
  list_run ops [] (map_run ops newTxSortedMap).1 [] /\
  (map_run ops newTxSortedMap).1 = [OutNone; OutNone; OutTxs [ToyTxs.transfer 0 5 1; ToyTxs.transfer 2 5 1]; OutFound false; OutNone; OutFound true; OutNone;
                                    OutTxs [ToyTxs.transfer 2 5 1]; OutTxs [ToyTxs.transfer 0 5 1; ToyTxs.transfer 1 5 1]].
Proof.
  intros ops. split; [|by vm_compute]. refine (proj1 (txSortedMap_refines_list ops (map_run ops newTxSortedMap).1 (map_run ops newTxSortedMap).2 _)). by vm_compute.
Defined.

Lemma tl_Filter_exact_witness :
  let l := ToyTxs.of_txs true [ToyTxs.transfer 0 5 1; ToyTxs.transfer 1 9 1; ToyTxs.transfer 2 5 1] in
  let l' := (tl_Filter 120000 30000 false l).2 in
  AccountNonce <$> tl_list l' = seqZ 0 (zlen (tl_list l')) /\ zlen (tl_list l') = 1.
Proof.
  intros l l'. split; [|by vm_compute]. destruct (ToyTxs.of_txs_wf true [ToyTxs.transfer 0 5 1; ToyTxs.transfer 1 9 1; ToyTxs.transfer 2 5 1]) as [Hw Hc].
  destruct (tl_Filter_exact 120000 30000 false l (tl_Filter 120000 30000 false l).1.1 (tl_Filter 120000 30000 false l).1.2 l' 0 Hw Hc) as (_ & _ & _ & _ & _ & H).
  - apply Forall_forall. intros tx Ht. assert (forallb (fun t => bool_decide (is_u64 (AccountNonce t))) (tl_list l) = true) as Hb by (by vm_compute). rewrite forallb_forall in Hb.
    apply list_elem_of_In in Ht. by eapply bool_decide_eq_true, Hb.
  - apply Forall_forall. intros tx Ht. assert (forallb (fun t => plain_tx false t) (tl_list l) = true) as Hb by (by vm_compute). rewrite forallb_forall in Hb.
    apply list_elem_of_In in Ht. auto.
  - by vm_compute.
  - apply H; by vm_compute.
Defined.

Lemma Discard_drops_worst_witness :
  let all := <[ [0; 5; 1] := ToyTxs.transfer 0 5 1 ]> (<[ [1; 9; 1] := ToyTxs.transfer 1 9 1 ]> ∅) in
  let l := {| pl_items := [ToyTxs.transfer 1 9 1; ToyTxs.transfer 0 5 1]; pl_stales := 0 |} in
  (Discard all ∅ 1 l).1 = [ToyTxs.transfer 0 5 1] /\ zlen (Discard all ∅ 1 l).1 <= 1.
Proof.
  intros all l. split; [by vm_compute|]. refine (proj1 (proj2 (proj2 (Discard_drops_worst all ∅ 1 l (Discard all ∅ 1 l).1 (Discard all ∅ 1 l).2 _ _)))); [lia|by vm_compute].
Defined.
End examples.
