(* ===== verification/TxPool.v ===== *)
(** * [core/tx_pool.go]: the transaction pool

    The pending and queued transactions of each account, the table of all of them by
    hash and the list by price; validation and insertion, promotion, demotion, the
    limits of both lists, the removal of recharge transactions, the reset to a new
    head, and the loop that schedules the reorganisations.

    The chain, the state at a block, the size of a transaction, the main chain's
    minimal gas price and the blacklist are parameters.  Transactions carry the sender
    that the pool's signer recovers; the change of signer at a fork is not modelled.
    Metrics and log output are left out. *)
From S2P Require Import Prelude GoFloat Ela Messages Rlp Header Common AccessList StateDB StateSpec StateRefine Withdraw SmallCross Recharge Evm Transition TxList.

(** ** Errors and configuration *)
Definition ErrInvalidSender : string := "invalid sender".
Definition ErrUnderpriced : string := "transaction underpriced".
Definition ErrReplaceUnderpriced : string := "replacement transaction underpriced".
Definition ErrInsufficientFunds : string := "insufficient funds for gas * price + value".
Definition ErrGasLimit : string := "exceeds block gas limit".
Definition ErrNegativeValue : string := "negative value".
Definition ErrOversizedData : string := "oversized data".
Definition ErrFrozenAccount : string := "is frozen account".
Definition ErrLowGasPrice : string := "gasPrice too low".
Definition ErrMainChainInPowMode : string := "not support withdrawal by the main chain in POW consensus".
Definition known_transaction (hash : bytes) : string := "known transaction: " +:+ hex_encode hash.

Record TxPoolConfig := {
  Locals : list Z; NoLocals : bool; Journal : string; Rejournal : Z; PriceLimit : Z; PriceBump : Z;
  AccountSlots : Z; GlobalSlots : Z; AccountQueue : Z; GlobalQueue : Z; Lifetime : Z
}.

#[export] Instance TxPoolConfig_eta : Eta TxPoolConfig := fun c => {|
  Locals := Locals c; NoLocals := NoLocals c; Journal := Journal c; Rejournal := Rejournal c; PriceLimit := PriceLimit c; PriceBump := PriceBump c;
  AccountSlots := AccountSlots c; GlobalSlots := GlobalSlots c; AccountQueue := AccountQueue c; GlobalQueue := GlobalQueue c; Lifetime := Lifetime c
|}.

Definition DefaultTxPoolConfig : TxPoolConfig := {|
  Locals := []; NoLocals := false; Journal := "transactions.rlp"; Rejournal := 3600 * Second; PriceLimit := 1; PriceBump := 10;
  AccountSlots := 16; GlobalSlots := 4096; AccountQueue := 64; GlobalQueue := 1024; Lifetime := 3 * 3600 * Second
|}.

(** Each field is looked at alone. *)
Definition sanitize (conf : TxPoolConfig) : TxPoolConfig :=
  let at_least low x default := if x <? low then default else x in
  {| Locals := Locals conf; NoLocals := NoLocals conf; Journal := Journal conf;
     Rejournal := at_least Second (Rejournal conf) Second;
     PriceLimit := at_least 1 (PriceLimit conf) (PriceLimit DefaultTxPoolConfig);
     PriceBump := at_least 1 (PriceBump conf) (PriceBump DefaultTxPoolConfig);
     AccountSlots := at_least 1 (AccountSlots conf) (AccountSlots DefaultTxPoolConfig);
     GlobalSlots := at_least 1 (GlobalSlots conf) (GlobalSlots DefaultTxPoolConfig);
     AccountQueue := at_least 1 (AccountQueue conf) (AccountQueue DefaultTxPoolConfig);
     GlobalQueue := at_least 1 (GlobalQueue conf) (GlobalQueue DefaultTxPoolConfig);
     Lifetime := at_least 1 (Lifetime conf) (Lifetime DefaultTxPoolConfig) |}.

(** ** State *)

(** What the pool reads of the state at a block. *)
Record HeadState := { head_Nonce : Z -> Z; head_Balance : Z -> Z; head_State : Z -> bytes -> bytes }.

(** A block as the pool sees it; the same record stands for its header. *)
Record PoolBlock := { pb_Hash : bytes; pb_ParentHash : bytes; pb_Number : Z; pb_Root : bytes; pb_GasLimit : Z; pb_Txs : list Transaction }.

Record TxPool := {
  pending : gmap Z txList;
  queue : gmap Z txList;
  beats : gmap Z Z;
  all : gmap bytes Transaction;
  priced : txPricedList;
  locals : gset Z;
  gasPrice : Z;
  currentState : HeadState;
  pendingNonces : txNoncer;
  currentMaxGas : Z;
  pool_istanbul : bool;
  (** what was appended to the journal, when there is one *)
  journal : option (list Transaction);
  (** the SPV service that transactions are handed back to *)
  pool_spv : Spv;
  (** the transactions sent to the loop with [queueTxEvent] *)
  txEvents : list Transaction
}.

#[export] Instance TxPool_eta : Eta TxPool := fun p => {|
  pending := pending p; queue := queue p; beats := beats p; all := all p; priced := priced p; locals := locals p; gasPrice := gasPrice p;
  currentState := currentState p; pendingNonces := pendingNonces p; currentMaxGas := currentMaxGas p; pool_istanbul := pool_istanbul p;
  journal := journal p; pool_spv := pool_spv p; txEvents := txEvents p
|}.

Class PoolEnv := {
  user_config : TxPoolConfig;
  pool_BlackContractAddr : string;
  FrozeAccountList : list string;
  (** [blacklistChecker], when one is set *)
  IsBlacklisted : option (Z -> bool + string);
  (** [chainconfig.IsIstanbul] *)
  chain_IsIstanbul : Z -> bool;
  (** the chain *)
  CurrentBlock : PoolBlock;
  GetBlock : bytes -> Z -> option PoolBlock;
  (** the block with that hash and number; no chain is as long as [2 ^ 64 - 1] *)
  GetBlock_sound hash number b : GetBlock hash number = Some b -> pb_Hash b = hash /\ pb_Number b = number /\ 0 <= number < 2 ^ 64 - 1;
  StateAt : bytes -> HeadState + string;
  (** [tx.Size()], the length of the encoding *)
  tx_Size : Transaction -> Z;
  (** [SpvService.GetMinGasPrice] for the genesis, when there is a service; its height; and the mode of the main chain *)
  spv_GetMinGasPrice : option (Z -> Z + string);
  pool_SpvHeight : Z;
  pool_MainChainIsPowMode : bool;
  (** the client of [withdrawfailedtx] *)
  pool_withdraw_client : option Client
}.

(** [NewTxPool] keeps the sanitized configuration. *)
Definition config `{!PoolEnv} : TxPoolConfig := sanitize user_config.

(** ** Lookups *)
Definition sender_of (tx : Transaction) : Z := match Sender tx with inl addr => addr | inr _ => 0 end.

Definition txpool_contains (addr : Z) (p : TxPool) : bool := bool_decide (addr ∈ locals p).

Definition all_Add (tx : Transaction) (p : TxPool) : TxPool := p <| all := <[ tx_Hash tx := tx ]> (all p) |>.
Definition all_Remove (hash : bytes) (p : TxPool) : TxPool := p <| all := delete hash (all p) |>.
Definition all_Count (p : TxPool) : Z := Z.of_nat (base.size (all p)).

Section pool.
Context `{!Keccak} `{!Codec} `{!SpvLib} `{!RangeOrder} `{!PriceHeap} `{!PoolEnv}.

Definition priced_Removed (count : Z) (p : TxPool) : TxPool := p <| priced := pl_Removed (all p) count (priced p) |>.
Definition priced_Put (tx : Transaction) (p : TxPool) : TxPool := p <| priced := pl_Put tx (priced p) |>.

Definition list_Len (m : gmap Z txList) (addr : Z) : Z := match m !! addr with Some l => Z.of_nat (tl_Len l) | None => 0 end.
Definition lists_total (m : gmap Z txList) : Z := foldr (fun e n => u64 (Z.of_nat (tl_Len e.2) + n)) 0 (range_map m).

Definition stats (p : TxPool) : Z * Z := (lists_total (pending p), lists_total (queue p)).

(** [Flatten] of an account's list, which keeps the sorted list in its cache. *)
Definition flatten_queue (addr : Z) (p : TxPool) : list Transaction * TxPool :=
  match queue p !! addr with
  | None => ([], p)
  | Some l => let (txs, l) := tl_Flatten l in (txs, p <| queue := <[ addr := l ]> (queue p) |>)
  end.

(** ** Validation *)
Definition GetMinGasPrice (spvHeight : Z) : Z + string :=
  match spv_GetMinGasPrice with
  | None => inr "spv service is nil"
  | Some get => get (if spvHeight =? 0 then u32 pool_SpvHeight else spvHeight)
  end.

Definition isBlacklistedOnChain (from : Z) : bool + string := match IsBlacklisted with None => inl false | Some check => check from end.

Definition IsFrozenAccount (from : Z) : bool :=
  if existsb (fun account => bool_decide (Address_Hex from = account)) FrozeAccountList then true
  else match isBlacklistedOnChain from with inl blacklisted => blacklisted | inr _ => false end.

Definition matchesSelector (sel want : bytes) : bool :=
  if negb (zlen sel =? 4) || negb (zlen want =? 4) then false else bytes_Equal sel want.

Definition isERC20FromFrozen (tx : Transaction) (sender : Z) : bool :=
  match Recipient tx with
  | None => false
  | Some _ =>
      let data := Payload tx in
      if zlen data <? 4 then false
      else
        let selector := take 4 data in
        if matchesSelector selector [35; 184; 114; 221] || matchesSelector selector [251; 203; 192; 241] || matchesSelector selector [242; 213; 213; 107]
        then if 36 <=? zlen data then IsFrozenAccount (BytesToAddress (take 20 (drop 16 data))) else false
        else if matchesSelector selector [169; 5; 156; 187] || matchesSelector selector [183; 83; 169; 140] || matchesSelector selector [64; 0; 174; 160]
        then IsFrozenAccount sender
        else false
  end.

(** Whether the sender has to pay: recharge transactions, refunds of failed
    withdrawals and small cross-chain transactions are exempt.  The lookup of a
    withdrawal without recipient panics. *)
Definition exempt (to : Z) (tx : Transaction) : option bool :=
  if negb (zlen (Payload tx) =? 32) || negb (to =? 0) then
    if to =? 0 then
      '(isWithdrawRefund, _) ← IsWithdawFailedTx pool_withdraw_client (Payload tx) pool_BlackContractAddr;
      if (isWithdrawRefund : bool) then Some true
      else if 32 <? zlen (Payload tx) then let '(rawTxID, _, _, _) := IsSmallCrossTxByData (Payload tx) in Some (bool_decide (rawTxID <> EmptyString))
      else Some false
    else Some false
  else Some true.

(** The checks of the gas, of the frozen accounts and of the ERC-20 calls. *)
Definition validate_rest (tx : Transaction) (from : Z) (p : TxPool) : error :=
  match IntrinsicGas (Payload tx) (match Recipient tx with None => true | Some _ => false end) true (pool_istanbul p) with
  | inr err => New err
  | inl intrGas =>
      if GasLimit tx <? intrGas then New Transition.ErrIntrinsicGas
      else if IsFrozenAccount from then New ErrFrozenAccount
      else if match Recipient tx with Some to => IsFrozenAccount to || isERC20FromFrozen tx to | None => false end then New ErrFrozenAccount
      else if isERC20FromFrozen tx from then New ErrFrozenAccount
      else nil_err
  end.

Definition validateTx (tx : Transaction) (local : bool) (p : TxPool) : option error :=
  if 32 * 1024 <? tx_Size tx then Some (New ErrOversizedData)
  else if Amount tx <? 0 then Some (New ErrNegativeValue)
  else if currentMaxGas p <? GasLimit tx then Some (New ErrGasLimit)
  else match Sender tx with
  | inr _ => Some (New ErrInvalidSender)
  | inl from =>
      let local := local || txpool_contains from p in
      if negb local && (Price tx <? gasPrice p) then Some (New ErrUnderpriced)
      else if match GetMinGasPrice (u32 (pb_Number CurrentBlock)) with inl minGasPrice => Price tx <? minGasPrice | inr _ => false end then Some (New ErrLowGasPrice)
      else if AccountNonce tx <? head_Nonce (currentState p) from then Some (New ErrNonceTooLow)
      else
        let poor := head_Balance (currentState p) from <? tx_Cost tx in
        match Recipient tx with
        | Some to =>
            exempted ← exempt to tx;
            if negb exempted && poor then Some (New ErrInsufficientFunds)
            else if bool_decide (Address_Hex to = pool_BlackContractAddr) && pool_MainChainIsPowMode then Some (New ErrMainChainInPowMode)
            else Some (validate_rest tx from p)
        | None =>
            let contractAddr := CreateAddress from (head_Nonce (currentState p) from) in
            if negb (bool_decide (Address_Hex contractAddr = pool_BlackContractAddr)) && poor then Some (New ErrInsufficientFunds)
            else Some (validate_rest tx from p)
        end
  end.

(** ** Insertion and removal *)
Definition journalTx (from : Z) (tx : Transaction) (p : TxPool) : TxPool :=
  match journal p with
  | Some txs => if txpool_contains from p then p <| journal := Some (txs ++ [tx]) |> else p
  | None => p
  end.

Definition queueTxEvent (tx : Transaction) (p : TxPool) : TxPool := p <| txEvents := txEvents p ++ [tx] |>.

(** Whether a transaction was replaced, or the error. *)
Definition enqueueTx (hash : bytes) (tx : Transaction) (p : TxPool) : (bool + string) * TxPool :=
  let from := sender_of tx in
  let list := match queue p !! from with Some l => l | None => newTxList false end in
  let '((inserted, old), list) := tl_Add tx (PriceBump config) list in
  let p := p <| queue := <[ from := list ]> (queue p) |> in
  if negb inserted then (inr ErrReplaceUnderpriced, p)
  else
    let p := match old with Some o => priced_Removed 1 (all_Remove (tx_Hash o) p) | None => p end in
    let p := match all p !! hash with None => priced_Put tx (all_Add tx p) | Some _ => p end in
    (inl (match old with Some _ => true | None => false end), p).

(** [now] is the time of the call. *)
Definition promoteTx (now addr : Z) (hash : bytes) (tx : Transaction) (p : TxPool) : bool * TxPool :=
  let list := match pending p !! addr with Some l => l | None => newTxList true end in
  let '((inserted, old), list) := tl_Add tx (PriceBump config) list in
  let p := p <| pending := <[ addr := list ]> (pending p) |> in
  if negb inserted then (false, priced_Removed 1 (all_Remove hash p))
  else
    let p := match old with Some o => priced_Removed 1 (all_Remove (tx_Hash o) p) | None => p end in
    let p := match all p !! hash with None => priced_Put tx (all_Add tx p) | Some _ => p end in
    let p := p <| beats := <[ addr := now ]> (beats p) |> in
    (true, p <| pendingNonces := noncer_set addr (u64 (AccountNonce tx + 1)) (pendingNonces p) |>).

Definition enqueue_all (txs : list Transaction) (p : TxPool) : TxPool := foldl (fun p tx => (enqueueTx (tx_Hash tx) tx p).2) p txs.

Definition all_Remove_txs (txs : list Transaction) (p : TxPool) : TxPool := foldl (fun p tx => all_Remove (tx_Hash tx) p) p txs.

(** The entry of an account goes when its list is empty. *)
Definition drop_pending_if_empty (addr : Z) (p : TxPool) : TxPool :=
  match pending p !! addr with
  | Some l => if tl_Empty l then p <| pending := delete addr (pending p) |> <| beats := delete addr (beats p) |> else p
  | None => p
  end.

Definition drop_queue_if_empty (addr : Z) (p : TxPool) : TxPool :=
  match queue p !! addr with
  | Some l => if tl_Empty l then p <| queue := delete addr (queue p) |> else p
  | None => p
  end.

(** Whether [removeTx] found the transaction among the pending ones. *)
Definition remove_pending (addr : Z) (tx : Transaction) (p : TxPool) : option (list Transaction) * TxPool :=
  match pending p !! addr with
  | None => (None, p)
  | Some l =>
      let '((removed, invalids), l) := tl_Remove tx l in
      let p := p <| pending := <[ addr := l ]> (pending p) |> in
      (if (removed : bool) then Some invalids else None, p)
  end.

Definition removeTx (hash : bytes) (outofbound : bool) (p : TxPool) : TxPool :=
  match all p !! hash with
  | None => p
  | Some tx =>
      let addr := sender_of tx in
      let p := all_Remove hash p in
      let p := if outofbound then priced_Removed 1 p else p in
      let (removed, p) := remove_pending addr tx p in
      match removed with
      | Some invalids =>
          let p := drop_pending_if_empty addr p in
          let p := enqueue_all invalids p in
          p <| pendingNonces := noncer_setIfLower addr (AccountNonce tx) (pendingNonces p) |>
      | None =>
          match queue p !! addr with
          | Some future => let (_, future) := tl_Remove tx future in drop_queue_if_empty addr (p <| queue := <[ addr := future ]> (queue p) |>)
          | None => p
          end
      end
  end.

(** The deposit that a recharge transaction is for. *)
Definition recharge_hash (tx : Transaction) : string :=
  if zlen (Payload tx) =? 32 then hash_String (Payload tx) else let '(txhash, _, _, _) := IsSmallCrossTxByData (Payload tx) in txhash.

Definition UptxhashIndex (tx : Transaction) (p : TxPool) : option (bool * TxPool) :=
  match Recipient tx with
  | None => Some (false, p)
  | Some _ =>
      if IsRechargeTx tx then
        let txhash := recharge_hash tx in
        if bytes_Equal (head_State (currentState p) 0 (HexToHash txhash)) zero_hash
        then spv ← UpTransactionIndex txhash (pool_spv p); Some (true, p <| pool_spv := spv |>)
        else Some (false, p)
      else Some (false, p)
  end.

(** The recharge transactions of the queue go back to the SPV service. *)
Fixpoint drop_recharges (addr : Z) (queuetxs : list Transaction) (p : TxPool) : option TxPool :=
  match queuetxs with
  | [] => Some p
  | tx :: queuetxs =>
      if IsRechargeTx tx then
        '(_, p) ← UptxhashIndex tx p;
        let p := match queue p !! addr with Some future => p <| queue := <[ addr := (tl_Remove tx future).2 ]> (queue p) |> | None => p end in
        drop_recharges addr queuetxs p
      else drop_recharges addr queuetxs p
  end.

Definition RemoveLocalTx (hash : bytes) (outofbound removetx : bool) (p : TxPool) : option TxPool :=
  match all p !! hash with
  | None => Some p
  | Some tx =>
      let addr := sender_of tx in
      let p := all_Remove hash p in
      let p := if outofbound then priced_Removed 1 p else p in
      let (removed, p) := remove_pending addr tx p in
      p ← match removed with
          | None => Some p
          | Some invalids =>
              '(_, p) ← (if removetx then Some (false, p) else UptxhashIndex tx p);
              let p := drop_pending_if_empty addr p in
              let p := enqueue_all invalids p in
              let (x, nonces) := noncer_get addr (pendingNonces p) in
              let p := p <| pendingNonces := nonces |> in
              Some (if AccountNonce tx <? x then p <| pendingNonces := noncer_set addr (AccountNonce tx) nonces |> else p)
          end;
      match queue p !! addr with
      | None => Some p
      | Some _ =>
          let (queuetxs, p) := flatten_queue addr p in
          p ← drop_recharges addr queuetxs p;
          Some (drop_queue_if_empty addr p)
      end
  end.

Definition add_queued (tx : Transaction) (local : bool) (p : TxPool) : (bool + string) * TxPool :=
  let from := sender_of tx in
  match enqueueTx (tx_Hash tx) tx p with
  | (inr err, p) => (inr err, p)
  | (inl replaced, p) =>
      let p := if local && negb (txpool_contains from p) then p <| locals := {[ from ]} ∪ locals p |> else p in
      (inl replaced, journalTx from tx p)
  end.

(** [add] after the checks: a replacement of a pending transaction, or a queued one. *)
Definition add_checked (tx : Transaction) (local : bool) (p : TxPool) : (bool + string) * TxPool :=
  let from := sender_of tx in
  match pending p !! from with
  | Some list =>
      if Overlaps tx list then
        let '((inserted, old), list) := tl_Add tx (PriceBump config) list in
        let p := p <| pending := <[ from := list ]> (pending p) |> in
        if negb inserted then (inr ErrReplaceUnderpriced, p)
        else
          let p := match old with Some o => priced_Removed 1 (all_Remove (tx_Hash o) p) | None => p end in
          let p := queueTxEvent tx (journalTx from tx (priced_Put tx (all_Add tx p))) in
          (inl (match old with Some _ => true | None => false end), p)
      else add_queued tx local p
  | None => add_queued tx local p
  end.

(** Making room in a full pool: whether the transaction is too cheap for that. *)
Definition make_room (tx : Transaction) (local : bool) (p : TxPool) : bool * TxPool :=
  let limit := u64 (GlobalSlots config + GlobalQueue config) in
  if limit <=? all_Count p then
    let (underpriced, l) := if local then (false, priced p) else Underpriced (all p) (locals p) tx (priced p) in
    let p := p <| priced := l |> in
    if (underpriced : bool) then (true, p)
    else
      let (dropped, l) := Discard (all p) (locals p) (i64 (all_Count p - i64 (u64 (limit - 1)))) (priced p) in
      (false, foldl (fun p tx => removeTx (tx_Hash tx) false p) (p <| priced := l |>) dropped)
  else (false, p).

Definition add (tx : Transaction) (local : bool) (p : TxPool) : option ((bool + string) * TxPool) :=
  match all p !! tx_Hash tx with
  | Some _ => Some (inr (known_transaction (tx_Hash tx)), p)
  | None =>
      err ← validateTx tx local p;
      match err with
      | Some e => Some (inr e, p)
      | None => let (underpriced, p) := make_room tx local p in Some (if (underpriced : bool) then (inr ErrUnderpriced, p) else add_checked tx local p)
      end
  end.

(** The checks of a recharge transaction against the deposit it is for. *)
Definition recharge_error (tx : Transaction) (p : TxPool) : option error :=
  match Recipient tx with
  | Some to =>
      if (to =? 0) && IsRechargeTx tx then
        let txhash := recharge_hash tx in
        '(recharges, fee, err) ← GetRechargeDataByTxhash txhash (pool_spv p);
        let ethFee := GasLimit tx * Price tx in
        let err := if bytes_Equal (head_State (currentState p) 0 (HexToHash txhash)) zero_hash then err else New ErrMainTxHashPresence in
        let worthless recharge := negb (TargetAddress recharge =? 0) && ((Fee recharge <=? 0) && (TargetAmount recharge <=? 0)) in
        let err := if existsb worthless recharges then New ErrGasLimitReached else err in
        Some (if fee <? ethFee then New ErrGasLimitReached else err)
      else Some nil_err
  | None => Some nil_err
  end.

Definition addTx (a : gset Z) (tx : Transaction) : gset Z := match Sender tx with inl addr => {[ addr ]} ∪ a | inr _ => a end.

(** The errors and the accounts with new transactions. *)
Fixpoint addTxsLocked (txs : list Transaction) (local : bool) (dirty : gset Z) (p : TxPool) : option (list error * gset Z * TxPool) :=
  match txs with
  | [] => Some ([], dirty, p)
  | tx :: txs =>
      err ← recharge_error tx p;
      '(err, dirty, p) ←
        (match err with
         | Some e => Some (New e, dirty, p)
         | None =>
             '(r, p) ← add tx local p;
             Some (match r with inr e => (New e, dirty, p) | inl replaced => (nil_err, if (replaced : bool) then dirty else addTx dirty tx, p) end)
         end);
      '(errs, dirty, p) ← addTxsLocked txs local dirty p;
      Some (err :: errs, dirty, p)
  end.

(** The first check of [addTxs], before the lock is taken. *)
Definition precheck (tx : Transaction) (p : TxPool) : error :=
  match all p !! tx_Hash tx with
  | Some _ => New (known_transaction (tx_Hash tx))
  | None => match Sender tx with inr _ => New ErrInvalidSender | inl _ => nil_err end
  end.

(** The new errors go to the slots that are still empty. *)
Fixpoint merge_errs (errs newErrs : list error) : list error :=
  match errs, newErrs with
  | Some e :: errs, _ => Some e :: merge_errs errs newErrs
  | None :: errs, err :: newErrs => err :: merge_errs errs newErrs
  | _, _ => errs
  end.

(** The errors, and the accounts to promote when there is something to promote. *)
Definition addTxs (txs : list Transaction) (local : bool) (p : TxPool) : option (list error * option (gset Z) * TxPool) :=
  let errs := (fun tx => precheck tx p) <$> txs in
  let news := filter (fun tx => precheck tx p = nil_err) txs in
  match news with
  | [] => Some (errs, None, p)
  | _ =>
      '(newErrs, dirtyAddrs, p) ← addTxsLocked news local ∅ p;
      Some (merge_errs errs newErrs, Some dirtyAddrs, p)
  end.

Definition AddLocals (txs : list Transaction) (p : TxPool) := addTxs txs (negb (NoLocals config)) p.
Definition AddRemotes (txs : list Transaction) (p : TxPool) := addTxs txs false p.

(** ** Promotion and demotion *)

(** Whether the next contract of an account is the black one, as [Filter] asks. *)
Definition next_is_black (from gasLimit : Z) (p : TxPool) : bool :=
  bool_decide (Address_Hex (CreateAddress from (head_Nonce (currentState p) from)) = pool_BlackContractAddr) && (0 <? gasLimit) && negb (from =? 0).

Fixpoint promote_readies (now addr : Z) (readies : list Transaction) (p : TxPool) : list Transaction * TxPool :=
  match readies with
  | [] => ([], p)
  | tx :: readies =>
      let (ok, p) := promoteTx now addr (tx_Hash tx) tx p in
      let (promoted, p) := promote_readies now addr readies p in
      (if ok then tx :: promoted else promoted, p)
  end.

Definition promote_account (now addr : Z) (p : TxPool) : list Transaction * TxPool :=
  match queue p !! addr with
  | None => ([], p)
  | Some list =>
      let set_list l p := p <| queue := <[ addr := l ]> (queue p) |> in
      let (forwards, list) := tl_Forward (head_Nonce (currentState p) addr) list in
      let p := all_Remove_txs forwards (set_list list p) in
      let '((drops, _), list) := tl_Filter (head_Balance (currentState p) addr) (currentMaxGas p) (next_is_black addr (currentMaxGas p) p) list in
      let p := all_Remove_txs drops (set_list list p) in
      let (next, nonces) := noncer_get addr (pendingNonces p) in
      let p := p <| pendingNonces := nonces |> in
      let (readies, list) := tl_Ready next list in
      let (promoted, p) := promote_readies now addr readies (set_list list p) in
      let (caps, list) := if txpool_contains addr p then ([], list) else tl_Cap (Z.to_nat (i64 (AccountQueue config))) list in
      let p := all_Remove_txs caps (set_list list p) in
      let p := priced_Removed (zlen forwards + zlen drops + zlen caps) p in
      (promoted, drop_queue_if_empty addr p)
  end.

Fixpoint promoteExecutables (now : Z) (accounts : list Z) (p : TxPool) : list Transaction * TxPool :=
  match accounts with
  | [] => ([], p)
  | addr :: accounts =>
      let (promoted, p) := promote_account now addr p in
      let (promoted', p) := promoteExecutables now accounts p in
      (promoted ++ promoted', p)
  end.

Definition demote_account (addr : Z) (p : TxPool) : TxPool :=
  match pending p !! addr with
  | None => p
  | Some list =>
      let set_list l p := p <| pending := <[ addr := l ]> (pending p) |> in
      let nonce := head_Nonce (currentState p) addr in
      let (olds, list) := tl_Forward nonce list in
      let p := all_Remove_txs olds (set_list list p) in
      let '((drops, invalids), list) := tl_Filter (head_Balance (currentState p) addr) (currentMaxGas p) (next_is_black addr (currentMaxGas p) p) list in
      let p := all_Remove_txs drops (set_list list p) in
      let p := priced_Removed (zlen olds + zlen drops) p in
      let p := enqueue_all invalids p in
      let (gapped, list) := if negb (tl_Empty list) && (match sm_Get nonce (txs list) with None => true | Some _ => false end) then tl_Cap 0 list else ([], list) in
      let p := enqueue_all gapped (set_list list p) in
      drop_pending_if_empty addr p
  end.

Definition demoteUnexecutables (p : TxPool) : TxPool := foldl (fun p addr => demote_account addr p) p (fst <$> range_map (pending p)).

(** ** Limits *)

Definition drop_capped (addr : Z) (p : TxPool) (tx : Transaction) : TxPool :=
  let p := all_Remove (tx_Hash tx) p in p <| pendingNonces := noncer_setIfLower addr (AccountNonce tx) (pendingNonces p) |>.

(** The last transaction of an offender goes. *)
Definition cap_offender (addr : Z) (p : TxPool) : TxPool :=
  match pending p !! addr with
  | None => p
  | Some list =>
      let (caps, list) := tl_Cap (tl_Len list - 1) list in
      let p := p <| pending := <[ addr := list ]> (pending p) |> in
      let p := foldl (drop_capped addr) p caps in
      priced_Removed (zlen caps) p
  end.

Definition cap_offenders (offenders : list Z) (count : Z) (p : TxPool) : Z * TxPool :=
  foldl (fun cp addr => (u64 (cp.1 - 1), cap_offender addr cp.2)) (count, p) offenders.

(** Rounds over the offenders while there are too many transactions and the last of
    them has more than [threshold]; each round takes one from it. *)
Fixpoint cap_rounds (rounds : nat) (offenders : list Z) (threshold : Z) (count : Z) (p : TxPool) : Z * TxPool :=
  match rounds with
  | O => (count, p)
  | S rounds =>
      if (GlobalSlots config <? count) && (threshold <? list_Len (pending p) (List.last offenders 0)) then
        let (count, p) := cap_offenders offenders count p in cap_rounds rounds offenders threshold count p
      else (count, p)
  end.

(** As many rounds as the last offender has transactions. *)
Definition rounds_for (offenders : list Z) (p : TxPool) : nat := Z.to_nat (list_Len (pending p) (List.last offenders 0)).

Fixpoint drop_offenders (spammers offenders : list Z) (count : Z) (p : TxPool) : list Z * (Z * TxPool) :=
  match spammers with
  | [] => (offenders, (count, p))
  | offender :: spammers =>
      if GlobalSlots config <? count then
        let (count, p) := match offenders with [] => (count, p) | _ => cap_rounds (rounds_for offenders p) offenders (list_Len (pending p) offender) count p end in
        drop_offenders spammers (offenders ++ [offender]) count p
      else (offenders, (count, p))
  end.

(** [prque]: the accounts with the most transactions first. *)
Definition more_txs (a b : Z * txList) : Prop := (tl_Len b.2 <= tl_Len a.2)%nat.

#[export] Instance more_txs_dec a b : Decision (more_txs a b).
Proof. unfold more_txs. apply _. Defined.

Definition spammers (p : TxPool) : list Z :=
  fst <$> merge_sort more_txs (filter (fun e => negb (txpool_contains e.1 p) && (AccountSlots config <? Z.of_nat (tl_Len e.2)) = true) (range_map (pending p))).

Definition truncatePending (p : TxPool) : TxPool :=
  let count := lists_total (pending p) in
  if count <=? GlobalSlots config then p
  else
    let '(offenders, (count, p)) := drop_offenders (spammers p) [] count p in
    if (GlobalSlots config <? count) && (0 <? zlen offenders) then (cap_rounds (rounds_for offenders p) offenders (AccountSlots config) count p).2 else p.

(** Accounts with their last heartbeat, the oldest first; a missing one is the zero time. *)
Definition zero_time : Z := time_Unix (-62135596800).

Definition earlier (a b : Z * Z) : Prop := a.2 <= b.2.

#[export] Instance earlier_dec a b : Decision (earlier a b).
Proof. unfold earlier. apply _. Defined.

Definition addressesByHeartbeat (p : TxPool) : list Z :=
  fst <$> merge_sort earlier ((fun addr => (addr, default zero_time (beats p !! addr))) <$> filter (fun addr => addr ∉ locals p) (fst <$> range_map (queue p))).

Definition remove_txs (txs : list Transaction) (p : TxPool) : TxPool := foldl (fun p tx => removeTx (tx_Hash tx) true p) p txs.

(** From the last address on. *)
Fixpoint drop_queued (addresses : list Z) (drop : Z) (p : TxPool) : TxPool :=
  match addresses with
  | [] => p
  | addr :: addresses =>
      if 0 <? drop then
        let size := list_Len (queue p) addr in
        let (txs, p) := flatten_queue addr p in
        if size <=? drop then drop_queued addresses (drop - size) (remove_txs txs p)
        else drop_queued addresses 0 (remove_txs (take (Z.to_nat drop) (reverse txs)) p)
      else p
  end.

Definition truncateQueue (p : TxPool) : TxPool :=
  let queued := lists_total (queue p) in
  if queued <=? GlobalQueue config then p else drop_queued (reverse (addressesByHeartbeat p)) (queued - GlobalQueue config) p.

Definition SetGasPrice (price : Z) (p : TxPool) : TxPool :=
  let p := p <| gasPrice := price |> in
  let (dropped, l) := pl_Cap (all p) (locals p) price (priced p) in
  foldl (fun p tx => removeTx (tx_Hash tx) false p) (p <| priced := l |>) dropped.

(** The tick of the eviction timer. *)
Definition evict_account (now addr : Z) (p : TxPool) : TxPool :=
  if txpool_contains addr p then p
  else if Lifetime config <? Sub now (default zero_time (beats p !! addr)) then
    match queue p !! addr with
    | Some _ => let (txs, p) := flatten_queue addr p in remove_txs txs p
    | None => p
    end
  else p.

Definition evict (now : Z) (p : TxPool) : TxPool := foldl (fun p addr => evict_account now addr p) p (fst <$> range_map (queue p)).

(** ** Reset to a new head *)

(** What the walk down two branches ends with: the blocks it meets and the
    transactions on the way, a missing block, or no end within the steps given. *)
Inductive Walk := Met (rem add : PoolBlock) (discarded included : list Transaction) | Unrooted | Unfinished.

(** From [b] down to the height [target]. *)
Fixpoint descend (n : nat) (target : Z) (b : PoolBlock) (txs : list Transaction) : option (option (PoolBlock * list Transaction)) :=
  if target <? pb_Number b then
    match n with
    | O => None
    | S n =>
        match GetBlock (pb_ParentHash b) (u64 (pb_Number b - 1)) with
        | None => Some None
        | Some b' => descend n target b' (txs ++ pb_Txs b)
        end
    end
  else Some (Some (b, txs)).

Fixpoint meet (n : nat) (rem add : PoolBlock) (discarded included : list Transaction) : Walk :=
  if bytes_Equal (pb_Hash rem) (pb_Hash add) then Met rem add discarded included
  else match n with
  | O => Unfinished
  | S n =>
      match GetBlock (pb_ParentHash rem) (u64 (pb_Number rem - 1)), GetBlock (pb_ParentHash add) (u64 (pb_Number add - 1)) with
      | Some rem', Some add' => meet n rem' add' (discarded ++ pb_Txs rem) (included ++ pb_Txs add)
      | _, _ => Unrooted
      end
  end.

(** One step more than there are blocks below. *)
Definition blocks_below (b : PoolBlock) : nat := S (Z.to_nat (pb_Number b)).

Definition walk (rem add : PoolBlock) : Walk :=
  match descend (blocks_below rem) (pb_Number add) rem [] with
  | None => Unfinished
  | Some None => Unrooted
  | Some (Some (rem, discarded)) =>
      match descend (blocks_below add) (pb_Number rem) add [] with
      | None => Unfinished
      | Some None => Unrooted
      | Some (Some (add, included)) => meet (blocks_below rem) rem add discarded included
      end
  end.

Definition TxDifference (a b : list Transaction) : list Transaction := filter (fun tx => tx_Hash tx ∉ tx_Hash <$> b) a.

(** The transactions to inject again, or nothing when the reset ends here; the new
    head's block has to be there. *)
Definition reinjected (oldHead : option PoolBlock) (newHead : option PoolBlock) : option (option (list Transaction)) :=
  match oldHead with
  | None => Some (Some [])
  | Some oldHead =>
      newHead ← newHead;
      if bytes_Equal (pb_Hash oldHead) (pb_ParentHash newHead) then Some (Some [])
      else if 64 <? Z.abs (f64_trunc (f64_sub (f64_of_Z (pb_Number oldHead)) (f64_of_Z (pb_Number newHead)))) then Some (Some [])
      else match GetBlock (pb_Hash oldHead) (pb_Number oldHead), GetBlock (pb_Hash newHead) (pb_Number newHead) with
      | None, _ => Some None
      | Some _, None => None
      | Some rem, Some add =>
          match walk rem add with
          | Met _ _ discarded included => Some (Some (TxDifference discarded included))
          | Unrooted => Some None
          | Unfinished => None
          end
      end
  end.

Definition reset (oldHead newHead : option PoolBlock) (p : TxPool) : option TxPool :=
  reinject ← reinjected oldHead newHead;
  match reinject with
  | None => Some p
  | Some reinject =>
      let newHead := default CurrentBlock newHead in
      match StateAt (pb_Root newHead) with
      | inr _ => Some p
      | inl statedb =>
          let p := p <| currentState := statedb |> <| pendingNonces := newTxNoncer (head_Nonce statedb) |> <| currentMaxGas := pb_GasLimit newHead |> in
          '(_, _, p) ← addTxsLocked reinject false ∅ p;
          Some (p <| pool_istanbul := chain_IsIstanbul (pb_Number newHead + 1) |>)
      end
  end.

(** ** Reorganisation *)
Definition put_event (events : gmap Z txSortedMap) (tx : Transaction) : gmap Z txSortedMap :=
  let addr := sender_of tx in <[ addr := sm_Put tx (default newTxSortedMap (events !! addr)) ]> events.

(** The events of transactions that the new state has already. *)
Definition forward_event (acc : gmap Z txSortedMap * TxPool) (addr : Z) : gmap Z txSortedMap * TxPool :=
  let (events, p) := acc in
  match events !! addr with
  | None => acc
  | Some m =>
      let (next, nonces) := noncer_get addr (pendingNonces p) in
      let (_, m) := sm_Forward next m in
      (if (sm_Len m =? 0)%nat then delete addr events else <[ addr := m ]> events, p <| pendingNonces := nonces |>)
  end.

(** The pending nonce after the last transaction of each list; an empty list panics. *)
Fixpoint update_nonces (addrs : list Z) (p : TxPool) : option TxPool :=
  match addrs with
  | [] => Some p
  | addr :: addrs =>
      match pending p !! addr with
      | None => update_nonces addrs p
      | Some l =>
          let (txs, l) := tl_Flatten l in
          tx ← last txs;
          update_nonces addrs (p <| pending := <[ addr := l ]> (pending p) |> <| pendingNonces := noncer_set addr (u64 (AccountNonce tx + 1)) (pendingNonces p) |>)
      end
  end.

Definition all_events (events : gmap Z txSortedMap) : list Transaction := concat ((fun e => (sm_Flatten e.2).1) <$> range_map events).

(** The transactions that are announced, and the pool. *)
Definition runReorg (now : Z) (rst : option (option PoolBlock * option PoolBlock)) (dirtyAccounts : option (gset Z)) (events : gmap Z txSortedMap) (p : TxPool)
    : option (list Transaction * TxPool) :=
  let flatten (a : gset Z) := fst <$> range_order ((fun addr => (addr, tt)) <$> elements a) in
  let promoteAddrs := match dirtyAccounts with Some a => flatten a | None => [] end in
  '(promoteAddrs, events, p) ←
    (match rst with
     | None => Some (promoteAddrs, events, p)
     | Some (oldHead, newHead) =>
         p ← reset oldHead newHead p;
         let (events, p) := foldl forward_event (events, p) (fst <$> range_map events) in
         Some (fst <$> range_map (queue p), events, p)
     end);
  let (promoted, p) := promoteExecutables now promoteAddrs p in
  let events := foldl put_event events promoted in
  let p := match rst with Some _ => demoteUnexecutables p | None => p end in
  let p := truncateQueue (truncatePending p) in
  p ← update_nonces (fst <$> range_map (pending p)) p;
  Some (all_events events, p).

(** ** Queries *)
Inductive TxStatus := TxStatusUnknown | TxStatusQueued | TxStatusPending | TxStatusIncluded.

Definition pool_Get (hash : bytes) (p : TxPool) : option Transaction := all p !! hash.

Definition Status (hash : bytes) (p : TxPool) : TxStatus :=
  match pool_Get hash p with
  | None => TxStatusUnknown
  | Some tx =>
      let held m := match m !! sender_of tx with Some l => match sm_Get (AccountNonce tx) (txs l) with Some _ => true | None => false end | None => false end in
      if held (pending p) then TxStatusPending else if held (queue p) then TxStatusQueued else TxStatusUnknown
  end.

Definition flatten_lists (m : gmap Z txList) : gmap Z (list Transaction) := (fun l => (tl_Flatten l).1) <$> m.
Definition Content (p : TxPool) : gmap Z (list Transaction) * gmap Z (list Transaction) := (flatten_lists (pending p), flatten_lists (queue p)).
Definition Pending (p : TxPool) : gmap Z (list Transaction) := flatten_lists (pending p).

(** The transactions of the local accounts, for the journal. *)
Definition local_txs (p : TxPool) : list (Z * list Transaction) :=
  let held m addr := match m !! addr with Some l => (tl_Flatten l).1 | None => [] end in
  (fun addr => (addr, held (pending p) addr ++ held (queue p) addr)) <$>
    filter (fun addr => is_Some (pending p !! addr) \/ is_Some (queue p !! addr)) (elements (locals p)).

(** ** The loop that schedules reorganisations *)

(** What the next run is given. *)
Record Reorg := { r_reset : option (option PoolBlock * option PoolBlock); r_dirty : option (gset Z); r_events : gmap Z txSortedMap }.

#[export] Instance Reorg_eta : Eta Reorg := fun r => {| r_reset := r_reset r; r_dirty := r_dirty r; r_events := r_events r |}.

Definition no_reorg : Reorg := {| r_reset := None; r_dirty := None; r_events := ∅ |}.

(** [active] is the run in the background. *)
Record Scheduler := { active : option Reorg; launchNextRun : bool; next_run : Reorg }.

#[export] Instance Scheduler_eta : Eta Scheduler := fun s => {| active := active s; launchNextRun := launchNextRun s; next_run := next_run s |}.

Inductive Request := ReqReset (oldHead newHead : option PoolBlock) | ReqPromote (accounts : gset Z) | ReqEvent (tx : Transaction) | RunDone.

(** The top of the loop. *)
Definition launch (s : Scheduler) : Scheduler :=
  match active s with
  | None => if launchNextRun s then {| active := Some (next_run s); launchNextRun := false; next_run := no_reorg |} else s
  | Some _ => s
  end.

Definition select (req : Request) (s : Scheduler) : Scheduler :=
  let r := next_run s in
  match req with
  | ReqReset oldHead newHead =>
      let reset := match r_reset r with None => (oldHead, newHead) | Some (old, _) => (old, newHead) end in
      s <| next_run := r <| r_reset := Some reset |> |> <| launchNextRun := true |>
  | ReqPromote accounts =>
      let dirty := match r_dirty r with None => accounts | Some d => d ∪ accounts end in
      s <| next_run := r <| r_dirty := Some dirty |> |> <| launchNextRun := true |>
  | ReqEvent tx => s <| next_run := r <| r_events := put_event (r_events r) tx |> |>
  | RunDone => s <| active := None |>
  end.

Definition scheduleReorgLoop (reqs : list Request) (s : Scheduler) : Scheduler := foldl (fun s req => select req (launch s)) s reqs.

(** ** A new pool

    The loading of the journal is not modelled: [jr] is what the journal has.  A first
    reset that cannot read the state leaves the pool without one, which the next use
    panics on. *)
Definition NewTxPool (spv : Spv) (jr : option (list Transaction)) : option TxPool :=
  match StateAt (pb_Root CurrentBlock) with
  | inr _ => None
  | inl statedb =>
      reset None (Some CurrentBlock)
        {| pending := ∅; queue := ∅; beats := ∅; all := ∅; priced := newTxPricedList; locals := list_to_set (Locals config); gasPrice := PriceLimit config;
           currentState := statedb; pendingNonces := newTxNoncer (head_Nonce statedb); currentMaxGas := 0; pool_istanbul := false; journal := jr;
           pool_spv := spv; txEvents := [] |}
  end.
End pool.

(** * The table of all transactions and the lists agree *)

(** ** The transaction of an account at a nonce *)
#[export] Instance Transaction_eq_dec : EqDecision Transaction.
Proof. solve_decision. Defined.

Definition cell (m : gmap Z txList) (addr nonce : Z) : option Transaction :=
  match m !! addr with Some l => sm_items (txs l) !! nonce | None => None end.

Definition held (m : gmap Z txList) (tx : Transaction) : Prop := cell m (sender_of tx) (AccountNonce tx) = Some tx.

Definition slot (tx : Transaction) : Z * Z := (sender_of tx, AccountNonce tx).

Definition list_ok (b : bool) (addr : Z) (l : txList) : Prop :=
  sm_wf (txs l) /\ strict l = b /\ Forall (fun tx => Sender tx = inl addr) (tl_list l).

(** The two maps of lists and the table, with the transactions [X] that are in the
    table but in no list: those an operation has taken out of a list and not yet put
    elsewhere. *)
Record agree (X : list Transaction) (b : bool) (P : gmap Z txList) (b' : bool) (Q : gmap Z txList) (A : gmap bytes Transaction) : Prop := {
  agree_P : map_Forall (list_ok b) P;
  agree_Q : map_Forall (list_ok b') Q;
  agree_disjoint : forall addr nonce, cell P addr nonce = None \/ cell Q addr nonce = None;
  agree_slots : NoDup (slot <$> X);
  agree_flight : forall tx, tx ∈ X -> Sender tx = inl (sender_of tx) /\ cell P (sender_of tx) (AccountNonce tx) = None /\ cell Q (sender_of tx) (AccountNonce tx) = None;
  agree_all : forall hash tx, A !! hash = Some tx <-> tx_Hash tx = hash /\ (held P tx \/ held Q tx \/ tx ∈ X)
}.

Lemma agree_sym X b P b' Q A : agree X b P b' Q A -> agree X b' Q b P A.
Proof.
  intros [H1 H2 H3 H4 H5 H6]. split; try done.
  - intros a n. destruct (H3 a n); tauto.
  - intros tx Hx. destruct (H5 tx Hx) as (? & ? & ?). done.
  - intros h tx. rewrite H6. tauto.
Qed.

Lemma agree_perm X X' b P b' Q A : X ≡ₚ X' -> agree X b P b' Q A -> agree X' b P b' Q A.
Proof.
  intros Hp [H1 H2 H3 H4 H5 H6]. split; try done.
  - by rewrite <- Hp.
  - intros tx Hx. apply H5. by rewrite Hp.
  - intros h tx. rewrite H6, Hp. done.
Qed.

Lemma cell_insert m a l a' n : cell (<[ a := l ]> m) a' n = if decide (a = a') then sm_items (txs l) !! n else cell m a' n.
Proof. unfold cell. rewrite lookup_insert. by case_decide. Qed.

Lemma tl_Empty_items l : tl_Empty l = true -> sm_items (txs l) = ∅.
Proof. unfold tl_Empty, tl_Len, sm_Len. intros H%Nat.eqb_eq. by apply map_size_empty_inv. Qed.

Lemma tl_Empty_list l : sm_wf (txs l) -> tl_Empty l = bool_decide (tl_list l = []).
Proof.
  intros Hw. unfold tl_Empty, tl_Len, sm_Len. rewrite <- index_size, <- sm_list_length by done. unfold tl_list.
  destruct (sm_list (txs l)); done.
Qed.

Lemma cell_delete_empty m a l a' n : m !! a = Some l -> tl_Empty l = true -> cell (delete a m) a' n = cell m a' n.
Proof.
  intros Hl He. unfold cell. rewrite lookup_delete. case_decide as E; [|done]. subst. rewrite Hl, tl_Empty_items by done. by rewrite lookup_empty.
Qed.

Section agree_facts.
Context (X : list Transaction) (b : bool) (P : gmap Z txList) (b' : bool) (Q : gmap Z txList) (A : gmap bytes Transaction).

Lemma cell_ok a n tx : map_Forall (list_ok b) P -> cell P a n = Some tx -> Sender tx = inl a /\ AccountNonce tx = n.
Proof.
  unfold cell. intros HP. destruct (P !! a) as [l|] eqn:E; [|done]. destruct (HP _ _ E) as (Hw & _ & Hs). intros Ht.
  pose proof (wf_keyed _ Hw _ _ Ht) as Hn. split; [|done]. rewrite Forall_forall in Hs. apply Hs, elem_of_sm_list; [done|]. by rewrite Hn.
Qed.

Lemma cell_held a n tx : map_Forall (list_ok b) P -> cell P a n = Some tx -> held P tx /\ sender_of tx = a /\ AccountNonce tx = n.
Proof. intros HP E. destruct (cell_ok _ _ _ HP E) as [Hs Hn]. unfold held, sender_of. by rewrite Hs, Hn. Qed.

(** Updating a list in a way that keeps its transactions. *)
Lemma agree_insert_same a l l' :
  agree X b P b' Q A -> P !! a = Some l -> list_ok b a l' -> sm_items (txs l') = sm_items (txs l) -> agree X b (<[ a := l' ]> P) b' Q A.
Proof.
  intros [H1 H2 H3 H4 H5 H6] Hl Hok Hi.
  assert (forall a' n, cell (<[ a := l' ]> P) a' n = cell P a' n) as Hc.
  { intros a' n. rewrite cell_insert. case_decide; [|done]. subst. unfold cell. by rewrite Hl, Hi. }
  split; try done; [by apply map_Forall_insert_2|intros; by rewrite Hc|intros tx Hx; by rewrite Hc; apply H5|].
  intros h tx. unfold held. rewrite Hc. apply H6.
Qed.

(** An empty list goes. *)
Lemma agree_delete_empty a l : agree X b P b' Q A -> P !! a = Some l -> tl_Empty l = true -> agree X b (delete a P) b' Q A.
Proof.
  intros [H1 H2 H3 H4 H5 H6] Hl He. pose proof (fun a' n => cell_delete_empty P a l a' n Hl He) as Hc.
  split; try done; [by apply map_Forall_delete|intros; by rewrite Hc|intros tx Hx; by rewrite Hc; apply H5|].
  intros h tx. unfold held. rewrite Hc. apply H6.
Qed.

(** Taking transactions out of a list. *)
Definition splits (l : txList) (out : list Transaction) (l' : txList) : Prop :=
  sm_wf (txs l') /\ strict l' = strict l /\ out ++ tl_list l' ≡ₚ tl_list l.

Lemma splits_lookup l out l' n tx :
  sm_wf (txs l) -> splits l out l' -> sm_items (txs l') !! n = Some tx <-> sm_items (txs l) !! n = Some tx /\ tx ∉ out.
Proof.
  intros Hw (Hw' & _ & Hp). pose proof (tl_list_NoDup _ Hw) as Hnd. rewrite <- Hp in Hnd. apply NoDup_app in Hnd as (_ & Hd & _). split.
  - intros Ht. pose proof (wf_keyed _ Hw' _ _ Ht) as Hn. assert (tx ∈ tl_list l') as Hin by (apply elem_of_sm_list; [done|]; by rewrite Hn).
    split; [|intros C; by apply (Hd tx)]. assert (tx ∈ tl_list l) as Hl by (rewrite <- Hp; set_solver).
    apply elem_of_sm_list in Hl; [|done]. by rewrite Hn in Hl.
  - intros [Ht Ho]. pose proof (wf_keyed _ Hw _ _ Ht) as Hn. assert (tx ∈ tl_list l) as Hin by (apply elem_of_sm_list; [done|]; by rewrite Hn).
    rewrite <- Hp in Hin. apply elem_of_app in Hin as [Hin|Hin]; [done|]. apply elem_of_sm_list in Hin; [|done]. by rewrite Hn in Hin.
Qed.
End agree_facts.

Section agree_steps.
Context (X : list Transaction) (b : bool) (P : gmap Z txList) (b' : bool) (Q : gmap Z txList) (A : gmap bytes Transaction).

Lemma list_ok_splits a l out l' : list_ok b a l -> splits l out l' -> list_ok b a l'.
Proof.
  intros (Hw & Hb & Hs) (Hw' & Hb' & Hp). split; [done|]. split; [congruence|]. rewrite <- Hp in Hs. by apply Forall_app in Hs as [_ Hs].
Qed.

Lemma agree_take a l out l' : agree X b P b' Q A -> P !! a = Some l -> splits l out l' -> agree (out ++ X) b (<[ a := l' ]> P) b' Q A.
Proof.
  intros [H1 H2 H3 H4 H5 H6] Hl Hs. pose proof (H1 _ _ Hl) as Hok. pose proof Hok as (Hw & _ & Hsend).
  assert (forall n tx, sm_items (txs l') !! n = Some tx <-> sm_items (txs l) !! n = Some tx /\ tx ∉ out) as Hlook by (intros; by apply splits_lookup).
  assert (forall tx, tx ∈ out -> Sender tx = inl a /\ sm_items (txs l) !! AccountNonce tx = Some tx) as Hout.
  { intros tx Hx. assert (tx ∈ tl_list l) as Hin by (destruct Hs as (_ & _ & <-); set_solver). rewrite Forall_forall in Hsend. split; [by apply Hsend|]. by apply elem_of_sm_list in Hin. }
  assert (forall a' n tx, cell (<[ a := l' ]> P) a' n = Some tx -> cell P a' n = Some tx) as Hsub.
  { intros a' n tx. rewrite cell_insert. case_decide; [|done]. subst. unfold cell. rewrite Hl. intros E%Hlook. tauto. }
  assert (forall tx, tx ∈ out -> sender_of tx = a) as Hso by (intros tx [Hx _]%Hout; unfold sender_of; by rewrite Hx).
  split.
  - apply map_Forall_insert_2; [by eapply list_ok_splits|done].
  - done.
  - intros a' n. destruct (H3 a' n) as [E|E]; [|by right]. left. destruct (cell (<[a:=l']> P) a' n) eqn:E'; [|done]. apply Hsub in E'. congruence.
  - rewrite fmap_app. apply NoDup_app. split; [|split; [|done]].
    + apply NoDup_fmap_2_strong.
      * intros x y Hx Hy E. apply Hout in Hx as [_ Hx]. apply Hout in Hy as [_ Hy]. unfold slot in E. congruence.
      * pose proof (tl_list_NoDup _ Hw) as Hnd. destruct Hs as (_ & _ & Hp). rewrite <- Hp in Hnd. by apply NoDup_app in Hnd as (? & _ & _).
    + intros s (x & -> & Hx)%list_elem_of_fmap (y & E & Hy)%list_elem_of_fmap. destruct (H5 _ Hy) as (_ & Hn & _). unfold slot in E. injection E as E1 E2.
      rewrite <- E1, <- E2, (Hso _ Hx) in Hn. apply Hout in Hx as [_ Hx]. unfold cell in Hn. rewrite Hl in Hn. congruence.
  - intros tx [Hx|Hx]%elem_of_app.
    + pose proof (Hso _ Hx) as Ea. pose proof (Hout _ Hx) as [E1 E2]. rewrite Ea. split; [done|].
      rewrite cell_insert, decide_True by done. split.
      * destruct (sm_items (txs l') !! AccountNonce tx) as [t|] eqn:E; [|done]. apply Hlook in E as [E C]. rewrite E2 in E. by simplify_eq.
      * destruct (H3 a (AccountNonce tx)) as [E|E]; [|done]. unfold cell in E. rewrite Hl in E. congruence.
    + destruct (H5 _ Hx) as (E1 & E2 & E3). split; [done|]. split; [|done]. destruct (cell (<[a:=l']> P) (sender_of tx) (AccountNonce tx)) eqn:E; [|done].
      apply Hsub in E. congruence.
  - intros h tx. rewrite H6. rewrite elem_of_app. unfold held. rewrite cell_insert. case_decide as Ea.
    + subst a. assert (cell P (sender_of tx) (AccountNonce tx) = sm_items (txs l) !! AccountNonce tx) as -> by (unfold cell; by rewrite Hl).
      rewrite Hlook. split; [|by naive_solver]. intros (Eh & [E|[E|E]]); split; try done; [|tauto..].
      destruct (decide (tx ∈ out)); tauto.
    + split; [tauto|]. intros (Eh & [E|[E|[E|E]]]); split; try done; [tauto..| |tauto]. apply Hso in E. congruence.
Qed.

(** A transaction that is in no list leaves the table. *)
Lemma agree_forget tx : agree (tx :: X) b P b' Q A -> agree X b P b' Q (delete (tx_Hash tx) A).
Proof.
  intros [H1 H2 H3 H4 H5 H6]. cbn in H4. apply NoDup_cons in H4 as [Hn H4]. split; try done; [intros; apply H5; set_solver|].
  destruct (H5 tx) as (_ & Hp & Hq); [set_solver|].
  intros h t. rewrite lookup_delete_Some, H6. split.
  - intros (Hne & Eh & Hh). split; [done|]. destruct Hh as [|[|Hh]]; [tauto..|]. apply elem_of_cons in Hh as [->|Hh]; [done|tauto].
  - intros (Eh & Hh). split; [|rewrite elem_of_cons; tauto]. intros <-. 
    assert (A !! tx_Hash tx = Some tx) as E1 by (apply H6; split; [done|]; set_solver).
    assert (A !! tx_Hash tx = Some t) as E2 by (apply H6; split; [done|]; rewrite elem_of_cons; tauto).
    rewrite E1 in E2. simplify_eq. destruct Hh as [Hh|[Hh|Hh]]; [unfold held in Hh; congruence..|]. apply Hn. by apply list_elem_of_fmap_2.
Qed.

(** The list of an account, a new one when it has none. *)
Definition list_at (a : Z) : txList := match P !! a with Some l => l | None => newTxList b end.

Lemma list_at_ok a : map_Forall (list_ok b) P -> list_ok b a (list_at a) /\ (forall n, sm_items (txs (list_at a)) !! n = cell P a n).
Proof.
  intros HP. unfold list_at, cell. destruct (P !! a) as [l|] eqn:E; [split; [by apply HP|done]|]. split; [|intros n; apply lookup_empty].
  split; [apply newTxSortedMap_wf|]. split; [done|]. constructor.
Qed.

Lemma list_ok_Put a l tx bump old l' : list_ok b a l -> Sender tx = inl a -> tl_Add tx bump l = ((true, old), l') -> list_ok b a l' /\ sm_items (txs l') = <[ AccountNonce tx := tx ]> (sm_items (txs l)) /\ tl_list l' <> [].
Proof.
  intros (Hw & Hb & Hs) Htx E. pose proof (tl_Add_spec _ _ _ _ _ _ Hw E) as (Hw' & Ht & Hst & _). unfold list_ok, tl_list. rewrite Ht. rewrite sm_Put_list by done. split; [|split; [done|by destruct (filter _ (sm_list (txs l)))]].
  split; [by rewrite <- Ht|]. split; [congruence|]. rewrite Forall_forall in Hs. apply Forall_forall.
  intros t [[_ ?]%list_elem_of_filter|[->|[_ ?]%list_elem_of_filter]%elem_of_cons]%elem_of_app; auto.
Qed.

(** A transaction that is in no list enters one. *)
Lemma agree_put tx bump ok old l' :
  agree (tx :: X) b P b' Q A -> tl_Add tx bump (list_at (sender_of tx)) = ((ok, old), l') ->
  ok = true /\ old = None /\ tl_list l' <> [] /\ agree X b (<[ sender_of tx := l' ]> P) b' Q A.
Proof.
  intros HA E. pose proof HA as [H1 H2 H3 H4 H5 H6]. destruct (H5 tx) as (Hs & Hp & Hq); [set_solver|].
  destruct (list_at_ok (sender_of tx) H1) as [Hok Hcell]. pose proof Hok as (Hw & _).
  pose proof (tl_Add_spec _ _ _ _ _ _ Hw E) as Hspec. destruct ok.
  2:{ destruct Hspec as (_ & o & C & _). rewrite Hcell in C. congruence. }
  destruct Hspec as (_ & _ & _ & Hold & _). rewrite Hcell, Hp in Hold. destruct (list_ok_Put _ _ _ _ _ _ Hok Hs E) as (Hok' & Hi & Hne).
  split; [done|]. split; [done|]. split; [done|].
  assert (forall a n, cell (<[ sender_of tx := l' ]> P) a n = if decide ((a, n) = slot tx) then Some tx else cell P a n) as Hc.
  { intros a n. rewrite cell_insert. unfold slot. case_decide as Ea; [|by rewrite decide_False by congruence]. subst a. rewrite Hi, lookup_insert, Hcell.
    repeat case_decide; simplify_eq; done. }
  cbn in H4. apply NoDup_cons in H4 as [Hn H4]. split; try done.
  - by apply map_Forall_insert_2.
  - intros a n. rewrite Hc. case_decide as Es; [|done]. right. unfold slot in Es. by simplify_eq.
  - intros t Ht. destruct (H5 t) as (? & ? & ?); [set_solver|]. rewrite Hc, decide_False; [done|]. intros C. apply Hn. change (slot t = slot tx) in C. rewrite <- C. by apply list_elem_of_fmap_2.
  - intros h t. rewrite H6. unfold held. rewrite Hc, elem_of_cons. change (sender_of t, AccountNonce t) with (slot t). case_decide as Es.
    + assert (cell P (sender_of t) (AccountNonce t) = None /\ cell Q (sender_of t) (AccountNonce t) = None) as [E1 E2] by (unfold slot in Es; injection Es as -> ->; done).
      rewrite E1, E2. split; [naive_solver|]. intros (Eh & [C|[C|C]]); [naive_solver..|]. exfalso. apply Hn. rewrite <- Es. by apply list_elem_of_fmap_2.
    + split; [|tauto]. intros (Eh & [C|[C|[->|C]]]); [tauto..| |tauto]. done.
Qed.

(** A hash has one transaction, wherever it is. *)
Lemma agree_inj t t' : agree X b P b' Q A -> tx_Hash t = tx_Hash t' -> (held P t \/ held Q t \/ t ∈ X) -> (held P t' \/ held Q t' \/ t' ∈ X) -> t = t'.
Proof.
  intros HA E Ht Ht'. assert (A !! tx_Hash t = Some t) as E1 by (by apply (agree_all _ _ _ _ _ _ HA)).
  assert (A !! tx_Hash t = Some t') as E2 by (by apply (agree_all _ _ _ _ _ _ HA)). congruence.
Qed.

(** A new transaction enters a list, possibly in the place of another. *)
Lemma agree_new tx a bump old l' :
  agree X b P b' Q A -> A !! tx_Hash tx = None -> Sender tx = inl a -> cell Q a (AccountNonce tx) = None -> slot tx ∉ slot <$> X ->
  tl_Add tx bump (list_at a) = ((true, old), l') ->
  agree X b (<[ a := l' ]> P) b' Q (<[ tx_Hash tx := tx ]> (match old with Some o => delete (tx_Hash o) A | None => A end)).
Proof.
  intros HA Hnew Hs Hq Hx E. pose proof HA as [H1 H2 H3 H4 H5 H6]. assert (sender_of tx = a) as Ha by (unfold sender_of; by rewrite Hs).
  destruct (list_at_ok a H1) as [Hok Hcell]. pose proof Hok as (Hw & _). pose proof (tl_Add_spec _ _ _ _ _ _ Hw E) as (_ & _ & _ & Hold & _).
  rewrite Hcell in Hold. destruct (list_ok_Put _ _ _ _ _ _ Hok Hs E) as (Hok' & Hi & _).
  assert (forall a' n, cell (<[ a := l' ]> P) a' n = if decide ((a', n) = slot tx) then Some tx else cell P a' n) as Hc.
  { intros a' n. rewrite cell_insert. unfold slot. rewrite Ha. case_decide as Ea; [|by rewrite decide_False by congruence]. subst a'. rewrite Hi, lookup_insert, Hcell.
    repeat case_decide; simplify_eq; done. }
  assert (forall t, held (<[ a := l' ]> P) t <-> t = tx \/ (slot t <> slot tx /\ held P t)) as Hh.
  { intros t. unfold held. rewrite Hc. change (sender_of t, AccountNonce t) with (slot t). case_decide as Es.
    - split; [intros [= <-]; auto|intros [->|[C _]]; done].
    - split; [by right|intros [->|[_ C]]; done]. }
  assert (forall t, (held Q t \/ t ∈ X) -> slot t <> slot tx) as Hqx.
  { intros t [Ht|Ht] Es; [|apply Hx; rewrite <- Es; by apply list_elem_of_fmap_2]. unfold held in Ht. unfold slot in Es. injection Es as E1 E2. rewrite Ha in E1. congruence. }
  assert (forall t, (held P t \/ held Q t \/ t ∈ X) -> tx_Hash t <> tx_Hash tx) as Hfresh.
  { intros t Ht Eh. assert (A !! tx_Hash tx = Some t) by (by apply H6). congruence. }
  split; try done.
  - by apply map_Forall_insert_2.
  - intros a' n. rewrite Hc. case_decide as Es; [|done]. right. unfold slot in Es. rewrite Ha in Es. by simplify_eq.
  - intros t Ht. destruct (H5 t Ht) as (? & ? & ?). rewrite Hc, decide_False; [done|]. apply (Hqx t). by right.
  - intros h t. rewrite Hh, lookup_insert. case_decide as Eh.
    + split; [intros [= <-]; auto|]. intros (E1 & [[->|Ht]|Ht]); [done| |]; exfalso; (apply (Hfresh t); [tauto|congruence]).
    + assert ((match old with Some o => delete (tx_Hash o) A | None => A end) !! h = Some t <-> A !! h = Some t /\ ~ (held P t /\ slot t = slot tx)) as ->.
      { destruct old as [o|].
        - destruct (cell_held b P a (AccountNonce tx) o H1 (eq_sym Hold)) as (Ho1 & Ho2 & Ho3). rewrite lookup_delete_Some, H6. split.
          + intros (Hne & E1 & Ht). split; [done|]. intros [Hp Es]. unfold held in Hp. unfold slot in Es. injection Es as E2 E3. rewrite E2, E3, Ha, <- Hold in Hp. simplify_eq.
          + intros ((E1 & Ht) & Hn). split; [|done]. intros <-. pose proof (agree_inj o t HA (eq_sym E1) ltac:(tauto) Ht) as <-. apply Hn. split; [done|]. unfold slot. congruence.
        - split; [|tauto]. intros Ht. split; [done|]. intros [Hp Es]. unfold held in Hp. unfold slot in Es. injection Es as E2 E3. rewrite E2, E3, Ha, <- Hold in Hp. done. }
      rewrite H6. split.
      * intros ((E1 & Ht) & Hn). split; [done|]. destruct Ht as [Ht|Ht]; [|tauto]. left. right. tauto.
      * intros (E1 & [[->|[Hn Ht]]|Ht]); [done|tauto|]. split; [tauto|]. intros [_ Es]. by apply (Hqx t).
Qed.

Lemma agree_refused tx a bump old l' : agree X b P b' Q A -> tl_Add tx bump (list_at a) = ((false, old), l') -> l' = list_at a /\ P !! a = Some l'.
Proof.
  intros HA E. destruct (list_at_ok a (agree_P _ _ _ _ _ _ HA)) as [(Hw & _) Hcell]. pose proof (tl_Add_spec _ _ _ _ _ _ Hw E) as (-> & o & C & _).
  split; [done|]. rewrite Hcell in C. unfold list_at. unfold cell in C. by destruct (P !! a).
Qed.
End agree_steps.

(** ** Every operation of a list splits it *)
Section split_facts.
Context `{!Codec} `{!SpvLib} `{!RangeOrder}.

Lemma tl_Forward_splits t l out l' : sm_wf (txs l) -> tl_Forward t l = (out, l') -> splits l out l'.
Proof.
  unfold tl_Forward, on_txs. intros Hw E. destruct (sm_Forward t (txs l)) as [r m] eqn:Ef. simplify_eq.
  destruct (sm_Forward_spec _ _ _ _ Hw Ef) as (Hm & Hp & _). split; [done|]. split; [done|]. unfold tl_list. cbn. by rewrite Hp.
Qed.

Lemma tl_Cap_splits n l out l' : sm_wf (txs l) -> tl_Cap n l = (out, l') -> splits l out l' /\ tl_list l' = take n (tl_list l).
Proof.
  unfold tl_Cap, on_txs. intros Hw E. destruct (sm_Cap n (txs l)) as [r m] eqn:Ef. simplify_eq.
  destruct (sm_Cap_spec _ _ _ _ Hw Ef) as (Hm & Hl & ->). split; [|done]. split; [done|]. split; [done|]. unfold tl_list. cbn. rewrite Hl, reverse_Permutation.
  by rewrite Permutation_app_comm, take_drop.
Qed.

Lemma tl_Ready_splits s l out l' : sm_wf (txs l) -> tl_Ready s l = (out, l') -> splits l out l'.
Proof.
  unfold tl_Ready, on_txs. intros Hw E. destruct (sm_Ready s (txs l)) as [r m] eqn:Ef. simplify_eq.
  destruct (sm_Ready_spec _ _ _ _ Hw Ef) as (Hm & Hp & _). split; [done|]. split; [done|]. unfold tl_list. cbn. by rewrite Hp.
Qed.

Lemma tl_Filter_splits cost gas black l out invalids l' : sm_wf (txs l) -> tl_Filter cost gas black l = ((out, invalids), l') -> splits l (out ++ invalids) l'.
Proof. intros Hw E. destruct (tl_Filter_split _ _ _ _ _ _ _ Hw E) as (? & ? & ?). split; [done|]. split; [done|]. by rewrite <- app_assoc. Qed.

Lemma tl_Filter_loose cost gas black l out invalids l' : strict l = false -> tl_Filter cost gas black l = ((out, invalids), l') -> invalids = [].
Proof.
  unfold tl_Filter, on_txs. intros Hb E. case_match; [by simplify_eq|]. cbn -[sm_Filter] in E. destruct (sm_Filter _ _ _ _). cbn in E. rewrite Hb in E. cbn in E. by simplify_eq.
Qed.

Lemma tl_Flatten_same l out l' : sm_wf (txs l) -> tl_Flatten l = (out, l') -> out = tl_list l /\ sm_wf (txs l') /\ strict l' = strict l /\ sm_items (txs l') = sm_items (txs l) /\ tl_list l' = tl_list l.
Proof.
  unfold tl_Flatten, on_txs. intros Hw E. destruct (sm_Flatten (txs l)) as [r m] eqn:Ef. simplify_eq. destruct (sm_Flatten_spec _ _ _ Hw Ef) as (? & ? & ? & ?). done.
Qed.

Lemma tl_Remove_splits tx l ok invalids l' :
  sm_wf (txs l) -> tl_Remove tx l = ((ok, invalids), l') ->
  match sm_items (txs l) !! AccountNonce tx with
  | Some t => ok = true /\ splits l (t :: invalids) l' /\ (strict l = false -> invalids = [])
  | None => ok = false /\ l' = l /\ invalids = []
  end.
Proof.
  unfold tl_Remove, on_txs. intros Hw E. destruct (sm_Remove (AccountNonce tx) (txs l)) as [r m] eqn:Er.
  destruct (sm_Remove_spec _ _ _ _ Hw Er) as (Hm & Hl & _ & Hi). unfold sm_Remove in Er. destruct (sm_items (txs l) !! AccountNonce tx) as [t|] eqn:Et.
  2:{ simplify_eq. cbn in E. simplify_eq. by destruct l. }
  injection Er as <- <-. cbn -[sm_Filter] in E.
  assert (t :: sm_list {| sm_items := delete (AccountNonce tx) (sm_items (txs l)); sm_index := heap_Remove (AccountNonce tx) (sm_index (txs l)); sm_cache := None |} ≡ₚ tl_list l) as Hp.
  { pose proof (wf_keyed _ Hw _ _ Et) as Hn. rewrite Hl. apply NoDup_Permutation.
    - constructor; [|by apply NoDup_filter, tl_list_NoDup]. intros [C _]%list_elem_of_filter. done.
    - by apply tl_list_NoDup.
    - intros y. rewrite elem_of_cons, list_elem_of_filter. unfold tl_list. rewrite elem_of_sm_list by done. split.
      + intros [->|[_ ?]]; [congruence|done].
      + intros Hy. destruct (decide (AccountNonce y = AccountNonce tx)) as [En|En]; [|by right]. left. congruence. }
  split_and?.
  - destruct (strict l); [|by simplify_eq]. destruct (sm_Filter _ _ _ _). by simplify_eq.
  - destruct (strict l) eqn:Eb; [|simplify_eq; split; [done|split; done]]. destruct (sm_Filter _ _ _ _) as [i m2] eqn:Ef. simplify_eq.
    destruct (sm_Filter_split _ _ _ _ _ _ Hm Ef) as (Hm2 & Hp2 & _). split; [done|]. split; [done|]. rewrite <- app_comm_cons. unfold tl_list at 1. cbn [txs]. by rewrite Hp2.
  - intros Hb. rewrite Hb in E. by simplify_eq.
Qed.
End split_facts.

(** ** The invariant of the pool *)

(** No list is empty, but perhaps that of [e]. *)
Definition full_but (e : option Z) (m : gmap Z txList) : Prop := forall a l, m !! a = Some l -> e <> Some a -> tl_list l <> [].

(** [X] are in no list; the lists that may be empty are [ep]'s and [eq]'s. *)
Record good (ep eq : option Z) (X : list Transaction) (p : TxPool) : Prop := {
  good_agree : agree X true (pending p) false (queue p) (all p);
  good_pending : full_but ep (pending p);
  good_queue : full_but eq (queue p)
}.

(** The table holds exactly the transactions of the lists, under their hashes; an
    account has a nonce pending or queued, not both; no list is empty. *)
Definition pool_wf (p : TxPool) : Prop := good None None [] p.

Lemma good_ext ep eq X p p' : pending p' = pending p -> queue p' = queue p -> all p' = all p -> good ep eq X p -> good ep eq X p'.
Proof. intros H1 H2 H3 [G1 G2 G3]. split; by rewrite ?H1, ?H2, ?H3. Qed.

Lemma good_nonces ep eq X p ns : good ep eq X p -> good ep eq X (p <| pendingNonces := ns |>).
Proof. by apply good_ext. Qed.

Lemma good_priced ep eq X p l : good ep eq X p -> good ep eq X (p <| priced := l |>).
Proof. by apply good_ext. Qed.

Lemma good_perm ep eq X X' p : X ≡ₚ X' -> good ep eq X p -> good ep eq X' p.
Proof. intros Hp [G1 G2 G3]. split; [by eapply agree_perm|done..]. Qed.

Lemma full_but_insert e m a l : full_but e m -> (e <> Some a -> tl_list l <> []) -> full_but e (<[ a := l ]> m).
Proof. intros H Hl a' l'. rewrite lookup_insert. case_decide; [|apply H]. by intros [= <-]; subst. Qed.

Lemma full_but_any m a l : full_but None m -> full_but (Some a) (<[ a := l ]> m).
Proof. intros H a' l'. rewrite lookup_insert. case_decide; [subst; congruence|]. intros Hl _. by eapply H. Qed.

Lemma full_but_again m a l : full_but (Some a) m -> full_but (Some a) (<[ a := l ]> m).
Proof. intros H. by apply full_but_insert. Qed.

Lemma full_but_delete m a : full_but (Some a) m -> full_but None (delete a m).
Proof. intros H a' l. rewrite lookup_delete_Some. intros [Ha Hl] _. eapply H; [done|congruence]. Qed.

Lemma full_but_kept m a l : full_but (Some a) m -> m !! a = Some l -> tl_list l <> [] -> full_but None m.
Proof. intros H Hl Hne a' l' Hl' _. destruct (decide (a = a')) as [->|]; [by simplify_eq|]. eapply H; [done|congruence]. Qed.

Lemma full_but_none m a : full_but (Some a) m -> m !! a = None -> full_but None m.
Proof. intros H Hl a' l' Hl' _. destruct (decide (a = a')) as [->|]; [congruence|]. eapply H; [done|congruence]. Qed.

Section pool_facts.
Context `{!Keccak} `{!Codec} `{!SpvLib} `{!RangeOrder} `{!PriceHeap} `{!PoolEnv}.

Lemma good_drop_pending a eq X p : good (Some a) eq X p -> good None eq X (drop_pending_if_empty a p).
Proof.
  intros [G1 G2 G3]. unfold drop_pending_if_empty. destruct (pending p !! a) as [l|] eqn:E; [|split; [done|by eapply full_but_none|done]].
  destruct (agree_P _ _ _ _ _ _ G1 _ _ E) as (Hw & _). destruct (tl_Empty l) eqn:Ee.
  - split; cbn; [by eapply agree_delete_empty|by apply full_but_delete|done].
  - rewrite tl_Empty_list in Ee by done. bools. split; [done|by eapply full_but_kept|done].
Qed.

Lemma good_drop_queue a ep X p : good ep (Some a) X p -> good ep None X (drop_queue_if_empty a p).
Proof.
  intros [G1 G2 G3]. unfold drop_queue_if_empty. destruct (queue p !! a) as [l|] eqn:E; [|split; [done|done|by eapply full_but_none]].
  destruct (agree_Q _ _ _ _ _ _ G1 _ _ E) as (Hw & _). destruct (tl_Empty l) eqn:Ee.
  - split; cbn; [apply agree_sym; eapply agree_delete_empty; [by apply agree_sym|done|done]|done|by apply full_but_delete].
  - rewrite tl_Empty_list in Ee by done. bools. split; [done|done|by eapply full_but_kept].
Qed.

Lemma good_forget ep eq tx X p : good ep eq (tx :: X) p -> good ep eq X (all_Remove (tx_Hash tx) p).
Proof. intros [G1 G2 G3]. split; cbn; [by apply agree_forget|done..]. Qed.

Lemma good_forget_txs ep eq txs X p : good ep eq (txs ++ X) p -> good ep eq X (all_Remove_txs txs p).
Proof. unfold all_Remove_txs. revert p. induction txs as [|tx txs IH]; cbn; intros p HG; [done|]. by apply IH, good_forget. Qed.

Lemma good_take_pending a l out l' eq X p :
  good None eq X p \/ good (Some a) eq X p -> pending p !! a = Some l -> splits l out l' -> good (Some a) eq (out ++ X) (p <| pending := <[ a := l' ]> (pending p) |>).
Proof. intros [[G1 G2 G3]|[G1 G2 G3]] Hl Hs; (split; cbn; [by eapply agree_take|first [by apply full_but_any|by apply full_but_again]|done]). Qed.

Lemma good_take_queue a l out l' ep X p :
  good ep None X p \/ good ep (Some a) X p -> queue p !! a = Some l -> splits l out l' -> good ep (Some a) (out ++ X) (p <| queue := <[ a := l' ]> (queue p) |>).
Proof.
  intros [[G1 G2 G3]|[G1 G2 G3]] Hl Hs; (split; cbn; [apply agree_sym; eapply agree_take; [by apply agree_sym|done|done]|done|first [by apply full_but_any|by apply full_but_again]]).
Qed.

(** Queueing a transaction that is in no list. *)
Lemma enqueueTx_good ep eq tx X p : good ep eq (tx :: X) p -> good ep eq X (enqueueTx (tx_Hash tx) tx p).2 /\ (enqueueTx (tx_Hash tx) tx p).1 = inl false.
Proof.
  intros [G1 G2 G3]. unfold enqueueTx. destruct (tl_Add _ _ _) as [[ok old] l'] eqn:E.
  destruct (agree_put X false (queue p) true (pending p) (all p) tx (PriceBump config) ok old l' (agree_sym _ _ _ _ _ _ G1) E) as (-> & -> & Hne & HA).
  cbn [negb all set_field update_with]. assert (all p !! tx_Hash tx = Some tx) as Ha by (apply (agree_all _ _ _ _ _ _ G1); set_solver). cbn. rewrite Ha. cbn. split; [|done].
  split; cbn; [by apply agree_sym|done|by apply full_but_insert].
Qed.

Lemma enqueue_all_good ep eq txs X p : good ep eq (txs ++ X) p -> good ep eq X (enqueue_all txs p).
Proof. unfold enqueue_all. revert p. induction txs as [|tx txs IH]; cbn [foldl app]; intros p HG; [done|]. by apply IH, enqueueTx_good. Qed.

(** Promoting one. *)
Lemma promoteTx_good now addr ep eq tx X p : sender_of tx = addr -> good ep eq (tx :: X) p -> good ep eq X (promoteTx now addr (tx_Hash tx) tx p).2 /\ (promoteTx now addr (tx_Hash tx) tx p).1 = true.
Proof.
  intros <- [G1 G2 G3]. unfold promoteTx. destruct (tl_Add _ _ _) as [[ok old] l'] eqn:E.
  destruct (agree_put X true (pending p) false (queue p) (all p) tx (PriceBump config) ok old l' G1 E) as (-> & -> & Hne & HA).
  assert (all p !! tx_Hash tx = Some tx) as Ha by (apply (agree_all _ _ _ _ _ _ G1); set_solver). cbn. rewrite Ha. cbn. split; [|done].
  split; cbn; [done|by apply full_but_insert|done].
Qed.

(** What the table has is in one of the lists. *)
Lemma good_lookup hash tx ep eq p : good ep eq [] p -> all p !! hash = Some tx -> tx_Hash tx = hash /\ (held (pending p) tx \/ held (queue p) tx).
Proof. intros [G1 _ _] E. apply (agree_all _ _ _ _ _ _ G1) in E as (? & [?|[?|?%elem_of_nil]]); tauto. Qed.

Lemma held_list m tx : held m tx -> exists l, m !! sender_of tx = Some l /\ sm_items (txs l) !! AccountNonce tx = Some tx.
Proof. unfold held, cell. destruct (m !! sender_of tx) as [l|]; [by eauto|done]. Qed.

Lemma all_priced_Removed c p : all (priced_Removed c p) = all p.
Proof. done. Qed.

(** Removing a pending transaction. *)
Lemma remove_pending_good tx p l ok invalids l' :
  good None None [] p -> held (pending p) tx -> pending p !! sender_of tx = Some l -> tl_Remove tx l = ((ok, invalids), l') ->
  ok = true /\ good (Some (sender_of tx)) None invalids (all_Remove (tx_Hash tx) (p <| pending := <[ sender_of tx := l' ]> (pending p) |>)).
Proof.
  intros HG Hh Hl E. destruct (agree_P _ _ _ _ _ _ (good_agree _ _ _ _ HG) _ _ Hl) as (Hw & _). destruct (held_list _ _ Hh) as (l0 & Hl0 & Hi). simplify_eq.
  pose proof (tl_Remove_splits _ _ _ _ _ Hw E) as Hs. rewrite Hi in Hs. destruct Hs as (-> & Hs & _). split; [done|].
  apply good_forget. pose proof (good_take_pending (sender_of tx) l (tx :: invalids) l' None [] p (or_introl HG) Hl Hs) as Ht. by rewrite app_nil_r in Ht.
Qed.

Lemma remove_pending_absent tx p l ok invalids l' :
  good None None [] p -> held (queue p) tx -> pending p !! sender_of tx = Some l -> tl_Remove tx l = ((ok, invalids), l') -> ok = false /\ l' = l.
Proof.
  intros HG Hh Hl E. destruct (agree_P _ _ _ _ _ _ (good_agree _ _ _ _ HG) _ _ Hl) as (Hw & _). pose proof (tl_Remove_splits _ _ _ _ _ Hw E) as Hs.
  destruct (agree_disjoint _ _ _ _ _ _ (good_agree _ _ _ _ HG) (sender_of tx) (AccountNonce tx)) as [C|C].
  - unfold cell in C. rewrite Hl in C. rewrite C in Hs. tauto.
  - unfold held in Hh. congruence.
Qed.

Lemma remove_queued_good tx p l ok invalids l' :
  good None None [] p -> held (queue p) tx -> queue p !! sender_of tx = Some l -> tl_Remove tx l = ((ok, invalids), l') ->
  good None (Some (sender_of tx)) [] (all_Remove (tx_Hash tx) (p <| queue := <[ sender_of tx := l' ]> (queue p) |>)).
Proof.
  intros HG Hh Hl E. destruct (agree_Q _ _ _ _ _ _ (good_agree _ _ _ _ HG) _ _ Hl) as (Hw & Hb & _). destruct (held_list _ _ Hh) as (l0 & Hl0 & Hi). simplify_eq.
  pose proof (tl_Remove_splits _ _ _ _ _ Hw E) as Hs. rewrite Hi in Hs. destruct Hs as (-> & Hs & Hinv). rewrite (Hinv Hb) in Hs.
  apply good_forget. pose proof (good_take_queue (sender_of tx) l [tx] l' None [] p (or_introl HG) Hl Hs) as Ht. done.
Qed.

Lemma insert_same_pool (p : TxPool) a l : pending p !! a = Some l -> p <| pending := <[ a := l ]> (pending p) |> = p.
Proof. intros Hl. destruct p. cbn in *. by rewrite insert_id. Qed.

Lemma removeTx_good hash oob p : pool_wf p -> pool_wf (removeTx hash oob p).
Proof.
  unfold pool_wf. intros HG. unfold removeTx. destruct (all p !! hash) as [tx|] eqn:Ea; [|done]. destruct (good_lookup _ _ _ _ _ HG Ea) as [<- Hh].
  set (p1 := if oob then _ else _).
  assert (pending p1 = pending p /\ queue p1 = queue p /\ all p1 = delete (tx_Hash tx) (all p)) as (Ep & Eq & Eall) by (subst p1; by destruct oob).
  clearbody p1. unfold remove_pending. rewrite Ep. destruct (pending p !! sender_of tx) as [l|] eqn:El.
  - destruct (tl_Remove tx l) as [[ok invalids] l'] eqn:Er. destruct Hh as [Hh|Hh].
    + destruct (remove_pending_good _ _ _ _ _ _ HG Hh El Er) as [-> Hg].
      apply good_nonces, enqueue_all_good, good_drop_pending. rewrite app_nil_r.
      eapply good_ext; [..|exact Hg]; cbn; congruence.
    + destruct (remove_pending_absent _ _ _ _ _ _ HG Hh El Er) as [-> ->]. rewrite <- Ep in El. cbn [fst snd]. rewrite <- Ep, insert_same_pool by done.
      destruct (held_list _ _ Hh) as (lq & Hlq & _). rewrite Eq, Hlq. destruct (tl_Remove tx lq) as [[ok' inv'] lq'] eqn:Erq.
      apply good_drop_queue. eapply good_ext; [..|exact (remove_queued_good _ _ _ _ _ _ HG Hh Hlq Erq)]; cbn; congruence.
  - destruct Hh as [Hh|Hh]; [destruct (held_list _ _ Hh) as (? & ? & _); congruence|].
    destruct (held_list _ _ Hh) as (lq & Hlq & _). rewrite Eq, Hlq. destruct (tl_Remove tx lq) as [[ok' inv'] lq'] eqn:Erq.
    apply good_drop_queue. eapply good_ext; [..|exact (remove_queued_good _ _ _ _ _ _ HG Hh Hlq Erq)]; cbn; congruence.
Qed.

Lemma remove_txs_good txs oob p : pool_wf p -> pool_wf (foldl (fun p tx => removeTx (tx_Hash tx) oob p) p txs).
Proof. revert p. induction txs as [|tx txs IH]; cbn; intros p HG; [done|]. by apply IH, removeTx_good. Qed.

(** Queueing what is in the table leaves the table. *)
Lemma enqueue_all_table ep eq txs X p : good ep eq (txs ++ X) p -> all (enqueue_all txs p) = all p.
Proof.
  unfold enqueue_all. revert p. induction txs as [|tx txs IH]; cbn [foldl app]; intros p HG; [done|]. destruct (enqueueTx_good _ _ _ _ _ HG) as [HG' _].
  rewrite (IH _ HG'). unfold enqueueTx. destruct (tl_Add _ _ _) as [[ok old] l'] eqn:E.
  destruct (agree_put _ false (queue p) true (pending p) (all p) tx (PriceBump config) ok old l' (agree_sym _ _ _ _ _ _ (good_agree _ _ _ _ HG)) E) as (-> & -> & _).
  cbn. by rewrite (proj2 (agree_all _ _ _ _ _ _ (good_agree _ _ _ _ HG) (tx_Hash tx) tx)) by set_solver.
Qed.

Lemma removeTx_table hash oob p : pool_wf p -> all (removeTx hash oob p) = delete hash (all p).
Proof.
  unfold pool_wf. intros HG. unfold removeTx. destruct (all p !! hash) as [tx|] eqn:Ea; [|by rewrite delete_id]. destruct (good_lookup _ _ _ _ _ HG Ea) as [<- Hh].
  set (p1 := if oob then _ else _).
  assert (pending p1 = pending p /\ queue p1 = queue p /\ all p1 = delete (tx_Hash tx) (all p)) as (Ep & Eq & Eall) by (subst p1; by destruct oob).
  clearbody p1. unfold remove_pending. rewrite Ep.
  assert (forall addr p, all (drop_queue_if_empty addr p) = all p) as Hdq by (intros; unfold drop_queue_if_empty; by repeat case_match).
  assert (forall addr p, all (drop_pending_if_empty addr p) = all p) as Hdp by (intros; unfold drop_pending_if_empty; by repeat case_match).
  destruct (pending p !! sender_of tx) as [l|] eqn:El.
  - destruct (tl_Remove tx l) as [[ok invalids] l'] eqn:Er. destruct Hh as [Hh|Hh].
    + destruct (remove_pending_good _ _ _ _ _ _ HG Hh El Er) as [-> Hg]. cbn [all pendingNonces set_field update_with].
      change (all (enqueue_all invalids (drop_pending_if_empty (sender_of tx) (p1 <| pending := <[ sender_of tx := l' ]> (pending p) |>))) = delete (tx_Hash tx) (all p)).
      rewrite (enqueue_all_table None None invalids []); [by rewrite Hdp|]. rewrite app_nil_r. apply good_drop_pending. eapply good_ext; [..|exact Hg]; cbn; congruence.
    + destruct (remove_pending_absent _ _ _ _ _ _ HG Hh El Er) as [-> ->]. cbn. rewrite Eq. case_match; [|done]. case_match. by rewrite Hdq.
  - rewrite Eq. case_match; [|done]. case_match. by rewrite Hdq.
Qed.

(** A new transaction among the queued ones. *)
Lemma enqueueTx_new tx a p :
  pool_wf p -> all p !! tx_Hash tx = None -> Sender tx = inl a -> cell (pending p) a (AccountNonce tx) = None -> pool_wf (enqueueTx (tx_Hash tx) tx p).2.
Proof.
  intros [G1 G2 G3] Hnew Hs Hc. assert (sender_of tx = a) as Ha by (unfold sender_of; by rewrite Hs). unfold enqueueTx. rewrite Ha.
  destruct (tl_Add _ _ _) as [[ok old] l'] eqn:E. change (tl_Add tx (PriceBump config) (list_at false (queue p) a) = ((ok, old), l')) in E. destruct ok.
  - pose proof (agree_new [] false (queue p) true (pending p) (all p) tx a _ _ _ (agree_sym _ _ _ _ _ _ G1) Hnew Hs Hc ltac:(set_solver) E) as HA.
    destruct (list_ok_Put _ _ _ _ _ _ _ (proj1 (list_at_ok _ _ a (agree_Q _ _ _ _ _ _ G1))) Hs E) as (_ & _ & Hne).
    assert (full_but None (<[ a := l' ]> (queue p))) as Hf by (by apply full_but_insert).
    destruct old as [o|]; cbn; [|rewrite Hnew; split; cbn; [by apply agree_sym|done..]].
    assert (delete (tx_Hash o) (all p) !! tx_Hash tx = None) as -> by (rewrite lookup_delete_None; auto). split; cbn; [by apply agree_sym|done..].
  - destruct (agree_refused _ _ _ _ _ _ _ _ _ _ _ (agree_sym _ _ _ _ _ _ G1) E) as [_ Hl]. cbn. by split; cbn; rewrite ?insert_id.
Qed.

Lemma add_queued_good tx local a p :
  pool_wf p -> all p !! tx_Hash tx = None -> Sender tx = inl a -> cell (pending p) a (AccountNonce tx) = None -> pool_wf (add_queued tx local p).2.
Proof.
  intros HG Hnew Hs Hc. unfold add_queued. pose proof (enqueueTx_new _ _ _ HG Hnew Hs Hc) as HG'. destruct (enqueueTx _ tx p) as [[replaced|err] p'] eqn:E; [|done].
  cbn in HG'. cbn [snd]. eapply good_ext; [..|exact HG']; unfold journalTx; by repeat case_match.
Qed.

Lemma add_checked_good tx local a p : pool_wf p -> all p !! tx_Hash tx = None -> Sender tx = inl a -> pool_wf (add_checked tx local p).2.
Proof.
  intros HG Hnew Hs. assert (sender_of tx = a) as Ha by (unfold sender_of; by rewrite Hs). unfold add_checked. rewrite Ha.
  destruct (pending p !! a) as [l|] eqn:El; [|eapply add_queued_good; [done..|]; unfold cell; by rewrite El].
  unfold Overlaps, sm_Get. destruct (sm_items (txs l) !! AccountNonce tx) as [o|] eqn:Eo; [|eapply add_queued_good; [done..|]; unfold cell; by rewrite El].
  destruct HG as [G1 G2 G3]. destruct (tl_Add tx (PriceBump config) l) as [[ok old] l'] eqn:E.
  assert (tl_Add tx (PriceBump config) (list_at true (pending p) a) = ((ok, old), l')) as E' by (unfold list_at; by rewrite El). destruct ok.
  - assert (cell (queue p) a (AccountNonce tx) = None) as Hq by (destruct (agree_disjoint _ _ _ _ _ _ G1 a (AccountNonce tx)) as [C|C]; [unfold cell in C; rewrite El in C; congruence|done]).
    pose proof (agree_new [] true (pending p) false (queue p) (all p) tx a _ _ _ G1 Hnew Hs Hq ltac:(set_solver) E') as HA.
    destruct (list_ok_Put _ _ _ _ _ _ _ (agree_P _ _ _ _ _ _ G1 _ _ El) Hs E) as (_ & _ & Hne).
    assert (full_but None (<[ a := l' ]> (pending p))) as Hf by (by apply full_but_insert).
    destruct old as [o'|]; cbn [negb snd]; unfold journalTx; repeat case_match; split; done.
  - destruct (agree_refused _ _ _ _ _ _ _ _ _ _ _ G1 E') as [_ Hl]. cbn. by split; cbn; rewrite ?insert_id.
Qed.

Lemma make_room_good tx local hash p : pool_wf p -> all p !! hash = None -> pool_wf (make_room tx local p).2 /\ all (make_room tx local p).2 !! hash = None.
Proof.
  intros HG Hn. unfold make_room. case_match; [|done]. destruct (if local then _ else _) as [u l]. destruct u; [split; [by apply good_priced|done]|].
  destruct (Discard _ _ _ _) as [dropped l']. cbn [snd].
  assert (pool_wf (p <| priced := l |> <| priced := l' |>) /\ all (p <| priced := l |> <| priced := l' |>) !! hash = None) as Hp by (split; [by apply good_priced, good_priced|done]).
  revert Hp. generalize (p <| priced := l |> <| priced := l' |>). clear HG Hn. induction dropped as [|t dropped IH]; cbn; intros q [HG Hn]; [done|]. apply IH.
  split; [by apply removeTx_good|]. rewrite removeTx_table, lookup_delete_None by done. auto.
Qed.

Lemma validateTx_sender tx local p : validateTx tx local p = Some None -> exists a, Sender tx = inl a.
Proof. unfold validateTx. repeat (case_match; [done|]). case_match; [eauto|done]. Qed.

Lemma add_good tx local p r p' : pool_wf p -> add tx local p = Some (r, p') -> pool_wf p'.
Proof.
  unfold add. intros HG E. destruct (all p !! tx_Hash tx) eqn:Ea; [by simplify_eq|]. destruct (validateTx tx local p) as [[e|]|] eqn:Ev; cbn in E; [by simplify_eq| |done].
  destruct (validateTx_sender _ _ _ Ev) as [a Hs]. pose proof (make_room_good tx local _ _ HG Ea) as [HG' Ha]. destruct (make_room tx local p) as [u q]. cbn in HG', Ha.
  destruct u; simplify_eq; [done|]. pose proof (add_checked_good tx local a q HG' Ha Hs) as Hc. destruct (add_checked tx local q). by simplify_eq.
Qed.

Lemma addTxsLocked_good txs local dirty p errs dirty' p' : pool_wf p -> addTxsLocked txs local dirty p = Some (errs, dirty', p') -> pool_wf p'.
Proof.
  revert dirty p errs. induction txs as [|tx txs IH]; cbn; intros dirty p errs HG E; [by simplify_eq|].
  destruct (recharge_error tx p) as [err|]; cbn in E; [|done].
  destruct (match err with Some e => _ | None => _ end) as [[[err1 d1] p1]|] eqn:E1; cbn in E; [|done].
  destruct (addTxsLocked txs local d1 p1) as [[[errs2 d2] p2]|] eqn:E2; cbn in E; [|done]. simplify_eq. eapply IH; [|done].
  destruct err; [by simplify_eq|]. destruct (add tx local p) as [[r q]|] eqn:Ea; cbn in E1; [|done]. pose proof (add_good _ _ _ _ _ HG Ea). destruct r; by simplify_eq.
Qed.

Lemma addTxs_good txs local p errs dirty p' : pool_wf p -> addTxs txs local p = Some (errs, dirty, p') -> pool_wf p'.
Proof.
  unfold addTxs. intros HG E. destruct (filter _ txs); [by simplify_eq|]. destruct (addTxsLocked _ _ _ _) as [[[? ?] ?]|] eqn:E1; cbn in E; [|done]. simplify_eq. by eapply addTxsLocked_good.
Qed.

(** Promotion. *)
Lemma promote_readies_good now addr readies X ep eq p :
  Forall (fun tx => sender_of tx = addr) readies -> good ep eq (readies ++ X) p ->
  good ep eq X (promote_readies now addr readies p).2 /\ queue (promote_readies now addr readies p).2 = queue p.
Proof.
  intros Hs. revert p. induction Hs as [|tx readies Htx Hs IH]; cbn; intros p HG; [done|].
  destruct (promoteTx_good now addr ep eq tx (readies ++ X) p Htx HG) as [HG1 _]. destruct (promoteTx now addr (tx_Hash tx) tx p) as [ok p1] eqn:E1.
  assert (queue p1 = queue p) as Hq by (unfold promoteTx in E1; repeat case_match; by simplify_eq).
  destruct (IH p1 HG1) as [HG2 Hq2]. destruct (promote_readies now addr readies p1) as [pr p2]. cbn in *. split; [done|congruence].
Qed.

Lemma splits_senders b a l out l' : list_ok b a l -> splits l out l' -> Forall (fun tx => Sender tx = inl a) out.
Proof. intros (_ & _ & Hs) (_ & _ & Hp). rewrite <- Hp in Hs. by apply Forall_app in Hs as [? _]. Qed.

Lemma all_Remove_txs_lists txs p : pending (all_Remove_txs txs p) = pending p /\ queue (all_Remove_txs txs p) = queue p.
Proof. unfold all_Remove_txs. revert p. induction txs as [|tx txs IH]; cbn; intros p; [done|]. destruct (IH (all_Remove (tx_Hash tx) p)) as [-> ->]. done. Qed.

(** Taking transactions out of a queued list and out of the table. *)
Lemma good_drop_queued a l out l' p :
  good None None [] p \/ good None (Some a) [] p -> queue p !! a = Some l -> splits l out l' ->
  let p' := all_Remove_txs out (p <| queue := <[ a := l' ]> (queue p) |>) in good None (Some a) [] p' /\ queue p' !! a = Some l' /\ list_ok false a l'.
Proof.
  intros HG Hl Hs p'. destruct (all_Remove_txs_lists out (p <| queue := <[ a := l' ]> (queue p) |>)) as [_ Hq].
  split; [|split].
  - apply good_forget_txs. by eapply good_take_queue.
  - unfold p'. rewrite Hq. cbn. by rewrite lookup_insert_eq.
  - eapply list_ok_splits; [|done]. destruct HG as [[G _ _]|[G _ _]]; by apply (agree_Q _ _ _ _ _ _ G).
Qed.

Lemma promote_account_good now addr p : pool_wf p -> pool_wf (promote_account now addr p).2.
Proof.
  intros HG. unfold promote_account. destruct (queue p !! addr) as [l|] eqn:El; [|done].
  destruct (agree_Q _ _ _ _ _ _ (good_agree _ _ _ _ HG) _ _ El) as (Hw & _).
  destruct (tl_Forward _ l) as [forwards l1] eqn:E1. destruct (good_drop_queued addr l forwards l1 p (or_introl HG) El (tl_Forward_splits _ _ _ _ Hw E1)) as (HG1 & El1 & Hok1).
  set (p1 := all_Remove_txs forwards _) in *. clearbody p1. cbn zeta. destruct (tl_Filter _ _ _ l1) as [[drops inv] l2] eqn:E2.
  rewrite (tl_Filter_loose _ _ _ _ _ _ _ (proj1 (proj2 Hok1)) E2) in E2. pose proof (tl_Filter_splits _ _ _ _ _ _ _ (proj1 Hok1) E2) as Hs2. rewrite app_nil_r in Hs2.
  destruct (good_drop_queued addr l1 drops l2 p1 (or_intror HG1) El1 Hs2) as (HG2 & El2 & Hok2).
  set (p2 := all_Remove_txs drops _) in *. clearbody p2. destruct (noncer_get _ _) as [next nonces].
  destruct (tl_Ready next l2) as [readies l3] eqn:E3. pose proof (tl_Ready_splits _ _ _ _ (proj1 Hok2) E3) as Hs3.
  pose proof (good_take_queue addr l2 readies l3 None [] (p2 <| pendingNonces := nonces |>) (or_intror (good_nonces _ _ _ _ _ HG2)) El2 Hs3) as HG3.
  assert (Forall (fun tx => sender_of tx = addr) readies) as Hso by (eapply Forall_impl; [by eapply splits_senders|]; intros tx Ht; unfold sender_of; by rewrite Ht).
  destruct (promote_readies_good now addr readies [] _ _ _ Hso HG3) as [HG4 Hq4]. cbn [queue pendingNonces set_field update_with] in *.
  destruct (promote_readies now addr readies _) as [promoted p4]. cbn [snd] in HG4, Hq4.
  assert (queue p4 !! addr = Some l3) as El4 by (rewrite Hq4; cbn; by rewrite lookup_insert_eq).
  assert (list_ok false addr l3) as Hok3 by (by eapply list_ok_splits).
  destruct (if txpool_contains addr p4 then _ else _) as [caps l5] eqn:E5.
  assert (splits l3 caps l5) as Hs5 by (case_match; [simplify_eq; split; [apply Hok3|done]|by eapply tl_Cap_splits; [apply Hok3|]]).
  destruct (good_drop_queued addr l3 caps l5 p4 (or_intror HG4) El4 Hs5) as (HG5 & _ & _). cbn [snd]. by apply good_drop_queue, good_priced.
Qed.

Lemma promoteExecutables_good now accounts p : pool_wf p -> pool_wf (promoteExecutables now accounts p).2.
Proof.
  revert p. induction accounts as [|a accounts IH]; cbn; intros p HG; [done|]. pose proof (promote_account_good now a p HG) as HG1. destruct (promote_account now a p) as [pr p1].
  specialize (IH p1 HG1). by destruct (promoteExecutables now accounts p1).
Qed.

Lemma enqueue_all_pending txs p : pending (enqueue_all txs p) = pending p.
Proof.
  unfold enqueue_all. revert p. induction txs as [|tx txs IH]; cbn [foldl]; intros p; [done|]. rewrite IH. unfold enqueueTx. by repeat case_match.
Qed.

(** The same for a pending list; [rest] is taken out but stays in the table. *)
Lemma good_drop_pending_txs a l out rest l' p :
  good None None [] p \/ good (Some a) None [] p -> pending p !! a = Some l -> splits l (out ++ rest) l' ->
  let p' := all_Remove_txs out (p <| pending := <[ a := l' ]> (pending p) |>) in good (Some a) None rest p' /\ pending p' !! a = Some l' /\ list_ok true a l'.
Proof.
  intros HG Hl Hs p'. destruct (all_Remove_txs_lists out (p <| pending := <[ a := l' ]> (pending p) |>)) as [Hq _].
  split; [|split].
  - apply good_forget_txs. pose proof (good_take_pending a l (out ++ rest) l' None [] p HG Hl Hs) as Ht. by rewrite app_nil_r in Ht.
  - unfold p'. rewrite Hq. cbn. by rewrite lookup_insert_eq.
  - eapply list_ok_splits; [|done]. destruct HG as [[G _ _]|[G _ _]]; by apply (agree_P _ _ _ _ _ _ G).
Qed.

Lemma demote_account_good addr p : pool_wf p -> pool_wf (demote_account addr p).
Proof.
  intros HG. unfold demote_account. destruct (pending p !! addr) as [l|] eqn:El; [|done].
  destruct (agree_P _ _ _ _ _ _ (good_agree _ _ _ _ HG) _ _ El) as (Hw & _).
  destruct (tl_Forward _ l) as [olds l1] eqn:E1. pose proof (tl_Forward_splits _ _ _ _ Hw E1) as Hs1. rewrite <- (app_nil_r olds) in Hs1.
  destruct (good_drop_pending_txs addr l olds [] l1 p (or_introl HG) El Hs1) as (HG1 & El1 & Hok1).
  set (p1 := all_Remove_txs olds _) in *. clearbody p1. cbn zeta. destruct (tl_Filter _ _ _ l1) as [[drops invalids] l2] eqn:E2.
  pose proof (tl_Filter_splits _ _ _ _ _ _ _ (proj1 Hok1) E2) as Hs2.
  destruct (good_drop_pending_txs addr l1 drops invalids l2 p1 (or_intror HG1) El1 Hs2) as (HG2 & El2 & Hok2).
  set (p2 := all_Remove_txs drops _) in *. clearbody p2.
  assert (good (Some addr) None [] (enqueue_all invalids (priced_Removed (zlen olds + zlen drops) p2))) as HG3 by (apply enqueue_all_good; rewrite app_nil_r; by apply good_priced).
  assert (pending (enqueue_all invalids (priced_Removed (zlen olds + zlen drops) p2)) !! addr = Some l2) as El3 by (by rewrite enqueue_all_pending).
  set (p3 := enqueue_all invalids _) in *. clearbody p3. destruct (if negb (tl_Empty l2) && _ then _ else _) as [gapped l4] eqn:E4.
  assert (splits l2 gapped l4) as Hs4 by (case_match; [by eapply tl_Cap_splits; [apply Hok2|]|simplify_eq; split; [apply Hok2|done]]).
  apply good_drop_pending, enqueue_all_good. by eapply good_take_pending; [right| |].
Qed.

Lemma foldl_wf {A} (f : TxPool -> A -> TxPool) l p : (forall p x, pool_wf p -> pool_wf (f p x)) -> pool_wf p -> pool_wf (foldl f p l).
Proof. intros Hf. revert p. induction l as [|x l IH]; cbn; intros p HG; [done|]. by apply IH, Hf. Qed.

Lemma demoteUnexecutables_good p : pool_wf p -> pool_wf (demoteUnexecutables p).
Proof. apply foldl_wf. intros q a. apply demote_account_good. Qed.

Lemma flatten_queue_good a p : pool_wf p -> pool_wf (flatten_queue a p).2.
Proof.
  intros [G1 G2 G3]. unfold flatten_queue. destruct (queue p !! a) as [l|] eqn:El; [|done]. destruct (tl_Flatten l) as [out l'] eqn:E.
  pose proof (agree_Q _ _ _ _ _ _ G1 _ _ El) as (Hw & Hb & Hs). destruct (tl_Flatten_same _ _ _ Hw E) as (_ & Hw' & Hb' & Hi & Hl).
  split; cbn; [|done|apply full_but_insert; [done|]; intros _; rewrite Hl; by eapply G3].
  apply agree_sym. eapply agree_insert_same; [by apply agree_sym|done| |done]. split; [done|]. rewrite Hl. split; [congruence|done].
Qed.

Lemma drop_queued_good addresses drop p : pool_wf p -> pool_wf (drop_queued addresses drop p).
Proof.
  revert drop p. induction addresses as [|a addresses IH]; cbn; intros drop p HG; [done|]. case_match; [|done]. pose proof (flatten_queue_good a p HG) as HG1.
  destruct (flatten_queue a p) as [txs p1]. case_match; by apply IH, remove_txs_good.
Qed.

Lemma truncateQueue_good p : pool_wf p -> pool_wf (truncateQueue p).
Proof. unfold truncateQueue. intros HG. case_match; [done|]. by apply drop_queued_good. Qed.

Lemma SetGasPrice_good price p : pool_wf p -> pool_wf (SetGasPrice price p).
Proof.
  unfold SetGasPrice. intros HG. destruct (pl_Cap _ _ _ _) as [dropped l]. apply remove_txs_good. by eapply good_ext; [..|exact HG].
Qed.

Lemma evict_good now p : pool_wf p -> pool_wf (evict now p).
Proof.
  apply foldl_wf. intros q a HG. unfold evict_account. repeat (case_match; try done). pose proof (flatten_queue_good a q HG) as HG1.
  destruct (flatten_queue a q). simplify_eq. by apply remove_txs_good.
Qed.

Lemma sanitize_slots c : 1 <= AccountSlots (sanitize c) /\ 1 <= GlobalSlots (sanitize c) /\ 1 <= AccountQueue (sanitize c) /\ 1 <= GlobalQueue (sanitize c) /\ 1 <= PriceBump (sanitize c) /\ 1 <= PriceLimit (sanitize c).
Proof. unfold sanitize. cbn. split_and!; case_match; bools; lia. Qed.

Lemma config_slots : 1 <= AccountSlots config.
Proof. apply sanitize_slots. Qed.

(** ** The limit of the pending transactions *)
Definition plen (p : TxPool) (a : Z) : Z := list_Len (pending p) a.
Definition total (m : gmap Z txList) : Z := map_fold (fun _ l n => Z.of_nat (tl_Len l) + n) 0 m.

Lemma total_insert m a l l' : m !! a = Some l -> total (<[ a := l' ]> m) = total m - Z.of_nat (tl_Len l) + Z.of_nat (tl_Len l').
Proof.
  intros Hl. unfold total. rewrite <- insert_delete_eq. rewrite map_fold_insert_L; [|intros; lia|by rewrite lookup_delete_eq].
  rewrite (map_fold_delete_L _ _ a l m); [lia|intros; lia|done].
Qed.

Lemma total_nonneg m : 0 <= total m.
Proof. unfold total. apply (map_fold_weak_ind (fun n _ => 0 <= n)); [done|]. intros. lia. Qed.

Lemma total_range m : total m = foldr (fun e n => Z.of_nat (tl_Len e.2) + n) 0 (range_map m).
Proof.
  unfold total. rewrite map_fold_foldr. unfold range_map.
  rewrite (foldr_permutation (=) (fun (e : Z * txList) n => Z.of_nat (tl_Len e.2) + n) 0 (range_order (map_to_list m)) (map_to_list m)).
  - by induction (map_to_list m) as [|[? ?] ? IH]; cbn; [|rewrite IH].
  - intros. lia.
  - apply range_order_perm.
Qed.

Lemma lists_total_exact m : total m < 2 ^ 64 -> lists_total m = total m.
Proof.
  rewrite total_range. unfold lists_total. induction (range_map m) as [|[a l] es IH]; cbn; intros Hlt; [done|].
  assert (0 <= foldr (fun (e : Z * txList) n => Z.of_nat (tl_Len e.2) + n) 0 es) by (clear; induction es; cbn; lia).
  rewrite IH by lia. apply u64_id. unfold is_u64. lia.
Qed.

Lemma tl_Len_list l : sm_wf (txs l) -> tl_Len l = length (tl_list l).
Proof. intros Hw. unfold tl_Len, sm_Len. by rewrite <- index_size, <- sm_list_length. Qed.

Lemma all_Remove_txs_table txs p p' : all p = all p' -> all (all_Remove_txs txs p) = all (all_Remove_txs txs p').
Proof. unfold all_Remove_txs. revert p p'. induction txs as [|t txs IH]; cbn; intros p p' E; [done|]. apply IH. cbn. by rewrite E. Qed.

Lemma cap_fold addr txs p :
  let p' := foldl (drop_capped addr) p txs in
  pending p' = pending p /\ queue p' = queue p /\ all p' = all (all_Remove_txs txs p) /\ locals p' = locals p.
Proof.
  revert p. induction txs as [|tx txs IH]; intros p; [done|]. cbn [foldl]. destruct (IH (drop_capped addr p tx)) as (-> & -> & -> & ->).
  split; [done|]. split; [done|]. split; [|done]. by apply (all_Remove_txs_table txs (drop_capped addr p tx) (all_Remove (tx_Hash tx) p)).
Qed.

Lemma cap_offender_spec a p :
  pool_wf p -> 2 <= plen p a ->
  let p' := cap_offender a p in
  pool_wf p' /\ (forall b, plen p' b = if decide (b = a) then plen p a - 1 else plen p b) /\ total (pending p') = total (pending p) - 1 /\ locals p' = locals p.
Proof.
  unfold plen, list_Len. intros HG Hlen. unfold cap_offender. destruct (pending p !! a) as [l|] eqn:El; [|lia].
  destruct (agree_P _ _ _ _ _ _ (good_agree _ _ _ _ HG) _ _ El) as (Hw & _).
  destruct (tl_Cap (tl_Len l - 1) l) as [caps l'] eqn:Ec. destruct (tl_Cap_splits _ _ _ _ Hw Ec) as [Hs Ht].
  assert (Z.of_nat (tl_Len l') = Z.of_nat (tl_Len l) - 1) as Hl' by (rewrite !tl_Len_list, Ht, length_take by (done || apply Hs); rewrite tl_Len_list in Hlen |- * by done; lia).
  pose proof Hs as Hs'. rewrite <- (app_nil_r caps) in Hs'. destruct (good_drop_pending_txs a l caps [] l' p (or_introl HG) El Hs') as (HG1 & El1 & Hok1).
  set (q := p <| pending := <[ a := l' ]> (pending p) |>) in *. destruct (cap_fold a caps q) as (Hp & Hq & Ha & Hloc). cbn zeta.
  set (p1 := foldl _ q caps) in *. destruct (all_Remove_txs_lists caps q) as [Hp2 Hq2].
  assert (pool_wf (priced_Removed (zlen caps) p1)) as HG2.
  { assert (good (Some a) None [] p1) as [G1 G2 G3] by (eapply good_ext; [..|exact HG1]; congruence). split; [done| |done].
    change (full_but None (pending p1)). apply (full_but_kept _ a l'); [done|rewrite Hp; cbn; by rewrite lookup_insert_eq|]. intros C. rewrite tl_Len_list in Hl' by apply Hs. rewrite C in Hl'. cbn in Hl'. lia. }
  split; [done|]. cbn. rewrite Hp. cbn. split; [|split; [by rewrite (total_insert _ _ l) by done; lia|done]].
  intros b. rewrite lookup_insert. repeat case_decide; subst; done.
Qed.

(** The count is that of the pending transactions. *)
Definition counts (count : Z) (p : TxPool) : Prop := count = total (pending p) /\ count < 2 ^ 64.

Lemma cap_offenders_spec offs count p :
  pool_wf p -> NoDup offs -> Forall (fun o => 2 <= plen p o) offs ->
  let '(count', p') := cap_offenders offs count p in
  pool_wf p' /\ (counts count p -> counts count' p') /\ locals p' = locals p /\
  (forall b, plen p' b = if decide (b ∈ offs) then plen p b - 1 else plen p b).
Proof.
  unfold cap_offenders. revert count p. induction offs as [|o offs IH]; cbn [foldl]; intros count p HG Hnd Hlen.
  { split; [done|]. split; [done|]. split; [done|]. intros b. by rewrite decide_False by apply not_elem_of_nil. }
  apply NoDup_cons in Hnd as [Ho Hnd]. apply Forall_cons in Hlen as [Hlo Hlen]. destruct (cap_offender_spec o p HG Hlo) as (HG1 & Hp1 & Ht1 & Hl1). cbn [fst snd].
  assert (counts count p -> counts (u64 (count - 1)) (cap_offender o p)) as Hc1.
  { intros [Hc Hlt]. pose proof (total_nonneg (pending (cap_offender o p))) as Hnn. rewrite (u64_id (count - 1)) by (unfold is_u64; lia). split; lia. }
  specialize (IH (u64 (count - 1)) (cap_offender o p) HG1 Hnd). destruct (foldl _ _ offs) as [count' p'].
  destruct IH as (HG2 & Hc2 & Hl2 & Hp2).
  - apply Forall_forall. intros x Hx. rewrite Forall_forall in Hlen. rewrite Hp1, decide_False by (intros ->; done). auto.
  - split; [done|]. split; [auto|]. split; [congruence|]. intros b. rewrite Hp2, Hp1. repeat case_decide; subst; try set_solver; done.
Qed.

(** Rounds over offenders that all have the same number of transactions end with the
    count within the limit, or with all offenders at the threshold. *)
Lemma cap_rounds_spec rounds offs T L count p :
  pool_wf p -> NoDup offs -> offs <> [] -> 1 <= T <= L -> (forall o, o ∈ offs -> plen p o = L) -> L <= Z.of_nat rounds ->
  let '(count', p') := cap_rounds rounds offs T count p in
  pool_wf p' /\ (counts count p -> counts count' p') /\ locals p' = locals p /\ (forall b, b ∉ offs -> plen p' b = plen p b) /\
  exists L', T <= L' <= L /\ (forall o, o ∈ offs -> plen p' o = L') /\ (count' <= GlobalSlots config \/ L' = T).
Proof.
  revert count L p. induction rounds as [|rounds IH]; intros count L p HG Hnd Hne HT HL Hr; cbn [cap_rounds].
  { split; [done|]. split; [done|]. split; [done|]. split; [done|]. exists L. split; [lia|]. split; [done|]. lia. }
  assert (plen p (List.last offs 0) = L) as Hlast.
  { apply HL. destruct (exists_last Hne) as (k & x & ->). rewrite List.last_last. set_solver. }
  unfold plen in Hlast. rewrite Hlast. destruct ((GlobalSlots config <? count) && (T <? L)) eqn:Eg; bools.
  - pose proof (cap_offenders_spec offs count p HG Hnd) as Hs. destruct (cap_offenders offs count p) as [count1 p1].
    destruct Hs as (HG1 & Hc1 & Hl1 & Hp1). { apply Forall_forall. intros o Ho. rewrite (HL _ Ho). lia. }
    specialize (IH count1 (L - 1) p1 HG1 Hnd Hne). destruct (cap_rounds rounds offs T count1 p1) as [count' p'].
    destruct IH as (HG2 & Hc3 & Hl2 & Hout & L' & HL' & Hall & Hor); [lia|intros o Ho; rewrite Hp1, decide_True by done; rewrite (HL _ Ho); lia|lia|].
    split; [done|]. split; [auto|]. split; [congruence|]. split; [intros b Hb; rewrite (Hout _ Hb), Hp1, decide_False by done; done|].
    exists L'. split; [lia|]. done.
  - split; [done|]. split; [done|]. split; [done|]. split; [done|]. exists L. split; [lia|]. split; [done|]. destruct Eg; bools; lia.
Qed.

Lemma rounds_enough offs L p : offs <> [] -> (forall o, o ∈ offs -> plen p o = L) -> L <= Z.of_nat (rounds_for offs p).
Proof.
  intros Hne HL. unfold rounds_for. change (list_Len (pending p)) with (plen p). rewrite HL; [lia|]. destruct (exists_last Hne) as (k & x & ->). rewrite List.last_last. set_solver.
Qed.

(** The offenders so far have the same number of transactions, at least as many as
    each of the accounts that come after them. *)
Definition level (p : TxPool) (offs sp : list Z) : Prop :=
  offs = [] \/ exists L, AccountSlots config < L /\ (forall o, o ∈ offs -> plen p o = L) /\ (forall s, s ∈ sp -> plen p s <= L).

Lemma drop_offenders_spec sp offs count p :
  pool_wf p -> NoDup (offs ++ sp) -> StronglySorted (fun a b => plen p b <= plen p a) sp -> (forall s, s ∈ sp -> AccountSlots config < plen p s) ->
  1 <= AccountSlots config -> (count <= GlobalSlots config \/ level p offs sp) ->
  let '(offs', (count', p')) := drop_offenders sp offs count p in
  pool_wf p' /\ (counts count p -> counts count' p') /\ locals p' = locals p /\ NoDup offs' /\ (forall b, b ∉ offs ++ sp -> plen p' b = plen p b) /\
  (count' <= GlobalSlots config \/ (offs' = offs ++ sp /\ level p' offs' [])).
Proof.
  revert offs count p. induction sp as [|o sp IH]; intros offs count p HG Hnd Hsort Hbig Has Hlev; cbn [drop_offenders].
  { rewrite app_nil_r in *. repeat (split; [done|]). destruct Hlev; [by left|right]. done. }
  destruct (GlobalSlots config <? count) eqn:Eg; bools.
  2:{ apply NoDup_app in Hnd as (Hnd & _ & _). repeat (split; [done|]). by left. }
  destruct Hlev as [?|Hlev]; [lia|]. apply StronglySorted_inv in Hsort as [Hsort Hmax]. rewrite Forall_forall in Hmax.
  pose proof (Hbig o ltac:(set_solver)) as Hbo.
  set (r := match offs with [] => (count, p) | _ => cap_rounds (rounds_for offs p) offs (list_Len (pending p) o) count p end).
  assert (exists count1 p1, r = (count1, p1) /\ pool_wf p1 /\ (counts count p -> counts count1 p1) /\ locals p1 = locals p /\
    (forall b, b ∉ offs -> plen p1 b = plen p b) /\ (count1 <= GlobalSlots config \/ (forall x, x ∈ offs -> plen p1 x = plen p o))) as (count1 & p1 & Er & HG1 & Hc1 & Hl1 & Hout1 & Hor1).
  { destruct Hlev as [->|(L & HL & Hoffs & Hsp)].
    { exists count, p. repeat (split; [done|]). right. intros x Hx. by apply elem_of_nil in Hx. }
    destruct offs as [|x offs]; [exists count, p; repeat (split; [done|]); right; intros x Hx; by apply elem_of_nil in Hx|].
    pose proof (cap_rounds_spec (rounds_for (x :: offs) p) (x :: offs) (plen p o) L count p HG) as Hs. unfold r. change (list_Len (pending p) o) with (plen p o).
    destruct (cap_rounds _ _ _ _ _) as [count1 p1]. exists count1, p1.
    destruct Hs as (HG1 & Hc1 & Hl1 & Hout & L' & HL' & Hall & Hor); [by apply NoDup_app in Hnd as (? & _ & _)|done|split; [lia|apply Hsp; set_solver]|done|by apply rounds_enough|].
    repeat (split; [done|]). destruct Hor as [Hor | ->]; [by left|by right]. }
  rewrite Er. assert (NoDup ((offs ++ [o]) ++ sp)) as Hnd' by (by rewrite <- app_assoc).
  assert (forall s, s ∈ o :: sp -> plen p1 s = plen p s) as Hkeep by (intros s Hs; apply Hout1; intros C; apply NoDup_app in Hnd as (_ & Hd & _); by apply (Hd s)).
  specialize (IH (offs ++ [o]) count1 p1 HG1 Hnd'). destruct (drop_offenders sp (offs ++ [o]) count1 p1) as [offs' [count' p']].
  destruct IH as (HG2 & Hc2 & Hl2 & Hnd2 & Hout2 & Hor2); [|intros s Hs; rewrite Hkeep by set_solver; apply Hbig; set_solver|done| |].
  - clear -Hsort Hkeep. induction Hsort as [|x sp Hs IH Hx]; constructor; [apply IH; intros; apply Hkeep; set_solver|].
    apply Forall_forall. intros y Hy. rewrite Forall_forall in Hx. rewrite !Hkeep by set_solver. auto.
  - destruct Hor1 as [?|Hor1]; [by left|right]. right. exists (plen p o). split; [done|]. split.
    + intros x [Hx|Hx]%elem_of_app; [auto|]. apply list_elem_of_singleton in Hx as ->. rewrite Hkeep; [done|set_solver].
    + intros s Hs. rewrite Hkeep by set_solver. auto.
  - rewrite <- app_assoc in Hout2, Hor2. split; [done|]. split; [auto|]. split; [congruence|]. split; [done|]. split; [|done].
    intros b Hb. rewrite Hout2 by done. apply Hout1. set_solver.
Qed.

#[local] Instance more_txs_trans : Transitive more_txs.
Proof. unfold more_txs. intros a b c. lia. Qed.

#[local] Instance more_txs_total : Total more_txs.
Proof. unfold more_txs. intros a b. lia. Qed.

Lemma spammers_spec p :
  0 <= AccountSlots config ->
  NoDup (spammers p) /\ StronglySorted (fun a b => plen p b <= plen p a) (spammers p) /\ (forall a, a ∈ spammers p <-> a ∉ locals p /\ AccountSlots config < plen p a).
Proof.
  intros Has. unfold spammers. set (es := filter _ (range_map (pending p))).
  assert (forall e, e ∈ merge_sort more_txs es <-> pending p !! e.1 = Some e.2 /\ e.1 ∉ locals p /\ AccountSlots config < Z.of_nat (tl_Len e.2)) as Hin.
  { intros [a l]. rewrite merge_sort_Permutation. unfold es. rewrite list_elem_of_filter, elem_of_range_map. cbn. unfold txpool_contains.
    rewrite andb_true_iff, negb_true_iff, bool_decide_eq_false, Z.ltb_lt. tauto. }
  split; [|split].
  - rewrite merge_sort_Permutation. eapply sublist_NoDup; [|apply fmap_sublist, sublist_filter]. apply NoDup_range_map_fst.
  - assert (forall e, e ∈ merge_sort more_txs es -> plen p e.1 = Z.of_nat (tl_Len e.2)) as Hlen by (intros e [He _]%Hin; unfold plen, list_Len; by rewrite He).
    assert (StronglySorted more_txs (merge_sort more_txs es)) as Hs by (apply (StronglySorted_merge_sort more_txs)).
    clear Hin. induction Hs as [|e es' Hs IH He]; cbn; constructor; [apply IH; intros; apply Hlen; set_solver|].
    apply Forall_fmap, Forall_forall. intros e' He'. rewrite Forall_forall in He. specialize (He _ He'). cbn. rewrite !Hlen by set_solver. unfold more_txs in He. lia.
  - intros a. rewrite list_elem_of_fmap. split.
    + intros (e & -> & (He & Hl & Hb)%Hin). split; [done|]. unfold plen, list_Len. by rewrite He.
    + intros [Hl Hb]. unfold plen, list_Len in Hb. destruct (pending p !! a) as [l|] eqn:El; [|lia]. exists (a, l). split; [done|]. by apply Hin.
Qed.

Lemma truncatePending_spec p :
  pool_wf p ->
  pool_wf (truncatePending p) /\ locals (truncatePending p) = locals p /\
  (total (pending p) < 2 ^ 64 -> total (pending (truncatePending p)) <= GlobalSlots config \/ forall a, a ∉ locals p -> plen (truncatePending p) a <= AccountSlots config).
Proof.
  intros HG. pose proof config_slots as Has. unfold truncatePending. destruct (lists_total (pending p) <=? GlobalSlots config) eqn:Eg; bools.
  { split; [done|]. split; [done|]. intros Hlt. rewrite lists_total_exact in Eg by done. by left. }
  destruct (spammers_spec p ltac:(lia)) as (Hnd & Hsort & Hin).
  pose proof (drop_offenders_spec (spammers p) [] (lists_total (pending p)) p HG Hnd Hsort) as Hs. destruct (drop_offenders _ _ _ _) as [offs [count p1]].
  destruct Hs as (HG1 & Hc1 & Hl1 & Hnd1 & Hout & Hor); [intros s Hx; by apply Hin|done|by right; left|].
  assert (total (pending p) < 2 ^ 64 -> counts (lists_total (pending p)) p) as Hct by (intros; split; rewrite lists_total_exact; done).
  assert (forall a, a ∉ locals p -> a ∉ spammers p -> plen p a <= AccountSlots config) as Hsmall.
  { intros a Ha Hs. rewrite Hin in Hs. assert (~ AccountSlots config < plen p a) by tauto. lia. }
  destruct ((GlobalSlots config <? count) && (0 <? zlen offs)) eqn:E2; bools.
  - destruct Hor as [?|[-> Hlev]]; [lia|]. destruct Hlev as [C|(L & HL & Hoffs & _)]; [rewrite C in *; done|]. cbn [app] in *.
    assert (spammers p <> []) as Hne by (intros C; rewrite C in *; done).
    pose proof (cap_rounds_spec (rounds_for (spammers p) p1) (spammers p) (AccountSlots config) L count p1 HG1 Hnd Hne) as Hr. destruct (cap_rounds _ _ _ _ _) as [count2 p2]. cbn [snd].
    destruct Hr as (HG2 & Hc2 & Hl2 & Hout2 & L' & HL' & Hall & Hor); [lia|done|by apply rounds_enough|].
    split; [done|]. split; [congruence|]. intros Hlt. destruct (Hc2 (Hc1 (Hct Hlt))) as [Hcnt _]. destruct Hor as [Hor | ->]; [left; lia|right]. intros a Ha.
    destruct (decide (a ∈ spammers p)) as [Hs|Hs]; [rewrite Hall by done; lia|]. rewrite Hout2, Hout by done. auto.
  - split; [done|]. split; [done|]. intros Hlt. destruct (Hc1 (Hct Hlt)) as [Hcnt _]. destruct E2 as [E2|E2]; bools; [left; lia|]. apply zlen_0_nil in E2. subst offs.
    destruct Hor as [Hor|[Hsp _]]; [left; lia|right]. cbn [app] in *. intros a Ha. assert (a ∉ spammers p) as Hs by (rewrite <- Hsp; apply not_elem_of_nil).
    rewrite Hout by done. auto.
Qed.







#[local] Instance earlier_trans : Transitive earlier.
Proof. unfold earlier. intros a b c. lia. Qed.



(** The pending nonces follow the lists; no list is empty, so there is a last one. *)
Lemma update_nonces_spec addrs p :
  pool_wf p -> exists p', update_nonces addrs p = Some p' /\ pool_wf p' /\ queue p' = queue p /\ all p' = all p /\ locals p' = locals p /\
    (forall a, plen p' a = plen p a) /\ total (pending p') = total (pending p) /\ (forall t, held (pending p') t <-> held (pending p) t).
Proof.
  revert p. induction addrs as [|a addrs IH]; cbn [update_nonces]; intros p HG; [exists p; repeat (split; [done|]); done|].
  destruct (pending p !! a) as [l|] eqn:El; [|by apply IH].
  pose proof (agree_P _ _ _ _ _ _ (good_agree _ _ _ _ HG) _ _ El) as (Hw & Hb & Hsend). destruct (tl_Flatten l) as [out l'] eqn:E.
  destruct (tl_Flatten_same _ _ _ Hw E) as (-> & Hw' & Hb' & Hi & Hl).
  pose proof (good_pending _ _ _ _ HG _ _ El ltac:(done)) as Hne. destruct (exists_last Hne) as (k & tx & Hk). rewrite Hk, last_snoc. cbn [mbind option_bind].
  set (p1 := _ <| pendingNonces := _ |>).
  assert (pool_wf p1) as HG1.
  { destruct HG as [G1 G2 G3]. split; cbn; [|apply full_but_insert; [done|]; intros _; by rewrite Hl|done].
    eapply agree_insert_same; [done..| |done]. split; [done|]. rewrite Hl. split; [congruence|done]. }
  destruct (IH p1 HG1) as (p' & Hu & HG' & Hq & Ha & Hloc & Hlen & Htot & Hh). exists p'. split; [exact Hu|]. split; [done|].
  split; [by rewrite Hq|]. split; [by rewrite Ha|]. split; [by rewrite Hloc|].
  assert (tl_Len l' = tl_Len l) as Hll by (by rewrite !tl_Len_list, Hl).
  split; [|split].
  - intros b. rewrite Hlen. unfold plen, list_Len. cbn. rewrite lookup_insert. case_decide; [|done]. subst. by rewrite El, Hll.
  - rewrite Htot. cbn. rewrite (total_insert _ _ l) by done. lia.
  - intros t. rewrite Hh. unfold held. cbn. rewrite cell_insert. case_decide as Ea; [|done]. unfold cell. by rewrite <- Ea, El, Hi.
Qed.

(** ** The walk of a reset *)

(** The blocks from [b] down to [anc], without [anc], have the transactions [txs]. *)
Inductive branch : PoolBlock -> PoolBlock -> list Transaction -> Prop :=
  | branch_nil b : branch b b []
  | branch_cons b b' anc txs : GetBlock (pb_ParentHash b) (u64 (pb_Number b - 1)) = Some b' -> branch b' anc txs -> branch b anc (pb_Txs b ++ txs).

Lemma branch_snoc b b' b'' txs : branch b b' txs -> GetBlock (pb_ParentHash b') (u64 (pb_Number b' - 1)) = Some b'' -> branch b b'' (txs ++ pb_Txs b').
Proof.
  induction 1 as [b|b b1 anc txs Hb Hbr IH]; intros Hg.
  - cbn. rewrite <- (app_nil_r (pb_Txs b)). eapply branch_cons; [done|constructor].
  - rewrite <- app_assoc. eapply branch_cons; [done|]. by apply IH.
Qed.

(** The height of a block that the chain has. *)
Definition in_chain (b : PoolBlock) : Prop := 0 <= pb_Number b < 2 ^ 64 - 1.

Lemma GetBlock_in_chain hash number b : GetBlock hash number = Some b -> in_chain b /\ pb_Number b = number.
Proof. intros E. destruct (GetBlock_sound _ _ _ E) as (_ & Hn & Hr). unfold in_chain. rewrite Hn. done. Qed.

Lemma parent_below b b' : in_chain b -> GetBlock (pb_ParentHash b) (u64 (pb_Number b - 1)) = Some b' -> in_chain b' /\ pb_Number b' = pb_Number b - 1.
Proof.
  unfold in_chain. intros Hb E. destruct (GetBlock_in_chain _ _ _ E) as [Hc Hn]. split; [done|]. rewrite Hn. unfold in_chain in Hc. rewrite Hn in Hc.
  destruct (decide (pb_Number b = 0)) as [E0|E0]; [|apply u64_id; unfold is_u64; lia]. rewrite E0 in Hc. replace (u64 (0 - 1)) with (2 ^ 64 - 1) in Hc by done. lia.
Qed.

Lemma descend_spec n target top b txs :
  in_chain b -> 0 <= target -> pb_Number b - target <= Z.of_nat n -> branch top b txs ->
  exists r, descend n target b txs = Some r /\
  match r with None => True | Some (b', txs') => in_chain b' /\ branch top b' txs' /\ pb_Number b' = Z.min (pb_Number b) target end.
Proof.
  revert b txs. induction n as [|n IH]; intros b txs Hb Ht Hn Hbr; cbn [descend]; destruct (target <? pb_Number b) eqn:E; bools; try lia.
  - exists (Some (b, txs)). split; [done|]. split; [done|]. split; [done|]. lia.
  - destruct (GetBlock _ _) as [b'|] eqn:Eg; [|by exists None]. destruct (parent_below _ _ Hb Eg) as [Hb' Hn'].
    destruct (IH b' (txs ++ pb_Txs b) Hb' Ht ltac:(lia) (branch_snoc _ _ _ _ Hbr Eg)) as (r & Hr & Hspec). exists r. split; [done|].
    destruct r as [[b1 txs1]|]; [|done]. destruct Hspec as (? & ? & ?). split; [done|]. split; [done|]. lia.
  - exists (Some (b, txs)). split; [done|]. split; [done|]. split; [done|]. lia.
Qed.

Lemma meet_spec n top1 top2 rem add d i :
  in_chain rem -> in_chain add -> pb_Number add = pb_Number rem -> pb_Number rem + 1 <= Z.of_nat n -> branch top1 rem d -> branch top2 add i ->
  match meet n rem add d i with
  | Met rem' add' d' i' => pb_Hash rem' = pb_Hash add' /\ branch top1 rem' d' /\ branch top2 add' i'
  | Unrooted => True
  | Unfinished => False
  end.
Proof.
  revert rem add d i. induction n as [|n IH]; intros rem add d i Hr Ha He Hn Hb1 Hb2; cbn [meet]; destruct (bytes_Equal (pb_Hash rem) (pb_Hash add)) eqn:E; bools; try done.
  - unfold in_chain in Hr. lia.
  - destruct (GetBlock (pb_ParentHash rem) _) as [rem'|] eqn:E1; [|done]. destruct (GetBlock (pb_ParentHash add) _) as [add'|] eqn:E2; [|done].
    destruct (parent_below _ _ Hr E1) as [Hr' Hn1]. destruct (parent_below _ _ Ha E2) as [Ha' Hn2]. apply IH; [done|done|lia|lia|by eapply branch_snoc|by eapply branch_snoc].
Qed.

Lemma walk_spec rem add :
  in_chain rem -> in_chain add ->
  match walk rem add with
  | Met rem' add' d i => pb_Hash rem' = pb_Hash add' /\ branch rem rem' d /\ branch add add' i
  | Unrooted => True
  | Unfinished => False
  end.
Proof.
  intros Hr Ha. unfold walk, blocks_below. pose proof Hr as Hr'. pose proof Ha as Ha'. unfold in_chain in Hr', Ha'.
  destruct (descend_spec (S (Z.to_nat (pb_Number rem))) (pb_Number add) rem rem [] Hr ltac:(lia) ltac:(lia) (branch_nil _)) as (r1 & -> & H1').
  destruct r1 as [[rem1 d]|]; [|done]. destruct H1' as (Hr1 & Hb1 & Hn1). pose proof Hr1 as Hr1'. unfold in_chain in Hr1'.
  destruct (descend_spec (S (Z.to_nat (pb_Number add))) (pb_Number rem1) add add [] Ha ltac:(lia) ltac:(lia) (branch_nil _)) as (r2 & -> & H2').
  destruct r2 as [[add1 i]|]; [|done]. destruct H2' as (Ha1 & Hb2 & Hn2). apply meet_spec; try done; lia.
Qed.

(** No block is missing above a block that both branches reach. *)
Lemma branch_number b anc txs : in_chain b -> branch b anc txs -> pb_Number anc <= pb_Number b /\ (pb_Number anc = pb_Number b -> b = anc).
Proof.
  intros Hb Hbr. induction Hbr as [b|b b' anc txs Hg Hbr IH]; [split; [lia|done]|]. destruct (parent_below _ _ Hb Hg) as [Hb' Hn]. destruct (IH Hb') as [Hle _]. split; lia.
Qed.

Lemma branch_parent b anc txs :
  in_chain b -> branch b anc txs -> pb_Number anc < pb_Number b -> exists b' txs', GetBlock (pb_ParentHash b) (u64 (pb_Number b - 1)) = Some b' /\ branch b' anc txs'.
Proof. intros Hb Hbr Hlt. destruct Hbr as [b|b b' anc txs Hg Hbr]; [lia|]. by exists b', txs. Qed.

Lemma descend_rooted n target b txs anc down :
  in_chain b -> branch b anc down -> pb_Number anc <= target -> descend n target b txs <> Some None /\
  (forall b' txs', descend n target b txs = Some (Some (b', txs')) -> exists down', branch b' anc down').
Proof.
  revert b txs down. induction n as [|n IH]; intros b txs down Hb Hbr Hle; cbn [descend]; destruct (target <? pb_Number b) eqn:E; bools; try (split; [done|]; intros; simplify_eq; eauto).
  destruct (branch_parent _ _ _ Hb Hbr ltac:(lia)) as (b1 & down1 & Hg & Hbr1). rewrite Hg. destruct (parent_below _ _ Hb Hg) as [Hb1 _]. by eapply IH.
Qed.

Lemma meet_rooted n rem add d i anc down1 down2 :
  in_chain rem -> in_chain add -> pb_Number add = pb_Number rem -> branch rem anc down1 -> branch add anc down2 -> meet n rem add d i <> Unrooted.
Proof.
  revert rem add d i down1 down2. induction n as [|n IH]; intros rem add d i down1 down2 Hr Ha He Hb1 Hb2; cbn [meet]; destruct (bytes_Equal (pb_Hash rem) (pb_Hash add)) eqn:E; bools; try done.
  destruct (branch_number _ _ _ Hr Hb1) as [Hn1 Heq1]. destruct (branch_number _ _ _ Ha Hb2) as [Hn2 Heq2].
  assert (pb_Number anc <> pb_Number rem) as Hne by (intros C; rewrite (Heq1 C), (Heq2 ltac:(lia)) in E; done).
  destruct (branch_parent _ _ _ Hr Hb1 ltac:(lia)) as (rem' & d1 & Hg1 & Hb1'). destruct (branch_parent _ _ _ Ha Hb2 ltac:(lia)) as (add' & d2 & Hg2 & Hb2').
  rewrite Hg1, Hg2. destruct (parent_below _ _ Hr Hg1) as [? ?]. destruct (parent_below _ _ Ha Hg2) as [? ?]. eapply IH; [done|done|lia|done|done].
Qed.

(** The blocks that the chain finds by their own hash and height. *)
Definition found (b : PoolBlock) : Prop := GetBlock (pb_Hash b) (pb_Number b) = Some b.

Lemma GetBlock_found hash number b : GetBlock hash number = Some b -> found b.
Proof. intros E. destruct (GetBlock_sound _ _ _ E) as (Hh & Hn & _). unfold found. by rewrite Hh, Hn. Qed.

Lemma branch_found b anc txs : found b -> branch b anc txs -> found anc.
Proof. intros Hf Hbr. induction Hbr as [|b b' anc txs Hg _ IH]; [done|]. by eapply IH, GetBlock_found. Qed.

(** Where the walk ends, and that no block above it is on both branches. *)
Lemma meet_first n rem add d i rem' add' d' i' x down1 down2 :
  in_chain rem -> in_chain add -> pb_Number add = pb_Number rem -> branch rem x down1 -> branch add x down2 ->
  meet n rem add d i = Met rem' add' d' i' -> pb_Number x <= pb_Number rem' /\ pb_Number rem' = pb_Number add'.
Proof.
  revert rem add d i down1 down2. induction n as [|n IH]; intros rem add d i down1 down2 Hr Ha He Hb1 Hb2; cbn [meet];
    destruct (bytes_Equal (pb_Hash rem) (pb_Hash add)) eqn:E; bools; try done;
    destruct (branch_number _ _ _ Hr Hb1) as [Hn1 Heq1]; destruct (branch_number _ _ _ Ha Hb2) as [Hn2 Heq2]; try (intros; simplify_eq; done).
  assert (pb_Number x <> pb_Number rem) as Hne by (intros C; rewrite (Heq1 C), (Heq2 ltac:(lia)) in E; done).
  destruct (branch_parent _ _ _ Hr Hb1 ltac:(lia)) as (rem1 & d1 & Hg1 & Hb1'). destruct (branch_parent _ _ _ Ha Hb2 ltac:(lia)) as (add1 & d2 & Hg2 & Hb2').
  rewrite Hg1, Hg2. destruct (parent_below _ _ Hr Hg1) as [? ?]. destruct (parent_below _ _ Ha Hg2) as [? ?]. eapply IH; [done|done|lia|done|done].
Qed.

(** The two walks down to the same height, with everything that both branches have. *)
Lemma walk_level rem add anc down1 down2 :
  in_chain rem -> in_chain add -> branch rem anc down1 -> branch add anc down2 ->
  exists rem1 add1 d i, walk rem add = meet (blocks_below rem1) rem1 add1 d i /\ in_chain rem1 /\ in_chain add1 /\ pb_Number add1 = pb_Number rem1 /\
  forall x dx dy, branch rem x dx -> branch add x dy -> exists dx' dy', branch rem1 x dx' /\ branch add1 x dy'.
Proof.
  intros Hr Ha Hb1 Hb2. destruct (branch_number _ _ _ Ha Hb2) as [Hn2 _]. destruct (branch_number _ _ _ Hr Hb1) as [Hn1 _]. unfold walk.
  pose proof (fun x dx Hx Hle => descend_rooted (blocks_below rem) (pb_Number add) rem [] x dx Hr Hx Hle) as HD1.
  destruct (descend_spec (blocks_below rem) (pb_Number add) rem rem [] Hr ltac:(unfold in_chain in Ha; lia) ltac:(unfold blocks_below, in_chain in *; lia) (branch_nil _)) as (r1 & E1 & Hs1).
  rewrite E1 in HD1 |- *. destruct r1 as [[rem1 d]|]; [|by destruct (HD1 _ _ Hb1 Hn2)]. destruct Hs1 as (Hr1 & _ & Hm1).
  assert (forall x dx dy, branch rem x dx -> branch add x dy -> exists dx', branch rem1 x dx') as HX1.
  { intros x dx dy Hx Hy. destruct (branch_number _ _ _ Ha Hy) as [Hle _]. destruct (HD1 _ _ Hx Hle) as [_ H']. by apply (H' _ _ eq_refl). }
  pose proof (fun x dx Hx Hle => descend_rooted (blocks_below add) (pb_Number rem1) add [] x dx Ha Hx Hle) as HD2.
  destruct (descend_spec (blocks_below add) (pb_Number rem1) add add [] Ha ltac:(unfold in_chain in Hr1; lia) ltac:(unfold blocks_below, in_chain in *; lia) (branch_nil _)) as (r2 & E2 & Hs2).
  destruct (HX1 _ _ _ Hb1 Hb2) as [dn1 Hbr1]. destruct (branch_number _ _ _ Hr1 Hbr1) as [Hn3 _].
  rewrite E2 in HD2 |- *. destruct r2 as [[add1 i]|]; [|by destruct (HD2 _ _ Hb2 Hn3)]. destruct Hs2 as (Ha1 & _ & Hm2).
  exists rem1, add1, d, i. split; [done|]. split; [done|]. split; [done|]. split; [lia|]. intros x dx dy Hx Hy. destruct (HX1 _ _ _ Hx Hy) as [dx' Hx']. exists dx'.
  destruct (branch_number _ _ _ Hr1 Hx') as [Hle _]. destruct (HD2 _ _ Hy Hle) as [_ H']. destruct (H' _ _ eq_refl) as [dy' Hy']. by exists dy'.
Qed.

Lemma walk_rooted rem add anc down1 down2 :
  found rem -> found add -> in_chain rem -> in_chain add -> branch rem anc down1 -> branch add anc down2 ->
  exists top d i, walk rem add = Met top top d i /\ branch rem top d /\ branch add top i /\
  forall x dx dy, branch rem x dx -> branch add x dy -> pb_Number x <= pb_Number top.
Proof.
  intros Fr Fa Hr Ha Hb1 Hb2. pose proof (walk_spec rem add Hr Ha) as Hw. destruct (walk_level _ _ _ _ _ Hr Ha Hb1 Hb2) as (rem1 & add1 & d & i & Ew & Hr1 & Ha1 & Hn & HX).
  destruct (HX _ _ _ Hb1 Hb2) as (dn1 & dn2 & Hx1 & Hx2). pose proof (meet_rooted (blocks_below rem1) _ _ d i _ _ _ Hr1 Ha1 Hn Hx1 Hx2) as Hnu. rewrite Ew in Hw |- *.
  destruct (meet _ _ _ _ _) as [rem' add' d' i'| |] eqn:Em; [|done|done]. destruct Hw as (Hh & Hd & Hi).
  destruct (meet_first _ _ _ _ _ _ _ _ _ _ _ _ Hr1 Ha1 Hn Hx1 Hx2 Em) as [_ Hn'].
  assert (rem' = add') as <-.
  { pose proof (branch_found _ _ _ Fr Hd) as H1'. pose proof (branch_found _ _ _ Fa Hi) as H2'. unfold found in H1', H2'. rewrite Hh, Hn' in H1'. congruence. }
  exists rem', d', i'. split; [done|]. split; [done|]. split; [done|]. intros x dx dy Hx Hy. destruct (HX _ _ _ Hx Hy) as (dx' & dy' & Hx' & Hy').
  exact (proj1 (meet_first _ _ _ _ _ _ _ _ _ _ _ _ Hr1 Ha1 Hn Hx' Hy' Em)).
Qed.

Lemma reset_good oldHead newHead p p' : pool_wf p -> reset oldHead newHead p = Some p' -> pool_wf p'.
Proof.
  unfold reset. intros HG E. destruct (reinjected oldHead newHead) as [[l|]|]; cbn in E; [|by simplify_eq|done]. destruct (StateAt _) as [st|err]; [|by simplify_eq].
  destruct (addTxsLocked _ _ _ _) as [[[errs dirty] q]|] eqn:Ea; cbn in E; [|done]. simplify_eq.
  eapply good_ext; [..|eapply addTxsLocked_good; [|exact Ea]]; try done. by eapply good_ext; [..|exact HG].
Qed.

Lemma put_events_pool acc addrs : pool_wf acc.2 -> pool_wf (foldl forward_event acc addrs).2.
Proof.
  revert acc. induction addrs as [|a addrs IH]; cbn [foldl]; intros [events p] HG; [done|]. apply IH. cbn in HG |- *.
  destruct (events !! a); [|done]. destruct (noncer_get _ _). destruct (sm_Forward _ _). by apply good_nonces.
Qed.


(** The last step of a reorganisation. *)
Definition truncated (q : TxPool) : option TxPool :=
  let t := truncateQueue (truncatePending q) in update_nonces (range_map (pending t)).*1 t.

Lemma truncated_returns q : pool_wf q -> exists p', truncated q = Some p' /\ pool_wf p'.
Proof.
  intros HG. destruct (truncatePending_spec q HG) as (HG3 & _ & _). pose proof (truncateQueue_good _ HG3) as HG4.
  destruct (update_nonces_spec (range_map (pending (truncateQueue (truncatePending q)))).*1 _ HG4) as (p' & E & HG5 & _). by exists p'.
Qed.

Lemma runReorg_truncates now rst dirty events p :
  pool_wf p -> match rst with None => True | Some (oldHead, newHead) => is_Some (reset oldHead newHead p) end ->
  exists announced q, pool_wf q /\ runReorg now rst dirty events p = (p' ← truncated q; Some (announced, p')).
Proof.
  intros HG Hr. unfold runReorg.
  set (m := match rst with None => _ | Some _ => _ end).
  assert (exists addrs ev q, m = Some (addrs, ev, q) /\ pool_wf q) as (addrs & ev & q & -> & HGq).
  { subst m. destruct rst as [[oldHead newHead]|]; [|by eexists _, _, _]. destruct Hr as [q Hq]. rewrite Hq. cbn [mbind option_bind].
    pose proof (put_events_pool (events, q) (range_map events).*1 (reset_good _ _ _ _ HG Hq)) as HGq. destruct (foldl forward_event _ _) as [ev q']. by eexists _, _, _. }
  cbn [mbind option_bind]. pose proof (promoteExecutables_good now addrs q HGq) as HG1. destruct (promoteExecutables now addrs q) as [promoted p1]. cbn [snd] in HG1.
  exists (all_events (foldl put_event ev promoted)), (match rst with Some _ => demoteUnexecutables p1 | None => p1 end).
  split; [destruct rst; [by apply demoteUnexecutables_good|done]|done].
Qed.

Lemma runReorg_spec now rst dirty events p :
  pool_wf p -> match rst with None => True | Some (oldHead, newHead) => is_Some (reset oldHead newHead p) end ->
  exists announced p', runReorg now rst dirty events p = Some (announced, p') /\ pool_wf p'.
Proof.
  intros HG Hr. destruct (runReorg_truncates now rst dirty events p HG Hr) as (announced & q & HGq & ->).
  destruct (truncated_returns q HGq) as (p' & -> & HG'). by exists announced, p'.
Qed.

Lemma empty_wf p : pending p = ∅ -> queue p = ∅ -> all p = ∅ -> pool_wf p.
Proof.
  intros E1 E2 E3. split; rewrite ?E1, ?E2, ?E3; try (intros a l; by rewrite lookup_empty). split.
  - apply map_Forall_empty.
  - apply map_Forall_empty.
  - intros a n. left. unfold cell. by rewrite lookup_empty.
  - constructor.
  - intros tx Hx. by apply elem_of_nil in Hx.
  - intros h tx. rewrite lookup_empty. split; [done|]. unfold held, cell. rewrite !lookup_empty. intros (_ & [?|[?|?%elem_of_nil]]); done.
Qed.

Lemma NewTxPool_good spv jr p : NewTxPool spv jr = Some p -> pool_wf p.
Proof. unfold NewTxPool. destruct (StateAt _); [|done]. intros E. eapply reset_good; [|exact E]. by apply empty_wf. Qed.

(** ** What can happen to a pool *)
Inductive pool_step : TxPool -> TxPool -> Prop :=
  | step_add txs local p errs dirty p' : addTxs txs local p = Some (errs, dirty, p') -> pool_step p p'
  | step_remove hash outofbound p : pool_step p (removeTx hash outofbound p)
  | step_price price p : pool_step p (SetGasPrice price p)
  | step_evict now p : pool_step p (evict now p)
  | step_flatten addr p : pool_step p (flatten_queue addr p).2
  | step_reorg now rst dirty events p announced p' : runReorg now rst dirty events p = Some (announced, p') -> pool_step p p'.

Inductive pool_reachable : TxPool -> Prop :=
  | reach_new spv jr p : NewTxPool spv jr = Some p -> pool_reachable p
  | reach_step p p' : pool_reachable p -> pool_step p p' -> pool_reachable p'.

Lemma runReorg_reset now rst dirty events p r : runReorg now rst dirty events p = Some r -> match rst with None => True | Some (oldHead, newHead) => is_Some (reset oldHead newHead p) end.
Proof. unfold runReorg. destruct rst as [[oldHead newHead]|]; [|done]. by destruct (reset oldHead newHead p). Qed.

Lemma pool_reachable_wf p : pool_reachable p -> pool_wf p.
Proof.
  induction 1 as [spv jr p E|p p' _ IH Hs]; [by eapply NewTxPool_good|]. destruct Hs as [txs local p errs dirty p' E| | | | |now rst dirty events p announced p' E].
  - by eapply addTxs_good.
  - by apply removeTx_good.
  - by apply SetGasPrice_good.
  - by apply evict_good.
  - by apply flatten_queue_good.
  - destruct (runReorg_spec now rst dirty events p IH (runReorg_reset _ _ _ _ _ _ E)) as (? & ? & E' & ?). congruence.
Qed.






Lemma Status_unknown hash p : pool_wf p -> Status hash p = TxStatusUnknown <-> pool_Get hash p = None.
Proof.
  intros HG. unfold Status, pool_Get. destruct (all p !! hash) as [tx|] eqn:E; [|done]. split; [|done].
  destruct (good_lookup _ _ _ _ _ HG E) as [_ [Hh|Hh]]; destruct (held_list _ _ Hh) as (l & Hl & Hi); unfold sm_Get.
  - by rewrite Hl, Hi.
  - rewrite Hl, Hi. by repeat case_match.
Qed.

(** ** Accepted transactions *)
Lemma enqueueTx_found tx p r : all p !! tx_Hash tx = None -> (enqueueTx (tx_Hash tx) tx p).1 = inl r -> all (enqueueTx (tx_Hash tx) tx p).2 !! tx_Hash tx = Some tx.
Proof.
  intros Hn. unfold enqueueTx. destruct (tl_Add _ _ _) as [[ok old] l']. destruct ok; [|done]. cbn [negb]. intros _.
  destruct old as [o|]; cbn.
  - assert (delete (tx_Hash o) (all p) !! tx_Hash tx = None) as -> by (rewrite lookup_delete_None; auto). cbn. by rewrite lookup_insert_eq.
  - rewrite Hn. cbn. by rewrite lookup_insert_eq.
Qed.

Lemma add_checked_found tx local p r p' : all p !! tx_Hash tx = None -> add_checked tx local p = (inl r, p') -> all p' !! tx_Hash tx = Some tx.
Proof.
  intros Hn. assert (forall q, add_queued tx local p = (inl r, q) -> all q !! tx_Hash tx = Some tx) as Hq.
  { intros q. unfold add_queued. pose proof (enqueueTx_found tx p) as Hf. destruct (enqueueTx (tx_Hash tx) tx p) as [[r0|err] p1]; [|done]. intros E. simplify_eq.
    specialize (Hf r Hn eq_refl). cbn in Hf. unfold journalTx. by repeat case_match. }
  unfold add_checked. destruct (pending p !! sender_of tx) as [l|]; [|apply Hq]. case_match; [|apply Hq].
  destruct (tl_Add tx (PriceBump config) l) as [[ok old] l']. destruct ok; [|done]. intros E. injection E as _ <-. unfold journalTx. destruct old; cbn; repeat case_match; cbn; by rewrite lookup_insert_eq.
Qed.

(** What [validateTx] lets through. *)
Lemma validateTx_accepts tx local p :
  validateTx tx local p = Some None ->
  exists from, Sender tx = inl from /\ tx_Size tx <= 32 * 1024 /\ 0 <= Amount tx /\ GasLimit tx <= currentMaxGas p /\
    (local = true \/ from ∈ locals p \/ gasPrice p <= Price tx) /\ head_Nonce (currentState p) from <= AccountNonce tx /\
    validate_rest tx from p = None /\
    (match Recipient tx with
     | Some to => exempt to tx = Some true \/ tx_Cost tx <= head_Balance (currentState p) from
     | None => Address_Hex (CreateAddress from (head_Nonce (currentState p) from)) = pool_BlackContractAddr \/ tx_Cost tx <= head_Balance (currentState p) from
     end).
Proof.
  unfold validateTx. intros E. destruct (32 * 1024 <? tx_Size tx) eqn:E1; [done|]. destruct (Amount tx <? 0) eqn:E2; [done|]. destruct (currentMaxGas p <? GasLimit tx) eqn:E3; [done|].
  destruct (Sender tx) as [from|]; [|done]. exists from. destruct (negb (local || txpool_contains from p) && (Price tx <? gasPrice p)) eqn:E4; [done|].
  destruct (match GetMinGasPrice _ with inl _ => _ | inr _ => _ end); [done|]. destruct (AccountNonce tx <? head_Nonce (currentState p) from) eqn:E5; [done|].
  apply Z.ltb_ge in E1, E2, E3, E5. split; [done|]. split; [done|]. split; [done|]. split; [done|]. split.
  { bools. destruct E4 as [E4|E4]; bools; [|by right; right]. destruct E4 as [->|E4]; [by left|]. unfold txpool_contains in E4. bools. by right; left. }
  clear E4. split; [done|]. destruct (Recipient tx) as [to|].
  - destruct (exempt to tx) as [ex|]; cbn [mbind option_bind] in E; [|done]. destruct (negb ex && _) eqn:E6; [done|]. destruct (bool_decide _ && _); [done|]. split; [congruence|].
    bools. destruct E6 as [E6|E6]; bools; [left; by destruct ex|by right].
  - destruct (negb (bool_decide _) && _) eqn:E6; [done|]. split; [congruence|]. bools. destruct E6 as [E6|E6]; bools; [by left|by right].
Qed.

Lemma validate_rest_accepts tx from p :
  validate_rest tx from p = None ->
  IsFrozenAccount from = false /\ (forall to, Recipient tx = Some to -> IsFrozenAccount to = false) /\ isERC20FromFrozen tx from = false /\
  exists intrGas, IntrinsicGas (Payload tx) (match Recipient tx with None => true | Some _ => false end) true (pool_istanbul p) = inl intrGas /\ intrGas <= GasLimit tx.
Proof.
  unfold validate_rest. destruct (IntrinsicGas _ _ _ _) as [g|]; [|done]. destruct (GasLimit tx <? g) eqn:E1; [done|]. destruct (IsFrozenAccount from) eqn:E2; [done|].
  destruct (Recipient tx) as [to|].
  - destruct (IsFrozenAccount to || isERC20FromFrozen tx to) eqn:E3; [done|]. destruct (isERC20FromFrozen tx from) eqn:E4; [done|]. intros _. bools.
    split; [done|]. split; [by intros ? [= <-]|]. split; [done|]. exists g. split; [done|lia].
  - destruct (isERC20FromFrozen tx from) eqn:E4; [done|]. intros _. bools. split; [done|]. split; [done|]. split; [done|]. exists g. split; [done|lia].
Qed.
End pool_facts.

(** C27: whatever is added to a pool, priced out, evicted, promoted, demoted, reset or
    truncated, and in whatever order Go iterates its maps: the table of transactions
    has exactly those of the pending and queued lists, each under its hash; no account
    has the same nonce pending and queued; no list is empty; and [Status] knows every
    transaction that [Get] finds. *)
Theorem pool_tables_agree `{!Keccak} `{!Codec} `{!SpvLib} `{!RangeOrder} `{!PriceHeap} `{!PoolEnv} p :
  pool_reachable p ->
  (forall hash tx, pool_Get hash p = Some tx <-> tx_Hash tx = hash /\ (held (pending p) tx \/ held (queue p) tx)) /\
  (forall addr nonce, cell (pending p) addr nonce = None \/ cell (queue p) addr nonce = None) /\
  (forall addr l, pending p !! addr = Some l \/ queue p !! addr = Some l -> tl_list l <> []) /\
  (forall hash, Status hash p = TxStatusUnknown <-> pool_Get hash p = None).
Proof.
  intros Hr. pose proof (pool_reachable_wf p Hr) as HG. pose proof HG as [G1 G2 G3]. split; [|split; [|split]].
  - intros hash tx. unfold pool_Get. rewrite (agree_all _ _ _ _ _ _ G1). rewrite elem_of_nil. tauto.
  - apply G1.
  - intros a l [E|E]; [by eapply G2|by eapply G3].
  - intros hash. by apply Status_unknown.
Qed.

(** a reorganisation of a pool that can be reached always comes to its end: when
    the reset to the new head does not panic, neither the walk over the last
    transaction of each pending list nor anything before it does. *)
Theorem runReorg_returns `{!Keccak} `{!Codec} `{!SpvLib} `{!RangeOrder} `{!PriceHeap} `{!PoolEnv} now rst dirty events p :
  pool_reachable p -> match rst with None => True | Some (oldHead, newHead) => is_Some (reset oldHead newHead p) end ->
  exists announced p', runReorg now rst dirty events p = Some (announced, p') /\ pool_reachable p'.
Proof.
  intros Hr Hrst. destruct (runReorg_spec now rst dirty events p (pool_reachable_wf p Hr) Hrst) as (announced & p' & E & _).
  exists announced, p'. split; [done|]. eapply reach_step; [done|]. by eapply step_reorg.
Qed.


(** C29: when the head moves to another branch that shares a block with the old one,
    both heads' blocks being in the database and below the height 2^52: if their heights
    differ by at most 64, the walk down both branches ends at the highest block that
    they share, and the transactions that a reset adds again are those of the abandoned
    branch above that block that the new branch above it does not have; if the heights
    differ by more, the reset adds nothing again. *)
Theorem reset_reinjects_branch `{!Keccak} `{!PoolEnv} oldHead newHead rem add anc down1 down2 :
  GetBlock (pb_Hash oldHead) (pb_Number oldHead) = Some rem -> GetBlock (pb_Hash newHead) (pb_Number newHead) = Some add ->
  pb_Number oldHead < 2 ^ 52 -> pb_Number newHead < 2 ^ 52 ->
  branch rem anc down1 -> branch add anc down2 -> pb_Hash oldHead <> pb_ParentHash newHead ->
  exists reinject, reinjected (Some oldHead) (Some newHead) = Some (Some reinject) /\
  if 64 <? Z.abs (pb_Number oldHead - pb_Number newHead) then reinject = []
  else exists top discarded included,
    branch rem top discarded /\ branch add top included /\ (forall b d i, branch rem b d -> branch add b i -> pb_Number b <= pb_Number top) /\
    (forall tx, tx ∈ reinject <-> tx ∈ discarded /\ forall t, t ∈ included -> tx_Hash t <> tx_Hash tx).
Proof.
  intros Hr Ha Ho Hn Hb1 Hb2 Hne. destruct (GetBlock_in_chain _ _ _ Hr) as [Hcr Hnr]. destruct (GetBlock_in_chain _ _ _ Ha) as [Hca Hna].
  unfold reinjected. cbn [mbind option_bind]. rewrite (proj2 (bytes_Equal_false _ _) Hne), f64_trunc_sub by (unfold in_chain in *; lia).
  destruct (64 <? _); [by exists []|].
  destruct (walk_rooted rem add anc down1 down2 (GetBlock_found _ _ _ Hr) (GetBlock_found _ _ _ Ha) Hcr Hca Hb1 Hb2) as (top & d & i & Hw & Hd & Hi & Htop).
  rewrite Hr, Ha, Hw. exists (TxDifference d i). split; [done|]. exists top, d, i. split; [done|]. split; [done|]. split; [done|].
  intros tx. unfold TxDifference. rewrite list_elem_of_filter, list_elem_of_fmap. split.
  - intros [Hx Ht]. split; [done|]. intros t' Ht' E. apply Hx. eauto.
  - intros [Ht Hx]. split; [|done]. intros (t' & E & Ht'). by apply (Hx t').
Qed.

(** a transaction that [add] takes is in the pool afterwards, signed, within the
    size, gas and price limits, not behind the account's nonce, paid for unless it is
    one of the cross-chain kinds that pay with the deposit, and neither its sender nor
    its recipient is frozen; one that the pool has already is refused and nothing
    changes. *)
Theorem add_accepts `{!Keccak} `{!Codec} `{!SpvLib} `{!RangeOrder} `{!PriceHeap} `{!PoolEnv} tx local p r p' :
  pool_reachable p -> add tx local p = Some (r, p') ->
  match r with
  | inl _ =>
      pool_Get (tx_Hash tx) p = None /\ pool_Get (tx_Hash tx) p' = Some tx /\
      exists from, Sender tx = inl from /\ tx_Size tx <= 32 * 1024 /\ 0 <= Amount tx /\ GasLimit tx <= currentMaxGas p /\
        (local = true \/ from ∈ locals p \/ gasPrice p <= Price tx) /\ head_Nonce (currentState p) from <= AccountNonce tx /\
        IsFrozenAccount from = false /\ (forall to, Recipient tx = Some to -> IsFrozenAccount to = false) /\
        (forall to, Recipient tx = Some to -> exempt to tx = Some true \/ tx_Cost tx <= head_Balance (currentState p) from)
  | inr _ => is_Some (pool_Get (tx_Hash tx) p) -> p' = p
  end.
Proof.
  intros Hr E. pose proof (pool_reachable_wf p Hr) as HG. unfold add in E. unfold pool_Get. destruct (all p !! tx_Hash tx) eqn:Ea; [by simplify_eq|].
  destruct (validateTx tx local p) as [[e|]|] eqn:Ev; cbn in E; [simplify_eq; by intros [? [=]]| |done].
  pose proof (make_room_good tx local _ _ HG Ea) as [HG' Ha]. destruct (make_room tx local p) as [u q]. cbn in HG', Ha. destruct u; [simplify_eq; by intros [? [=]]|].
  injection E as E. destruct r as [r|err]; [|by intros [? [=]]]. split; [done|]. split; [by eapply add_checked_found|].
  destruct (validateTx_accepts _ _ _ Ev) as (from & Hs & H1' & H2' & H3' & H4' & H5' & Hrest & Hpay). destruct (validate_rest_accepts _ _ _ Hrest) as (Hf & Hto & _).
  exists from. repeat (split; [done|]). intros to Eto. by rewrite Eto in Hpay.
Qed.

(** The run that a scheduler is collecting has the old head of the first reset and
    the new head of the last, and all accounts asked for. *)
Lemma select_keeps_requests `{!PoolEnv} req s :
  let s' := select req s in
  (launchNextRun s = true -> launchNextRun s' = true) /\
  (forall d, r_dirty (next_run s) = Some d -> exists d', r_dirty (next_run s') = Some d' /\ d ⊆ d') /\
  (forall old new, r_reset (next_run s) = Some (old, new) -> exists new', r_reset (next_run s') = Some (old, new')) /\
  match req with
  | ReqReset _ new => launchNextRun s' = true /\ exists old, r_reset (next_run s') = Some (old, new)
  | ReqPromote accounts => launchNextRun s' = true /\ exists d, r_dirty (next_run s') = Some d /\ accounts ⊆ d
  | _ => True
  end.
Proof.
  destruct req as [old new|accounts|tx|]; cbn; (split; [done|]).
  - split; [by eauto|]. split; [intros o n E; rewrite E; eauto|]. split; [done|]. destruct (r_reset (next_run s)) as [[o n]|]; eauto.
  - split; [intros d E; rewrite E; eexists; split; [done|set_solver]|]. split; [by eauto|]. split; [done|]. destruct (r_dirty (next_run s)); eexists; (split; [done|set_solver]).
  - split; [by eauto|]. split; [by eauto|done].
  - split; [by eauto|]. split; [by eauto|done].
Qed.

(** * A small pool *)
Module ToyPool.
Definition block (hash parent number : Z) (txs : list Transaction) : PoolBlock :=
  {| pb_Hash := [hash]; pb_ParentHash := [parent]; pb_Number := number; pb_Root := []; pb_GasLimit := 8000000; pb_Txs := txs |}.

(** Two branches above the block 1: the block 2, and the blocks 3 and 4. *)
Definition chain : list PoolBlock :=
  [block 1 0 0 []; block 2 1 1 [ToyTxs.transfer 0 5 1; ToyTxs.transfer 1 5 1]; block 3 1 1 [ToyTxs.transfer 0 5 1]; block 4 3 2 []].

Definition get (hash : bytes) (number : Z) : option PoolBlock := List.find (fun b => bytes_Equal (pb_Hash b) hash && (pb_Number b =? number)) chain.

Lemma get_sound hash number b : get hash number = Some b -> pb_Hash b = hash /\ pb_Number b = number /\ 0 <= number < 2 ^ 64 - 1.
Proof.
  unfold get. intros [Hin Hb]%find_some. bools. split; [done|]. split; [done|]. subst number. clear -Hin. cbn in Hin. destruct Hin as [<-|[<-|[<-|[<-|[]]]]]; cbn; lia.
Qed.

Definition state : HeadState := {| head_Nonce := fun _ => 0; head_Balance := fun _ => 10 ^ 18; head_State := fun _ _ => zero_hash |}.

#[export] Instance env : PoolEnv := {|
  user_config := DefaultTxPoolConfig <| GlobalSlots := 4 |> <| AccountSlots := 2 |> <| GlobalQueue := 2 |>; pool_BlackContractAddr := "black"; FrozeAccountList := []; IsBlacklisted := None;
  chain_IsIstanbul := fun _ => true; CurrentBlock := block 2 1 1 []; GetBlock := get; GetBlock_sound := get_sound; StateAt := fun _ => inl state; tx_Size := fun _ => 110;
  spv_GetMinGasPrice := None; pool_SpvHeight := 0; pool_MainChainIsPowMode := false; pool_withdraw_client := None
|}.

Definition empty : TxPool :=
  {| pending := ∅; queue := ∅; beats := ∅; all := ∅; priced := newTxPricedList; locals := ∅; gasPrice := 1; currentState := state; pendingNonces := newTxNoncer (fun _ => 0);
     currentMaxGas := 8000000; pool_istanbul := true; journal := None; pool_spv := ToySpv.service false; txEvents := [] |}.
End ToyPool.

Section pool_examples.
#[local] Existing Instances toy_keccak ToyCodec.codec ToySpv.lib list_range_order ToyPool.env.

Definition toy_start : TxPool := default ToyPool.empty (NewTxPool (ToySpv.service false) None).

Definition toy_txs : list Transaction := [ToyTxs.transfer 0 5 1; ToyTxs.transfer 1 5 1; ToyTxs.transfer 3 5 1].

Definition toy_pool : TxPool := match addTxs toy_txs false toy_start with Some (_, _, p) => p | None => toy_start end.

Lemma toy_pool_reachable : pool_reachable toy_pool.
Proof.
  apply reach_step with toy_start; [by eapply (reach_new (ToySpv.service false) None)|].
  unfold toy_pool. destruct (addTxs toy_txs false toy_start) as [[[errs d] p]|] eqn:E; [by eapply step_add|]. exfalso. revert E. by vm_compute.
Qed.



Lemma pool_tables_agree_witness : pool_Get [1; 5; 1] toy_pool = Some (ToyTxs.transfer 1 5 1) /\ cell (queue toy_pool) 7 1 = Some (ToyTxs.transfer 1 5 1) /\ cell (pending toy_pool) 7 1 = None.
Proof.
  destruct (pool_tables_agree toy_pool toy_pool_reachable) as (H1 & H2 & _). split; [by apply H1; vm_compute; auto|]. split; [by vm_compute|].
  destruct (H2 7 1) as [E|E]; [done|]. by vm_compute in E.
Defined.

Lemma runReorg_returns_witness : exists announced p', runReorg 0 None (Some {[ 7 ]}) ∅ toy_pool = Some (announced, p') /\ pool_reachable p'.
Proof. exact (runReorg_returns 0 None (Some {[ 7 ]}) ∅ toy_pool toy_pool_reachable I). Defined.




Lemma reset_reinjects_branch_witness :
  let old := ToyPool.block 2 1 1 [ToyTxs.transfer 0 5 1; ToyTxs.transfer 1 5 1] in let new := ToyPool.block 4 3 2 [] in
  exists reinject top discarded included, reinjected (Some old) (Some new) = Some (Some reinject) /\ branch old top discarded /\ branch new top included /\ reinject = [ToyTxs.transfer 1 5 1].
Proof.
  intros old new. assert (branch old (ToyPool.block 1 0 0 []) (pb_Txs old ++ [])) as H1 by (eapply branch_cons; [by vm_compute|constructor]).
  assert (branch new (ToyPool.block 1 0 0 []) (pb_Txs new ++ [ToyTxs.transfer 0 5 1] ++ [])) as H2 by (eapply branch_cons; [by vm_compute|]; eapply (branch_cons (ToyPool.block 3 1 1 [ToyTxs.transfer 0 5 1])); [by vm_compute|constructor]).
  destruct (reset_reinjects_branch old new old new (ToyPool.block 1 0 0 []) _ _ ltac:(by vm_compute) ltac:(by vm_compute) ltac:(done) ltac:(done) H1 H2 ltac:(done)) as (l & E & top & d & i & Hd & Hi & _).
  exists l, top, d, i. split; [exact E|]. split; [exact Hd|]. split; [exact Hi|]. assert (reinjected (Some old) (Some new) = Some (Some [ToyTxs.transfer 1 5 1])) as E' by (by vm_compute). rewrite E in E'. congruence.
Defined.

Lemma add_accepts_witness :
  exists r p', add (ToyTxs.transfer 2 5 1) false toy_pool = Some (inl r, p') /\ pool_Get [2; 5; 1] p' = Some (ToyTxs.transfer 2 5 1).
Proof.
  destruct (add (ToyTxs.transfer 2 5 1) false toy_pool) as [[[r|err] p']|] eqn:E.
  - exists r, p'. split; [done|]. destruct (add_accepts _ _ _ _ _ toy_pool_reachable E) as (_ & H & _). exact H.
  - exfalso. revert E. by vm_compute.
  - exfalso. revert E. by vm_compute.
Defined.

(** The transfer and the recharge transaction of an account are queued. *)
Definition toy_queued : TxPool := enqueue_all [ToyTxs.transfer 2 5 1; ToyTxs.recharge 5] ToyPool.empty.

Lemma toy_queued_wf : pool_wf toy_queued.
Proof.
  unfold toy_queued, enqueue_all. cbn [foldl]. eapply (enqueueTx_new _ 7); [eapply (enqueueTx_new _ 7); [by apply empty_wf|done..]|by vm_compute..].
Qed.

(** [RemoveLocalTx] of a queued transaction, with the flags of the miner's call for a
    refund that has been made: the transaction goes from the table and stays in the
    queue, and the recharge transactions of the account go from the queue and stay in
    the table, where they count as pooled and are refused as known when sent again. *)
Lemma RemoveLocalTx_breaks_pool :
  exists p, pool_wf toy_queued /\ RemoveLocalTx (tx_Hash (ToyTxs.transfer 2 5 1)) true true toy_queued = Some p /\ ~ pool_wf p /\
  held (queue p) (ToyTxs.transfer 2 5 1) /\ pool_Get (tx_Hash (ToyTxs.transfer 2 5 1)) p = None /\
  Status (tx_Hash (ToyTxs.recharge 5)) p = TxStatusUnknown /\ pool_Get (tx_Hash (ToyTxs.recharge 5)) p = Some (ToyTxs.recharge 5) /\
  add (ToyTxs.recharge 5) false p = Some (inr (known_transaction (tx_Hash (ToyTxs.recharge 5))), p).
Proof.
  destruct (RemoveLocalTx (tx_Hash (ToyTxs.transfer 2 5 1)) true true toy_queued) as [p|] eqn:E; [|by vm_compute in E].
  assert (held (queue p) (ToyTxs.transfer 2 5 1) /\ pool_Get (tx_Hash (ToyTxs.transfer 2 5 1)) p = None /\
    Status (tx_Hash (ToyTxs.recharge 5)) p = TxStatusUnknown /\ pool_Get (tx_Hash (ToyTxs.recharge 5)) p = Some (ToyTxs.recharge 5)) as (H1 & H2 & H3 & H4).
  { vm_compute in E. injection E as <-. by vm_compute. }
  exists p. split; [apply toy_queued_wf|]. split; [done|]. split; [|split; [done|split; [done|split; [done|split; [done|]]]]].
  - intros HG. apply (Status_unknown _ _ HG) in H3. congruence.
  - unfold add. unfold pool_Get in H4. by rewrite H4.
Qed.
End pool_examples.
