(* ===== verification/NextTurn.v ===== *)
(** * [spv/nextturn_dposinfo.go], [spv/blocklistener.go], [spv/safemath.go]

    The side chain follows the main chain through its SPV service: the arbiters
    of a height, the next turn's arbiters and the consensus mode.  The service
    itself is the SPV library, a record of the queries the code makes; the
    package variables are the state [Spv].  A nil-pointer panic is the result
    [None]. *)
From S2P Require Import Prelude Producers.

Definition DPOS : Z := 0.
Definition POW : Z := 1.
Definition IsOnlyCRConsensus : bool := true.
Definition ChainState_DPOS : Z := 0.
Definition ChainState_POW : Z := 1.

(** The queries of the SPV service; an [inr] is the error. *)
Record SpvService := {
  GetArbiters : Z -> (list bytes * list bytes) + string;
  GetNextArbiters : (Z * list bytes * list bytes) + string;
  GetConsensusAlgorithm : Z -> Z + string;
  GetBest : Z + string
}.

Record NextTurnDPOSInfo := {
  WorkingHeight : Z;
  CRPublicKeys : list bytes;
  DPOSPublicKeys : list bytes
}.

#[export] Instance NextTurnDPOSInfo_eq_dec : EqDecision NextTurnDPOSInfo.
Proof. solve_decision. Defined.

Inductive event :=
| ETNextProducers (peers : list bytes)
| InitCurrentProducers
| ETESCStateChanged (state : Z)
| ETOnSPVHeight (height : Z)
| HandleBlock (height : Z).

(** A main-chain block: its height and, for every transaction, the payload if
    it is a next-turn transaction. *)
Record ela_block := { Height : Z; Transactions : list (option NextTurnDPOSInfo) }.

(** The package state and the block listener's fields; [handle] says whether a
    handler is registered.  [emitted] lists the notifications, oldest first. *)
Record Spv := {
  service : option SpvService;
  nextTurnDposInfo : option NextTurnDPOSInfo;
  consensusMode : Z;
  blockNumber : Z;
  dynamicArbiterHeight : Z;
  handle : bool;
  emitted : list event
}.

#[export] Instance Spv_eta : Eta Spv := fun s => {|
  service := service s; nextTurnDposInfo := nextTurnDposInfo s; consensusMode := consensusMode s;
  blockNumber := blockNumber s; dynamicArbiterHeight := dynamicArbiterHeight s; handle := handle s;
  emitted := emitted s
|}.

Definition emit (e : event) (s : Spv) : Spv := s <| emitted := emitted s ++ [e] |>.

(** [SafeAdd] on 64-bit [int]s. *)
Definition SafeAdd (a b : Z) : Z + string :=
  let c := i64 (a + b) in if c <? a then inr "safe add overflow" else inl c.

Definition GetTotalProducersCount (s : Spv) : Z :=
  match nextTurnDposInfo s with
  | None => 0
  | Some i => match SafeAdd (zlen (CRPublicKeys i)) (zlen (DPOSPublicKeys i)) with inl c => c | inr _ => 0 end
  end.

Definition BlockHeight (s : Spv) : Z := blockNumber s.

Definition SpvIsWorkingHeight (s : Spv) : bool :=
  match nextTurnDposInfo s with
  | Some i => WorkingHeight i <? BlockHeight s
  | None => false
  end.

Definition MainChainIsPowMode (s : Spv) : bool := consensusMode s =? POW.

Definition GetSpvHeight (s : Spv) : Z :=
  match service s with
  | Some svc => match GetBest svc with inl h => h | inr _ => BlockHeight s end
  | None => 0
  end.

Definition GetWorkingHeight (s : Spv) : Z :=
  match nextTurnDposInfo s with Some i => WorkingHeight i | None => 0 end.

Definition GetCurrentConsensusMode (s : Spv) : Z :=
  match service s with
  | None => DPOS
  | Some svc => match GetConsensusAlgorithm svc (u32 (GetSpvHeight s)) with inl m => m | inr _ => DPOS end
  end.

(** [(producers, totalCount)] or the error. *)
Definition GetProducers (elaHeight : Z) (s : Spv) : (list bytes * Z) + string :=
  match service s with
  | None => inr "spv is not start"
  | Some svc =>
      if GetCurrentConsensusMode s =? POW then inl ([], 0)
      else match GetArbiters svc (u32 elaHeight) with
           | inr err => inr err
           | inl (crcArbiters, normalArbitrs) =>
               let normalArbitrs := if IsOnlyCRConsensus then [] else normalArbitrs in
               let producers :=
                 filter (fun a => (0 <? zlen a) && negb (bytes_Equal zero a) = true) crcArbiters in
               match SafeAdd (zlen crcArbiters) (zlen normalArbitrs) with
               | inr err => inr err
               | inl totalCount => inl (producers, totalCount)
               end
           end
  end.

Definition to_peers (arbiters : list bytes) : list bytes :=
  to_PID <$> filter (fun a => (0 <? zlen a) = true) arbiters.

(** A missing info is created empty. *)
Definition DumpNextDposInfo (s : Spv) : list bytes * Spv :=
  match nextTurnDposInfo s with
  | None => ([], s <| nextTurnDposInfo :=
                       Some {| WorkingHeight := 0; CRPublicKeys := []; DPOSPublicKeys := [] |} |>)
  | Some i => (to_peers (CRPublicKeys i) ++ to_peers (DPOSPublicKeys i), s)
  end.

Definition GetNextTurnPeers (s : Spv) : list bytes :=
  match nextTurnDposInfo s with
  | None => []
  | Some i => to_peers (CRPublicKeys i) ++ to_peers (DPOSPublicKeys i)
  end.

Definition isSameNexturnArbiters (workingHeight : Z) (crcArbiters normalArbiters : list bytes) (s : Spv) : bool :=
  match nextTurnDposInfo s with
  | None => false
  | Some i =>
      (WorkingHeight i =? workingHeight) &&
      (zlen crcArbiters =? zlen (CRPublicKeys i)) && (zlen normalArbiters =? zlen (DPOSPublicKeys i)) &&
      forallb (fun ab => bytes_Equal (fst ab) (snd ab)) (zip crcArbiters (CRPublicKeys i)) &&
      forallb (fun ab => bytes_Equal (fst ab) (snd ab)) (zip normalArbiters (DPOSPublicKeys i))
  end.

(** [SpvService.GetNextArbiters()] on a missing service would be a nil
    dereference; the listener only runs inside the service. *)
Definition InitNextTurnDposInfo (s : Spv) : option Spv :=
  match service s with
  | None => None
  | Some svc =>
      match GetNextArbiters svc with
      | inr _ => Some s
      | inl (workingHeight, crcArbiters, normalArbiters) =>
          let normalArbiters := if IsOnlyCRConsensus then [] else normalArbiters in
          if (GetCurrentConsensusMode s =? POW) && (zlen crcArbiters =? 0) && (zlen normalArbiters =? 0) then
            Some (if consensusMode s =? DPOS then snd (DumpNextDposInfo s) else s)
          else if isSameNexturnArbiters workingHeight crcArbiters normalArbiters s then Some s
          else
            let s := s <| nextTurnDposInfo := Some {|
              WorkingHeight := workingHeight; CRPublicKeys := crcArbiters;
              DPOSPublicKeys := normalArbiters |} |> in
            let '(peers, s) := DumpNextDposInfo s in
            Some (emit (ETNextProducers peers) s)
      end
  end.

(** The first next-turn transaction is stored into [nextTurnDposInfo], which
    must not be nil. *)
Definition IsNexturnBlock (b : ela_block) (s : Spv) : option (bool * Spv) :=
  match omap id (Transactions b) with
  | [] => Some (false, s)
  | payloadData :: _ =>
      match nextTurnDposInfo s with
      | None => None
      | Some _ => Some (true, s <| nextTurnDposInfo := Some {|
          WorkingHeight := WorkingHeight payloadData;
          CRPublicKeys := CRPublicKeys payloadData;
          DPOSPublicKeys := if IsOnlyCRConsensus then [] else DPOSPublicKeys payloadData |} |>)
      end
  end.

(** The end of [onBlockHandled]: follow a change of the consensus mode. *)
Definition followConsensus (s : Spv) : option Spv :=
  let nowConsensus := GetCurrentConsensusMode s in
  s ← (if (consensusMode s =? POW) && (nowConsensus =? DPOS) then
         s ← InitNextTurnDposInfo (emit InitCurrentProducers s);
         Some (emit (ETESCStateChanged ChainState_DPOS) s)
       else if (consensusMode s =? DPOS) && (nowConsensus =? POW) then
         s ← InitNextTurnDposInfo (emit InitCurrentProducers s);
         Some (emit (ETESCStateChanged ChainState_POW) s)
       else Some s);
  let s := if SpvIsWorkingHeight s && negb (nowConsensus =? POW) then emit InitCurrentProducers s else s in
  Some (s <| consensusMode := nowConsensus |>).

Definition onBlockHandled (b : ela_block) (s : Spv) : option Spv :=
  let isWorkingHeight := SpvIsWorkingHeight s in
  r ← IsNexturnBlock b s;
  let '(isNexturnBlock, s) := (r : bool * Spv) in
  s ← match nextTurnDposInfo s with
      | None => InitNextTurnDposInfo s
      | Some _ => if negb isWorkingHeight && negb isNexturnBlock then InitNextTurnDposInfo s else Some s
      end;
  let s := if isNexturnBlock then
             let '(peers, s) := DumpNextDposInfo s in emit (ETNextProducers peers) s
           else s in
  match nextTurnDposInfo s with
  | None => Some s
  | Some _ => followConsensus s
  end.

Definition NotifyBlock (b : ela_block) (isCurrent : bool) (s : Spv) : option Spv :=
  let run_handle s := if handle s then emit (HandleBlock (Height b)) s else s in
  if isCurrent then
    if Height b <=? blockNumber s then Some s
    else
      let s := s <| blockNumber := Height b |> in
      if blockNumber s <? dynamicArbiterHeight s then Some s
      else
        s ← onBlockHandled b s;
        Some (emit (ETOnSPVHeight (blockNumber s)) (run_handle s))
  else Some (run_handle s).

(** ** Lemmas *)

(** The peers last announced as next producers. *)
Definition announced (evs : list event) : list bytes :=
  foldl (fun acc e => match e with ETNextProducers peers => peers | _ => acc end) [] evs.

Definition in_sync (s : Spv) : Prop := announced (emitted s) = GetNextTurnPeers s.

Lemma announced_emit e s :
  announced (emitted (emit e s)) =
  match e with ETNextProducers peers => peers | _ => announced (emitted s) end.
Proof. unfold announced, emit. cbn. by rewrite foldl_app. Qed.

Lemma emit_info e s : nextTurnDposInfo (emit e s) = nextTurnDposInfo s.
Proof. done. Qed.

Lemma in_sync_emit e s : (forall p, e <> ETNextProducers p) -> in_sync s -> in_sync (emit e s).
Proof.
  unfold in_sync, GetNextTurnPeers. rewrite announced_emit, emit_info. destruct e; try done.
  intros Hp. by destruct (Hp peers).
Qed.

Lemma in_sync_announce peers s : peers = GetNextTurnPeers s -> in_sync (emit (ETNextProducers peers) s).
Proof. unfold in_sync, GetNextTurnPeers. by rewrite announced_emit, emit_info. Qed.

Lemma DumpNextDposInfo_spec s :
  fst (DumpNextDposInfo s) = GetNextTurnPeers s /\
  GetNextTurnPeers (snd (DumpNextDposInfo s)) = GetNextTurnPeers s /\
  emitted (snd (DumpNextDposInfo s)) = emitted s /\ is_Some (nextTurnDposInfo (snd (DumpNextDposInfo s))) /\
  service (snd (DumpNextDposInfo s)) = service s.
Proof. unfold DumpNextDposInfo, GetNextTurnPeers. destruct (nextTurnDposInfo s) eqn:E; cbn; by rewrite ?E. Qed.

(** Initialising the next turn never panics inside a running service, keeps the
    announcements in step and never forgets the info. *)
Lemma InitNextTurnDposInfo_ok s :
  is_Some (service s) ->
  exists s', InitNextTurnDposInfo s = Some s' /\ service s' = service s /\ (in_sync s -> in_sync s') /\
    (is_Some (nextTurnDposInfo s) -> is_Some (nextTurnDposInfo s')) /\
    (exists evs, emitted s' = emitted s ++ evs).
Proof.
  intros [svc Hs]. unfold InitNextTurnDposInfo. rewrite Hs.
  destruct (GetNextArbiters svc) as [[[wh crc] normal]|err];
    [|exists s; split_and!; try done; exists []; by rewrite app_nil_r].
  destruct (DumpNextDposInfo_spec s) as (_ & Hp & He & Hi & Hsv). destruct (_ && _).
  - destruct (consensusMode s =? DPOS); eexists; (split; [done|]).
    + split_and!; [by rewrite Hsv| |done|exists []; by rewrite app_nil_r].
      unfold in_sync. by rewrite He, Hp.
    + split_and!; try done. exists []. by rewrite app_nil_r.
  - destruct (isSameNexturnArbiters _ _ _ _).
    + exists s. split_and!; try done. exists []. by rewrite app_nil_r.
    + set (s1 := s <| nextTurnDposInfo := _ |>). destruct (DumpNextDposInfo_spec s1) as (Hf & Hg & He1 & Hi1 & Hs1).
      destruct (DumpNextDposInfo s1) as [peers s2]. cbn [fst snd] in *. eexists. split; [done|].
      split_and!; [cbn; by rewrite Hs1| |done|exists [ETNextProducers peers]; unfold emit; cbn; by rewrite He1].
      intros _. apply in_sync_announce. by rewrite Hg.
Qed.

Lemma followConsensus_ok s :
  is_Some (service s) -> in_sync s -> exists s', followConsensus s = Some s' /\ in_sync s'.
Proof.
  intros Hs Hi. unfold followConsensus.
  assert (Hsw : forall st, exists s', (s ← InitNextTurnDposInfo (emit InitCurrentProducers s);
      Some (emit (ETESCStateChanged st) s)) = Some s' /\ in_sync s').
  { intros st. destruct (InitNextTurnDposInfo_ok (emit InitCurrentProducers s) Hs) as (s1 & -> & _ & Hy & _).
    cbn. eexists. split; [done|]. apply in_sync_emit; [done|]. apply Hy. by apply in_sync_emit. }
  set (now := GetCurrentConsensusMode s).
  assert (Hrest : forall s1, in_sync s1 -> exists s', Some ((if SpvIsWorkingHeight s1 && negb (now =? POW)
      then emit InitCurrentProducers s1 else s1) <| consensusMode := now |>) = Some s' /\ in_sync s').
  { intros s1 H1. eexists. split; [done|]. case_match; [|done]. by apply (in_sync_emit InitCurrentProducers). }
  destruct (_ && (now =? DPOS)).
  - destruct (Hsw ChainState_DPOS) as (s1 & -> & H1). cbn. by apply Hrest.
  - destruct (_ && _).
    + destruct (Hsw ChainState_POW) as (s1 & -> & H1). cbn. by apply Hrest.
    + cbn. by apply Hrest.
Qed.

(** ** Properties *)

(** the producers of a main-chain height.  Outside POW mode, with the
    arbiters of the height known, [GetProducers] returns the CR arbiters that
    are neither empty nor the all-zero placeholder, in order, and counts all of
    them; the producers never outnumber the count.  In POW mode it returns no
    producers and the count 0, without an error. *)
Theorem GetProducers_spec (svc : SpvService) (s : Spv) (h : Z) (crc normal : list bytes) :
  service s = Some svc -> GetArbiters svc (u32 h) = inl (crc, normal) -> zlen crc < 2 ^ 63 ->
  (GetCurrentConsensusMode s = POW -> GetProducers h s = inl ([], 0)) /\
  (GetCurrentConsensusMode s <> POW -> exists ps,
     GetProducers h s = inl (ps, zlen crc) /\ zlen ps <= zlen crc /\ ps `sublist_of` crc /\
     forall a, a ∈ ps <-> a ∈ crc /\ a <> [] /\ a <> zero).
Proof.
  intros Hs Ha Hl. unfold GetProducers. rewrite Hs, Ha.
  split; intros Hm; destruct (Z.eqb_spec (GetCurrentConsensusMode s) POW); try done.
  cbn [IsOnlyCRConsensus]. change (zlen []) with 0. unfold SafeAdd.
  rewrite Z.add_0_r, i64_id by (pose proof (zlen_nonneg crc); unfold is_i64; lia). rewrite Z.ltb_irrefl.
  eexists. split; [done|]. set (ps := filter _ _).
  assert (Hsub : ps `sublist_of` crc) by apply sublist_filter.
  split_and!; [apply sublist_length in Hsub; unfold zlen; lia|done|].
  intros a. unfold ps. rewrite list_elem_of_filter, andb_true_iff, negb_true_iff, bytes_Equal_false, Z.ltb_lt.
  split; intros Hx.
  - destruct Hx as [[H1 H2] H3]. split_and!; [done| |done]. by intros ->.
  - destruct Hx as (H1 & H2 & H3). split_and!; [|done|done]. destruct a; [done|]. rewrite zlen_cons.
    pose proof (zlen_nonneg a). lia.
Qed.

(** when the listener panics.  With a running service, handling a block
    dereferences a nil next-turn info exactly when the block carries a
    next-turn transaction and no info has been initialised yet: the
    initialisation comes after the block is inspected. *)
Theorem onBlockHandled_panics (b : ela_block) (s : Spv) :
  is_Some (service s) ->
  onBlockHandled b s = None <-> nextTurnDposInfo s = None /\ omap id (Transactions b) <> [].
Proof.
  intros Hs.
  assert (Hfc : forall s1, is_Some (service s1) -> exists s', followConsensus s1 = Some s').
  { intros s1 H1. unfold followConsensus. destruct (InitNextTurnDposInfo_ok (emit InitCurrentProducers s1) H1) as (s2 & -> & _).
    repeat case_match; by eexists. }
  unfold onBlockHandled, IsNexturnBlock. destruct (omap id (Transactions b)) as [|p l].
  - cbn. split; [|naive_solver]. intros E. exfalso.
    destruct (InitNextTurnDposInfo_ok s Hs) as (s1 & E1 & Hs1 & _).
    assert (Hx : forall t, is_Some (service t) -> match nextTurnDposInfo t with None => Some t | Some _ => followConsensus t end <> None).
    { intros t Ht. destruct (nextTurnDposInfo t); [|done]. destruct (Hfc t Ht) as [? ->]. done. }
    destruct (nextTurnDposInfo s) eqn:Ei.
    + destruct (negb (SpvIsWorkingHeight s) && true).
      * rewrite E1 in E. cbn in E. by apply (Hx s1); [rewrite Hs1|].
      * cbn in E. by apply (Hx s).
    + rewrite E1 in E. cbn in E. by apply (Hx s1); [rewrite Hs1|].
  - destruct (nextTurnDposInfo s) eqn:Ei; [|naive_solver]. cbn. split; [|naive_solver].
    rewrite andb_false_r. cbn. intros E. exfalso. match goal with H : followConsensus ?t = None |- _ => destruct (Hfc t Hs) as [? E'] end.
    congruence.
Qed.

(** the announced producers are the next turn's.  Every block that the
    listener handles without a panic keeps the peers last announced through
    [ETNextProducers] equal to the peers of the stored next-turn info. *)
Theorem NotifyBlock_in_sync (b : ela_block) (isCurrent : bool) (s s' : Spv) :
  is_Some (service s) -> in_sync s -> NotifyBlock b isCurrent s = Some s' ->
  in_sync s'.
Proof.
  intros Hs Hi. unfold NotifyBlock.
  assert (Hh : forall t, in_sync t -> in_sync (if handle t then emit (HandleBlock (Height b)) t else t)).
  { intros t Ht. case_match; [by apply in_sync_emit|done]. }
  destruct isCurrent; [|intros [= <-]; by apply Hh].
  destruct (Height b <=? blockNumber s); [by intros [= <-]|].
  set (s1 := s <| blockNumber := Height b |>). destruct (_ <? _); [by intros [= <-]|].
  destruct (onBlockHandled b s1) as [s2|] eqn:E; [|done]. cbn. intros [= <-].
  apply in_sync_emit; [done|]. apply Hh.
  assert (Hi1 : in_sync s1) by done. assert (Hs1 : is_Some (service s1)) by done. clearbody s1.
  unfold onBlockHandled, IsNexturnBlock in E. destruct (omap id (Transactions b)) as [|p l].
  - cbn in E.
    assert (Hx : forall t, is_Some (service t) -> in_sync t ->
      match nextTurnDposInfo t with None => Some t | Some _ => followConsensus t end = Some s2 -> in_sync s2).
    { intros t Ht Hit. destruct (nextTurnDposInfo t); [|by intros [= <-]].
      destruct (followConsensus_ok t Ht Hit) as (t' & -> & ?). by intros [= <-]. }
    destruct (InitNextTurnDposInfo_ok s1 Hs1) as (t & Et & Hts & Hty & _).
    destruct (nextTurnDposInfo s1); [|rewrite Et in E; cbn in E; apply (Hx t); by rewrite ?Hts; auto].
    destruct (negb (SpvIsWorkingHeight s1) && true).
    + rewrite Et in E. cbn in E. apply (Hx t); [by rewrite Hts|by apply Hty|done].
    + cbn in E. by apply (Hx s1).
  - destruct (nextTurnDposInfo s1) eqn:Ei; [|done]. cbn in E. rewrite andb_false_r in E. cbn in E.
    match goal with H : followConsensus ?t = Some _ |- _ =>
      destruct (followConsensus_ok t Hs1) as (t' & Et & Hy); [by apply in_sync_announce|congruence] end.
Qed.

(** *** Witnesses *)
Definition example_service : SpvService := {|
  GetArbiters := fun _ => inl ([[2; 1]; []; [2; 2]; zero], [[9]]);
  GetNextArbiters := inl (70, [[2; 3]; [2; 4]], [[9]]);
  GetConsensusAlgorithm := fun _ => inl DPOS;
  GetBest := inl 60
|}.

Definition example_spv : Spv := {|
  service := Some example_service; nextTurnDposInfo := None; consensusMode := DPOS; blockNumber := 50;
  dynamicArbiterHeight := 10; handle := false; emitted := [] |}.

Lemma GetProducers_spec_witness : exists ps, GetProducers 60 example_spv = inl (ps, 4) /\ zlen ps <= 4.
Proof.
  destruct (GetProducers_spec example_service example_spv 60 [[2; 1]; []; [2; 2]; zero] [[9]]) as [_ H];
    [reflexivity|reflexivity|vm_compute; reflexivity|].
  destruct (H ltac:(vm_compute; done)) as (ps & Hp & Hl & _). exists ps. split; [exact Hp|exact Hl].
Defined.

Lemma onBlockHandled_panics_witness :
  onBlockHandled {| Height := 61; Transactions := [None; Some {| WorkingHeight := 80; CRPublicKeys := [];
    DPOSPublicKeys := [] |}] |} example_spv = None.
Proof.
  apply (onBlockHandled_panics {| Height := 61; Transactions := [None; Some {| WorkingHeight := 80;
    CRPublicKeys := []; DPOSPublicKeys := [] |}] |} example_spv); [by eexists|]. split; [reflexivity|done].
Defined.

Lemma NotifyBlock_in_sync_witness :
  exists s', NotifyBlock {| Height := 61; Transactions := [None] |} true example_spv = Some s' /\ in_sync s'.
Proof.
  eexists. split; [vm_compute; reflexivity|].
  apply (NotifyBlock_in_sync {| Height := 61; Transactions := [None] |} true example_spv);
    [by eexists|reflexivity|vm_compute; reflexivity].
Defined.
