(* ===== verification/PbftVerify.v ===== *)
(** * [consensus/pbft/pbft.go]: verifying headers, seals and confirms

    The chain is reached through the reader interface of
    [consensus/consensus.go], a record of queries; [finished] is the
    dispatcher's finished height, [view] its consensus view and [spv] the SPV
    state the engine consults.  The wall clock is an argument. *)
From S2P Require Import Prelude Ela Producers ConsensusView Messages Votes Header NextTurn.

(** What the engine asks the chain: [consensus.ChainReader] and the methods of
    [core.BlockChain] it calls. *)
Record Chain := {
  CurrentHeader : Header;
  CurrentBlock : Block;
  GetHeader : Z -> Z -> option Header;
  GetHeaderByNumber : Z -> option Header;
  GetBlockByHash : Z -> option Block;
  chain_GetBlock : Z -> Z -> option Block;
  ValidateBody : Block -> error
}.

Definition diffInTurn : Z := 2.
Definition diffNoTurn : Z := 1.

Definition errUnknownBlock : string := "unknown block".
Definition errInvalidMixDigest : string := "non-zero mix digest".
Definition errInvalidUncleHash : string := "non empty uncle hash".
Definition ErrInvalidTimestamp : string := "invalid timestamp".
Definition ErrAlreadyConfirmedBlock : string := "already confirmed block".
Definition errInvalidDifficulty : string := "invalid difficulty".
Definition errDoubleSignBlock : string := "double sign block".
Definition ErrFutureBlock : string := "block in the future".
Definition ErrUnknownAncestor : string := "unknown ancestor".

Section verify.
Context `{!ElaLib} `{!Codec} `{!Keccak}.

(** [p.period]. *)
Context (period : Z) (view : ConsensusView) (spv : Spv) (finished : Z).

Definition minSignCount (elaHeight : Z) : Z + string :=
  if elaHeight =? 0 then inl (GetCRMajorityCount view)
  else match NextTurn.GetProducers elaHeight spv with
       | inr err => inr err
       | inl (_, count) => inl (GetMajorityCountByTotalSigners count)
       end.

Definition verifyConfirm (confirm : Confirm) (elaHeight : Z) : error :=
  match minSignCount elaHeight with
  | inr err => New err
  | inl n => CheckConfirm confirm n
  end.

Definition verifySeal (chain : Chain) (header : Header) : error :=
  let number := Number_Uint64 header in
  if number =? 0 then New errUnknownBlock
  else match confirm_Deserialize (Extra header) with
       | inr err => New err
       | inl (confirm, _) =>
           match verifyConfirm confirm (nonce_Uint64 (header_Nonce header)) with
           | Some err => New err
           | None =>
               match GetHeaderByNumber chain number with
               | None => nil_err
               | Some oldHeader =>
                   match confirm_Deserialize (Extra oldHeader) with
                   | inr _ => nil_err
                   | inl (oldConfirm, _) =>
                       if (ViewOffset (Proposal confirm) =? ViewOffset (Proposal oldConfirm))
                          && negb (header_Hash oldHeader =? header_Hash header)
                       then New errDoubleSignBlock else nil_err
                   end
               end
           end
       end.

Definition VerifySeal (chain : Chain) (header : Header) : error := verifySeal chain header.

(** [now] is [time.Now().Unix()]. *)
Definition verifyHeader (chain : Chain) (header : Header) (parents : list Header) (seal : bool) (now : Z) : error :=
  if bool_decide (Number header = None) || (Number_Uint64 header =? 0) then New errUnknownBlock
  else if seal && (u64 now <? header_Time header) then New ErrFutureBlock
  else if 2 ^ 63 - 1 <? GasLimit header then New "invalid gasLimit"
  else if GasLimit header <? GasUsed header then New "invalid gasUsed"
  else if negb (MixDigest header =? 0) then New errInvalidMixDigest
  else if negb (UncleHash header =? CalcUncleHash []) then New errInvalidUncleHash
  else
    let number := Number_Uint64 header in
    let parent := match last parents with
                  | Some p => Some p
                  | None => GetHeader chain (ParentHash header) (u64 (number - 1))
                  end in
    match parent with
    | None => New ErrUnknownAncestor
    | Some parent =>
        if negb (Number_Uint64 parent =? u64 (number - 1)) || negb (header_Hash parent =? ParentHash header)
        then New ErrUnknownAncestor
        else if negb seal && (finished =? number) then New ErrAlreadyConfirmedBlock
        else if header_Time header <? u64 (header_Time parent + period) then New ErrInvalidTimestamp
        else if bool_decide (Difficulty header <> Some diffInTurn) then New errInvalidDifficulty
        else if seal then verifySeal chain header else nil_err
    end.

Definition VerifyHeader (chain : Chain) (header : Header) (seal : bool) (now : Z) : error :=
  verifyHeader chain header [] seal now.

(** One round of the loop of [VerifyHeaders]: the [i]-th header is verified
    against the ones before it; a header that is already in the block pool only
    needs its seal. *)
Definition verify_one (chain : Chain) (inPool : Z -> bool) (before : list Header) (header : Header)
    (seal : bool) (now : Z) : error :=
  if seal && (u64 now <? header_Time header) then New ErrFutureBlock
  else if negb (inPool (SealHash header)) then verifyHeader chain header before seal now
  else verifySeal chain header.

Fixpoint verify_headers (chain : Chain) (inPool : Z -> bool) (before headers : list Header) (seals : list bool)
    (now : Z) : list error :=
  match headers, seals with
  | h :: headers, seal :: seals =>
      verify_one chain inPool before h seal now :: verify_headers chain inPool (before ++ [h]) headers seals now
  | _, _ => []
  end.

Definition VerifyHeaders (chain : Chain) (inPool : Z -> bool) (headers : list Header) (seals : list bool) (now : Z)
    : list error := verify_headers chain inPool [] headers seals now.

Definition VerifyUncles (block : Block) : error :=
  if 0 <? zlen (block_uncles block) then New "uncles not allowed" else nil_err.

(** [p.chain] may be nil. *)
Definition verifyBlock (chain : option Chain) (b : Block) (now : Z) : error :=
  match chain with
  | None => New "pbft chain is nil"
  | Some chain =>
      match VerifyHeader chain (block_Header b) false now with
      | Some err => New err
      | None => ValidateBody chain b
      end
  end.

Lemma verifyHeader_difficulty chain header parents seal t :
  verifyHeader chain header parents seal t = nil_err -> Difficulty header = Some diffInTurn.
Proof.
  unfold verifyHeader. intros E. repeat (case_match; try done); bools;
    destruct (decide (Difficulty header = Some diffInTurn)); done.
Qed.

(** ** Properties *)

(** what a verified header guarantees.  [verifyHeader] with a seal check
    accepts exactly the headers that have a number, are not from the future,
    respect the gas bounds, have no mix digest and no uncles, extend a known
    parent with the preceding number and hash, leave at least the block period
    after it, have the in-turn difficulty, and carry a seal that verifies. *)
Theorem verifyHeader_sealed_spec (chain : Chain) (header : Header) (parents : list Header) (now : Z) :
  verifyHeader chain header parents true now = nil_err <->
  is_Some (Number header) /\ Number_Uint64 header <> 0 /\ header_Time header <= u64 now /\
  GasUsed header <= GasLimit header < 2 ^ 63 /\ MixDigest header = 0 /\ UncleHash header = EmptyUncleHash /\
  (exists parent,
     match last parents with
     | Some p => parent = p
     | None => GetHeader chain (ParentHash header) (u64 (Number_Uint64 header - 1)) = Some parent
     end /\
     Number_Uint64 parent = u64 (Number_Uint64 header - 1) /\ header_Hash parent = ParentHash header /\
     u64 (header_Time parent + period) <= header_Time header) /\
  Difficulty header = Some diffInTurn /\ verifySeal chain header = nil_err.
Proof.
  unfold verifyHeader. cbn [CalcUncleHash].
  destruct (Number header) as [n|] eqn:En; [|split; [done|]; by intros [[? ?] _]].
  rewrite bool_decide_eq_false_2 by done. cbn [orb andb negb].
  destruct (Z.eqb_spec (Number_Uint64 header) 0); [split; [done|naive_solver]|].
  destruct (Z.ltb_spec (u64 now) (header_Time header)); [split; [done|]; intros (_ & _ & ? & _); lia|].
  destruct (Z.ltb_spec (2 ^ 63 - 1) (GasLimit header)); [split; [done|]; intros (_ & _ & _ & ? & _); lia|].
  destruct (Z.ltb_spec (GasLimit header) (GasUsed header)); [split; [done|]; intros (_ & _ & _ & ? & _); lia|].
  destruct (Z.eqb_spec (MixDigest header) 0); cbn [negb]; [|split; [done|naive_solver]].
  destruct (Z.eqb_spec (UncleHash header) EmptyUncleHash); cbn [negb]; [|split; [done|naive_solver]].
  set (parent := match last parents with Some p => Some p | None => _ end).
  assert (Hpar : forall q, match last parents with Some p => q = p | None =>
    GetHeader chain (ParentHash header) (u64 (Number_Uint64 header - 1)) = Some q end <-> parent = Some q).
  { intros q. unfold parent. destruct (last parents); naive_solver. }
  setoid_rewrite Hpar. destruct parent as [p|]; [|split; [done|naive_solver]].
  destruct (Z.eqb_spec (Number_Uint64 p) (u64 (Number_Uint64 header - 1))); cbn [negb orb];
    [|split; [done|naive_solver]].
  destruct (Z.eqb_spec (header_Hash p) (ParentHash header)); cbn [negb]; [|split; [done|naive_solver]].
  destruct (Z.ltb_spec (header_Time header) (u64 (header_Time p + period))).
  { split; [done|]. intros (_ & _ & _ & _ & _ & _ & (q & [= <-] & _ & _ & ?) & _). lia. }
  destruct (decide (Difficulty header = Some diffInTurn)) as [Hd|Hd]; [rewrite bool_decide_eq_false_2 by (by intros ?)|
    rewrite bool_decide_eq_true_2 by done; split; [done|naive_solver]].
  split; [intros Hs|naive_solver]. split_and!; try done; try lia. by exists p.
Qed.

(** the confirm of a header is not tied to the header.  If one header's
    seal verifies, then so does the seal of any other header with the same
    extra data and nonce whose number is not in the chain yet, whatever its
    parent, state root, transactions or coinbase: the confirmed block hash is
    never compared with the seal hash. *)
Theorem verifySeal_not_bound (chain chain' : Chain) (h h' : Header) :
  verifySeal chain h = nil_err -> Extra h' = Extra h -> header_Nonce h' = header_Nonce h ->
  Number_Uint64 h' <> 0 -> GetHeaderByNumber chain' (Number_Uint64 h') = None ->
  verifySeal chain' h' = nil_err.
Proof.
  intros Hs He Hn Hz Hg. unfold verifySeal in *. rewrite He, Hn, Hg.
  destruct (Z.eqb_spec (Number_Uint64 h) 0); [done|]. destruct (Z.eqb_spec (Number_Uint64 h') 0); [done|].
  destruct (confirm_Deserialize (Extra h)) as [[c rest]|]; [|done]. by destruct (verifyConfirm _ _).
Qed.

(** the engine's threshold is one vote short of the dispatcher's.  A
    confirm with exactly the majority count of votes verifies at a main-chain
    height, although the dispatcher requires strictly more before it finishes
    a proposal; and while the main chain is in POW mode no vote is needed. *)
Theorem verifyConfirm_threshold (svc : SpvService) (c : Confirm) (h : Z) crc normal :
  service spv = Some svc -> h <> 0 -> GetArbiters svc (u32 h) = inl (crc, normal) -> zlen crc < 2 ^ 51 ->
  CheckProposal (Proposal c) = nil_err -> Forall (valid_accept (proposal_Hash (Proposal c))) (Votes c) ->
  (GetCurrentConsensusMode spv <> POW -> zlen (Votes c) = 2 * zlen crc / 3 ->
     verifyConfirm c h = nil_err /\
     forall p, totalProducers p = zlen crc -> Producers.IsMajorityAgree (zlen (Votes c)) p = false) /\
  (GetCurrentConsensusMode spv = POW -> verifyConfirm c h = nil_err).
Proof.
  intros Hs Hh Ha Hl Hp Hv. unfold verifyConfirm, minSignCount, NextTurn.GetProducers.
  destruct (Z.eqb_spec h 0); [done|]. rewrite Hs, Ha. pose proof (zlen_nonneg crc). split; intros Hm.
  - intros Hn. destruct (Z.eqb_spec (GetCurrentConsensusMode spv) POW); [done|]. cbn [IsOnlyCRConsensus].
    change (zlen []) with 0. unfold SafeAdd. rewrite Z.add_0_r, i64_id by (unfold is_i64; lia). rewrite Z.ltb_irrefl.
    rewrite GetMajorityCountByTotalSigners_exact by lia. split.
    + unfold CheckConfirm. rewrite Hp, Hn, Z.ltb_irrefl. by apply check_votes_spec.
    + intros p Ht. unfold Producers.IsMajorityAgree. rewrite GetMajorityCount_exact, Ht, Hn by lia. apply Z.ltb_irrefl.
  - destruct (Z.eqb_spec (GetCurrentConsensusMode spv) POW); [|done].
    rewrite GetMajorityCountByTotalSigners_exact by lia. change (2 * 0 / 3) with 0. unfold CheckConfirm. rewrite Hp.
    destruct (Z.ltb_spec (zlen (Votes c)) 0); [pose proof (zlen_nonneg (Votes c)); lia|]. by apply check_votes_spec.
Qed.
End verify.

(** ** Witnesses *)
#[local] Existing Instances Toy.lib ToyCodec.codec toy_keccak.

Definition example_confirm : Confirm :=
  let p := example_proposal [2; 1] 77 0 in
  {| Proposal := p; Votes := [example_vote p true [2; 1]; example_vote p true [2; 2]] |}.

(** A header of block 1000 sealed with the confirm of some block 77, at
    main-chain height 60. *)
Definition sealed_header : Header :=
  example_header <| Extra := confirm_Serialize example_confirm |> <| header_Nonce := EncodeNonce 60 |>
                 <| UncleHash := EmptyUncleHash |> <| Difficulty := Some 2 |>.

Definition parent_header : Header := example_header <| Number := Some 999 |> <| header_Time := 1599999990 |>.

Definition child_header : Header := sealed_header <| ParentHash := header_Hash parent_header |>.

Definition example_chain : Chain := {|
  CurrentHeader := parent_header;
  CurrentBlock := {| block_header := parent_header; block_uncles := []; block_transactions := [] |};
  GetHeader := fun _ _ => Some parent_header;
  GetHeaderByNumber := fun _ => None;
  GetBlockByHash := fun _ => None;
  chain_GetBlock := fun _ _ => None;
  ValidateBody := fun _ => nil_err
|}.

Example child_header_verifies :
  verifyHeader 5 example_view example_spv 0 example_chain child_header [] true 1700000000 = nil_err.
Proof. vm_compute. reflexivity. Qed.

Lemma verifySeal_not_bound_witness :
  verifySeal example_view example_spv example_chain
    (sealed_header <| Root := 123456 |> <| TxHash := 99 |> <| Number := Some 5000 |>) = nil_err.
Proof.
  apply (verifySeal_not_bound example_view example_spv example_chain example_chain sealed_header);
    try reflexivity; vm_compute; done.
Defined.

Lemma verifyConfirm_threshold_witness :
  verifyConfirm example_view example_spv example_confirm 60 = nil_err.
Proof.
  refine (proj1 (proj1 (verifyConfirm_threshold example_view example_spv example_service example_confirm 60
    [[2; 1]; []; [2; 2]; zero] [[9]] _ _ _ _ _ _) _ _)); try reflexivity; try (vm_compute; done).
  repeat constructor; vm_compute; done.
Defined.
