(* ===== verification/Pbft.v ===== *)
(** * [consensus/pbft/pbft.go], [consensus/pbft/network.go]: the PBFT engine

    The engine handles the messages of the DPoS network and the calls of the
    miner and the chain.  Its state is the dispatcher (which holds the view)
    together with [Env], the other fields of [type Pbft]; a handler is an
    action of the state monad [Eng].  Messages sent, channels written, timers
    and goroutines started are recorded in [outputs]; whatever a goroutine
    later does is a separate action.  The adjusted clock is a function of the
    number of readings.

    The dispatcher calls back into the engine when the view changes, and the
    engine's listener may process a proposal, which may change the view again:
    the callbacks are built with fuel, and running out of it, like blocking on
    the pool's mutex, sets [stuck]. *)
From S2P Require Import Prelude Ela Producers ConsensusView Messages Votes Header NextTurn PbftVerify.
From S2P Require Import Dispatcher BlockPool.

Definition extraVanity : Z := 32.
Definition maxViewOffset : Z := 100.

Inductive message :=
| MProposal (p : DPOSProposal)
| MVote (v : DPOSProposalVote)
| MBlock (data : bytes)
| MRequestConsensus (height : Z)
| MResponseConsensus (status : ConsensusStatus)
| MRequestProposal (hash : Z)
| MResetView (m : ResetViewMsg)
| MConfirm (c : Confirm) (height : Z)
| MGetBlock (hash : Z)
| MInventory (hash : Z).

Inductive output :=
| Sent (pid : bytes) (m : message)
| OutStartMine
| OutOnDuty
| OutConfirmCh (c : Confirm)
| OutUnConfirmCh (c : Confirm)
| GoAnnounceDAddr
| GoRecover
| GoChangeViewLoop
| GoWaitRecover (minCount : Z)
| GoVote (v : DPOSProposalVote)
| OutResult (b : Block)
| OutSleep (id : bytes) (b : Block) (delay : Z)
| OutInsertChain (id : bytes) (b : Block)
| OutInsertError (id : bytes) (b : Block) (err : error)
| OutDirectPeers (currents nexts : list bytes)
| GoRecoverLoop
| PostRecoverTask.

Record Env := {
  blockPool : BlockPool Block;
  account : option Account;
  chain : Chain;
  spv : Spv;
  connected : list bytes;           (** [p.network.DumpPeersInfo()] *)
  activePeers : Z;                  (** [len(p.network.GetActivePeers())] *)
  isCurrent : option bool;          (** [p.IsCurrent()]; [None] when the function is not set *)
  hasOnDuty : bool;                 (** [p.OnDuty != nil] *)
  hasInsertError : bool;            (** [p.OnInsertChainError != nil] *)
  requestedBlocks : gset Z;
  requestedProposals : gset Z;
  statusMap : gmap Z (gmap string ConsensusStatus);
  notHandledProposal : gset string;
  enableViewLoop : bool;
  recoverStarted : bool;
  isRecoved : bool;
  isRecovering : bool;
  period : Z;
  isSealOver : bool;
  isSealing : Z;
  needChangeNextTurnProducers : bool;
  clock : nat -> Z;
  ticks : nat;
  outputs : list output;
  stuck : bool
}.

#[export] Instance Env_eta : Eta Env := fun e => {|
  blockPool := blockPool e; account := account e; chain := chain e; spv := spv e;
  connected := connected e; activePeers := activePeers e; isCurrent := isCurrent e; hasOnDuty := hasOnDuty e;
  hasInsertError := hasInsertError e;
  requestedBlocks := requestedBlocks e; requestedProposals := requestedProposals e;
  statusMap := statusMap e; notHandledProposal := notHandledProposal e;
  enableViewLoop := enableViewLoop e; recoverStarted := recoverStarted e; isRecoved := isRecoved e;
  isRecovering := isRecovering e;
  period := period e; isSealOver := isSealOver e; isSealing := isSealing e;
  needChangeNextTurnProducers := needChangeNextTurnProducers e;
  clock := clock e; ticks := ticks e; outputs := outputs e; stuck := stuck e
|}.

(** ** The monad *)
Abbreviation State := (Dispatcher * Env)%type.
Definition Eng (A : Type) : Type := State -> A * State.

#[export] Instance Eng_ret : MRet Eng := fun A x s => (x, s).
#[export] Instance Eng_bind : MBind Eng := fun A B f m s => let '(x, s') := m s in f x s'.

Definition disp : Eng Dispatcher := fun s => (fst s, s).
Definition env : Eng Env := fun s => (snd s, s).
Definition view : Eng ConsensusView := fun s => (consensusView (fst s), s).
Definition mod_disp (f : Dispatcher -> Dispatcher) : Eng () := fun s => ((), (f (fst s), snd s)).
Definition mod_env (f : Env -> Env) : Eng () := fun s => ((), (fst s, f (snd s))).
Definition upd_disp {A} (f : Dispatcher -> A * Dispatcher) : Eng A :=
  fun s => let '(x, d) := f (fst s) in (x, (d, snd s)).
Definition upd_view {A} (f : ConsensusView -> A * ConsensusView) : Eng A :=
  upd_disp (fun d => let '(x, v) := f (consensusView d) in (x, d <| consensusView := v |>)).
Definition mod_view (f : ConsensusView -> ConsensusView) : Eng () := mod_disp (with_view f).
Definition run (f : State -> State) : Eng () := fun s => ((), f s).
Definition out (o : output) : Eng () := mod_env (fun e => e <| outputs := outputs e ++ [o] |>).
Definition skip : Eng () := mret ().
Definition when (b : bool) (m : Eng ()) : Eng () := if b then m else skip.

(** A panic ends the node. *)
Definition panic : Eng () := mod_env (fun e => e <| stuck := true |>).

(** [p.dispatcher.GetNowTime()]. *)
Definition now : Eng Z := fun s =>
  (clock (snd s) (ticks (snd s)), (fst s, (snd s) <| ticks := S (ticks (snd s)) |>)).

(** A call into the pool; [dflt] stands for the result that never comes. *)
Definition pool {A} (dflt : A) (m : Pool A) : Eng A := fun s =>
  match m (blockPool (snd s)) with
  | Some (x, bp) => (x, (fst s, (snd s) <| blockPool := bp |>))
  | None => (dflt, (fst s, (snd s) <| stuck := true |>))
  end.

(** The zero [peer.PID]. *)
Definition zeroPID : bytes := replicate 33 0.

(** RLP of blocks (through [types.Block]) and [msg.MaxInvPerMsg] of the main
    chain's library. *)
Class WireLib := {
  EncodeBlock : Block -> bytes + string;
  DecodeBlock : bytes -> Block + string;
  MaxInvPerMsg : Z
}.

Section engine.
Context `{!ElaLib} `{!Codec} `{!Keccak} `{!RangeOrder} `{!WireLib}.

(** [medianOf]; the sum is a signed 64-bit one. *)
Definition medianOf (nums : list Z) : Z :=
  let l := length nums in
  if decide (l = 0%nat) then 0
  else if decide (l mod 2 = 0)%nat
  then Z.quot (i64 (default 0 (nums !! (l / 2)%nat) + default 0 (nums !! (l / 2 - 1)%nat))) 2
  else default 0 (nums !! (l / 2)%nat).

Definition DBlockSealHash (b : Block) : Z * error := (Header.SealHash (block_Header b), nil_err).

(** The functions [New] hands to the block pool. *)
Definition pool_fns (s : State) : PoolFns Block := {|
  GetHeight := block_GetHeight;
  Nonce := block_Nonce;
  VerifyConfirm := verifyConfirm (consensusView (fst s)) (spv (snd s));
  VerifyBlock := fun b => verifyBlock (period (snd s)) (consensusView (fst s)) (spv (snd s))
                            (finishedHeight (fst s)) (Some (chain (snd s))) b 0;
  SealHash := DBlockSealHash
|}.

Definition with_fns {A} (dflt : A) (m : PoolFns Block -> Pool A) : Eng A :=
  fun s => pool dflt (m (pool_fns s)) s.

(** ** Duty and roles *)
Definition IsOnduty : Eng bool :=
  e ← env; d ← disp;
  mret (match account e with None => false | Some _ => Dispatcher.ProducerIsOnDuty d end).

Definition IsOnDuty : Eng bool := d ← disp; mret (Dispatcher.ProducerIsOnDuty d).

Definition IsProducer : Eng bool :=
  e ← env; d ← disp;
  mret (match account e with None => false | Some a => Dispatcher.IsProducer (PublicKeyBytes a) d end).

Definition IsProducerByAccount (a : bytes) : Eng bool := d ← disp; mret (Dispatcher.IsProducer a d).

(** ** Sending *)
Definition BroadMessage (m : message) : Eng () :=
  e ← env; v ← view;
  mod_env (fun e' => e' <| outputs := outputs e' ++
    ((fun pid => Sent pid m) <$> filter (fun pid => ConsensusView.IsProducers pid v = true) (connected e)) |>).

Definition BroadMessageExcept (m : message) (exceptPeer : bytes) : Eng () :=
  e ← env; v ← view;
  mod_env (fun e' => e' <| outputs := outputs e' ++
    ((fun pid => Sent pid m) <$> filter (fun pid => ConsensusView.IsProducers pid v && negb (bytes_Equal pid exceptPeer) = true)
       (connected e)) |>).

Definition SendMessageToPeer (pid : bytes) (m : message) : Eng () := out (Sent pid m).

Definition BroadBlockMsg (block : Block) : Eng error :=
  match EncodeBlock block with
  | inr err => mret (New err)
  | inl buffer =>
      BroadMessage (MBlock buffer);;
      with_fns nil_err (fun fns => AppendDposBlock fns block);;
      mret nil_err
  end.

Definition RequestAbnormalRecovering : Eng () :=
  e ← env; BroadMessage (MRequestConsensus (Number_Uint64 (CurrentHeader (chain e)))).

Definition BroadMessageToPeers (m : message) (peers : list bytes) : Eng () :=
  mod_env (fun e => e <| outputs := outputs e ++ ((fun pbk => Sent (to_PID pbk) m) <$> peers) |>).

Definition broadConfirmMsg (confirm : Confirm) (height : Z) : Eng () := BroadMessage (MConfirm confirm height).

(** ** Peers and the producer set *)
Definition AnnounceDAddr : Eng bool :=
  e ← env; v ← view;
  match account e with
  | None => mret false
  | Some _ =>
      out (OutDirectPeers (ConsensusView.getCurrentNeedConnectArbiters v) (ConsensusView.GetNextNeedConnectArbiters v));;
      mret true
  end.

Definition UpdateCurrentProducers (ps : list bytes) (totalCount spvHeight : Z) : Eng () :=
  mod_view (UpdateProducers ps totalCount spvHeight).

Definition GetCurrentProducers : Eng (list bytes) := v ← view; mret (ConsensusView.GetProducers v).

Definition GetSelfDutyIndex : Eng Z :=
  e ← env; v ← view;
  mret (match account e with None => -1 | Some a => ConsensusView.ProducerIndex (PublicKeyBytes a) v end).

Definition SignersCount : Eng Z := v ← view; mret (ConsensusView.GetTotalProducersCount v).

(** The cases of [subscribeEvent]; the chain's configuration is passed in. *)
Definition onNewPeer (engineIsPbft : bool) (PBFTBlock : option Z) (PreConnectOffset : Z) : Eng () :=
  e ← env; v ← view;
  let height := Number_Uint64 (CurrentHeader (chain e)) in
  match PBFTBlock with
  | Some b => when ((u64 (u64 b - PreConnectOffset) <=? height) && (height <? u64 b)) (out GoAnnounceDAddr)
  | None => skip
  end;;
  when (engineIsPbft && negb (ConsensusView.HasProducerMajorityCount (activePeers e) v)) (out GoAnnounceDAddr).

Definition onNextProducers (ps : list bytes) : Eng () :=
  e ← env; mod_view (ConsensusView.UpdateNextProducers ps (NextTurn.GetTotalProducersCount (spv e))).

Definition onSPVHeight (height PreConnectOffset : Z) : Eng () :=
  e ← env; v ← view;
  if height <=? NextTurn.GetWorkingHeight (spv e) then
    if NextTurn.GetWorkingHeight (spv e) - height <=? PreConnectOffset then
      isSame ← upd_view (IsSameProducers (ConsensusView.GetProducers v));
      when (negb isSame) (out GoAnnounceDAddr)
    else skip
  else skip.

(** [Recover] up to its loop, and one round of the loop. *)
Definition RecoverBegin : Eng () :=
  e ← env; d ← disp;
  match isCurrent e, account e with
  | Some _, Some a =>
      if isRecovering e || negb (Dispatcher.IsProducer (PublicKeyBytes a) d) then skip
      else mod_env (fun e => e <| isRecovering := true |>);; out GoRecoverLoop
  | _, _ => skip
  end.

Definition RecoverPoll : Eng () :=
  e ← env; v ← view;
  match isCurrent e with
  | None => panic
  | Some current =>
      when (current && (0 <? activePeers e) && ConsensusView.HasProducerMajorityCount (activePeers e) v)
        (out PostRecoverTask;; mod_env (fun e => e <| isRecovering := false |>))
  end.

Definition Close : Eng () := mod_env (fun e => e <| enableViewLoop := false |>).

(** ** Callbacks of the dispatcher *)
Definition onConfirm (d : Dispatcher) (confirm : Confirm) (e : Env) : Env * error :=
  let '(err, (_, e)) := with_fns nil_err (fun fns => AppendConfirm fns confirm) (d, e) in
  if failed err then (e, err)
  else
    let duty := Dispatcher.ProducerIsOnDuty d in
    if isSealOver e && duty then (e, New "seal block is over, can't confirm")
    else if duty then
      match GetProcessingProposal d with
      | None => (e, New "is not confirm current proposal")
      | Some curProposal =>
          if negb (BlockHash curProposal =? BlockHash (Proposal confirm))
          then (e, New "is not confirm current proposal")
          else if isSealing e =? 1
          then (e <| outputs := outputs e ++ [OutConfirmCh confirm] |>, nil_err)
          else (e, nil_err)
      end
    else (e, nil_err).

Definition onUnConfirm (d : Dispatcher) (unconfirm : Confirm) (e : Env) : Env * error :=
  if isSealOver e then (e, New "seal block is over, can't unconfirm")
  else
    let onduty := match account e with None => false | Some _ => Dispatcher.ProducerIsOnDuty d end in
    if onduty && (isSealing e =? 1)
    then (e <| outputs := outputs e ++ [OutUnConfirmCh unconfirm] |>, nil_err)
    else (e, nil_err).

(** ** Requests and recovery *)
Definition limitMap (m : gset Z) (limit : Z) : gset Z :=
  if limit <? Z.of_nat (size m) + 1 then
    match range_order ((fun h => (h, ())) <$> elements m) with
    | (hash, _) :: _ => m ∖ {[ hash ]}
    | [] => m
    end
  else m.

Definition OnInv (id : bytes) (blockHash : Z) : Eng () :=
  e ← env; d ← disp;
  match account e with
  | None => panic
  | Some a =>
      if negb (Dispatcher.IsProducer (PublicKeyBytes a) d) then skip
      else
        has ← pool false (HasBlock blockHash);
        if (has : bool) then skip
        else if bool_decide (is_Some (GetBlockByHash (chain e) blockHash)) then skip
        else if bool_decide (blockHash ∈ requestedBlocks e) then skip
        else
          mod_env (fun e => e <| requestedBlocks := limitMap (requestedBlocks e) MaxInvPerMsg |>);;
          mod_env (fun e => e <| requestedBlocks := {[ blockHash ]} ∪ requestedBlocks e |>);;
          SendMessageToPeer id (MGetBlock blockHash)
  end.

(** The goroutine it starts polls the answers and then runs
    [OnRecoverTimeout]. *)
Definition recoverAbnormalState : Eng bool :=
  e ← env; v ← view;
  if recoverStarted e then mret false
  else
    let minCount := GetMajorityCount v in
    if 0 <? zlen (ConsensusView.GetProducers v) then
      if activePeers e <? minCount then mret false
      else
        mod_env (fun e => e <| recoverStarted := true |>);;
        RequestAbnormalRecovering;;
        out (GoWaitRecover minCount);;
        mret true
    else mret false.

Definition OnRecover : Eng () :=
  producer ← IsProducer; when producer (recoverAbnormalState;; skip).

(** The iteration order decides which status is the reference. *)
Definition DoRecover : Eng () :=
  e ← env;
  let maxCountMaxViewOffset := foldr Z.max 0 (elements (dom (statusMap e))) in
  let votes := (range_map (default ∅ (statusMap e !! maxCountMaxViewOffset))).*2 in
  match votes with
  | v :: _ =>
      if status_ConsensusStatus v =? ConsensusReady
      then mod_env (fun e => e <| notHandledProposal := ∅ |>)
      else
        let startTimes := merge_sort Z.le ((fun v => i64 (status_ViewStartTime v)) <$> votes) in
        now1 ← now; now2 ← now;
        mod_disp (RecoverAbnormal (Some v) (medianOf startTimes) now1 now2);;
        mod_env (fun e => e <| notHandledProposal := ∅ |>)
  | [] =>
      mod_disp (RecoverAbnormal None (medianOf []) 0 0);;
      mod_env (fun e => e <| notHandledProposal := ∅ |>)
  end.

(** [engineIsPbft] is [p.chain.Engine() == p]. *)
Definition OnRecoverTimeout (engineIsPbft : bool) : Eng () :=
  e ← env;
  when (recoverStarted e)
    (when (negb (bool_decide (statusMap e = ∅))) DoRecover;;
     mod_env (fun e => e <| recoverStarted := false |> <| statusMap := ∅ |>));;
  mod_env (fun e => e <| isRecoved := true |>);;
  when engineIsPbft (out OutStartMine).

Definition OnRequestConsensus (id : bytes) (height : Z) : Eng () :=
  producer ← IsProducer;
  if negb producer then skip
  else
    d ← disp; e ← env;
    match HelpToRecoverAbnormal height (Number_Uint64 (CurrentHeader (chain e))) d with
    | Some status => SendMessageToPeer id (MResponseConsensus status)
    | None => skip
    end.

Definition OnResponseConsensus (id : bytes) (status : ConsensusStatus) : Eng () :=
  producer ← IsProducer;
  if negb producer then skip
  else
    e ← env;
    if negb (recoverStarted e) then skip
    else
      let views := default ∅ (statusMap e !! status_ViewOffset status) in
      if bool_decide (is_Some (views !! hex_encode id)) then skip
      else mod_env (fun e => e <| statusMap :=
             <[ status_ViewOffset status := <[ hex_encode id := status ]> views ]> (statusMap e) |>).

Definition OnRequestProposal (id : bytes) : Eng () :=
  d ← disp;
  match GetProcessingProposal d with
  | Some p => SendMessageToPeer id (MProposal p)
  | None => skip
  end.

Definition OnGetBlock (id : bytes) (blockHash : Z) : Eng () :=
  b ← pool None (BlockPool.GetBlock blockHash);
  e ← env;
  match (match b with Some b => Some b | None => GetBlockByHash (chain e) blockHash end) with
  | None => skip
  | Some b => SendMessageToPeer id (MBlock (match EncodeBlock b with inl d => d | inr _ => [] end))
  end.

(** [(hash, ok)]. *)
Definition tryGetCurrentProposal (id : bytes) (v : DPOSProposalVote) : Eng (Z * bool) :=
  d ← disp;
  match GetProcessingProposal d with
  | Some currentProposal => mret (proposal_Hash currentProposal, true)
  | None =>
      if ProposalHash v =? finishedProposal d then mret (EmptyHash, true)
      else
        e ← env;
        when (negb (bool_decide (ProposalHash v ∈ requestedProposals e)))
          (SendMessageToPeer id (MRequestProposal (ProposalHash v));;
           mod_env (fun e => e <| requestedProposals := {[ ProposalHash v ]} ∪ requestedProposals e |>));;
        mret (EmptyHash, false)
  end.

(** ** Handlers that may change the view *)
Section handlers.
Context (cb : Callbacks Env).

Definition OnResponseResetViewReceived (m : ResetViewMsg) : Eng () :=
  producer ← IsProducer;
  if negb producer then skip
  else
    sponsor ← IsProducerByAccount (reset_Sponsor m);
    if negb sponsor then skip
    else
      err ← upd_disp (Dispatcher.OnResponseResetViewReceived m);
      if failed err then skip
      else
        v ← view; d ← disp;
        if GetMajorityCount v <=? GetResetViewReqCount d then
          e ← env; now1 ← now; now2 ← now;
          run (ResetConsensus cb (Number_Uint64 (CurrentHeader (chain e))) now1 now2);;
          out OutStartMine
        else skip.

Definition OnChangeView : Eng () :=
  t ← now;
  run (Dispatcher.OnChangeView cb t);;
  v ← view; e ← env;
  if maxViewOffset <=? GetViewOffset v then
    match account e with
    | None => panic
    | Some a =>
        let m := {| reset_Sponsor := PublicKeyBytes a; reset_Sign := [] |} in
        match resetView_SerializeUnsigned m with
        | inr _ => skip
        | inl buf =>
            let m := {| reset_Sponsor := PublicKeyBytes a; reset_Sign := account_Sign a buf |} in
            BroadMessage (MResetView m);;
            d ← disp;
            when (negb (ResetViewRequestIsContain (reset_Sponsor m) d)) (OnResponseResetViewReceived m)
        end
    end
  else skip.

(** Signing without an account panics; [RejectProposal] signs last. *)
Definition rejectProposal (proposal : DPOSProposal) : Eng (option DPOSProposalVote) :=
  e ← env;
  match account e with
  | Some ac => RejectProposal cb proposal ac
  | None => finished ← setProcessingProposal cb proposal; when (negb finished) panic;; mret None
  end.

Definition acceptProposal (proposal : DPOSProposal) : Eng (option DPOSProposalVote) :=
  e ← env;
  match account e with
  | Some ac => mret (AcceptProposal proposal ac)
  | None => panic;; mret None
  end.

(** The vote a processed proposal leads to. *)
Definition answerProposal (id : bytes) (proposal : DPOSProposal) (isBadProposal : bool)
    : Eng (option DPOSProposalVote * bool) :=
  r ← ProcessProposal cb id proposal;
  let '(err, isSendReject, handled) := (r : error * bool * bool) in
  voteMsg ←
    (if failed err then
       if (isSendReject : bool) then rejectProposal proposal
       else if handled then mret None
       else
         mod_env (fun e => e <| notHandledProposal := {[ hex_encode id ]} ∪ notHandledProposal e |>);;
         e ← env; v ← view;
         when (negb (GetViewOffset v =? 0)
               && HasArbitersMinorityCount (Z.of_nat (size (notHandledProposal e))) v)
           (recoverAbnormalState;; skip);;
         mret None
     else if (isBadProposal : bool) then rejectProposal proposal
     else acceptProposal proposal);
  mret (voteMsg, handled).

Definition OnProposalReceived (id : bytes) (proposal : DPOSProposal) : Eng () :=
  mod_env (fun e => e <| requestedProposals := requestedProposals e ∖ {[ proposal_Hash proposal ]} |>);;
  d ← disp;
  if bool_decide (is_Some (GetProcessingProposal d)) then skip
  else if negb (IsRunning (consensusView d)) then skip
  else
    OnChangeView;;
    d ← disp;
    if BlockHash proposal =? finishedBlockSealHash d then skip
    else
      isBadProposal ← pool false (IsBadBlockProposal proposal);
      block ← pool None (BlockPool.GetBlock (BlockHash proposal));
      if bool_decide (block = None) && negb isBadProposal then
        future ← with_fns false (fun fns => IsFutureBlock fns (BlockHash proposal));
        if (future : bool) then skip else OnInv id (BlockHash proposal)
      else
        a ← answerProposal id proposal isBadProposal;
        let '(voteMsg, handled) := (a : option DPOSProposalVote * bool) in
        when handled (mod_env (fun e => e <| notHandledProposal := ∅ |>));;
        d ← disp;
        match voteMsg with
        | Some vote =>
            if negb (GetProposalProcessFinished d) then
              BroadMessage (MVote vote);; mod_disp SetProposalProcessFinished
            else skip
        | None => skip
        end.

Definition onViewChanged (isOnDuty force : bool) : Eng () :=
  e ← env;
  when (isOnDuty && hasOnDuty e) (out OutOnDuty);;
  proposal ← upd_disp UpdatePrecociousProposals;
  match proposal with
  | Some proposal => OnProposalReceived zeroPID proposal
  | None => skip
  end;;
  when (negb force)
    (mod_disp (CleanProposals true);;
     e ← env;
     match isCurrent e with
     | None => panic
     | Some current => when (current && isOnDuty) (mod_view SetReady;; out OutStartMine)
     end).

Definition OnVoteAccepted (id : bytes) (vote : DPOSProposalVote) : Eng () :=
  producer ← IsProducer;
  v ← view; d ← disp; e ← env;
  if negb producer then skip
  else if negb (IsRunning v) then skip
  else if finishedProposal d =? ProposalHash vote then skip
  else
    c ← pool None (BlockPool.GetConfirm (ProposalHash vote));
    if bool_decide (is_Some c) then skip
    else if (isSealing e =? 0) && Dispatcher.ProducerIsOnDuty d then skip
    else
      r ← tryGetCurrentProposal id vote;
      let '(currentProposal, ok) := (r : Z * bool) in
      if negb ok then mod_disp (AddPendingVote vote)
      else if currentProposal =? ProposalHash vote then
        d ← disp;
        match GetProcessingProposal d with
        | None => skip
        | Some processing =>
            c ← pool None (BlockPool.GetConfirm (BlockHash processing));
            if bool_decide (is_Some c) then skip
            else ProcessVote cb vote;; skip
        end
      else skip.

Definition OnVoteRejected (id : bytes) (vote : DPOSProposalVote) : Eng () := OnVoteAccepted id vote.

(** The loop over the votes of a received confirm hands the dispatcher the
    address of its loop variable (one variable for the whole loop in the
    module's Go version): the entries it has stored so far, at the keys
    [cells], change with every iteration. *)
Definition overwrite (cells : gset Z) (v : DPOSProposalVote) (m : gmap Z DPOSProposalVote)
    : gmap Z DPOSProposalVote :=
  map_imap (fun k w => Some (if bool_decide (k ∈ cells) then v else w)) m.

Definition overwrite_votes (cells : gset Z) (v : DPOSProposalVote) (d : Dispatcher) : Dispatcher :=
  d <| acceptVotes := overwrite cells v (acceptVotes d) |>
    <| rejectedVotes := overwrite cells v (rejectedVotes d) |>.

Fixpoint process_votes (cells : gset Z) (votes : list DPOSProposalVote) : Eng () :=
  match votes with
  | [] => skip
  | v :: votes =>
      mod_disp (overwrite_votes cells v);;
      r ← ProcessVote cb v;
      let '(succeed, _, _) := (r : bool * bool * error) in
      process_votes (if (succeed : bool) then {[ vote_Hash v ]} ∪ cells else cells) votes
  end.

Definition OnConfirmReceived (pid : bytes) (c : Confirm) (height : Z) : Eng () :=
  duty ← IsOnduty;
  if (duty : bool) then mod_env (fun e => e <| isSealOver := true |>);; out GoRecover
  else
    e ← env; d ← disp;
    if u64 (Number_Uint64 (CurrentHeader (chain e)) + 1) <? height then skip
    else if height <=? finishedHeight d then skip
    else
      hasConfirm ← pool None (BlockPool.GetConfirmByHeight height);
      if bool_decide (is_Some hasConfirm) then skip
      else
        b ← pool None (BlockPool.GetBlock (BlockHash (Proposal c)));
        if bool_decide (b = None) then OnInv pid (BlockHash (Proposal c))
        else
          k ← pool None (BlockPool.GetConfirm (BlockHash (Proposal c)));
          if bool_decide (is_Some k) then skip
          else mod_disp ResetAcceptVotes;; process_votes ∅ (Votes c).

(** [OnBlockReceived] waits until the block's time; [importBlock] is the rest up
    to the import, [afterImport] what follows it. *)
Definition OnBlockReceived (id : bytes) (block : Block) : Eng () :=
  t ← now; out (OutSleep id block (Sub (time_Unix (i64 (header_Time (block_header block)))) t)).

Definition importBlock (id : bytes) (block : Block) : Eng () :=
  e ← env; v ← view;
  let current := CurrentBlock (chain e) in
  match chain_GetBlock (chain e) (ParentHash (block_header block)) (u64 (NumberU64 block - 1)) with
  | None => when (negb (ConsensusView.HasProducerMajorityCount (activePeers e) v)) (out GoAnnounceDAddr)
  | Some _ =>
      if (default 0 (Number (block_header current)) <=? default 0 (Number (block_header block)))
         && (1 <? u64 (NumberU64 block - NumberU64 current)) then skip
      else if bool_decide (is_Some (GetBlockByHash (chain e) (block_Hash block))) then skip
      else out (OutInsertChain id block)
  end.

Definition afterImport (id : bytes) (block : Block) (err : error) : Eng () :=
  if failed err then e ← env; when (hasInsertError e) (out (OutInsertError id block err))
  else
    BroadMessageExcept (MInventory (ParentHash (block_header block))) id;;
    BroadMessageExcept (MInventory (block_Hash block)) id.

(** A decoding error panics; a block with a confirm goes to the import. *)
Definition OnBlock (id : bytes) (data : bytes) : Eng () :=
  match DecodeBlock data with
  | inr _ => panic
  | inl b =>
      if extraVanity <? zlen (block_Extra b) then OnBlockReceived id b
      else
        e ← env; d ← disp;
        if (NumberU64 b <=? Number_Uint64 (CurrentHeader (chain e))) || (NumberU64 b <=? finishedHeight d)
        then with_fns nil_err (fun fns => AddBadBlock fns b);; skip
        else
          let sealHash := Header.SealHash (block_Header b) in
          err ← with_fns nil_err (fun fns => AppendDposBlock fns b);
          (if bool_decide (err = New ErrUnknownAncestor)
           then with_fns nil_err (fun fns => AppendFutureBlock fns b);; skip else skip);;
          c ← pool None (BlockPool.GetConfirm sealHash);
          match c with
          | Some c => OnConfirmReceived id c (block_GetHeight b)
          | None => skip
          end;;
          mod_env (fun e => e <| requestedBlocks := requestedBlocks e ∖ {[ sealHash ]} |>)
  end.

Definition AccessFutureBlock (parent : Block) : Eng () :=
  handled ← with_fns false (fun fns => HandleParentBlock fns parent);
  when handled (BroadMessage (MRequestProposal EmptyHash)).

(** ** Inserting blocks and changing the turn *)
Definition InitNextTurn : Eng () :=
  mod_env (fun e => match InitNextTurnDposInfo (spv e) with
                    | Some sp => e <| spv := sp |>
                    | None => e <| stuck := true |>
                    end).

Definition OnInsertBlock (block : Block) : Eng bool :=
  e ← env; v ← view;
  if needChangeNextTurnProducers e then
    mod_env (fun e => e <| needChangeNextTurnProducers := false |>);;
    isSame ← upd_view (IsSameProducers (ConsensusView.GetProducers v));
    when (negb isSame)
      (mod_view (ChangeCurrentProducers (u64 (NumberU64 block + 1)) (NextTurn.GetSpvHeight (spv e)));;
       out GoAnnounceDAddr;; out GoRecover;;
       now1 ← now; now2 ← now;
       run (ResetConsensus cb (u64 (NumberU64 block + 1)) now1 now2));;
    InitNextTurn;;
    mret (negb isSame)
  else if 0 <? block_Nonce block then
    let spvHeight := Z.max (NextTurn.GetSpvHeight (spv e)) (block_Nonce block) in
    match NextTurn.GetProducers spvHeight (spv e) with
    | inr _ => mret false
    | inl (producers, totalCount) =>
        let isBackword := ConsensusView.GetSpvHeight v <? block_Nonce block in
        isCurrentSet ← upd_view (IsCurrentProducers producers);
        if isBackword && negb isCurrentSet then
          mod_view (UpdateProducers producers totalCount spvHeight);;
          out GoAnnounceDAddr;; out GoRecover;;
          mret true
        else mret false
    end
  else mret false.

(** ** Mining *)
Definition CalcDifficulty : Eng Z := duty ← IsOnduty; mret (if (duty : bool) then diffInTurn else diffNoTurn).

Definition Start (headerTime : Z) : Eng () :=
  e ← env;
  match account e with
  | None => skip
  | Some _ =>
      (if negb (enableViewLoop e) then
         mod_env (fun e => e <| enableViewLoop := true |>);;
         mod_view (SetChangViewTime headerTime);;
         mod_view (UpdateDutyIndex (NumberU64 (CurrentBlock (chain e))));;
         out GoChangeViewLoop
       else mod_disp (Dispatcher.ResetView headerTime));;
      mod_view SetRunning
  end.

(** The error and the prepared header. *)
Definition Prepare (header : Header) : Eng (error * Header) :=
  mod_env (fun e => e <| isSealOver := false |>);;
  t ← now;
  let nowTime := u64 (Unix t) in
  difficulty ← CalcDifficulty;
  v ← view;
  let header := header <| Difficulty := Some difficulty |>
                       <| header_Nonce := EncodeNonce (ConsensusView.GetSpvHeight v) |> in
  e ← env; d ← disp;
  match GetHeader (chain e) (ParentHash header) (u64 (Number_Uint64 header - 1)) with
  | None => mret (New ErrUnknownAncestor, header)
  | Some parent =>
      if negb (isRecoved e) then mret (New "wait for recoved states", header)
      else if Number_Uint64 header <=? finishedHeight d then mret (New ErrAlreadyConfirmedBlock, header)
      else if IsRunning v && enableViewLoop e then mret (New "current consensus is running", header)
      else
        Start (header_Time parent);;
        let header := header <| header_Time := u64 (header_Time parent + period e) |> in
        header' ← (if header_Time header <? nowTime
                   then mod_disp (Dispatcher.ResetView nowTime);; mret (header <| header_Time := nowTime |>)
                   else mret header);
        duty ← IsOnduty;
        if negb duty then mret (New "singer is not on duty", header') else mret (nil_err, header')
  end.

(** [root] is the state root the state database computes. *)
Definition Finalize (header : Header) (root : Z) : Eng Header :=
  let sealHash := Header.SealHash header in
  t ← now;
  run (FinishedProposal cb (Number_Uint64 header) sealHash (header_Time header) t);;
  let header := header <| Root := root |> <| UncleHash := CalcUncleHash [] |> in
  with_fns () (fun fns => CleanFinalConfirmedBlock fns (Number_Uint64 header));;
  v ← view; e ← env;
  when ((GetDutyIndex v =? 0) && SpvIsWorkingHeight (spv e))
    (mod_env (fun e => e <| needChangeNextTurnProducers := true |>));;
  mret header.

Definition StartProposal (block : Block) : Eng (DPOSProposal + string) :=
  e ← env; v ← view;
  match account e with
  | None => panic;; mret (inr "no account")
  | Some ac =>
      match Votes.StartProposal ac (Header.SealHash (block_Header block)) (GetViewOffset v) with
      | inr err => mret (inr err)
      | inl proposal =>
          r ← ProcessProposal cb (to_PID (PublicKeyBytes ac)) proposal;
          match (r : error * bool * bool) with
          | (Some err, _, _) => mret (inr err)
          | (None, _, _) => BroadMessage (MProposal proposal);; mret (inl proposal)
          end
      end
  end.

(** [Seal] up to the wait: it broadcasts the block, proposes it and votes. *)
Definition SealBegin (block : Block) : Eng error :=
  e ← env; d ← disp;
  match account e with
  | None => mret (New "no signer inited")
  | Some ac =>
      if negb (isRecoved e) then mret (New "wait for recoved states")
      else if bool_decide (GetHeader (chain e) (ParentHash (block_header block)) (u64 (NumberU64 block - 1)) = None)
      then mret (New ErrUnknownAncestor)
      else if NumberU64 block <=? finishedHeight d then mret (New ErrAlreadyConfirmedBlock)
      else
        producer ← IsProducer;
        if negb producer then mret (New "unauthorized signer")
        else
          duty ← IsOnduty;
          if negb duty then mret (New "singer is not on duty")
          else
            BroadBlockMsg block;;
            p ← StartProposal block;
            match p with
            | inr err => mret (New err)
            | inl proposal =>
                mod_env (fun e => e <| isSealOver := false |> <| isSealing := 1 |>);;
                match AcceptProposal proposal ac with
                | Some vote => out (GoVote vote);; BroadMessage (MVote vote)
                | None => skip
                end;;
                mret nil_err
            end
  end.

Definition addConfirmToBlock (header : Header) (confirm : Confirm) : Eng Header :=
  let header := header <| Extra := confirm_Serialize confirm |> in
  t ← now;
  run (FinishedProposal cb (Number_Uint64 header) (Header.SealHash header) (header_Time header) t);;
  mret header.

(** What ends the wait of [Seal]: the confirm, or one of rejection, timeout and
    stop. *)
Inductive seal_event := SealConfirmed (c : Confirm) | SealUnconfirmed.

Definition SealEnd (block : Block) (ev : seal_event) : Eng () :=
  mod_env (fun e => e <| isSealing := 0 |>);;
  match ev with
  | SealUnconfirmed => mod_env (fun e => e <| isSealOver := true |>)
  | SealConfirmed confirm =>
      header ← addConfirmToBlock (block_Header block) confirm;
      mod_env (fun e => e <| isSealOver := true |>);;
      out (OutResult (WithSeal header block))
  end.

(** The goroutine that hands the block to the miner and broadcasts it. *)
Definition SealDeliver (block finalBlock : Block) : Eng () :=
  BroadBlockMsg finalBlock;;
  with_fns () (fun fns => CleanFinalConfirmedBlock fns (NumberU64 block)).
End handlers.

(** ** The callbacks, with fuel for the nesting of view changes *)
Fixpoint callbacks (fuel : nat) : Callbacks Env := {|
  Dispatcher.onConfirm := onConfirm;
  unConfirm := onUnConfirm;
  OnViewChanged := match fuel with
                   | O => fun _ _ s => (fst s, (snd s) <| stuck := true |>)
                   | S fuel => fun isOnDuty force s => snd (onViewChanged (callbacks fuel) isOnDuty force s)
                   end
|}.

(** ** Reasoning about actions *)

(** The dispatcher part of the state is left alone. *)
Definition env_only {A} (m : Eng A) : Prop := forall s, fst (snd (m s)) = fst s.

Lemma env_only_ret {A} (x : A) : env_only (mret x).
Proof. done. Qed.

Lemma env_only_bind {A B} (m : Eng A) (f : A -> Eng B) :
  env_only m -> (forall x, env_only (f x)) -> env_only (m ≫= f).
Proof.
  intros Hm Hf s. unfold mbind, Eng_bind. specialize (Hm s). destruct (m s) as [x s']. cbn in Hm.
  rewrite <- Hm. apply Hf.
Qed.

Lemma env_only_when b m : env_only m -> env_only (when b m).
Proof. by destruct b. Qed.

Lemma env_only_pool {A} (x : A) m : env_only (pool x m).
Proof. intros s. unfold pool. by destruct (m _) as [[? ?]|]. Qed.

Lemma env_only_with_fns {A} (x : A) m : env_only (with_fns x m).
Proof. intros s. unfold with_fns. apply env_only_pool. Qed.

Ltac env_only_tac :=
  repeat first
    [ done
    | apply env_only_pool | apply env_only_with_fns
    | apply env_only_bind; [|intros ?]
    | apply env_only_when
    | match goal with |- env_only (match ?x with _ => _ end) => destruct x end ].

Lemma env_only_OnInv id h : env_only (OnInv id h).
Proof. unfold OnInv, SendMessageToPeer, IsProducer. env_only_tac. Qed.

Lemma env_only_recover : env_only recoverAbnormalState.
Proof. unfold recoverAbnormalState, RequestAbnormalRecovering, BroadMessage. env_only_tac. Qed.

Lemma env_only_Broad m : env_only (BroadMessage m).
Proof. unfold BroadMessage. env_only_tac. Qed.

End engine.

Ltac env_only_calls :=
  repeat first
    [ done
    | apply env_only_recover | apply env_only_OnInv | apply env_only_Broad
    | apply env_only_pool | apply env_only_with_fns
    | apply env_only_bind; [|intros ?]
    | apply env_only_when
    | match goal with |- env_only (match ?x with _ => _ end) => destruct x end ].

Section reasoning.
Context `{!ElaLib} `{!Codec} `{!Keccak} `{!RangeOrder} `{!WireLib}.

(** An action preserves a predicate on states. *)
Definition preserves {A} (P : State -> Prop) (m : Eng A) : Prop := forall s, P s -> P (snd (m s)).

Lemma preserves_bind {A B} P (m : Eng A) (f : A -> Eng B) :
  preserves P m -> (forall x, preserves P (f x)) -> preserves P (m ≫= f).
Proof.
  intros Hm Hf s Hs. unfold mbind, Eng_bind. specialize (Hm s Hs). destruct (m s) as [x s']. by apply Hf.
Qed.

Lemma preserves_when P b m : preserves P m -> preserves P (when b m).
Proof. by destruct b; [|intros ? s ?]. Qed.

(** The invariant of the engine's dispatcher, above a given finished height. *)
Definition good (fresh : bool) (h : Z) (s : State) : Prop := dispatcher_inv fresh (fst s) /\ h <= finishedHeight (fst s).

Section good.
Context {fresh : bool}.

Lemma preserves_env {A} (m : Eng A) (P : Dispatcher -> Prop) : env_only m -> preserves (fun s => P (fst s)) m.
Proof. intros Hm s Hs. by rewrite Hm. Qed.

Lemma good_env {A} (m : Eng A) h : env_only m -> preserves (good fresh h) m.
Proof. apply (preserves_env m (fun d => dispatcher_inv fresh d /\ h <= finishedHeight d)). Qed.

Lemma good_disp f h :
  (forall d, dispatcher_inv fresh d -> dispatcher_inv fresh (f d)) -> (forall d, finishedHeight (f d) = finishedHeight d) ->
  preserves (good fresh h) (mod_disp f).
Proof. intros Hi Hf s [Hs1 Hs2]. split; cbn; [by apply Hi|by rewrite Hf]. Qed.

(** What the engine's view listener guarantees to the dispatcher. *)
Record listener_ok (cb : Callbacks Env) : Prop := {
  listener_lawful : well_behaved cb;
  listener_idle : forall a f s,
    f = false \/ precociousProposals (fst s) = ∅ ->
    processingProposal (fst (OnViewChanged cb a f s)) = None \/
    processingProposal (fst (OnViewChanged cb a f s)) = processingProposal (fst s)
}.

Lemma listener_laws cb : listener_ok cb -> CallbackLaws cb.
Proof. intros Hcb. apply well_behaved_laws, Hcb. Qed.

Lemma TryChangeView_unforced t v a f : snd (TryChangeView t v) = Some (a, f) -> f = false.
Proof.
  unfold TryChangeView, ChangeView. case_match; [|done].
  destruct (calculateOffsetTime _ _ _) as [o ot]. cbn zeta iota.
  destruct (0 <? o); cbn; [|done]. destruct (listener v); [|done]. by intros [= _ <-].
Qed.

Section listener.
Context (cb : Callbacks Env) (Hcb : listener_ok cb).

(** Reached from [s0] by the dispatcher's steps. *)
Definition reached (s0 s : State) : Prop := rtc (dstep cb) s0 s.

Lemma reached_step s0 s s' : dstep cb s s' -> reached s0 s -> reached s0 s'.
Proof. intros Hs Hr. by eapply rtc_r. Qed.

Lemma reached_env {A} (m : Eng A) s0 : env_only m -> preserves (reached s0) m.
Proof.
  intros Hm [d e] Hr. specialize (Hm (d, e)). destruct (m (d, e)) as [x [d' e']]. cbn in *. subst d'.
  eapply reached_step; [apply step_env|done].
Qed.

(** What holds of the steps of the dispatcher holds of an action made of them. *)
Lemma good_reached {A} (m : Eng A) h : (forall s0, preserves (reached s0) m) -> preserves (good fresh h) m.
Proof.
  intros Hm s [Hi Hh]. pose proof (listener_laws _ Hcb) as Hl.
  destruct (dsteps_keep cb fresh s (snd (m s))) as [Hi' Hf]; [apply Hm; constructor|done|]. split; [done|lia].
Qed.

Lemma reached_ResetConsensus s0 n t1 t2 : preserves (reached s0) (run (ResetConsensus cb n t1 t2)).
Proof. intros s Hr. eapply reached_step; [apply step_reset|done]. Qed.

Lemma reached_OnResponseResetView s0 m : preserves (reached s0) (OnResponseResetViewReceived cb m).
Proof.
  unfold OnResponseResetViewReceived. apply preserves_bind; [by apply reached_env|intros p].
  destruct (negb p); [by intros ? ?|]. apply preserves_bind; [by apply reached_env|intros q].
  destruct (negb q); [by intros ? ?|]. apply preserves_bind.
  { intros [d e] Hr. pose proof (step_reset_request cb m d e) as Hs. unfold upd_disp. cbn [fst snd] in *.
    destruct (Dispatcher.OnResponseResetViewReceived m d) as [err d']. by eapply reached_step. }
  intros err. destruct (failed err); [by intros ? ?|]. do 2 (apply preserves_bind; [by apply reached_env|intros ?]).
  case_match; [|by intros ? ?]. do 3 (apply preserves_bind; [by apply reached_env|intros ?]).
  apply preserves_bind; [apply reached_ResetConsensus|intros _]. by apply reached_env.
Qed.

Lemma reached_OnChangeView s0 : preserves (reached s0) (OnChangeView cb).
Proof.
  unfold OnChangeView. apply preserves_bind; [by apply reached_env|intros t].
  apply preserves_bind; [intros s Hr; eapply reached_step; [apply step_change_view|done]|intros _].
  do 2 (apply preserves_bind; [by apply reached_env|intros ?]).
  case_match; [|by intros ? ?]. case_match; [|by apply reached_env]. case_match; [|by intros ? ?].
  apply preserves_bind; [apply reached_env, env_only_Broad|intros _].
  apply preserves_bind; [by apply reached_env|intros ?]. apply preserves_when, reached_OnResponseResetView.
Qed.

(** No proposal is being processed. *)
Definition idle (s : State) : Prop := processingProposal (fst s) = None.

Lemma idle_env {A} (m : Eng A) : env_only m -> preserves idle m.
Proof. apply (preserves_env m (fun d => processingProposal d = None)). Qed.

Lemma idle_notify n s :
  (forall a f, n = Some (a, f) -> f = false \/ precociousProposals (fst s) = ∅) ->
  idle s -> idle (notify_view cb n s).
Proof.
  intros Hn Hs. destruct n as [[a f]|]; [|done]. cbn. unfold idle in *.
  destruct (listener_idle _ Hcb a f s (Hn _ _ eq_refl)); congruence.
Qed.

Lemma idle_ResetConsensus n t1 t2 : preserves idle (run (ResetConsensus cb n t1 t2)).
Proof.
  intros [d e] Hs. unfold run, ResetConsensus. cbn [snd]. destruct (IsRunning (consensusView d)); [|done].
  set (d1 := with_view (UpdateDutyIndex n) _). unfold change_view.
  destruct (ChangeView t1 true (u64 (Unix t2)) (consensusView d1)) as [v no].
  assert (Hn : idle (notify_view cb no (d1 <| consensusView := v |>, e))).
  { apply idle_notify; [|done]. intros a f _. by right. }
  by destruct (notify_view cb no _) as [d2 e2].
Qed.

Lemma idle_OnResponseResetView m : preserves idle (OnResponseResetViewReceived cb m).
Proof.
  unfold OnResponseResetViewReceived. apply preserves_bind; [by apply idle_env|intros p].
  destruct (negb p); [by intros ? ?|]. apply preserves_bind; [by apply idle_env|intros q].
  destruct (negb q); [by intros ? ?|]. apply preserves_bind.
  { intros s Hi. unfold upd_disp. destruct (OnResponseResetViewReceived_frame m (fst s)) as [r Hr].
    destruct (Dispatcher.OnResponseResetViewReceived m (fst s)) as [err d']. cbn in Hr. by subst d'. }
  intros err. destruct (failed err); [by intros ? ?|]. do 2 (apply preserves_bind; [by apply idle_env|intros ?]).
  case_match; [|by intros ? ?]. do 3 (apply preserves_bind; [by apply idle_env|intros ?]).
  apply preserves_bind; [apply idle_ResetConsensus|intros _]. by apply idle_env.
Qed.

Lemma idle_OnChangeView : preserves idle (OnChangeView cb).
Proof.
  unfold OnChangeView. apply preserves_bind; [by apply idle_env|intros t]. apply preserves_bind.
  { intros [d e] Hs. unfold run, Dispatcher.OnChangeView, change_view. cbn [snd].
    pose proof (TryChangeView_unforced t (consensusView d)) as Hf.
    destruct (TryChangeView t (consensusView d)) as [v no]. apply idle_notify; [|done].
    intros a f ->. left. by eapply Hf. }
  intros _. do 2 (apply preserves_bind; [by apply idle_env|intros ?]).
  case_match; [|by intros ? ?]. case_match; [|by intros ? ?]. case_match; [|by intros ? ?].
  apply preserves_bind; [apply idle_env, env_only_Broad|intros _].
  apply preserves_bind; [by apply idle_env|intros ?]. apply preserves_when, idle_OnResponseResetView.
Qed.

Lemma setProcessingProposal_processing p s :
  processingProposal (fst (snd (setProcessingProposal cb p s))) = Some p.
Proof.
  destruct s as [d e]. unfold setProcessingProposal.
  pose proof (process_pending_frame cb p (range_map (pendingVotes d)).*2 (d <| processingProposal := Some p |>, e))
    as (_ & Hp & _).
  set (d1 := d <| processingProposal := Some p |>) in *.
  change (pendingVotes d1) with (pendingVotes d).
  destruct (process_pending _ _ _ _) as [fin [d' e']]. cbn in Hp. by destruct fin.
Qed.

(** A proposal that is taken up is the processing one; a refused one changes
    nothing there. *)
Lemma ProcessProposal_processing id p s :
  processingProposal (fst (snd (ProcessProposal cb id p s))) =
  (if failed (fst (fst (fst (ProcessProposal cb id p s)))) then processingProposal (fst s) else Some p).
Proof.
  destruct s as [d e]. unfold ProcessProposal. destruct (negb (_ =? _)); [by case_match|].
  destruct (negb (ConsensusView.ProducerIsOnDuty _ _)); [done|].
  destruct (match GetProcessingProposal d with Some _ => _ | None => _ end); [done|].
  destruct (negb (IsProducers _ _)); [done|]. destruct (CheckProposal p); [done|].
  pose proof (setProcessingProposal_processing p (d, e)) as Hp.
  by destruct (setProcessingProposal cb p (d, e)) as [? s'].
Qed.

(** Reached, and ready to take up or reject [p]. *)
Definition ready_for (s0 : State) (p : DPOSProposal) (s : State) : Prop :=
  reached s0 s /\ (processingProposal (fst s) = None \/ processingProposal (fst s) = Some p).

Lemma reached_ProcessProposal s0 id p s : reached s0 s -> idle s -> ready_for s0 p (snd (ProcessProposal cb id p s)).
Proof.
  intros Hr Hid. split; [by eapply reached_step; [apply step_proposal|]|].
  rewrite ProcessProposal_processing. case_match; [by left|by right].
Qed.

Lemma good_ProcessProposal h id p s : good fresh h s -> idle s -> good fresh h (snd (ProcessProposal cb id p s)).
Proof.
  intros [Hi Hh] Hid. pose proof (listener_laws _ Hcb) as Hl.
  destruct (dsteps_keep cb fresh s (snd (ProcessProposal cb id p s))) as [Hi' Hf]; [by apply rtc_once, step_proposal|done|]. split; [done|lia].
Qed.

Lemma reached_rejectProposal s0 p s : ready_for s0 p s -> reached s0 (snd (rejectProposal cb p s)).
Proof.
  intros [Hr Hp]. unfold rejectProposal, mbind, Eng_bind, env. destruct (account (snd s)) as [ac|].
  - by eapply reached_step; [apply step_reject|].
  - assert (Hs : reached s0 (snd (setProcessingProposal cb p s))) by (by eapply reached_step; [apply step_take|]).
    destruct (setProcessingProposal cb p s) as [fin [d e]]. cbn [snd] in Hs.
    destruct fin; cbn; [done|]. by eapply reached_step; [apply step_env|].
Qed.

Lemma reached_answerProposal s0 id p bad s : reached s0 s -> idle s -> reached s0 (snd (answerProposal cb id p bad s)).
Proof.
  intros Hg Hid. pose proof (reached_ProcessProposal s0 id p s Hg Hid) as Hr.
  unfold answerProposal. unfold mbind at 1, Eng_bind.
  destruct (ProcessProposal cb id p s) as [[[err rej] handled] s1] eqn:E. cbn [snd] in Hr.
  assert (Hret : forall (m : Eng (option DPOSProposalVote)), reached s0 (snd (m s1)) ->
    reached s0 (snd (((v ← m; mret (v, handled)) : Eng (option DPOSProposalVote * bool)) s1))).
  { intros m Hm. unfold mbind, Eng_bind. by destruct (m s1). }
  apply Hret. destruct (failed err).
  - destruct rej; [by apply reached_rejectProposal|]. destruct handled; [apply Hr|].
    apply reached_env; [env_only_calls|apply Hr].
  - destruct bad; [by apply reached_rejectProposal|]. apply reached_env; [|apply Hr]. unfold acceptProposal. env_only_calls.
Qed.

Lemma reached_OnProposalReceived s0 id p : preserves (reached s0) (OnProposalReceived cb id p).
Proof.
  unfold OnProposalReceived. apply preserves_bind; [by apply reached_env|intros []]. intros s Hg.
  unfold mbind at 1, Eng_bind, disp at 1.
  unfold GetProcessingProposal. destruct (processingProposal (fst s)) eqn:Hp; [done|].
  rewrite bool_decide_eq_false_2 by (by intros [? ?]). destruct (negb (IsRunning _)); [done|].
  unfold mbind at 1, Eng_bind. pose proof (reached_OnChangeView s0 s Hg) as Hg2.
  pose proof (idle_OnChangeView s Hp) as Hi2. destruct (OnChangeView cb s) as [[] s2]. cbn [snd] in Hg2, Hi2.
  unfold mbind at 1, Eng_bind, disp at 1. case_match; [done|].
  unfold mbind at 1, Eng_bind. pose proof (env_only_pool false (IsBadBlockProposal p) s2) as E1.
  pose proof (reached_env (pool false (IsBadBlockProposal p)) s0 (env_only_pool _ _) s2 Hg2) as Hg3.
  destruct (pool false (IsBadBlockProposal p) s2) as [bad s3]. cbn in E1, Hg3.
  unfold mbind at 1, Eng_bind. pose proof (env_only_pool None (BlockPool.GetBlock (BlockHash p)) s3) as E2.
  pose proof (reached_env (pool None (BlockPool.GetBlock (BlockHash p))) s0 (env_only_pool _ _) s3 Hg3) as Hg4.
  destruct (pool None (BlockPool.GetBlock (BlockHash p)) s3) as [blk s4]. cbn in E2, Hg4.
  assert (Hi4 : idle s4) by (unfold idle in *; by rewrite E2, E1). clear - Hcb Hg4 Hi4.
  destruct (_ && _).
  { revert Hg4. apply reached_env. env_only_calls. }
  unfold mbind at 1, Eng_bind. pose proof (reached_answerProposal s0 id p bad s4 Hg4 Hi4) as Hg5.
  destruct (answerProposal cb id p bad s4) as [[vote handled] s5]. cbn [snd] in Hg5. revert s5 Hg5.
  change (forall s1, reached s0 s1 -> reached s0 (snd (?m s1))) with (preserves (reached s0) m).
  apply preserves_bind; [by apply preserves_when, reached_env|intros _].
  apply preserves_bind; [by apply reached_env|intros d]. destruct vote; [|by intros ? ?].
  case_match; [|by intros ? ?]. apply preserves_bind; [apply reached_env, env_only_Broad|intros _].
  intros [d' e'] Hr. by eapply reached_step; [apply step_processed|].
Qed.

Lemma reached_onViewChanged s0 a f : preserves (reached s0) (onViewChanged cb a f).
Proof.
  unfold onViewChanged. apply preserves_bind; [by apply reached_env|intros e].
  apply preserves_bind; [by apply preserves_when, reached_env|intros _]. apply preserves_bind.
  { intros [d e'] Hr. pose proof (step_precocious cb d e') as Hs. unfold upd_disp. cbn [fst snd] in *.
    destruct (UpdatePrecociousProposals d) as [q d']. by eapply reached_step. }
  intros q. apply preserves_bind; [destruct q; [apply reached_OnProposalReceived|by intros ? ?]|intros _].
  apply preserves_when. apply preserves_bind; [|intros _].
  { intros [d e'] Hr. by eapply reached_step; [apply step_clean|]. }
  apply preserves_bind; [by apply reached_env|intros e'].
  destruct (isCurrent e') as [cur|]; [|by apply reached_env]. apply preserves_when.
  apply preserves_bind; [|intros _; by apply reached_env].
  intros [d e''] Hr. by eapply reached_step; [apply step_view; left|].
Qed.

Lemma idle_onViewChanged a f s :
  f = false \/ precociousProposals (fst s) = ∅ ->
  processingProposal (fst (snd (onViewChanged cb a f s))) = None \/
  processingProposal (fst (snd (onViewChanged cb a f s))) = processingProposal (fst s).
Proof.
  intros Hf. unfold onViewChanged, mbind, Eng_bind, env, upd_disp.
  destruct (when (a && hasOnDuty (snd s)) (out OutOnDuty) s) as [x s1] eqn:E1.
  assert (H1f : fst s1 = fst s).
  { destruct (a && hasOnDuty (snd s)); cbn in E1; by injection E1 as _ <-. }
  destruct (UpdatePrecociousProposals (fst s1)) as [q d1] eqn:Eq. destruct f.
  - destruct Hf as [?|Hf]; [done|]. right. cbn [when negb skip].
    unfold UpdatePrecociousProposals in Eq. rewrite H1f, Hf, range_map_empty in Eq. cbn in Eq.
    by injection Eq as <- <-.
  - left. cbn [when negb].
    match goal with |- context [let '(_, _) := ?m in _] => destruct m as [y s2] end.
    cbn. destruct (isCurrent (snd s2)) as [cur|]; [|done]. by destruct (cur && a).
Qed.
End listener.
End good.

(** The callbacks meet the dispatcher's interface, at any fuel: on a change of the
    view the engine only makes the calls of [dstep]. *)
Lemma callbacks_well_behaved fuel : well_behaved (callbacks fuel) /\ listener_ok (callbacks fuel).
Proof.
  induction fuel as [|fuel [IHw IH]].
  - assert (well_behaved (callbacks 0)) by (by apply listener_silent). split; [done|]. split; [done|]. by right.
  - assert (well_behaved (callbacks (S fuel))).
    { apply (listener_calls _ (callbacks fuel)); [done|]. intros a f s. apply (reached_onViewChanged (callbacks fuel) IH s a f s). constructor. }
    split; [done|]. split; [done|]. intros a f s. by apply idle_onViewChanged.
Qed.

Lemma callbacks_ok fuel : listener_ok (callbacks fuel).
Proof. apply callbacks_well_behaved. Qed.

(** ** The median of the reported start times *)
Lemma sorted_le_lookup (l : list Z) i j x y :
  StronglySorted Z.le l -> l !! i = Some x -> l !! j = Some y -> (i <= j)%nat -> x <= y.
Proof.
  intros Hs. revert i j. induction Hs as [|z l Hs IH Hz]; intros i j Hi Hj Hij; [done|].
  destruct i as [|i], j as [|j]; cbn in *; simplify_eq; [done| |lia|eapply IH; eauto; lia].
  rewrite Forall_forall in Hz. apply Hz. by eapply list_elem_of_lookup_2.
Qed.

Definition within (lo hi x : Z) : Prop := lo <= x <= hi.

#[export] Instance within_dec lo hi x : Decision (within lo hi x).
Proof. unfold within. apply _. Defined.

(** Of a sorted list with a strict majority in [lo, hi], the positions next to
    the middle are in [lo, hi]. *)
Lemma sorted_middle (l : list Z) lo hi k x :
  StronglySorted Z.le l ->
  (length l < 2 * length (filter (within lo hi) l))%nat ->
  l !! k = Some x -> (k = length l / 2 \/ (k = length l / 2 - 1 /\ length l mod 2 = 0))%nat ->
  lo <= x <= hi.
Proof.
  intros Hs Hm Hk Hpos.
  assert (Hnil : forall (l : list Z), (forall y, y ∈ l -> ~ within lo hi y) -> length (filter (within lo hi) l) = 0%nat).
  { intros l0 Hn. apply length_zero_iff_nil. induction l0 as [|y l0 IH]; [done|]. rewrite filter_cons_False by (apply Hn; left). apply IH. intros z Hz. apply Hn. by right. }
  assert (Hkl : (k < length l)%nat) by (by eapply lookup_lt_Some).
  pose proof (Nat.div_mod (length l) 2 ltac:(lia)) as Hdm. pose proof (Nat.mod_upper_bound (length l) 2 ltac:(lia)).
  assert (Hsplit : forall m, length (filter (within lo hi) l) =
    (length (filter (within lo hi) (take m l)) + length (filter (within lo hi) (drop m l)))%nat).
  { intros m. rewrite <- (take_drop m l) at 1. by rewrite filter_app, length_app. }
  split; apply Z.nlt_ge; intros Hx.
  - rewrite (Hsplit (S k)), Hnil in Hm.
    + pose proof (length_filter (within lo hi) (drop (S k) l)) as Hf. rewrite length_drop in Hf. lia.
    + intros y [j Hj]%list_elem_of_lookup. apply lookup_take_Some in Hj as [Hj Hjk].
      pose proof (sorted_le_lookup l j k y x Hs Hj Hk ltac:(lia)). unfold within. lia.
  - rewrite (Hsplit k), (Hnil (drop k l)) in Hm.
    + pose proof (length_filter (within lo hi) (take k l)) as Hf. rewrite length_take in Hf. lia.
    + intros y [j Hj]%list_elem_of_lookup. rewrite lookup_drop in Hj.
      pose proof (sorted_le_lookup l k (k + j) x y Hs Hk Hj ltac:(lia)). unfold within. lia.
Qed.

(** the recovered start time resists a minority of wrong reports.  If more
    than half of the reported times lie in an interval (of times whose sums fit
    in 64 bits), then so does the median the node adopts, whatever the others
    report. *)
Theorem medianOf_robust (times : list Z) (lo hi : Z) :
  - 2 ^ 62 <= lo -> hi < 2 ^ 62 ->
  (length times < 2 * length (filter (within lo hi) times))%nat ->
  lo <= medianOf (merge_sort Z.le times) <= hi.
Proof.
  intros Hlo Hhi Hm. set (l := merge_sort Z.le times).
  assert (Hp : l ≡ₚ times) by apply merge_sort_Permutation.
  assert (Hs : StronglySorted Z.le l) by (apply StronglySorted_merge_sort; apply _).
  assert (Hm' : (length l < 2 * length (filter (within lo hi) l))%nat) by (by rewrite Hp).
  assert (Hne : length l <> 0%nat) by (intros E; apply length_zero_iff_nil in E; rewrite E in Hm'; cbn in Hm'; lia).
  pose proof (Nat.div_mod (length l) 2 ltac:(lia)) as Hdm. pose proof (Nat.mod_upper_bound (length l) 2 ltac:(lia)).
  assert (Hmid : forall k, (k = length l / 2 \/ (k = length l / 2 - 1 /\ length l mod 2 = 0))%nat ->
    lo <= default 0 (l !! k) <= hi).
  { intros k Hk. destruct (lookup_lt_is_Some_2 l k) as [x Hx]; [lia|]. rewrite Hx. by eapply sorted_middle. }
  unfold medianOf. rewrite decide_False by done. case_decide.
  - pose proof (Hmid (length l / 2)%nat ltac:(by left)). pose proof (Hmid (length l / 2 - 1)%nat ltac:(by right)).
    rewrite i64_id by (unfold is_i64; lia). pose proof (Z.quot_rem' (default 0 (l !! (length l / 2)%nat) + default 0 (l !! (length l / 2 - 1)%nat)) 2).
    Z.to_euclidean_division_equations. lia.
  - apply Hmid. by left.
Qed.

(** ** Requests for blocks *)
Lemma limitMap_size m limit :
  0 < limit -> Z.of_nat (size m) <= limit -> Z.of_nat (size (limitMap m limit)) + 1 <= limit /\ limitMap m limit ⊆ m.
Proof.
  intros Hl Hm. unfold limitMap. destruct (Z.ltb_spec limit (Z.of_nat (size m) + 1)); [|split; [lia|done]].
  destruct (range_order ((fun h => (h, ())) <$> elements m)) as [|[h []] l] eqn:E.
  - apply (f_equal length) in E. rewrite (Permutation_length (range_order_perm _)), length_fmap in E.
    change (size m) with (length (elements m)) in *. cbn in E. lia.
  - assert (Hin : h ∈ m).
    { apply elem_of_elements. assert (Hx : (h, ()) ∈ range_order ((fun h => (h, ())) <$> elements m)) by (rewrite E; left).
      rewrite range_order_perm in Hx. apply list_elem_of_fmap in Hx as (k & [= ->] & ?). done. }
    split; [|set_solver]. rewrite size_difference by set_solver. rewrite size_singleton.
    assert (size m <> 0)%nat by (intros E0%size_empty_inv; set_solver). lia.
Qed.

Lemma request_size m limit h :
  0 < limit -> Z.of_nat (size m) <= limit -> Z.of_nat (size ({[ h ]} ∪ limitMap m limit : gset Z)) <= limit.
Proof.
  intros Hl Hm. destruct (limitMap_size m limit Hl Hm) as [Hsz _].
  rewrite size_union_alt, size_singleton.
  pose proof (subseteq_size (limitMap m limit ∖ {[ h ]}) (limitMap m limit) ltac:(set_solver)). lia.
Qed.

(** requesting blocks is bounded and not repeated.  [OnInv] keeps at most
    [MaxInvPerMsg] outstanding requests, leaves the dispatcher alone, and sends
    a request only for a block it had not requested, which it then remembers. *)
Theorem OnInv_bounded (id : bytes) (h : Z) (s : State) :
  0 < MaxInvPerMsg -> Z.of_nat (size (requestedBlocks (snd s))) <= MaxInvPerMsg ->
  let s' := snd (OnInv id h s) in
  fst s' = fst s /\ Z.of_nat (size (requestedBlocks (snd s'))) <= MaxInvPerMsg /\
  (outputs (snd s') = outputs (snd s) \/
   outputs (snd s') = outputs (snd s) ++ [Sent id (MGetBlock h)] /\
   h ∈ requestedBlocks (snd s') /\ h ∉ requestedBlocks (snd s)).
Proof.
  intros Hl Hs s'. split; [apply env_only_OnInv|]. unfold s', OnInv, mbind, Eng_bind, env, disp.
  destruct (account (snd s)) as [ac|]; [|cbn; auto]. destruct (negb _); [cbn; auto|]. unfold pool.
  destruct (HasBlock h (blockPool (snd s))) as [[[] bp]|]; [cbn; by auto| |].
  - case_bool_decide; [cbn; auto|]. case_bool_decide as Hin; [cbn; auto|]. cbn.
    split; [by apply request_size|]. right. set_solver.
  - case_bool_decide; [cbn; auto|]. case_bool_decide as Hin; [cbn; auto|]. cbn.
    split; [by apply request_size|]. right. set_solver.
Qed.

(** ** Delivering confirms *)

(** only a verified confirm of the current proposal reaches the miner.
    With the pool's mutex free, [onConfirm] writes to the confirm channel only
    when this node is on duty and sealing, the confirm is for the block of the
    processing proposal, that block is in the pool, and the confirm verifies at
    its main-chain height; in every other case no confirm is delivered. *)
Theorem onConfirm_delivers (d : Dispatcher) (c : Confirm) (e e' : Env) (err : error) :
  locked (blockPool e) = false -> onConfirm d c e = (e', err) ->
  outputs e' = outputs e \/
  (outputs e' = outputs e ++ [OutConfirmCh c] /\ err = nil_err /\
   Dispatcher.ProducerIsOnDuty d = true /\ isSealing e = 1 /\ isSealOver e = false /\
   exists p b, processingProposal d = Some p /\ BlockHash p = BlockHash (Proposal c) /\
     blocks (blockPool e) !! BlockHash (Proposal c) = Some b /\
     verifyConfirm (consensusView d) (spv e) c (block_Nonce b) = nil_err /\
     confirms (blockPool e') !! BlockHash (Proposal c) = Some c).
Proof.
  intros Hl. unfold onConfirm, with_fns, pool. cbn [snd fst]. rewrite AppendConfirm_run by done. cbn zeta.
  destruct (confirms (blockPool e) !! _); [intros [= <- _]; by left|].
  destruct (blocks (blockPool e) !! BlockHash (Proposal c)) as [b|] eqn:Hb; [|intros [= <- _]; by left].
  cbn [VerifyConfirm BlockPool.Nonce pool_fns fst snd].
  destruct (verifyConfirm _ _ _ _) eqn:Hv; [intros [= <- _]; by left|]. cbn [failed].
  set (e1 := e <| blockPool := _ |>). change (isSealOver e1) with (isSealOver e).
  change (isSealing e1) with (isSealing e). change (outputs e1) with (outputs e).
  destruct (Dispatcher.ProducerIsOnDuty d) eqn:Hd; [|rewrite andb_false_r; intros [= <- _]; by left].
  rewrite andb_true_r. destruct (isSealOver e) eqn:Ho; [intros [= <- _]; by left|].
  unfold GetProcessingProposal. destruct (processingProposal d) as [p|] eqn:Hp; [|intros [= <- _]; by left].
  destruct (Z.eqb_spec (BlockHash p) (BlockHash (Proposal c))) as [Hh|]; [|intros [= <- _]; by left].
  destruct (Z.eqb_spec (isSealing e) 1) as [Hs|]; [|intros [= <- _]; by left]. cbn [negb].
  intros [= <- <-]. right. split_and!; try done. exists p, b. split_and!; try done.
  unfold e1. cbn. by rewrite lookup_insert_eq.
Qed.

(** ** What a relayed confirm becomes *)
Lemma overwrite_lookup cells v m k w :
  overwrite cells v m !! k = Some w -> exists u, m !! k = Some u.
Proof. unfold overwrite. rewrite map_lookup_imap. destruct (m !! k) as [u|]; [by eauto|done]. Qed.

Lemma overwrite_all cells v m k w :
  dom m ⊆ cells -> overwrite cells v m !! k = Some w -> w = v.
Proof.
  intros Hd. unfold overwrite. rewrite map_lookup_imap. destruct (m !! k) as [u|] eqn:E; [|done]. cbn.
  rewrite bool_decide_eq_true_2; [by intros [= <-]|]. apply Hd. by apply elem_of_dom_2 in E.
Qed.

Lemma ProcessVote_accepts (cb : Callbacks Env) v s :
  acceptVotes (fst (snd (ProcessVote cb v s))) = acceptVotes (fst s) \/
  fst (fst (fst (ProcessVote cb v s))) = true /\
  acceptVotes (fst (snd (ProcessVote cb v s))) = <[ vote_Hash v := v ]> (acceptVotes (fst s)).
Proof.
  destruct s as [d e]. unfold ProcessVote, processVote.
  destruct (GetProcessingProposal d); [|by left]. destruct (negb (_ =? _)); [by left|].
  destruct (alreadyExistVote v d); [by left|]. destruct (negb (IsProducers _ _)); [by left|].
  destruct (CheckVote v); [by left|]. destruct (Accept v).
  - right. destruct (IsMajorityAgree _ _); [|done]. destruct (createConfirm _); [|done].
    by destruct (Dispatcher.onConfirm _ _ _ _).
  - left. destruct (IsMajorityRejected _ _); [|done]. destruct (createUnConfirm _); [|done].
    by destruct (unConfirm _ _ _ _).
Qed.

Lemma process_votes_collapse (cb : Callbacks Env) cells votes v s :
  dom (acceptVotes (fst s)) ⊆ cells ->
  forall k w, acceptVotes (fst (snd (process_votes cb cells (votes ++ [v]) s))) !! k = Some w -> w = v.
Proof.
  revert cells s. induction votes as [|u votes IH]; intros cells s Hd k w.
  - cbn [app process_votes]. unfold mbind, Eng_bind, mod_disp, skip, mret, Eng_ret.
    set (s1 := (overwrite_votes cells v (fst s), snd s)).
    assert (Hall : forall k w, acceptVotes (fst s1) !! k = Some w -> w = v) by (intros k' w'; by apply overwrite_all).
    pose proof (ProcessVote_accepts cb v s1) as Ha.
    destruct (ProcessVote cb v s1) as [[[ok fin] err] s2]. cbn [fst snd] in *.
    destruct Ha as [->|[_ ->]]; [apply Hall|]. rewrite lookup_insert. case_decide; [by intros [= <-]|apply Hall].
  - cbn [app process_votes]. unfold mbind at 1 2, Eng_bind, mod_disp. set (s1 := (overwrite_votes cells u (fst s), snd s)).
    assert (Hd1 : dom (acceptVotes (fst s1)) ⊆ cells).
    { intros k' [w' [u' Hu']%overwrite_lookup]%elem_of_dom. apply Hd. by apply elem_of_dom. }
    pose proof (ProcessVote_accepts cb u s1) as Ha.
    destruct (ProcessVote cb u s1) as [[[ok fin] err] s2]. cbn [fst snd] in *. apply IH.
    destruct Ha as [->|[-> ->]]; [destruct ok; set_solver|]. rewrite dom_insert. set_solver.
Qed.

(** the votes of a relayed confirm collapse.  [OnConfirmReceived] empties
    the accept votes and processes the relayed votes in a loop, passing the
    address of the loop variable, which the dispatcher stores: after any number
    of iterations every stored accept vote is the vote processed last, and a
    confirm made from them repeats that one vote. *)
Theorem relayed_votes_collapse (cb : Callbacks Env) (votes : list DPOSProposalVote) (v : DPOSProposalVote) (s : State) :
  let s' := snd (((mod_disp ResetAcceptVotes;; process_votes cb ∅ (votes ++ [v])) : Eng ()) s) in
  (forall k w, acceptVotes (fst s') !! k = Some w -> w = v) /\
  (forall c, createConfirm (fst s') = Some c -> Forall (fun w => w = v) (Votes c)).
Proof.
  intros s'.
  assert (Hall : forall k w, acceptVotes (fst s') !! k = Some w -> w = v)
    by (apply (process_votes_collapse cb ∅ votes v); by cbn).
  split; [done|]. intros c Hc. unfold createConfirm, GetProcessingProposal in Hc.
  destruct (processingProposal (fst s')); [|done]. injection Hc as <-. cbn.
  apply Forall_forall. intros w [k Hk]%elem_of_range_values. by apply (Hall k).
Qed.

(** ** Preparing a block *)

(** what a successfully prepared header looks like.  Its time is the later
    of the parent's time plus the period and the current time, its nonce the
    producers' main-chain height, the consensus runs and this node is on duty.
    Its difficulty is the in-turn one exactly when the node already was on duty
    before the call: when starting the view loop puts it on duty, the header
    carries the other difficulty and no verifier accepts it. *)
Theorem Prepare_spec (header h' : Header) (s s' : State) :
  Prepare header s = ((nil_err, h'), s') ->
  let nowTime := u64 (Unix (clock (snd s) (ticks (snd s)))) in
  (exists parent, GetHeader (chain (snd s)) (ParentHash header) (u64 (Number_Uint64 header - 1)) = Some parent /\
     header_Time h' = Z.max (u64 (header_Time parent + period (snd s))) nowTime) /\
  header_Nonce h' = EncodeNonce (ConsensusView.GetSpvHeight (consensusView (fst s))) /\
  IsRunning (consensusView (fst s')) = true /\ Dispatcher.ProducerIsOnDuty (fst s') = true /\
  (if fst (IsOnduty s) then Difficulty h' = Some diffInTurn
   else forall per v sp fin ch ps seal t, verifyHeader per v sp fin ch h' ps seal t <> nil_err).
Proof.
  destruct s as [d e].
  unfold Prepare, CalcDifficulty, IsOnduty, now, view, mod_env, mod_disp, disp, env.
  unfold mbind, Eng_bind, mret, Eng_ret.
  cbn -[u64 Unix EncodeNonce Dispatcher.ProducerIsOnDuty Start Number_Uint64]. intros E.
  set (nowTime := u64 (Unix (clock e (ticks e)))) in *.
  set (duty := match account e with None => false | Some _ => Dispatcher.ProducerIsOnDuty d end) in *.
  destruct (GetHeader _ _ _) as [parent|] eqn:Hpar; [|done].
  destruct (negb (isRecoved e)); [done|].
  destruct (Number_Uint64 _ <=? finishedHeight d) in E; [done|].
  destruct (IsRunning (consensusView d) && enableViewLoop e); [done|].
  set (e1 := {| blockPool := _ |}) in E.
  assert (HS : exists d2 e2, Start (header_Time parent) (d, e1) = ((), (d2, e2)) /\
    account e2 = account e /\ (is_Some (account e) -> IsRunning (consensusView d2) = true)).
  { unfold Start, mbind, Eng_bind, env. cbn [fst snd]. change (account e1) with (account e).
    destruct (account e) as [ac|] eqn:Ha.
    - destruct (negb (enableViewLoop e1)); eexists _, _; (split; [reflexivity|]); by split.
    - exists d, e1. split_and!; [done..|by intros [? ?]]. }
  destruct HS as (d2 & e2 & HS & Ha2 & Hr2). rewrite HS in E. clear HS.
  assert (Hdiff : forall h, Difficulty h = Some (if duty then diffInTurn else diffNoTurn) ->
    if duty then Difficulty h = Some diffInTurn
    else forall per v sp fin ch ps seal t, verifyHeader per v sp fin ch h ps seal t <> nil_err).
  { intros h Hh. destruct duty; [done|]. intros ? ? ? ? ? ? ? ? Hv%verifyHeader_difficulty. by rewrite Hh in Hv. }
  destruct (Z.ltb_spec (u64 (header_Time parent + period e)) nowTime); cbn -[Dispatcher.ProducerIsOnDuty Dispatcher.ResetView] in E; rewrite Ha2 in E;
    (destruct (account e) as [ac|]; [|done]).
  - destruct (Dispatcher.ProducerIsOnDuty (Dispatcher.ResetView nowTime d2)) eqn:Ed; [|done].
    injection E as <- <-. split_and!; [exists parent; split; [done|cbn; lia]|done|by apply Hr2|done|by apply Hdiff].
  - destruct (Dispatcher.ProducerIsOnDuty d2) eqn:Ed; [|done].
    injection E as <- <-. split_and!; [exists parent; split; [done|cbn; lia]|done|by apply Hr2|done|by apply Hdiff].
Qed.

End reasoning.

(** ** Witnesses *)
Module ToyEngine.
#[local] Existing Instances Toy.lib ToyCodec.codec toy_keccak list_range_order.

#[export] Instance wire : WireLib := {|
  EncodeBlock := fun b => inl [NumberU64 b];
  DecodeBlock := fun d => inr "malformed";
  MaxInvPerMsg := 2
|}.

(** A producer that has just recovered, at block 999. *)
Definition initial_env : Env := {|
  blockPool := NewBlockPool Block; account := Some (Toy.account [2; 4]); chain := example_chain; spv := example_spv;
  connected := [[2; 2]]; activePeers := 1; isCurrent := Some true; hasOnDuty := true; hasInsertError := true;
  requestedBlocks := {[ 5; 6 ]}; requestedProposals := ∅; statusMap := ∅; notHandledProposal := ∅;
  enableViewLoop := false; recoverStarted := false; isRecoved := true; isRecovering := false; period := 5; isSealOver := false;
  isSealing := 0; needChangeNextTurnProducers := false; clock := fun n => Z.of_nat n * Second + 1600000000 * Second;
  ticks := 0; outputs := []; stuck := false
|}.

Definition initial : State := (NewDispatcher [[2; 1]; [2; 2]; [2; 3]; [2; 4]] (10 * Second) [2; 4] true 1, initial_env).

(** The same producer sealing block 77, with the proposal under way. *)
Definition sealing_env : Env :=
  initial_env <| isSealing := 1 |>
    <| blockPool := (NewBlockPool Block) <| blocks :=
         {[ 77 := {| block_header := sealed_header; block_uncles := []; block_transactions := [] |} ]} |> |>.

Definition sealing_dispatcher : Dispatcher :=
  (fst initial) <| processingProposal := Some (Proposal example_confirm) |>
    <| consensusView := (consensusView (fst initial)) <| isDposOnDuty := true |> |>.
End ToyEngine.

Lemma medianOf_robust_witness : 100 <= medianOf (merge_sort Z.le [100; 9999; 103; 0; 102]) <= 110.
Proof. apply (medianOf_robust [100; 9999; 103; 0; 102] 100 110); [lia|lia|]. apply (bool_decide_unpack _). vm_compute. done. Defined.

#[local] Existing Instances Toy.lib ToyCodec.codec toy_keccak list_range_order ToyEngine.wire.

Lemma OnInv_bounded_witness :
  Z.of_nat (size (requestedBlocks (snd (snd (OnInv [2; 2] 9 ToyEngine.initial))))) <= 2 /\
  outputs (snd (snd (OnInv [2; 2] 9 ToyEngine.initial))) = [Sent [2; 2] (MGetBlock 9)].
Proof.
  split; [|vm_compute; reflexivity].
  refine (proj1 (proj2 (OnInv_bounded [2; 2] 9 ToyEngine.initial _ _))); vm_compute; done.
Defined.

Lemma onConfirm_delivers_witness :
  exists p, processingProposal ToyEngine.sealing_dispatcher = Some p /\ BlockHash p = 77.
Proof.
  destruct (onConfirm_delivers ToyEngine.sealing_dispatcher example_confirm ToyEngine.sealing_env
    (fst (onConfirm ToyEngine.sealing_dispatcher example_confirm ToyEngine.sealing_env))
    (snd (onConfirm ToyEngine.sealing_dispatcher example_confirm ToyEngine.sealing_env)))
    as [Ho|(_ & _ & _ & _ & _ & p & b & Hp & Hh & _)].
  - reflexivity.
  - by destruct (onConfirm _ _ _).
  - exfalso. revert Ho. vm_compute. done.
  - exists p. split; [exact Hp|]. rewrite Hh. reflexivity.
Defined.

(** The first header prepared after the start is one no verifier accepts. *)
Lemma Prepare_spec_witness :
  exists h' s', Prepare example_header ToyEngine.initial = ((nil_err, h'), s') /\
    verifyHeader 5 (consensusView (fst s')) example_spv 0 example_chain h' [] false (1600000000 * Second) <> nil_err.
Proof.
  exists (snd (fst (Prepare example_header ToyEngine.initial))), (snd (Prepare example_header ToyEngine.initial)).
  assert (E : Prepare example_header ToyEngine.initial =
    ((nil_err, snd (fst (Prepare example_header ToyEngine.initial))), snd (Prepare example_header ToyEngine.initial))).
  { assert (He : fst (fst (Prepare example_header ToyEngine.initial)) = nil_err) by (vm_compute; reflexivity).
    rewrite <- He. by destruct (Prepare example_header ToyEngine.initial) as [[? ?] ?]. }
  split; [exact E|].
  pose proof (Prepare_spec example_header _ ToyEngine.initial _ E) as (_ & _ & _ & _ & Hd).
  assert (Hn : fst (IsOnduty ToyEngine.initial) = false) by (vm_compute; reflexivity).
  rewrite Hn in Hd. apply Hd.
Defined.
