(* ===== verification/PbftSteps.v ===== *)
(** * The PBFT engine as a transition system

    The handlers of [Pbft] as the events of one step relation: the invariant of
    every reachable state, and the end of nested view changes. *)
From S2P Require Import Prelude Ela Producers ConsensusView Messages Votes Header NextTurn PbftVerify.
From S2P Require Import Dispatcher BlockPool Pbft.

Section engine.
Context `{!ElaLib} `{!Codec} `{!Keccak} `{!RangeOrder} `{!WireLib}.

(** ** The reachable states of the engine *)
Section steps.
Context {fresh : bool}.
Context (cb : Callbacks Env) (Hcb : listener_ok cb).

Lemma good_ProcessVote h v : preserves (good fresh h) (ProcessVote cb v).
Proof.
  intros s [Hi Hh]. split; [by apply processVote_inv|]. etrans; [exact Hh|].
  pose proof (listener_laws _ Hcb). by eapply (dstep_finished cb); [constructor|].
Qed.

Lemma good_ResetAcceptVotes h : preserves (good fresh h) (mod_disp ResetAcceptVotes).
Proof. apply good_disp; [|done]. intros d [HA HR HP HQ]. split; done. Qed.

Lemma good_AddPendingVote h v : preserves (good fresh h) (mod_disp (AddPendingVote v)).
Proof.
  apply good_disp; [|done]. intros d [HA HR HP HQ]. split; try done. cbn. intros k w. rewrite lookup_insert.
  case_decide; [intros [= <-]; by subst|apply HP].
Qed.

(** Split the binds of a handler and discharge the parts that leave the
    dispatcher alone. *)
Ltac good_tac :=
  repeat first
    [ by intros ? ?
    | apply good_ProcessVote | apply good_ResetAcceptVotes | apply good_AddPendingVote
    | apply good_env; (done || apply env_only_pool || apply env_only_with_fns || apply env_only_OnInv
                       || apply env_only_Broad || apply env_only_recover)
    | apply preserves_when
    | apply preserves_bind; [|intros ?]
    | match goal with |- preserves _ (match ?x with _ => _ end) => destruct x end ].

Lemma good_OnVoteAccepted h id v : preserves (good fresh h) (OnVoteAccepted cb id v).
Proof. unfold OnVoteAccepted, IsProducer, tryGetCurrentProposal, SendMessageToPeer. good_tac. Qed.

Lemma good_DoRecover h : preserves (good fresh h) DoRecover.
Proof.
  unfold DoRecover. apply preserves_bind; [by apply good_env|intros e].
  destruct (range_map _).*2 as [|v l].
  - apply preserves_bind; [|intros _; by apply good_env]. apply good_disp; done.
  - case_match; [by apply good_env|]. do 2 (apply preserves_bind; [by apply good_env|intros ?]).
    apply preserves_bind; [|intros _; by apply good_env]. apply good_disp; [intros; by apply RecoverAbnormal_inv|].
    intros d. unfold RecoverAbnormal, RecoverFromConsensusStatus. by destruct (0 <? _).
Qed.

Lemma good_OnRecoverTimeout h b : preserves (good fresh h) (OnRecoverTimeout b).
Proof.
  unfold OnRecoverTimeout. apply preserves_bind; [by apply good_env|intros e].
  apply preserves_bind; [|intros _; good_tac]. apply preserves_when.
  apply preserves_bind; [apply preserves_when, good_DoRecover|intros _; by apply good_env].
Qed.

Lemma good_view h f :
  (forall v, producers (view_producers (f v)) = producers (view_producers v)) -> preserves (good fresh h) (mod_view f).
Proof.
  intros Hf. apply good_disp; [|done]. intros d Hd. apply with_view_inv; [|done]. left. unfold members. cbn. by rewrite Hf.
Qed.

Lemma good_Prepare h hd : preserves (good fresh h) (Prepare hd).
Proof.
  unfold Prepare, CalcDifficulty, IsOnduty. good_tac.
  all: unfold Start; good_tac; try (apply good_view; try done; apply UpdateDutyIndex_members).
  all: apply good_disp; [|done]; intros d Hd; by apply with_view_inv; [left|].
Qed.

Lemma good_FinishedProposal h n sh ht t : preserves (good fresh h) (run (FinishedProposal cb n sh ht t)).
Proof.
  intros s [Hi Hh]. pose proof (listener_laws _ Hcb). split; cbn; [by apply FinishedProposal_inv|].
  etrans; [exact Hh|]. by eapply (dstep_finished cb); [constructor|].
Qed.

Lemma good_Finalize h hd root : preserves (good fresh h) (Finalize cb hd root).
Proof.
  unfold Finalize. apply preserves_bind; [by apply good_env|intros t].
  apply preserves_bind; [apply good_FinishedProposal|intros _]. good_tac.
Qed.

Lemma good_SealEnd h b ev : preserves (good fresh h) (SealEnd cb b ev).
Proof.
  unfold SealEnd, addConfirmToBlock. apply preserves_bind; [by apply good_env|intros _].
  destruct ev as [c|]; [|by apply good_env].
  apply preserves_bind; [|intros hd; good_tac].
  apply preserves_bind; [by apply good_env|intros t].
  apply preserves_bind; [apply good_FinishedProposal|by intros ? ? ?].
Qed.
End steps.
(** ** Relayed confirms

    After the loop of [OnConfirmReceived] only the keys of the vote maps can be
    trusted. *)
Section relayed.
Context (cb : Callbacks Env) (Hcb : listener_ok cb).

Lemma good_overwrite h cells v : preserves (good false h) (mod_disp (overwrite_votes cells v)).
Proof.
  apply good_disp; [|done]. intros d [HA HR HP HQ]. split; try done; intros k w [u Hu]%overwrite_lookup.
  - destruct (HA k u Hu) as (g & Hg & _). by exists g.
  - destruct (HR k u Hu) as (g & Hg & _). by exists g.
Qed.

Lemma good_process_votes h cells votes : preserves (good false h) (process_votes cb cells votes).
Proof.
  revert cells. induction votes as [|v votes IH]; intros cells; [by intros ? ?|].
  apply preserves_bind; [apply good_overwrite|intros _].
  apply preserves_bind; [by apply good_ProcessVote|intros [[ok fin] err]]. apply IH.
Qed.

Lemma good_OnConfirmReceived h id c n : preserves (good false h) (OnConfirmReceived cb id c n).
Proof.
  unfold OnConfirmReceived, IsOnduty.
  repeat first
    [ by intros ? ?
    | apply good_process_votes | apply good_ResetAcceptVotes
    | apply good_env; (done || apply env_only_pool || apply env_only_OnInv)
    | apply preserves_bind; [|intros ?]
    | match goal with |- preserves _ (match ?x with _ => _ end) => destruct x end ].
Qed.

Lemma good_OnBlock h id data : preserves (good false h) (OnBlock cb id data).
Proof.
  unfold OnBlock. destruct (DecodeBlock data); [|by apply good_env]. case_match; [by apply good_env|].
  do 2 (apply preserves_bind; [by apply good_env|intros ?]). case_match.
  { apply preserves_bind; [apply good_env, env_only_with_fns|by intros ? ? ?]. }
  apply preserves_bind; [apply good_env, env_only_with_fns|intros err].
  apply preserves_bind; [apply good_env; case_match; env_only_calls|intros _].
  apply preserves_bind; [apply good_env, env_only_pool|intros c].
  apply preserves_bind; [destruct c; [apply good_OnConfirmReceived|by intros ? ?]|intros _]. by apply good_env.
Qed.

End relayed.

(** From an idle state the node may propose, and the producers may change. *)
Section idle_steps.
Context {fresh : bool}.
Context (cb : Callbacks Env) (Hcb : listener_ok cb).

Lemma good_StartProposal h b s : good fresh h s -> idle s -> good fresh h (snd (StartProposal cb b s)).
Proof.
  intros Hg Hi. unfold StartProposal, mbind, Eng_bind, env, view. destruct (account (snd s)) as [ac|]; [|done].
  destruct (Votes.StartProposal _ _ _) as [p|err]; [|done].
  pose proof (good_ProcessProposal cb Hcb h (to_PID (PublicKeyBytes ac)) p s Hg Hi) as Hp.
  destruct (ProcessProposal cb _ p s) as [[[err ?] ?] s']. by destruct err.
Qed.

Lemma good_SealBegin h b s : good fresh h s -> idle s -> good fresh h (snd (SealBegin cb b s)).
Proof.
  intros Hg Hi. unfold SealBegin, IsProducer, IsOnduty, mbind, Eng_bind, env, disp, mret, Eng_ret.
  destruct (account (snd s)) as [ac|] eqn:Ha; [|done]. destruct (negb (isRecoved _)); [done|].
  destruct (bool_decide (GetHeader _ _ _ = None)); [done|]. destruct (_ <=? _); [done|].
  rewrite Ha. destruct (negb _); [done|]. rewrite Ha. destruct (negb _); [done|].
  assert (Hb : env_only (BroadBlockMsg b)).
  { unfold BroadBlockMsg. destruct (EncodeBlock b); [|done]. env_only_calls. }
  specialize (Hb s). destruct (BroadBlockMsg b s) as [err s1]. cbn [snd] in Hb.
  assert (Hs1 : good fresh h s1 /\ idle s1) by (unfold good, idle in *; by rewrite Hb).
  pose proof (good_StartProposal h b s1 (proj1 Hs1) (proj2 Hs1)) as Hs2.
  destruct (StartProposal cb b s1) as [[p|e2] s2]; [|done]. cbn [snd] in Hs2. revert s2 Hs2.
  change (forall s1, good fresh h s1 -> good fresh h (snd (?m s1))) with (preserves (good fresh h) m).
  apply good_env. intros s2. by destruct (AcceptProposal p ac).
Qed.

Lemma good_view_idle h f s : good fresh h s -> idle s -> good fresh h (snd (mod_view f s)).
Proof. intros [Hi Hh] Hp. split; [|done]. cbn. apply with_view_inv; [by right|done]. Qed.

Lemma good_upd_view_idle {A} h (f : ConsensusView -> A * ConsensusView) s :
  good fresh h s -> idle s -> good fresh h (snd (upd_view f s)) /\ idle (snd (upd_view f s)).
Proof.
  intros [Hi Hh] Hp. unfold upd_view, upd_disp. destruct (f (consensusView (fst s))) as [x v].
  split; [split|]; try done. cbn. apply (with_view_inv (fun _ => v)); [by right|done].
Qed.

Lemma env_only_InitNextTurn : env_only InitNextTurn.
Proof. done. Qed.

(** What [OnInsertBlock] does from an idle state keeps the state idle. *)
Lemma good_OnInsertBlock h b s : good fresh h s -> idle s -> good fresh h (snd (OnInsertBlock cb b s)).
Proof.
  set (P := fun s => good fresh h s /\ idle s). intros Hg Hi.
  enough (HP : P (snd (OnInsertBlock cb b s))) by apply HP.
  assert (Henv : forall A (m : Eng A), env_only m -> preserves P m).
  { intros A m Hm s0 [Hg0 Hi0]. split; [by apply good_env|by apply idle_env]. }
  assert (Hview : forall f, preserves P (mod_view f)).
  { intros f s0 [Hg0 Hi0]. split; [by apply good_view_idle|done]. }
  assert (Hupd : forall A (f : ConsensusView -> A * ConsensusView), preserves P (upd_view f)).
  { intros A f s0 [Hg0 Hi0]. by apply good_upd_view_idle. }
  assert (Hreset : forall n t1 t2, preserves P (run (ResetConsensus cb n t1 t2))).
  { intros n t1 t2 s0 [Hg0 Hi0]. split; [by apply (good_reached cb Hcb); [intros; apply reached_ResetConsensus|]|by apply idle_ResetConsensus]. }
  assert (HPs : P s) by done. clear Hg Hi. revert s HPs.
  change (forall s, P s -> P (snd (?m s))) with (preserves P m). unfold OnInsertBlock.
  do 2 (apply preserves_bind; [by apply Henv|intros ?]). case_match.
  - apply preserves_bind; [by apply Henv|intros _]. apply preserves_bind; [apply Hupd|intros same].
    apply preserves_bind; [|intros _; apply preserves_bind; [apply Henv, env_only_InitNextTurn|by intros ? ? ?]].
    apply preserves_when. apply preserves_bind; [apply Hview|intros _].
    do 4 (apply preserves_bind; [by apply Henv|intros ?]). apply Hreset.
  - case_match; [|by intros ? ?]. case_match; [|by intros ? ?]. case_match.
    apply preserves_bind; [apply Hupd|intros cur]. case_match; [|by intros ? ?].
    apply preserves_bind; [apply Hview|intros _].
    do 2 (apply preserves_bind; [by apply Henv|intros ?]). by intros ? ?.
Qed.
End idle_steps.


(** ** The engine as a transition system *)

(** What the network, the miner and the chain call. *)
Inductive event :=
| EvInv (id : bytes) (h : Z)
| EvBlock (id data : bytes)
| EvProposal (id : bytes) (p : DPOSProposal)
| EvVoteAccepted (id : bytes) (v : DPOSProposalVote)
| EvVoteRejected (id : bytes) (v : DPOSProposalVote)
| EvConfirm (id : bytes) (c : Confirm) (height : Z)
| EvRequestConsensus (id : bytes) (height : Z)
| EvResponseConsensus (id : bytes) (st : ConsensusStatus)
| EvRequestProposal (id : bytes)
| EvGetBlock (id : bytes) (h : Z)
| EvResetView (m : ResetViewMsg)
| EvRecover
| EvRecoverTimeout (engineIsPbft : bool)
| EvChangeView
| EvFutureBlock (parent : Block)
| EvInsertBlock (b : Block)
| EvPrepare (h : Header)
| EvFinalize (h : Header) (root : Z)
| EvSealBegin (b : Block)
| EvSealEnd (b : Block) (ev : seal_event)
| EvSealDeliver (b final : Block)
| EvImport (id : bytes) (b : Block)
| EvImported (id : bytes) (b : Block) (err : error)
| EvNewPeer (engineIsPbft : bool) (PBFTBlock : option Z) (PreConnectOffset : Z)
| EvNextProducers (ps : list bytes)
| EvSPVHeight (height PreConnectOffset : Z)
| EvRecoverBegin
| EvRecoverPoll
| EvAnnounce
| EvClose.

Definition perform (cb : Callbacks Env) (ev : event) : Eng () :=
  match ev with
  | EvInv id h => OnInv id h
  | EvBlock id data => OnBlock cb id data
  | EvProposal id p => OnProposalReceived cb id p
  | EvVoteAccepted id v => OnVoteAccepted cb id v
  | EvVoteRejected id v => OnVoteRejected cb id v
  | EvConfirm id c height => OnConfirmReceived cb id c height
  | EvRequestConsensus id height => OnRequestConsensus id height
  | EvResponseConsensus id st => OnResponseConsensus id st
  | EvRequestProposal id => OnRequestProposal id
  | EvGetBlock id h => OnGetBlock id h
  | EvResetView m => OnResponseResetViewReceived cb m
  | EvRecover => OnRecover
  | EvRecoverTimeout b => OnRecoverTimeout b
  | EvChangeView => OnChangeView cb
  | EvFutureBlock parent => AccessFutureBlock parent
  | EvInsertBlock b => OnInsertBlock cb b;; skip
  | EvPrepare h => Prepare h;; skip
  | EvFinalize h root => Finalize cb h root;; skip
  | EvSealBegin b => SealBegin cb b;; skip
  | EvSealEnd b ev => SealEnd cb b ev
  | EvSealDeliver b final => SealDeliver b final
  | EvImport id b => importBlock id b
  | EvImported id b err => afterImport id b err
  | EvNewPeer isPbft block offset => onNewPeer isPbft block offset
  | EvNextProducers ps => onNextProducers ps
  | EvSPVHeight height offset => onSPVHeight height offset
  | EvRecoverBegin => RecoverBegin
  | EvRecoverPoll => RecoverPoll
  | EvAnnounce => AnnounceDAddr;; skip
  | EvClose => Close
  end.

(** The node proposes, and the chain announces an inserted block, when no
    proposal is being processed.  With [fresh], no relayed confirm is handled. *)
Definition enabled (fresh : bool) (ev : event) (s : State) : Prop :=
  match ev with
  | EvSealBegin _ | EvInsertBlock _ => idle s
  | EvConfirm _ _ _ | EvBlock _ _ => fresh = false
  | _ => True
  end.

(** A step handles an event, or the outside changes: the clock, the chain, the
    main-chain data, the peers. *)
Inductive pstep (fuel : nat) (fresh : bool) : State -> State -> Prop :=
| pstep_event ev s : enabled fresh ev s -> pstep fuel fresh s (snd (perform (callbacks fuel) ev s))
| pstep_outside d e e' : pstep fuel fresh (d, e) (d, e').

Section transitions.
Context {fresh : bool}.

Lemma good_bind_skip {A} h (m : Eng A) s : good fresh h (snd (m s)) -> good fresh h (snd (((m;; skip) : Eng ()) s)).
Proof. unfold mbind, Eng_bind. by destruct (m s). Qed.

Lemma good_onSPVHeight h n offset : preserves (good fresh h) (onSPVHeight n offset).
Proof.
  unfold onSPVHeight. do 2 (apply preserves_bind; [by apply good_env|intros ?]).
  do 2 (case_match; [|by intros ? ?]). apply preserves_bind; [|intros ?; by apply preserves_when, good_env].
  intros s [Hi Hh]. unfold upd_view, upd_disp.
  set (r := IsSameProducers _ _).
  assert (Hr : producers (view_producers (snd r)) = members (fst s)) by (unfold r, IsSameProducers; by case_match).
  destruct r as [same v]. split; [|done]. cbn. apply (with_view_inv (fun _ => v)); [by left|done].
Qed.

Lemma good_perform h fuel ev s : good fresh h s -> enabled fresh ev s -> good fresh h (snd (perform (callbacks fuel) ev s)).
Proof.
  pose proof (callbacks_ok fuel) as Hcb. intros Hg Hen. destruct ev; cbn [perform].
  - by apply good_env; [apply env_only_OnInv|].
  - cbn in Hen. subst. by apply good_OnBlock.
  - by apply (good_reached _ Hcb); [intros; apply reached_OnProposalReceived|].
  - by apply good_OnVoteAccepted.
  - by apply good_OnVoteAccepted.
  - cbn in Hen. subst. by apply good_OnConfirmReceived.
  - apply good_env; [|done]. unfold OnRequestConsensus, IsProducer. env_only_calls.
  - apply good_env; [|done]. unfold OnResponseConsensus, IsProducer. env_only_calls.
  - apply good_env; [|done]. unfold OnRequestProposal. env_only_calls.
  - apply good_env; [|done]. unfold OnGetBlock. env_only_calls.
  - by apply (good_reached _ Hcb); [intros; apply reached_OnResponseResetView|].
  - apply good_env; [|done]. unfold OnRecover, IsProducer. env_only_calls.
  - by apply good_OnRecoverTimeout.
  - by apply (good_reached _ Hcb); [intros; apply reached_OnChangeView|].
  - apply good_env; [|done]. unfold AccessFutureBlock. env_only_calls.
  - by apply good_bind_skip, good_OnInsertBlock.
  - by apply good_bind_skip, good_Prepare.
  - by apply good_bind_skip, good_Finalize.
  - by apply good_bind_skip, good_SealBegin.
  - by apply good_SealEnd.
  - apply good_env; [|done]. unfold SealDeliver, BroadBlockMsg. env_only_calls.
  - apply good_env; [|done]. unfold importBlock. env_only_calls.
  - apply good_env; [|done]. unfold afterImport, BroadMessageExcept. env_only_calls.
  - apply good_env; [|done]. unfold onNewPeer. env_only_calls.
  - revert s Hg Hen. intros s Hg _. unfold onNextProducers, mbind, Eng_bind, env. by apply good_view.
  - by apply good_onSPVHeight.
  - apply good_env; [|done]. unfold RecoverBegin. env_only_calls.
  - apply good_env; [|done]. unfold RecoverPoll. env_only_calls.
  - apply good_env; [|done]. unfold AnnounceDAddr. env_only_calls.
  - by apply good_env.
Qed.

Lemma pstep_good h fuel s s' : pstep fuel fresh s s' -> good fresh h s -> good fresh h s'.
Proof. intros [ev s0 Hen|d e e'] Hg; [by apply good_perform|done]. Qed.

Lemma psteps_good h fuel s s' : rtc (pstep fuel fresh) s s' -> good fresh h s -> good fresh h s'.
Proof. induction 1; [done|]. intros ?. by eauto using pstep_good. Qed.

Lemma reach_event fuel ev s0 s :
  rtc (pstep fuel fresh) s0 s -> enabled fresh ev s -> rtc (pstep fuel fresh) s0 (snd (perform (callbacks fuel) ev s)).
Proof. intros Hr Hen. eapply rtc_r; [exact Hr|by apply pstep_event]. Qed.
End transitions.

(** C1: the safety of the running engine.  In every state the engine reaches
    from its start by handling any sequence of network messages, timer, miner
    and chain events, under any changes outside, where the node proposes and the
    chain replaces producers only while no proposal is being processed: every key of the vote maps was
    made for a validly signed vote of a current producer on the processing
    proposal; the finished height never decreases from there on; and a vote that
    finishes the proposal there is backed by accept votes of pairwise different
    producers, more than the majority count.  If no relayed confirm has been
    handled, the confirm given to [onConfirm] consists of exactly these votes. *)
Theorem engine_safe (fuel : nat) (fresh : bool) ps tol pk l start e0 (s : State) :
  vote_hash_unsigned -> rtc (pstep fuel fresh) (NewDispatcher ps tol pk l start, e0) s ->
  dispatcher_inv fresh (fst s) /\
  (forall s', rtc (pstep fuel fresh) s s' -> finishedHeight (fst s) <= finishedHeight (fst s')) /\
  (forall v ok err s', ProcessVote (callbacks fuel) v s = ((ok, true, err), s') ->
     exists c c', (snd s', err) = onConfirm (fst s') c (snd s) /\
       processingProposal (fst s) = Some (Proposal c) /\
       certificate (fst s') c' /\ Proposal c' = Proposal c /\ zlen (Votes c') = zlen (Votes c) /\
       (fresh = true -> c' = c)).
Proof.
  intros Hu Hr.
  assert (Hi : dispatcher_inv fresh (fst s)).
  { eapply (psteps_good 0 fuel _ _ Hr). split; [by apply blank_inv|done]. }
  split_and!; [done| |].
  - intros s' Hs'. by apply (psteps_good (finishedHeight (fst s)) fuel _ _ Hs').
  - destruct s as [d e]. intros v ok err [d' e'] E.
    destruct (processVote_certificate _ v d e ok err d' e' Hu Hi E) as (_ & Hp & c & c' & _ & He & Hc & Hpc & Hl & Hf).
    exists c, c'. split_and!; try done; [by destruct fuel|]. cbn. rewrite <- Hp, <- Hpc. apply Hc.
Qed.

(** ** Nested view changes end *)

(** Neither out of fuel nor blocked nor crashed, the pool's mutex is free, and
    the node has its account and the functions it is started with. *)
Definition awake (e : Env) : Prop :=
  stuck e = false /\ locked (blockPool e) = false /\ is_Some (account e) /\ is_Some (isCurrent e).

Lemma awake_pool {A} (x : A) (m : Pool A) (s : State) :
  (locked (blockPool (snd s)) = false -> exists y bp, m (blockPool (snd s)) = Some (y, bp) /\ locked bp = false) ->
  awake (snd s) -> awake (snd (snd (pool x m s))).
Proof. intros Hm (Hs & Hl & Ha). unfold pool. destruct (Hm Hl) as (y & bp & -> & Hb). done. Qed.

(** Actions that keep the engine awake, whatever the dispatcher. *)
Definition stays {A} (m : Eng A) : Prop := preserves (fun s => awake (snd s)) m.

Lemma stays_HasBlock h : stays (pool false (HasBlock h)).
Proof. intros s. apply awake_pool. intros Hl. rewrite HasBlock_run by done. by eauto. Qed.

Lemma stays_GetBlock h : stays (pool None (BlockPool.GetBlock h)).
Proof. intros s. apply awake_pool. intros Hl. rewrite GetBlock_run by done. by eauto. Qed.

Lemma stays_IsBad p : stays (pool false (IsBadBlockProposal p)).
Proof. intros s. apply awake_pool. intros Hl. rewrite IsBadBlockProposal_run by done. by eauto. Qed.

Lemma stays_IsFuture h : stays (with_fns false (fun fns => IsFutureBlock fns h)).
Proof. intros s. apply awake_pool. intros Hl. rewrite IsFutureBlock_run by done. by eauto. Qed.

Lemma stays_AppendConfirm c : stays (with_fns nil_err (fun fns => AppendConfirm fns c)).
Proof.
  intros s. apply awake_pool. intros Hl. rewrite AppendConfirm_run by done. cbn zeta. repeat case_match; eexists _, _; by split.
Qed.

Ltac stays_tac :=
  repeat first
    [ by intros ? ?
    | apply stays_HasBlock | apply stays_GetBlock | apply stays_IsBad | apply stays_IsFuture
    | apply preserves_when
    | apply preserves_bind; [|intros ?]
    | match goal with |- preserves _ (match ?x with _ => _ end) => destruct x end ].

Lemma stays_OnInv id h : stays (OnInv id h).
Proof.
  intros s Hs. unfold OnInv, mbind, Eng_bind, env, disp.
  assert (Ha : is_Some (account (snd s))) by apply Hs. destruct (account (snd s)) as [a|]; [|by destruct Ha].
  destruct (negb _); [done|]. pose proof (stays_HasBlock h s Hs) as Hb.
  destruct (pool false (HasBlock h) s) as [has s1]. destruct has; [done|]. by repeat case_bool_decide.
Qed.

Lemma stays_recover : stays recoverAbnormalState.
Proof. unfold stays, recoverAbnormalState, RequestAbnormalRecovering, BroadMessage. stays_tac. Qed.

Lemma onConfirm_awake d c e : awake e -> awake (fst (onConfirm d c e)).
Proof.
  intros He. unfold onConfirm. pose proof (stays_AppendConfirm c (d, e) He) as Ha.
  destruct (with_fns _ _ _) as [err [d' e']]. cbn [snd] in Ha. repeat case_match; by simplify_eq/=.
Qed.

Lemma onUnConfirm_awake d c e : awake e -> awake (fst (onUnConfirm d c e)).
Proof. intros He. unfold onUnConfirm. repeat case_match; by simplify_eq/=. Qed.

(** Callbacks whose confirm handlers keep the engine awake, and whose listener
    does when fewer than [n] precocious proposals are waiting. *)
Record listener_awake (n : nat) (cb : Callbacks Env) : Prop := {
  awake_confirm : forall d c e, awake e -> awake (fst (Dispatcher.onConfirm cb d c e));
  awake_unconfirm : forall d c e, awake e -> awake (fst (unConfirm cb d c e));
  awake_listener : forall a f s, (size (precociousProposals (fst s)) < n)%nat -> awake (snd s) ->
    awake (snd (OnViewChanged cb a f s))
}.

Section awake.
Context (n : nat) (cb : Callbacks Env) (Hcb : listener_awake n cb).

Lemma processVote_awake v s : awake (snd s) -> awake (snd (snd (processVote cb v s))).
Proof.
  intros He. destruct s as [d e]. cbn [snd] in He. unfold processVote.
  destruct (GetProcessingProposal d); [|done]. do 3 (case_match; [done|]). destruct (CheckVote v); [done|].
  destruct (Accept v); (case_match; [|done]).
  - destruct (createConfirm _) as [c|]; [|done].
    match goal with |- context [Dispatcher.onConfirm cb ?d0 _ _] => pose proof (awake_confirm _ _ Hcb d0 c e He) as Hc end.
    by destruct (Dispatcher.onConfirm cb _ c e).
  - destruct (createUnConfirm _) as [c|]; [|done].
    match goal with |- context [unConfirm cb ?d0 _ _] => pose proof (awake_unconfirm _ _ Hcb d0 c e He) as Hc end.
    by destruct (unConfirm cb _ c e).
Qed.

Lemma process_pending_awake p votes s : awake (snd s) -> awake (snd (snd (process_pending cb p votes s))).
Proof.
  revert s. induction votes as [|v votes IH]; intros s He; cbn; [done|].
  case_match; [|by apply IH]. pose proof (processVote_awake v s He) as Hv.
  destruct (processVote cb v s) as [[[ok fin] err] s']. destruct fin; [done|by apply IH].
Qed.

Lemma setProcessingProposal_awake p s : awake (snd s) -> awake (snd (snd (setProcessingProposal cb p s))).
Proof.
  intros He. destruct s as [d e]. unfold setProcessingProposal. cbn zeta.
  match goal with |- context [process_pending cb p ?l ?s0] =>
    pose proof (process_pending_awake p l s0 He) as Hp; destruct (process_pending cb p l s0) as [fin [d' e']] end.
  by destruct fin.
Qed.

Lemma stays_ProcessProposal id p : stays (ProcessProposal cb id p).
Proof.
  intros [d e] He. unfold ProcessProposal. destruct (negb (_ =? _)); [by case_match|].
  destruct (negb (ConsensusView.ProducerIsOnDuty _ _)); [done|].
  destruct (match GetProcessingProposal d with Some _ => _ | None => _ end); [done|].
  destruct (negb (IsProducers _ _)); [done|]. destruct (CheckProposal p); [done|].
  pose proof (setProcessingProposal_awake p (d, e) He) as Hp. by destruct (setProcessingProposal cb p (d, e)).
Qed.

Lemma stays_RejectProposal p ac : stays (RejectProposal cb p ac).
Proof.
  intros s He. unfold RejectProposal. pose proof (setProcessingProposal_awake p s He) as Hp.
  destruct (setProcessingProposal cb p s) as [fin s']. destruct fin; [done|]. by case_match.
Qed.

Lemma stays_rejectProposal p : stays (rejectProposal cb p).
Proof.
  intros s Hs. unfold rejectProposal, mbind, Eng_bind, env.
  assert (Ha : is_Some (account (snd s))) by apply Hs. destruct (account (snd s)) as [a|]; [|by destruct Ha].
  by apply stays_RejectProposal.
Qed.

Lemma stays_acceptProposal p : stays (acceptProposal p).
Proof.
  intros s Hs. unfold acceptProposal, mbind, Eng_bind, env.
  assert (Ha : is_Some (account (snd s))) by apply Hs. by destruct (account (snd s)) as [a|]; [|destruct Ha].
Qed.

Lemma stays_answerProposal id p bad : stays (answerProposal cb id p bad).
Proof.
  unfold stays, answerProposal.
  apply preserves_bind; [apply stays_ProcessProposal|intros [[err rej] handled]].
  apply preserves_bind; [|by intros ? ? ?]. destruct (failed err).
  - destruct rej; [apply stays_rejectProposal|]. destruct handled; [by intros ? ?|].
    do 3 (apply preserves_bind; [by intros ? ?|intros ?]).
    apply preserves_bind; [|by intros ? ? ?]. apply preserves_when.
    apply preserves_bind; [apply stays_recover|by intros ? ? ?].
  - destruct bad; [apply stays_rejectProposal|apply stays_acceptProposal].
Qed.

(** The waiting precocious proposals are few enough for the listener. *)
Definition fits (s : State) : Prop := awake (snd s) /\ (size (precociousProposals (fst s)) < n)%nat.

Lemma change_view_awake f s : fits s -> awake (snd (change_view cb f s)).
Proof.
  intros [He Hn]. destruct s as [d e]. unfold change_view. destruct (f (consensusView d)) as [v [[a b]|]]; [|done].
  by apply (awake_listener _ _ Hcb).
Qed.

Lemma ResetConsensus_awake h t1 t2 s : (0 < n)%nat -> awake (snd s) -> awake (snd (ResetConsensus cb h t1 t2 s)).
Proof.
  intros Hn He. destruct s as [d e]. unfold ResetConsensus. destruct (IsRunning (consensusView d)); [|done].
  set (d1 := with_view (UpdateDutyIndex h) _).
  assert (Hf : fits (d1, e)) by (split; [done|]; cbn; by rewrite map_size_empty).
  pose proof (change_view_awake (ChangeView t1 true (u64 (Unix t2))) (d1, e) Hf) as Hc.
  by destruct (change_view cb _ (d1, e)).
Qed.

Lemma stays_OnResponseResetView m : (0 < n)%nat -> stays (OnResponseResetViewReceived cb m).
Proof.
  intros Hn. unfold stays, OnResponseResetViewReceived, IsProducer, IsProducerByAccount.
  apply preserves_bind; [by intros ? ?|intros p]. destruct (negb p); [by intros ? ?|].
  apply preserves_bind; [by intros ? ?|intros q]. destruct (negb q); [by intros ? ?|].
  apply preserves_bind.
  { intros s Hs. unfold upd_disp. by destruct (Dispatcher.OnResponseResetViewReceived m (fst s)). }
  intros err. destruct (failed err); [by intros ? ?|]. do 2 (apply preserves_bind; [by intros ? ?|intros ?]).
  case_match; [|by intros ? ?]. do 3 (apply preserves_bind; [by intros ? ?|intros ?]).
  apply preserves_bind; [|by intros ? ? ?]. intros s Hs. by apply ResetConsensus_awake.
Qed.

Lemma OnChangeView_awake s : fits s -> awake (snd (snd (OnChangeView cb s))).
Proof.
  intros Hs. assert (Hn : (0 < n)%nat) by (destruct Hs; lia).
  unfold OnChangeView. unfold mbind at 1, Eng_bind, now at 1. unfold mbind at 1, Eng_bind, run at 1.
  set (s1 := Dispatcher.OnChangeView cb _ _).
  assert (Hs1 : awake (snd s1)) by (apply change_view_awake; exact Hs).
  clearbody s1. unfold mbind, Eng_bind, view, env. destruct (_ <=? _); [|done].
  assert (Ha : is_Some (account (snd s1))) by apply Hs1. destruct (account (snd s1)) as [a|]; [|by destruct Ha].
  case_match; [|done]. set (m := MResetView _).
  assert (Hb : awake (snd (snd (BroadMessage m s1)))) by exact Hs1.
  destruct (BroadMessage m s1) as [[] s2]. cbn [snd] in Hb. unfold disp.
  apply preserves_when; [by apply stays_OnResponseResetView|exact Hb].
Qed.

Lemma OnProposalReceived_awake id p s : fits s -> awake (snd (snd (OnProposalReceived cb id p s))).
Proof.
  intros Hs. unfold OnProposalReceived. unfold mbind at 1, Eng_bind, mod_env at 1.
  unfold mbind at 1, Eng_bind, disp at 1. set (s1 := (fst s, _)).
  assert (Hs1 : fits s1) by exact Hs. clearbody s1. clear s Hs.
  case_match; [apply Hs1|]. case_match; [apply Hs1|].
  unfold mbind at 1, Eng_bind. pose proof (OnChangeView_awake s1 Hs1) as Hs2.
  destruct (OnChangeView cb s1) as [[] s2]. cbn [snd] in Hs2. clear - Hcb Hs2. revert s2 Hs2.
  change (forall s1, awake (snd s1) -> awake (snd (snd (?m s1)))) with (stays m). unfold stays.
  apply preserves_bind; [by intros ? ?|intros d]. case_match; [by intros ? ?|].
  apply preserves_bind; [apply stays_IsBad|intros bad]. apply preserves_bind; [apply stays_GetBlock|intros b].
  destruct (_ && _).
  { apply preserves_bind; [apply stays_IsFuture|intros fut]. destruct fut; [by intros ? ?|apply stays_OnInv]. }
  apply preserves_bind; [apply stays_answerProposal|intros [vote handled]]. stays_tac.
Qed.
End awake.

Lemma UpdatePrecociousProposals_size d p d' :
  UpdatePrecociousProposals d = (Some p, d') ->
  S (size (precociousProposals d')) = size (precociousProposals d).
Proof.
  unfold UpdatePrecociousProposals. destruct (find _ _) as [[k q]|] eqn:E; [|done]. intros [= <- <-].
  apply find_some in E as [Hin _]. apply list_elem_of_In, elem_of_range_map in Hin. cbn.
  rewrite map_size_delete_Some by (by eexists). assert (size (precociousProposals d) <> 0)%nat; [|lia].
  intros E%map_size_empty_inv. by rewrite E, lookup_empty in Hin.
Qed.

(** The listener at fuel [n] handles fewer than [n] waiting proposals: each
    nested view change has taken one of them. *)
Lemma callbacks_awake n : listener_awake n (callbacks n).
Proof.
  induction n as [|n IH]; (split; [apply onConfirm_awake|apply onUnConfirm_awake|]); [lia|].
  intros a f s Hn He. cbn [callbacks OnViewChanged]. unfold onViewChanged, mbind, Eng_bind, env, upd_disp.
  destruct (when (a && hasOnDuty (snd s)) (out OutOnDuty) s) as [x s1] eqn:E1.
  assert (Hs1 : fst s1 = fst s /\ awake (snd s1)) by (destruct (a && hasOnDuty (snd s)); by injection E1 as _ <-).
  destruct Hs1 as [Hs1 He1]. rewrite Hs1. destruct (UpdatePrecociousProposals (fst s)) as [q d1] eqn:Eq.
  assert (Hs2 : awake (snd (snd (match q with
    | Some p => OnProposalReceived (callbacks n) zeroPID p | None => skip end (d1, snd s1))))).
  { destruct q as [p|]; [|done]. apply (OnProposalReceived_awake n _ IH). split; [done|].
    apply UpdatePrecociousProposals_size in Eq. cbn. lia. }
  match type of Hs2 with awake (snd (snd ?m)) => destruct m as [y s2] end. cbn [snd] in Hs2. revert s2 Hs2.
  change (forall s1, awake (snd s1) -> awake (snd (snd (?m s1)))) with (stays m). unfold stays. stays_tac.
  intros s2 Hs2. assert (Hc : is_Some (isCurrent (snd s2))) by apply Hs2.
  destruct (isCurrent (snd s2)) as [cur|]; [|by destruct Hc]. by destruct (cur && a).
Qed.

(** C5: nested view changes come to an end.  A view change takes up a waiting
    precocious proposal, which may change the view again, and so on; with fuel
    for one level more than there are waiting proposals, the reception of any
    proposal and any check for a view change run to completion, without running
    out of fuel, crashing or blocking on the block pool, whatever the clock, the
    pool and the votes do, on a node with its account and its functions set. *)
Theorem view_changes_end (fuel : nat) (id : bytes) (p : DPOSProposal) (s : State) :
  (size (precociousProposals (fst s)) < fuel)%nat -> awake (snd s) ->
  awake (snd (snd (OnProposalReceived (callbacks fuel) id p s))) /\
  awake (snd (snd (OnChangeView (callbacks fuel) s))).
Proof.
  intros Hn Hs. pose proof (callbacks_awake fuel) as Hcb.
  assert (Hf : fits fuel s) by done. split.
  - apply (OnProposalReceived_awake fuel _ Hcb id p s Hf).
  - apply (OnChangeView_awake fuel _ Hcb s Hf).
Qed.
End engine.

(** ** Witnesses *)
#[local] Existing Instances Toy.lib ToyCodec.codec toy_keccak list_range_order ToyEngine.wire.

Module ToyRun.
Definition proposal : DPOSProposal := example_proposal [2; 4] 77 0.
Definition vote (k : bytes) : DPOSProposalVote := example_vote proposal true k.
Definition event (ev : event) (s : State) : State := snd (perform (callbacks 3) ev s).

Definition prepared : State := event (EvPrepare example_header) ToyEngine.initial.
Definition with_block : State :=
  (fst prepared, (snd prepared) <| isSealing := 1 |> <| blockPool := blockPool ToyEngine.sealing_env |>).
Definition proposed : State := event (EvProposal [2; 4] proposal) with_block.
Definition voted : State :=
  event (EvVoteAccepted [2; 2] (vote [2; 2])) (event (EvVoteAccepted [2; 1] (vote [2; 1])) proposed).

Lemma reach_prepared : rtc (pstep 3 true) ToyEngine.initial prepared.
Proof. apply (reach_event (fresh := true) 3 (EvPrepare example_header)); [apply rtc_refl|exact I]. Qed.

Lemma reach_with_block : rtc (pstep 3 true) ToyEngine.initial with_block.
Proof.
  eapply rtc_r; [apply reach_prepared|]. unfold with_block. destruct prepared as [d e]. apply pstep_outside.
Qed.

Lemma reach_voted : rtc (pstep 3 true) ToyEngine.initial voted.
Proof. unfold voted, proposed, event. repeat (apply reach_event; [|exact I]). apply reach_with_block. Qed.
End ToyRun.

Lemma engine_safe_witness :
  exists c, processingProposal (fst ToyRun.voted) = Some (Proposal c) /\
    certificate (fst (snd (ProcessVote (callbacks 3) (ToyRun.vote [2; 3]) ToyRun.voted))) c.
Proof.
  destruct (engine_safe 3 true [[2; 1]; [2; 2]; [2; 3]; [2; 4]] (10 * Second) [2; 4] true 1 ToyEngine.initial_env
    ToyRun.voted Toy.vote_hash_unsigned_ok ToyRun.reach_voted) as (_ & _ & Hc).
  specialize (Hc (ToyRun.vote [2; 3]) true nil_err
    (snd (ProcessVote (callbacks 3) (ToyRun.vote [2; 3]) ToyRun.voted))).
  assert (E : fst (ProcessVote (callbacks 3) (ToyRun.vote [2; 3]) ToyRun.voted) = (true, true, nil_err))
    by (vm_compute; reflexivity).
  destruct Hc as (c & c' & _ & Hp & Hcert & _ & _ & Ec).
  - rewrite <- E. by destruct (ProcessVote _ _ _).
  - rewrite (Ec eq_refl) in Hcert. exists c. split; [exact Hp|exact Hcert].
Defined.

Lemma view_changes_end_witness :
  awake (snd (snd (OnProposalReceived (callbacks 1) [2; 4] ToyRun.proposal ToyRun.with_block))).
Proof.
  refine (proj1 (view_changes_end 1 [2; 4] ToyRun.proposal ToyRun.with_block _ _)).
  - apply (bool_decide_unpack _). vm_compute. done.
  - repeat split; vm_compute; try reflexivity; by eexists.
Defined.

(** A confirm with the votes of three producers, relayed to a node that is not
    on duty: the confirm the node files repeats the vote of [[2; 3]] three
    times. *)
Definition relayed_confirm : Confirm :=
  {| Proposal := ToyRun.proposal; Votes := ToyRun.vote <$> [[2; 1]; [2; 2]; [2; 3]; [2; 4]] |}.

Definition bystander : State :=
  ((fst ToyRun.proposed) <| consensusView := (consensusView (fst ToyRun.proposed)) <| isDposOnDuty := false |> |>,
   snd ToyRun.proposed).

Example relayed_confirm_filed :
  confirms (blockPool (snd (snd (OnConfirmReceived (callbacks 3) [2; 1] relayed_confirm 1000 bystander)))) !! 77 =
  Some {| Proposal := ToyRun.proposal; Votes := ToyRun.vote <$> [[2; 3]; [2; 3]; [2; 3]] |}.
Proof. vm_compute. reflexivity. Qed.
